(* ===== verification/_CoqProject ===== *)
-Q . S2P
Prelude.v
Config.v
Basics.v
BigFloat.v
MerkleArray.v
MerkleSignature.v
CertBuilder.v
Transactions.v
Bookkeeping.v
StateDelta.v
CompactCert.v
Cow.v
CowFacts.v
CowStorage.v
CowTotals.v
Balances.v
CowBalances.v
Apply.v
ApplyFacts.v
ApplyCorrect.v
Eval.v
EvalFacts.v
EvalMoney.v
Conserve.v
AvmValue.v
LogicParams.v
LogicLedger.v
LogicEval.v
LogicFacts.v
LogicMoney.v
LogicCorrect.v
LogicDepth.v
AvmFields.v
AvmMachine.v
AvmOps.v
AvmLoop.v
AvmMath.v
AvmTyped.v
AvmOpsTyped.v
AvmCorrect.v
AvmCheck.v
AvmFuel.v
AvmInner.v
Multisig.v
MultisigFacts.v
VerifyCache.v
Verify.v
VerifyPayset.v
VerifyFacts.v
VerifyCacheFacts.v
VerifyCorrect.v
AgVote.v
AgTracker.v
AgTrackerFacts.v
AgSafety.v
AgDelivery.v
AgProposal.v
AgRouter.v
AgRouterFacts.v
AgOrder.v
AgPlayer.v
AgMachineFacts.v
AgPlayerFacts.v
AgEventFacts.v
AgPlayerCorrect.v
MerkleFacts.v
MerkleCorrect.v
MerkleBinding.v
MerkleWorkers.v
MerkleSignatureCorrect.v
CertFacts.v
CertCorrect.v
CertLedger.v
TxTail.v
TxTailCorrect.v
