(* ===== verification/Prelude.v ===== *)
(** * Verification of the Novarand node

    Novarand is a fork of the Algorand node, written in Go.  A node agrees with
    its peers on one block per round and applies the blocks to a ledger of
    accounts, whose applications are programs of a stack machine.  This library
    models the cores of that program as executable definitions and proves
    what makes them correct.

    - _The ledger side_: the account model ([src/data/basics]), transactions
      ([src/data/transactions]), blocks, rewards and protocol upgrades
      ([src/data/bookkeeping]), the deltas and totals of a block
      ([src/ledger/ledgercore]), the copy-on-write view a block is evaluated in
      and the evaluator ([src/ledger/internal]), and the transaction types
      ([src/ledger/apply]).
    - _The interpreter_ ([src/data/transactions/logic]) with the ledger as programs see
      it ([applications.go] of [src/ledger/internal]): the opcodes, the loop, the
      static check, inner transactions and the calls of applications by programs.
    - _The verification of signatures_ ([src/data/transactions/verify] with
      [src/crypto/multisig.go]): single, multiple and logic signatures, the concurrent
      verification of a block, the cache of verified transactions.
    - _Commitments and compact certificates_ ([src/crypto/merklearray],
      [src/crypto/merklesignature], [src/crypto/compactcert]): Merkle trees and vector
      commitments, the signatures built on them, and certificates that show with a few
      of them that most of the weight signed.
    - _The agreement side_ ([src/agreement]): votes, bundles and certificates, the
      tree of state machines that counts votes and assembles proposals, and the
      player that moves through rounds, periods and steps and issues votes.

    The evaluator runs the programs of application calls in a child of its
    copy-on-write state; a program that submits inner transactions applies them
    through the transaction types again, and inner application calls run further
    programs.  Beside the evaluation, the validation of a block has the signatures
    verified of those groups that the cache does not know.  The
    sides meet in [AgVote] and [AgProposal], which read the ledger through
    [LedgerReader] and propose the blocks of [Bookkeeping], and in [Eval], whose
    fees go to the voters of the certificate of the previous block.  Compact certificates
    are recorded by transactions; [CompactCert] is the rule for them in the ledger, and
    [CertBuilder] the certificates themselves, over participants and their signatures
    that are committed in the vector commitments of [MerkleArray].

    ** How code becomes definitions

    Unsigned integers are [Z] with their wrap-around written out ([wrap64] and its
    siblings); [time.Duration] is a signed 64-bit number of nanoseconds.  A
    fallible function returns an [outcome]: a value, an error, or a panic, so that
    error returns and crashes are different results.  Stateful code is a
    computation of the monad [M], which keeps the changed state on errors, as Go
    does.  Records stand for structs, updated with [r <| f := v |>]; maps are
    [gmap], slices lists.  Names are the names of the source, with a prefix where
    Go has methods of the same name.  What a definition translates is told by the
    comment above it and by the file and function names below.  Error values keep
    the format string of the message, not its arguments.

    ** Files and what their theorems show

    [Prelude]: machine integers, the outcome and state monads with their
    automation ([okinv], [wp_step]), record update, sums over lists and maps.

    [Config] ([src/config/consensus.go]): every consensus parameter, and the table
    of all protocol versions with the approved upgrades.

    [Basics] ([overflow.go], [units.go], [teal.go], [userBalance.go]): deferred
    rewards are paid exactly and once; the minimum balance is exact up to the cap.

    [Transactions] ([transaction.go] and the transaction fields): what a
    well-formed transaction satisfies; comparison of apply data.

    [Bookkeeping] ([block.go]): under the rules with [RewardsCalculationFix] and
    [PendingResidueRewards] the rewards schedule never promises more than a pool
    that covers what it owes; a protocol upgrade needs its quorum, completes when
    it has it and is dropped when it has not;
    a made block passes the checks of its successor; encoding and grouping of
    transactions are inverted by decoding.

    [StateDelta] ([statedelta.go], [totals.go]): the ordered account table refines
    a finite map.  [CompactCert] ([compactcert.go]): the weight a compact
    certificate must carry.

    [Cow] ([cow.go], [appcow.go], [assetcow.go], [roundCowBase] of [eval.go]) is the
    stack of copy-on-write states.  [CowFacts]: caches are transparent and a commit
    changes nothing a client observes ([view_equiv]).  [CowStorage]: application
    storage is a finite map with exact counters.  [CowTotals]: no transaction is
    recorded twice, totals are exact and conserve money, folding storage into
    accounts changes no read.

    [Balances] ([apply.go]) is the interface between transaction types and ledger:
    a class of operations with its laws.  [CowBalances] shows that the
    copy-on-write ledger keeps the laws; [Apply] is its client, one function per
    transaction type; [ApplyFacts] and [ApplyCorrect] prove the clients correct
    from the laws alone: payments conserve money, asset transfers conserve units,
    schema totals stay exact, guards hold.

    [Eval] ([eval.go]): [StartEvaluator], [transactionGroup], [endOfBlock],
    [GenerateBlock] and [Eval].  [EvalFacts]: a group takes effect as a whole or
    not at all, accounts keep their minimum balance.  [EvalMoney]: where fees and
    rewards go.

    [Conserve]: no transaction type makes or destroys money, for every implementation
    of [Balances] that keeps the laws.

    [LogicParams] (the evaluation parameters of a group), [LogicLedger]
    ([applications.go]) and [LogicEval] ([EvalContract], [opTxSubmit]) are the evaluation
    of an application around the machine: what a program does is a tree of requests to
    its surroundings, run by [runProgram].  [LogicFacts], [LogicMoney]: an evaluation
    works on its own cow and conserves money, whatever the program.  [LogicCorrect]:
    hence so do transaction groups; an example where a rejecting clear-state program called
    from a program leaves a record.  [LogicDepth]: calls are at most [maxAppCallDepth] deep.

    [AvmValue] (the opcodes that compute on the stack), [AvmFields] ([fields.go]),
    [AvmMachine] (the state of a running program and what it can refer to), [AvmOps]
    (all other opcodes) and [AvmLoop] ([opcodes.go], [step], [eval], [check], logic
    signatures) are the interpreter, which is the instance [avm] of the class
    [LogicEnv] the evaluation is parametrised by.  [AvmMath]: arithmetic on words and
    byte strings is exact or an error, conversions are inverse to each other.
    [AvmTyped] is a logic for program trees; [AvmOpsTyped]: every opcode keeps the types
    of the machine.  [AvmCorrect]: groups conserve money with the interpreter of the
    source, nothing assumed of the programs.  [AvmCheck]: the static check confines
    every run to the instructions it has seen.  [AvmFuel]: programs terminate.
    [AvmInner]: two defects of inner transactions.

    [Multisig] ([multisig.go], [batchverifier.go]) and [MultisigFacts]: signatures made
    by enough keys and put together verify.  [VerifyCache] ([verifiedTxnCache.go]),
    [Verify] ([txn.go]) and [VerifyPayset] ([PaysetGroups], as a relation between the
    states of its loop and its workers).  [VerifyFacts], [VerifyCacheFacts] and
    [VerifyCorrect]: a group is accepted exactly when its members are authorised and the
    fees are paid; the concurrent verification always returns; a validated block is
    signed when the cache starts empty; what the cache vouches for; and three defects of
    the cache: it remembers groups before their signatures are verified, compares
    signatures by position, and panics on a group longer than the one it remembers.

    [AgVote] ([types.go], [vote.go], [bundle.go], [certificate.go], [selector.go],
    [credential.go]): verification of votes and bundles.  [AgTracker]
    ([voteTracker.go] with its contract) counts the votes of a step;
    [AgTrackerFacts] is its invariant; [AgSafety]: the tracker refines counting
    over the set of votes, reports a threshold exactly once with a bundle that
    verifies, and two bundles for different values of a step expose double voters
    of at least twice the threshold less the committee.

    [AgDelivery] follows a tracker through arbitrary votes: a reported threshold
    carries a bundle of delivered votes that reaches the quorum, and it verifies
    when they did.

    [AgProposal] ([proposal.go], [proposalTracker.go], [proposalStore.go]) and
    [AgRouter] ([router.go], [voteAuxiliary.go], the handlers of the store): the
    machines of periods and rounds and the tree that creates and collects them.
    [AgRouterFacts] is the invariant of the tree.  [AgOrder]: the freshest
    threshold is a maximum by rank, the frozen value is that of the lowest
    credential, a node accepts its own proposals, the ranges of the next votes
    tile.

    [AgPlayer] ([voteAggregator.go], [proposalManager.go], [player.go], the main
    loop of [service.go]) is the player on top of the tree.  [AgMachineFacts],
    [AgPlayerFacts] and [AgEventFacts] follow an event through it;
    [AgPlayerCorrect] proves, for every run of the service: positions never go
    back, one vote per soft and next step, cert votes only for a staged value with
    its payload, commits only with a certificate that authenticates the block on
    every node, agreement of the commits of a period up to double voters, and
    termination on every event; and that a certificate of a collected period makes
    the player panic.

    [BigFloat] ([bigfloat.go], [numReveals]): the floats with directed rounding that the
    number of reveals is computed with; rounding never costs security.

    [MerkleArray] ([src/crypto/merklearray] and the hash types of [hashes.go]): building,
    proving and verifying, sequentially.  [MerkleFacts] follows a proof from level to
    level.  [MerkleCorrect]: what a tree proves, verifies; and two defects of the
    verification, which trusts the depth and the length of the hints of a proof.
    [MerkleBinding]: with the right depth and hints of the size of digests, a root opens a
    position to one element only.  [MerkleWorkers] ([worker.go], [buildWorker],
    [upWorker]): the goroutines that build a tree, as a relation between states; every run
    ends and computes what [MerkleArray] does.

    [MerkleSignature] ([src/crypto/merklesignature], [falconWrapper.go]) and
    [MerkleSignatureCorrect]: keys sign for the rounds they were made for, and what they
    sign verifies.

    [CertBuilder] ([builder.go], [verifier.go], [common.go],
    [committableSignatureSlot.go], [ccertpart.go]), with the invariant of the builder in
    [CertFacts].  [CertCorrect]: certificates that are built from signatures with whole paths
    verify; and two ways to crash
    a verifier and a builder with a path that is too short.  [CertLedger] puts the ledger
    on the verifier: the certificates that are built are recorded.

    [TxTail] ([src/ledger/txtail.go]): the tracker of recent transactions and leases, which
    answers the question of [Eval] whether a transaction is a duplicate.
    [TxTailCorrect]: it answers for the whole chain, through forgetting and restarts.

    ** Recursion

    Where the source recurses or loops, the model recurses on the data (lists of
    transactions, votes, inner transactions) except in ten places that carry fuel.
    [EvalContract] recurses into the applications that programs call; its fuel is one
    more than [maxAppCallDepth], and [LogicDepth.call_depth_bounded] shows that more
    changes nothing.  The loop of the interpreter gets [evalFuel] instructions, one more
    than the budget the program and the inner calls still allowed can bring;
    [AvmFuel.program_terminates] shows that they are never used up.  The loop of the
    static check gets one step per byte of the program; [AvmCheck.check_loop_fuel] is
    the lemma that this is enough.  Layers of a tree are built at most as often as there
    are leaves, a verifier takes at most as many turns as it has hints and items
    ([MerkleFacts.verifyPath_enough]), the binary search of a coin at most as many as
    there are slots, and keys are generated in at most as many ranges as there are keys;
    the round trips of [MerkleCorrect], [CertCorrect] and [MerkleSignatureCorrect] show
    that these succeed.  The search for the number of reveals ends at its own bound, and the
    search for a lease takes a turn for every round it looks at.
    [enterRound] may enter the next round when a threshold for it was pipelined: it is
    bounded by the number of rounds with such a threshold.
    [handleMessageEvent] handles the messages that waited for a vote: it is bounded
    by the number of those.  [AgPlayerCorrect.submitTop_terminates] shows that some
    fuel is always enough and that more changes nothing; the error for missing
    fuel is the only error a handler of the player can return.

    ** Parameters

    Hashes, signatures, the VRF and sortition ([VoteCrypto], [ProposalCrypto],
    [Hashes], [LogicHashes], [AvmCrypto], [SigCrypto], [Falcon], the hash functions of
    [MerkleArray]), the encoding of coins, the verification of compact certificates where
    the ledger calls it ([CertLedger] gives the one of the source), the ledger of the
    previous round, and the block validator of the agreement are arguments of the
    definitions.  What a theorem needs of them is a hypothesis of that
    theorem.  [Eval] and [LogicEval] take the interpreter as an argument as well
    ([Interpreter], [LogicEnv]), so that their theorems hold for every one;
    [logicInterpreter] with [avm] is the one of the source.

    ** Not modelled

    The assembler and disassembler of programs, the debugger and traces of the
    interpreter and its opcode [base64_decode], which belongs to a version that cannot
    be run yet ([src/data/transactions/logic]); the other trackers of the ledger, which are
    databases; the transaction pool, participation keys and the signing of votes;
    the demultiplexer, worker pools, persistence and tracing of the agreement
    service; network, catchup, daemons, command-line tools; generated codecs; the databases of keys, one-time signatures, Merkle tries and the bindings of
    cryptographic libraries ([src/crypto]).  Concurrency is modelled step by step in
    [VerifyPayset] and [MerkleWorkers]; elsewhere inside the modelled parts (loading of
    accounts, verification of the votes of a bundle, generation of keys) it is modelled
    by its result.  Logging is left out. *)
From Stdlib Require Export ZArith Lia.
From stdpp Require Export base gmap strings list option sorting.

#[global] Open Scope Z_scope.

(** ** Machine integers

    Go's unsigned integers are values of [Z]; the wrap-around of every
    arithmetic operation is written out with [wrap64] and its siblings. *)

Definition two64 : Z := 18446744073709551616.
Definition two32 : Z := 4294967296.
Definition two16 : Z := 65536.
Definition MaxUint64 : Z := 18446744073709551615.
Definition MaxUint32 : Z := 4294967295.

Definition wrap64 (x : Z) : Z := x mod two64.
Definition wrap32 (x : Z) : Z := x mod two32.
Definition wrap16 (x : Z) : Z := x mod two16.

(** Two's complement wrap-around of [int64]. *)
Definition swrap64 (x : Z) : Z := (x + 9223372036854775808) mod two64 - 9223372036854775808.

Definition is_u64 (x : Z) : Prop := 0 <= x < two64.
Definition is_u32 (x : Z) : Prop := 0 <= x < two32.

(** Unfold the machine constants and let [lia] see them. *)
Ltac unfold_words :=
  unfold is_u64, is_u32, wrap64, wrap32, wrap16,
    two64, two32, two16, MaxUint64, MaxUint32 in *.
Ltac word := unfold_words; lia.

Lemma wrap64_small x : is_u64 x -> wrap64 x = x.
Proof. intros; apply Z.mod_small; word. Qed.

Lemma wrap64_range x : is_u64 (wrap64 x).
Proof. unfold wrap64, is_u64. apply Z.mod_pos_bound. word. Qed.

Lemma wrap32_small x : is_u32 x -> wrap32 x = x.
Proof. intros; apply Z.mod_small; word. Qed.

(** One period above: the sum of two words that does not fit. *)
Lemma wrap64_over x : two64 <= x < 2 * two64 -> wrap64 x = x - two64.
Proof.
  intros. unfold wrap64. symmetry. apply Z.mod_unique with 1; word.
Qed.

(** One period below: the difference of two words that goes negative. *)
Lemma wrap64_under x : - two64 <= x < 0 -> wrap64 x = x + two64.
Proof.
  intros. unfold wrap64. symmetry. apply Z.mod_unique with (-1); word.
Qed.

Create HintDb words.
Create Rewrite HintDb words.
#[export] Hint Resolve wrap64_range : words.
#[export] Hint Rewrite wrap64_small wrap32_small using word : words.

(** ** Results

    A Go function returns a value, returns an error, or panics (an explicit
    [Panicf], an out-of-range index, a division by zero).  [fmt.Errorf] errors
    carry the head of their message; the error values the code tells apart by
    type have constructors of their own. *)

Inductive error : Type :=
| Errorf (msg : string)
| TxnDeadError
| TransactionInLedgerError
| LeaseInLedgerError
| LogicEvalError (cause : error)
| ClearStateBudgetError
| MinFeeError
| ErrNoSpace
| ErrRoundZero
| ErrNonSequentialBlockEval.

#[export] Instance error_eq_dec : EqDecision error.
Proof.
  intros x. induction x; intros []; try (right; congruence); try (left; congruence).
  - destruct (decide (msg = msg0)); [left|right]; congruence.
  - destruct (IHx cause); [left|right]; congruence.
Defined.

Inductive outcome (A : Type) : Type :=
| Ok (a : A)
| Err (e : error)
| Panic.
Arguments Ok {A} a.
Arguments Err {A} e.
Arguments Panic {A}.

#[export] Instance outcome_ret : MRet outcome := fun A a => Ok a.
#[export] Instance outcome_bind : MBind outcome := fun A B k m =>
  match m with Ok a => k a | Err e => Err e | Panic => Panic end.

#[export] Instance outcome_eq_dec {A} `{EqDecision A} : EqDecision (outcome A).
Proof. solve_decision. Defined.

(** Fail with an error when a guard of the code holds. *)
Definition failIf (b : bool) (e : error) : outcome unit :=
  if b then Err e else Ok tt.

Definition isOk {A} (r : outcome A) : bool :=
  match r with Ok _ => true | _ => false end.

Lemma outcome_bind_Ok {A B} (m : outcome A) (k : A -> outcome B) b :
  (m ≫= k) = Ok b <-> exists a, m = Ok a /\ k a = Ok b.
Proof. destruct m; cbn; naive_solver. Qed.

Lemma failIf_Ok b e u : failIf b e = Ok u <-> b = false.
Proof. destruct b, u; cbn; naive_solver. Qed.

(** ** The state and error monad

    A method on mutable state: it returns an outcome together with the state
    it leaves behind.  As in Go, the state written before an error is
    returned is kept. *)

Definition M (S A : Type) : Type := S -> outcome A * S.

#[export] Instance M_ret {S} : MRet (M S) := fun A a s => (Ok a, s).
#[export] Instance M_bind {S} : MBind (M S) := fun A B k m s =>
  match m s with
  | (Ok a, s') => k a s'
  | (Err e, s') => (Err e, s')
  | (Panic, s') => (Panic, s')
  end.

Section monad.
  Context {S : Type}.

Definition throw {A} (e : error) : M S A := fun s => (Err e, s).
Definition lift {A} (r : outcome A) : M S A := fun s => (r, s).
Definition gets {A} (f : S -> A) : M S A := fun s => (Ok (f s), s).
Definition modify (f : S -> S) : M S unit := fun s => (Ok tt, f s).
Definition throwIf (b : bool) (e : error) : M S unit := lift (failIf b e).

(** Run [m] and look at the error it returns. *)
Definition attempt {A} (m : M S A) : M S (A + error) := fun s =>
  match m s with
  | (Ok a, s') => (Ok (inl a), s')
  | (Err e, s') => (Ok (inr e), s')
  | (Panic, s') => (Panic, s')
  end.

(** [for _, x := range l]: run the body in order, stop at the first error. *)
Fixpoint mforeach {A} (f : A -> M S unit) (l : list A) : M S unit :=
  match l with
  | [] => mret tt
  | x :: l' => _ ← f x; mforeach f l'
  end.

Lemma bind_Ok {A B} (m : M S A) (k : A -> M S B) s b s2 :
  (m ≫= k) s = (Ok b, s2) <-> exists a s1, m s = (Ok a, s1) /\ k a s1 = (Ok b, s2).
Proof.
  unfold mbind, M_bind. destruct (m s) as [[a|e|] s1]; naive_solver.
Qed.

Lemma ret_Ok {A} (a b : A) s s' :
  (mret a : M S A) s = (Ok b, s') <-> b = a /\ s' = s.
Proof. unfold mret, M_ret. naive_solver. Qed.

Lemma lift_Ok {A} (r : outcome A) a s s' :
  lift r s = (Ok a, s') <-> r = Ok a /\ s' = s.
Proof. unfold lift. naive_solver. Qed.

Lemma throw_Ok {A} e (a : A) s s' : throw e s = (Ok a, s') <-> False.
Proof. unfold throw. naive_solver. Qed.

Lemma gets_Ok {A} (f : S -> A) a s s' :
  gets f s = (Ok a, s') <-> a = f s /\ s' = s.
Proof. unfold gets. naive_solver. Qed.

Lemma modify_Ok f u s s' : modify f s = (Ok u, s') <-> s' = f s.
Proof. unfold modify. destruct u; naive_solver. Qed.

Lemma throwIf_Ok b e u s s' :
  throwIf b e s = (Ok u, s') <-> b = false /\ s' = s.
Proof. unfold throwIf. rewrite lift_Ok, failIf_Ok. done. Qed.

(** A property every run of [m] establishes between the states before and
    after it, whatever it returns. *)
Definition keeps (R : S -> S -> Prop) {A} (m : M S A) : Prop :=
  forall s, R s (m s).2.

Lemma keeps_ret R {A} (a : A) : (forall s, R s s) -> keeps R (mret a).
Proof. intros H s. apply H. Qed.

Lemma keeps_lift R {A} (r : outcome A) : (forall s, R s s) -> keeps R (lift r).
Proof. intros H s. apply H. Qed.

Lemma keeps_bind R {A B} (m : M S A) (k : A -> M S B) :
  (forall x y z, R x y -> R y z -> R x z) ->
  keeps R m -> (forall a, keeps R (k a)) -> keeps R (m ≫= k).
Proof.
  intros Htr Hm Hk s. unfold mbind, M_bind. specialize (Hm s).
  destruct (m s) as [[a|e|] s1]; cbn in *; [|done|done].
  eapply Htr; [done|]. apply Hk.
Qed.

(** Weakest precondition: [m] run from [s] ends in a result and a state that
    satisfy [Q], error and panic included. *)
Definition wp {A} (m : M S A) (Q : outcome A -> S -> Prop) (s : S) : Prop := Q (m s).1 (m s).2.

(** The continuation of a bind: run the rest on a value, stop otherwise. *)
Definition andThen {A B} (k : A -> M S B) (Q : outcome B -> S -> Prop) (r : outcome A) (s : S) : Prop :=
  match r with
  | Ok a => wp (k a) Q s
  | Err e => Q (Err e) s
  | Panic => Q Panic s
  end.

Lemma wp_bind {A B} (m : M S A) (k : A -> M S B) Q s : wp m (andThen k Q) s -> wp (m ≫= k) Q s.
Proof. unfold wp, andThen, mbind, M_bind. by destruct (m s) as [[]]. Qed.

Lemma wp_ret {A} (a : A) Q s : Q (Ok a) s -> wp (mret a) Q s.
Proof. done. Qed.
Lemma wp_throw {A} e (Q : outcome A -> S -> Prop) s : Q (Err e) s -> wp (throw e) Q s.
Proof. done. Qed.
Lemma wp_lift {A} (r : outcome A) Q s : Q r s -> wp (lift r) Q s.
Proof. done. Qed.
Lemma wp_gets {A} (f : S -> A) Q s : Q (Ok (f s)) s -> wp (gets f) Q s.
Proof. done. Qed.
Lemma wp_modify f Q s : Q (Ok tt) (f s) -> wp (modify f) Q s.
Proof. done. Qed.
Lemma wp_throwIf b e Q s :
  (b = true -> Q (Err e) s) -> (b = false -> Q (Ok tt) s) -> wp (throwIf b e) Q s.
Proof. destruct b; cbv; auto. Qed.
Lemma wp_mono {A} (m : M S A) (Q Q' : outcome A -> S -> Prop) s :
  wp m Q s -> (forall r s', Q r s' -> Q' r s') -> wp m Q' s.
Proof. unfold wp. auto. Qed.
Lemma wp_if {A} (b : bool) (m1 m2 : M S A) Q s :
  (b = true -> wp m1 Q s) -> (b = false -> wp m2 Q s) -> wp (if b then m1 else m2) Q s.
Proof. destruct b; auto. Qed.
Lemma wp_attempt {A} (m : M S A) (Q : outcome (A + error) -> S -> Prop) s :
  wp m (fun r s' => match r with
                    | Ok a => Q (Ok (inl a)) s'
                    | Err e => Q (Ok (inr e)) s'
                    | Panic => Q Panic s'
                    end) s -> wp (attempt m) Q s.
Proof. unfold wp, attempt. by destruct (m s) as [[]]. Qed.
Lemma wp_and {A} (m : M S A) (Q Q' : outcome A -> S -> Prop) s :
  wp m Q s -> wp m Q' s -> wp m (fun r s' => Q r s' /\ Q' r s') s.
Proof. done. Qed.

(** Two steps proved together. *)
Lemma wp_bind2 {A B C} (m : M S A) (m' : M S B) (k : B -> M S C) Q s :
  wp (_ ← m; m') (andThen k Q) s -> wp (_ ← m; x ← m'; k x) Q s.
Proof. unfold wp, andThen, mbind, M_bind. destruct (m s) as [[a|e|] s1]; [|done..]. by destruct (m' s1) as [[]]. Qed.

(** Reading the result of a run back from its weakest precondition. *)
Lemma wp_run {A} (m : M S A) Q s r s' : m s = (r, s') -> wp m Q s -> Q r s'.
Proof. unfold wp. by intros ->. Qed.
Lemma wp_intro {A} (m : M S A) (Q : outcome A -> S -> Prop) s :
  (forall r s', m s = (r, s') -> Q r s') -> wp m Q s.
Proof. unfold wp. intros H. apply H. by destruct (m s). Qed.
End monad.
#[global] Arguments wp : simpl never.
#[global] Arguments andThen {S A B} k Q !r s /.

(** Step through a computation; guards leave a goal for each branch. *)
Ltac wp_step :=
  lazymatch goal with
  | |- wp (_ ≫= _) _ _ => apply wp_bind; wp_step
  | |- wp (mret _) _ _ => apply wp_ret; cbn [andThen]
  | |- wp (throw _) _ _ => apply wp_throw; cbn [andThen]
  | |- wp (gets _) _ _ => apply wp_gets; cbn [andThen]
  | |- wp (modify _) _ _ => apply wp_modify; cbn [andThen]
  | |- wp (lift _) _ _ => apply wp_lift
  | |- wp (throwIf _ _) _ _ => apply wp_throwIf; cbn [andThen]; intros ?
  | _ => idtac
  end.

(** Decompose a successful run [m s = (Ok a, s')] into the runs of its parts. *)
Ltac minv_step H :=
  lazymatch type of H with
  | (_ ≫= _) _ = (Ok _, _) =>
      let a := fresh "a" in let s := fresh "s" in let Hm := fresh "Hm" in
      apply bind_Ok in H as (a & s & Hm & H); cbv beta in H; minv_step Hm
  | mret _ _ = (Ok _, _) => apply ret_Ok in H as [? ?]; subst
  | lift _ _ = (Ok _, _) => apply lift_Ok in H as [H ?]; subst
  | throw _ _ = (Ok _, _) => apply throw_Ok in H; destruct H
  | gets _ _ = (Ok _, _) => apply gets_Ok in H as [? ?]; subst
  | modify _ _ = (Ok _, _) => apply modify_Ok in H; subst
  | throwIf _ _ _ = (Ok _, _) => apply throwIf_Ok in H as [H ?]; subst
  | (match ?x with (_, _) => _ end) _ = (Ok _, _) =>
      tryif is_var x then (destruct x; cbv beta iota in H; minv_step H) else idtac
  | _ => idtac
  end.
Ltac minv H := minv_step H.

(** Decompose a successful pure call the same way. *)
Ltac okinv H :=
  lazymatch type of H with
  | (_ ≫= _) = Ok _ =>
      let a := fresh "a" in let Ha := fresh "Ho" in
      apply outcome_bind_Ok in H as (a & Ha & H); cbv beta in H; okinv Ha; okinv H
  | failIf _ _ = Ok _ => apply failIf_Ok in H
  | Ok _ = Ok _ => injection H as H
  | Err _ = Ok _ => discriminate H
  | Panic = Ok _ => discriminate H
  | (match ?x with (_, _) => _ end) = Ok _ =>
      tryif is_var x then (destruct x; cbv beta iota in H; okinv H) else idtac
  | _ => idtac
  end.

(** ** Record update

    [r <| f := v |>] is the record [r] with its field [f] replaced, the
    assignment [r.f = v] of the source on a copy.  A record declares its
    fields once, in an instance of [Eta]; the setter of a field is computed
    from it. *)

Class Eta (R : Type) : Type := eta : R -> R.
Class Setter {R E : Type} (p : R -> E) : Type := set_field : E -> R -> R.

Ltac solve_setter R p :=
  let e := constr:(_ : Eta R) in
  let v := fresh "v" in let r := fresh "r" in
  unfold Setter; intros v r;
  let b := eval hnf in e in
  let b := eval cbv beta in (b r) in
  let g := eval pattern (p r) in b in
  lazymatch g with
  | ?h _ => let res := eval cbv beta in (h v) in exact res
  end.

#[export] Hint Extern 1 (@Setter ?R ?E ?p) => solve_setter R p : typeclass_instances.

Notation "r <| p := v |>" := (set_field (p := p) v r)
  (at level 12, left associativity, p at level 9, v at level 200,
   format "r  <| p  :=  v |>").

(** ** Generic lemmas on lists, maps and sums *)

(** The sum of [f] over a list of addresses. *)
Fixpoint sumZ {A} (f : A -> Z) (l : list A) : Z :=
  match l with
  | [] => 0
  | a :: l' => f a + sumZ f l'
  end.

Lemma sumZ_ext {A} (f g : A -> Z) l :
  (forall a, a ∈ l -> f a = g a) -> sumZ f l = sumZ g l.
Proof.
  induction l as [|x l IH]; cbn; intros H; [done|].
  rewrite H by set_solver. rewrite IH by set_solver. done.
Qed.

Lemma sumZ_app {A} (f : A -> Z) l1 l2 : sumZ f (l1 ++ l2) = sumZ f l1 + sumZ f l2.
Proof. induction l1; cbn; lia. Qed.

Lemma sumZ_nonneg {A} (f : A -> Z) l :
  (forall a, a ∈ l -> 0 <= f a) -> 0 <= sumZ f l.
Proof.
  induction l as [|x l IH]; cbn; intros H; [lia|].
  specialize (IH ltac:(set_solver)). specialize (H x ltac:(set_solver)). lia.
Qed.

Lemma sumZ_le_elem {A} (f : A -> Z) l x :
  (forall a, a ∈ l -> 0 <= f a) -> x ∈ l -> f x <= sumZ f l.
Proof.
  induction l as [|y l IH]; intros Hf Hx; [set_solver|].
  apply elem_of_cons in Hx as [->|Hx]; cbn.
  - pose proof (sumZ_nonneg f l ltac:(set_solver)). lia.
  - specialize (IH ltac:(set_solver) Hx). specialize (Hf y ltac:(set_solver)). lia.
Qed.

(** Changing [f] at one address of a duplicate-free list changes the sum by
    the difference there. *)
Lemma sumZ_update {A} (f g : A -> Z) l x :
  NoDup l -> x ∈ l -> (forall a, a <> x -> g a = f a) ->
  sumZ g l = sumZ f l + (g x - f x).
Proof.
  intros Hnd Hx Hfg. induction Hnd as [|y l Hy Hnd IH]; [set_solver|].
  cbn. apply elem_of_cons in Hx as [->|Hx].
  - rewrite (sumZ_ext g f l) by (intros a Ha; apply Hfg; set_solver). lia.
  - rewrite (Hfg y) by set_solver. rewrite IH by done. lia.
Qed.

#[export] Instance sumZ_perm {A} (f : A -> Z) : Proper ((≡ₚ) ==> (=)) (sumZ f).
Proof. intros l1 l2 H. induction H; cbn in *; lia. Qed.

(** The sum of [f] over the values of a map. *)
Definition mapsumZ `{Countable K} {V} (f : V -> Z) (m : gmap K V) : Z :=
  sumZ (fun kv => f kv.2) (map_to_list m).

Lemma mapsumZ_empty `{Countable K} {V} (f : V -> Z) : mapsumZ f (∅ : gmap K V) = 0.
Proof. unfold mapsumZ. by rewrite map_to_list_empty. Qed.

Lemma mapsumZ_insert `{Countable K} {V} (f : V -> Z) (m : gmap K V) k v :
  m !! k = None -> mapsumZ f (<[k := v]> m) = f v + mapsumZ f m.
Proof. intros Hk. unfold mapsumZ. rewrite map_to_list_insert by done. done. Qed.

Lemma mapsumZ_delete `{Countable K} {V} (f : V -> Z) (m : gmap K V) k v :
  m !! k = Some v -> mapsumZ f m = f v + mapsumZ f (delete k m).
Proof.
  intros Hk. rewrite <- (mapsumZ_insert f (delete k m) k v) by apply lookup_delete_eq.
  by rewrite insert_delete_id.
Qed.

Lemma mapsumZ_nonneg `{Countable K} {V} (f : V -> Z) (m : gmap K V) :
  map_Forall (fun _ v => 0 <= f v) m -> 0 <= mapsumZ f m.
Proof.
  intros Hm. apply sumZ_nonneg. intros [k v] Hkv%elem_of_map_to_list. by apply (Hm k v).
Qed.

(** A check of every entry of a map, by computation. *)
Definition map_checkb {V} (f : string -> V -> bool) (m : gmap string V) : bool :=
  forallb (fun '(k, v) => f k v) (map_to_list m).

Lemma map_checkb_lookup {V} (f : string -> V -> bool) m k v :
  map_checkb f m = true -> m !! k = Some v -> f k v = true.
Proof.
  unfold map_checkb. rewrite forallb_forall. intros H Hk.
  apply (H (k, v)). by apply list_elem_of_In, elem_of_map_to_list.
Qed.
