(* ===== verification/Config.v ===== *)
(** The consensus parameters: [src/config/consensus.go] and the version
    strings of [src/protocol/consensus.go].

    [ConsensusParams] has every field of the Go struct, [time.Duration] values
    in nanoseconds.  [v7] to [vFuture] are the versions built one from another
    by [initConsensusProtocols]; [Consensus] is the resulting table, with the
    approved upgrades filled in as the function leaves them (Go stores the map
    by reference, so the entries added after [Consensus[...] = v] are seen).
    The table is the compiled-in one: the JSON file that may replace entries of
    it ([LoadConfigurableConsensusProtocols]) is not modelled. *)
From S2P Require Import Prelude.
#[local] Open Scope string_scope.
#[local] Open Scope Z_scope.

Inductive PaysetCommitType : Type :=
| PaysetCommitUnsupported
| PaysetCommitFlat
| PaysetCommitMerkle.
#[export] Instance PaysetCommitType_eq_dec : EqDecision PaysetCommitType.
Proof. solve_decision. Defined.

Record ConsensusParams : Type := mkConsensusParams {
  proto_UpgradeVoteRounds : Z;
  proto_UpgradeThreshold : Z;
  proto_DefaultUpgradeWaitRounds : Z;
  proto_MinUpgradeWaitRounds : Z;
  proto_MaxUpgradeWaitRounds : Z;
  proto_MaxVersionStringLen : Z;
  proto_MaxTxnBytesPerBlock : Z;
  proto_MaxTxnNoteBytes : Z;
  proto_MaxTxnLife : Z;
  proto_ApprovedUpgrades : gmap string Z;
  proto_SupportGenesisHash : bool;
  proto_RequireGenesisHash : bool;
  proto_DefaultKeyDilution : Z;
  proto_MinBalance : Z;
  proto_MinTxnFee : Z;
  proto_EnableFeePooling : bool;
  proto_EnableAppCostPooling : bool;
  proto_RewardUnit : Z;
  proto_RewardsRateRefreshInterval : Z;
  proto_SeedLookback : Z;
  proto_SeedRefreshInterval : Z;
  proto_MaxBalLookback : Z;
  proto_NumProposers : Z;
  proto_SoftCommitteeSize : Z;
  proto_SoftCommitteeThreshold : Z;
  proto_CertCommitteeSize : Z;
  proto_CertCommitteeThreshold : Z;
  proto_NextCommitteeSize : Z;
  proto_NextCommitteeThreshold : Z;
  proto_LateCommitteeSize : Z;
  proto_LateCommitteeThreshold : Z;
  proto_RedoCommitteeSize : Z;
  proto_RedoCommitteeThreshold : Z;
  proto_DownCommitteeSize : Z;
  proto_DownCommitteeThreshold : Z;
  proto_AgreementFilterTimeout : Z;
  proto_AgreementFilterTimeoutPeriod0 : Z;
  proto_FastRecoveryLambda : Z;
  proto_PaysetCommit : PaysetCommitType;
  proto_MaxTimestampIncrement : Z;
  proto_SupportSignedTxnInBlock : bool;
  proto_ForceNonParticipatingFeeSink : bool;
  proto_ApplyData : bool;
  proto_RewardsInApplyData : bool;
  proto_CredentialDomainSeparationEnabled : bool;
  proto_SupportBecomeNonParticipatingTransactions : bool;
  proto_PendingResidueRewards : bool;
  proto_Asset : bool;
  proto_MaxAssetsPerAccount : Z;
  proto_MaxAssetNameBytes : Z;
  proto_MaxAssetUnitNameBytes : Z;
  proto_MaxAssetURLBytes : Z;
  proto_TxnCounter : bool;
  proto_SupportTxGroups : bool;
  proto_MaxTxGroupSize : Z;
  proto_SupportTransactionLeases : bool;
  proto_FixTransactionLeases : bool;
  proto_LogicSigVersion : Z;
  proto_LogicSigMaxSize : Z;
  proto_LogicSigMaxCost : Z;
  proto_MaxAssetDecimals : Z;
  proto_SupportRekeying : bool;
  proto_Application : bool;
  proto_MaxAppArgs : Z;
  proto_MaxAppTotalArgLen : Z;
  proto_MaxAppProgramLen : Z;
  proto_MaxAppTotalProgramLen : Z;
  proto_MaxExtraAppProgramPages : Z;
  proto_MaxAppTxnAccounts : Z;
  proto_MaxAppTxnForeignApps : Z;
  proto_MaxAppTxnForeignAssets : Z;
  proto_MaxAppTotalTxnReferences : Z;
  proto_MaxAppProgramCost : Z;
  proto_MaxAppKeyLen : Z;
  proto_MaxAppBytesValueLen : Z;
  proto_MaxAppSumKeyValueLens : Z;
  proto_MaxInnerTransactions : Z;
  proto_EnableInnerTransactionPooling : bool;
  proto_IsolateClearState : bool;
  proto_MaxAppsCreated : Z;
  proto_MaxAppsOptedIn : Z;
  proto_AppFlatParamsMinBalance : Z;
  proto_AppFlatOptInMinBalance : Z;
  proto_SchemaMinBalancePerEntry : Z;
  proto_SchemaUintMinBalance : Z;
  proto_SchemaBytesMinBalance : Z;
  proto_MaxLocalSchemaEntries : Z;
  proto_MaxGlobalSchemaEntries : Z;
  proto_MaximumMinimumBalance : Z;
  proto_CompactCertRounds : Z;
  proto_CompactCertTopVoters : Z;
  proto_CompactCertVotersLookback : Z;
  proto_CompactCertWeightThreshold : Z;
  proto_CompactCertSecKQ : Z;
  proto_EnableAssetCloseAmount : bool;
  proto_InitialRewardsRateCalculation : bool;
  proto_NoEmptyLocalDeltas : bool;
  proto_EnableKeyregCoherencyCheck : bool;
  proto_EnableExtraPagesOnAppUpdate : bool;
  proto_MaxProposedExpiredOnlineAccounts : Z;
  proto_EnableBatchVerification : bool;
  proto_RewardsCalculationFix : bool;
  proto_EnableStateProofKeyregCheck : bool;
  proto_MaxKeyregValidPeriod : Z
}.

#[export] Instance Eta_ConsensusParams : Eta ConsensusParams := fun r =>
  mkConsensusParams
    (proto_UpgradeVoteRounds r) (proto_UpgradeThreshold r)
    (proto_DefaultUpgradeWaitRounds r) (proto_MinUpgradeWaitRounds r)
    (proto_MaxUpgradeWaitRounds r) (proto_MaxVersionStringLen r)
    (proto_MaxTxnBytesPerBlock r) (proto_MaxTxnNoteBytes r)
    (proto_MaxTxnLife r) (proto_ApprovedUpgrades r)
    (proto_SupportGenesisHash r) (proto_RequireGenesisHash r)
    (proto_DefaultKeyDilution r) (proto_MinBalance r) (proto_MinTxnFee r)
    (proto_EnableFeePooling r) (proto_EnableAppCostPooling r)
    (proto_RewardUnit r) (proto_RewardsRateRefreshInterval r)
    (proto_SeedLookback r) (proto_SeedRefreshInterval r)
    (proto_MaxBalLookback r) (proto_NumProposers r)
    (proto_SoftCommitteeSize r) (proto_SoftCommitteeThreshold r)
    (proto_CertCommitteeSize r) (proto_CertCommitteeThreshold r)
    (proto_NextCommitteeSize r) (proto_NextCommitteeThreshold r)
    (proto_LateCommitteeSize r) (proto_LateCommitteeThreshold r)
    (proto_RedoCommitteeSize r) (proto_RedoCommitteeThreshold r)
    (proto_DownCommitteeSize r) (proto_DownCommitteeThreshold r)
    (proto_AgreementFilterTimeout r) (proto_AgreementFilterTimeoutPeriod0 r)
    (proto_FastRecoveryLambda r) (proto_PaysetCommit r)
    (proto_MaxTimestampIncrement r) (proto_SupportSignedTxnInBlock r)
    (proto_ForceNonParticipatingFeeSink r) (proto_ApplyData r)
    (proto_RewardsInApplyData r) (proto_CredentialDomainSeparationEnabled r)
    (proto_SupportBecomeNonParticipatingTransactions r)
    (proto_PendingResidueRewards r) (proto_Asset r)
    (proto_MaxAssetsPerAccount r) (proto_MaxAssetNameBytes r)
    (proto_MaxAssetUnitNameBytes r) (proto_MaxAssetURLBytes r)
    (proto_TxnCounter r) (proto_SupportTxGroups r) (proto_MaxTxGroupSize r)
    (proto_SupportTransactionLeases r) (proto_FixTransactionLeases r)
    (proto_LogicSigVersion r) (proto_LogicSigMaxSize r)
    (proto_LogicSigMaxCost r) (proto_MaxAssetDecimals r)
    (proto_SupportRekeying r) (proto_Application r) (proto_MaxAppArgs r)
    (proto_MaxAppTotalArgLen r) (proto_MaxAppProgramLen r)
    (proto_MaxAppTotalProgramLen r) (proto_MaxExtraAppProgramPages r)
    (proto_MaxAppTxnAccounts r) (proto_MaxAppTxnForeignApps r)
    (proto_MaxAppTxnForeignAssets r) (proto_MaxAppTotalTxnReferences r)
    (proto_MaxAppProgramCost r) (proto_MaxAppKeyLen r)
    (proto_MaxAppBytesValueLen r) (proto_MaxAppSumKeyValueLens r)
    (proto_MaxInnerTransactions r) (proto_EnableInnerTransactionPooling r)
    (proto_IsolateClearState r) (proto_MaxAppsCreated r)
    (proto_MaxAppsOptedIn r) (proto_AppFlatParamsMinBalance r)
    (proto_AppFlatOptInMinBalance r) (proto_SchemaMinBalancePerEntry r)
    (proto_SchemaUintMinBalance r) (proto_SchemaBytesMinBalance r)
    (proto_MaxLocalSchemaEntries r) (proto_MaxGlobalSchemaEntries r)
    (proto_MaximumMinimumBalance r) (proto_CompactCertRounds r)
    (proto_CompactCertTopVoters r) (proto_CompactCertVotersLookback r)
    (proto_CompactCertWeightThreshold r) (proto_CompactCertSecKQ r)
    (proto_EnableAssetCloseAmount r) (proto_InitialRewardsRateCalculation r)
    (proto_NoEmptyLocalDeltas r) (proto_EnableKeyregCoherencyCheck r)
    (proto_EnableExtraPagesOnAppUpdate r)
    (proto_MaxProposedExpiredOnlineAccounts r)
    (proto_EnableBatchVerification r) (proto_RewardsCalculationFix r)
    (proto_EnableStateProofKeyregCheck r) (proto_MaxKeyregValidPeriod r).

(** ** The protocol versions *)

Definition ConsensusV7 : string := "v7".
Definition ConsensusV8 : string := "v8".
Definition ConsensusV9 : string := "v9".
Definition ConsensusV10 : string := "v10".
Definition ConsensusV11 : string := "v11".
Definition ConsensusV12 : string := "v12".
Definition ConsensusV13 : string := "https://github.com/algorand/spec/tree/0c8a9dc44d7368cc266d5407b79fb3311f4fc795".
Definition ConsensusV14 : string := "https://github.com/algorand/spec/tree/2526b6ae062b4fe5e163e06e41e1d9b9219135a9".
Definition ConsensusV15 : string := "https://github.com/algorand/spec/tree/a26ed78ed8f834e2b9ccb6eb7d3ee9f629a6e622".
Definition ConsensusV16 : string := "https://github.com/algorand/spec/tree/22726c9dcd12d9cddce4a8bd7e8ccaa707f74101".
Definition ConsensusV17 : string := "https://github.com/algorandfoundation/specs/tree/5615adc36bad610c7f165fa2967f4ecfa75125f0".
Definition ConsensusV18 : string := "https://github.com/algorandfoundation/specs/tree/6c6bd668be0ab14098e51b37e806c509f7b7e31f".
Definition ConsensusV19 : string := "https://github.com/algorandfoundation/specs/tree/0e196e82bfd6e327994bec373c4cc81bc878ef5c".
Definition ConsensusV20 : string := "https://github.com/algorandfoundation/specs/tree/4a9db6a25595c6fd097cf9cc137cc83027787eaa".
Definition ConsensusV21 : string := "https://github.com/algorandfoundation/specs/tree/8096e2df2da75c3339986317f9abe69d4fa86b4b".
Definition ConsensusV22 : string := "https://github.com/algorandfoundation/specs/tree/57016b942f6d97e6d4c0688b373bb0a2fc85a1a2".
Definition ConsensusV23 : string := "https://github.com/algorandfoundation/specs/tree/e5f565421d720c6f75cdd186f7098495caf9101f".
Definition ConsensusV24 : string := "https://github.com/algorandfoundation/specs/tree/3a83c4c743f8b17adfd73944b4319c25722a6782".
Definition ConsensusV25 : string := "https://github.com/algorandfoundation/specs/tree/bea19289bf41217d2c0af30522fa222ef1366466".
Definition ConsensusV26 : string := "https://github.com/algorandfoundation/specs/tree/ac2255d586c4474d4ebcf3809acccb59b7ef34ff".
Definition ConsensusV27 : string := "https://github.com/algorandfoundation/specs/tree/d050b3cade6d5c664df8bd729bf219f179812595".
Definition ConsensusV28 : string := "https://github.com/algorandfoundation/specs/tree/65b4ab3266c52c56a0fa7d591754887d68faad0a".
Definition ConsensusV29 : string := "https://github.com/algorandfoundation/specs/tree/abc54f79f9ad679d2d22f0fb9909fb005c16f8a1".
Definition ConsensusV30 : string := "https://github.com/algorandfoundation/specs/tree/bc36005dbd776e6d1eaf0c560619bb183215645c".
Definition ConsensusV31 : string := "https://github.com/algorandfoundation/specs/tree/85e6db1fdbdef00aa232c75199e10dc5fe9498f6".
Definition ConsensusFuture : string := "future".
Definition ConsensusCurrentVersion : string := ConsensusV31.

(** ** [initConsensusProtocols] *)

(** The zero value, which a lookup of an unknown version yields. *)
Definition ConsensusParams_zero : ConsensusParams := {|
  proto_UpgradeVoteRounds := 0;
  proto_UpgradeThreshold := 0;
  proto_DefaultUpgradeWaitRounds := 0;
  proto_MinUpgradeWaitRounds := 0;
  proto_MaxUpgradeWaitRounds := 0;
  proto_MaxVersionStringLen := 0;
  proto_MaxTxnBytesPerBlock := 0;
  proto_MaxTxnNoteBytes := 0;
  proto_MaxTxnLife := 0;
  proto_ApprovedUpgrades := ∅;
  proto_SupportGenesisHash := false;
  proto_RequireGenesisHash := false;
  proto_DefaultKeyDilution := 0;
  proto_MinBalance := 0;
  proto_MinTxnFee := 0;
  proto_EnableFeePooling := false;
  proto_EnableAppCostPooling := false;
  proto_RewardUnit := 0;
  proto_RewardsRateRefreshInterval := 0;
  proto_SeedLookback := 0;
  proto_SeedRefreshInterval := 0;
  proto_MaxBalLookback := 0;
  proto_NumProposers := 0;
  proto_SoftCommitteeSize := 0;
  proto_SoftCommitteeThreshold := 0;
  proto_CertCommitteeSize := 0;
  proto_CertCommitteeThreshold := 0;
  proto_NextCommitteeSize := 0;
  proto_NextCommitteeThreshold := 0;
  proto_LateCommitteeSize := 0;
  proto_LateCommitteeThreshold := 0;
  proto_RedoCommitteeSize := 0;
  proto_RedoCommitteeThreshold := 0;
  proto_DownCommitteeSize := 0;
  proto_DownCommitteeThreshold := 0;
  proto_AgreementFilterTimeout := 0;
  proto_AgreementFilterTimeoutPeriod0 := 0;
  proto_FastRecoveryLambda := 0;
  proto_PaysetCommit := PaysetCommitUnsupported;
  proto_MaxTimestampIncrement := 0;
  proto_SupportSignedTxnInBlock := false;
  proto_ForceNonParticipatingFeeSink := false;
  proto_ApplyData := false;
  proto_RewardsInApplyData := false;
  proto_CredentialDomainSeparationEnabled := false;
  proto_SupportBecomeNonParticipatingTransactions := false;
  proto_PendingResidueRewards := false;
  proto_Asset := false;
  proto_MaxAssetsPerAccount := 0;
  proto_MaxAssetNameBytes := 0;
  proto_MaxAssetUnitNameBytes := 0;
  proto_MaxAssetURLBytes := 0;
  proto_TxnCounter := false;
  proto_SupportTxGroups := false;
  proto_MaxTxGroupSize := 0;
  proto_SupportTransactionLeases := false;
  proto_FixTransactionLeases := false;
  proto_LogicSigVersion := 0;
  proto_LogicSigMaxSize := 0;
  proto_LogicSigMaxCost := 0;
  proto_MaxAssetDecimals := 0;
  proto_SupportRekeying := false;
  proto_Application := false;
  proto_MaxAppArgs := 0;
  proto_MaxAppTotalArgLen := 0;
  proto_MaxAppProgramLen := 0;
  proto_MaxAppTotalProgramLen := 0;
  proto_MaxExtraAppProgramPages := 0;
  proto_MaxAppTxnAccounts := 0;
  proto_MaxAppTxnForeignApps := 0;
  proto_MaxAppTxnForeignAssets := 0;
  proto_MaxAppTotalTxnReferences := 0;
  proto_MaxAppProgramCost := 0;
  proto_MaxAppKeyLen := 0;
  proto_MaxAppBytesValueLen := 0;
  proto_MaxAppSumKeyValueLens := 0;
  proto_MaxInnerTransactions := 0;
  proto_EnableInnerTransactionPooling := false;
  proto_IsolateClearState := false;
  proto_MaxAppsCreated := 0;
  proto_MaxAppsOptedIn := 0;
  proto_AppFlatParamsMinBalance := 0;
  proto_AppFlatOptInMinBalance := 0;
  proto_SchemaMinBalancePerEntry := 0;
  proto_SchemaUintMinBalance := 0;
  proto_SchemaBytesMinBalance := 0;
  proto_MaxLocalSchemaEntries := 0;
  proto_MaxGlobalSchemaEntries := 0;
  proto_MaximumMinimumBalance := 0;
  proto_CompactCertRounds := 0;
  proto_CompactCertTopVoters := 0;
  proto_CompactCertVotersLookback := 0;
  proto_CompactCertWeightThreshold := 0;
  proto_CompactCertSecKQ := 0;
  proto_EnableAssetCloseAmount := false;
  proto_InitialRewardsRateCalculation := false;
  proto_NoEmptyLocalDeltas := false;
  proto_EnableKeyregCoherencyCheck := false;
  proto_EnableExtraPagesOnAppUpdate := false;
  proto_MaxProposedExpiredOnlineAccounts := 0;
  proto_EnableBatchVerification := false;
  proto_RewardsCalculationFix := false;
  proto_EnableStateProofKeyregCheck := false;
  proto_MaxKeyregValidPeriod := 0 |}.

Definition v7 : ConsensusParams := {|
  proto_UpgradeVoteRounds := 10000;
  proto_UpgradeThreshold := 9000;
  proto_DefaultUpgradeWaitRounds := 10000;
  proto_MinUpgradeWaitRounds := 0;
  proto_MaxUpgradeWaitRounds := 0;
  proto_MaxVersionStringLen := 64;
  proto_MaxTxnBytesPerBlock := 1000000;
  proto_MaxTxnNoteBytes := 1024;
  proto_MaxTxnLife := 1000;
  proto_ApprovedUpgrades := ∅;
  proto_SupportGenesisHash := false;
  proto_RequireGenesisHash := false;
  proto_DefaultKeyDilution := 10000;
  proto_MinBalance := 10000;
  proto_MinTxnFee := 1000;
  proto_EnableFeePooling := false;
  proto_EnableAppCostPooling := false;
  proto_RewardUnit := 1000000;
  proto_RewardsRateRefreshInterval := 500000;
  proto_SeedLookback := 2;
  proto_SeedRefreshInterval := 100;
  proto_MaxBalLookback := 320;
  proto_NumProposers := 30;
  proto_SoftCommitteeSize := 2500;
  proto_SoftCommitteeThreshold := 1870;
  proto_CertCommitteeSize := 1000;
  proto_CertCommitteeThreshold := 720;
  proto_NextCommitteeSize := 10000;
  proto_NextCommitteeThreshold := 7750;
  proto_LateCommitteeSize := 10000;
  proto_LateCommitteeThreshold := 7750;
  proto_RedoCommitteeSize := 10000;
  proto_RedoCommitteeThreshold := 7750;
  proto_DownCommitteeSize := 10000;
  proto_DownCommitteeThreshold := 7750;
  proto_AgreementFilterTimeout := 4000000000;
  proto_AgreementFilterTimeoutPeriod0 := 4000000000;
  proto_FastRecoveryLambda := 300000000000;
  proto_PaysetCommit := PaysetCommitUnsupported;
  proto_MaxTimestampIncrement := 25;
  proto_SupportSignedTxnInBlock := false;
  proto_ForceNonParticipatingFeeSink := false;
  proto_ApplyData := false;
  proto_RewardsInApplyData := false;
  proto_CredentialDomainSeparationEnabled := false;
  proto_SupportBecomeNonParticipatingTransactions := false;
  proto_PendingResidueRewards := false;
  proto_Asset := false;
  proto_MaxAssetsPerAccount := 0;
  proto_MaxAssetNameBytes := 0;
  proto_MaxAssetUnitNameBytes := 0;
  proto_MaxAssetURLBytes := 0;
  proto_TxnCounter := false;
  proto_SupportTxGroups := false;
  proto_MaxTxGroupSize := 1;
  proto_SupportTransactionLeases := false;
  proto_FixTransactionLeases := false;
  proto_LogicSigVersion := 0;
  proto_LogicSigMaxSize := 0;
  proto_LogicSigMaxCost := 0;
  proto_MaxAssetDecimals := 0;
  proto_SupportRekeying := false;
  proto_Application := false;
  proto_MaxAppArgs := 0;
  proto_MaxAppTotalArgLen := 0;
  proto_MaxAppProgramLen := 0;
  proto_MaxAppTotalProgramLen := 0;
  proto_MaxExtraAppProgramPages := 0;
  proto_MaxAppTxnAccounts := 0;
  proto_MaxAppTxnForeignApps := 0;
  proto_MaxAppTxnForeignAssets := 0;
  proto_MaxAppTotalTxnReferences := 0;
  proto_MaxAppProgramCost := 0;
  proto_MaxAppKeyLen := 0;
  proto_MaxAppBytesValueLen := 0;
  proto_MaxAppSumKeyValueLens := 0;
  proto_MaxInnerTransactions := 0;
  proto_EnableInnerTransactionPooling := false;
  proto_IsolateClearState := false;
  proto_MaxAppsCreated := 0;
  proto_MaxAppsOptedIn := 0;
  proto_AppFlatParamsMinBalance := 0;
  proto_AppFlatOptInMinBalance := 0;
  proto_SchemaMinBalancePerEntry := 0;
  proto_SchemaUintMinBalance := 0;
  proto_SchemaBytesMinBalance := 0;
  proto_MaxLocalSchemaEntries := 0;
  proto_MaxGlobalSchemaEntries := 0;
  proto_MaximumMinimumBalance := 0;
  proto_CompactCertRounds := 0;
  proto_CompactCertTopVoters := 0;
  proto_CompactCertVotersLookback := 0;
  proto_CompactCertWeightThreshold := 0;
  proto_CompactCertSecKQ := 0;
  proto_EnableAssetCloseAmount := false;
  proto_InitialRewardsRateCalculation := false;
  proto_NoEmptyLocalDeltas := false;
  proto_EnableKeyregCoherencyCheck := false;
  proto_EnableExtraPagesOnAppUpdate := false;
  proto_MaxProposedExpiredOnlineAccounts := 0;
  proto_EnableBatchVerification := false;
  proto_RewardsCalculationFix := false;
  proto_EnableStateProofKeyregCheck := false;
  proto_MaxKeyregValidPeriod := 0
|}.

Definition v8 : ConsensusParams :=
  v7
    <| proto_SeedRefreshInterval := 80 |>
    <| proto_NumProposers := 9 |>
    <| proto_SoftCommitteeSize := 2990 |>
    <| proto_SoftCommitteeThreshold := 2267 |>
    <| proto_CertCommitteeSize := 1500 |>
    <| proto_CertCommitteeThreshold := 1112 |>
    <| proto_NextCommitteeSize := 5000 |>
    <| proto_NextCommitteeThreshold := 3838 |>
    <| proto_LateCommitteeSize := 5000 |>
    <| proto_LateCommitteeThreshold := 3838 |>
    <| proto_RedoCommitteeSize := 5000 |>
    <| proto_RedoCommitteeThreshold := 3838 |>
    <| proto_DownCommitteeSize := 5000 |>
    <| proto_DownCommitteeThreshold := 3838 |>.

Definition v9 : ConsensusParams :=
  v8
    <| proto_MinBalance := 100000 |>.

Definition v10 : ConsensusParams :=
  v9
    <| proto_NumProposers := 20 |>
    <| proto_LateCommitteeSize := 500 |>
    <| proto_LateCommitteeThreshold := 320 |>
    <| proto_RedoCommitteeSize := 2400 |>
    <| proto_RedoCommitteeThreshold := 1768 |>
    <| proto_DownCommitteeSize := 6000 |>
    <| proto_DownCommitteeThreshold := 4560 |>.

Definition v11 : ConsensusParams :=
  v10
    <| proto_SupportSignedTxnInBlock := true |>
    <| proto_PaysetCommit := PaysetCommitFlat |>.

Definition v12 : ConsensusParams :=
  v11
    <| proto_MaxVersionStringLen := 128 |>.

Definition v13 : ConsensusParams :=
  v12.

Definition v14 : ConsensusParams :=
  v13
    <| proto_ApplyData := true |>
    <| proto_SupportGenesisHash := true |>.

Definition v15 : ConsensusParams :=
  v14
    <| proto_RewardsInApplyData := true |>
    <| proto_ForceNonParticipatingFeeSink := true |>.

Definition v16 : ConsensusParams :=
  v15
    <| proto_CredentialDomainSeparationEnabled := true |>
    <| proto_RequireGenesisHash := true |>.

Definition v17 : ConsensusParams :=
  v16.

Definition v18 : ConsensusParams :=
  v17
    <| proto_PendingResidueRewards := true |>
    <| proto_TxnCounter := true |>
    <| proto_Asset := true |>
    <| proto_LogicSigVersion := 1 |>
    <| proto_LogicSigMaxSize := 1000 |>
    <| proto_LogicSigMaxCost := 20000 |>
    <| proto_MaxAssetsPerAccount := 1000 |>
    <| proto_SupportTxGroups := true |>
    <| proto_MaxTxGroupSize := 16 |>
    <| proto_SupportTransactionLeases := true |>
    <| proto_SupportBecomeNonParticipatingTransactions := true |>
    <| proto_MaxAssetNameBytes := 32 |>
    <| proto_MaxAssetUnitNameBytes := 8 |>
    <| proto_MaxAssetURLBytes := 32 |>.

Definition v19 : ConsensusParams :=
  v18.

Definition v20 : ConsensusParams :=
  v19
    <| proto_MaxAssetDecimals := 19 |>
    <| proto_DefaultUpgradeWaitRounds := 140000 |>.

Definition v21 : ConsensusParams :=
  v20.

Definition v22 : ConsensusParams :=
  v21
    <| proto_MinUpgradeWaitRounds := 10000 |>
    <| proto_MaxUpgradeWaitRounds := 150000 |>.

Definition v23 : ConsensusParams :=
  v22
    <| proto_FixTransactionLeases := true |>.

Definition v24 : ConsensusParams :=
  v23
    <| proto_LogicSigVersion := 2 |>
    <| proto_Application := true |>
    <| proto_SupportRekeying := true |>
    <| proto_MaximumMinimumBalance := 100100000 |>
    <| proto_MaxAppArgs := 16 |>
    <| proto_MaxAppTotalArgLen := 2048 |>
    <| proto_MaxAppProgramLen := 1024 |>
    <| proto_MaxAppTotalProgramLen := 2048 |>
    <| proto_MaxAppKeyLen := 64 |>
    <| proto_MaxAppBytesValueLen := 64 |>
    <| proto_MaxAppSumKeyValueLens := 128 |>
    <| proto_AppFlatParamsMinBalance := 100000 |>
    <| proto_AppFlatOptInMinBalance := 100000 |>
    <| proto_MaxAppTxnAccounts := 4 |>
    <| proto_MaxAppTxnForeignApps := 2 |>
    <| proto_MaxAppTxnForeignAssets := 2 |>
    <| proto_MaxAppTotalTxnReferences := 8 |>
    <| proto_SchemaMinBalancePerEntry := 25000 |>
    <| proto_SchemaUintMinBalance := 3500 |>
    <| proto_SchemaBytesMinBalance := 25000 |>
    <| proto_MaxLocalSchemaEntries := 16 |>
    <| proto_MaxGlobalSchemaEntries := 64 |>
    <| proto_MaxAppProgramCost := 700 |>
    <| proto_MaxAppsCreated := 10 |>
    <| proto_MaxAppsOptedIn := 10 |>.

Definition v25 : ConsensusParams :=
  v24
    <| proto_EnableAssetCloseAmount := true |>.

Definition v26 : ConsensusParams :=
  v25
    <| proto_InitialRewardsRateCalculation := true |>
    <| proto_PaysetCommit := PaysetCommitMerkle |>
    <| proto_LogicSigVersion := 3 |>.

Definition v27 : ConsensusParams :=
  v26
    <| proto_NoEmptyLocalDeltas := true |>.

Definition v28 : ConsensusParams :=
  v27
    <| proto_LogicSigVersion := 4 |>
    <| proto_MaxExtraAppProgramPages := 3 |>
    <| proto_MaxAppProgramLen := 2048 |>
    <| proto_MaxAssetURLBytes := 96 |>
    <| proto_MaxAppBytesValueLen := 128 |>
    <| proto_MaxAppTxnForeignApps := 8 |>
    <| proto_MaxAppTxnForeignAssets := 8 |>
    <| proto_EnableFeePooling := true |>
    <| proto_EnableKeyregCoherencyCheck := true |>.

Definition v29 : ConsensusParams :=
  v28
    <| proto_EnableExtraPagesOnAppUpdate := true |>.

Definition v30 : ConsensusParams :=
  v29
    <| proto_LogicSigVersion := 5 |>
    <| proto_EnableAppCostPooling := true |>
    <| proto_MaxInnerTransactions := 16 |>
    <| proto_MaxAppsOptedIn := 50 |>.

Definition v31 : ConsensusParams :=
  v30
    <| proto_EnableBatchVerification := true |>
    <| proto_RewardsCalculationFix := true |>
    <| proto_MaxProposedExpiredOnlineAccounts := 32 |>
    <| proto_LogicSigVersion := 6 |>
    <| proto_EnableInnerTransactionPooling := true |>
    <| proto_IsolateClearState := true |>
    <| proto_EnableStateProofKeyregCheck := true |>
    <| proto_MaxKeyregValidPeriod := (256 * Z.shiftl 1 16 - 1) |>.

Definition vFuture : ConsensusParams :=
  v31
    <| proto_AgreementFilterTimeoutPeriod0 := 4000000000 |>
    <| proto_CompactCertRounds := 256 |>
    <| proto_CompactCertTopVoters := (1024 * 1024) |>
    <| proto_CompactCertVotersLookback := 16 |>
    <| proto_CompactCertWeightThreshold := (Z.shiftl 1 32 * 30 / 100) |>
    <| proto_CompactCertSecKQ := 128 |>.

(** The upgrades each version approves, with their delay. *)
Definition ApprovedUpgrades : list (string * gmap string Z) := [
  (ConsensusV7, {[ ConsensusV8 := 0 ]});
  (ConsensusV8, {[ ConsensusV9 := 0 ]});
  (ConsensusV9, {[ ConsensusV10 := 0 ]});
  (ConsensusV10, {[ ConsensusV11 := 0 ]});
  (ConsensusV11, {[ ConsensusV12 := 0 ]});
  (ConsensusV12, {[ ConsensusV13 := 0 ]});
  (ConsensusV13, {[ ConsensusV14 := 0 ]});
  (ConsensusV14, {[ ConsensusV15 := 0 ]});
  (ConsensusV15, {[ ConsensusV16 := 0 ]});
  (ConsensusV16, {[ ConsensusV17 := 0 ]});
  (ConsensusV17, {[ ConsensusV19 := 0 ]});
  (ConsensusV18, {[ ConsensusV19 := 0 ]});
  (ConsensusV19, {[ ConsensusV20 := 0 ]});
  (ConsensusV20, {[ ConsensusV21 := 0 ]});
  (ConsensusV21, {[ ConsensusV23 := 0 ]});
  (ConsensusV22, {[ ConsensusV23 := 10000 ]});
  (ConsensusV23, {[ ConsensusV24 := 140000 ]});
  (ConsensusV24, {[ ConsensusV26 := 140000 ]});
  (ConsensusV25, {[ ConsensusV26 := 140000 ]});
  (ConsensusV26, {[ ConsensusV27 := 60000 ]});
  (ConsensusV27, {[ ConsensusV28 := 140000 ]});
  (ConsensusV28, {[ ConsensusV29 := 60000 ]});
  (ConsensusV29, {[ ConsensusV30 := 140000 ]});
  (ConsensusV30, {[ ConsensusV31 := 140000 ]});
  (ConsensusV31, ∅);
  (ConsensusFuture, ∅)].

Definition protocols : list (string * ConsensusParams) := [
  (ConsensusV7, v7);
  (ConsensusV8, v8);
  (ConsensusV9, v9);
  (ConsensusV10, v10);
  (ConsensusV11, v11);
  (ConsensusV12, v12);
  (ConsensusV13, v13);
  (ConsensusV14, v14);
  (ConsensusV15, v15);
  (ConsensusV16, v16);
  (ConsensusV17, v17);
  (ConsensusV18, v18);
  (ConsensusV19, v19);
  (ConsensusV20, v20);
  (ConsensusV21, v21);
  (ConsensusV22, v22);
  (ConsensusV23, v23);
  (ConsensusV24, v24);
  (ConsensusV25, v25);
  (ConsensusV26, v26);
  (ConsensusV27, v27);
  (ConsensusV28, v28);
  (ConsensusV29, v29);
  (ConsensusV30, v30);
  (ConsensusV31, v31);
  (ConsensusFuture, vFuture)].

(** The table [config.Consensus], as the map value the initialisation builds
    (evaluated, so that a lookup of an unknown version gets stuck at once). *)
Definition Consensus : gmap string ConsensusParams := Eval vm_compute in
  list_to_map (zip_with (fun p u => (p.1, p.2 <| proto_ApprovedUpgrades := u.2 |>))
                 protocols ApprovedUpgrades).

Lemma Consensus_protocols : Consensus =
  list_to_map (zip_with (fun p u => (p.1, p.2 <| proto_ApprovedUpgrades := u.2 |>))
                 protocols ApprovedUpgrades).
Proof. vm_cast_no_check (eq_refl Consensus). Qed.

(** Proofs never unfold the table: they use lookups or [vm_compute]. *)
#[global] Opaque Consensus.
