(* ===== verification/Basics.v ===== *)
(** [src/data/basics]: overflow-checked arithmetic, units, TEAL values and
    schemas, account data, deferred rewards and minimum balances.

    Addresses, digests and public keys are the numbers whose big-endian bytes
    they are; the zero value of the Go type is [0].  Go strings and byte
    slices are [string].  A nil map and an empty map are the same [gmap]. *)
From S2P Require Import Prelude Config.
#[local] Open Scope string_scope.
#[local] Open Scope Z_scope.

Notation Address := Z (only parsing).
Notation Round := Z (only parsing).
Notation AssetIndex := Z (only parsing).
Notation AppIndex := Z (only parsing).
Notation CreatableIndex := Z (only parsing).
Notation Digest := Z (only parsing).

(** ** overflow.go *)

Definition OAdd16 (a b : Z) : Z * bool :=
  let res := wrap16 (a + b) in (res, res <? a).
Definition OAdd32 (a b : Z) : Z * bool :=
  let res := wrap32 (a + b) in (res, res <? a).
Definition OAdd (a b : Z) : Z * bool :=
  let res := wrap64 (a + b) in (res, res <? a).
Definition OSub (a b : Z) : Z * bool :=
  let res := wrap64 (a - b) in (res, a <? res).
Definition OSub32 (a b : Z) : Z * bool :=
  let res := wrap32 (a - b) in (res, a <? res).
Definition OMul (a b : Z) : Z * bool :=
  if b =? 0 then (0, false)
  else
    let c := wrap64 (a * b) in
    if negb (c / b =? a) then (0, true) else (c, false).

Definition MulSaturate (a b : Z) : Z :=
  let '(res, overflowed) := OMul a b in if overflowed then MaxUint64 else res.
Definition AddSaturate (a b : Z) : Z :=
  let '(res, overflowed) := OAdd a b in if overflowed then MaxUint64 else res.
Definition AddSaturate32 (a b : Z) : Z :=
  let '(res, overflowed) := OAdd32 a b in if overflowed then MaxUint32 else res.
Definition SubSaturate (a b : Z) : Z :=
  let '(res, overflowed) := OSub a b in if overflowed then 0 else res.
Definition SubSaturate32 (a b : Z) : Z :=
  let '(res, overflowed) := OSub32 a b in if overflowed then 0 else res.

(** An [OverflowTracker] is its [Overflowed] flag; its methods return the
    tracker they leave behind. *)
Notation OverflowTracker := bool (only parsing).

Definition ot_Add16 (t : OverflowTracker) (a b : Z) : Z * OverflowTracker :=
  let '(res, o) := OAdd16 a b in (res, if o then true else t).
Definition ot_Add (t : OverflowTracker) (a b : Z) : Z * OverflowTracker :=
  let '(res, o) := OAdd a b in (res, if o then true else t).
Definition ot_Sub (t : OverflowTracker) (a b : Z) : Z * OverflowTracker :=
  let '(res, o) := OSub a b in (res, if o then true else t).
Definition ot_Mul (t : OverflowTracker) (a b : Z) : Z * OverflowTracker :=
  let '(res, o) := OMul a b in (res, if o then true else t).

(** A [MicroNovas] is its [Raw] amount, so the [A] variants are the plain
    operations on amounts. *)
Definition OAddA (a b : Z) : Z * bool := OAdd a b.
Definition OSubA (a b : Z) : Z * bool := OSub a b.
Definition MulAIntSaturate (a : Z) (b : Z) : Z := MulSaturate a (wrap64 b).
Definition ot_AddA (t : OverflowTracker) (a b : Z) : Z * OverflowTracker := ot_Add t a b.
Definition ot_SubA (t : OverflowTracker) (a b : Z) : Z * OverflowTracker := ot_Sub t a b.
Definition ot_ScalarMulA (t : OverflowTracker) (a b : Z) : Z * OverflowTracker := ot_Mul t a b.

(** [Muldiv] goes through [big.Int]: exact product and quotient, then the low
    64 bits and the flag that they are not the whole value.  [big.Int.Div]
    panics on a zero divisor. *)
Definition Muldiv (a b c : Z) : outcome (Z * bool) :=
  if c =? 0 then Panic
  else
    let q := a * b / c in
    Ok (wrap64 q, negb ((0 <=? q) && (q <? two64))).

(** ** units.go *)

Definition RewardUnits (proto : ConsensusParams) (a : Z) : outcome Z :=
  if proto_RewardUnit proto =? 0 then Panic else Ok (a / proto_RewardUnit proto).

Record OneTimeSignatureIdentifier : Type := { otsi_Batch : Z; otsi_Offset : Z }.

Definition OneTimeIDForRound (round keyDilution : Z) : outcome OneTimeSignatureIdentifier :=
  if keyDilution =? 0 then Panic
  else Ok {| otsi_Batch := round / keyDilution; otsi_Offset := round mod keyDilution |}.

Definition Round_SubSaturate (round x : Round) : Round :=
  if round <? x then 0 else wrap64 (round - x).

Definition RoundUpToMultipleOf (round n : Round) : outcome Round :=
  if n =? 0 then Panic else Ok (wrap64 (wrap64 (wrap64 (round + n) - 1) / n * n)).

(** ** teal.go *)

Inductive DeltaAction : Type := SetBytesAction | SetUintAction | DeleteAction
| OtherDeltaAction (n : Z).
#[export] Instance DeltaAction_eq_dec : EqDecision DeltaAction.
Proof. solve_decision. Defined.

Record ValueDelta : Type := mkValueDelta {
  vd_Action : DeltaAction; vd_Bytes : string; vd_Uint : Z }.
#[export] Instance ValueDelta_eq_dec : EqDecision ValueDelta.
Proof. solve_decision. Defined.

(** [TealType] is an unsigned integer: 1 for bytes, 2 for uints, 0 in the zero
    value, and nothing else is meaningful. *)
Definition TealBytesType : Z := 1.
Definition TealUintType : Z := 2.

Record TealValue : Type := mkTealValue { tv_Type : Z; tv_Bytes : string; tv_Uint : Z }.
#[export] Instance TealValue_eq_dec : EqDecision TealValue.
Proof. solve_decision. Defined.
Definition TealValue_zero : TealValue := mkTealValue 0 "" 0.

Definition ToTealValue (vd : ValueDelta) : TealValue * bool :=
  match vd_Action vd with
  | SetBytesAction => (mkTealValue TealBytesType (vd_Bytes vd) 0, true)
  | SetUintAction => (mkTealValue TealUintType "" (vd_Uint vd), true)
  | DeleteAction => (TealValue_zero, false)
  | OtherDeltaAction _ => (TealValue_zero, false)
  end.

Definition ToValueDelta (tv : TealValue) : ValueDelta :=
  if tv_Type tv =? TealUintType then mkValueDelta SetUintAction "" (tv_Uint tv)
  else mkValueDelta SetBytesAction (tv_Bytes tv) 0.

Notation StateDelta := (gmap string ValueDelta) (only parsing).

(** [StateDelta.Equal]: same size, and every entry of the one in the other. *)
Definition StateDelta_Equal (sd o : StateDelta) : bool :=
  bool_decide (size sd = size o) &&
  forallb (fun '(k, v) => bool_decide (o !! k = Some v)) (map_to_list sd).

Definition slen (s : string) : Z := Z.of_nat (String.length s).

Definition ValueDelta_valid (proto : ConsensusParams) (key : string) (delta : ValueDelta) : outcome unit :=
  _ ← failIf (proto_MaxAppKeyLen proto <? slen key) (Errorf "key too long");
  match vd_Action delta with
  | SetBytesAction =>
      _ ← failIf (proto_MaxAppBytesValueLen proto <? slen (vd_Bytes delta))
            (Errorf "value too long");
      failIf (proto_MaxAppSumKeyValueLens proto <? slen key + slen (vd_Bytes delta))
        (Errorf "key/value total too long")
  | SetUintAction => Ok tt
  | DeleteAction => Ok tt
  | OtherDeltaAction _ => Err (Errorf "unknown delta action")
  end.

(** [StateDelta.Valid]; Go ranges over the map in an unspecified order, so
    which of several errors is returned is not determined, only whether one
    is. *)
Definition StateDelta_Valid (proto : ConsensusParams) (sd : StateDelta) : outcome unit :=
  _ ← failIf (negb (bool_decide (sd = ∅)) && (proto_MaxAppKeyLen proto =? 0))
        (Errorf "delta not empty, but proto.MaxAppKeyLen is 0");
  foldr (fun '(k, d) acc => _ ← ValueDelta_valid proto k d; acc) (Ok tt) (map_to_list sd).

Record StateSchema : Type := mkStateSchema { NumUint : Z; NumByteSlice : Z }.
#[export] Instance Eta_StateSchema : Eta StateSchema := fun r =>
  mkStateSchema (NumUint r) (NumByteSlice r).
#[export] Instance StateSchema_eq_dec : EqDecision StateSchema.
Proof. solve_decision. Defined.
Definition StateSchema_zero : StateSchema := mkStateSchema 0 0.

Definition AddSchema (sm osm : StateSchema) : StateSchema :=
  mkStateSchema (AddSaturate (NumUint sm) (NumUint osm))
                (AddSaturate (NumByteSlice sm) (NumByteSlice osm)).
Definition SubSchema (sm osm : StateSchema) : StateSchema :=
  mkStateSchema (SubSaturate (NumUint sm) (NumUint osm))
                (SubSaturate (NumByteSlice sm) (NumByteSlice osm)).
Definition NumEntries (sm : StateSchema) : Z :=
  AddSaturate (AddSaturate 0 (NumUint sm)) (NumByteSlice sm).
Definition Schema_MinBalance (proto : ConsensusParams) (sm : StateSchema) : Z :=
  let flatCost := MulSaturate (proto_SchemaMinBalancePerEntry proto) (NumEntries sm) in
  let uintCost := MulSaturate (proto_SchemaUintMinBalance proto) (NumUint sm) in
  let bytesCost := MulSaturate (proto_SchemaBytesMinBalance proto) (NumByteSlice sm) in
  let min := AddSaturate 0 flatCost in
  let min := AddSaturate min uintCost in
  AddSaturate min bytesCost.

Notation TealKeyValue := (gmap string TealValue) (only parsing).

(** [TealKeyValue.ToStateSchema]: an unknown type is an error; the counters
    are 64-bit. *)
Definition ToStateSchema (tk : TealKeyValue) : outcome StateSchema :=
  foldr (fun '(_, v) acc =>
    schema ← acc;
    if tv_Type v =? TealBytesType then
      Ok (schema <| NumByteSlice := wrap64 (NumByteSlice schema + 1) |>)
    else if tv_Type v =? TealUintType then
      Ok (schema <| NumUint := wrap64 (NumUint schema + 1) |>)
    else Err (Errorf "unknown type")) (Ok StateSchema_zero) (map_to_list tk).

(** ** userBalance.go *)

Inductive Status : Type := Offline | Online | NotParticipating.
#[export] Instance Status_eq_dec : EqDecision Status.
Proof. solve_decision. Defined.

Definition Status_String (s : Status) : string :=
  match s with
  | Offline => "Offline"
  | Online => "Online"
  | NotParticipating => "Not Participating"
  end.

Definition UnmarshalStatus (value : string) : outcome Status :=
  if String.eqb value "Offline" then Ok Offline
  else if String.eqb value "Online" then Ok Online
  else if String.eqb value "Not Participating" then Ok NotParticipating
  else Err (Errorf "unknown account status").

Inductive CreatableType : Type := AssetCreatable | AppCreatable.
#[export] Instance CreatableType_eq_dec : EqDecision CreatableType.
Proof. solve_decision. Defined.
#[export] Instance CreatableType_countable : Countable CreatableType.
Proof.
  refine (inj_countable' (fun c => match c with AssetCreatable => false | AppCreatable => true end)
            (fun b : bool => if b then AppCreatable else AssetCreatable) _).
  by intros [].
Defined.

Record AssetHolding : Type := mkAssetHolding { ah_Amount : Z; ah_Frozen : bool }.
#[export] Instance Eta_AssetHolding : Eta AssetHolding := fun r =>
  mkAssetHolding (ah_Amount r) (ah_Frozen r).
#[export] Instance AssetHolding_eq_dec : EqDecision AssetHolding.
Proof. solve_decision. Defined.
Definition AssetHolding_zero : AssetHolding := mkAssetHolding 0 false.

Record AssetParams : Type := mkAssetParams {
  ap_Total : Z;
  ap_Decimals : Z;
  ap_DefaultFrozen : bool;
  ap_UnitName : string;
  ap_AssetName : string;
  ap_URL : string;
  ap_MetadataHash : Z;
  ap_Manager : Address;
  ap_Reserve : Address;
  ap_Freeze : Address;
  ap_Clawback : Address }.
#[export] Instance Eta_AssetParams : Eta AssetParams := fun r =>
  mkAssetParams (ap_Total r) (ap_Decimals r) (ap_DefaultFrozen r) (ap_UnitName r)
    (ap_AssetName r) (ap_URL r) (ap_MetadataHash r) (ap_Manager r) (ap_Reserve r)
    (ap_Freeze r) (ap_Clawback r).
#[export] Instance AssetParams_eq_dec : EqDecision AssetParams.
Proof. solve_decision. Defined.
Definition AssetParams_zero : AssetParams :=
  mkAssetParams 0 0 false "" "" "" 0 0 0 0 0.

Record AppLocalState : Type := mkAppLocalState {
  als_Schema : StateSchema; als_KeyValue : TealKeyValue }.
#[export] Instance Eta_AppLocalState : Eta AppLocalState := fun r =>
  mkAppLocalState (als_Schema r) (als_KeyValue r).
#[export] Instance AppLocalState_eq_dec : EqDecision AppLocalState.
Proof. solve_decision. Defined.

Record AppParams : Type := mkAppParams {
  app_ApprovalProgram : string;
  app_ClearStateProgram : string;
  app_GlobalState : TealKeyValue;
  app_LocalStateSchema : StateSchema;
  app_GlobalStateSchema : StateSchema;
  app_ExtraProgramPages : Z }.
#[export] Instance Eta_AppParams : Eta AppParams := fun r =>
  mkAppParams (app_ApprovalProgram r) (app_ClearStateProgram r) (app_GlobalState r)
    (app_LocalStateSchema r) (app_GlobalStateSchema r) (app_ExtraProgramPages r).
#[export] Instance AppParams_eq_dec : EqDecision AppParams.
Proof. solve_decision. Defined.
Definition AppParams_zero : AppParams :=
  mkAppParams "" "" ∅ StateSchema_zero StateSchema_zero 0.

Record AccountData : Type := mkAccountData {
  acct_Status : Status;
  acct_MicroNovas : Z;
  acct_RewardsBase : Z;
  acct_RewardedMicroNovas : Z;
  acct_VoteID : Z;
  acct_SelectionID : Z;
  acct_StateProofID : Z;
  acct_VoteFirstValid : Round;
  acct_VoteLastValid : Round;
  acct_VoteKeyDilution : Z;
  acct_AssetParams : gmap AssetIndex AssetParams;
  acct_Assets : gmap AssetIndex AssetHolding;
  acct_AuthAddr : Address;
  acct_AppLocalStates : gmap AppIndex AppLocalState;
  acct_AppParams : gmap AppIndex AppParams;
  acct_TotalAppSchema : StateSchema;
  acct_TotalExtraAppPages : Z }.
#[export] Instance Eta_AccountData : Eta AccountData := fun r =>
  mkAccountData (acct_Status r) (acct_MicroNovas r) (acct_RewardsBase r)
    (acct_RewardedMicroNovas r) (acct_VoteID r) (acct_SelectionID r)
    (acct_StateProofID r) (acct_VoteFirstValid r) (acct_VoteLastValid r)
    (acct_VoteKeyDilution r) (acct_AssetParams r) (acct_Assets r) (acct_AuthAddr r)
    (acct_AppLocalStates r) (acct_AppParams r) (acct_TotalAppSchema r)
    (acct_TotalExtraAppPages r).
#[export] Instance AccountData_eq_dec : EqDecision AccountData.
Proof. solve_decision. Defined.
Definition AccountData_zero : AccountData :=
  mkAccountData Offline 0 0 0 0 0 0 0 0 0 ∅ ∅ 0 ∅ ∅ StateSchema_zero 0.

Definition MakeAccountData (status : Status) (algos : Z) : AccountData :=
  AccountData_zero <| acct_Status := status |> <| acct_MicroNovas := algos |>.

(** The length of a Go map, as a [uint64]. *)
Definition glen {V} (m : gmap Z V) : Z := Z.of_nat (size m).

Definition ClearOnlineState (u : AccountData) : AccountData :=
  u <| acct_Status := Offline |>
    <| acct_VoteFirstValid := 0 |>
    <| acct_VoteLastValid := 0 |>
    <| acct_VoteKeyDilution := 0 |>
    <| acct_VoteID := 0 |>
    <| acct_SelectionID := 0 |>
    <| acct_StateProofID := 0 |>.

Definition PendingRewards (ot : OverflowTracker) (proto : ConsensusParams)
    (microNovas rewardsBase rewardsLevel : Z) : outcome (Z * OverflowTracker) :=
  rewardsUnits ← RewardUnits proto microNovas;
  let '(rewardsDelta, ot) := ot_Sub ot rewardsLevel rewardsBase in
  Ok (ot_Mul ot rewardsUnits rewardsDelta).

(** An overflow while applying rewards is a panic of the node. *)
Definition WithUpdatedRewards (proto : ConsensusParams) (rewardsLevel : Z) (u : AccountData)
    : outcome AccountData :=
  if bool_decide (acct_Status u <> NotParticipating) then
    rewardsUnits ← RewardUnits proto (acct_MicroNovas u);
    let '(rewardsDelta, ot) := ot_Sub false rewardsLevel (acct_RewardsBase u) in
    let '(rewards, ot) := ot_Mul ot rewardsUnits rewardsDelta in
    let '(money, ot) := ot_AddA ot (acct_MicroNovas u) rewards in
    if ot then Panic
    else
      Ok (u <| acct_MicroNovas := money |>
            <| acct_RewardsBase := rewardsLevel |>
            <| acct_RewardedMicroNovas := wrap64 (acct_RewardedMicroNovas u + rewards) |>)
  else Ok u.

Definition Money (proto : ConsensusParams) (rewardsLevel : Z) (u : AccountData)
    : outcome (Z * Z) :=
  e ← WithUpdatedRewards proto rewardsLevel u;
  Ok (acct_MicroNovas e, acct_RewardedMicroNovas e).

Definition MinBalance (proto : ConsensusParams) (u : AccountData) : Z :=
  let min := proto_MinBalance proto in
  let assetCost := MulSaturate (proto_MinBalance proto) (glen (acct_Assets u)) in
  let min := AddSaturate min assetCost in
  let appCreationCost := MulSaturate (proto_AppFlatParamsMinBalance proto) (glen (acct_AppParams u)) in
  let min := AddSaturate min appCreationCost in
  let appOptInCost := MulSaturate (proto_AppFlatOptInMinBalance proto) (glen (acct_AppLocalStates u)) in
  let min := AddSaturate min appOptInCost in
  let schemaCost := Schema_MinBalance proto (acct_TotalAppSchema u) in
  let min := AddSaturate min schemaCost in
  let extraAppProgramLenCost :=
    MulSaturate (proto_AppFlatParamsMinBalance proto) (acct_TotalExtraAppPages u) in
  AddSaturate min extraAppProgramLenCost.

Record OnlineAccountData_t : Type := mkOnlineAccountData {
  oad_MicroNovasWithRewards : Z;
  oad_VoteID : Z;
  oad_SelectionID : Z;
  oad_VoteFirstValid : Round;
  oad_VoteLastValid : Round;
  oad_VoteKeyDilution : Z }.

Definition OnlineAccountData (u : AccountData) : OnlineAccountData_t :=
  if bool_decide (acct_Status u <> Online) then mkOnlineAccountData 0 0 0 0 0 0
  else mkOnlineAccountData (acct_MicroNovas u) (acct_VoteID u) (acct_SelectionID u)
         (acct_VoteFirstValid u) (acct_VoteLastValid u) (acct_VoteKeyDilution u).

Definition VotingStake (u : OnlineAccountData_t) : Z := oad_MicroNovasWithRewards u.

Definition KeyDilution (proto : ConsensusParams) (u : OnlineAccountData_t) : Z :=
  if negb (oad_VoteKeyDilution u =? 0) then oad_VoteKeyDilution u
  else proto_DefaultKeyDilution proto.

(** [reflect.DeepEqual] with the zero value; Go normalizes an empty [Assets]
    map to nil first, here nil and empty are one value for every map. *)
Definition AccountData_IsZero (u : AccountData) : bool :=
  bool_decide (u = AccountData_zero).

Definition NormalizedOnlineBalance (proto : ConsensusParams) (u : AccountData) : outcome Z :=
  if bool_decide (acct_Status u <> Online) then Ok 0
  else
    let perRewardUnit := wrap64 (acct_RewardsBase u + proto_RewardUnit proto) in
    '(norm, overflowed) ← Muldiv (acct_MicroNovas u) (proto_RewardUnit proto) perRewardUnit;
    if (overflowed : bool) then Panic else Ok norm.

(** ** What the overflow helpers compute *)

Lemma OAdd_spec a b : is_u64 a -> is_u64 b ->
  OAdd a b = if a + b <? two64 then (a + b, false) else (a + b - two64, true).
Proof.
  intros Ha Hb. unfold OAdd. destruct (Z.ltb_spec (a + b) two64).
  - rewrite wrap64_small by word. f_equal. word.
  - rewrite wrap64_over by word. f_equal. word.
Qed.

Lemma OSub_spec a b : is_u64 a -> is_u64 b ->
  OSub a b = if b <=? a then (a - b, false) else (a - b + two64, true).
Proof.
  intros Ha Hb. unfold OSub. destruct (Z.leb_spec b a).
  - rewrite wrap64_small by word. f_equal. word.
  - rewrite wrap64_under by word. f_equal. word.
Qed.

(** The division test of [OMul] detects exactly the products that do not fit. *)
Lemma OMul_spec a b : is_u64 a -> is_u64 b ->
  OMul a b = if a * b <? two64 then (a * b, false) else (0, true).
Proof.
  intros Ha Hb. unfold OMul. destruct (Z.eqb_spec b 0) as [->|Hb0].
  { rewrite Z.mul_0_r. done. }
  destruct (Z.ltb_spec (a * b) two64) as [Hs|Hs].
  - rewrite wrap64_small by (unfold is_u64 in *; nia).
    rewrite Z.div_mul by done. by rewrite Z.eqb_refl.
  - assert (wrap64 (a * b) / b < a) as Hlt.
    { apply Z.div_lt_upper_bound; [word|]. pose proof (wrap64_range (a * b)). word. }
    destruct (Z.eqb_spec (wrap64 (a * b) / b) a); [lia|done].
Qed.

Definition clamp (x : Z) : Z := Z.min x MaxUint64.

Lemma clamp_u64 x : 0 <= x -> is_u64 (clamp x).
Proof. unfold clamp. word. Qed.

Lemma AddSaturate_clamp x y : 0 <= x -> 0 <= y ->
  AddSaturate (clamp x) (clamp y) = clamp (x + y).
Proof.
  intros. unfold AddSaturate. rewrite OAdd_spec by (apply clamp_u64; done).
  unfold clamp. destruct (Z.ltb_spec (Z.min x MaxUint64 + Z.min y MaxUint64) two64); word.
Qed.

Lemma MulSaturate_clamp x y : is_u64 x -> 0 <= y ->
  MulSaturate x (clamp y) = clamp (x * y).
Proof.
  intros Hx Hy. unfold MulSaturate. rewrite OMul_spec by (first [done | apply clamp_u64; done]).
  unfold clamp. destruct (Z.le_gt_cases y MaxUint64) as [Hm|Hm].
  - rewrite (Z.min_l y) by done. destruct (Z.ltb_spec (x * y) two64); word.
  - rewrite (Z.min_r y) by lia. destruct (Z.eq_dec x 0) as [->|Hx0]; [done|].
    rewrite (Z.min_r (x * y)) by (unfold_words; nia).
    destruct (Z.ltb_spec (x * MaxUint64) two64); [unfold_words; nia|done].
Qed.

Lemma clamp_id x : is_u64 x -> clamp x = x.
Proof. unfold clamp. word. Qed.

Lemma AddSaturate_spec a b : is_u64 a -> is_u64 b -> AddSaturate a b = clamp (a + b).
Proof.
  intros. rewrite <- (clamp_id a), <- (clamp_id b) at 1 by done.
  apply AddSaturate_clamp; word.
Qed.

Lemma MulSaturate_spec a b : is_u64 a -> is_u64 b -> MulSaturate a b = clamp (a * b).
Proof.
  intros. rewrite <- (clamp_id b) at 1 by done. apply MulSaturate_clamp; word.
Qed.

Lemma SubSaturate_spec a b : is_u64 a -> is_u64 b -> SubSaturate a b = Z.max 0 (a - b).
Proof.
  intros. unfold SubSaturate. rewrite OSub_spec by done.
  destruct (Z.leb_spec b a); word.
Qed.

(** ** Deferred rewards *)

(** The rewards an account is owed at a rewards level, in unbounded
    arithmetic, and its balance with them. *)
Definition pendingZ (proto : ConsensusParams) (lvl : Z) (u : AccountData) : Z :=
  if bool_decide (acct_Status u = NotParticipating) then 0
  else acct_MicroNovas u / proto_RewardUnit proto * (lvl - acct_RewardsBase u).
Definition moneyZ (proto : ConsensusParams) (lvl : Z) (u : AccountData) : Z :=
  acct_MicroNovas u + pendingZ proto lvl u.

(** The 64-bit fields the rewards arithmetic reads are 64-bit values. *)
Definition acct_wf (u : AccountData) : Prop :=
  is_u64 (acct_MicroNovas u) /\ is_u64 (acct_RewardsBase u) /\
  is_u64 (acct_RewardedMicroNovas u).

(** An account that rewards can be applied to at [lvl]. *)
Definition rewardable (proto : ConsensusParams) (lvl : Z) (u : AccountData) : Prop :=
  acct_Status u = NotParticipating \/
  (acct_RewardsBase u <= lvl /\ moneyZ proto lvl u < two64).

Definition rewarded (proto : ConsensusParams) (lvl : Z) (u : AccountData) : AccountData :=
  if bool_decide (acct_Status u = NotParticipating) then u
  else u <| acct_MicroNovas := moneyZ proto lvl u |>
         <| acct_RewardsBase := lvl |>
         <| acct_RewardedMicroNovas :=
              wrap64 (acct_RewardedMicroNovas u + pendingZ proto lvl u) |>.

Lemma div_u64 x d : is_u64 x -> 0 < d -> is_u64 (x / d).
Proof.
  intros Hx Hd. split; [apply Z.div_pos; word|].
  apply Z.div_lt_upper_bound; unfold_words; nia.
Qed.

Lemma moneyZ_lower proto lvl u : 0 < proto_RewardUnit proto -> acct_wf u ->
  acct_Status u = NotParticipating \/ acct_RewardsBase u <= lvl ->
  acct_MicroNovas u <= moneyZ proto lvl u.
Proof.
  intros Hu (Hm & _) Hc. unfold moneyZ, pendingZ. case_bool_decide; [lia|].
  pose proof (div_u64 _ _ Hm Hu). destruct Hc; [done|]. word || (unfold_words; nia).
Qed.

Lemma rewarded_wf proto lvl u : 0 < proto_RewardUnit proto -> is_u64 lvl ->
  acct_wf u -> rewardable proto lvl u -> acct_wf (rewarded proto lvl u).
Proof.
  intros Hu Hl Hwf Hr. unfold rewarded. case_bool_decide as Hs; [done|].
  destruct Hr as [?|[Hb Hm]]; [done|].
  pose proof (moneyZ_lower proto lvl u Hu Hwf (or_intror Hb)).
  destruct Hwf as (H1 & H2 & H3).
  repeat split; cbn; try apply wrap64_range; word.
Qed.

Lemma WithUpdatedRewards_Ok proto lvl u :
  0 < proto_RewardUnit proto -> is_u64 lvl -> acct_wf u -> rewardable proto lvl u ->
  WithUpdatedRewards proto lvl u = Ok (rewarded proto lvl u).
Proof.
  intros Hu Hl Hwf Hr. pose proof Hwf as (H1 & H2 & H3).
  unfold WithUpdatedRewards, rewarded, RewardUnits.
  destruct (Z.eqb_spec (proto_RewardUnit proto) 0); [lia|].
  repeat case_bool_decide; try done. destruct Hr as [?|[Hb Hm]]; [done|].
  pose proof (div_u64 _ _ H1 Hu) as Hd. unfold moneyZ, pendingZ in Hm |- *.
  rewrite bool_decide_false in Hm |- * by done.
  cbv [mbind outcome_bind]. unfold ot_Sub, ot_Mul, ot_AddA, ot_Add.
  rewrite OSub_spec by done. rewrite (proj2 (Z.leb_le _ _) Hb).
  rewrite OMul_spec by (done || word).
  set (p := _ / _ * _) in *.
  assert (0 <= p) by (subst p; unfold_words; nia).
  rewrite (proj2 (Z.ltb_lt p two64)) by word.
  rewrite OAdd_spec by word. by rewrite (proj2 (Z.ltb_lt _ _)) by word.
Qed.

Lemma WithUpdatedRewards_Panic proto lvl u :
  0 < proto_RewardUnit proto -> is_u64 lvl -> acct_wf u -> ~ rewardable proto lvl u ->
  WithUpdatedRewards proto lvl u = Panic.
Proof.
  intros Hu Hl Hwf Hr. pose proof Hwf as (H1 & H2 & H3).
  assert (acct_Status u <> NotParticipating) as Hs by (intros ?; apply Hr; by left).
  unfold WithUpdatedRewards, RewardUnits.
  destruct (Z.eqb_spec (proto_RewardUnit proto) 0); [lia|].
  rewrite bool_decide_true by done.
  pose proof (div_u64 _ _ H1 Hu) as Hd. cbv [mbind outcome_bind]. unfold ot_Sub, ot_Mul, ot_AddA, ot_Add.
  rewrite OSub_spec by done. destruct (Z.leb_spec (acct_RewardsBase u) lvl) as [Hb|Hb].
  - rewrite OMul_spec by (done || word).
    set (p := acct_MicroNovas u / _ * _) in *.
    assert (0 <= p) by (subst p; unfold_words; nia).
    assert (two64 <= acct_MicroNovas u + p) as Hbig.
    { destruct (Z.lt_ge_cases (acct_MicroNovas u + p) two64); [|done]. exfalso.
      apply Hr. right. split; [done|]. unfold moneyZ, pendingZ.
      by rewrite bool_decide_false. }
    destruct (Z.ltb_spec p two64); rewrite OAdd_spec by word.
    + by rewrite (proj2 (Z.ltb_ge _ _)) by word.
    + by destruct (_ <? _).
  - rewrite OMul_spec by (done || word).
    destruct (_ <? two64); destruct (OAdd _ _) as [? []]; done.
Qed.

Lemma WithUpdatedRewards_inv proto lvl u u' :
  0 < proto_RewardUnit proto -> is_u64 lvl -> acct_wf u ->
  WithUpdatedRewards proto lvl u = Ok u' -> u' = rewarded proto lvl u /\ rewardable proto lvl u.
Proof.
  intros Hu Hl Hwf H.
  assert (rewardable proto lvl u \/ ~ rewardable proto lvl u) as [Hr|Hr].
  { unfold rewardable. destruct (decide (acct_Status u = NotParticipating)); [tauto|].
    destruct (Z_le_gt_dec (acct_RewardsBase u) lvl), (Z_lt_ge_dec (moneyZ proto lvl u) two64);
      [tauto|right; intros [?|[? ?]]; [done|lia]..]. }
  - rewrite WithUpdatedRewards_Ok in H by done. by injection H as <-.
  - rewrite WithUpdatedRewards_Panic in H by done. discriminate.
Qed.

(** ** Minimum balances in unbounded arithmetic *)

Definition schemaCostZ (proto : ConsensusParams) (sm : StateSchema) : Z :=
  proto_SchemaMinBalancePerEntry proto * (NumUint sm + NumByteSlice sm) +
  proto_SchemaUintMinBalance proto * NumUint sm +
  proto_SchemaBytesMinBalance proto * NumByteSlice sm.

Definition minBalanceZ (proto : ConsensusParams) (u : AccountData) : Z :=
  proto_MinBalance proto * (1 + glen (acct_Assets u)) +
  proto_AppFlatParamsMinBalance proto * (glen (acct_AppParams u) + acct_TotalExtraAppPages u) +
  proto_AppFlatOptInMinBalance proto * glen (acct_AppLocalStates u) +
  schemaCostZ proto (acct_TotalAppSchema u).

(** The parameters that enter a minimum balance are 64-bit values. *)
Definition balance_params_wf (proto : ConsensusParams) : Prop :=
  is_u64 (proto_MinBalance proto) /\ is_u64 (proto_AppFlatParamsMinBalance proto) /\
  is_u64 (proto_AppFlatOptInMinBalance proto) /\
  is_u64 (proto_SchemaMinBalancePerEntry proto) /\
  is_u64 (proto_SchemaUintMinBalance proto) /\ is_u64 (proto_SchemaBytesMinBalance proto).

(** The counts of an account that enter its minimum balance are 64-bit values. *)
Definition counts_wf (u : AccountData) : Prop :=
  is_u64 (glen (acct_Assets u)) /\ is_u64 (glen (acct_AppParams u)) /\
  is_u64 (glen (acct_AppLocalStates u)) /\ is_u64 (acct_TotalExtraAppPages u) /\
  is_u64 (NumUint (acct_TotalAppSchema u)) /\ is_u64 (NumByteSlice (acct_TotalAppSchema u)).

Lemma u64_nonneg x : is_u64 x -> 0 <= x.
Proof. word. Qed.
Lemma u64_mul_nonneg x y : is_u64 x -> is_u64 y -> 0 <= x * y.
Proof. unfold is_u64. nia. Qed.
#[export] Hint Resolve u64_nonneg u64_mul_nonneg Z.add_nonneg_nonneg Z.le_refl : words.

Lemma NumEntries_spec sm : is_u64 (NumUint sm) -> is_u64 (NumByteSlice sm) ->
  NumEntries sm = clamp (NumUint sm + NumByteSlice sm).
Proof.
  intros. unfold NumEntries. rewrite (AddSaturate_spec 0) by word.
  rewrite Z.add_0_l, clamp_id by done. by apply AddSaturate_spec.
Qed.

Lemma Schema_MinBalance_spec proto sm :
  balance_params_wf proto -> is_u64 (NumUint sm) -> is_u64 (NumByteSlice sm) ->
  Schema_MinBalance proto sm = clamp (schemaCostZ proto sm).
Proof.
  intros (_ & _ & _ & H1 & H2 & H3) Hu Hb. unfold Schema_MinBalance, schemaCostZ.
  rewrite NumEntries_spec, MulSaturate_clamp, !MulSaturate_spec by (try done; word).
  change 0 with (clamp 0) at 1.
  assert (0 <= proto_SchemaMinBalancePerEntry proto * (NumUint sm + NumByteSlice sm))
    by (rewrite Z.mul_add_distr_l; eauto with words).
  rewrite !AddSaturate_clamp by eauto with words. done.
Qed.

(** [AccountData.MinBalance], a chain of saturating 64-bit
    operations, is the exact minimum balance of the account capped at the
    largest 64-bit value; no intermediate saturation loses more than the cap. *)
Theorem MinBalance_exact proto u : balance_params_wf proto -> counts_wf u ->
  MinBalance proto u = clamp (minBalanceZ proto u).
Proof.
  intros Hp Hc. pose proof Hp as (H1 & H2 & H3 & H4 & H5 & H6).
  destruct Hc as (C1 & C2 & C3 & C4 & C5 & C6). unfold MinBalance.
  rewrite Schema_MinBalance_spec, !MulSaturate_spec by done.
  rewrite <- (clamp_id (proto_MinBalance proto)) at 1 by done.
  assert (0 <= schemaCostZ proto (acct_TotalAppSchema u)) as Hs.
  { unfold schemaCostZ. rewrite Z.mul_add_distr_l. eauto 10 with words. }
  rewrite !AddSaturate_clamp by eauto 10 with words.
  f_equal. unfold minBalanceZ. ring.
Qed.

Lemma MinBalance_exact_witness :
  MinBalance v31 (MakeAccountData Online 5000000 <| acct_Assets := {[ 7 := AssetHolding_zero ]} |>)
  = 200000.
Proof.
  rewrite MinBalance_exact; [reflexivity | repeat split; done | repeat split; done].
Defined.

(** On 64-bit arguments [OAdd], [OSub] and [OMul] return the
    exact result and no overflow when the result fits, and report the overflow
    otherwise; the flag of [Muldiv] says exactly that the quotient is [2^64] or
    more. *)
Theorem overflow_helpers_exact a b c : is_u64 a -> is_u64 b -> is_u64 c ->
  OAdd a b = (if a + b <? two64 then (a + b, false) else (a + b - two64, true)) /\
  OSub a b = (if b <=? a then (a - b, false) else (a - b + two64, true)) /\
  OMul a b = (if a * b <? two64 then (a * b, false) else (0, true)) /\
  Muldiv a b c =
    (if c =? 0 then Panic else Ok (wrap64 (a * b / c), two64 <=? a * b / c)).
Proof.
  intros Ha Hb Hc. split_and!.
  - by apply OAdd_spec.
  - by apply OSub_spec.
  - by apply OMul_spec.
  - unfold Muldiv. destruct (Z.eqb_spec c 0); [done|]. f_equal.
    assert (0 <= a * b / c) by (apply Z.div_pos; unfold is_u64 in *; nia).
    rewrite (proj2 (Z.leb_le 0 _)) by done. cbn. by rewrite Z.leb_antisym.
Qed.

Lemma overflow_helpers_exact_witness :
  OMul 4294967296 4294967296 = (0, true) /\ OSub 3 5 = (MaxUint64 - 1, true).
Proof.
  destruct (overflow_helpers_exact 4294967296 4294967296 1) as (_ & _ & H & _); try word.
  destruct (overflow_helpers_exact 3 5 1) as (_ & H' & _ & _); try word.
  rewrite H, H'. split; reflexivity.
Defined.


Lemma pendingZ_uptodate proto lvl u : acct_RewardsBase u = lvl -> pendingZ proto lvl u = 0.
Proof. intros <-. unfold pendingZ. case_bool_decide; lia. Qed.

Lemma rewarded_Base proto lvl u :
  acct_Status u <> NotParticipating -> acct_RewardsBase (rewarded proto lvl u) = lvl.
Proof. intros. unfold rewarded. by rewrite bool_decide_false. Qed.

Lemma rewarded_Status proto lvl u : acct_Status (rewarded proto lvl u) = acct_Status u.
Proof. unfold rewarded. by case_bool_decide. Qed.

Lemma rewarded_MicroNovas proto lvl u :
  acct_MicroNovas (rewarded proto lvl u) = moneyZ proto lvl u.
Proof.
  unfold rewarded. case_bool_decide as Hs; [|done].
  unfold moneyZ, pendingZ. rewrite bool_decide_true by done. lia.
Qed.

Lemma moneyZ_nopending proto lvl u : pendingZ proto lvl u = 0 ->
  moneyZ proto lvl u = acct_MicroNovas u.
Proof. unfold moneyZ. lia. Qed.

Lemma pendingZ_rewarded proto lvl u : pendingZ proto lvl (rewarded proto lvl u) = 0.
Proof.
  destruct (decide (acct_Status u = NotParticipating)) as [Hs|Hs].
  - unfold pendingZ. by rewrite bool_decide_true by (by rewrite rewarded_Status).
  - by apply pendingZ_uptodate, rewarded_Base.
Qed.

Lemma moneyZ_rewarded proto lvl u :
  moneyZ proto lvl (rewarded proto lvl u) = moneyZ proto lvl u.
Proof.
  rewrite moneyZ_nopending by apply pendingZ_rewarded. apply rewarded_MicroNovas.
Qed.

Lemma rewarded_rewardable proto lvl u :
  rewardable proto lvl u -> rewardable proto lvl (rewarded proto lvl u).
Proof.
  unfold rewardable. rewrite rewarded_Status, moneyZ_rewarded.
  intros [?|[? ?]]; [by left|].
  destruct (decide (acct_Status u = NotParticipating)); [by left|right].
  rewrite rewarded_Base by done. lia.
Qed.

Lemma rewarded_idem proto lvl u :
  rewarded proto lvl (rewarded proto lvl u) = rewarded proto lvl u.
Proof.
  unfold rewarded at 1. rewrite rewarded_Status, moneyZ_rewarded, pendingZ_rewarded.
  unfold rewarded. case_bool_decide; [done|]. cbn.
  by rewrite Z.add_0_r, wrap64_small by apply wrap64_range.
Qed.

(** Applying the deferred rewards of an account at a level is
    exact (balance plus whole reward units times the levels gained), pays them
    once (a second application at the same level changes nothing), leaves
    non-participating accounts alone, and panics exactly when the account's
    base is above the level or the balance would exceed 64 bits. *)
Theorem rewards_exact_and_once proto lvl u :
  0 < proto_RewardUnit proto -> is_u64 lvl -> acct_wf u ->
  (rewardable proto lvl u ->
     exists u', WithUpdatedRewards proto lvl u = Ok u' /\
       acct_MicroNovas u' = moneyZ proto lvl u /\ moneyZ proto lvl u' = moneyZ proto lvl u /\
       WithUpdatedRewards proto lvl u' = Ok u' /\
       (acct_Status u = NotParticipating -> u' = u)) /\
  (~ rewardable proto lvl u -> WithUpdatedRewards proto lvl u = Panic).
Proof.
  intros Hu Hl Hwf. split; [|by apply WithUpdatedRewards_Panic]. intros Hr.
  exists (rewarded proto lvl u). split_and!.
  - by apply WithUpdatedRewards_Ok.
  - apply rewarded_MicroNovas.
  - apply moneyZ_rewarded.
  - rewrite WithUpdatedRewards_Ok by eauto using rewarded_wf, rewarded_rewardable.
    by rewrite rewarded_idem.
  - intros Hs. unfold rewarded. by rewrite bool_decide_true.
Qed.

Lemma rewards_exact_and_once_witness :
  exists u', WithUpdatedRewards v31 10 (MakeAccountData Offline 3500000) = Ok u' /\
    acct_MicroNovas u' = 3500030 /\ WithUpdatedRewards v31 10 u' = Ok u'.
Proof.
  destruct (rewards_exact_and_once v31 10 (MakeAccountData Offline 3500000)) as [H _];
    [done | done | by split_and! | ].
  destruct H as (u' & H1 & H2 & _ & H3 & _); [right; by split|].
  exists u'. split_and!; [exact H1 | rewrite H2; reflexivity | exact H3].
Defined.

(** The normalized balance of an online account never panics and
    never exceeds the balance, as long as its rewards base plus the reward unit
    fits in 64 bits. *)
Theorem NormalizedOnlineBalance_total proto u :
  0 < proto_RewardUnit proto -> acct_wf u ->
  acct_RewardsBase u + proto_RewardUnit proto < two64 ->
  exists n, NormalizedOnlineBalance proto u = Ok n /\ 0 <= n <= acct_MicroNovas u.
Proof.
  intros Hu (Hm & Hb & _) Hfit. unfold NormalizedOnlineBalance.
  case_bool_decide; [exists 0; split; [done|word]|].
  rewrite wrap64_small by word. unfold Muldiv.
  destruct (Z.eqb_spec (acct_RewardsBase u + proto_RewardUnit proto) 0); [word|].
  assert (0 <= acct_MicroNovas u * proto_RewardUnit proto /
            (acct_RewardsBase u + proto_RewardUnit proto) <= acct_MicroNovas u) as Hq.
  { split; [apply Z.div_pos; word || (unfold is_u64 in *; nia)|].
    apply Z.div_le_upper_bound; unfold is_u64 in *; nia. }
  set (q := _ / _) in *. cbv [mbind outcome_bind].
  rewrite (proj2 (Z.leb_le 0 q)), (proj2 (Z.ltb_lt q two64)) by word.
  exists q. rewrite wrap64_small by word. done.
Qed.

Lemma NormalizedOnlineBalance_total_witness :
  exists n, NormalizedOnlineBalance v31 (MakeAccountData Online 7000000) = Ok n /\
            0 <= n <= 7000000.
Proof.
  apply (NormalizedOnlineBalance_total v31 (MakeAccountData Online 7000000));
    [done | by split_and! | done].
Defined.

(** A well-typed TEAL value survives the conversion to a delta and back. *)
Lemma TealValue_delta_roundtrip tv :
  tv_Type tv = TealBytesType /\ tv_Uint tv = 0 \/ tv_Type tv = TealUintType /\ tv_Bytes tv = "" ->
  ToTealValue (ToValueDelta tv) = (tv, true).
Proof. destruct tv as [t b n]; cbn. intros [[-> ->]|[-> ->]]; reflexivity. Qed.

(** Clients reason with the specifications above, not with the bodies. *)
#[global] Arguments wrap64 : simpl never.
#[global] Arguments OAdd : simpl never.
#[global] Arguments OSub : simpl never.
#[global] Arguments OMul : simpl never.
#[global] Arguments AddSaturate : simpl never.
#[global] Arguments SubSaturate : simpl never.
#[global] Arguments WithUpdatedRewards : simpl never.
#[global] Arguments MinBalance : simpl never.
