(* ===== verification/BigFloat.v ===== *)
(** [src/crypto/compactcert/bigfloat.go] and [numReveals] of [common.go]: numbers with a
    32-bit mantissa, rounded up or down, and the number of reveals a compact certificate
    needs.  The theorem is that rounding never costs security: the number of reveals that
    is computed satisfies the inequality of the analysis exactly. *)
From S2P Require Import Prelude Config Basics.
#[local] Open Scope string_scope.
#[local] Open Scope Z_scope.

(** Two's complement wrap-around of [int32]. *)
Definition swrap32 (x : Z) : Z := (x + 2147483648) mod two32 - 2147483648.

Record bigFloat : Type := mkbigFloat { bf_mantissa : Z; bf_exp : Z }.

(** The highest bit of the mantissa. *)
Definition highBit (m : Z) : bool := negb (Z.land m 2147483648 =? 0).

(** Every turn of the loop shifts the mantissa by a bit, so 32 turns are enough. *)
Fixpoint canonicalize_loop (n : nat) (a : bigFloat) : bigFloat :=
  match n with
  | O => a
  | S n' => if highBit (bf_mantissa a) then a
            else canonicalize_loop n' (mkbigFloat (wrap32 (Z.shiftl (bf_mantissa a) 1)) (swrap32 (bf_exp a - 1)))
  end.
Definition canonicalize (a : bigFloat) : bigFloat := if bf_mantissa a =? 0 then a else canonicalize_loop 32 a.

Definition doRoundUp (a : bigFloat) : bigFloat :=
  if bf_mantissa a =? MaxUint32 then mkbigFloat 2147483648 (swrap32 (bf_exp a + 1))
  else mkbigFloat (wrap32 (bf_mantissa a + 1)) (bf_exp a).

Definition geRaw (a b : bigFloat) : bool :=
  if bf_exp b <? bf_exp a then true else if bf_exp a <? bf_exp b then false else bf_mantissa b <=? bf_mantissa a.

(** Halve [x] until it fits in 32 bits; [x] is a 64-bit word. *)
Fixpoint setu64_loop (n : nat) (x e : Z) (truncated : bool) : Z * Z * bool :=
  match n with
  | O => (x, e, truncated)
  | S n' => if x <? two32 then (x, e, truncated)
            else setu64_loop n' (Z.shiftr x 1) (swrap32 (e + 1)) (truncated || negb (Z.land x 1 =? 0))
  end.
Definition setu64Dn (x : Z) : outcome (bigFloat * bool) :=
  if x =? 0 then Err (Errorf "bigFloat cannot be zero")
  else let '(x, e, truncated) := setu64_loop 32 x 0 false in
       Ok (canonicalize (mkbigFloat (wrap32 x) e), truncated).

Definition Up_setu64 (x : Z) : outcome bigFloat :=
  '(a, truncated) ← setu64Dn x; Ok (if (truncated : bool) then doRoundUp a else a).
Definition Dn_setu64 (x : Z) : outcome bigFloat := '(a, _) ← setu64Dn x; Ok a.

Definition setu32 (x : Z) : outcome bigFloat :=
  if x =? 0 then Err (Errorf "bigFloat cannot be zero") else Ok (canonicalize (mkbigFloat x 0)).
Definition setpow2 (x : Z) : bigFloat := canonicalize (mkbigFloat 1 x).

(** [bits.Mul32]: the high and the low word of a product. *)
Definition Mul32 (x y : Z) : Z * Z := (x * y / two32, wrap32 (x * y)).

Definition mulDn (a b : bigFloat) : bigFloat * bool :=
  let '(hi, lo) := Mul32 (bf_mantissa a) (bf_mantissa b) in
  let e := swrap32 (swrap32 (bf_exp a + bf_exp b) + 32) in
  if highBit hi then (mkbigFloat hi e, negb (lo =? 0))
  else (mkbigFloat (Z.lor (wrap32 (Z.shiftl hi 1)) (Z.shiftr lo 31)) (swrap32 (e - 1)), negb (wrap32 (Z.shiftl lo 1) =? 0)).

Definition Up_mul (a b : bigFloat) : bigFloat := let '(r, truncated) := mulDn a b in if truncated then doRoundUp r else r.
Definition Dn_mul (a b : bigFloat) : bigFloat := (mulDn a b).1.

(** The search for the number of reveals stops at [bound]. *)
Fixpoint numReveals_loop (fuel : nat) (n bound : Z) (lhs sw rhs pw : bigFloat) : outcome Z :=
  if geRaw lhs rhs then Ok n
  else if bound <=? n then Err (Errorf "numReveals exceeds the bound")
  else match fuel with
       | O => Err (Errorf "numReveals exceeds the bound")
       | S fuel' => numReveals_loop fuel' (wrap64 (n + 1)) bound (Dn_mul lhs sw) sw (Up_mul rhs pw) pw
       end.
Definition numReveals (signedWeight provenWeight secKQ bound : Z) : outcome Z :=
  sw ← Dn_setu64 signedWeight;
  pw ← Up_setu64 provenWeight;
  lhs ← Dn_setu64 1;
  numReveals_loop (Z.to_nat bound) 0 bound lhs sw (setpow2 (swrap32 secKQ)) pw.

(** ** Rounding *)

(** Mantissas are canonical and exponents far from the ends of their range. *)
Definition canonical (E : Z) (a : bigFloat) : Prop := 2147483648 <= bf_mantissa a < two32 /\ - E <= bf_exp a <= E.

(** [a] is at most, or at least, the number [N]; any scale that makes the exponent
    natural will do. *)
Definition below (a : bigFloat) (N : Z) : Prop :=
  exists k, 0 <= k /\ 0 <= bf_exp a + k /\ bf_mantissa a * 2 ^ (bf_exp a + k) <= N * 2 ^ k.
Definition above (a : bigFloat) (N : Z) : Prop :=
  exists k, 0 <= k /\ 0 <= bf_exp a + k /\ N * 2 ^ k <= bf_mantissa a * 2 ^ (bf_exp a + k).

Lemma swrap32_small x : -2147483648 <= x < 2147483648 -> swrap32 x = x.
Proof. intros. unfold swrap32. rewrite Z.mod_small by word. lia. Qed.

Lemma highBit_spec m : 0 <= m < two32 -> highBit m = (2147483648 <=? m).
Proof.
  intros Hm. unfold highBit. change 2147483648 with (2 ^ 31). destruct (Z.leb_spec (2 ^ 31) m) as [H|H].
  - apply negb_true_iff, Z.eqb_neq. intros E. assert (Z.testbit (Z.land m (2 ^ 31)) 31 = true) as Hb; [|by rewrite E, Z.bits_0 in Hb].
    rewrite Z.land_spec, Z.pow2_bits_true by lia. rewrite andb_true_r, Z.testbit_true by lia.
    replace (m / 2 ^ 31) with 1; [done|]. apply (Z.div_unique m (2 ^ 31) 1 (m - 2 ^ 31)); unfold two32 in *; lia.
  - apply negb_false_iff, Z.eqb_eq, Z.bits_inj_0. intros i. rewrite Z.land_spec. destruct (Z.eq_dec i 31) as [->|Hi].
    + apply andb_false_iff. left. apply Z.testbit_false; [lia|]. by rewrite Z.div_small by lia.
    + destruct (Z.ltb_spec i 0); [by rewrite !Z.testbit_neg_r by lia|]. rewrite Z.pow2_bits_false by lia. apply andb_false_r.
Qed.

Lemma scale_le a b d : 0 <= d -> a * 2 ^ d <= b * 2 ^ d -> a <= b.
Proof. intros Hd H. apply (Z.mul_le_mono_pos_r a b (2 ^ d)); [apply Z.pow_pos_nonneg; lia|done]. Qed.


(** The scale does not matter. *)
Lemma rescale m e N k k' : 0 <= k -> 0 <= e + k -> 0 <= k' -> 0 <= e + k' ->
  (m * 2 ^ (e + k) <= N * 2 ^ k -> m * 2 ^ (e + k') <= N * 2 ^ k') /\
  (N * 2 ^ k <= m * 2 ^ (e + k) -> N * 2 ^ k' <= m * 2 ^ (e + k')).
Proof.
  intros. assert (2 ^ (e + k) * 2 ^ k' = 2 ^ (e + k') * 2 ^ k) as E by (rewrite <- !Z.pow_add_r by lia; f_equal; lia).
  assert (0 < 2 ^ k) by (apply Z.pow_pos_nonneg; lia). assert (0 < 2 ^ k') by (apply Z.pow_pos_nonneg; lia).
  assert (m * 2 ^ (e + k') * 2 ^ k = m * 2 ^ (e + k) * 2 ^ k') as E' by (rewrite <- !Z.mul_assoc; by f_equal).
  assert (N * 2 ^ k' * 2 ^ k = N * 2 ^ k * 2 ^ k') as E'' by lia.
  split; intros Hle; (apply (scale_le _ _ k); [lia|]); rewrite E', E''; apply Z.mul_le_mono_nonneg_r; lia.
Qed.
Lemma below_at a N k : below a N -> 0 <= k -> 0 <= bf_exp a + k -> bf_mantissa a * 2 ^ (bf_exp a + k) <= N * 2 ^ k.
Proof. intros (k0 & H1 & H2 & H3) H4 H5. by apply (proj1 (rescale (bf_mantissa a) (bf_exp a) N k0 k H1 H2 H4 H5)). Qed.
Lemma above_at a N k : above a N -> 0 <= k -> 0 <= bf_exp a + k -> N * 2 ^ k <= bf_mantissa a * 2 ^ (bf_exp a + k).
Proof. intros (k0 & H1 & H2 & H3) H4 H5. by apply (proj2 (rescale (bf_mantissa a) (bf_exp a) N k0 k H1 H2 H4 H5)). Qed.

(** The value of a number is what its mantissa and its exponent say. *)
Lemma canonicalize_loop_spec n m e : 0 < m < two32 -> 32 <= Z.of_nat n + Z.log2 m + 1 -> -2100000000 + Z.of_nat n <= e <= 2000000000 ->
  exists j, 0 <= j <= Z.of_nat n /\ canonicalize_loop n (mkbigFloat m e) = mkbigFloat (m * 2 ^ j) (e - j) /\
    2147483648 <= m * 2 ^ j < two32.
Proof.
  revert m e. induction n as [|n IH]; intros m e Hm Hn He.
  - exists 0. split; [lia|]. split; [cbn; f_equal; lia|]. assert (31 <= Z.log2 m) as Hl by lia.
    apply Z.log2_le_pow2 in Hl; [|lia]. change (2 ^ 31) with 2147483648 in Hl. change (2 ^ 0) with 1. word.
  - cbn [canonicalize_loop bf_mantissa bf_exp]. rewrite highBit_spec by word. destruct (Z.leb_spec 2147483648 m).
    + exists 0. change (2 ^ 0) with 1. split; [lia|]. split; [f_equal; lia|word].
    + rewrite Z.shiftl_mul_pow2, wrap32_small, swrap32_small by word. change (2 ^ 1) with 2.
      destruct (IH (m * 2) (e - 1)) as (j & Hj & Heq & Hr); [word| |word|].
      * rewrite (Z.mul_comm m 2), Z.log2_double by lia. lia.
      * exists (j + 1). rewrite Z.pow_add_r by lia. change (2 ^ 1) with 2. split; [lia|]. split; [rewrite Heq; f_equal; lia|lia].
Qed.
Lemma canonicalize_spec m e : 0 < m < two32 -> -2000000000 <= e <= 2000000000 ->
  exists j, 0 <= j <= 31 /\ canonicalize (mkbigFloat m e) = mkbigFloat (m * 2 ^ j) (e - j) /\ 2147483648 <= m * 2 ^ j < two32.
Proof.
  intros Hm He. unfold canonicalize. cbn [bf_mantissa]. destruct (Z.eqb_spec m 0); [lia|].
  destruct (canonicalize_loop_spec 32 m e) as (j & Hj & Heq & Hr); [done|pose proof (Z.log2_nonneg m); lia|lia|].
  exists j. split; [|done]. split; [lia|]. assert (j <> 32); [|lia]. intros ->.
  change (2 ^ 32) with 4294967296 in Hr. word.
Qed.

(** Both numbers denote the same value. *)
Definition same (a b : bigFloat) : Prop := forall N, (below a N <-> below b N) /\ (above a N <-> above b N).
Lemma same_shift m e j : 0 <= j -> same (mkbigFloat (m * 2 ^ j) (e - j)) (mkbigFloat m e).
Proof.
  intros Hj N.
  assert (forall k, 0 <= e - j + k -> m * 2 ^ j * 2 ^ (e - j + k) = m * 2 ^ (e + k)) as E.
  { intros k Hk. rewrite <- Z.mul_assoc, <- Z.pow_add_r by lia. do 2 f_equal. lia. }
  unfold below, above. cbn. split; split; intros (k & H1 & H2 & H3).
  1,3: exists k; rewrite <- E by lia; split_and!; lia.
  1: set (P := below_at (mkbigFloat m e) N (k + j)); cbn in P.
  2: set (P := above_at (mkbigFloat m e) N (k + j)); cbn in P.
  all: exists (k + j); rewrite E by lia; split_and!; [lia..|]; apply P; [exists k; cbn|..]; split_and?; lia.
Qed.

(** Halving keeps the number between the mantissa and its successor. *)
Lemma setu64_loop_spec n x e t : 0 < x < two32 * 2 ^ Z.of_nat n -> 0 <= e -> e + Z.of_nat n <= 2000000000 ->
  exists j, 0 <= j <= Z.of_nat n /\
    setu64_loop n x e t = (x / 2 ^ j, e + j, t || negb (x mod 2 ^ j =? 0)) /\ 0 < x / 2 ^ j < two32 /\
    (j = 0 \/ 2147483648 <= x / 2 ^ j).
Proof.
  revert x e t. induction n as [|n IH]; intros x e t Hx He Hn.
  - exists 0. change (2 ^ 0) with 1. rewrite Z.div_1_r, Z.mod_1_r, orb_false_r. cbn in *.
    split; [lia|]. split; [do 2 f_equal; lia|]. split; [lia|by left].
  - cbn [setu64_loop]. destruct (Z.ltb_spec x two32).
    + exists 0. change (2 ^ 0) with 1. rewrite Z.div_1_r, Z.mod_1_r, orb_false_r.
      split; [lia|]. split; [do 2 f_equal; lia|]. split; [lia|by left].
    + rewrite Z.shiftr_div_pow2, swrap32_small by lia. change (2 ^ 1) with 2.
      assert (Z.land x 1 = x mod 2) as -> by (apply (Z.land_ones x 1); lia).
      assert (x / 2 < two32 * 2 ^ Z.of_nat n) by (apply Z.div_lt_upper_bound; [lia|]; rewrite Nat2Z.inj_succ, Z.pow_succ_r in Hx by lia; lia).
      assert (2147483648 <= x / 2) by (apply Z.div_le_lower_bound; word).
      destruct (IH (x / 2) (e + 1) (t || negb (x mod 2 =? 0))) as (j & Hj & -> & Hr & Hb); [lia..|].
      exists (j + 1). assert (2 ^ (j + 1) = 2 * 2 ^ j) as -> by (rewrite Z.pow_add_r by lia; lia).
      assert (0 < 2 ^ j) by (apply Z.pow_pos_nonneg; lia). rewrite <- Z.div_div, Z.rem_mul_r by lia.
      split; [lia|]. split; [|split; [done|right; destruct Hb as [->|Hb]; [by change (2 ^ 0) with 1; rewrite Z.div_1_r|done]]].
      assert (0 <= x mod 2 < 2) by (apply Z.mod_pos_bound; lia). assert (0 <= x / 2 mod 2 ^ j) by (apply Z.mod_pos_bound; lia).
      f_equal; [f_equal; lia|]. rewrite <- orb_assoc. f_equal.
      destruct (Z.eqb_spec (x mod 2) 0), (Z.eqb_spec (x / 2 mod 2 ^ j) 0), (Z.eqb_spec (x mod 2 + 2 * (x / 2 mod 2 ^ j)) 0); cbn; lia || done.
Qed.

(** [a] is [N] rounded down, and exact unless bits were cut off. *)
Definition rounded (E : Z) (a : bigFloat) (truncated : bool) (N : Z) : Prop :=
  canonical E a /\ below a N /\ (truncated = false -> above a N) /\
  (truncated = true -> above (mkbigFloat (bf_mantissa a + 1) (bf_exp a)) N).

Lemma canonical_weaken E E' a : E <= E' -> canonical E a -> canonical E' a.
Proof. unfold canonical. lia. Qed.

Lemma round_up_above E a N : 0 <= E < 2000000000 -> canonical E a -> above (mkbigFloat (bf_mantissa a + 1) (bf_exp a)) N ->
  canonical (E + 1) (doRoundUp a) /\ above (doRoundUp a) N.
Proof.
  intros HE [Hm He] Ht. set (k := Z.max 0 (- bf_exp a)). pose proof (above_at _ _ k Ht ltac:(lia) ltac:(cbn; lia)) as Hk. cbn in Hk.
  unfold doRoundUp. destruct (Z.eqb_spec (bf_mantissa a) MaxUint32) as [Em|Em].
  - rewrite swrap32_small by lia. split; [split; cbn; word|]. exists k. cbn. split_and!; [lia..|].
    rewrite Em in Hk. change (MaxUint32 + 1) with (2147483648 * 2) in Hk.
    replace (bf_exp a + 1 + k) with (Z.succ (bf_exp a + k)) by lia. rewrite Z.pow_succ_r by lia. lia.
  - rewrite wrap32_small by word. split; [split; cbn; word|]. exists k. cbn. split_and!; lia.
Qed.

Lemma round_up E a t N : 0 <= E < 2000000000 -> rounded E a t N ->
  canonical (E + 1) (if t then doRoundUp a else a) /\ above (if t then doRoundUp a else a) N.
Proof.
  intros HE (Hc & _ & Hf & Ht). destruct t; [by apply round_up_above; auto|].
  split; [by apply (canonical_weaken E); [lia|]|auto].
Qed.

Lemma setu64Dn_spec x : 0 < x < two64 -> exists a t, setu64Dn x = Ok (a, t) /\ rounded 32 a t x.
Proof.
  intros Hx. unfold setu64Dn. destruct (Z.eqb_spec x 0); [lia|].
  destruct (setu64_loop_spec 32 x 0 false) as (j & Hj & -> & Hr & Hb); [change (two32 * 2 ^ Z.of_nat 32) with two64; lia|lia|lia|].
  rewrite wrap32_small by word. destruct (canonicalize_spec (x / 2 ^ j) (0 + j)) as (i & Hi & -> & Hc); [lia|lia|].
  eexists _, _. split; [done|]. pose proof (Z.div_mod x (2 ^ j) ltac:(apply Z.pow_nonzero; lia)) as Hdm.
  pose proof (Z.mod_pos_bound x (2 ^ j) ltac:(apply Z.pow_pos_nonneg; lia)) as Hmod. set (q := x / 2 ^ j) in *. set (r := x mod 2 ^ j) in *.
  split; [split; cbn; lia|]. split; [|split].
  - apply (same_shift q (0 + j) i (ltac:(lia))). exists 0. cbn. split_and!; [lia..|]. change (2 ^ 0) with 1. replace (0 + j + 0) with j by lia. lia.
  - intros Ht%negb_false_iff%Z.eqb_eq. apply (same_shift q (0 + j) i (ltac:(lia))). exists 0. cbn. split_and!; [lia..|]. change (2 ^ 0) with 1. replace (0 + j + 0) with j by lia. lia.
  - intros Ht%negb_true_iff%Z.eqb_neq. assert (i = 0) as ->.
    { destruct Hb as [->|Hb]; [by subst r; change (2 ^ 0) with 1 in Ht; rewrite Z.mod_1_r in Ht|].
      assert (i < 1); [|lia]. apply (Z.pow_lt_mono_r_iff 2); [lia|lia|]. change (2 ^ 1) with 2.
      assert (2147483648 * 2 ^ i <= q * 2 ^ i) by (apply Z.mul_le_mono_nonneg_r; [apply Z.pow_nonneg|]; lia). word. }
    change (2 ^ 0) with 1 in *. exists 0. cbn. split_and!; [lia..|]. change (2 ^ 0) with 1. replace (0 + j - 0 + 0) with j by lia. lia.
Qed.

Lemma lor_bit h b : 0 <= b <= 1 -> Z.lor (2 * h) b = 2 * h + b.
Proof.
  intros Hb. rewrite <- Z.lxor_lor, <- Z.add_nocarry_lxor; [done| |];
    (apply Z.bits_inj'; intros i Hi; rewrite Z.land_spec, Z.bits_0;
     destruct (Z.eq_dec i 0) as [->|]; [by rewrite Z.testbit_even_0|];
     assert (b = 0 \/ b = 1) as [-> | ->] by lia; [rewrite Z.bits_0|change 1 with (2 ^ 0); rewrite Z.pow2_bits_false by lia]; apply andb_false_r).
Qed.

(** The mantissa of a product is its [x] bits shorter prefix. *)
Lemma mulDn_prefix a b E F : canonical E a -> canonical F b -> E + F <= 2000000000 ->
  let P := bf_mantissa a * bf_mantissa b in
  exists x, (x = 31 \/ x = 32) /\ mulDn a b = (mkbigFloat (P / 2 ^ x) (bf_exp a + bf_exp b + x), negb (P mod 2 ^ x =? 0)) /\
    2147483648 <= P / 2 ^ x < two32.
Proof.
  intros [Ha HEa] [Hb HEb] HE P.
  assert (2147483648 * 2147483648 <= P) by (subst P; apply Z.mul_le_mono_nonneg; lia).
  assert (P <= 4294967295 * 4294967295) by (subst P; apply Z.mul_le_mono_nonneg; word).
  unfold mulDn, Mul32. fold P. rewrite (swrap32_small (_ + bf_exp b)) by lia. rewrite (swrap32_small (_ + 32)) by lia.
  assert (0 <= P / two32 < two32) by (split; [apply Z.div_pos; word|apply Z.div_lt_upper_bound; word]).
  rewrite highBit_spec by done. destruct (Z.leb_spec 2147483648 (P / two32)).
  - exists 32. change (2 ^ 32) with two32. split; [by right|]. split; [reflexivity|lia].
  - exists 31. split; [by left|]. rewrite swrap32_small by lia.
    assert (P / two32 = P / 2 ^ 31 / 2) as Ehi by (rewrite Z.div_div by lia; done).
    assert (wrap32 P / 2 ^ 31 = (P / 2 ^ 31) mod 2) as Elo.
    { unfold wrap32. change two32 with (2 ^ 31 * 2). rewrite Z.rem_mul_r by lia. rewrite Z.mul_comm, Z.div_add by lia.
      rewrite Z.div_small; [lia|]. apply Z.mod_pos_bound. lia. }
    assert (wrap32 P mod 2 ^ 31 = P mod 2 ^ 31) as Emod.
    { unfold wrap32. rewrite Z.mod_mod_divide; [done|]. exists 2. done. }
    pose proof (Z.div_mod (P / 2 ^ 31) 2 ltac:(lia)) as Hdm. pose proof (Z.mod_pos_bound (P / 2 ^ 31) 2 ltac:(lia)).
    rewrite !Z.shiftl_mul_pow2, Z.shiftr_div_pow2 by lia. change (2 ^ 1) with 2.
    rewrite (wrap32_small (P / two32 * 2)), Z.mul_comm, Elo, lor_bit by word.
    assert (2 * (P / two32) + (P / 2 ^ 31) mod 2 = P / 2 ^ 31) as -> by lia.
    split; [|split; [apply Z.div_le_lower_bound; lia|word]].
    f_equal; [f_equal; lia|]. f_equal. rewrite <- Emod. unfold wrap32 at 1. change two32 with (2 ^ 31 * 2).
    rewrite Z.mul_mod_distr_r by lia. destruct (Z.eqb_spec (wrap32 P mod 2 ^ 31) 0) as [->|]; [done|]. apply Z.eqb_neq. lia.
Qed.

(** Rounding a product: with both factors bounded, the scales add up. *)
Lemma mul_scaled a b E F : canonical E a -> canonical F b -> E + F <= 1000000000 ->
  exists m x t, mulDn a b = (mkbigFloat m (bf_exp a + bf_exp b + x), t) /\ (x = 31 \/ x = 32) /\ 2147483648 <= m < two32 /\
    m * 2 ^ x <= bf_mantissa a * bf_mantissa b <= (if t then m + 1 else m) * 2 ^ x.
Proof.
  intros Ha Hb HE. destruct (mulDn_prefix a b E F Ha Hb ltac:(lia)) as (x & Hx & -> & Hr).
  set (P := bf_mantissa a * bf_mantissa b) in *. exists (P / 2 ^ x), x, (negb (P mod 2 ^ x =? 0)). split; [done|]. split; [done|]. split; [done|].
  assert (0 < 2 ^ x) by (apply Z.pow_pos_nonneg; lia).
  pose proof (Z.div_mod P (2 ^ x) ltac:(lia)). pose proof (Z.mod_pos_bound P (2 ^ x) ltac:(lia)).
  destruct (Z.eqb_spec (P mod 2 ^ x) 0); cbn; lia.
Qed.
Lemma scale_product a b ka kb x : 0 <= a + ka -> 0 <= b + kb -> 0 <= x ->
  2 ^ (a + b + x + (ka + kb)) = 2 ^ x * (2 ^ (a + ka) * 2 ^ (b + kb)).
Proof. intros. rewrite <- !Z.pow_add_r by lia. f_equal. lia. Qed.

Lemma Dn_mul_below a b E F N M : canonical E a -> canonical F b -> E + F <= 1000000000 -> 0 <= N ->
  below a N -> below b M -> canonical (E + F + 32) (Dn_mul a b) /\ below (Dn_mul a b) (N * M).
Proof.
  intros Ha Hb HE HN (ka & Ha1 & Ha2 & Ha3) (kb & Hb1 & Hb2 & Hb3).
  destruct (mul_scaled a b E F Ha Hb HE) as (m & x & t & Heq & Hx & Hm & Hlo & _).
  unfold Dn_mul. rewrite Heq. destruct Ha as [Ham Hae], Hb as [Hbm Hbe]. cbn. split; [split; cbn; lia|].
  exists (ka + kb). cbn. split_and!; [lia..|]. rewrite scale_product, (Z.pow_add_r 2 ka kb) by lia.
  transitivity (bf_mantissa a * 2 ^ (bf_exp a + ka) * (bf_mantissa b * 2 ^ (bf_exp b + kb))).
  - rewrite (Z.mul_assoc _ (2 ^ x)). transitivity (bf_mantissa a * bf_mantissa b * (2 ^ (bf_exp a + ka) * 2 ^ (bf_exp b + kb))); [|apply Z.eq_le_incl; ring].
    apply Z.mul_le_mono_nonneg_r; [|done]. apply Z.mul_nonneg_nonneg; apply Z.pow_nonneg; lia.
  - transitivity (N * 2 ^ ka * (M * 2 ^ kb)); [|apply Z.eq_le_incl; ring]. apply Z.mul_le_mono_nonneg; try done; apply Z.mul_nonneg_nonneg; try lia; apply Z.pow_nonneg; lia.
Qed.
Lemma Up_mul_above a b E F N M : canonical E a -> canonical F b -> E + F <= 1000000000 -> 0 <= N -> 0 <= M ->
  above a N -> above b M -> canonical (E + F + 33) (Up_mul a b) /\ above (Up_mul a b) (N * M).
Proof.
  intros Ha Hb HE HN HM (ka & Ha1 & Ha2 & Ha3) (kb & Hb1 & Hb2 & Hb3).
  destruct (mul_scaled a b E F Ha Hb HE) as (m & x & t & Heq & Hx & Hm & _ & Hhi).
  assert (N * M * (2 ^ ka * 2 ^ kb) <= (if t then m + 1 else m) * (2 ^ x * (2 ^ (bf_exp a + ka) * 2 ^ (bf_exp b + kb)))) as Hle.
  { transitivity (N * 2 ^ ka * (M * 2 ^ kb)); [apply Z.eq_le_incl; ring|].
    transitivity (bf_mantissa a * 2 ^ (bf_exp a + ka) * (bf_mantissa b * 2 ^ (bf_exp b + kb))).
    - apply Z.mul_le_mono_nonneg; try done; apply Z.mul_nonneg_nonneg; try lia; apply Z.pow_nonneg; lia.
    - rewrite (Z.mul_assoc _ (2 ^ x)). transitivity (bf_mantissa a * bf_mantissa b * (2 ^ (bf_exp a + ka) * 2 ^ (bf_exp b + kb))); [apply Z.eq_le_incl; ring|].
      apply Z.mul_le_mono_nonneg_r; [|done]. apply Z.mul_nonneg_nonneg; apply Z.pow_nonneg; lia. }
  unfold Up_mul. rewrite Heq. destruct Ha as [Ham Hae], Hb as [Hbm Hbe].
  assert (canonical (E + F + 32) (mkbigFloat m (bf_exp a + bf_exp b + x))) as Hc by (split; cbn; lia).
  assert (forall c, N * M * (2 ^ ka * 2 ^ kb) <= c * (2 ^ x * (2 ^ (bf_exp a + ka) * 2 ^ (bf_exp b + kb))) ->
    above (mkbigFloat c (bf_exp a + bf_exp b + x)) (N * M)) as Hab.
  { intros c Hc'. exists (ka + kb). cbn. split_and!; [lia..|]. rewrite scale_product, (Z.pow_add_r 2 ka kb) by lia. done. }
  destruct t; [|split; [by apply (canonical_weaken (E + F + 32)); [lia|]|by apply Hab]].
  destruct (round_up_above (E + F + 32) (mkbigFloat m (bf_exp a + bf_exp b + x)) (N * M)) as [H1 H2]; [lia|done|by apply Hab|].
  split; [|done]. by apply (canonical_weaken (E + F + 32 + 1)); [lia|].
Qed.

Lemma geRaw_le a b E F N M : canonical E a -> canonical F b -> geRaw a b = true -> below a N -> above b M -> M <= N.
Proof.
  intros [Ha HEa] [Hb HEb] Hge Hbel Hab. set (k := Z.max 0 (Z.max (- bf_exp a) (- bf_exp b))).
  pose proof (below_at a N k Hbel ltac:(lia) ltac:(lia)). pose proof (above_at b M k Hab ltac:(lia) ltac:(lia)).
  apply (scale_le _ _ k); [lia|]. transitivity (bf_mantissa b * 2 ^ (bf_exp b + k)); [done|].
  transitivity (bf_mantissa a * 2 ^ (bf_exp a + k)); [|done]. unfold geRaw in Hge.
  assert (0 < 2 ^ (bf_exp b + k)) by (apply Z.pow_pos_nonneg; lia).
  destruct (Z.ltb_spec (bf_exp b) (bf_exp a)).
  - replace (bf_exp a + k) with (bf_exp a - bf_exp b + (bf_exp b + k)) by lia. rewrite (Z.pow_add_r 2 (bf_exp a - bf_exp b)), Z.mul_assoc by lia.
    apply Z.mul_le_mono_nonneg_r; [lia|]. assert (2 ^ 1 <= 2 ^ (bf_exp a - bf_exp b)) by (apply Z.pow_le_mono_r; lia).
    transitivity (bf_mantissa a * 2 ^ 1); [change (2 ^ 1) with 2; word|]. apply Z.mul_le_mono_nonneg_l; lia.
  - destruct (Z.ltb_spec (bf_exp a) (bf_exp b)); [done|]. apply Z.leb_le in Hge. replace (bf_exp a) with (bf_exp b) by lia.
    apply Z.mul_le_mono_nonneg_r; lia.
Qed.

(** ** The number of reveals *)

Lemma numReveals_loop_spec fuel sw pw n bound lhs rhs N M E SW PW r :
  canonical 32 sw -> canonical 33 pw -> below sw SW -> above pw PW -> 0 <= SW -> 0 <= PW ->
  canonical E lhs -> canonical E rhs -> E + 80 * Z.of_nat fuel <= 900000000 -> below lhs N -> above rhs M -> 0 <= N -> 0 <= M ->
  0 <= n -> n + Z.of_nat fuel <= bound -> bound < two64 ->
  numReveals_loop fuel n bound lhs sw rhs pw = Ok r ->
  exists d, 0 <= d <= Z.of_nat fuel /\ r = n + d /\ M * PW ^ d <= N * SW ^ d.
Proof.
  revert n lhs rhs N M E. induction fuel as [|fuel IH]; intros n lhs rhs N M E Hsw Hpw HSW HPW PSW PPW Hl Hr HE HN HM PN PM Hn Hb Hb64 Hrun;
    cbn [numReveals_loop] in Hrun; destruct (geRaw lhs rhs) eqn:Hge.
  1,3: exists 0; simplify_eq; rewrite !Z.pow_0_r, !Z.mul_1_r; split_and!; [lia..|by eapply (geRaw_le lhs rhs E E)].
  - by destruct (bound <=? n).
  - destruct (Z.leb_spec bound n); [done|].
    destruct (Dn_mul_below lhs sw E 32 N SW) as [Hl' HN']; [done..|lia|done|done|done|].
    destruct (Up_mul_above rhs pw E 33 M PW) as [Hr' HM']; [done..|lia|done|done|done|done|].
    rewrite wrap64_small in Hrun by word.
    apply (canonical_weaken _ (E + 66)) in Hl'; [|lia]. apply (canonical_weaken _ (E + 66)) in Hr'; [|lia].
    destruct (IH (n + 1) _ _ (N * SW) (M * PW) (E + 66) Hsw Hpw HSW HPW PSW PPW Hl' Hr') as (d & Hd & -> & Hle); try done; try lia.
    exists (d + 1). rewrite !Z.pow_add_r, !Z.pow_1_r by lia. split_and!; [lia..|].
    replace (M * (PW ^ d * PW)) with (M * PW * PW ^ d) by ring. replace (N * (SW ^ d * SW)) with (N * SW * SW ^ d) by ring. done.
Qed.

(** C27 (bounds): rounding never costs security.  For every signed and proven weight, the
    number of reveals that is computed satisfies the inequality of the analysis exactly:
    [2^(k+q) * provenWeight^n <= signedWeight^n], and it is within the bound. *)
Theorem numReveals_secure signedWeight provenWeight secKQ bound n :
  is_u64 signedWeight -> is_u64 provenWeight -> 0 <= secKQ <= 500000000 -> 0 <= bound <= 1000000 ->
  numReveals signedWeight provenWeight secKQ bound = Ok n ->
  0 <= n <= bound /\ 2 ^ secKQ * provenWeight ^ n <= signedWeight ^ n.
Proof.
  intros Hs Hp Hk Hb Hrun. unfold numReveals, Dn_setu64, Up_setu64 in Hrun.
  destruct (Z.eq_dec signedWeight 0) as [->|]; [done|].
  destruct (setu64Dn_spec signedWeight) as (sw & ts & Es & Hsc & Hsb & _); [word|]. rewrite Es in Hrun. cbn [mbind outcome_bind] in Hrun.
  destruct (Z.eq_dec provenWeight 0) as [->|]; [done|].
  destruct (setu64Dn_spec provenWeight) as (pw & tp & Ep & Hpr); [word|]. rewrite Ep in Hrun. cbn [mbind outcome_bind] in Hrun.
  destruct (round_up 32 pw tp provenWeight) as [Hpc Hpa]; [lia|done|].
  destruct (setu64Dn_spec 1) as (one & t1 & E1 & H1c & H1b & _); [word|]. rewrite E1 in Hrun. cbn [mbind outcome_bind] in Hrun.
  unfold setpow2 in Hrun. rewrite swrap32_small in Hrun by lia.
  destruct (canonicalize_spec 1 secKQ) as (j & Hj & Ec & Hc); [word|lia|]. rewrite Ec in Hrun.
  assert (above (mkbigFloat (1 * 2 ^ j) (secKQ - j)) (2 ^ secKQ)) as Hrhs.
  { apply (same_shift 1 secKQ j ltac:(lia)). exists 0. cbn. split_and!; [lia..|]. rewrite Z.pow_0_r, Z.add_0_r. lia. }
  apply (numReveals_loop_spec (Z.to_nat bound) sw _ 0 bound one _ 1 (2 ^ secKQ) (secKQ + 32) signedWeight provenWeight) in Hrun
    as (d & Hd & -> & Hle); [|done|done|done|done|word|word|by apply (canonical_weaken 32); [lia|]|split; cbn; lia|lia|done|done|lia| |lia|lia|word].
  - rewrite Z.mul_1_l in Hle. split; [lia|done].
  - apply Z.pow_nonneg. lia.
Qed.

Lemma numReveals_secure_witness :
  numReveals 1000000000000 700000000000 128 1024 = Ok 249 /\ 2 ^ 128 * 700000000000 ^ 249 <= 1000000000000 ^ 249.
Proof.
  split; [vm_compute; reflexivity|].
  apply (numReveals_secure 1000000000000 700000000000 128 1024 249); [word|word|lia|lia|vm_compute; reflexivity].
Defined.
