(* ===== verification/MerkleArray.v ===== *)
(** [src/crypto/merklearray] with the hashes of [src/crypto/hashes.go] it uses: Merkle trees
    over arrays, vector commitments, proofs for sets of positions and their verification.

    Bytes are numbers.  A Go map of elements is a [gmap]; the order in which the code walks
    it does not matter, since positions are sorted afterwards.  [sum] is the parameter for
    the two hash functions, which come from libraries; the hash of an unknown type is empty,
    as [invalidHash] has it.  The leaves and the layers are filled by concurrent workers;
    this file has what they compute, [MerkleWorkers] has the workers. *)
From S2P Require Import Prelude Config Basics.
#[local] Open Scope string_scope.
#[local] Open Scope list_scope.
#[local] Open Scope Z_scope.

Notation bytes := (list Z) (only parsing).
Notation GenericDigest := (list Z) (only parsing).
Notation Layer := (list (list Z)) (only parsing).
Definition blen {A} (l : list A) : Z := Z.of_nat (length l).
Definition wrap8 (x : Z) : Z := x mod 256.

(** ** Hashes *)

Definition Sha512_256 : Z := 0.
Definition Sumhash : Z := 1.
Definition MaxHashType : Z := 2.
Definition Sha512_256Size : Z := 32.
Definition SumhashDigestSize : Z := 64.
Definition MaxHashDigestSize : Z := SumhashDigestSize.

Definition HashType_Validate (h : Z) : outcome unit := failIf (MaxHashType <=? h) (Errorf "invalid object").
Definition hash_Size (h : Z) : Z := if h =? Sha512_256 then Sha512_256Size else if h =? Sumhash then SumhashDigestSize else 0.

(** What an object gives to be hashed: an identifier of its kind, and its bytes. *)
Record Hashable : Type := mkHashable { hb_HashID : bytes; hb_data : bytes }.
Definition HashRep (h : Hashable) : bytes := hb_HashID h ++ hb_data h.

(** [protocol.MerkleArrayNode] and [protocol.MerkleVectorCommitmentBottomLeaf]. *)
Definition MerkleArrayNode : bytes := [77; 65].
Definition MerkleVectorCommitmentBottomLeaf : bytes := [77; 66].

Definition zeros (n : nat) : bytes := replicate n 0.

(** [copy(buf[off:], src)]: a slice that starts behind the end panics. *)
Definition copyAt (buf : bytes) (off : nat) (src : bytes) : outcome bytes :=
  if (length buf <? off)%nat then Panic
  else Ok (take off buf ++ take (length buf - off) src ++ drop (off + length src) buf).

(** An internal node: its children in a buffer of twice the digest size. *)
Definition pair_ToBeHashed (l r : GenericDigest) (hashDigestSize : Z) : outcome Hashable :=
  buf ← copyAt (zeros (Z.to_nat (2 * hashDigestSize))) 0 l;
  buf ← copyAt buf (length l) r;
  Ok (mkHashable MerkleArrayNode buf).

Definition bottomElement : Hashable := mkHashable MerkleVectorCommitmentBottomLeaf [].

(** An array of elements to hash. *)
Record Array : Type := mkArray { arr_Length : Z; arr_Marshal : Z -> outcome Hashable }.

Record Tree : Type := mkTree { tr_Levels : list Layer; tr_NumOfElements : Z; tr_Hash : Z; tr_IsVectorCommitment : bool }.
Record Proof_ : Type := mkProof { pf_Path : list GenericDigest; pf_HashFactory : Z; pf_TreeDepth : Z }.
#[export] Instance Proof_eq_dec : EqDecision Proof_.
Proof. solve_decision. Defined.

(** ** Vector commitments *)

(** [bits.Len64], [bits.Reverse64], and the shift of a 64-bit one. *)
Definition Len64 (x : Z) : Z := if x =? 0 then 0 else Z.log2 x + 1.
Fixpoint reverse_bits (n : nat) (x : Z) : Z :=
  match n with O => 0 | S n' => (x mod 2) * 2 ^ Z.of_nat n' + reverse_bits n' (x / 2) end.
Definition Reverse64 (x : Z) : Z := reverse_bits 64 x.
Definition shl1 (n : Z) : Z := wrap64 (Z.shiftl 1 n).

Definition merkleTreeToVectorCommitmentIndex (msbIndex pathLen : Z) : outcome Z :=
  if shl1 pathLen <=? msbIndex then Err (Errorf "pos out of bound")
  else Ok (Z.shiftr (Reverse64 msbIndex) (wrap8 (64 - pathLen))).

Record vectorCommitmentArray : Type := mkvectorCommitmentArray { vc_array : Array; vc_pathLen : Z; vc_paddedLen : Z }.
Definition generateVectorCommitmentArray (innerArray : Array) : vectorCommitmentArray :=
  let arrayLen := arr_Length innerArray in
  if (arrayLen =? 0) || (arrayLen =? 1) then mkvectorCommitmentArray innerArray 1 1
  else let path := wrap8 (Len64 (wrap64 (arrayLen - 1))) in
       mkvectorCommitmentArray innerArray path (shl1 path).

Definition vc_Marshal (vc : vectorCommitmentArray) (pos : Z) : outcome Hashable :=
  lsbIndex ← merkleTreeToVectorCommitmentIndex pos (vc_pathLen vc);
  if vc_paddedLen vc <=? lsbIndex then Err (Errorf "can't get element out of padded array bound")
  else if lsbIndex <? arr_Length (vc_array vc) then arr_Marshal (vc_array vc) lsbIndex
  else Ok bottomElement.
Definition vc_Array (vc : vectorCommitmentArray) : Array := mkArray (vc_paddedLen vc) (vc_Marshal vc).

(** ** Siblings and partial layers *)

Record siblings : Type := mksiblings { sib_tree : option Tree; sib_hints : list GenericDigest }.
Record layerItem : Type := mklayerItem { li_pos : Z; li_hash : GenericDigest }.
Notation partialLayer := (list layerItem) (only parsing).

Definition siblings_get (s : siblings) (l : nat) (i : Z) : outcome (GenericDigest * siblings) :=
  match sib_tree s with
  | None => match sib_hints s with
            | res :: hints => Ok (res, mksiblings None hints)
            | [] => Err (Errorf "no more sibling hints")
            end
  | Some tree =>
      match tr_Levels tree !! l with
      | None => Err (Errorf "level beyond tree height")
      | Some layer => let res := default [] (layer !! Z.to_nat i) in
                      Ok (res, mksiblings (Some tree) (sib_hints s ++ [res]))
      end
  end.

Section hashes.
  Context (sum : Z -> bytes -> bytes).

Definition hash_Sum (h : Z) (m : bytes) : GenericDigest := if h <? MaxHashType then sum h m else [].
Definition GenericHashObj (h : Z) (obj : Hashable) : GenericDigest := hash_Sum h (HashRep obj).

Definition hashPair (h : Z) (l r : GenericDigest) : outcome GenericDigest :=
  p ← pair_ToBeHashed l r (hash_Size h); Ok (GenericHashObj h p).

(** The parent of a node; [doHash] is off when only the hints matter. *)
Definition nextLayerHash (h : Z) (doHash : bool) (pos : Z) (posHash siblingHash : GenericDigest) : outcome GenericDigest :=
  if doHash then
    if Z.land pos 1 =? 0 then hashPair h posHash siblingHash else hashPair h siblingHash posHash
  else Ok [].

Fixpoint up (h : Z) (l : nat) (doHash : bool) (pl : partialLayer) (s : siblings) : outcome (partialLayer * siblings) :=
  match pl with
  | [] => Ok ([], s)
  | item :: rest =>
      let pos := li_pos item in
      let siblingPos := Z.lxor pos 1 in
      let hinted :=
        '(siblingHash, s) ← siblings_get s l siblingPos;
        nextHash ← nextLayerHash h doHash pos (li_hash item) siblingHash;
        '(res, s) ← up h l doHash rest s;
        Ok (mklayerItem (pos / 2) nextHash :: res, s) in
      match rest with
      | next :: rest' =>
          if li_pos next =? siblingPos then
            nextHash ← nextLayerHash h doHash pos (li_hash item) (li_hash next);
            '(res, s) ← up h l doHash rest' s;
            Ok (mklayerItem (pos / 2) nextHash :: res, s)
          else hinted
      | [] => hinted
      end
  end.

(** ** Building a tree *)

(** The leaves, in order; the first element that has no representation is the error. *)
Fixpoint buildLeaves (h : Z) (array : Array) (n : nat) (i : Z) : outcome Layer :=
  match n with
  | O => Ok []
  | S n' => m ← arr_Marshal array i; leaves ← buildLeaves h array n' (i + 1); Ok (GenericHashObj h m :: leaves)
  end.

(** The layer above: nodes are hashed in pairs, the last one alone when it has no sibling. *)
Fixpoint nextLayer (h : Z) (l : Layer) : outcome Layer :=
  match l with
  | [] => Ok []
  | [x] => p ← hashPair h x []; Ok [p]
  | x :: y :: l' => p ← hashPair h x y; rest ← nextLayer h l'; Ok (p :: rest)
  end.

(** Every layer is at most half, rounded up, of the one below. *)
Fixpoint buildLayers_loop (h : Z) (fuel : nat) (top : Layer) : outcome (list Layer) :=
  if (length top <=? 1)%nat then Ok [top]
  else match fuel with
       | O => Err (Errorf "out of fuel")
       | S fuel' => next ← nextLayer h top; levels ← buildLayers_loop h fuel' next; Ok (top :: levels)
       end.
Definition buildLayers (h : Z) (leaves : Layer) : outcome (list Layer) :=
  if (length leaves =? 0)%nat then Ok [] else buildLayers_loop h (length leaves) leaves.

Definition Build (array : Array) (factory : Z) : outcome Tree :=
  leaves ← buildLeaves factory array (Z.to_nat (arr_Length array)) 0;
  levels ← buildLayers factory leaves;
  Ok (mkTree levels (arr_Length array) factory false).

Definition BuildVectorCommitmentTree (array : Array) (factory : Z) : outcome Tree :=
  t ← Build (vc_Array (generateVectorCommitmentArray array)) factory;
  Ok (mkTree (tr_Levels t) (arr_Length array) (tr_Hash t) true).

Definition topLayer (tree : Tree) : outcome Layer := match last (tr_Levels tree) with Some l => Ok l | None => Panic end.
Definition Root (tree : Tree) : outcome GenericDigest :=
  if blen (tr_Levels tree) =? 0 then Ok []
  else top ← topLayer tree; match top with r :: _ => Ok r | [] => Panic end.

(** ** Proving *)

Definition inspectRoot (root : GenericDigest) (pl : partialLayer) : outcome unit :=
  match pl with
  | [] => Panic
  | item :: _ => if negb (li_pos item =? 0) || negb (bool_decide (li_hash item = root)) then Err (Errorf "root mismatch") else Ok tt
  end.

Definition createEmptyProof (tree : Tree) : Proof_ :=
  let treeDepth := if blen (tr_Levels tree) =? 0 then 0 else wrap8 (wrap8 (blen (tr_Levels tree)) - 1) in
  mkProof [] (tr_Hash tree) treeDepth.

Definition validateProof : bool := false.

(** The first partial layer, without duplicates of sorted positions. *)
Fixpoint firstItems (leaves : option Layer) (prev : option Z) (idxs : list Z) : outcome partialLayer :=
  match idxs with
  | [] => Ok []
  | pos :: rest =>
      if bool_decide (prev = Some pos) then firstItems leaves prev rest
      else match leaves ≫= (fun l => l !! Z.to_nat pos) with
           | None => Panic
           | Some hash => items ← firstItems leaves (Some pos) rest; Ok (mklayerItem pos hash :: items)
           end
  end.

(** Go up [n] levels from level [l]. *)
Fixpoint upLevels (h : Z) (n : nat) (l : nat) (pl : partialLayer) (s : siblings) : outcome (partialLayer * siblings) :=
  match n with
  | O => Ok (pl, s)
  | S n' => '(pl, s) ← up h l validateProof pl s; upLevels h n' (S l) pl s
  end.

Definition createProof (tree : Tree) (idxs : list Z) : outcome Proof_ :=
  pl ← firstItems (head (tr_Levels tree)) None idxs;
  '(pl, s) ← upLevels (tr_Hash tree) (length (tr_Levels tree) - 1) 0 pl (mksiblings (Some tree) []);
  _ ← failIf (negb (blen pl =? 1)) (Errorf "internal error: partial Layer");
  _ ← (if validateProof then top ← topLayer tree; root ← match top with r :: _ => Ok r | [] => Panic end; inspectRoot root pl else Ok tt);
  Ok (mkProof (sib_hints s) (tr_Hash tree) (wrap8 (blen (tr_Levels tree) - 1))).

Fixpoint convertLeavesIndexes (tree : Tree) (idxs : list Z) : outcome (list Z) :=
  match idxs with
  | [] => Ok []
  | i :: rest => idx ← merkleTreeToVectorCommitmentIndex i (wrap8 (blen (tr_Levels tree) - 1));
                 rest ← convertLeavesIndexes tree rest; Ok (idx :: rest)
  end.

Definition Prove (tree : Tree) (idxs : list Z) : outcome Proof_ :=
  if blen idxs =? 0 then Ok (createEmptyProof tree)
  else
    _ ← failIf (tr_NumOfElements tree =? 0) (Errorf "proving in zero-length commitment");
    _ ← failIf (existsb (fun i => tr_NumOfElements tree <=? i) idxs) (Errorf "pos out of bound");
    idxs ← (if tr_IsVectorCommitment tree then convertLeavesIndexes tree idxs else Ok idxs);
    createProof tree (merge_sort Z.le idxs).

Definition ProveSingleLeaf (tree : Tree) (idx : Z) : outcome Proof_ := Prove tree [idx].

(** ** Verifying *)

Definition item_le (x y : layerItem) : Prop := li_pos x <= li_pos y.
#[global] Instance item_le_dec : RelDecision item_le := fun x y => Z_le_dec (li_pos x) (li_pos y).

Definition hashLeaves (h : Z) (elems : gmap Z Hashable) (treeDepth : Z) : outcome (gmap Z GenericDigest) :=
  _ ← failIf (existsb (fun kv => shl1 treeDepth <=? kv.1) (map_to_list elems)) (Errorf "pos out of bound");
  Ok (GenericHashObj h <$> elems).

Definition buildFirstPartialLayer (elems : gmap Z GenericDigest) : partialLayer :=
  merge_sort item_le (map (fun kv => mklayerItem kv.1 kv.2) (map_to_list elems)).

Fixpoint convertIndexes_loop (treeDepth : Z) (elems : list (Z * Hashable)) : outcome (gmap Z Hashable) :=
  match elems with
  | [] => Ok ∅
  | (i, e) :: rest => idx ← merkleTreeToVectorCommitmentIndex i treeDepth;
                      m ← convertIndexes_loop treeDepth rest; Ok (<[idx := e]> m)
  end.
Definition convertIndexes (elems : gmap Z Hashable) (treeDepth : Z) : outcome (gmap Z Hashable) :=
  convertIndexes_loop treeDepth (map_to_list elems).

(** Every turn uses up a hint or merges two items. *)
Fixpoint verifyPath_loop (h : Z) (fuel : nat) (l : nat) (pl : partialLayer) (s : siblings) : outcome partialLayer :=
  if (0 <? blen (sib_hints s)) || (1 <? blen pl) then
    match fuel with
    | O => Err (Errorf "out of fuel")
    | S fuel' => '(pl, s) ← up h l true pl s; verifyPath_loop h fuel' (S l) pl s
    end
  else Ok pl.
Definition verifyPath (root : GenericDigest) (proof : Proof_) (pl : partialLayer) : outcome unit :=
  pl ← verifyPath_loop (pf_HashFactory proof) (length (pf_Path proof) + length pl) 0 pl (mksiblings None (pf_Path proof));
  inspectRoot root pl.

Definition Verify (root : GenericDigest) (elems : gmap Z Hashable) (proof : option Proof_) : outcome unit :=
  match proof with
  | None => Err (Errorf "proof should not be nil")
  | Some proof =>
      if Z.of_nat (size elems) =? 0 then
        failIf (negb (blen (pf_Path proof) =? 0)) (Errorf "non-empty proof for empty set of elements")
      else
        hashedLeaves ← hashLeaves (pf_HashFactory proof) elems (pf_TreeDepth proof);
        verifyPath root proof (buildFirstPartialLayer hashedLeaves)
  end.

Definition VerifyVectorCommitment (root : GenericDigest) (elems : gmap Z Hashable) (proof : option Proof_) : outcome unit :=
  match proof with
  | None => Err (Errorf "proof should not be nil")
  | Some p => msbIndexedElements ← convertIndexes elems (pf_TreeDepth p); Verify root msbIndexedElements proof
  end.
End hashes.
