(* ===== verification/MerkleSignature.v ===== *)
(** [src/crypto/merklesignature], with the wrappers of [src/crypto/falconWrapper.go]: one
    Falcon key for every round that is a multiple of the interval, committed in a vector
    commitment whose root is the public key, and signatures that carry the ephemeral key
    and its path.

    The Falcon scheme is a library: key generation, signing, verification and the
    conversion of signatures to a fixed length are the class [Falcon].  An empty digest in
    a path stands for the nil slice, which is what decoding makes of it.  Keys are
    generated by concurrent routines that each fill a range of the array; [KeysBuilder]
    fills the ranges in order.  The database the keys are kept in is left out. *)
From S2P Require Import Prelude Config Basics MerkleArray.
#[local] Open Scope string_scope.
#[local] Open Scope list_scope.
#[local] Open Scope Z_scope.

(** [binary.LittleEndian]. *)
Fixpoint le_bytes (n : nat) (z : Z) : bytes := match n with O => [] | S n' => z mod 256 :: le_bytes n' (z / 256) end.

Record FalconSigner : Type := mkFalconSigner { fs_PublicKey : bytes; fs_PrivateKey : bytes }.

Class Falcon : Type := {
  falcon_Generate : Z -> outcome FalconSigner;
  falcon_SignCompressed : bytes -> bytes -> outcome bytes;
  falcon_Verify : bytes -> bytes -> bytes -> outcome unit;
  falcon_ConvertToCT : bytes -> outcome bytes }.

(** ** Rounds and indexes ([posdivs.go]) *)

Definition checkMerkleSignatureSchemeParams (firstValid round interval : Z) : outcome unit :=
  _ ← failIf (interval =? 0) (Errorf "the interval should not be zero");
  _ ← failIf (round =? 0) (Errorf "the round should not be zero");
  _ ← failIf (negb (round mod interval =? 0)) (Errorf "the round should be a multiple of the interval");
  failIf (round <? firstValid) (Errorf "the round cannot be less than firstValid").

Definition roundOfFirstIndex (firstValid interval : Z) : Z :=
  wrap64 (wrap64 (wrap64 (firstValid + interval) - 1) / interval * interval).
Definition roundToIndex (firstValid currentRound interval : Z) : Z :=
  wrap64 (currentRound - roundOfFirstIndex firstValid interval) / interval.
Definition indexToRound (firstValid interval pos : Z) : Z :=
  wrap64 (roundOfFirstIndex firstValid interval + wrap64 (pos * interval)).

(** ** Proofs for a single leaf ([merklearray/proof.go]) *)

Definition MaxEncodedTreeDepth : Z := 16.

(** The path of the last [n] levels from index [i]; an index behind the end panics. *)
Fixpoint pathBytes (digestSize : nat) (path : list GenericDigest) (n : nat) (i : nat) : outcome bytes :=
  match n with
  | O => Ok []
  | S n' =>
      match path !! i with
      | None => Panic
      | Some d => rest ← pathBytes digestSize path n' (S i); Ok ((if bool_decide (d = []) then zeros digestSize else d) ++ rest)
      end
  end.
Definition Proof_GetFixedLengthHashableRepresentation (p : Proof_) : outcome bytes :=
  let digestSize := Z.to_nat (hash_Size (pf_HashFactory p)) in
  let proofLenByte := pf_TreeDepth p in
  path ← pathBytes digestSize (pf_Path p) (Z.to_nat proofLenByte) 0;
  Ok (proofLenByte :: concat (replicate (Z.to_nat (wrap8 (MaxEncodedTreeDepth - proofLenByte))) (zeros digestSize)) ++ path).

(** ** Public keys that are committed to ([committablePublicKeys.go]) *)

Definition CryptoPrimitivesID : Z := 0.
Definition KeysInMSS : bytes := [75; 80].
Definition MerkleSignatureSchemeHashFunction : Z := Sumhash.

Definition CommittablePublicKey_ToBeHashed (verifyingKey : bytes) (round : Z) : Hashable :=
  mkHashable KeysInMSS (le_bytes 2 CryptoPrimitivesID ++ le_bytes 8 round ++ verifyingKey).

Definition keyArray_Marshal (keys : list FalconSigner) (firstValid interval pos : Z) : outcome Hashable :=
  match keys !! Z.to_nat pos with
  | None => Err (Errorf "index is out of bound")
  | Some k => Ok (CommittablePublicKey_ToBeHashed (fs_PublicKey k) (indexToRound firstValid interval pos))
  end.
Definition committablePublicKeyArray (keys : list FalconSigner) (firstValid interval : Z) : Array :=
  mkArray (blen keys) (keyArray_Marshal keys firstValid interval).

(** ** Secrets, signers and verifiers *)

Record SignerContext : Type := mkSignerContext { sc_FirstValid : Z; sc_Interval : Z; sc_Tree : Tree }.
Record Secrets : Type := mkSecrets { sec_ephemeralKeys : list FalconSigner; sec_SignerContext : SignerContext }.
Record Signer : Type := mkSigner { sg_SigningKey : option FalconSigner; sg_Round : Z; sg_SignerContext : SignerContext }.
Record Signature : Type := mkSignature {
  sig_Signature : bytes; sig_MerkleArrayIndex : Z; sig_Proof : Proof_; sig_VerifyingKey : bytes }.
#[export] Instance Signature_eq_dec : EqDecision Signature.
Proof. solve_decision. Defined.

(** The ranges of the routines: the last one takes what is left ([keysBuilder.go]). *)
Fixpoint keyRanges (fuel : nat) (perRoutine numberOfKeys i : Z) : list (Z * Z) :=
  match fuel with
  | O => []
  | S fuel' =>
      if i <? numberOfKeys then
        let endIdx := wrap64 (i + perRoutine) in
        let endIdx := if numberOfKeys <? wrap64 (endIdx + perRoutine) then numberOfKeys else endIdx in
        (i, endIdx) :: keyRanges fuel' perRoutine numberOfKeys endIdx
      else []
  end.
Definition calculateRanges (numCPU numberOfKeys : Z) : Z :=
  let numOfRoutines := wrap64 (numCPU * 2) in
  if numOfRoutines <? numberOfKeys then numberOfKeys / numOfRoutines else 1.

Section scheme.
  Context {F : Falcon} (sum : Z -> bytes -> bytes).

Fixpoint generateKeysForRange (n : nat) (k : Z) : outcome (list FalconSigner) :=
  match n with
  | O => Ok []
  | S n' => key ← falcon_Generate k; rest ← generateKeysForRange n' (k + 1); Ok (key :: rest)
  end.
Fixpoint generateRanges (ranges : list (Z * Z)) : outcome (list FalconSigner) :=
  match ranges with
  | [] => Ok []
  | (startIdx, endIdx) :: ranges => keys ← generateKeysForRange (Z.to_nat (endIdx - startIdx)) startIdx;
                                    rest ← generateRanges ranges; Ok (keys ++ rest)
  end.
Definition KeysBuilder (numCPU numberOfKeys : Z) : outcome (list FalconSigner) :=
  generateRanges (keyRanges (Z.to_nat numberOfKeys) (calculateRanges numCPU numberOfKeys) numberOfKeys 0).

Definition New (numCPU firstValid lastValid interval : Z) : outcome Secrets :=
  _ ← failIf (lastValid <? firstValid) (Errorf "cannot create Merkle Signature Scheme because end round is smaller then start round");
  _ ← failIf (interval =? 0) (Errorf "received zero Interval");
  let firstValid := if firstValid =? 0 then 1 else firstValid in
  let numberOfKeys := wrap64 (lastValid / interval - wrap64 (firstValid - 1) / interval) in
  keys ← KeysBuilder numCPU numberOfKeys;
  tree ← BuildVectorCommitmentTree sum (committablePublicKeyArray keys firstValid interval) MerkleSignatureSchemeHashFunction;
  Ok (mkSecrets keys (mkSignerContext firstValid interval tree)).

(** The root, in an array of the size of the digests. *)
Definition GetVerifier (s : SignerContext) : outcome bytes :=
  root ← Root (sc_Tree s); Ok (take 64 (root ++ zeros 64)).

Definition GetKey (s : Secrets) (round : Z) : outcome (option FalconSigner) :=
  let ctx := sec_SignerContext s in
  if sc_Interval ctx =? 0 then Panic
  else
    let idx := roundToIndex (sc_FirstValid ctx) round (sc_Interval ctx) in
    if (blen (sec_ephemeralKeys s) <=? idx) || negb (round mod sc_Interval ctx =? 0) then Ok None
    else Ok (sec_ephemeralKeys s !! Z.to_nat idx).

Definition GetSigner (s : Secrets) (round : Z) : outcome Signer :=
  key ← GetKey s round; Ok (mkSigner key round (sec_SignerContext s)).

Definition FalconSigner_Sign (k : FalconSigner) (message : Hashable) : outcome bytes :=
  falcon_SignCompressed (fs_PrivateKey k) (sum Sha512_256 (HashRep message)).
Definition FalconVerifier_Verify (verifyingKey : bytes) (message : Hashable) (sig : bytes) : outcome unit :=
  falcon_Verify verifyingKey (sum Sha512_256 (HashRep message)) sig.

Definition Signer_Sign (s : Signer) (msg : Hashable) : outcome Signature :=
  match sg_SigningKey s with
  | None => Err (Errorf "no stateproof key exists for this round")
  | Some key =>
      let ctx := sg_SignerContext s in
      _ ← checkMerkleSignatureSchemeParams (sc_FirstValid ctx) (sg_Round s) (sc_Interval ctx);
      let index := roundToIndex (sc_FirstValid ctx) (sg_Round s) (sc_Interval ctx) in
      proof ← ProveSingleLeaf sum (sc_Tree ctx) index;
      sig ← FalconSigner_Sign key msg;
      Ok (mkSignature sig index proof (fs_PublicKey key))
  end.

(** Both failures are wrapped in one error. *)
Definition Verifier_Verify (v : bytes) (round : Z) (msg : Hashable) (sig : Signature) : outcome unit :=
  let failed r := match r : outcome unit with
                  | Ok _ => Ok tt
                  | Err _ => Err (Errorf "merkle signature verification failed")
                  | Panic => Panic
                  end in
  _ ← failed (VerifyVectorCommitment sum v
                {[sig_MerkleArrayIndex sig := CommittablePublicKey_ToBeHashed (sig_VerifyingKey sig) round]} (Some (sig_Proof sig)));
  failed (FalconVerifier_Verify (sig_VerifyingKey sig) msg (sig_Signature sig)).

Definition Signature_GetFixedLengthHashableRepresentation (s : Signature) : outcome bytes :=
  sigBytes ← falcon_ConvertToCT (sig_Signature s);
  proofBytes ← Proof_GetFixedLengthHashableRepresentation (sig_Proof s);
  Ok (le_bytes 2 CryptoPrimitivesID ++ sigBytes ++ sig_VerifyingKey s ++ le_bytes 8 (sig_MerkleArrayIndex s) ++ proofBytes).
End scheme.
