(* ===== verification/CertBuilder.v ===== *)
(** [src/crypto/compactcert]: collecting signatures of participants, building a compact
    certificate that reveals enough of them, and verifying it.  Participants are those of
    [src/data/basics/ccertpart.go].

    The msgpack encoding of a coin choice is the parameter [encodeCoin].  Go maps of
    reveals are [gmap]s; where the code walks one and stops at an error, the walk is in
    the order of the map, which only decides between errors. *)
From S2P Require Import Prelude Config Basics BigFloat MerkleArray MerkleSignature.
#[local] Open Scope string_scope.
#[local] Open Scope list_scope.
#[local] Open Scope Z_scope.

Definition HashType : Z := Sumhash.
Definition MaxReveals : Z := 1024.
Definition CompactCertCoin : bytes := [99; 99; 99].
Definition CompactCertPart : bytes := [99; 99; 112].
Definition CompactCertSig : bytes := [99; 99; 115].

Record Participant : Type := mkParticipant { part_PK : bytes; part_Weight : Z }.
#[export] Instance Participant_eq_dec : EqDecision Participant.
Proof. solve_decision. Defined.
Definition Participant_ToBeHashed (p : Participant) : Hashable :=
  mkHashable CompactCertPart (le_bytes 8 (part_Weight p) ++ part_PK p).
Definition ParticipantsArray (ps : list Participant) : Array :=
  mkArray (blen ps) (fun pos => match ps !! Z.to_nat pos with
                                | Some p => Ok (Participant_ToBeHashed p)
                                | None => Err (Errorf "pos past end")
                                end).

Record Params : Type := mkParams { pa_Msg : Hashable; pa_ProvenWeight : Z; pa_SigRound : Z; pa_SecKQ : Z; pa_EnableBatchVerification : bool }.
Definition Params_numReveals (p : Params) (signedWeight : Z) : outcome Z :=
  numReveals signedWeight (pa_ProvenWeight p) (pa_SecKQ p) MaxReveals.

(** The zero value of a signature: no bytes, an empty proof. *)
Definition zeroSignature : Signature := mkSignature [] 0 (mkProof [] 0 0) [].
Record sigslotCommit : Type := mksigslotCommit { sc_Sig : Signature; sc_L : Z }.
#[export] Instance sigslotCommit_eq_dec : EqDecision sigslotCommit.
Proof. solve_decision. Defined.
Record sigslot : Type := mksigslot { ss_Weight : Z; ss_Commit : sigslotCommit }.
Definition zeroSlot : sigslot := mksigslot 0 (mksigslotCommit zeroSignature 0).

Record Reveal : Type := mkReveal { rv_SigSlot : sigslotCommit; rv_Part : Participant }.
#[export] Instance Reveal_eq_dec : EqDecision Reveal.
Proof. solve_decision. Defined.
Record Cert : Type := mkCert {
  ct_SigCommit : GenericDigest; ct_SignedWeight : Z; ct_SigProofs : Proof_; ct_PartProofs : Proof_; ct_Reveals : gmap Z Reveal }.
#[export] Instance Cert_eq_dec : EqDecision Cert.
Proof. solve_decision. Defined.

Record coinChoice : Type := mkcoinChoice {
  cc_J : Z; cc_SignedWeight : Z; cc_ProvenWeight : Z; cc_Sigcom : GenericDigest; cc_Partcom : GenericDigest; cc_MsgHash : GenericDigest }.

Record Builder : Type := mkBuilder {
  b_Params : Params; b_sigs : list sigslot; b_sigsHasValidL : bool; b_signedWeight : Z;
  b_participants : list Participant; b_parttree : Tree; b_cert : option Cert }.
#[export] Instance Eta_Builder : Eta Builder := fun b =>
  mkBuilder (b_Params b) (b_sigs b) (b_sigsHasValidL b) (b_signedWeight b) (b_participants b) (b_parttree b) (b_cert b).

Definition MkBuilder (param : Params) (part : list Participant) (parttree : Tree) : Builder :=
  mkBuilder param (replicate (length part) zeroSlot) false 0 part parttree None.

Definition Present (b : Builder) (pos : Z) : outcome bool :=
  match b_sigs b !! Z.to_nat pos with Some s => Ok (negb (ss_Weight s =? 0)) | None => Panic end.

Definition Ready (b : Builder) : bool := pa_ProvenWeight (b_Params b) <? b_signedWeight b.

(** The sums of the weights before each slot; the slots themselves keep the rest. *)
Fixpoint setL (l : Z) (sigs : list sigslot) : list sigslot :=
  match sigs with
  | [] => []
  | s :: rest => mksigslot (ss_Weight s) (mksigslotCommit (sc_Sig (ss_Commit s)) l) :: setL (wrap64 (l + ss_Weight s)) rest
  end.
(** The first slot keeps the [L] it has. *)
Definition setLs (sigs : list sigslot) : list sigslot :=
  match sigs with [] => [] | s :: rest => s :: setL (wrap64 (sc_L (ss_Commit s) + ss_Weight s)) rest end.

(** The binary search halves an interval of the slots, so their number bounds its turns. *)
Fixpoint coinIndex_loop (fuel : nat) (sigs : list sigslot) (coinWeight lo hi : Z) : outcome Z :=
  if hi <=? lo then Err (Errorf "coinIndex: lo >= hi")
  else match fuel with
       | O => Err (Errorf "out of fuel")
       | S fuel' =>
           let mid := wrap64 (lo + hi) / 2 in
           match sigs !! Z.to_nat mid with
           | None => Panic
           | Some s =>
               if coinWeight <? sc_L (ss_Commit s) then coinIndex_loop fuel' sigs coinWeight lo mid
               else if coinWeight <? wrap64 (sc_L (ss_Commit s) + ss_Weight s) then Ok mid
               else coinIndex_loop fuel' sigs coinWeight (wrap64 (mid + 1)) hi
           end
       end.
Definition coinIndex (b : Builder) (coinWeight : Z) : outcome Z :=
  if negb (b_sigsHasValidL b) then Err (Errorf "coinIndex: need valid L values")
  else coinIndex_loop (length (b_sigs b)) (b_sigs b) coinWeight 0 (blen (b_sigs b)).

Section certs.
  Context {F : Falcon} (sum : Z -> bytes -> bytes) (encodeCoin : coinChoice -> bytes).

(** [big.Int.SetBytes] of a hash, modulo the weight. *)
Definition hashCoin (choice : coinChoice) : outcome Z :=
  let i := fold_left (fun a b => a * 256 + b) (sum Sha512_256 (HashRep (mkHashable CompactCertCoin (encodeCoin choice)))) 0 in
  if cc_SignedWeight choice =? 0 then Panic else Ok (wrap64 (i mod cc_SignedWeight choice)).

(** A slot as it is committed to; a slot without a signature is empty.  The source tests
    the signature for [nil], which is the value decoding gives to an empty one. *)
Definition buildCommittableSignature (sigCommit : sigslotCommit) : outcome Hashable :=
  if bool_decide (sig_Signature (sc_Sig sigCommit) = []) then Ok (mkHashable CompactCertSig [])
  else sigBytes ← Signature_GetFixedLengthHashableRepresentation (sc_Sig sigCommit);
       Ok (mkHashable CompactCertSig (le_bytes 8 (sc_L sigCommit) ++ sigBytes)).
Definition committableSignatureSlotArray (sigs : list sigslot) : Array :=
  mkArray (blen sigs) (fun pos => match sigs !! Z.to_nat pos with
                                  | Some s => buildCommittableSignature (ss_Commit s)
                                  | None => Err (Errorf "index is out of bound")
                                  end).

Definition Add (pos : Z) (sig : Signature) (verifySig : bool) : M Builder unit :=
  present ← (fun b => (Present b pos, b));
  _ ← throwIf present (Errorf "position already added");
  participants ← gets b_participants;
  match participants !! Z.to_nat pos with
  | None => throw (Errorf "pos >= len(participants)")
  | Some p =>
      _ ← throwIf (part_Weight p =? 0) (Errorf "position has zero weight");
      params ← gets b_Params;
      _ ← lift (if verifySig then Verifier_Verify sum (part_PK p) (pa_SigRound params) (pa_Msg params) sig else Ok tt);
      modify (fun b =>
        b <| b_sigs := alter (fun s => mksigslot (part_Weight p) (mksigslotCommit sig (sc_L (ss_Commit s)))) (Z.to_nat pos) (b_sigs b) |>
          <| b_signedWeight := wrap64 (b_signedWeight b + part_Weight p) |>
          <| b_cert := None |> <| b_sigsHasValidL := false |>)
  end.

(** The reveals for the coins [j .. j + n - 1]; the positions in the order they come up. *)
Fixpoint chooseReveals (b : Builder) (choice : Z -> coinChoice) (n : nat) (j : Z) (reveals : gmap Z Reveal) (positions : list Z)
  : outcome (gmap Z Reveal * list Z) :=
  match n with
  | O => Ok (reveals, positions)
  | S n' =>
      coin ← hashCoin (choice j);
      pos ← coinIndex b coin;
      match b_participants b !! Z.to_nat pos with
      | None => Err (Errorf "pos >= len(participants)")
      | Some p =>
          match reveals !! pos with
          | Some _ => chooseReveals b choice n' (j + 1) reveals positions
          | None =>
              match b_sigs b !! Z.to_nat pos with
              | None => Panic
              | Some s => chooseReveals b choice n' (j + 1) (<[pos := mkReveal (ss_Commit s) p]> reveals) (positions ++ [pos])
              end
          end
      end
  end.

(** The root of the participants is read for each coin, so not when there are none. *)
Definition Build_cert (b : Builder) : outcome Cert :=
  sigtree ← BuildVectorCommitmentTree sum (committableSignatureSlotArray (b_sigs b)) HashType;
  sigcom ← Root sigtree;
  nr ← Params_numReveals (b_Params b) (b_signedWeight b);
  partcom ← (if nr =? 0 then Ok [] else Root (b_parttree b));
  let msgHash := GenericHashObj sum HashType (pa_Msg (b_Params b)) in
  let choice j := mkcoinChoice j (b_signedWeight b) (pa_ProvenWeight (b_Params b)) sigcom partcom msgHash in
  '(reveals, proofPositions) ← chooseReveals b choice (Z.to_nat nr) 0 ∅ [];
  sigProofs ← Prove sum sigtree proofPositions;
  partProofs ← Prove sum (b_parttree b) proofPositions;
  Ok (mkCert sigcom (b_signedWeight b) sigProofs partProofs reveals).

Definition Build_ : M Builder Cert := fun b =>
  match b_cert b with
  | Some c => (Ok c, b)
  | None =>
      if b_signedWeight b <=? pa_ProvenWeight (b_Params b) then (Err (Errorf "not enough signed weight"), b)
      else let b := b <| b_sigs := setLs (b_sigs b) |> <| b_sigsHasValidL := true |> in (Build_cert b, b)
  end.

(** ** Verification *)

Record Verifier : Type := mkVerifier { v_Params : Params; v_partcom : GenericDigest }.
Definition MkVerifier (p : Params) (partcom : GenericDigest) : Verifier := mkVerifier p partcom.

(** Each reveal: its slot as committed, and its signature. *)
Fixpoint checkReveals (params : Params) (reveals : list (Z * Reveal)) : outcome (gmap Z Hashable * gmap Z Hashable) :=
  match reveals with
  | [] => Ok (∅, ∅)
  | (pos, r) :: rest =>
      sig ← buildCommittableSignature (rv_SigSlot r);
      _ ← match Verifier_Verify sum (part_PK (rv_Part r)) (pa_SigRound params) (pa_Msg params) (sc_Sig (rv_SigSlot r)) with
          | Ok _ => Ok tt
          | Err _ => Err (Errorf "signature in reveal does not verify")
          | Panic => Panic
          end;
      '(sigs, parts) ← checkReveals params rest;
      Ok (<[pos := sig]> sigs, <[pos := Participant_ToBeHashed (rv_Part r)]> parts)
  end.

(** A reveal whose part of the weights has the coin. *)
Definition matchesCoin (coin : Z) (r : Reveal) : bool :=
  (sc_L (rv_SigSlot r) <=? coin) && (coin <? wrap64 (sc_L (rv_SigSlot r) + part_Weight (rv_Part r))).

Fixpoint checkCoins (reveals : gmap Z Reveal) (choice : Z -> coinChoice) (n : nat) (j : Z) : outcome unit :=
  match n with
  | O => Ok tt
  | S n' =>
      coin ← hashCoin (choice j);
      _ ← failIf (negb (existsb (fun kv => matchesCoin coin kv.2) (map_to_list reveals))) (Errorf "no reveal for coin");
      checkCoins reveals choice n' (j + 1)
  end.

Definition Verify_cert (v : Verifier) (c : Cert) : outcome unit :=
  let p := v_Params v in
  _ ← failIf (ct_SignedWeight c <=? pa_ProvenWeight p) (Errorf "cert signed weight <= proven weight");
  '(sigs, parts) ← checkReveals p (map_to_list (ct_Reveals c));
  _ ← VerifyVectorCommitment sum (ct_SigCommit c) sigs (Some (ct_SigProofs c));
  _ ← VerifyVectorCommitment sum (v_partcom v) parts (Some (ct_PartProofs c));
  nr ← Params_numReveals p (ct_SignedWeight c);
  let msgHash := GenericHashObj sum (pf_HashFactory (ct_PartProofs c)) (pa_Msg p) in
  let choice j := mkcoinChoice j (ct_SignedWeight c) (pa_ProvenWeight p) (ct_SigCommit c) (v_partcom v) msgHash in
  checkCoins (ct_Reveals c) choice (Z.to_nat nr) 0.
End certs.
