(* ===== verification/Transactions.v ===== *)
(** [src/data/transactions]: the transaction types, what a transaction must
    look like on its own ([WellFormed], [Alive]), the data a block records about
    its execution ([ApplyData]), and the index/address conversions of
    application calls.

    Nil slices and maps are identified with empty ones, except in signatures, where
    the source tells them apart: there a slice is an option.  Signatures
    and other opaque byte strings are numbers or lists of numbers.  [stx.equal], which compares canonical encodings, is
    equality of the transactions. *)
From S2P Require Import Prelude Config MerkleArray CertBuilder Basics.
#[local] Open Scope string_scope.
#[local] Open Scope Z_scope.

(** [protocol.TxType]: the declared kinds; any other string behaves as
    [UnknownTx], which no code path accepts. *)
Inductive TxType : Type :=
| PaymentTx | KeyRegistrationTx | AssetConfigTx | AssetTransferTx | AssetFreezeTx
| ApplicationCallTx | CompactCertTx | AddressPrintTx | UnknownTx.
#[export] Instance TxType_eq_dec : EqDecision TxType.
Proof. solve_decision. Defined.

(** ** Fields *)

Record SpecialAddresses : Type := mkSpecialAddresses {
  spec_FeeSink : Address; spec_RewardsPool : Address }.

Record Header : Type := mkHeader {
  hdr_Sender : Address;
  hdr_Fee : Z;
  hdr_FirstValid : Round;
  hdr_LastValid : Round;
  hdr_Note : string;
  hdr_GenesisID : string;
  hdr_GenesisHash : Digest;
  hdr_Group : Digest;
  hdr_Lease : Z;
  hdr_RekeyTo : Address }.
#[export] Instance Eta_Header : Eta Header := fun r =>
  mkHeader (hdr_Sender r) (hdr_Fee r) (hdr_FirstValid r) (hdr_LastValid r) (hdr_Note r)
    (hdr_GenesisID r) (hdr_GenesisHash r) (hdr_Group r) (hdr_Lease r) (hdr_RekeyTo r).
#[export] Instance Header_eq_dec : EqDecision Header.
Proof. solve_decision. Defined.

Record KeyregTxnFields : Type := mkKeyregTxnFields {
  kr_VotePK : Z;
  kr_SelectionPK : Z;
  kr_StateProofPK : Z;
  kr_VoteFirst : Round;
  kr_VoteLast : Round;
  kr_VoteKeyDilution : Z;
  kr_Nonparticipation : bool }.
#[export] Instance KeyregTxnFields_eq_dec : EqDecision KeyregTxnFields.
Proof. solve_decision. Defined.
Definition KeyregTxnFields_zero : KeyregTxnFields := mkKeyregTxnFields 0 0 0 0 0 0 false.

Record PaymentTxnFields : Type := mkPaymentTxnFields {
  pay_Receiver : Address; pay_Amount : Z; pay_CloseRemainderTo : Address }.
#[export] Instance PaymentTxnFields_eq_dec : EqDecision PaymentTxnFields.
Proof. solve_decision. Defined.
Definition PaymentTxnFields_zero : PaymentTxnFields := mkPaymentTxnFields 0 0 0.

Record AssetConfigTxnFields : Type := mkAssetConfigTxnFields {
  ac_ConfigAsset : AssetIndex; ac_AssetParams : AssetParams }.
#[export] Instance AssetConfigTxnFields_eq_dec : EqDecision AssetConfigTxnFields.
Proof. solve_decision. Defined.
Definition AssetConfigTxnFields_zero : AssetConfigTxnFields :=
  mkAssetConfigTxnFields 0 AssetParams_zero.

Record AssetTransferTxnFields : Type := mkAssetTransferTxnFields {
  ax_XferAsset : AssetIndex;
  ax_AssetAmount : Z;
  ax_AssetSender : Address;
  ax_AssetReceiver : Address;
  ax_AssetCloseTo : Address }.
#[export] Instance AssetTransferTxnFields_eq_dec : EqDecision AssetTransferTxnFields.
Proof. solve_decision. Defined.
Definition AssetTransferTxnFields_zero : AssetTransferTxnFields :=
  mkAssetTransferTxnFields 0 0 0 0 0.

Record AssetFreezeTxnFields : Type := mkAssetFreezeTxnFields {
  af_FreezeAccount : Address; af_FreezeAsset : AssetIndex; af_AssetFrozen : bool }.
#[export] Instance AssetFreezeTxnFields_eq_dec : EqDecision AssetFreezeTxnFields.
Proof. solve_decision. Defined.
Definition AssetFreezeTxnFields_zero : AssetFreezeTxnFields := mkAssetFreezeTxnFields 0 0 false.

(** [OnCompletion] is an unsigned integer with six declared values. *)
Definition NoOpOC : Z := 0.
Definition OptInOC : Z := 1.
Definition CloseOutOC : Z := 2.
Definition ClearStateOC : Z := 3.
Definition UpdateApplicationOC : Z := 4.
Definition DeleteApplicationOC : Z := 5.

Record ApplicationCallTxnFields : Type := mkApplicationCallTxnFields {
  apc_ApplicationID : AppIndex;
  apc_OnCompletion : Z;
  apc_ApplicationArgs : list string;
  apc_Accounts : list Address;
  apc_ForeignApps : list AppIndex;
  apc_ForeignAssets : list AssetIndex;
  apc_LocalStateSchema : StateSchema;
  apc_GlobalStateSchema : StateSchema;
  apc_ApprovalProgram : string;
  apc_ClearStateProgram : string;
  apc_ExtraProgramPages : Z }.
#[export] Instance ApplicationCallTxnFields_eq_dec : EqDecision ApplicationCallTxnFields.
Proof. solve_decision. Defined.
Definition ApplicationCallTxnFields_zero : ApplicationCallTxnFields :=
  mkApplicationCallTxnFields 0 0 [] [] [] [] StateSchema_zero StateSchema_zero "" "" 0.

Record CompactCertTxnFields : Type := mkCompactCertTxnFields {
  cc_CertRound : Round; cc_CertType : Z; cc_Cert : CertBuilder.Cert }.
#[export] Instance CompactCertTxnFields_eq_dec : EqDecision CompactCertTxnFields.
Proof. solve_decision. Defined.
Definition CompactCertTxnFields_zero : CompactCertTxnFields :=
  mkCompactCertTxnFields 0 0 (CertBuilder.mkCert [] 0 (MerkleArray.mkProof [] 0 0) (MerkleArray.mkProof [] 0 0) ∅).

Record AddressPrintTxnFields : Type := mkAddressPrintTxnFields { adp_Receiver2 : Address }.
#[export] Instance AddressPrintTxnFields_eq_dec : EqDecision AddressPrintTxnFields.
Proof. solve_decision. Defined.
Definition AddressPrintTxnFields_zero : AddressPrintTxnFields := mkAddressPrintTxnFields 0.

Record Transaction : Type := mkTransaction {
  tx_Type : TxType;
  tx_Header : Header;
  tx_Keyreg : KeyregTxnFields;
  tx_Payment : PaymentTxnFields;
  tx_AssetConfig : AssetConfigTxnFields;
  tx_AssetTransfer : AssetTransferTxnFields;
  tx_AssetFreeze : AssetFreezeTxnFields;
  tx_ApplicationCall : ApplicationCallTxnFields;
  tx_CompactCert : CompactCertTxnFields;
  tx_AddressPrint : AddressPrintTxnFields }.
#[export] Instance Eta_Transaction : Eta Transaction := fun r =>
  mkTransaction (tx_Type r) (tx_Header r) (tx_Keyreg r) (tx_Payment r) (tx_AssetConfig r)
    (tx_AssetTransfer r) (tx_AssetFreeze r) (tx_ApplicationCall r) (tx_CompactCert r)
    (tx_AddressPrint r).
#[export] Instance Transaction_eq_dec : EqDecision Transaction.
Proof. solve_decision. Defined.

(** ** Signatures (crypto/multisig.go, logicsig.go)

    A signature is a number, zero the empty one; a public key is an address. *)

Record MultisigSubsig : Type := mkMultisigSubsig { mss_Key : Address; mss_Sig : Z }.
#[export] Instance MultisigSubsig_eq_dec : EqDecision MultisigSubsig.
Proof. solve_decision. Defined.

Record MultisigSig : Type := mkMultisigSig {
  ms_Version : Z; ms_Threshold : Z; ms_Subsigs : option (list MultisigSubsig) }.
#[export] Instance MultisigSig_eq_dec : EqDecision MultisigSig.
Proof. solve_decision. Defined.
Definition MultisigSig_zero : MultisigSig := mkMultisigSig 0 0 None.

Record LogicSig : Type := mkLogicSig {
  ls_Logic : option string; ls_Sig : Z; ls_Msig : MultisigSig; ls_Args : list (option string) }.
#[export] Instance LogicSig_eq_dec : EqDecision LogicSig.
Proof. solve_decision. Defined.
Definition LogicSig_zero : LogicSig := mkLogicSig None 0 MultisigSig_zero [].

Record SignedTxn : Type := mkSignedTxn {
  stx_Sig : Z; stx_Msig : MultisigSig; stx_Lsig : LogicSig; stx_Txn : Transaction; stx_AuthAddr : Address }.
#[export] Instance Eta_SignedTxn : Eta SignedTxn := fun r =>
  mkSignedTxn (stx_Sig r) (stx_Msig r) (stx_Lsig r) (stx_Txn r) (stx_AuthAddr r).
#[export] Instance SignedTxn_eq_dec : EqDecision SignedTxn.
Proof. solve_decision. Defined.

(** [EvalDelta] and [ApplyData] are mutually recursive: an evaluation records
    the inner transactions it ran together with their own [ApplyData]. *)
Inductive EvalDelta : Type := mkEvalDelta {
  ed_GlobalDelta : gmap string ValueDelta;
  ed_LocalDeltas : gmap Z (gmap string ValueDelta);
  ed_Logs : list string;
  ed_InnerTxns : list (SignedTxn * ApplyData) }
with ApplyData : Type := mkApplyData {
  ad_ClosingAmount : Z;
  ad_AssetClosingAmount : Z;
  ad_SenderRewards : Z;
  ad_ReceiverRewards : Z;
  ad_CloseRewards : Z;
  ad_EvalDelta : EvalDelta;
  ad_ConfigAsset : AssetIndex;
  ad_ApplicationID : AppIndex }.
#[export] Instance Eta_ApplyData : Eta ApplyData := fun r =>
  mkApplyData (ad_ClosingAmount r) (ad_AssetClosingAmount r) (ad_SenderRewards r)
    (ad_ReceiverRewards r) (ad_CloseRewards r) (ad_EvalDelta r) (ad_ConfigAsset r)
    (ad_ApplicationID r).
#[export] Instance Eta_EvalDelta : Eta EvalDelta := fun r =>
  mkEvalDelta (ed_GlobalDelta r) (ed_LocalDeltas r) (ed_Logs r) (ed_InnerTxns r).
Definition EvalDelta_zero : EvalDelta := mkEvalDelta ∅ ∅ [] [].
Definition ApplyData_zero : ApplyData := mkApplyData 0 0 0 0 0 EvalDelta_zero 0 0.

Record SignedTxnWithAD : Type := mkSignedTxnWithAD {
  stad_SignedTxn : SignedTxn; stad_ApplyData : ApplyData }.

Record SignedTxnInBlock : Type := mkSignedTxnInBlock {
  stib_SignedTxn : SignedTxn;
  stib_ApplyData : ApplyData;
  stib_HasGenesisID : bool;
  stib_HasGenesisHash : bool }.

(** ** Equality of execution records (teal.go, transaction.go) *)

Definition LocalDeltas_Equal (m o : gmap Z (gmap string ValueDelta)) : bool :=
  bool_decide (size m = size o) &&
  forallb (fun '(k, v) =>
    match o !! k with Some ov => StateDelta_Equal ov v | None => false end) (map_to_list m).

Fixpoint EvalDelta_Equal (ed o : EvalDelta) {struct ed} : bool :=
  LocalDeltas_Equal (ed_LocalDeltas ed) (ed_LocalDeltas o) &&
  StateDelta_Equal (ed_GlobalDelta ed) (ed_GlobalDelta o) &&
  bool_decide (ed_Logs ed = ed_Logs o) &&
  (fix inner (l1 l2 : list (SignedTxn * ApplyData)) : bool :=
    match l1, l2 with
    | [], [] => true
    | (s1, a1) :: l1', (s2, a2) :: l2' =>
        bool_decide (s1 = s2) && ApplyData_Equal a1 a2 && inner l1' l2'
    | _, _ => false
    end) (ed_InnerTxns ed) (ed_InnerTxns o)
with ApplyData_Equal (ad o : ApplyData) {struct ad} : bool :=
  (ad_ClosingAmount ad =? ad_ClosingAmount o) &&
  (ad_AssetClosingAmount ad =? ad_AssetClosingAmount o) &&
  (ad_SenderRewards ad =? ad_SenderRewards o) &&
  (ad_ReceiverRewards ad =? ad_ReceiverRewards o) &&
  (ad_CloseRewards ad =? ad_CloseRewards o) &&
  (ad_ConfigAsset ad =? ad_ConfigAsset o) &&
  (ad_ApplicationID ad =? ad_ApplicationID o) &&
  EvalDelta_Equal (ad_EvalDelta ad) (ad_EvalDelta o).

(** ** signedtxn.go *)

Definition Authorizer (s : SignedTxn) : Address :=
  if stx_AuthAddr s =? 0 then hdr_Sender (tx_Header (stx_Txn s)) else stx_AuthAddr s.

Definition WrapSignedTxnsWithAD (txgroup : list SignedTxn) : list SignedTxnWithAD :=
  map (fun tx => mkSignedTxnWithAD tx ApplyData_zero) txgroup.

(** ** logicsig.go *)

Definition EvalMaxArgs : Z := 255.

(** ** application.go *)

Definition ApplicationCall_Empty (ac : ApplicationCallTxnFields) : bool :=
  (apc_ApplicationID ac =? 0) &&
  (apc_OnCompletion ac =? 0) &&
  bool_decide (apc_ApplicationArgs ac = []) &&
  bool_decide (apc_Accounts ac = []) &&
  bool_decide (apc_ForeignApps ac = []) &&
  bool_decide (apc_ForeignAssets ac = []) &&
  bool_decide (apc_LocalStateSchema ac = StateSchema_zero) &&
  bool_decide (apc_GlobalStateSchema ac = StateSchema_zero) &&
  bool_decide (apc_ApprovalProgram ac = "") &&
  bool_decide (apc_ClearStateProgram ac = "") &&
  (apc_ExtraProgramPages ac =? 0).

Definition llen {A} (l : list A) : Z := Z.of_nat (length l).

(** [idx]-th element of a slice, the caller having checked the range. *)
Definition index_or_panic {A} (l : list A) (i : Z) : outcome A :=
  match l !! Z.to_nat i with Some x => Ok x | None => Panic end.

Definition AddressByIndex (ac : ApplicationCallTxnFields) (accountIdx : Z) (sender : Address)
    : outcome Address :=
  if accountIdx =? 0 then Ok sender
  else if llen (apc_Accounts ac) <? accountIdx then Err (Errorf "invalid Account reference")
  else index_or_panic (apc_Accounts ac) (accountIdx - 1).

(** The position of the first occurrence of [target], counting from [i]. *)
Fixpoint find_from (target : Z) (l : list Z) (i : Z) : option Z :=
  match l with
  | [] => None
  | x :: l' => if target =? x then Some i else find_from target l' (i + 1)
  end.

Definition IndexByAddress (ac : ApplicationCallTxnFields) (target sender : Address) : outcome Z :=
  if target =? sender then Ok 0
  else match find_from target (apc_Accounts ac) 0 with
       | Some idx => Ok (wrap64 (idx + 1))
       | None => Err (Errorf "invalid Account reference")
       end.

Definition AppIDByIndex (ac : ApplicationCallTxnFields) (i : Z) : outcome AppIndex :=
  if i =? 0 then Ok (apc_ApplicationID ac)
  else if llen (apc_ForeignApps ac) <? i then Err (Errorf "invalid Foreign App reference")
  else index_or_panic (apc_ForeignApps ac) (i - 1).

Definition IndexByAppID (ac : ApplicationCallTxnFields) (appID : AppIndex) : outcome Z :=
  if appID =? apc_ApplicationID ac then Ok 0
  else match find_from appID (apc_ForeignApps ac) 0 with
       | Some i => Ok (wrap64 (i + 1))
       | None => Err (Errorf "invalid Foreign App reference")
       end.

(** ** compactcert.go *)

Definition CompactCert_Empty (cc : CompactCertTxnFields) : bool :=
  (cc_CertRound cc =? 0) &&
  bool_decide (ct_SigCommit (cc_Cert cc) = []) && (ct_SignedWeight (cc_Cert cc) =? 0) &&
  bool_decide (pf_Path (ct_SigProofs (cc_Cert cc)) = []) &&
  bool_decide (pf_Path (ct_PartProofs (cc_Cert cc)) = []) &&
  bool_decide (ct_Reveals (cc_Cert cc) = ∅).

(** ** Program versions (transaction.go) *)

(** [binary.Uvarint] on the bytes of a program: the value and the number of
    bytes read, [None] where Go returns a length of zero or less (the buffer
    ends inside the number, or the number exceeds 64 bits). *)
Fixpoint Uvarint_from (bytes : list Ascii.ascii) (i shift x : Z) : option (Z * Z) :=
  match bytes with
  | [] => None
  | c :: rest =>
      let b := Z.of_N (Ascii.N_of_ascii c) in
      if b <? 128 then
        if (9 <? i) || ((i =? 9) && (1 <? b)) then None
        else Some (wrap64 (Z.lor x (Z.shiftl b shift)), i + 1)
      else Uvarint_from rest (i + 1) (shift + 7)
             (wrap64 (Z.lor x (Z.shiftl (Z.land b 127) shift)))
  end.

Definition ProgramVersion (bytecode : string) : outcome (Z * Z) :=
  if slen bytecode =? 0 then Err (Errorf "invalid program (empty)")
  else match Uvarint_from (String.list_ascii_of_string bytecode) 0 0 0 with
       | Some vl => Ok vl
       | None => Err (Errorf "invalid version")
       end.

Definition ExtraProgramChecksVersion : Z := 6.

(** Replace the error of a failed call, [fmt.Errorf("...: %v", err)]. *)
Definition wrapErr {A} (e : error) (r : outcome A) : outcome A :=
  match r with Err _ => Err e | _ => r end.

Definition CheckContractVersions (approval clear : string) (previous : AppParams) : outcome unit :=
  '(av, _) ← wrapErr (Errorf "bad ApprovalProgram") (ProgramVersion approval);
  '(cv, _) ← wrapErr (Errorf "bad ClearStateProgram") (ProgramVersion clear);
  _ ← failIf (((ExtraProgramChecksVersion <=? av) || (ExtraProgramChecksVersion <=? cv)) &&
              negb (av =? cv)) (Errorf "program version mismatch");
  if negb (slen (app_ApprovalProgram previous) =? 0) then
    '(pv, _) ← ProgramVersion (app_ApprovalProgram previous);
    failIf ((ExtraProgramChecksVersion <=? pv) && (av <? pv)) (Errorf "program version downgrade")
  else Ok tt.

(** ** Alive, WellFormed (transaction.go, payment.go, addressprint.go) *)

(** [TxnContext]. *)
Record TxnContext : Type := mkTxnContext {
  tc_Round : Round;
  tc_ConsensusProtocol : ConsensusParams;
  tc_GenesisID : string;
  tc_GenesisHash : Digest }.

Definition Alive (tx : Header) (tc : TxnContext) : outcome unit :=
  _ ← failIf ((tc_Round tc <? hdr_FirstValid tx) || (hdr_LastValid tx <? tc_Round tc)) TxnDeadError;
  _ ← failIf (negb (String.eqb (hdr_GenesisID tx) "") &&
              negb (String.eqb (hdr_GenesisID tx) (tc_GenesisID tc)))
        (Errorf "tx.GenesisID does not match expected");
  if proto_SupportGenesisHash (tc_ConsensusProtocol tc) then
    _ ← failIf (negb (hdr_GenesisHash tx =? 0) && negb (hdr_GenesisHash tx =? tc_GenesisHash tc))
          (Errorf "tx.GenesisHash does not match expected");
    failIf (proto_RequireGenesisHash (tc_ConsensusProtocol tc) && (hdr_GenesisHash tx =? 0))
      (Errorf "required tx.GenesisHash is missing")
  else failIf (negb (hdr_GenesisHash tx =? 0)) (Errorf "tx.GenesisHash not allowed").

Definition checkSpender (payment : PaymentTxnFields) (header : Header) (spec : SpecialAddresses)
    : outcome unit :=
  _ ← failIf (hdr_Sender header =? pay_CloseRemainderTo payment)
        (Errorf "transaction cannot close account to its sender");
  if hdr_Sender header =? spec_FeeSink spec then
    _ ← failIf (negb (pay_Receiver payment =? spec_RewardsPool spec))
          (Errorf "cannot spend from fee sink's address to non incentive pool address");
    failIf (negb (pay_CloseRemainderTo payment =? 0)) (Errorf "cannot close fee sink")
  else Ok tt.

Definition checkSpender2 (addressprint : AddressPrintTxnFields) (header : Header)
    (spec : SpecialAddresses) : outcome unit :=
  if hdr_Sender header =? spec_FeeSink spec then
    failIf (negb (adp_Receiver2 addressprint =? spec_RewardsPool spec))
      (Errorf "cannot spend from fee sink's address to non incentive pool address")
  else Ok tt.

Definition stateProofPKWellFormed (kr : KeyregTxnFields) (proto : ConsensusParams) : outcome unit :=
  let isEmpty := kr_StateProofPK kr =? 0 in
  if negb (proto_EnableStateProofKeyregCheck proto) then
    failIf (negb isEmpty) (Errorf "StateProofPK should be empty in this consensus version")
  else
    _ ← failIf (negb (proto_MaxKeyregValidPeriod proto =? 0) &&
                (proto_MaxKeyregValidPeriod proto <?
                   Round_SubSaturate (kr_VoteLast kr) (kr_VoteFirst kr)))
          (Errorf "validity period for keyreg transaction is too long");
    if kr_Nonparticipation kr then
      failIf (negb isEmpty) (Errorf "non participation keyreg should contain empty stateProofPK")
    else if (kr_VotePK kr =? 0) || (kr_SelectionPK kr =? 0) then
      failIf (negb isEmpty) (Errorf "offline keyreg should contain empty stateProofPK")
    else failIf isEmpty (Errorf "online keyreg cannot have empty field StateProofPK").

Definition wf_keyreg (kr : KeyregTxnFields) (lastValid : Round) (proto : ConsensusParams)
    : outcome unit :=
  _ ← (if proto_EnableKeyregCoherencyCheck proto then
         _ ← failIf (kr_VoteLast kr <? kr_VoteFirst kr)
               (Errorf "first voting round need to be less than its last voting round");
         _ ← failIf (negb (((kr_VotePK kr =? 0) && (kr_SelectionPK kr =? 0) &&
                              (kr_VoteKeyDilution kr =? 0)) ||
                           (negb (kr_VotePK kr =? 0) && negb (kr_SelectionPK kr =? 0) &&
                              negb (kr_VoteKeyDilution kr =? 0))))
               (Errorf "votekey, selkey, votekd need to be clear/set together");
         if kr_VoteKeyDilution kr =? 0 then
           failIf (negb (kr_VoteFirst kr =? 0) || negb (kr_VoteLast kr =? 0))
             (Errorf "going offline: vote first and vote last should not be set")
         else
           _ ← failIf (kr_VoteLast kr =? 0) (Errorf "going online: vote last is set to zero");
           failIf (wrap64 (lastValid + 1) <? kr_VoteFirst kr)
             (Errorf "going online: first voting round is beyond the round after last valid round")
       else Ok tt);
  _ ← (if kr_Nonparticipation kr then
         _ ← failIf (negb (proto_SupportBecomeNonParticipatingTransactions proto))
               (Errorf "becoming nonparticipating is not supported");
         failIf (negb ((kr_VotePK kr =? 0) || (kr_SelectionPK kr =? 0)))
           (Errorf "going online, but nonparticipatory flag is set")
       else Ok tt);
  stateProofPKWellFormed kr proto.

(** The sum of the argument lengths, saturating. *)
Definition argSum (args : list string) : Z :=
  foldl (fun acc arg => AddSaturate acc (slen arg)) 0 args.

Definition wf_application (ac : ApplicationCallTxnFields) (proto : ConsensusParams) : outcome unit :=
  _ ← failIf (negb (proto_Application proto)) (Errorf "application transaction not supported");
  _ ← failIf (negb (bool_decide (apc_OnCompletion ac ∈
                 [NoOpOC; OptInOC; CloseOutOC; ClearStateOC; UpdateApplicationOC; DeleteApplicationOC])))
        (Errorf "invalid application OnCompletion");
  _ ← (if negb (apc_ApplicationID ac =? 0) && negb (apc_OnCompletion ac =? UpdateApplicationOC) then
         failIf (negb (slen (apc_ApprovalProgram ac) =? 0) || negb (slen (apc_ClearStateProgram ac) =? 0))
           (Errorf "programs may only be specified during application creation or update")
       else CheckContractVersions (apc_ApprovalProgram ac) (apc_ClearStateProgram ac) AppParams_zero);
  effectiveEPP ←
    (if negb (apc_ApplicationID ac =? 0) then
       _ ← failIf (negb (bool_decide (apc_LocalStateSchema ac = StateSchema_zero)) ||
                   negb (bool_decide (apc_GlobalStateSchema ac = StateSchema_zero)))
             (Errorf "local and global state schemas are immutable");
       _ ← failIf (negb (apc_ExtraProgramPages ac =? 0)) (Errorf "tx.ExtraProgramPages is immutable");
       Ok (if proto_EnableExtraPagesOnAppUpdate proto
           then wrap32 (proto_MaxExtraAppProgramPages proto) else apc_ExtraProgramPages ac)
     else Ok (apc_ExtraProgramPages ac));
  _ ← failIf (proto_MaxAppArgs proto <? llen (apc_ApplicationArgs ac))
        (Errorf "too many application args");
  _ ← failIf (wrap64 (proto_MaxAppTotalArgLen proto) <? argSum (apc_ApplicationArgs ac))
        (Errorf "application args total length too long");
  _ ← failIf (proto_MaxAppTxnAccounts proto <? llen (apc_Accounts ac))
        (Errorf "tx.Accounts too long");
  _ ← failIf (proto_MaxAppTxnForeignApps proto <? llen (apc_ForeignApps ac))
        (Errorf "tx.ForeignApps too long");
  _ ← failIf (proto_MaxAppTxnForeignAssets proto <? llen (apc_ForeignAssets ac))
        (Errorf "tx.ForeignAssets too long");
  _ ← failIf (proto_MaxAppTotalTxnReferences proto <?
                llen (apc_Accounts ac) + llen (apc_ForeignApps ac) + llen (apc_ForeignAssets ac))
        (Errorf "tx references exceed MaxAppTotalTxnReferences");
  _ ← failIf (wrap32 (proto_MaxExtraAppProgramPages proto) <? apc_ExtraProgramPages ac)
        (Errorf "tx.ExtraProgramPages exceeds MaxExtraAppProgramPages");
  let lap := slen (apc_ApprovalProgram ac) in
  let lcs := slen (apc_ClearStateProgram ac) in
  let pages := wrap32 (1 + effectiveEPP) in
  _ ← failIf (pages * proto_MaxAppProgramLen proto <? lap) (Errorf "approval program too long");
  _ ← failIf (pages * proto_MaxAppProgramLen proto <? lcs) (Errorf "clear state program too long");
  _ ← failIf (pages * proto_MaxAppTotalProgramLen proto <? lap + lcs) (Errorf "app programs too long");
  _ ← failIf (proto_MaxLocalSchemaEntries proto <? NumEntries (apc_LocalStateSchema ac))
        (Errorf "tx.LocalStateSchema too large");
  failIf (proto_MaxGlobalSchemaEntries proto <? NumEntries (apc_GlobalStateSchema ac))
    (Errorf "tx.GlobalStateSchema too large").

Section wellformed.
  (** [transactions.CompactCertSender] is a hash computed at start-up. *)
  Context (CompactCertSender : Address).

Definition wf_compactcert (tx : Transaction) (proto : ConsensusParams) : outcome unit :=
  let h := tx_Header tx in
  _ ← failIf (proto_CompactCertRounds proto =? 0) (Errorf "compact certs not supported");
  _ ← failIf (negb (hdr_Sender h =? CompactCertSender)) (Errorf "sender must be the compact-cert sender");
  _ ← failIf (negb (hdr_Fee h =? 0)) (Errorf "fee must be zero");
  _ ← failIf (negb (slen (hdr_Note h) =? 0)) (Errorf "note must be empty");
  _ ← failIf (negb (hdr_Group h =? 0)) (Errorf "group must be zero");
  _ ← failIf (negb (hdr_RekeyTo h =? 0)) (Errorf "rekey must be zero");
  failIf (negb (hdr_Lease h =? 0)) (Errorf "lease must be zero").

(** The checks of [WellFormed] that depend on the transaction's type. *)
Definition wf_type (tx : Transaction) (spec : SpecialAddresses) (proto : ConsensusParams)
    : outcome unit :=
  match tx_Type tx with
  | PaymentTx => checkSpender (tx_Payment tx) (tx_Header tx) spec
  | KeyRegistrationTx => wf_keyreg (tx_Keyreg tx) (hdr_LastValid (tx_Header tx)) proto
  | AssetConfigTx | AssetTransferTx | AssetFreezeTx =>
      failIf (negb (proto_Asset proto)) (Errorf "asset transaction not supported")
  | ApplicationCallTx => wf_application (tx_ApplicationCall tx) proto
  | CompactCertTx => wf_compactcert tx proto
  | AddressPrintTx => checkSpender2 (tx_AddressPrint tx) (tx_Header tx) spec
  | UnknownTx => Err (Errorf "unknown tx type")
  end.

(** [nonZeroFields]: the types whose fields are set. *)
Definition nonZeroFields (tx : Transaction) : list TxType :=
  (if bool_decide (tx_Payment tx <> PaymentTxnFields_zero) then [PaymentTx] else []) ++
  (if bool_decide (tx_Keyreg tx <> KeyregTxnFields_zero) then [KeyRegistrationTx] else []) ++
  (if bool_decide (tx_AssetConfig tx <> AssetConfigTxnFields_zero) then [AssetConfigTx] else []) ++
  (if bool_decide (tx_AssetTransfer tx <> AssetTransferTxnFields_zero) then [AssetTransferTx] else []) ++
  (if bool_decide (tx_AssetFreeze tx <> AssetFreezeTxnFields_zero) then [AssetFreezeTx] else []) ++
  (if negb (ApplicationCall_Empty (tx_ApplicationCall tx)) then [ApplicationCallTx] else []) ++
  (if negb (CompactCert_Empty (tx_CompactCert tx)) then [CompactCertTx] else []) ++
  (if bool_decide (tx_AddressPrint tx <> AddressPrintTxnFields_zero) then [AddressPrintTx] else []).

(** The checks of [WellFormed] that apply to every type. *)
Definition wf_common (tx : Transaction) (spec : SpecialAddresses) (proto : ConsensusParams)
    : outcome unit :=
  let h := tx_Header tx in
  let ap := ac_AssetParams (tx_AssetConfig tx) in
  _ ← failIf (existsb (fun t => negb (bool_decide (t = tx_Type tx))) (nonZeroFields tx))
        (Errorf "transaction has non-zero fields for another type");
  _ ← failIf (negb (proto_EnableFeePooling proto) && (hdr_Fee h <? proto_MinTxnFee proto) &&
              negb (bool_decide (tx_Type tx = CompactCertTx))) MinFeeError;
  _ ← failIf (hdr_LastValid h <? hdr_FirstValid h) (Errorf "transaction invalid range");
  _ ← failIf (proto_MaxTxnLife proto <? wrap64 (hdr_LastValid h - hdr_FirstValid h))
        (Errorf "transaction window size excessive");
  _ ← failIf (proto_MaxTxnNoteBytes proto <? slen (hdr_Note h)) (Errorf "transaction note too big");
  _ ← failIf (proto_MaxAssetNameBytes proto <? slen (ap_AssetName ap))
        (Errorf "transaction asset name too big");
  _ ← failIf (proto_MaxAssetUnitNameBytes proto <? slen (ap_UnitName ap))
        (Errorf "transaction asset unit name too big");
  _ ← failIf (proto_MaxAssetURLBytes proto <? slen (ap_URL ap))
        (Errorf "transaction asset url too big");
  _ ← failIf (proto_MaxAssetDecimals proto <? ap_Decimals ap)
        (Errorf "transaction asset decimals is too high");
  _ ← failIf (hdr_Sender h =? spec_RewardsPool spec)
        (Errorf "transaction from incentive pool is invalid");
  _ ← failIf (hdr_Sender h =? 0) (Errorf "transaction cannot have zero sender");
  _ ← failIf (negb (proto_SupportTransactionLeases proto) && negb (hdr_Lease h =? 0))
        (Errorf "protocol does not support transaction leases");
  _ ← failIf (negb (proto_SupportTxGroups proto) && negb (hdr_Group h =? 0))
        (Errorf "transaction has group but groups not yet enabled");
  failIf (negb (proto_SupportRekeying proto) && negb (hdr_RekeyTo h =? 0))
    (Errorf "transaction has RekeyTo set but rekeying not yet enabled").

Definition WellFormed (tx : Transaction) (spec : SpecialAddresses) (proto : ConsensusParams)
    : outcome unit :=
  _ ← wf_type tx spec proto; wf_common tx spec proto.

End wellformed.

(** ** Addresses and amounts of a transaction (transaction.go) *)

Definition RelevantAddrs (tx : Transaction) (spec : SpecialAddresses) : list Address :=
  let addrs := [hdr_Sender (tx_Header tx); spec_FeeSink spec] in
  match tx_Type tx with
  | PaymentTx =>
      addrs ++ [pay_Receiver (tx_Payment tx)] ++
      (if negb (pay_CloseRemainderTo (tx_Payment tx) =? 0)
       then [pay_CloseRemainderTo (tx_Payment tx)] else [])
  | AssetTransferTx =>
      addrs ++ [ax_AssetReceiver (tx_AssetTransfer tx)] ++
      (if negb (ax_AssetCloseTo (tx_AssetTransfer tx) =? 0)
       then [ax_AssetCloseTo (tx_AssetTransfer tx)] else []) ++
      (if negb (ax_AssetSender (tx_AssetTransfer tx) =? 0)
       then [ax_AssetSender (tx_AssetTransfer tx)] else [])
  | AddressPrintTx => addrs ++ [adp_Receiver2 (tx_AddressPrint tx)]
  | _ => addrs
  end.

Definition MatchAddress (tx : Transaction) (addr : Address) (spec : SpecialAddresses) : bool :=
  existsb (fun candidate => addr =? candidate) (RelevantAddrs tx spec).

Definition TxAmount (tx : Transaction) : Z :=
  match tx_Type tx with PaymentTx => pay_Amount (tx_Payment tx) | _ => 0 end.

Definition GetReceiverAddress (tx : Transaction) : Address :=
  match tx_Type tx with
  | PaymentTx => pay_Receiver (tx_Payment tx)
  | AssetTransferTx => ax_AssetReceiver (tx_AssetTransfer tx)
  | AddressPrintTx => adp_Receiver2 (tx_AddressPrint tx)
  | _ => 0
  end.

(** ** Properties *)

Lemma find_from_spec target l i j : find_from target l i = Some j ->
  i <= j < i + llen l /\ l !! Z.to_nat (j - i) = Some target /\
  (forall k, i <= k < j -> l !! Z.to_nat (k - i) <> Some target).
Proof.
  revert i. induction l as [|x l IH]; intros i; cbn; [done|].
  unfold llen in *. cbn [length]. destruct (Z.eqb_spec target x) as [->|Hx].
  - intros [= ->]. rewrite Z.sub_diag. split_and!; [lia..|done|lia].
  - intros (H1 & H2 & H3)%IH. split; [lia|].
    replace (Z.to_nat (j - i)) with (S (Z.to_nat (j - (i + 1)))) by lia. split; [done|].
    intros k Hk. destruct (decide (k = i)) as [->|].
    { rewrite Z.sub_diag. intros [= ->]. done. }
    replace (Z.to_nat (k - i)) with (S (Z.to_nat (k - (i + 1)))) by lia. apply H3. lia.
Qed.

Lemma find_from_none target l i : find_from target l i = None <-> target ∉ l.
Proof.
  revert i. induction l as [|x l IH]; intros i; cbn; [set_solver|].
  destruct (Z.eqb_spec target x); rewrite ?IH; set_solver.
Qed.

(** The index that [IndexByAddress] gives an address of an
    application call is accepted by [AddressByIndex] and leads back to that
    address, and it fails exactly for addresses the call does not name. *)
Theorem IndexByAddress_roundtrip ac target sender :
  llen (apc_Accounts ac) < MaxUint64 ->
  match IndexByAddress ac target sender with
  | Ok i => AddressByIndex ac i sender = Ok target
  | Err _ => target <> sender /\ target ∉ apc_Accounts ac
  | Panic => False
  end.
Proof.
  intros Hlen. unfold IndexByAddress, AddressByIndex.
  destruct (Z.eqb_spec target sender) as [->|Hs]; [done|].
  destruct (find_from _ _ _) as [j|] eqn:Hf.
  - apply find_from_spec in Hf as (Hj & Hl & _).
    rewrite wrap64_small by word. destruct (Z.eqb_spec (j + 1) 0); [lia|].
    destruct (Z.ltb_spec (llen (apc_Accounts ac)) (j + 1)); [lia|].
    unfold index_or_panic. replace (j + 1 - 1) with (j - 0) by lia. by rewrite Hl.
  - by apply find_from_none in Hf.
Qed.

Lemma IndexByAddress_roundtrip_witness :
  let ac := mkApplicationCallTxnFields 5 0 [] [11; 12; 12] [] [] StateSchema_zero StateSchema_zero "" "" 0 in
  IndexByAddress ac 12 9 = Ok 2 /\ AddressByIndex ac 2 9 = Ok 12.
Proof.
  split; [reflexivity|].
  exact (IndexByAddress_roundtrip
    (mkApplicationCallTxnFields 5 0 [] [11; 12; 12] [] [] StateSchema_zero StateSchema_zero "" "" 0)
    12 9 eq_refl).
Defined.

Lemma forallb_map_lookup {K V} `{Countable K} (m : gmap K V) (P : K -> V -> bool) :
  forallb (fun '(k, v) => P k v) (map_to_list m) = true <->
  forall k v, m !! k = Some v -> P k v = true.
Proof.
  rewrite forallb_forall. split.
  - intros HP k v Hkv. apply (HP (k, v)). apply list_elem_of_In, elem_of_map_to_list. done.
  - intros HP [k v] Hin. apply HP. by apply elem_of_map_to_list, list_elem_of_In.
Qed.

Lemma StateDelta_Equal_spec sd o : StateDelta_Equal sd o = true <-> sd = o.
Proof.
  unfold StateDelta_Equal. rewrite andb_true_iff, bool_decide_eq_true, forallb_map_lookup.
  setoid_rewrite bool_decide_eq_true. split.
  - intros [Hs Hin]. apply map_subseteq_size_eq; [|lia]. by apply map_subseteq_spec.
  - intros ->. done.
Qed.

Lemma LocalDeltas_Equal_spec m o : LocalDeltas_Equal m o = true <-> m = o.
Proof.
  unfold LocalDeltas_Equal. rewrite andb_true_iff, bool_decide_eq_true, forallb_map_lookup.
  split.
  - intros [Hs Hin]. apply map_subseteq_size_eq; [|lia]. apply map_subseteq_spec. intros k v Hk.
    specialize (Hin k v Hk). destruct (o !! k); [|done]. by apply StateDelta_Equal_spec in Hin as ->.
  - intros ->. split; [done|]. intros k v ->. by apply StateDelta_Equal_spec.
Qed.

(** Structural equality of the mutually recursive records, by size. *)
Fixpoint EvalDelta_size (ed : EvalDelta) : nat :=
  S ((fix inner (l : list (SignedTxn * ApplyData)) : nat :=
       match l with [] => O | (_, a) :: l' => (ApplyData_size a + inner l')%nat end)
     (ed_InnerTxns ed))
with ApplyData_size (ad : ApplyData) : nat := S (EvalDelta_size (ad_EvalDelta ad)).

Fixpoint inner_Equal (l1 l2 : list (SignedTxn * ApplyData)) : bool :=
  match l1, l2 with
  | [], [] => true
  | (s1, a1) :: l1', (s2, a2) :: l2' =>
      bool_decide (s1 = s2) && ApplyData_Equal a1 a2 && inner_Equal l1' l2'
  | _, _ => false
  end.

Lemma EvalDelta_Equal_unfold ed o :
  EvalDelta_Equal ed o =
    LocalDeltas_Equal (ed_LocalDeltas ed) (ed_LocalDeltas o) &&
    StateDelta_Equal (ed_GlobalDelta ed) (ed_GlobalDelta o) &&
    bool_decide (ed_Logs ed = ed_Logs o) && inner_Equal (ed_InnerTxns ed) (ed_InnerTxns o).
Proof. by destruct ed. Qed.

Lemma ApplyData_Equal_unfold ad o :
  ApplyData_Equal ad o =
    (ad_ClosingAmount ad =? ad_ClosingAmount o) &&
    (ad_AssetClosingAmount ad =? ad_AssetClosingAmount o) &&
    (ad_SenderRewards ad =? ad_SenderRewards o) &&
    (ad_ReceiverRewards ad =? ad_ReceiverRewards o) &&
    (ad_CloseRewards ad =? ad_CloseRewards o) &&
    (ad_ConfigAsset ad =? ad_ConfigAsset o) &&
    (ad_ApplicationID ad =? ad_ApplicationID o) &&
    EvalDelta_Equal (ad_EvalDelta ad) (ad_EvalDelta o).
Proof. by destruct ad. Qed.

Lemma inner_Equal_spec l1 :
  (forall s a, (s, a) ∈ l1 -> forall o, ApplyData_Equal a o = true <-> a = o) ->
  forall l2, inner_Equal l1 l2 = true <-> l1 = l2.
Proof.
  induction l1 as [|[s1 a1] l1 IH]; intros Ha [|[s2 a2] l2]; cbn; try done.
  rewrite !andb_true_iff, bool_decide_eq_true, (Ha s1 a1) by set_solver.
  rewrite IH by set_solver. naive_solver.
Qed.

Lemma ApplyData_size_inner ed s a :
  (s, a) ∈ ed_InnerTxns ed -> (ApplyData_size a < EvalDelta_size ed)%nat.
Proof.
  destruct ed as [g l lg inner]; cbn. induction inner as [|[s1 a1] inner IH]; [set_solver|].
  intros [[= -> ->]|Hin]%elem_of_cons; cbn; [lia|]. specialize (IH Hin). lia.
Qed.

Lemma ApplyData_Equal_spec n : forall ad o, (ApplyData_size ad <= n)%nat ->
  ApplyData_Equal ad o = true <-> ad = o.
Proof.
  induction n as [|n IH]; intros ad o Hn; [destruct ad; cbn in Hn; lia|].
  assert (EvalDelta_Equal (ad_EvalDelta ad) (ad_EvalDelta o) = true <->
          ad_EvalDelta ad = ad_EvalDelta o) as He.
  { rewrite EvalDelta_Equal_unfold, !andb_true_iff, bool_decide_eq_true,
      LocalDeltas_Equal_spec, StateDelta_Equal_spec, inner_Equal_spec.
    - destruct (ad_EvalDelta ad), (ad_EvalDelta o); cbn.
      split; [intros; destruct_and!; by subst | intros [=]; by subst].
    - intros s a Hin o'. apply IH. apply ApplyData_size_inner in Hin.
      destruct ad; cbn in *. lia. }
  rewrite ApplyData_Equal_unfold, !andb_true_iff, !Z.eqb_eq, He.
  destruct ad, o; cbn.
  split; [intros; destruct_and!; by subst | intros [=]; subst; by split_and!].
Qed.

(** [ApplyData.Equal], with which a validator compares the
    effects recorded in a block with the ones it computed, accepts exactly equal
    records, through every level of inner transactions. *)
Theorem ApplyData_Equal_correct ad o : ApplyData_Equal ad o = true <-> ad = o.
Proof. by apply (ApplyData_Equal_spec (ApplyData_size ad)). Qed.

(** The types other than its own whose fields a transaction sets. *)
Definition only_own_fields (tx : Transaction) : Prop :=
  Forall (fun t => t = tx_Type tx) (nonZeroFields tx).

(** What a transaction that passed [WellFormed] satisfies: it sets
    no fields of another type, has a non-empty validity window of at most
    [MaxTxnLife] rounds, is not sent by the zero address or by the rewards
    pool, pays the minimum fee unless fees are pooled (or it is a compact
    certificate), uses leases, groups and rekeying only where the protocol
    supports them, and, as a payment from the fee sink, only pays the rewards
    pool and closes nothing. *)
Theorem WellFormed_guarantees ccs tx spec proto :
  is_u64 (hdr_FirstValid (tx_Header tx)) -> is_u64 (hdr_LastValid (tx_Header tx)) ->
  WellFormed ccs tx spec proto = Ok tt ->
  let h := tx_Header tx in
  only_own_fields tx /\
  hdr_FirstValid h <= hdr_LastValid h <= hdr_FirstValid h + proto_MaxTxnLife proto /\
  hdr_Sender h <> 0 /\ hdr_Sender h <> spec_RewardsPool spec /\
  (proto_EnableFeePooling proto = true \/ proto_MinTxnFee proto <= hdr_Fee h \/
     tx_Type tx = CompactCertTx) /\
  (hdr_Lease h <> 0 -> proto_SupportTransactionLeases proto = true) /\
  (hdr_Group h <> 0 -> proto_SupportTxGroups proto = true) /\
  (hdr_RekeyTo h <> 0 -> proto_SupportRekeying proto = true) /\
  (tx_Type tx = PaymentTx -> hdr_Sender h = spec_FeeSink spec ->
     pay_Receiver (tx_Payment tx) = spec_RewardsPool spec /\
     pay_CloseRemainderTo (tx_Payment tx) = 0).
Proof.
  intros Hfv Hlv H h. unfold WellFormed, wf_common in H. okinv H. subst h.
  rename select (existsb _ _ = false) into Hex.
  rename select (wf_type _ _ _ _ = _) into Hty.
  assert (only_own_fields tx) as Hown.
  { unfold only_own_fields. rewrite Forall_forall. intros t Ht.
    destruct (decide (t = tx_Type tx)) as [|Hne]; [done|]. exfalso.
    rewrite (proj2 (existsb_exists _ _)) in Hex; [done|].
    exists t. split; [by apply list_elem_of_In|]. by rewrite bool_decide_false. }
  repeat match goal with
  | E : (_ && _) = false |- _ => apply andb_false_iff in E
  | E : negb _ = false |- _ => apply negb_false_iff in E
  | E : _ \/ negb _ = false |- _ => rewrite negb_false_iff in E
  | E : (_ && _) = false \/ _ |- _ => rewrite andb_false_iff in E
  | E : negb _ = false \/ _ |- _ => rewrite negb_false_iff in E
  | E : (negb _ = false \/ _) \/ _ |- _ => rewrite negb_false_iff in E
  end.
  rewrite wrap64_small in * by word.
  split_and!; try done; try lia.
  - destruct (decide (tx_Type tx = CompactCertTx)) as [|Hn]; [by auto|].
    rewrite bool_decide_false in * by done. naive_solver lia.
  - intros; destruct Ho11; [done|lia].
  - intros; destruct Ho12; [done|lia].
  - intros; destruct H; [done|lia].
  - intros Hpay Hsnk. unfold wf_type in Hty. rewrite Hpay in Hty. unfold checkSpender in Hty.
    rewrite Hsnk, Z.eqb_refl in Hty. okinv Hty. lia.
Qed.

Lemma WellFormed_guarantees_witness :
  let h := mkHeader 1 1000 5 10 "" "" 0 0 0 0 in
  let tx := mkTransaction PaymentTx h KeyregTxnFields_zero (mkPaymentTxnFields 2 7 0)
              AssetConfigTxnFields_zero AssetTransferTxnFields_zero AssetFreezeTxnFields_zero
              ApplicationCallTxnFields_zero CompactCertTxnFields_zero AddressPrintTxnFields_zero in
  WellFormed 99 tx (mkSpecialAddresses 8 9) v31 = Ok tt /\ only_own_fields tx.
Proof.
  intros h tx. assert (WellFormed 99 tx (mkSpecialAddresses 8 9) v31 = Ok tt) as H by reflexivity.
  split; [exact H|].
  destruct (WellFormed_guarantees 99 tx (mkSpecialAddresses 8 9) v31) as [Hown _];
    [done | done | exact H | exact Hown].
Defined.

