(* ===== verification/Bookkeeping.v ===== *)
(** [src/data/bookkeeping/block.go]: block headers, the rewards schedule, the
    protocol upgrade state machine, header validation, the in-block encoding of
    transactions and the splitting of a payset into groups.

    Hashes are parameters: [Hash] of a header and the two commitments to a
    payset. *)
From S2P Require Import Prelude Config Basics Transactions.
#[local] Open Scope string_scope.
#[local] Open Scope list_scope.
#[local] Open Scope Z_scope.

(** ** Headers *)

Record RewardsState : Type := mkRewardsState {
  rs_FeeSink : Address;
  rs_RewardsPool : Address;
  rs_RewardsLevel : Z;
  rs_RewardsRate : Z;
  rs_RewardsResidue : Z;
  rs_RewardsRecalculationRound : Round }.
#[export] Instance Eta_RewardsState : Eta RewardsState := fun r =>
  mkRewardsState (rs_FeeSink r) (rs_RewardsPool r) (rs_RewardsLevel r) (rs_RewardsRate r)
    (rs_RewardsResidue r) (rs_RewardsRecalculationRound r).
#[export] Instance RewardsState_eq_dec : EqDecision RewardsState.
Proof. solve_decision. Defined.

Record UpgradeVote : Type := mkUpgradeVote {
  uv_UpgradePropose : string; uv_UpgradeDelay : Round; uv_UpgradeApprove : bool }.

Record UpgradeState : Type := mkUpgradeState {
  us_CurrentProtocol : string;
  us_NextProtocol : string;
  us_NextProtocolApprovals : Z;
  us_NextProtocolVoteBefore : Round;
  us_NextProtocolSwitchOn : Round }.
#[export] Instance Eta_UpgradeState : Eta UpgradeState := fun r =>
  mkUpgradeState (us_CurrentProtocol r) (us_NextProtocol r) (us_NextProtocolApprovals r)
    (us_NextProtocolVoteBefore r) (us_NextProtocolSwitchOn r).
#[export] Instance UpgradeState_eq_dec : EqDecision UpgradeState.
Proof. solve_decision. Defined.

Record CompactCertState : Type := mkCompactCertState {
  ccs_CompactCertVoters : list Z;
  ccs_CompactCertVotersTotal : Z;
  ccs_CompactCertNextRound : Round }.
#[export] Instance CompactCertState_eq_dec : EqDecision CompactCertState.
Proof. solve_decision. Defined.
Definition CompactCertState_zero : CompactCertState := mkCompactCertState [] 0 0.

Record BlockHeader : Type := mkBlockHeader {
  bh_Round : Round;
  bh_Branch : Digest;
  bh_Seed : Z;
  bh_TxnRoot : Digest;
  bh_TimeStamp : Z;
  bh_GenesisID : string;
  bh_GenesisHash : Digest;
  bh_RewardsState : RewardsState;
  bh_UpgradeState : UpgradeState;
  bh_UpgradeVote : UpgradeVote;
  bh_TxnCounter : Z;
  bh_CompactCert : gmap Z CompactCertState;
  bh_ExpiredParticipationAccounts : list Address }.
#[export] Instance Eta_BlockHeader : Eta BlockHeader := fun r =>
  mkBlockHeader (bh_Round r) (bh_Branch r) (bh_Seed r) (bh_TxnRoot r) (bh_TimeStamp r)
    (bh_GenesisID r) (bh_GenesisHash r) (bh_RewardsState r) (bh_UpgradeState r)
    (bh_UpgradeVote r) (bh_TxnCounter r) (bh_CompactCert r)
    (bh_ExpiredParticipationAccounts r).

Definition bh_CurrentProtocol (bh : BlockHeader) : string := us_CurrentProtocol (bh_UpgradeState bh).

Record Block : Type := mkBlock { blk_Header : BlockHeader; blk_Payset : list SignedTxnInBlock }.
#[export] Instance Eta_Block : Eta Block := fun r => mkBlock (blk_Header r) (blk_Payset r).

(** ** The rewards schedule *)

(** The division by a zero refresh interval panics. *)
Definition NextRewardsState (s : RewardsState) (nextRound : Round) (nextProto : ConsensusParams)
    (incentivePoolBalance totalRewardUnits : Z) : outcome RewardsState :=
  res ←
    (if nextRound =? rs_RewardsRecalculationRound s then
       let maxSpentOver :=
         if proto_PendingResidueRewards nextProto then
           let '(sum, overflowed) := OAdd (proto_MinBalance nextProto) (rs_RewardsResidue s) in
           if overflowed then incentivePoolBalance else sum
         else proto_MinBalance nextProto in
       let '(newRate, overflowed) := OSub incentivePoolBalance maxSpentOver in
       let newRate := if overflowed then 0 else newRate in
       if proto_RewardsRateRefreshInterval nextProto =? 0 then Panic
       else
         Ok (s <| rs_RewardsRate := newRate / proto_RewardsRateRefreshInterval nextProto |>
               <| rs_RewardsRecalculationRound :=
                    wrap64 (nextRound + proto_RewardsRateRefreshInterval nextProto) |>)
     else Ok s);
  if totalRewardUnits =? 0 then Ok res
  else
    let rewardsRate :=
      if proto_RewardsCalculationFix nextProto then rs_RewardsRate res else rs_RewardsRate s in
    let '(rewardsWithResidue, ot) := ot_Add false rewardsRate (rs_RewardsResidue res) in
    let '(nextRewardLevel, ot) := ot_Add ot (rs_RewardsLevel res) (rewardsWithResidue / totalRewardUnits) in
    let nextResidue := rewardsWithResidue mod totalRewardUnits in
    if ot then Ok res
    else Ok (res <| rs_RewardsLevel := nextRewardLevel |> <| rs_RewardsResidue := nextResidue |>).

(** ** Protocol upgrades *)

Definition applyUpgradeVote (s : UpgradeState) (r : Round) (vote : UpgradeVote)
    : outcome UpgradeState :=
  match Consensus !! us_CurrentProtocol s with
  | None => Err (Errorf "applyUpgradeVote: unsupported protocol")
  | Some params =>
    s ← (if negb (String.eqb (uv_UpgradePropose vote) "") then
           _ ← failIf (negb (String.eqb (us_NextProtocol s) ""))
                 (Errorf "applyUpgradeVote: new proposal during existing proposal");
           _ ← failIf (proto_MaxVersionStringLen params <? slen (uv_UpgradePropose vote))
                 (Errorf "applyUpgradeVote: proposed protocol version too long");
           let upgradeDelay := uv_UpgradeDelay vote in
           _ ← failIf ((proto_MaxUpgradeWaitRounds params <? upgradeDelay) ||
                       (upgradeDelay <? proto_MinUpgradeWaitRounds params))
                 (Errorf "applyUpgradeVote: proposed upgrade wait rounds out of permissible range");
           let upgradeDelay :=
             if upgradeDelay =? 0 then proto_DefaultUpgradeWaitRounds params else upgradeDelay in
           Ok (s <| us_NextProtocol := uv_UpgradePropose vote |>
                 <| us_NextProtocolApprovals := 0 |>
                 <| us_NextProtocolVoteBefore := wrap64 (r + proto_UpgradeVoteRounds params) |>
                 <| us_NextProtocolSwitchOn :=
                      wrap64 (wrap64 (r + proto_UpgradeVoteRounds params) + upgradeDelay) |>)
         else
           _ ← failIf (negb (uv_UpgradeDelay vote =? 0))
                 (Errorf "applyUpgradeVote: upgrade delay nonzero when not proposing");
           Ok s);
    s ← (if uv_UpgradeApprove vote then
           _ ← failIf (String.eqb (us_NextProtocol s) "")
                 (Errorf "applyUpgradeVote: approval without an active proposal");
           _ ← failIf (us_NextProtocolVoteBefore s <=? r)
                 (Errorf "applyUpgradeVote: approval after vote deadline");
           Ok (s <| us_NextProtocolApprovals := wrap64 (us_NextProtocolApprovals s + 1) |>)
         else Ok s);
    let s :=
      if (r =? us_NextProtocolVoteBefore s) &&
         (us_NextProtocolApprovals s <? proto_UpgradeThreshold params) then
        s <| us_NextProtocol := "" |> <| us_NextProtocolApprovals := 0 |>
          <| us_NextProtocolVoteBefore := 0 |> <| us_NextProtocolSwitchOn := 0 |>
      else s in
    let s :=
      if r =? us_NextProtocolSwitchOn s then
        s <| us_CurrentProtocol := us_NextProtocol s |>
          <| us_NextProtocol := "" |> <| us_NextProtocolApprovals := 0 |>
          <| us_NextProtocolVoteBefore := 0 |> <| us_NextProtocolSwitchOn := 0 |>
      else s in
    Ok s
  end.

(** Go takes an arbitrary first entry of [ApprovedUpgrades]; the entries of the
    compiled-in table have at most one. *)
Definition ProcessUpgradeParams (prev : BlockHeader) : outcome (UpgradeVote * UpgradeState) :=
  let us := bh_UpgradeState prev in
  match Consensus !! us_CurrentProtocol us with
  | None => Err (Errorf "previous protocol not supported")
  | Some prevParams =>
    let upgradeVote :=
      if String.eqb (us_NextProtocol us) "" then
        match map_to_list (proto_ApprovedUpgrades prevParams) with
        | (k, v) :: _ => mkUpgradeVote k v true
        | [] => mkUpgradeVote "" 0 false
        end
      else mkUpgradeVote "" 0 false in
    let round := wrap64 (bh_Round prev + 1) in
    let upgradeVote :=
      if round <? us_NextProtocolVoteBefore us then
        mkUpgradeVote (uv_UpgradePropose upgradeVote) (uv_UpgradeDelay upgradeVote)
          (bool_decide (is_Some (proto_ApprovedUpgrades prevParams !! us_NextProtocol us)))
      else upgradeVote in
    match applyUpgradeVote us round upgradeVote with
    | Ok upgradeState => Ok (upgradeVote, upgradeState)
    | Err _ => Err (Errorf "constructed invalid upgrade vote")
    | Panic => Panic
    end
  end.

Definition NextVersionInfo (bh : BlockHeader) : string * Round * bool :=
  let us := bh_UpgradeState bh in
  let '(ver, rnd) :=
    if (us_NextProtocolVoteBefore us <=? bh_Round bh) && (bh_Round bh <? us_NextProtocolSwitchOn us)
    then (us_NextProtocol us, us_NextProtocolSwitchOn us)
    else (us_CurrentProtocol us, wrap64 (bh_Round bh + 1)) in
  (ver, rnd, bool_decide (is_Some (Consensus !! ver))).

(** ** Making and checking headers *)

Section hashes.
  Context (Hash : BlockHeader -> Digest).
  Context (CommitFlat : list SignedTxnInBlock -> Digest).
  Context (TxnMerkleRoot : list SignedTxnInBlock -> outcome Digest).

Definition paysetCommit (t : PaysetCommitType) (payset : list SignedTxnInBlock) : outcome Digest :=
  match t with
  | PaysetCommitFlat => Ok (CommitFlat payset)
  | PaysetCommitMerkle => TxnMerkleRoot payset
  | PaysetCommitUnsupported => Err (Errorf "unsupported payset commit type")
  end.

Definition PaysetCommit (block : Block) : outcome Digest :=
  match Consensus !! bh_CurrentProtocol (blk_Header block) with
  | None => Err (Errorf "unsupported protocol")
  | Some params => paysetCommit (proto_PaysetCommit params) (blk_Payset block)
  end.

Definition ContentsMatchHeader (block : Block) : bool :=
  match PaysetCommit block with
  | Ok expected => expected =? bh_TxnRoot (blk_Header block)
  | _ => false
  end.

(** [MakeBlock]; [now] is the clock reading.  A failing commitment is only
    logged and leaves a zero root. *)
Definition MakeBlock (now : Z) (prev : BlockHeader) : outcome Block :=
  match ProcessUpgradeParams prev with
  | Ok (upgradeVote, upgradeState) =>
    match Consensus !! us_CurrentProtocol upgradeState with
    | None => Panic
    | Some params =>
      let timestamp :=
        if 0 <? bh_TimeStamp prev then
          if now <? bh_TimeStamp prev then bh_TimeStamp prev
          else if swrap64 (bh_TimeStamp prev + proto_MaxTimestampIncrement params) <? now
               then swrap64 (bh_TimeStamp prev + proto_MaxTimestampIncrement params)
               else now
        else now in
      let hdr := mkBlockHeader (wrap64 (bh_Round prev + 1)) (Hash prev) 0 0 timestamp
                   (bh_GenesisID prev) (bh_GenesisHash prev) (mkRewardsState 0 0 0 0 0 0)
                   upgradeState upgradeVote 0 ∅ [] in
      let txnRoot := match PaysetCommit (mkBlock hdr []) with Ok d => d | _ => 0 end in
      Ok (mkBlock
            (hdr <| bh_TxnRoot := txnRoot |>
                 <| bh_RewardsState :=
                      mkRewardsState (rs_FeeSink (bh_RewardsState prev))
                        (rs_RewardsPool (bh_RewardsState prev)) 0 0 0 0 |>) [])
    end
  | _ => Panic
  end.

Definition PreCheck (bh prev : BlockHeader) : outcome unit :=
  match Consensus !! bh_CurrentProtocol bh with
  | None => Err (Errorf "BlockHeader.PreCheck: protocol not supported")
  | Some params =>
    let round := wrap64 (bh_Round prev + 1) in
    _ ← failIf (negb (round =? bh_Round bh)) (Errorf "block round incorrect");
    _ ← failIf (negb (bh_Branch bh =? Hash prev)) (Errorf "block branch incorrect");
    nextUpgradeState ← applyUpgradeVote (bh_UpgradeState prev) round (bh_UpgradeVote bh);
    _ ← failIf (negb (bool_decide (nextUpgradeState = bh_UpgradeState bh)))
          (Errorf "UpgradeState mismatch");
    _ ← (if 0 <? bh_TimeStamp prev then
           _ ← failIf (bh_TimeStamp bh <? bh_TimeStamp prev) (Errorf "bad timestamp");
           failIf (swrap64 (bh_TimeStamp prev + proto_MaxTimestampIncrement params) <? bh_TimeStamp bh)
             (Errorf "bad timestamp")
         else Ok tt);
    _ ← failIf (String.eqb (bh_GenesisID bh) "") (Errorf "genesis ID missing");
    _ ← failIf (negb (String.eqb (bh_GenesisID prev) "") &&
                negb (String.eqb (bh_GenesisID prev) (bh_GenesisID bh)))
          (Errorf "genesis ID mismatch");
    if proto_SupportGenesisHash params then
      _ ← failIf (bh_GenesisHash bh =? 0) (Errorf "genesis hash missing");
      failIf (negb (bh_GenesisHash prev =? 0) && negb (bh_GenesisHash prev =? bh_GenesisHash bh))
        (Errorf "genesis hash mismatch")
    else failIf (negb (bh_GenesisHash bh =? 0)) (Errorf "genesis hash not allowed")
  end.

End hashes.

(** ** Transactions in blocks *)

Definition DecodeSignedTxn (bh : BlockHeader) (stb : SignedTxnInBlock)
    : outcome (SignedTxn * ApplyData) :=
  let st := stib_SignedTxn stb in
  match Consensus !! bh_CurrentProtocol bh with
  | None => Err (Errorf "consensus protocol not found")
  | Some proto =>
    if negb (proto_SupportSignedTxnInBlock proto) then Ok (st, ApplyData_zero)
    else
      let h := tx_Header (stx_Txn st) in
      _ ← failIf (negb (String.eqb (hdr_GenesisID h) "")) (Errorf "GenesisID not empty");
      let h := if stib_HasGenesisID stb then h <| hdr_GenesisID := bh_GenesisID bh |> else h in
      _ ← failIf (negb (hdr_GenesisHash h =? 0)) (Errorf "GenesisHash not empty");
      h ← (if proto_RequireGenesisHash proto then
             _ ← failIf (stib_HasGenesisHash stb)
                   (Errorf "HasGenesisHash set to true but RequireGenesisHash obviates the flag");
             Ok (h <| hdr_GenesisHash := bh_GenesisHash bh |>)
           else if stib_HasGenesisHash stb then Ok (h <| hdr_GenesisHash := bh_GenesisHash bh |>)
           else Ok h);
      Ok (st <| stx_Txn := stx_Txn st <| tx_Header := h |> |>, stib_ApplyData stb)
  end.

Definition EncodeSignedTxn (bh : BlockHeader) (st : SignedTxn) (ad : ApplyData)
    : outcome SignedTxnInBlock :=
  match Consensus !! bh_CurrentProtocol bh with
  | None => Err (Errorf "consensus protocol not found")
  | Some proto =>
    if negb (proto_SupportSignedTxnInBlock proto) then
      Ok (mkSignedTxnInBlock st ApplyData_zero false false)
    else
      let h := tx_Header (stx_Txn st) in
      '(h, hasGenesisID) ←
        (if negb (String.eqb (hdr_GenesisID h) "") then
           if String.eqb (hdr_GenesisID h) (bh_GenesisID bh)
           then Ok (h <| hdr_GenesisID := "" |>, true)
           else Err (Errorf "GenesisID mismatch")
         else Ok (h, false));
      '(h, hasGenesisHash) ←
        (if negb (hdr_GenesisHash h =? 0) then
           if hdr_GenesisHash h =? bh_GenesisHash bh
           then Ok (h <| hdr_GenesisHash := 0 |>, negb (proto_RequireGenesisHash proto))
           else Err (Errorf "GenesisHash mismatch")
         else
           _ ← failIf (proto_RequireGenesisHash proto) (Errorf "GenesisHash required but missing");
           Ok (h, false));
      Ok (mkSignedTxnInBlock (st <| stx_Txn := stx_Txn st <| tx_Header := h |> |>) ad
            hasGenesisID hasGenesisHash)
  end.

(** The loop of [SignedTxnsToGroups] and [DecodePaysetGroups]: [lastGroup] is
    the group being collected (empty for nil), [group] reads a transaction's
    group id. *)
Section groups.
  Context {A : Type} (group : A -> Digest).

Fixpoint groups_from (lastGroup : list A) (txns : list A) : list (list A) :=
  match txns with
  | [] => match lastGroup with [] => [] | _ => [lastGroup] end
  | tx :: rest =>
      match lastGroup with
      | [] => groups_from [tx] rest
      | g0 :: _ =>
          if negb (group g0 =? group tx) || (group g0 =? 0)
          then lastGroup :: groups_from [tx] rest
          else groups_from (lastGroup ++ [tx]) rest
      end
  end.

End groups.

Definition stx_group (st : SignedTxn) : Digest := hdr_Group (tx_Header (stx_Txn st)).

Definition SignedTxnsToGroups (txns : list SignedTxn) : list (list SignedTxn) :=
  groups_from stx_group [] txns.

Definition SignedTxnGroupsFlatten (txgroups : list (list SignedTxn)) : list SignedTxn :=
  concat txgroups.

(** Decode every transaction of the payset, failing at the first error. *)
Fixpoint decode_all (bh : BlockHeader) (payset : list SignedTxnInBlock)
    : outcome (list SignedTxnWithAD) :=
  match payset with
  | [] => Ok []
  | txib :: rest =>
      '(st, ad) ← DecodeSignedTxn bh txib;
      l ← decode_all bh rest;
      Ok (mkSignedTxnWithAD st ad :: l)
  end.

Definition DecodePaysetFlat (block : Block) : outcome (list SignedTxnWithAD) :=
  decode_all (blk_Header block) (blk_Payset block).

Definition DecodePaysetGroups (block : Block) : outcome (list (list SignedTxnWithAD)) :=
  l ← decode_all (blk_Header block) (blk_Payset block);
  Ok (groups_from (fun t => stx_group (stad_SignedTxn t)) [] l).

(** ** Rewards: conservation and solvency *)

Definition rewards_wf (s : RewardsState) : Prop :=
  is_u64 (rs_RewardsLevel s) /\ is_u64 (rs_RewardsRate s) /\ is_u64 (rs_RewardsResidue s).

(** The rate in force after the recalculation a round may start. *)
Definition next_rate (s : RewardsState) (nextRound : Round) (proto : ConsensusParams) (balance : Z) : Z :=
  if nextRound =? rs_RewardsRecalculationRound s then
    let spentOver := proto_MinBalance proto +
      (if proto_PendingResidueRewards proto then rs_RewardsResidue s else 0) in
    (if (spentOver <? two64) && (spentOver <=? balance) then balance - spentOver else 0)
      / proto_RewardsRateRefreshInterval proto
  else rs_RewardsRate s.

Definition next_recalculation (s : RewardsState) (nextRound : Round) (proto : ConsensusParams) : Round :=
  if nextRound =? rs_RewardsRecalculationRound s
  then wrap64 (nextRound + proto_RewardsRateRefreshInterval proto)
  else rs_RewardsRecalculationRound s.

Definition rewards_params_wf (proto : ConsensusParams) : Prop :=
  0 < proto_RewardsRateRefreshInterval proto /\ is_u64 (proto_MinBalance proto) /\
  proto_RewardsCalculationFix proto = true.

Lemma next_rate_range s r proto bal :
  rewards_wf s -> rewards_params_wf proto -> is_u64 bal -> is_u64 (next_rate s r proto bal).
Proof.
  intros (?&?&?) (?&?&_) ?. unfold next_rate. case_match; [|done].
  set (a := if _ && _ then _ else _).
  assert (0 <= a <= bal) as Ha.
  { unfold a. destruct (_ && _) eqn:E; [|word].
    apply andb_prop in E as [? ?%Z.leb_le]. case_match; word. }
  unfold is_u64 in *. split; [apply Z.div_pos; lia|].
  eapply Z.le_lt_trans; [apply Z.div_le_upper_bound with (q := bal)|lia]; nia.
Qed.

(** One step of the schedule in closed form. *)
Lemma NextRewardsState_eq s r proto bal units :
  rewards_wf s -> rewards_params_wf proto -> is_u64 bal -> 0 <= units ->
  let rate := next_rate s r proto bal in
  let total := rate + rs_RewardsResidue s in
  let pays := negb (units =? 0) && (total <? two64) &&
              (rs_RewardsLevel s + total / units <? two64) in
  NextRewardsState s r proto bal units =
    Ok (mkRewardsState (rs_FeeSink s) (rs_RewardsPool s)
          (if pays then rs_RewardsLevel s + total / units else rs_RewardsLevel s)
          rate
          (if pays then total mod units else rs_RewardsResidue s)
          (next_recalculation s r proto)).
Proof.
  intros Hwf Hp Hb Hu. pose proof (next_rate_range s r proto bal Hwf Hp Hb) as Hrate.
  destruct Hwf as (Hl & Hrt & Hrs), Hp as (Hi & Hmb & Hfix), s as [fs pool lvl rt res rr].
  unfold NextRewardsState, next_recalculation, next_rate in *. cbn in *.
  rewrite Hfix. set (rate := if r =? rr then _ else _) in *.
  match goal with |- (?m ≫= _) = _ =>
    assert (m = Ok (mkRewardsState fs pool lvl rate res
              (if r =? rr then wrap64 (r + proto_RewardsRateRefreshInterval proto) else rr))) as -> end.
  { unfold rate. destruct (Z.eqb_spec r rr); [|done].
    rewrite (proj2 (Z.eqb_neq (proto_RewardsRateRefreshInterval proto) 0)) by lia.
    destruct (proto_PendingResidueRewards proto).
    - rewrite OAdd_spec by done. destruct (Z.ltb_spec (proto_MinBalance proto + res) two64); cbn.
      + rewrite OSub_spec by word.
        by destruct (Z.leb_spec (proto_MinBalance proto + res) bal).
      + rewrite OSub_spec, Z.leb_refl by done. by rewrite Z.sub_diag.
    - rewrite OSub_spec, Z.add_0_r by done.
      rewrite (proj2 (Z.ltb_lt (proto_MinBalance proto) two64)) by word. cbn.
      by destruct (Z.leb_spec (proto_MinBalance proto) bal). }
  cbv [mbind outcome_bind]. cbn. destruct (Z.eqb_spec units 0); cbn; [done|].
  unfold ot_Add. rewrite OAdd_spec by done.
  destruct (Z.ltb_spec (rate + res) two64); cbn.
  - assert (is_u64 ((rate + res) / units)).
    { split; [apply Z.div_pos; word|].
      eapply Z.le_lt_trans; [apply Z.div_le_upper_bound with (q := rate + res)|]; word || (unfold is_u64 in *; nia). }
    rewrite OAdd_spec by done. by destruct (lvl + _ <? two64).
  - destruct (OAdd lvl _) as [? []]; done.
Qed.

(** What a round pays: the reward units in force times the levels gained. *)
Definition paid (s s' : RewardsState) (units : Z) : Z :=
  units * (rs_RewardsLevel s' - rs_RewardsLevel s).

Lemma NextRewardsState_step s r proto bal units :
  rewards_wf s -> rewards_params_wf proto -> is_u64 bal -> is_u64 units ->
  exists s', NextRewardsState s r proto bal units = Ok s' /\
    rewards_wf s' /\ rs_RewardsRate s' = next_rate s r proto bal /\
    rs_RewardsRecalculationRound s' = next_recalculation s r proto /\
    (paid s s' units + rs_RewardsResidue s' = rs_RewardsRate s' + rs_RewardsResidue s \/
     rs_RewardsLevel s' = rs_RewardsLevel s /\ rs_RewardsResidue s' = rs_RewardsResidue s) /\
    rs_RewardsLevel s <= rs_RewardsLevel s'.
Proof.
  intros Hwf Hp Hb Hu. pose proof (next_rate_range s r proto bal Hwf Hp Hb) as Hrate.
  rewrite NextRewardsState_eq by (done || word). cbn. eexists; split; [done|].
  destruct Hwf as (Hl & Hrt & Hrs). unfold paid, rewards_wf. cbn.
  set (total := next_rate s r proto bal + rs_RewardsResidue s).
  destruct (Z.eqb_spec units 0) as [->|Hn]; cbn; [split_and!; auto; lia|].
  destruct (Z.ltb_spec total two64); cbn; [|split_and!; auto; lia].
  destruct (Z.ltb_spec (rs_RewardsLevel s + total / units) two64) as [Hlv|]; cbn;
    [|split_and!; auto; lia].
  assert (0 <= total) by word.
  assert (0 <= total / units) by (apply Z.div_pos; word).
  pose proof (Z.mod_pos_bound total units ltac:(word)).
  pose proof (Z.div_mod total units Hn).
  split_and!; auto; word || (left; lia).
Qed.

(** A run of the schedule: for each block the pool balance and the reward units
    it is computed from; the amount the blocks pay is summed up. *)
Fixpoint rewards_run (s : RewardsState) (r : Round) (proto : ConsensusParams)
    (blocks : list (Z * Z)) : outcome (RewardsState * Z) :=
  match blocks with
  | [] => Ok (s, 0)
  | (bal, units) :: rest =>
      s' ← NextRewardsState s r proto bal units;
      '(s'', p) ← rewards_run s' (wrap64 (r + 1)) proto rest;
      Ok (s'', paid s s' units + p)
  end.

Definition blocks_wf (blocks : list (Z * Z)) : Prop :=
  Forall (fun b => is_u64 b.1 /\ is_u64 b.2) blocks.

(** Between two recalculations every block distributes at most the rate. *)
Lemma rewards_run_between s r proto blocks :
  rewards_wf s -> rewards_params_wf proto -> blocks_wf blocks ->
  0 <= r -> r + llen blocks <= rs_RewardsRecalculationRound s < two64 ->
  exists s' p, rewards_run s r proto blocks = Ok (s', p) /\
    rs_RewardsRecalculationRound s' = rs_RewardsRecalculationRound s /\
    0 <= p /\ 0 <= rs_RewardsResidue s' /\
    p + rs_RewardsResidue s' <= llen blocks * rs_RewardsRate s + rs_RewardsResidue s.
Proof.
  intros Hwf Hp Hbl. revert s r Hwf.
  induction Hbl as [|[bal units] rest [Hb Hu] Hbl IH]; intros s r Hwf Hr Hrr.
  { exists s, 0. cbn. destruct Hwf as (?&?&?). split_and!; auto; unfold llen; cbn; word. }
  unfold llen in *. cbn [length rewards_run] in *. rewrite Nat2Z.inj_succ in *.
  destruct (NextRewardsState_step s r proto bal units) as
    (s1 & -> & Hwf1 & Hrate & Hrec & Hpaid & Hle); [done..|].
  unfold next_rate in Hrate. unfold next_recalculation in Hrec.
  rewrite (proj2 (Z.eqb_neq r (rs_RewardsRecalculationRound s))) in Hrate, Hrec by lia.
  cbv [mbind outcome_bind].
  destruct (IH s1 (wrap64 (r + 1))) as (s2 & p & -> & Hrec2 & Hp0 & Hr0 & Hbound);
    [done | apply wrap64_range | rewrite wrap64_small by word; lia |].
  exists s2, (paid s s1 units + p).
  pose proof Hwf as (?&?&?). unfold paid in *. cbn in Hu.
  split_and!; [done | lia | unfold is_u64 in *; nia | done |].
  destruct Hpaid as [Hpd|[-> Hpd]]; rewrite ?Hrate in *; unfold is_u64 in *; lia.
Qed.

(** C32 (safety): rewards are solvent under the protocols that set
    [RewardsCalculationFix] (a part of [rewards_params_wf]) and
    [PendingResidueRewards], when the balance of the rewards pool at the
    recalculation covers the pool's minimum balance and the residue still owed.
    Then from the block that recalculates the rate and for up to a whole refresh
    interval, however the reward units change, the schedule never panics, and
    everything it pays out together with the residue it still owes is at most
    the balance of the pool at the recalculation less its minimum balance. *)
Theorem rewards_interval_solvent s proto bal units blocks :
  rewards_wf s -> rewards_params_wf proto -> proto_PendingResidueRewards proto = true ->
  is_u64 bal -> is_u64 units -> blocks_wf blocks ->
  proto_MinBalance proto + rs_RewardsResidue s <= bal ->
  0 <= rs_RewardsRecalculationRound s ->
  rs_RewardsRecalculationRound s + proto_RewardsRateRefreshInterval proto < two64 ->
  1 + llen blocks <= proto_RewardsRateRefreshInterval proto ->
  exists s' p,
    rewards_run s (rs_RewardsRecalculationRound s) proto ((bal, units) :: blocks) = Ok (s', p) /\
    0 <= p /\ 0 <= rs_RewardsResidue s' /\
    p + rs_RewardsResidue s' <= bal - proto_MinBalance proto.
Proof.
  intros Hwf Hp Hpr Hb Hu Hbl Hbal Hr0 Hfit Hlen. cbn [rewards_run].
  set (r := rs_RewardsRecalculationRound s) in *.
  destruct (NextRewardsState_step s r proto bal units) as
    (s1 & -> & Hwf1 & Hrate & Hrec & Hpaid & Hle); [done..|].
  unfold next_rate, next_recalculation in *. fold r in Hrate, Hrec. rewrite Z.eqb_refl, ?Hpr in *.
  rewrite (proj2 (Z.ltb_lt _ two64)), (proj2 (Z.leb_le _ bal)) in Hrate by word. cbn in Hrate.
  destruct Hp as (Hi & Hmb & Hfix). rewrite wrap64_small in Hrec by word.
  cbv [mbind outcome_bind].
  destruct (rewards_run_between s1 (wrap64 (r + 1)) proto blocks) as
    (s2 & p & -> & _ & Hp0 & Hres & Hbound); [done|done|done|apply wrap64_range| |].
  { rewrite wrap64_small by word. lia. }
  exists s2, (paid s s1 units + p). pose proof Hwf as (?&?&?).
  pose proof (Z.mul_div_le (bal - (proto_MinBalance proto + rs_RewardsResidue s)) _ Hi).
  assert (0 <= rs_RewardsRate s1) by (destruct Hwf1 as (_&?&_); word).
  unfold paid in *. split_and!; [done | unfold is_u64 in *; nia | done |].
  destruct Hpaid as [Hpd|[-> Hpd]]; rewrite Hrate in *; unfold is_u64 in *; nia.
Qed.

Lemma rewards_interval_solvent_witness :
  let s := mkRewardsState 1 2 0 0 250 500000 in
  exists s' p, rewards_run s 500000 v31 [(1000000000, 7); (999000000, 8); (0, 0)] = Ok (s', p) /\
    0 <= p /\ 0 <= rs_RewardsResidue s' /\ p + rs_RewardsResidue s' <= 999900000.
Proof.
  apply (rewards_interval_solvent (mkRewardsState 1 2 0 0 250 500000) v31 1000000000 7
           [(999000000, 8); (0, 0)]);
    try (split_and!; word || done); try done.
  repeat constructor; done.
Defined.

(** ** Protocol upgrades: the vote as a state machine *)

(** What the upgrade logic needs of an entry of the protocol table. *)
Definition upgrade_entry_ok (p : ConsensusParams) : bool :=
  (0 <? proto_UpgradeVoteRounds p) && (0 <? proto_UpgradeThreshold p) &&
  (proto_UpgradeVoteRounds p <? two32) && (proto_MaxUpgradeWaitRounds p <? two32) &&
  (0 <=? proto_DefaultUpgradeWaitRounds p) && (proto_DefaultUpgradeWaitRounds p <? two32) &&
  map_checkb (fun k d =>
      negb (String.eqb k "") && (slen k <=? proto_MaxVersionStringLen p) &&
      (proto_MinUpgradeWaitRounds p <=? d) && (d <=? proto_MaxUpgradeWaitRounds p) &&
      (0 <=? d) && bool_decide (is_Some (Consensus !! k)))
    (proto_ApprovedUpgrades p).

(** The compiled-in table satisfies it, by computation. *)
Lemma Consensus_upgrade_ok v p : Consensus !! v = Some p -> upgrade_entry_ok p = true.
Proof.
  apply (map_checkb_lookup (fun _ => upgrade_entry_ok)). vm_cast_no_check (eq_refl true).
Qed.

Lemma Consensus_upgrade_bounds v p : Consensus !! v = Some p ->
  0 < proto_UpgradeVoteRounds p < two32 /\ 0 < proto_UpgradeThreshold p /\
  proto_MaxUpgradeWaitRounds p < two32 /\ 0 <= proto_DefaultUpgradeWaitRounds p < two32.
Proof.
  intros H%Consensus_upgrade_ok. unfold upgrade_entry_ok in H. rewrite !andb_true_iff in H.
  destruct_and!. rewrite ?Z.ltb_lt, ?Z.leb_le in *. done.
Qed.

Lemma Consensus_approved_ok v p k d : Consensus !! v = Some p ->
  proto_ApprovedUpgrades p !! k = Some d ->
  k <> "" /\ slen k <= proto_MaxVersionStringLen p /\
  proto_MinUpgradeWaitRounds p <= d <= proto_MaxUpgradeWaitRounds p /\ 0 <= d /\
  is_Some (Consensus !! k).
Proof.
  intros H%Consensus_upgrade_ok Hk. unfold upgrade_entry_ok in H. rewrite !andb_true_iff in H.
  destruct H as [_ H]. apply (map_checkb_lookup _ _ k d) in H; [|done].
  rewrite !andb_true_iff, negb_true_iff, String.eqb_neq, !Z.leb_le, bool_decide_eq_true in H.
  destruct_and!. done.
Qed.

Definition upgrade_idle (s : UpgradeState) : Prop :=
  us_NextProtocol s = "" /\ us_NextProtocolApprovals s = 0 /\
  us_NextProtocolVoteBefore s = 0 /\ us_NextProtocolSwitchOn s = 0.

(** The approving votes of a history (newest block first) back to the block
    that made the latest proposal, and that proposal. *)
Fixpoint approvals_since (votes : list UpgradeVote) : Z :=
  match votes with
  | [] => 0
  | v :: rest =>
      (if uv_UpgradeApprove v then 1 else 0) +
      (if String.eqb (uv_UpgradePropose v) "" then approvals_since rest else 0)
  end.
Fixpoint last_proposal (votes : list UpgradeVote) : string :=
  match votes with
  | [] => ""
  | v :: rest => if String.eqb (uv_UpgradePropose v) "" then last_proposal rest else uv_UpgradePropose v
  end.

Definition upgrade_pending (r : Round) (votes : list UpgradeVote) (s : UpgradeState) : Prop :=
  us_NextProtocol s <> "" /\ us_NextProtocol s = last_proposal votes /\
  us_NextProtocolApprovals s = approvals_since votes /\
  0 <= us_NextProtocolApprovals s <= r + 1 /\ r < us_NextProtocolSwitchOn s /\
  us_NextProtocolVoteBefore s <= us_NextProtocolSwitchOn s /\
  (us_NextProtocolVoteBefore s <= r ->
   exists p, Consensus !! us_CurrentProtocol s = Some p /\
             proto_UpgradeThreshold p <= us_NextProtocolApprovals s).

Definition upgrade_inv (r : Round) (votes : list UpgradeVote) (s : UpgradeState) : Prop :=
  upgrade_idle s \/ upgrade_pending r votes s.

(** The state machine of a chain: each block applies its vote.  Rounds stay
    below [2^62] and a delay is a 64-bit value. *)
Inductive upgrade_reach (s0 : UpgradeState) (r0 : Round)
    : Round -> list UpgradeVote -> UpgradeState -> Prop :=
| reach_start : upgrade_reach s0 r0 r0 [] s0
| reach_block r votes s v s' :
    upgrade_reach s0 r0 r votes s -> r < 2 ^ 62 -> is_u64 (uv_UpgradeDelay v) ->
    applyUpgradeVote s (r + 1) v = Ok s' ->
    upgrade_reach s0 r0 (r + 1) (v :: votes) s'.

(** The state once the proposal and the approval of a vote are recorded, before
    the deadlines are checked. *)
Definition voted (s : UpgradeState) (r : Round) (p : ConsensusParams) (v : UpgradeVote)
    (s' : UpgradeState) : Prop :=
  us_CurrentProtocol s' = us_CurrentProtocol s /\
  (if String.eqb (uv_UpgradePropose v) ""
   then us_NextProtocol s' = us_NextProtocol s /\
        us_NextProtocolVoteBefore s' = us_NextProtocolVoteBefore s /\
        us_NextProtocolSwitchOn s' = us_NextProtocolSwitchOn s /\
        us_NextProtocolApprovals s' =
          wrap64 (us_NextProtocolApprovals s + (if uv_UpgradeApprove v then 1 else 0))
   else us_NextProtocol s = "" /\ us_NextProtocol s' = uv_UpgradePropose v /\
        us_NextProtocolVoteBefore s' = r + proto_UpgradeVoteRounds p /\
        us_NextProtocolVoteBefore s' <= us_NextProtocolSwitchOn s' /\
        us_NextProtocolApprovals s' = (if uv_UpgradeApprove v then 1 else 0)) /\
  (uv_UpgradeApprove v = true -> us_NextProtocol s' <> "" /\ r < us_NextProtocolVoteBefore s').

Definition settle (r : Round) (p : ConsensusParams) (s : UpgradeState) : UpgradeState :=
  let s :=
    if (r =? us_NextProtocolVoteBefore s) && (us_NextProtocolApprovals s <? proto_UpgradeThreshold p)
    then mkUpgradeState (us_CurrentProtocol s) "" 0 0 0 else s in
  if r =? us_NextProtocolSwitchOn s then mkUpgradeState (us_NextProtocol s) "" 0 0 0 else s.

Lemma applyUpgradeVote_split s r v s' :
  0 <= r <= 2 ^ 62 -> is_u64 (uv_UpgradeDelay v) -> is_u64 (us_NextProtocolApprovals s) ->
  applyUpgradeVote s r v = Ok s' ->
  exists p s1, Consensus !! us_CurrentProtocol s = Some p /\ voted s r p v s1 /\ s' = settle r p s1.
Proof.
  intros Hr Hd Ha H. unfold applyUpgradeVote in H.
  destruct (Consensus !! us_CurrentProtocol s) as [p|] eqn:Hp; [|done].
  pose proof (Consensus_upgrade_bounds _ _ Hp) as (Hvr & Hth & Hmx & Hdf).
  apply outcome_bind_Ok in H as (s1 & H1 & H).
  apply outcome_bind_Ok in H as (s2 & H2 & H). injection H as <-.
  exists p, s2. split_and!; [done| |done].
  unfold voted. destruct (String.eqb_spec (uv_UpgradePropose v) "") as [He|He]; cbn in H1; okinv H1.
  - subst s1. destruct (uv_UpgradeApprove v); okinv H2; subst s2; cbn.
    + rewrite String.eqb_neq, Z.leb_gt in *. auto 10.
    + rewrite Z.add_0_r, wrap64_small by done. repeat split; congruence.
  - rewrite negb_false_iff, String.eqb_eq in Ho. rewrite orb_false_iff, Z.ltb_ge, Z.ltb_ge in Ho1.
    assert (exists d, 0 <= d < two32 /\
      s1 = mkUpgradeState (us_CurrentProtocol s) (uv_UpgradePropose v) 0 (r + proto_UpgradeVoteRounds p) 
             (r + proto_UpgradeVoteRounds p + d)) as (d & Hd2 & ->).
    { set (d := if uv_UpgradeDelay v =? 0 then _ else _) in H1. exists d.
      assert (0 <= d < two32) by (subst d; destruct (Z.eqb_spec (uv_UpgradeDelay v) 0); word).
      split; [done|]. subst s1. cbn. rewrite (wrap64_small (r + _)) by word. rewrite wrap64_small by word. done. }
    destruct (uv_UpgradeApprove v); okinv H2; subst s2; cbn in *.
    + rewrite String.eqb_neq, Z.leb_gt in *. split_and!; auto; word.
    + split_and!; auto; word.
Qed.

Lemma upgrade_inv_voted r votes s v p s1 :
  0 <= r < 2 ^ 62 -> Consensus !! us_CurrentProtocol s = Some p ->
  upgrade_inv r votes s -> voted s (r + 1) p v s1 ->
  upgrade_idle s1 \/
  (us_NextProtocol s1 <> "" /\ us_NextProtocol s1 = last_proposal (v :: votes) /\
   us_NextProtocolApprovals s1 = approvals_since (v :: votes) /\
   0 <= us_NextProtocolApprovals s1 <= r + 2 /\ r < us_NextProtocolSwitchOn s1 /\
   us_NextProtocolVoteBefore s1 <= us_NextProtocolSwitchOn s1 /\
   (us_NextProtocolVoteBefore s1 <= r -> proto_UpgradeThreshold p <= us_NextProtocolApprovals s1) /\
   (us_NextProtocolSwitchOn s1 = r + 1 -> us_NextProtocol s1 = us_NextProtocol s)).
Proof.
  intros Hr Hp Hinv (Hcur & Hv & Happ).
  pose proof (Consensus_upgrade_bounds _ _ Hp) as (Hvr & Hth & _).
  cbn [approvals_since last_proposal]. destruct (String.eqb_spec (uv_UpgradePropose v) "") as [He|He].
  - destruct Hv as (Hn & Hvb & Hso & Ha).
    destruct Hinv as [(H1 & H2 & H3 & H4)|(H1 & H2 & H3 & H4 & H5 & H6 & H7)].
    + left. destruct (uv_UpgradeApprove v).
      { destruct (Happ eq_refl) as [Hne _]. congruence. }
      unfold upgrade_idle. rewrite Hn, Hvb, Hso, Ha, H1, H2, H3, H4. repeat split; reflexivity.
    + right. rewrite wrap64_small in Ha by (destruct (uv_UpgradeApprove v); word).
      rewrite Hn, Hvb, Hso. split_and!; try assumption; try (destruct (uv_UpgradeApprove v); lia); [|reflexivity].
      intros Hle. destruct (H7 Hle) as (p' & Hp' & Hle'). simplify_eq. destruct (uv_UpgradeApprove v); lia.
  - destruct Hv as (_ & Hn & Hvb & Hso & Ha). right.
    split_and!; try lia; try (destruct (uv_UpgradeApprove v); lia); congruence.
Qed.

Lemma settle_spec r p s : 
  settle r p s = s /\ r <> us_NextProtocolSwitchOn s /\
    (r = us_NextProtocolVoteBefore s -> proto_UpgradeThreshold p <= us_NextProtocolApprovals s) \/
  upgrade_idle (settle r p s) /\
   (us_CurrentProtocol (settle r p s) = us_CurrentProtocol s \/
    us_CurrentProtocol (settle r p s) = us_NextProtocol s /\ r = us_NextProtocolSwitchOn s /\
    (r = us_NextProtocolVoteBefore s -> proto_UpgradeThreshold p <= us_NextProtocolApprovals s)) \/
  r = 0.
Proof.
  unfold settle, upgrade_idle.
  destruct (Z.eqb_spec r (us_NextProtocolVoteBefore s)),
    (Z.ltb_spec (us_NextProtocolApprovals s) (proto_UpgradeThreshold p)),
    (Z.eqb_spec r (us_NextProtocolSwitchOn s)); cbn -[Z.eqb];
    repeat match goal with |- context [?a =? ?b] => destruct (Z.eqb_spec a b); cbn -[Z.eqb] end;
    try (right; right; lia); try (right; left; tauto); try (left; tauto);
    try (left; split_and!; lia || done).
Qed.

Lemma upgrade_inv_approvals r votes s :
  0 <= r < 2 ^ 62 -> upgrade_inv r votes s -> is_u64 (us_NextProtocolApprovals s).
Proof. intros Hr [(_ & -> & _)|(_ & _ & _ & ? & _)]; word. Qed.

Lemma upgrade_inv_step r votes s v s' :
  0 <= r < 2 ^ 62 -> is_u64 (uv_UpgradeDelay v) -> upgrade_inv r votes s ->
  applyUpgradeVote s (r + 1) v = Ok s' -> upgrade_inv (r + 1) (v :: votes) s'.
Proof.
  intros Hr Hd Hinv H.
  apply applyUpgradeVote_split in H as (p & s1 & Hp & Hv & ->);
    [|lia|done|by eapply upgrade_inv_approvals].
  pose proof (upgrade_inv_voted _ _ _ _ _ _ Hr Hp Hinv Hv) as H1.
  pose proof Hv as [Hc _].
  destruct (settle_spec (r + 1) p s1) as [(-> & Hne & Hth)|[[Hi _]|]]; [|by left|lia].
  destruct H1 as [Hi|(A1 & A2 & A3 & A4 & A5 & A6 & A7 & _)]; [by left|].
  right. unfold upgrade_pending. split_and!; try assumption; try lia.
  intros Hle. exists p. rewrite Hc. split; [done|].
  destruct (Z.eq_dec (r + 1) (us_NextProtocolVoteBefore s1)); [auto|apply A7; lia].
Qed.

Lemma upgrade_reach_inv s0 r0 r votes s :
  0 <= r0 -> upgrade_idle s0 -> upgrade_reach s0 r0 r votes s ->
  r0 <= r /\ upgrade_inv r votes s.
Proof.
  intros H0 Hi H. induction H as [|r votes s v s' H [Hle IH] Hr Hd Hv]; [split; [lia|by left]|].
  split; [lia|]. eapply upgrade_inv_step; eauto. lia.
Qed.

(** C36 (safety): the protocol changes only by quorum.  On a chain that starts
    with no upgrade in progress, a block of a round up to 2^62 can change [CurrentProtocol] only to
    the protocol proposed last, exactly at that proposal's switch round, and
    only when the blocks since the proposal hold at least [UpgradeThreshold] of
    the running protocol approving votes; the upgrade state is then idle. *)
Theorem upgrade_needs_quorum s0 r0 r votes s v s' :
  0 <= r0 -> upgrade_idle s0 -> upgrade_reach s0 r0 r votes s ->
  r < 2 ^ 62 -> is_u64 (uv_UpgradeDelay v) -> applyUpgradeVote s (r + 1) v = Ok s' ->
  us_CurrentProtocol s' <> us_CurrentProtocol s ->
  us_CurrentProtocol s' = last_proposal votes /\ last_proposal votes <> "" /\
  us_NextProtocolSwitchOn s = r + 1 /\ upgrade_idle s' /\
  exists p, Consensus !! us_CurrentProtocol s = Some p /\
            proto_UpgradeThreshold p <= approvals_since (v :: votes).
Proof.
  intros H0 Hi Hreach Hr Hd H Hneq.
  apply upgrade_reach_inv in Hreach as [Hle Hinv]; [|done..].
  apply applyUpgradeVote_split in H as (p & s1 & Hp & Hv & ->);
    [|lia|done|eapply upgrade_inv_approvals; [|done]; lia].
  pose proof (upgrade_inv_voted r votes s v p s1 ltac:(lia) Hp Hinv Hv) as H1.
  pose proof Hv as [Hc Hv'].
  destruct (settle_spec (r + 1) p s1) as [(He & _)|[[Hid [He|(He & Hso & Hth)]]|]];
    [congruence|congruence| |lia].
  destruct H1 as [(_ & _ & _ & Hz)|(A1 & A2 & A3 & A4 & A5 & A6 & A7 & A8)]; [lia|].
  destruct (String.eqb_spec (uv_UpgradePropose v) "") as [Hep|Hep].
  2: { destruct Hv' as [(_ & _ & Hvb & Hle' & _) _].
       pose proof (Consensus_upgrade_bounds _ _ Hp). lia. }
  destruct Hv' as [(Hn & _ & Hso' & _) _].
  assert (us_NextProtocol s1 = last_proposal votes) as Hlp
    by (rewrite A2; cbn [last_proposal]; by rewrite Hep).
  split_and!; [congruence|congruence|congruence|done|].
  exists p. split; [done|]. rewrite <- A3.
  destruct (Z.eq_dec (r + 1) (us_NextProtocolVoteBefore s1)); [auto|apply A7; lia].
Qed.

Definition approveVote : UpgradeVote := mkUpgradeVote "" 0 true.
Definition emptyVote : UpgradeVote := mkUpgradeVote "" 0 false.

Lemma String_eqb_neq' (a b : string) : a <> b -> String.eqb a b = false.
Proof. apply String.eqb_neq. Qed.

Lemma approve_step s r p :
  Consensus !! us_CurrentProtocol s = Some p -> us_NextProtocol s <> "" ->
  r < us_NextProtocolVoteBefore s <= us_NextProtocolSwitchOn s ->
  0 <= us_NextProtocolApprovals s < two64 - 1 ->
  applyUpgradeVote s r approveVote =
    Ok (s <| us_NextProtocolApprovals := us_NextProtocolApprovals s + 1 |>).
Proof.
  intros Hp Hn Hr Ha. unfold applyUpgradeVote. rewrite Hp. destruct s as [cur nxt a vb so]; cbn in *.
  rewrite String_eqb_neq', (proj2 (Z.leb_gt vb r)) by (done || lia). cbn.
  rewrite wrap64_small by word. cbn.
  rewrite (proj2 (Z.eqb_neq r vb)) by lia. cbn. rewrite (proj2 (Z.eqb_neq r so)) by lia. done.
Qed.

Lemma wait_step s r p :
  Consensus !! us_CurrentProtocol s = Some p -> us_NextProtocol s <> "" ->
  r < us_NextProtocolSwitchOn s ->
  (us_NextProtocolVoteBefore s <= r -> proto_UpgradeThreshold p <= us_NextProtocolApprovals s) ->
  applyUpgradeVote s r emptyVote = Ok s.
Proof.
  intros Hp Hn Hr Hth. unfold applyUpgradeVote. rewrite Hp. destruct s as [cur nxt a vb so]; cbn in *.
  destruct (Z.eqb_spec r vb), (Z.ltb_spec a (proto_UpgradeThreshold p)); cbn; try lia;
    rewrite (proj2 (Z.eqb_neq r so)) by lia; done.
Qed.

Lemma switch_step s p :
  Consensus !! us_CurrentProtocol s = Some p -> us_NextProtocol s <> "" ->
  proto_UpgradeThreshold p <= us_NextProtocolApprovals s ->
  applyUpgradeVote s (us_NextProtocolSwitchOn s) emptyVote =
    Ok (mkUpgradeState (us_NextProtocol s) "" 0 0 0).
Proof.
  intros Hp Hn Hth. unfold applyUpgradeVote. rewrite Hp. destruct s as [cur nxt a vb so]; cbn in *.
  rewrite (proj2 (Z.ltb_ge a _)), andb_false_r by done. cbn. by rewrite Z.eqb_refl.
Qed.

Lemma drop_step s p :
  Consensus !! us_CurrentProtocol s = Some p -> us_NextProtocolVoteBefore s <> 0 ->
  us_NextProtocolApprovals s < proto_UpgradeThreshold p ->
  applyUpgradeVote s (us_NextProtocolVoteBefore s) emptyVote =
    Ok (mkUpgradeState (us_CurrentProtocol s) "" 0 0 0).
Proof.
  intros Hp Hz Hth. unfold applyUpgradeVote. rewrite Hp. destruct s as [cur nxt a vb so]; cbn in *.
  rewrite Z.eqb_refl, (proj2 (Z.ltb_lt a _)) by done. cbn. by rewrite (proj2 (Z.eqb_neq vb 0)).
Qed.

(** A block of the voting window approves the proposal or does not. *)
Definition ballot (b : bool) : UpgradeVote := if b then approveVote else emptyVote.
Fixpoint approving (bs : list bool) : Z :=
  match bs with [] => 0 | b :: rest => (if b then 1 else 0) + approving rest end.

Lemma approving_bounds bs : 0 <= approving bs <= llen bs.
Proof. unfold llen. induction bs as [|[] bs IH]; cbn [approving length]; lia. Qed.

Definition proposed (s : UpgradeState) (r : Round) (p : ConsensusParams) (k : string) (d : Round)
    (approvals : Z) : UpgradeState :=
  mkUpgradeState (us_CurrentProtocol s) k approvals (r + proto_UpgradeVoteRounds p)
    (r + proto_UpgradeVoteRounds p + d).

Lemma propose_step s r p k d :
  0 <= r <= 2 ^ 62 -> Consensus !! us_CurrentProtocol s = Some p -> us_NextProtocol s = "" ->
  k <> "" -> slen k <= proto_MaxVersionStringLen p ->
  proto_MinUpgradeWaitRounds p <= d <= proto_MaxUpgradeWaitRounds p -> 0 <= d ->
  applyUpgradeVote s r (mkUpgradeVote k d true) =
    Ok (proposed s r p k (if d =? 0 then proto_DefaultUpgradeWaitRounds p else d) 1).
Proof.
  intros Hr Hp Hn Hk Hlen Hd Hd0. pose proof (Consensus_upgrade_bounds _ _ Hp) as (Hvr & Hth & Hmx & Hdf).
  unfold applyUpgradeVote. rewrite Hp. destruct s as [cur nxt a vb so]; cbn in *. subst nxt.
  rewrite (String_eqb_neq' k ""), (proj2 (Z.ltb_ge _ (slen k))) by done. cbn.
  rewrite (proj2 (Z.ltb_ge _ d)), (proj2 (Z.ltb_ge d _)) by lia. cbn.
  set (w := if d =? 0 then _ else _).
  assert (0 <= w < two32) by (subst w; case_match; word).
  rewrite (wrap64_small (r + _)) by word. rewrite (wrap64_small (_ + w)) by word.
  rewrite (String_eqb_neq' k "") by done. cbn.
  rewrite (proj2 (Z.leb_gt _ r)) by lia. cbn. rewrite (wrap64_small (0 + 1)) by word. cbn.
  rewrite (proj2 (Z.eqb_neq r (_ + _))) by lia. cbn.
  rewrite (proj2 (Z.eqb_neq r (_ + _))) by lia. done.
Qed.

Section runs.
  Context (s0 : UpgradeState) (r0 : Round) (p : ConsensusParams).

Lemma reach_window bs : forall r votes s,
  upgrade_reach s0 r0 r votes s -> Consensus !! us_CurrentProtocol s = Some p ->
  us_NextProtocol s <> "" -> r + llen bs < us_NextProtocolVoteBefore s <= us_NextProtocolSwitchOn s ->
  r + llen bs <= 2 ^ 62 -> 0 <= us_NextProtocolApprovals s -> us_NextProtocolApprovals s + llen bs < two64 ->
  upgrade_reach s0 r0 (r + llen bs) ((ballot <$> bs) ++ votes)
    (s <| us_NextProtocolApprovals := us_NextProtocolApprovals s + approving bs |>).
Proof.
  induction bs as [|b bs IH]; intros r votes s H Hp Hn Hr Hb Ha Hw.
  - destruct s; cbn in *. by rewrite !Z.add_0_r.
  - pose proof (approving_bounds bs).
    assert (llen (b :: bs) = 1 + llen bs) as Hcons by (unfold llen; cbn [length]; lia).
    rewrite Hcons in *. cbn [fmap list_fmap app].
    replace (r + (1 + llen bs)) with ((r + llen bs) + 1) by lia.
    eapply reach_block; [apply IH; eauto; lia|lia|destruct b; cbn; word|].
    destruct b; cbn [ballot approving].
    + rewrite (approve_step _ _ p); cbn; try done; try word. cbv [set_field]; cbn. do 2 f_equal. lia.
    + rewrite (wait_step _ _ p); cbn; try done; try word.
Qed.

Lemma reach_wait n : forall r votes s,
  upgrade_reach s0 r0 r votes s -> Consensus !! us_CurrentProtocol s = Some p ->
  us_NextProtocol s <> "" -> r + Z.of_nat n < us_NextProtocolSwitchOn s -> r + Z.of_nat n <= 2 ^ 62 ->
  proto_UpgradeThreshold p <= us_NextProtocolApprovals s ->
  upgrade_reach s0 r0 (r + Z.of_nat n) (replicate n emptyVote ++ votes) s.
Proof.
  induction n as [|n IH]; intros r votes s H Hp Hn Hr Hb Hth.
  - by rewrite Z.add_0_r.
  - rewrite Nat2Z.inj_succ in *. cbn [replicate app].
    replace (r + Z.succ (Z.of_nat n)) with ((r + Z.of_nat n) + 1) by lia.
    eapply reach_block; [apply IH; eauto; lia|lia|cbn; word|].
    apply (wait_step _ _ p); auto; lia.
Qed.

(** A proposal and the votes of the other blocks of its voting window, in any order. *)
Lemma reach_voted k d (bs : list bool) :
  0 <= r0 -> upgrade_idle s0 -> Consensus !! us_CurrentProtocol s0 = Some p ->
  k <> "" -> slen k <= proto_MaxVersionStringLen p ->
  proto_MinUpgradeWaitRounds p <= d <= proto_MaxUpgradeWaitRounds p -> 0 <= d ->
  1 + llen bs = proto_UpgradeVoteRounds p -> r0 < 2 ^ 62 - 2 ^ 40 ->
  let w := if d =? 0 then proto_DefaultUpgradeWaitRounds p else d in
  upgrade_reach s0 r0 (r0 + proto_UpgradeVoteRounds p)
    ((ballot <$> bs) ++ [mkUpgradeVote k d true])
    (proposed s0 (r0 + 1) p k w (1 + approving bs)).
Proof.
  intros H0 Hi Hp Hk Hlen Hd Hd0 Hbs Hr0 w.
  pose proof (Consensus_upgrade_bounds _ _ Hp) as (Hvr & Hth & Hmx & Hdf).
  assert (0 <= w < two32) by (subst w; case_match; word). unfold two32 in *.
  assert (upgrade_reach s0 r0 (r0 + 1) [mkUpgradeVote k d true] (proposed s0 (r0 + 1) p k w 1)) as H1.
  { change [mkUpgradeVote k d true] with (mkUpgradeVote k d true :: []).
    eapply reach_block; [constructor|lia|cbn; word|].
    apply propose_step; auto; [lia|apply Hi]. }
  apply (reach_window bs) in H1; [|done|done|cbn; lia|lia|cbn; lia|cbn; word].
  replace (r0 + proto_UpgradeVoteRounds p) with (r0 + 1 + llen bs) by lia. exact H1.
Qed.

(** When enough of them approve, it is left alone until the block before its
    switch round. *)
Lemma reach_ready k d (bs : list bool) :
  0 <= r0 -> upgrade_idle s0 -> Consensus !! us_CurrentProtocol s0 = Some p ->
  k <> "" -> slen k <= proto_MaxVersionStringLen p ->
  proto_MinUpgradeWaitRounds p <= d <= proto_MaxUpgradeWaitRounds p -> 0 <= d ->
  1 + llen bs = proto_UpgradeVoteRounds p -> r0 < 2 ^ 62 - 2 ^ 40 ->
  proto_UpgradeThreshold p <= 1 + approving bs ->
  let w := if d =? 0 then proto_DefaultUpgradeWaitRounds p else d in
  upgrade_reach s0 r0 (r0 + proto_UpgradeVoteRounds p + w)
    (replicate (Z.to_nat w) emptyVote ++ (ballot <$> bs) ++ [mkUpgradeVote k d true])
    (proposed s0 (r0 + 1) p k w (1 + approving bs)).
Proof.
  intros H0 Hi Hp Hk Hlen Hd Hd0 Hbs Hr0 Hq w.
  pose proof (Consensus_upgrade_bounds _ _ Hp) as (Hvr & Hth & Hmx & Hdf).
  assert (0 <= w < two32) by (subst w; case_match; word). unfold two32 in *.
  pose proof (reach_voted k d bs H0 Hi Hp Hk Hlen Hd Hd0 Hbs Hr0) as H1. fold w in H1.
  apply (reach_wait (Z.to_nat w)) in H1; [|done|done|cbn; lia|lia|done].
  rewrite Z2Nat.id in H1 by lia. exact H1.
Qed.

End runs.

(** C35 (liveness): an upgrade is decided by the votes of its window.  From an idle
    state below round 2^62 - 2^40, a valid proposal opens a window of
    [UpgradeVoteRounds] blocks, its own included, each of which approves or does
    not, in any order ([bs], newest first).  If the approvals, the proposal's
    included, reach [UpgradeThreshold], then after further blocks without votes
    the chain switches to the proposed protocol, [UpgradeVoteRounds] plus the
    delay rounds after the proposal; otherwise the first block after the window
    drops the proposal and the chain keeps its protocol. *)
Theorem upgrade_completes s0 r0 p k d (bs : list bool) :
  0 <= r0 < 2 ^ 62 - 2 ^ 40 -> upgrade_idle s0 -> Consensus !! us_CurrentProtocol s0 = Some p ->
  k <> "" -> slen k <= proto_MaxVersionStringLen p ->
  proto_MinUpgradeWaitRounds p <= d <= proto_MaxUpgradeWaitRounds p -> 0 <= d ->
  1 + llen bs = proto_UpgradeVoteRounds p ->
  let w := if d =? 0 then proto_DefaultUpgradeWaitRounds p else d in
  let window := (ballot <$> bs) ++ [mkUpgradeVote k d true] in
  if proto_UpgradeThreshold p <=? 1 + approving bs then
    upgrade_reach s0 r0 (r0 + proto_UpgradeVoteRounds p + w + 1)
      (emptyVote :: replicate (Z.to_nat w) emptyVote ++ window) (mkUpgradeState k "" 0 0 0)
  else
    upgrade_reach s0 r0 (r0 + proto_UpgradeVoteRounds p + 1)
      (emptyVote :: window) (mkUpgradeState (us_CurrentProtocol s0) "" 0 0 0).
Proof.
  intros [Hr0 Hr] Hi Hp Hk Hlen Hd Hd0 Hbs w window.
  pose proof (Consensus_upgrade_bounds _ _ Hp) as (Hvr & Hth & Hmx & Hdf).
  assert (0 <= w < two32) by (subst w; case_match; word). unfold two32 in *.
  destruct (Z.leb_spec (proto_UpgradeThreshold p) (1 + approving bs)) as [Hq|Hq].
  - eapply reach_block; [by apply (reach_ready s0 r0 p k d bs)|fold w; lia|cbn; word|].
    fold w. set (s1 := proposed _ _ _ _ _ _).
    replace (r0 + proto_UpgradeVoteRounds p + w + 1) with (us_NextProtocolSwitchOn s1) by (cbn; lia).
    apply (switch_step s1 p); done.
  - eapply reach_block; [by apply (reach_voted s0 r0 p k d bs)|lia|cbn; word|].
    fold w. set (s1 := proposed _ _ _ _ _ _).
    replace (r0 + proto_UpgradeVoteRounds p + 1) with (us_NextProtocolVoteBefore s1) by (cbn; lia).
    apply (drop_step s1 p); [done|cbn; lia|done].
Qed.

Lemma Consensus_V30 : exists p, Consensus !! ConsensusV30 = Some p /\
  proto_UpgradeVoteRounds p = 10000 /\ proto_UpgradeThreshold p = 9000 /\
  proto_MinUpgradeWaitRounds p = 10000 /\ proto_MaxUpgradeWaitRounds p = 150000 /\
  proto_MaxVersionStringLen p = 128.
Proof.
  assert (match Consensus !! ConsensusV30 with
          | Some p => (proto_UpgradeVoteRounds p =? 10000) && (proto_UpgradeThreshold p =? 9000) &&
                      (proto_MinUpgradeWaitRounds p =? 10000) && (proto_MaxUpgradeWaitRounds p =? 150000) &&
                      (proto_MaxVersionStringLen p =? 128)
          | None => false
          end = true) as H by (vm_cast_no_check (eq_refl true)).
  destruct (Consensus !! ConsensusV30) as [p|]; [|discriminate]. exists p.
  rewrite !andb_true_iff, !Z.eqb_eq in H. tauto.
Qed.

Definition idle (v : string) : UpgradeState := mkUpgradeState v "" 0 0 0.

(** A window of 9999 blocks in which three of every 33 do not approve. *)
Definition mixed : list bool :=
  concat (replicate (Z.to_nat 303) (replicate 3 false ++ replicate 30 true)).

Lemma mixed_counts : llen mixed = 9999 /\ approving mixed = 9090.
Proof. split; vm_compute; reflexivity. Qed.

Lemma upgrade_completes_witness :
  upgrade_reach (idle ConsensusV30) 50 150051
    (emptyVote :: replicate (Z.to_nat 140000) emptyVote ++ (ballot <$> mixed) ++
       [mkUpgradeVote ConsensusV31 140000 true])
    (idle ConsensusV31).
Proof.
  destruct Consensus_V30 as (p & Hp & H1 & H2 & H3 & H4 & H5). destruct mixed_counts as [Hl Ha].
  pose proof (upgrade_completes (idle ConsensusV30) 50 p ConsensusV31 140000 mixed) as Hw.
  rewrite H1, H2, H3, H4, H5, Hl, Ha in Hw. cbn [Z.eqb Z.leb Z.compare Pos.compare Pos.compare_cont Z.add Pos.add] in Hw.
  apply Hw; first [assumption | lia | repeat split; reflexivity | discriminate | vm_compute; discriminate].
Defined.

Lemma upgrade_needs_quorum_witness :
  us_CurrentProtocol (idle ConsensusV31) =
    last_proposal (replicate (Z.to_nat 140000) emptyVote ++ (ballot <$> mixed) ++
       [mkUpgradeVote ConsensusV31 140000 true]).
Proof.
  destruct Consensus_V30 as (p & Hp & H1 & H2 & H3 & H4 & H5). destruct mixed_counts as [Hl Ha].
  pose proof (reach_ready (idle ConsensusV30) 50 p ConsensusV31 140000 mixed) as Hreach.
  cbn [Z.eqb] in Hreach. rewrite H1, H2, H3, H4, H5, Hl, Ha in Hreach.
  eapply (upgrade_needs_quorum (idle ConsensusV30) 50 150050 _ _ emptyVote (idle ConsensusV31));
    [lia | repeat split; reflexivity |
     apply Hreach; first [assumption | lia | repeat split; reflexivity | discriminate | vm_compute; discriminate] |
     lia | cbn; word | | ].
  - pose proof (switch_step (proposed (idle ConsensusV30) (50 + 1) p ConsensusV31 140000 (1 + 9090)) p)
      as Hsw. cbn [proposed us_NextProtocolSwitchOn] in Hsw. rewrite H1, H2 in Hsw.
    apply Hsw; [assumption|discriminate|cbn; lia].
  - vm_compute. discriminate.
Defined.

(** A node never builds an invalid upgrade vote.  In every
    upgrade state a chain can reach, with a running protocol the node supports,
    [ProcessUpgradeParams] succeeds on the compiled-in protocol table, and the
    vote it returns is accepted by [applyUpgradeVote] with the state it
    returns. *)
Theorem own_vote_valid prev votes :
  0 <= bh_Round prev < 2 ^ 62 -> upgrade_inv (bh_Round prev) votes (bh_UpgradeState prev) ->
  is_Some (Consensus !! bh_CurrentProtocol prev) ->
  exists v us, ProcessUpgradeParams prev = Ok (v, us) /\
    applyUpgradeVote (bh_UpgradeState prev) (bh_Round prev + 1) v = Ok us /\
    is_u64 (uv_UpgradeDelay v).
Proof.
  intros Hr Hinv [p Hp]. unfold bh_CurrentProtocol in Hp. unfold ProcessUpgradeParams. rewrite Hp.
  rewrite (wrap64_small (bh_Round prev + 1)) by word.
  set (s := bh_UpgradeState prev) in *. set (r := bh_Round prev) in *.
  set (v := if _ <? _ then _ else _).
  assert (is_u64 (uv_UpgradeDelay v) /\ exists us, applyUpgradeVote s (r + 1) v = Ok us)
    as (Hd & us & Hus).
  { destruct Hinv as [(H1 & H2 & H3 & H4)|(H1 & H2 & H3 & H4 & H5 & H6 & H7)].
    - unfold v. rewrite H1, H3. rewrite (proj2 (Z.ltb_ge (r + 1) 0)) by lia. cbn.
      destruct (map_to_list (proto_ApprovedUpgrades p)) as [|[k d] l] eqn:Hl.
      + split; [cbn; word|]. exists s. unfold applyUpgradeVote. rewrite Hp. cbn.
        rewrite H3, (proj2 (Z.eqb_neq (r + 1) 0)) by lia. cbn.
        rewrite H4, (proj2 (Z.eqb_neq (r + 1) 0)) by lia. done.
      + assert (proto_ApprovedUpgrades p !! k = Some d) as Hk
          by (apply elem_of_map_to_list; rewrite Hl; set_solver).
        destruct (Consensus_approved_ok _ _ _ _ Hp Hk) as (? & ? & ? & ? & _).
        pose proof (Consensus_upgrade_bounds _ _ Hp). cbn.
        split; [word|]. eexists. apply propose_step; eauto. lia.
    - unfold v. rewrite (String_eqb_neq' _ "") by done. cbn -[Z.ltb].
      destruct (Z.ltb_spec (r + 1) (us_NextProtocolVoteBefore s)); cbn -[applyUpgradeVote].
      + split; [word|]. case_bool_decide; eexists;
          [apply (approve_step _ _ p)|apply (wait_step _ _ p)]; eauto; try lia; word.
      + split; [word|]. unfold applyUpgradeVote. rewrite Hp. cbn.
        repeat case_match; eexists; done. }
  rewrite Hus. eauto.
Qed.

Definition sample_header : BlockHeader :=
  mkBlockHeader 1000 11 12 13 1600000000 "novanet" 77 (mkRewardsState 1 2 0 0 0 500000)
    (idle ConsensusV30) emptyVote 0 ∅ [].

Lemma own_vote_valid_witness :
  exists v us, ProcessUpgradeParams sample_header = Ok (v, us) /\
    applyUpgradeVote (idle ConsensusV30) 1001 v = Ok us /\ is_u64 (uv_UpgradeDelay v).
Proof.
  apply (own_vote_valid sample_header []);
    [cbn; lia | left; repeat split; reflexivity | eexists; vm_compute; reflexivity].
Defined.

(** A block made by [MakeBlock] passes the header checks every
    node runs against its predecessor, [PreCheck], and its payset matches its
    root, whenever the predecessor carries the genesis identifiers the new
    protocol asks for and its clock is far from the end of time. *)
Theorem MakeBlock_PreCheck Hash CommitFlat TxnMerkleRoot now prev blk p :
  MakeBlock Hash CommitFlat TxnMerkleRoot now prev = Ok blk ->
  Consensus !! bh_CurrentProtocol (blk_Header blk) = Some p ->
  bh_GenesisID prev <> "" ->
  (proto_SupportGenesisHash p = true <-> bh_GenesisHash prev <> 0) ->
  0 <= proto_MaxTimestampIncrement p ->
  bh_TimeStamp prev + proto_MaxTimestampIncrement p < 9223372036854775808 ->
  PreCheck Hash (blk_Header blk) prev = Ok tt /\
  (isOk (PaysetCommit CommitFlat TxnMerkleRoot blk) = true ->
   ContentsMatchHeader CommitFlat TxnMerkleRoot blk = true).
Proof.
  intros H Hp Hid Hgh Hinc Hts. unfold MakeBlock in H.
  destruct (ProcessUpgradeParams prev) as [[v us]| |] eqn:Hup; try discriminate.
  destruct (Consensus !! us_CurrentProtocol us) as [params|] eqn:Hc; [|discriminate].
  injection H as H. 
  assert (us_CurrentProtocol us = bh_CurrentProtocol (blk_Header blk)) as Hcur by (by subst blk).
  rewrite Hcur, Hp in Hc. injection Hc as <-.
  assert (applyUpgradeVote (bh_UpgradeState prev) (wrap64 (bh_Round prev + 1)) v = Ok us) as Hvote.
  { unfold ProcessUpgradeParams in Hup. destruct (Consensus !! _); [|discriminate].
    destruct (applyUpgradeVote _ _ _) eqn:E in Hup; [|discriminate..]. injection Hup as <- <-. exact E. }
  split.
  - unfold PreCheck. rewrite Hp. subst blk. cbn -[swrap64]. rewrite !Z.eqb_refl. cbn -[swrap64].
    rewrite Hvote. cbn -[swrap64]. rewrite bool_decide_true by done. cbn -[swrap64].
    rewrite (String_eqb_neq' _ "") by done. rewrite String.eqb_refl. cbn -[swrap64].
    rewrite andb_false_r.
    match goal with |- (?m ≫= _) = _ => assert (m = Ok tt) as -> end.
    { destruct (Z.ltb_spec 0 (bh_TimeStamp prev)); [|done].
      assert (swrap64 (bh_TimeStamp prev + proto_MaxTimestampIncrement p) =
              bh_TimeStamp prev + proto_MaxTimestampIncrement p) as ->.
      { unfold swrap64. rewrite Z.mod_small; word. }
      set (ts := if now <? _ then _ else _).
      assert (bh_TimeStamp prev <= ts <= bh_TimeStamp prev + proto_MaxTimestampIncrement p)
        by (subst ts; destruct (Z.ltb_spec now (bh_TimeStamp prev)); [lia|];
            destruct (Z.ltb_spec (bh_TimeStamp prev + proto_MaxTimestampIncrement p) now); lia).
      rewrite !(proj2 (Z.ltb_ge _ _)) by lia. done. }
    cbn. destruct (proto_SupportGenesisHash p), (Z.eqb_spec (bh_GenesisHash prev) 0) as [E|E]; cbn;
      rewrite ?Z.eqb_refl; try done; exfalso; naive_solver.
  - unfold ContentsMatchHeader, PaysetCommit. intros Hok. rewrite Hp in *.
    destruct (paysetCommit _ _ _ _) as [d| |] eqn:Hpc; [|discriminate..].
    subst blk. unfold bh_CurrentProtocol in Hp. cbn -[swrap64] in *.
    unfold PaysetCommit, bh_CurrentProtocol. cbn -[swrap64].
    rewrite Hp, Hpc. apply Z.eqb_refl.
Qed.

Lemma MakeBlock_PreCheck_witness :
  exists blk, MakeBlock (fun _ => 5) (fun _ => 6) (fun _ => Ok 7) 1600000100 sample_header = Ok blk /\
    PreCheck (fun _ => 5) (blk_Header blk) sample_header = Ok tt.
Proof.
  eexists. split; [vm_compute; reflexivity|].
  eapply (MakeBlock_PreCheck (fun _ => 5) (fun _ => 6) (fun _ => Ok 7) 1600000100 sample_header);
    [vm_compute; reflexivity | vm_compute; reflexivity | discriminate |
     split; [discriminate | reflexivity] | discriminate | reflexivity].
Defined.

(** ** Encoding of transactions in blocks *)

(** A signed transaction accepted by [EncodeSignedTxn] decodes to
    itself from the block, with its apply data when the protocol stores it; and
    the encoding never repeats the genesis id or hash of the block. *)
Theorem encode_decode_SignedTxn bh st ad stib p :
  Consensus !! bh_CurrentProtocol bh = Some p ->
  EncodeSignedTxn bh st ad = Ok stib ->
  DecodeSignedTxn bh stib =
    Ok (st, if proto_SupportSignedTxnInBlock p then ad else ApplyData_zero) /\
  (proto_SupportSignedTxnInBlock p = true ->
   let h := tx_Header (stx_Txn (stib_SignedTxn stib)) in
   hdr_GenesisID h = "" /\ hdr_GenesisHash h = 0).
Proof.
  intros Hp H. unfold EncodeSignedTxn, DecodeSignedTxn in *. rewrite Hp in *.
  destruct (proto_SupportSignedTxnInBlock p) eqn:Hs; cbn [negb] in *;
    [|injection H as <-; split; [done|discriminate]].
  destruct st as [sig msig lsig [ty hdr kr pay ac ax af apc cc adp] auth], hdr as [snd fee fv lv nt gid gh grp ls rk].
  cbn in H.
  okinv H. subst stib. cbn. rename h into h1, b into hasID, h0 into h2, b0 into hasHash.
  assert (h1 = mkHeader snd fee fv lv nt "" gh grp ls rk /\
          gid = if hasID then bh_GenesisID bh else "") as [-> Hgid].
  { destruct (String.eqb_spec gid ""), (String.eqb_spec gid (bh_GenesisID bh)); cbn in Ho; okinv Ho;
      try discriminate; simplify_eq; split; reflexivity || assumption. }
  assert (h2 = mkHeader snd fee fv lv nt "" 0 grp ls rk /\
          (if proto_RequireGenesisHash p then hasHash = false /\ gh = bh_GenesisHash bh
           else gh = if hasHash then bh_GenesisHash bh else 0)) as [-> Hgh].
  { cbn in Ho0. destruct (Z.eqb_spec gh 0), (Z.eqb_spec gh (bh_GenesisHash bh)),
      (proto_RequireGenesisHash p); cbn in Ho0; okinv Ho0; try discriminate; simplify_eq; auto. }
  cbn. split; [|done].
  destruct hasID; cbn; (destruct (proto_RequireGenesisHash p); [destruct Hgh as [-> ->]|destruct hasHash]);
    cbn; cbv [set_field]; cbn; congruence.
Qed.

Definition sample_stx (grp : Digest) (fee : Z) : SignedTxn :=
  mkSignedTxn 1 MultisigSig_zero LogicSig_zero
    (mkTransaction PaymentTx (mkHeader 9 fee 1 100 "" "novanet" 77 grp 0 0) KeyregTxnFields_zero
       (mkPaymentTxnFields 10 5 0) AssetConfigTxnFields_zero AssetTransferTxnFields_zero
       AssetFreezeTxnFields_zero ApplicationCallTxnFields_zero CompactCertTxnFields_zero
       AddressPrintTxnFields_zero) 0.

Lemma encode_decode_SignedTxn_witness :
  exists stib ad, EncodeSignedTxn sample_header (sample_stx 0 1000) ApplyData_zero = Ok stib /\
    DecodeSignedTxn sample_header stib = Ok (sample_stx 0 1000, ad).
Proof.
  eexists _, _. split; [vm_compute; reflexivity|].
  eapply (encode_decode_SignedTxn sample_header (sample_stx 0 1000) ApplyData_zero);
    vm_compute; reflexivity.
Defined.

Section group_partition.
  Context {A : Type} (group : A -> Digest).

(** A group of a block: one transaction, or several that share a group id. *)
Definition uniform (g : list A) : Prop :=
  match g with
  | [] => False
  | x :: rest => rest = [] \/ group x <> 0 /\ Forall (fun y => group y = group x) rest
  end.

(** Two consecutive groups are told apart by their ids. *)
Definition apart (g h : list A) : Prop :=
  match g, h with
  | x :: _, y :: _ => group x <> group y \/ group x = 0
  | _, _ => True
  end.

Fixpoint partition_ok (gs : list (list A)) : Prop :=
  match gs with
  | [] => True
  | g :: rest =>
      uniform g /\ match rest with h :: _ => apart g h | [] => True end /\ partition_ok rest
  end.

Definition starts (x : A) (gs : list (list A)) : Prop :=
  match gs with (y :: _) :: _ => y = x | _ => False end.

(** Collecting goes on while the id of the open group repeats. *)
Lemma groups_from_sound txns : forall g,
  uniform g ->
  exists gs, groups_from group g txns = gs /\ concat gs = g ++ txns /\ partition_ok gs /\
    match g with x :: _ => starts x gs | [] => True end.
Proof.
  induction txns as [|t txns IH]; intros g Hg; eexists; (split; [reflexivity|]).
  - destruct g as [|x g]; [done|]. cbn. rewrite !app_nil_r. auto.
  - destruct g as [|x g]; [done|]. cbn [groups_from].
    destruct (Z.eqb_spec (group x) (group t)) as [E|E], (Z.eqb_spec (group x) 0) as [E0|E0]; cbn;
      try (destruct (IH [t] ltac:(by left)) as (gs & -> & Hc & Hp & Hst);
           split_and!; [by rewrite Hc | done | | done | done];
           destruct gs as [|[|y ?] ?]; try done; cbn in Hst; subst; cbn; auto).
    destruct (IH ((x :: g) ++ [t])) as (gs & Heq & Hc & Hp & Hst).
    { right. split; [done|]. apply Forall_app. destruct Hg as [->|[_ ?]]; auto. }
    cbn in Heq. rewrite Heq. split_and!; [|done|done]. rewrite Hc. by rewrite <- app_assoc.
Qed.

(** A uniform group is collected whole. *)
Lemma groups_from_collect g' : forall g rest, g <> [] -> uniform (g ++ g') ->
  groups_from group g (g' ++ rest) = groups_from group (g ++ g') rest.
Proof.
  induction g' as [|t g' IH]; intros g rest Hne Hu; [by rewrite app_nil_r|].
  destruct g as [|x g]; [done|]. cbn [app groups_from].
  destruct Hu as [Hu|[H0 Hu]]; [by destruct g|].
  apply Forall_app in Hu as [? [Ht ?]%Forall_cons].
  rewrite (proj2 (Z.eqb_eq (group x) (group t))), (proj2 (Z.eqb_neq (group x) 0)) by done. cbn.
  change (x :: g ++ [t]) with ((x :: g) ++ [t]). rewrite IH.
  - f_equal. cbn. by rewrite <- app_assoc.
  - done.
  - right. split; [done|]. rewrite !Forall_app. auto.
Qed.

Lemma groups_from_complete gs : partition_ok gs -> groups_from group [] (concat gs) = gs.
Proof.
  destruct gs as [|[|x g] gs]; [done|intros [[] _]|]. cbn [concat app groups_from]. intros Hp.
  rewrite groups_from_collect by (done || apply Hp). cbn [app].
  revert x g Hp. induction gs as [|[|y h] gs IH]; intros x g (Hu & Hap & Hp); [done|by destruct Hp as [[] _]|].
  cbn [app concat groups_from].
  assert (negb (group x =? group y) || (group x =? 0) = true) as ->
    by (cbn in Hap; destruct (Z.eqb_spec (group x) (group y)), (Z.eqb_spec (group x) 0); tauto).
  f_equal. rewrite groups_from_collect by (done || apply Hp). by apply IH.
Qed.

Lemma groups_from_iff txns gs :
  groups_from group [] txns = gs <-> concat gs = txns /\ partition_ok gs.
Proof.
  split; [intros <-|intros [<- ?]; by apply groups_from_complete].
  destruct txns as [|t txns]; [done|]. cbn [groups_from].
  destruct (groups_from_sound txns [t]) as (gs & -> & Hc & Hp & _); [by left|auto].
Qed.

End group_partition.

(** The split of a payset into groups, for the evaluator
    ([SignedTxnsToGroups]) and for a decoded block ([DecodePaysetGroups]), is the
    one and only partition of the sequence into runs that are single
    transactions or share a non-zero group id, with neighbouring runs told apart
    by their id. *)
Theorem groups_are_the_partition txns gs block stads ggs :
  (SignedTxnsToGroups txns = gs <->
     SignedTxnGroupsFlatten gs = txns /\ partition_ok stx_group gs) /\
  (DecodePaysetFlat block = Ok stads ->
   DecodePaysetGroups block = Ok ggs <->
     concat ggs = stads /\ partition_ok (fun t => stx_group (stad_SignedTxn t)) ggs).
Proof.
  split; [apply groups_from_iff|]. intros H. unfold DecodePaysetGroups.
  unfold DecodePaysetFlat in H. rewrite H. cbv [mbind outcome_bind].
  rewrite <- groups_from_iff. naive_solver.
Qed.

Lemma groups_are_the_partition_witness :
  SignedTxnGroupsFlatten [[sample_stx 4 1; sample_stx 4 2]; [sample_stx 0 3]; [sample_stx 0 4]] =
    [sample_stx 4 1; sample_stx 4 2; sample_stx 0 3; sample_stx 0 4] /\
  DecodePaysetGroups (mkBlock sample_header []) = Ok [].
Proof.
  split.
  - apply (groups_are_the_partition _ _ (mkBlock sample_header []) [] []). reflexivity.
  - apply (groups_are_the_partition [] [] (mkBlock sample_header []) [] []); [reflexivity|by split].
Defined.
