(* ===== verification/StateDelta.v ===== *)
(** [src/ledger/ledgercore/statedelta.go] and [totals.go]: the changes a block
    makes, the ordered table of modified accounts with its index cache, and the
    totals of money and reward units by account status.

    The table of modified accounts refines a finite map ([accts_map]); the totals
    are related to the exact sums over the accounts in [Totals]. *)
From S2P Require Import Prelude Config Basics Transactions Bookkeeping.
#[local] Open Scope string_scope.
#[local] Open Scope list_scope.
#[local] Open Scope Z_scope.

Record ModifiedCreatable : Type := mkModifiedCreatable {
  mc_Ctype : CreatableType; mc_Created : bool; mc_Creator : Address; mc_Ndeltas : Z }.

Notation Txid := Z (only parsing).
(** A [Txlease] is a sender with a lease, an [AccountAsset] or [AccountApp] an
    address with an index. *)
Notation Txlease := (Z * Z)%type (only parsing).
Notation AccountAsset := (Z * Z)%type (only parsing).
Notation AccountApp := (Z * Z)%type (only parsing).

Record BalanceRecord : Type := mkBalanceRecord { br_Addr : Address; br_AccountData : AccountData }.

(** ** Modified accounts *)

Record AccountDeltas : Type := mkAccountDeltas {
  accts : list BalanceRecord; acctsCache : gmap Z nat }.

Definition AccountDeltas_zero : AccountDeltas := mkAccountDeltas [] ∅.

(** An index out of range panics. *)
Definition Get (ad : AccountDeltas) (addr : Address) : outcome (option AccountData) :=
  match acctsCache ad !! addr with
  | None => Ok None
  | Some idx =>
      match accts ad !! idx with
      | Some br => Ok (Some (br_AccountData br))
      | None => Panic
      end
  end.

Definition ModifiedAccounts (ad : AccountDeltas) : list Address := map br_Addr (accts ad).

Definition Len (ad : AccountDeltas) : Z := llen (accts ad).

Definition GetByIdx (ad : AccountDeltas) (i : nat) : outcome (Address * AccountData) :=
  match accts ad !! i with
  | Some br => Ok (br_Addr br, br_AccountData br)
  | None => Panic
  end.

Definition upsert (ad : AccountDeltas) (br : BalanceRecord) : outcome AccountDeltas :=
  match acctsCache ad !! br_Addr br with
  | Some idx =>
      if bool_decide (idx < length (accts ad))%nat
      then Ok (mkAccountDeltas (<[idx := br]> (accts ad)) (acctsCache ad))
      else Panic
  | None =>
      Ok (mkAccountDeltas (accts ad ++ [br])
            (<[br_Addr br := length (accts ad)]> (acctsCache ad)))
  end.

Definition Upsert (ad : AccountDeltas) (addr : Address) (data : AccountData) : outcome AccountDeltas :=
  upsert ad (mkBalanceRecord addr data).

Fixpoint upsert_all (ad : AccountDeltas) (brs : list BalanceRecord) : outcome AccountDeltas :=
  match brs with
  | [] => Ok ad
  | br :: rest => ad' ← upsert ad br; upsert_all ad' rest
  end.

Definition MergeAccounts (ad other : AccountDeltas) : outcome AccountDeltas :=
  upsert_all ad (accts other).

(** ** Totals *)

Record AlgoCount : Type := mkAlgoCount { ac_Money : Z; ac_RewardUnits : Z }.

Record AccountTotals : Type := mkAccountTotals {
  at_Online : AlgoCount;
  at_Offline : AlgoCount;
  at_NotParticipating : AlgoCount;
  at_RewardsLevel : Z }.
#[export] Instance Eta_AccountTotals : Eta AccountTotals := fun r =>
  mkAccountTotals (at_Online r) (at_Offline r) (at_NotParticipating r) (at_RewardsLevel r).

Definition AccountTotals_zero : AccountTotals :=
  mkAccountTotals (mkAlgoCount 0 0) (mkAlgoCount 0 0) (mkAlgoCount 0 0) 0.

Definition statusField (status : Status) (at_ : AccountTotals) : AlgoCount :=
  match status with
  | Online => at_Online at_
  | Offline => at_Offline at_
  | NotParticipating => at_NotParticipating at_
  end.

(** Writing through the pointer [statusField] returns. *)
Definition setStatusField (status : Status) (c : AlgoCount) (at_ : AccountTotals) : AccountTotals :=
  match status with
  | Online => at_ <| at_Online := c |>
  | Offline => at_ <| at_Offline := c |>
  | NotParticipating => at_ <| at_NotParticipating := c |>
  end.

Definition AlgoCount_applyRewards (ac : AlgoCount) (rewardsPerUnit : Z) (ot : OverflowTracker)
    : AlgoCount * OverflowTracker :=
  let '(gotten, ot) := ot_Mul ot (ac_RewardUnits ac) rewardsPerUnit in
  let '(money, ot) := ot_AddA ot (ac_Money ac) gotten in
  (mkAlgoCount money (ac_RewardUnits ac), ot).

Definition AddAccount (proto : ConsensusParams) (data : AccountData) (at_ : AccountTotals)
    (ot : OverflowTracker) : outcome (AccountTotals * OverflowTracker) :=
  let sum := statusField (acct_Status data) at_ in
  '(algos, _) ← Money proto (at_RewardsLevel at_) data;
  let '(money, ot) := ot_AddA ot (ac_Money sum) algos in
  units ← RewardUnits proto (acct_MicroNovas data);
  let '(ru, ot) := ot_Add ot (ac_RewardUnits sum) units in
  Ok (setStatusField (acct_Status data) (mkAlgoCount money ru) at_, ot).

Definition DelAccount (proto : ConsensusParams) (data : AccountData) (at_ : AccountTotals)
    (ot : OverflowTracker) : outcome (AccountTotals * OverflowTracker) :=
  let sum := statusField (acct_Status data) at_ in
  '(algos, _) ← Money proto (at_RewardsLevel at_) data;
  let '(money, ot) := ot_SubA ot (ac_Money sum) algos in
  units ← RewardUnits proto (acct_MicroNovas data);
  let '(ru, ot) := ot_Sub ot (ac_RewardUnits sum) units in
  Ok (setStatusField (acct_Status data) (mkAlgoCount money ru) at_, ot).

Definition ApplyRewards (rewardsLevel : Z) (at_ : AccountTotals) (ot : OverflowTracker)
    : AccountTotals * OverflowTracker :=
  let '(rewardsPerUnit, ot) := ot_Sub ot rewardsLevel (at_RewardsLevel at_) in
  let '(online, ot) := AlgoCount_applyRewards (at_Online at_) rewardsPerUnit ot in
  let '(offline, ot) := AlgoCount_applyRewards (at_Offline at_) rewardsPerUnit ot in
  (mkAccountTotals online offline (at_NotParticipating at_) rewardsLevel, ot).

Definition Participating (at_ : AccountTotals) : outcome Z :=
  let '(res, overflowed) := OAddA (ac_Money (at_Online at_)) (ac_Money (at_Offline at_)) in
  if overflowed then Panic else Ok res.

Definition All (at_ : AccountTotals) : outcome Z :=
  participating ← Participating at_;
  let '(res, overflowed) := OAddA (ac_Money (at_NotParticipating at_)) participating in
  if overflowed then Panic else Ok res.

Definition Totals_RewardUnits (at_ : AccountTotals) : outcome Z :=
  let '(res, overflowed) := OAdd (ac_RewardUnits (at_Online at_)) (ac_RewardUnits (at_Offline at_)) in
  if overflowed then Panic else Ok res.

(** ** State deltas *)

Record LedgerStateDelta : Type := mkLedgerStateDelta {
  sd_Accts : AccountDeltas;
  sd_Txids : gmap Z Round;
  sd_Txleases : gmap Txlease Round;
  sd_Creatables : gmap Z ModifiedCreatable;
  sd_Hdr : BlockHeader;
  sd_CompactCertNext : Round;
  sd_PrevTimestamp : Z;
  sd_ModifiedAssetHoldings : gmap AccountAsset bool;
  sd_ModifiedAppLocalStates : gmap AccountApp bool;
  sd_initialTransactionsCount : Z;
  sd_Totals : AccountTotals }.
#[export] Instance Eta_LedgerStateDelta : Eta LedgerStateDelta := fun r =>
  mkLedgerStateDelta (sd_Accts r) (sd_Txids r) (sd_Txleases r) (sd_Creatables r) (sd_Hdr r)
    (sd_CompactCertNext r) (sd_PrevTimestamp r) (sd_ModifiedAssetHoldings r)
    (sd_ModifiedAppLocalStates r) (sd_initialTransactionsCount r) (sd_Totals r).

Definition MakeStateDelta (hdr : BlockHeader) (prevTimestamp hint : Z) (compactCertNext : Round)
    : LedgerStateDelta :=
  mkLedgerStateDelta AccountDeltas_zero ∅ ∅ ∅ hdr compactCertNext prevTimestamp ∅ ∅ hint
    AccountTotals_zero.

(** The reallocations copy maps entry by entry; the account array is copied into
    one as long as the index cache.  Whether that one is taken depends on the
    array's capacity, which a value does not have: [shrink]. *)
Definition OptimizeAllocatedMemory (shrink : bool) (sd : LedgerStateDelta) : LedgerStateDelta :=
  if shrink then
    let n := size (acctsCache (sd_Accts sd)) in
    sd <| sd_Accts :=
            mkAccountDeltas
              (take n (accts (sd_Accts sd) ++ replicate n (mkBalanceRecord 0 AccountData_zero)))
              (acctsCache (sd_Accts sd)) |>
  else sd.

(** ** The account table refines a finite map *)

Definition br_pair (br : BalanceRecord) : Z * AccountData := (br_Addr br, br_AccountData br).

(** The abstract value: a finite map from addresses to account data. *)
Definition accts_map (ad : AccountDeltas) : gmap Z AccountData :=
  list_to_map (map br_pair (accts ad)).

(** The cache maps exactly the addresses of the table to their positions. *)
Definition accts_wf (ad : AccountDeltas) : Prop :=
  NoDup (ModifiedAccounts ad) /\
  forall addr i, acctsCache ad !! addr = Some i <-> ModifiedAccounts ad !! i = Some addr.

Lemma accts_zero_wf : accts_wf AccountDeltas_zero.
Proof. split; [constructor|]. intros addr i. cbn. rewrite lookup_empty. done. Qed.

Lemma fst_br_pairs ad : (map br_pair (accts ad)).*1 = ModifiedAccounts ad.
Proof. unfold ModifiedAccounts. induction (accts ad); cbn; by f_equal. Qed.

Lemma accts_map_lookup ad addr d : accts_wf ad ->
  accts_map ad !! addr = Some d <->
  exists i br, accts ad !! i = Some br /\ br_Addr br = addr /\ br_AccountData br = d.
Proof.
  intros [Hnd _]. unfold accts_map. rewrite <- elem_of_list_to_map by (by rewrite fst_br_pairs).
  rewrite list_elem_of_lookup. setoid_rewrite list_lookup_fmap. split.
  - intros [i Hi]. destruct (accts ad !! i) as [br|] eqn:E; [|done]. cbn in Hi.
    injection Hi as <- <-. eauto.
  - intros (i & [a d'] & Hi & <- & <-). exists i. by rewrite Hi.
Qed.

Lemma accts_map_None ad addr : accts_map ad !! addr = None <-> addr ∉ ModifiedAccounts ad.
Proof.
  unfold accts_map. rewrite <- fst_br_pairs. symmetry. apply not_elem_of_list_to_map.
Qed.

Lemma Get_spec ad addr : accts_wf ad -> Get ad addr = Ok (accts_map ad !! addr).
Proof.
  intros Hwf. pose proof Hwf as [Hnd Hc]. unfold Get.
  destruct (acctsCache ad !! addr) as [i|] eqn:E.
  - apply Hc in E as E'. unfold ModifiedAccounts in E'. rewrite list_lookup_fmap in E'.
    destruct (accts ad !! i) as [br|] eqn:Ei; [|done]. injection E' as E'. f_equal. symmetry.
    apply accts_map_lookup; eauto.
  - f_equal. symmetry. apply accts_map_None. intros [i Hi]%list_elem_of_lookup.
    apply Hc in Hi. congruence.
Qed.

(** What [Upsert] does to the abstract map and to the order of the table. *)
Definition upserted (ad : AccountDeltas) (addr : Address) (d : AccountData) (ad' : AccountDeltas) : Prop :=
  accts_wf ad' /\ accts_map ad' = <[addr := d]> (accts_map ad) /\
  ModifiedAccounts ad' =
    (if bool_decide (addr ∈ ModifiedAccounts ad) then ModifiedAccounts ad
     else ModifiedAccounts ad ++ [addr]).

(** The address is in the table: its record is replaced in place. *)
Lemma upserted_hit ad addr d i : accts_wf ad -> acctsCache ad !! addr = Some i ->
  upserted ad addr d
    (mkAccountDeltas (<[i := mkBalanceRecord addr d]> (accts ad)) (acctsCache ad)).
Proof.
  intros Hwf E. pose proof Hwf as [Hnd Hc]. apply Hc in E as E'.
  pose proof E' as Hin%list_elem_of_lookup_2. set (ad' := mkAccountDeltas _ _).
  unfold ModifiedAccounts in E'. rewrite list_lookup_fmap in E'.
  destruct (accts ad !! i) as [br0|] eqn:E0; [|done]. injection E' as E'.
  assert (ModifiedAccounts ad' = ModifiedAccounts ad) as HM.
  { unfold ModifiedAccounts, ad'. cbn. rewrite list_fmap_insert. apply list_insert_id.
    rewrite list_lookup_fmap, E0. cbn. congruence. }
  assert (accts_wf ad') as Hwf' by (split; rewrite HM; done).
  unfold upserted. rewrite HM, bool_decide_true by done. split_and!; try done.
  apply map_eq. intros a. apply option_eq. intros x. rewrite accts_map_lookup by done.
  pose proof (lookup_lt_Some _ _ _ E0) as Hlt. unfold ad'; cbn.
  destruct (decide (a = addr)) as [->|Hne].
  - rewrite lookup_insert_eq. split.
    + intros (j & br & Hj & Hb & <-). destruct (decide (i = j)) as [->|Hij].
      * rewrite list_lookup_insert_eq in Hj by done. by injection Hj as <-.
      * rewrite list_lookup_insert_ne in Hj by done. destruct Hij.
        apply (NoDup_lookup _ _ _ addr Hnd); unfold ModifiedAccounts; rewrite list_lookup_fmap;
          [by rewrite E0; cbn; f_equal|by rewrite Hj; cbn; f_equal].
    + intros [= <-]. exists i, (mkBalanceRecord addr d). by rewrite list_lookup_insert_eq.
  - rewrite lookup_insert_ne, accts_map_lookup by done.
    split; intros (j & br & Hj & Hb & Hd); exists j, br; (split; [|done]).
    + destruct (decide (i = j)) as [->|]; [|by rewrite list_lookup_insert_ne in Hj].
      rewrite list_lookup_insert_eq in Hj by done. injection Hj as <-. cbn in *. congruence.
    + rewrite list_lookup_insert_ne; [done|]. intros ->. congruence.
Qed.

(** A new address is appended. *)
Lemma upserted_miss ad addr d : accts_wf ad -> acctsCache ad !! addr = None ->
  upserted ad addr d
    (mkAccountDeltas (accts ad ++ [mkBalanceRecord addr d])
       (<[addr := length (accts ad)]> (acctsCache ad))).
Proof.
  intros [Hnd Hc] E. set (ad' := mkAccountDeltas _ _).
  assert (addr ∉ ModifiedAccounts ad) as Hnin
    by (intros [i Hi]%list_elem_of_lookup; apply Hc in Hi; congruence).
  assert (ModifiedAccounts ad' = ModifiedAccounts ad ++ [addr]) as HM
    by (unfold ModifiedAccounts, ad'; cbn; by rewrite map_app).
  unfold upserted. rewrite HM, bool_decide_false by done. split_and!; [split| |done].
  - rewrite HM. apply NoDup_app. split_and!; [done|set_solver|apply NoDup_singleton].
  - intros a j. rewrite HM, lookup_app_Some. unfold ad'. cbn.
    assert (length (accts ad) = length (ModifiedAccounts ad)) as ->
      by (unfold ModifiedAccounts; by rewrite length_map).
    destruct (decide (a = addr)) as [->|Hne].
    + rewrite lookup_insert_eq. split.
      * intros [= <-]. right. by rewrite Nat.sub_diag.
      * intros [Hj|[Hle Hj]]; [by apply list_elem_of_lookup_2 in Hj|].
        destruct (j - _)%nat as [|[]] eqn:Ek; [f_equal; lia|done..].
    + rewrite lookup_insert_ne, Hc by done. split; [by left|].
      intros [?|[_ Hj]]; [done|]. destruct (j - _)%nat as [|[]]; cbn in Hj; congruence.
  - unfold accts_map, ad'. cbn. rewrite map_app. change (map br_pair [_]) with [(addr, d)].
    by rewrite list_to_map_snoc by (by rewrite fst_br_pairs).
Qed.

Lemma Upsert_spec ad addr d : accts_wf ad ->
  exists ad', Upsert ad addr d = Ok ad' /\ upserted ad addr d ad'.
Proof.
  intros Hwf. unfold Upsert, upsert. cbn [br_Addr].
  destruct (acctsCache ad !! addr) as [i|] eqn:E; [|eauto using upserted_miss].
  rewrite bool_decide_true; [eauto using upserted_hit|].
  apply Hwf, lookup_lt_Some in E. unfold ModifiedAccounts in E. by rewrite length_map in E.
Qed.

Lemma upsert_all_spec brs : forall ad, accts_wf ad -> NoDup (map br_Addr brs) ->
  exists ad', upsert_all ad brs = Ok ad' /\ accts_wf ad' /\
    accts_map ad' = list_to_map (map br_pair brs) ∪ accts_map ad /\
    (forall a, a ∈ ModifiedAccounts ad' <-> a ∈ ModifiedAccounts ad \/ a ∈ map br_Addr brs).
Proof.
  induction brs as [|[a d] brs IH]; intros ad Hwf Hnd; cbn in *.
  - exists ad. rewrite (left_id_L ∅ (∪)). split_and!; [done..|set_solver].
  - apply NoDup_cons in Hnd as [Ha Hnd].
    destruct (Upsert_spec ad a d Hwf) as (ad1 & H1 & Hwf1 & Hm1 & Hl1).
    unfold Upsert in H1. rewrite H1. cbv [mbind outcome_bind].
    destruct (IH ad1 Hwf1 Hnd) as (ad2 & -> & Hwf2 & Hm2 & Hl2).
    exists ad2. split_and!; [done|done| |].
    + rewrite Hm2, Hm1. rewrite <- insert_union_l. symmetry. apply insert_union_r.
      apply not_elem_of_list_to_map_1. by rewrite <- (fst_br_pairs (mkAccountDeltas brs ∅)) in Ha.
    + intros x. rewrite Hl2, Hl1. case_bool_decide; set_solver.
Qed.

Lemma MergeAccounts_spec ad other : accts_wf ad -> accts_wf other ->
  exists ad', MergeAccounts ad other = Ok ad' /\ accts_wf ad' /\
    accts_map ad' = accts_map other ∪ accts_map ad /\
    (forall a, a ∈ ModifiedAccounts ad' <-> a ∈ ModifiedAccounts ad \/ a ∈ ModifiedAccounts other).
Proof. intros Hwf [Hnd _]. by apply upsert_all_spec. Qed.

(** The ordered account table with its index cache implements a
    finite map: starting from the empty table, a read never runs out of bounds
    and returns the last write, a write keeps the representation invariant and
    the order of first writes, a merge overlays the other table, and shrinking
    the arrays loses nothing. *)
Theorem AccountDeltas_refines_map ad other addr d sd :
  accts_wf ad -> accts_wf other -> sd_Accts sd = ad ->
  accts_wf AccountDeltas_zero /\ accts_map AccountDeltas_zero = ∅ /\
  Get ad addr = Ok (accts_map ad !! addr) /\
  (exists ad', Upsert ad addr d = Ok ad' /\ accts_wf ad' /\
     accts_map ad' = <[addr := d]> (accts_map ad) /\
     Get ad' addr = Ok (Some d) /\ ModifiedAccounts ad `prefix_of` ModifiedAccounts ad') /\
  (exists ad', MergeAccounts ad other = Ok ad' /\ accts_wf ad' /\
     accts_map ad' = accts_map other ∪ accts_map ad) /\
  OptimizeAllocatedMemory true sd = sd.
Proof.
  intros Hwf Hwf' Hsd. split_and!; [apply accts_zero_wf|done|by apply Get_spec| | |].
  - destruct (Upsert_spec ad addr d Hwf) as (ad' & H & Hw & Hm & Hl). exists ad'.
    rewrite Get_spec, Hm, Hl, lookup_insert_eq by done. split_and!; try done.
    case_bool_decide; [done|by eexists].
  - destruct (MergeAccounts_spec ad other Hwf Hwf') as (ad' & ? & ? & ? & _). eauto.
  - unfold OptimizeAllocatedMemory. rewrite Hsd.
    assert (size (acctsCache ad) = length (accts ad)) as ->.
    { destruct Hwf as [Hnd Hc]. rewrite <- (length_map br_Addr). change (map br_Addr _) with (ModifiedAccounts ad).
      rewrite <- size_dom. rewrite <- (size_list_to_set (C := gset Z) (ModifiedAccounts ad)) by done.
      f_equal. apply set_eq. intros a. rewrite elem_of_dom, elem_of_list_to_set, list_elem_of_lookup.
      unfold is_Some. naive_solver. }
    rewrite take_app_length. destruct sd, ad. cbn in *. by subst.
Qed.

Lemma AccountDeltas_refines_map_witness :
  exists ad', Upsert AccountDeltas_zero 4 (MakeAccountData Online 10) = Ok ad' /\
    Get ad' 4 = Ok (Some (MakeAccountData Online 10)).
Proof.
  destruct (AccountDeltas_refines_map AccountDeltas_zero AccountDeltas_zero 4
              (MakeAccountData Online 10) (MakeStateDelta sample_header 0 0 0))
    as (_ & _ & _ & (ad' & H & _ & _ & H' & _) & _);
    [apply accts_zero_wf | apply accts_zero_wf | reflexivity | exists ad'; split; [exact H|exact H']].
Defined.

(** ** Totals are exact sums *)

Section totals.
  Context (proto : ConsensusParams) (Hunit : 0 < proto_RewardUnit proto).

Definition unitsZ (u : AccountData) : Z := acct_MicroNovas u / proto_RewardUnit proto.

Definition by_status (st : Status) (f : AccountData -> Z) (u : AccountData) : Z :=
  if bool_decide (acct_Status u = st) then f u else 0.

(** The totals of a list of accounts at a rewards level, in unbounded
    arithmetic. *)
Definition count_of (lvl : Z) (st : Status) (l : list AccountData) : AlgoCount :=
  mkAlgoCount (sumZ (by_status st (moneyZ proto lvl)) l) (sumZ (by_status st unitsZ) l).

Definition totals_of (lvl : Z) (l : list AccountData) : AccountTotals :=
  mkAccountTotals (count_of lvl Online l) (count_of lvl Offline l) (count_of lvl NotParticipating l) lvl.

Definition count_u64 (c : AlgoCount) : Prop := is_u64 (ac_Money c) /\ is_u64 (ac_RewardUnits c).
Definition totals_u64 (t : AccountTotals) : Prop :=
  count_u64 (at_Online t) /\ count_u64 (at_Offline t) /\ count_u64 (at_NotParticipating t) /\
  is_u64 (at_RewardsLevel t).

#[export] Instance totals_of_perm lvl : Proper ((≡ₚ) ==> (=)) (totals_of lvl).
Proof.
  intros l1 l2 H. unfold totals_of, count_of. by rewrite !H.
Qed.

Lemma ot_Add_inv ot a b r : is_u64 a -> is_u64 b -> ot_Add ot a b = (r, false) ->
  ot = false /\ r = a + b /\ is_u64 r.
Proof.
  intros Ha Hb. unfold ot_Add. rewrite OAdd_spec by done.
  destruct (Z.ltb_spec (a + b) two64); [|by intros [=]]. intros [= <- ->]. repeat split; word.
Qed.

Lemma ot_Sub_inv ot a b r : is_u64 a -> is_u64 b -> ot_Sub ot a b = (r, false) ->
  ot = false /\ r = a - b /\ is_u64 r.
Proof.
  intros Ha Hb. unfold ot_Sub. rewrite OSub_spec by done.
  destruct (Z.leb_spec b a); [|by intros [=]]. intros [= <- ->]. repeat split; word.
Qed.

Lemma ot_Mul_inv ot a b r : is_u64 a -> is_u64 b -> ot_Mul ot a b = (r, false) ->
  ot = false /\ r = a * b /\ is_u64 r.
Proof.
  intros Ha Hb. unfold ot_Mul. rewrite OMul_spec by done.
  destruct (Z.ltb_spec (a * b) two64); [|by intros [=]]. intros [= <- ->]. unfold is_u64 in *. repeat split; nia.
Qed.

(** Reading an account for the totals gives its exact money and units. *)
Lemma Money_inv lvl u m r : is_u64 lvl -> acct_wf u -> Money proto lvl u = Ok (m, r) ->
  m = moneyZ proto lvl u /\ is_u64 m.
Proof.
  intros Hl Hwf H. unfold Money in H. okinv H.
  apply WithUpdatedRewards_inv in Ho as [-> Hr]; [|done..].
  subst m. rewrite rewarded_MicroNovas. split; [done|].
  rewrite <- rewarded_MicroNovas. by apply rewarded_wf.
Qed.

Lemma RewardUnits_eq x : RewardUnits proto x = Ok (x / proto_RewardUnit proto).
Proof. unfold RewardUnits. by rewrite (proj2 (Z.eqb_neq _ 0)) by lia. Qed.

(** Decide the comparisons of known statuses. *)
Ltac decide_status :=
  repeat match goal with
  | |- context [bool_decide (?a = ?a)] => rewrite (bool_decide_true (a = a)) by reflexivity
  | H : context [bool_decide (?a = ?a)] |- _ => rewrite (bool_decide_true (a = a)) in H by reflexivity
  | |- context [bool_decide (?a = ?b)] => rewrite (bool_decide_false (a = b)) by discriminate
  | H : context [bool_decide (?a = ?b)] |- _ => rewrite (bool_decide_false (a = b)) in H by discriminate
  end.

Lemma count_of_cons lvl st d l :
  count_of lvl st (d :: l) =
    if bool_decide (acct_Status d = st)
    then mkAlgoCount (ac_Money (count_of lvl st l) + moneyZ proto lvl d)
           (ac_RewardUnits (count_of lvl st l) + acct_MicroNovas d / proto_RewardUnit proto)
    else count_of lvl st l.
Proof.
  unfold count_of, by_status. cbn. case_bool_decide; f_equal; unfold unitsZ; lia.
Qed.

Lemma AddAccount_exact lvl l d ot t :
  totals_u64 (totals_of lvl l) -> acct_wf d ->
  AddAccount proto d (totals_of lvl l) ot = Ok (t, false) ->
  ot = false /\ t = totals_of lvl (d :: l) /\ totals_u64 t.
Proof.
  intros Ht Hwf H. unfold AddAccount in H. okinv H. cbn in Ho, H.
  pose proof Ht as (Hn & Hf & Hp & Hl). pose proof Hwf as (Hm & _).
  apply Money_inv in Ho as [-> Hmu]; [|done..].
  rewrite RewardUnits_eq in H. cbv [mbind outcome_bind] in H.
  pose proof (div_u64 _ _ Hm Hunit) as Hdu.
  destruct (ot_AddA _ _ _) as [money ot1] eqn:E1 in H. destruct (ot_Add _ _ _) as [ru ot2] eqn:E2 in H.
  injection H as <- ->.
  assert (count_u64 (statusField (acct_Status d) (totals_of lvl l))) as [Hc1 Hc2]
    by (by destruct (acct_Status d)).
  apply ot_Add_inv in E2 as (-> & -> & Hru); [|done..].
  apply ot_Add_inv in E1 as (-> & -> & Hmo); [|done..].
  split; [done|]. unfold totals_u64, totals_of. rewrite !count_of_cons.
  destruct (acct_Status d) eqn:E; cbn -[count_of] in *; decide_status; by split_and!.
Qed.

Lemma DelAccount_exact lvl l d ot t :
  totals_u64 (totals_of lvl (d :: l)) -> acct_wf d ->
  DelAccount proto d (totals_of lvl (d :: l)) ot = Ok (t, false) ->
  ot = false /\ t = totals_of lvl l /\ totals_u64 t.
Proof.
  intros Ht Hwf H. unfold DelAccount in H. okinv H. cbn in Ho, H.
  pose proof Ht as (Hn & Hf & Hp & Hl). pose proof Hwf as (Hm & _).
  apply Money_inv in Ho as [-> Hmu]; [|done..].
  rewrite RewardUnits_eq in H. cbv [mbind outcome_bind] in H.
  pose proof (div_u64 _ _ Hm Hunit) as Hdu.
  destruct (ot_SubA _ _ _) as [money ot1] eqn:E1 in H. destruct (ot_Sub _ _ _) as [ru ot2] eqn:E2 in H.
  injection H as <- ->.
  assert (count_u64 (statusField (acct_Status d) (totals_of lvl (d :: l)))) as [Hc1 Hc2]
    by (by destruct (acct_Status d)).
  apply ot_Sub_inv in E2 as (-> & -> & Hru); [|done..].
  apply ot_Sub_inv in E1 as (-> & -> & Hmo); [|done..].
  split; [done|]. unfold totals_u64, totals_of in *. cbn -[count_of] in *. rewrite !count_of_cons in *.
  destruct (acct_Status d) eqn:E; cbn -[count_of] in *; decide_status; cbn -[count_of] in *;
    rewrite ?Z.add_simpl_r in *;
    (split; [by destruct (count_of lvl _ l)|by split_and!]).
Qed.

Lemma moneyZ_level lvl lvl' u : acct_Status u <> NotParticipating ->
  moneyZ proto lvl' u = moneyZ proto lvl u + unitsZ u * (lvl' - lvl).
Proof. intros Hs. unfold moneyZ, pendingZ, unitsZ. rewrite bool_decide_false by done. lia. Qed.

Lemma count_of_level lvl lvl' st l : st <> NotParticipating ->
  count_of lvl' st l =
    mkAlgoCount (ac_Money (count_of lvl st l) + ac_RewardUnits (count_of lvl st l) * (lvl' - lvl))
      (ac_RewardUnits (count_of lvl st l)).
Proof.
  intros Hs. unfold count_of. cbn. f_equal. induction l as [|u l IH]; cbn; [lia|].
  rewrite IH. set (a := sumZ _ l). set (b := sumZ _ l). unfold by_status.
  case_bool_decide; [|lia].
  rewrite (moneyZ_level lvl) by congruence. lia.
Qed.

Lemma count_of_notpart lvl lvl' l :
  count_of lvl' NotParticipating l = count_of lvl NotParticipating l.
Proof.
  unfold count_of. f_equal. apply sumZ_ext. intros u _. unfold by_status.
  case_bool_decide as Hs; [|done]. unfold moneyZ, pendingZ. by rewrite bool_decide_true.
Qed.

Lemma applyRewards_exact lvl lvl' st l ot c :
  st <> NotParticipating -> count_u64 (count_of lvl st l) -> is_u64 (lvl' - lvl) ->
  AlgoCount_applyRewards (count_of lvl st l) (lvl' - lvl) ot = (c, false) ->
  ot = false /\ c = count_of lvl' st l /\ count_u64 c.
Proof.
  intros Hs [H1 H2] Hd H. unfold AlgoCount_applyRewards in H.
  destruct (ot_Mul _ _ _) as [g ot1] eqn:E1 in H. destruct (ot_AddA _ _ _) as [m ot2] eqn:E2 in H.
  injection H as <- ->.
  assert (ot1 = false /\ g = ac_RewardUnits (count_of lvl st l) * (lvl' - lvl) /\ is_u64 g) as (-> & -> & Hg).
  { unfold ot_AddA, ot_Add in E2. destruct ot1; [by destruct (OAdd _ _) as [? []]|].
    by apply ot_Mul_inv in E1 as (_ & -> & ?). }
  apply ot_Add_inv in E2 as (_ & -> & Hm); [|done..].
  apply ot_Mul_inv in E1 as (-> & _ & _); [|done..].
  rewrite (count_of_level lvl lvl') by done. done.
Qed.

(** Moving the totals to a new rewards level. *)
Lemma ApplyRewards_exact lvl lvl' l t :
  totals_u64 (totals_of lvl l) -> is_u64 lvl' -> ApplyRewards lvl' (totals_of lvl l) false = (t, false) ->
  lvl <= lvl' /\ t = totals_of lvl' l /\ totals_u64 t.
Proof.
  intros (Hn & Hf & Hp & Hl) Hl' H. unfold ApplyRewards in H. cbn -[count_of] in *.
  destruct (ot_Sub _ _ _) as [d ot1] eqn:E1 in H.
  destruct (AlgoCount_applyRewards _ d ot1) as [c1 ot2] eqn:E2 in H.
  destruct (AlgoCount_applyRewards _ d ot2) as [c2 ot3] eqn:E3 in H. injection H as <- ->.
  assert (ot1 = false) as ->.
  { destruct ot1; [|done]. exfalso. revert E2 E3. unfold AlgoCount_applyRewards, ot_Mul, ot_AddA, ot_Add.
    repeat (destruct (OMul _ _) as [? []] || destruct (OAdd _ _) as [? []]); congruence. }
  apply ot_Sub_inv in E1 as (_ & -> & Hd); [|done..].
  apply applyRewards_exact in E3 as (-> & -> & H3); [|done..].
  apply applyRewards_exact in E2 as (_ & -> & H2); [|done..].
  split; [word|]. unfold totals_of, totals_u64. rewrite (count_of_notpart lvl lvl'). by split_and!.
Qed.

(** Replacing one account by its new version. *)
Lemma ReplaceAccount_exact lvl l old new ot t1 t2 ot1 :
  totals_u64 (totals_of lvl (old :: l)) -> acct_wf old -> acct_wf new ->
  DelAccount proto old (totals_of lvl (old :: l)) ot = Ok (t1, ot1) ->
  AddAccount proto new t1 ot1 = Ok (t2, false) ->
  ot = false /\ t2 = totals_of lvl (new :: l) /\ totals_u64 t2.
Proof.
  intros Ht Ho Hn H1 H2.
  assert (ot1 = false) as ->.
  { destruct ot1; [|done]. exfalso. unfold AddAccount in H2. okinv H2. rewrite RewardUnits_eq in H2.
    cbv [mbind outcome_bind ot_AddA ot_Add] in H2. destruct (OAdd _ _) as [? []] in H2; destruct (OAdd _ _) as [? []] in H2; discriminate. }
  apply DelAccount_exact in H1 as (-> & -> & Ht1); [|done..].
  apply AddAccount_exact in H2 as (_ & -> & Ht2); [|done..]. done.
Qed.

(** The grand total is the sum of all the money, when it fits. *)
Lemma All_exact lvl l a : totals_u64 (totals_of lvl l) -> All (totals_of lvl l) = Ok a ->
  a = sumZ (moneyZ proto lvl) l.
Proof.
  intros ([Hn _] & [Hf _] & [Hp _] & _) H. unfold All, Participating, OAddA in H.
  assert (ac_Money (at_NotParticipating (totals_of lvl l)) + (ac_Money (at_Online (totals_of lvl l)) +
            ac_Money (at_Offline (totals_of lvl l))) = sumZ (moneyZ proto lvl) l) as <-.
  { cbn. clear. induction l as [|u l IH]; cbn; [done|].
    rewrite <- IH. set (a := sumZ _ l). set (b := sumZ _ l). set (c := sumZ _ l).
    unfold by_status. destruct (acct_Status u) eqn:E; decide_status; lia. }
  revert Hn Hf Hp H. generalize (ac_Money (at_NotParticipating (totals_of lvl l))) as x.
  generalize (ac_Money (at_Online (totals_of lvl l))) as y.
  generalize (ac_Money (at_Offline (totals_of lvl l))) as z. intros z y x Hy Hz Hx H.
  rewrite OAdd_spec in H by done. destruct (Z.ltb_spec (y + z) two64); [|discriminate].
  cbv [mbind outcome_bind] in H. rewrite OAdd_spec in H by word.
  destruct (Z.ltb_spec (x + (y + z)) two64); [|discriminate]. by injection H as <-.
Qed.

End totals.
