(* ===== verification/CompactCert.v ===== *)
(** [src/ledger/internal/compactcert.go]: which compact certificates a block may
    record, and the weight they must carry.  Verification of the certificate
    itself ([compactcert.Verifier.Verify]) is a parameter, which [CertLedger]
    instantiates. *)
From S2P Require Import Prelude Config Basics Transactions Bookkeeping.
#[local] Open Scope string_scope.
#[local] Open Scope Z_scope.

Definition CompactCertBasic : Z := 0.

(** A missing entry of a Go map is the zero value. *)
Definition ConsensusOf (version : string) : ConsensusParams :=
  default ConsensusParams_zero (Consensus !! version).
Definition CompactCertOf (hdr : BlockHeader) : CompactCertState :=
  default CompactCertState_zero (bh_CompactCert hdr !! CompactCertBasic).

Definition AcceptableCompactCertWeight (votersHdr : BlockHeader) (firstValid : Round) : outcome Z :=
  let proto := ConsensusOf (bh_CurrentProtocol votersHdr) in
  let certRound := wrap64 (bh_Round votersHdr + proto_CompactCertRounds proto) in
  let total := ccs_CompactCertVotersTotal (CompactCertOf votersHdr) in
  let half := proto_CompactCertRounds proto / 2 in
  let offset := Round_SubSaturate firstValid certRound in
  if offset =? 0 then Ok total
  else
    let offset := Round_SubSaturate offset (wrap64 (half + 2)) in
    if offset =? 0 then Ok total
    else
      '(provenWeight, overflowed) ← Muldiv total (proto_CompactCertWeightThreshold proto) two32;
      if overflowed || (total <? provenWeight) then Ok 0
      else if half <=? offset then Ok provenWeight
      else
        '(scaledWeight, overflowed) ← Muldiv (wrap64 (total - provenWeight)) (wrap64 (half - offset)) half;
        if (overflowed : bool) then Ok 0
        else
          let '(w, overflowed) := OAdd provenWeight scaledWeight in
          if overflowed then Ok 0 else Ok w.

Record CompactCertVerifierParams : Type := mkCompactCertVerifierParams {
  ccp_Msg : BlockHeader;
  ccp_ProvenWeight : Z;
  ccp_SigRound : Round;
  ccp_SecKQ : Z;
  ccp_EnableBatchVerification : bool }.

Definition CompactCertParams (votersHdr hdr : BlockHeader) : outcome CompactCertVerifierParams :=
  let proto := ConsensusOf (bh_CurrentProtocol votersHdr) in
  let rounds := proto_CompactCertRounds proto in
  _ ← failIf (rounds =? 0) (Errorf "compact certs not enabled");
  _ ← failIf (negb (bh_Round votersHdr mod rounds =? 0)) (Errorf "votersHdr not a multiple");
  _ ← failIf (negb (bh_Round hdr =? wrap64 (bh_Round votersHdr + rounds)))
        (Errorf "certifying block not ahead of voters");
  let totalWeight := ccs_CompactCertVotersTotal (CompactCertOf votersHdr) in
  '(provenWeight, overflowed) ← Muldiv totalWeight (proto_CompactCertWeightThreshold proto) two32;
  _ ← failIf overflowed (Errorf "overflow computing provenWeight");
  Ok (mkCompactCertVerifierParams hdr provenWeight (bh_Round hdr) (proto_CompactCertSecKQ proto)
        (proto_EnableBatchVerification proto)).

Section verifier.
  Context (Verify : CompactCertVerifierParams -> list Z -> CertBuilder.Cert -> outcome unit).

Definition validateCompactCert (certHdr : BlockHeader) (cert : CertBuilder.Cert) (votersHdr : BlockHeader)
    (nextCertRnd atRound : Round) : outcome unit :=
  let proto := ConsensusOf (bh_CurrentProtocol certHdr) in
  let rounds := proto_CompactCertRounds proto in
  _ ← failIf (rounds =? 0) (Errorf "compact certs not enabled");
  _ ← failIf (negb (bh_Round certHdr mod rounds =? 0)) (Errorf "cert for non-multiple");
  let votersRound := Round_SubSaturate (bh_Round certHdr) rounds in
  _ ← failIf (negb (votersRound =? bh_Round votersHdr)) (Errorf "votersHdr from wrong round");
  _ ← failIf ((nextCertRnd =? 0) || negb (nextCertRnd =? bh_Round certHdr)) (Errorf "expecting another cert");
  acceptableWeight ← AcceptableCompactCertWeight votersHdr atRound;
  _ ← failIf (CertBuilder.ct_SignedWeight cert <? acceptableWeight) (Errorf "insufficient weight");
  ccParams ← CompactCertParams votersHdr certHdr;
  Verify ccParams (ccs_CompactCertVoters (CompactCertOf votersHdr)) cert.

End verifier.

(** ** The schedule of acceptable weights *)

(** The proven weight and the weight [n] rounds into the second half of the
    window, in unbounded arithmetic. *)
Definition provenZ (proto : ConsensusParams) (total : Z) : Z :=
  total * proto_CompactCertWeightThreshold proto / two32.
Definition weightZ (proto : ConsensusParams) (total n : Z) : Z :=
  let half := proto_CompactCertRounds proto / 2 in
  if n <=? 0 then total
  else if half <=? n then provenZ proto total
  else provenZ proto total + (total - provenZ proto total) * (half - n) / half.

Definition cert_params_wf (proto : ConsensusParams) : Prop :=
  2 <= proto_CompactCertRounds proto < two32 /\ is_u32 (proto_CompactCertWeightThreshold proto).

Section schedule.
  Context (proto : ConsensusParams) (total : Z).
  Context (Hp : cert_params_wf proto) (Ht : is_u64 total).

Lemma provenZ_range : 0 <= provenZ proto total <= total.
Proof.
  destruct Hp as [_ Hth]. unfold provenZ. unfold_words. split; [apply Z.div_pos; nia|].
  apply Z.div_le_upper_bound; nia.
Qed.

Lemma weightZ_range n : provenZ proto total <= weightZ proto total n <= total.
Proof.
  pose proof provenZ_range. destruct Hp as [Hr _]. unfold weightZ.
  assert (1 <= proto_CompactCertRounds proto / 2) by (apply Z.div_le_lower_bound; lia).
  destruct (Z.leb_spec n 0); [lia|]. destruct (Z.leb_spec (proto_CompactCertRounds proto / 2) n); [lia|].
  split; [pose proof (Z.div_pos ((total - provenZ proto total) * (proto_CompactCertRounds proto / 2 - n)) (proto_CompactCertRounds proto / 2)); nia|].
  assert ((total - provenZ proto total) * (proto_CompactCertRounds proto / 2 - n) / (proto_CompactCertRounds proto / 2)
          <= total - provenZ proto total); [|lia].
  apply Z.div_le_upper_bound; nia.
Qed.

Lemma weightZ_antitone n m : n <= m -> weightZ proto total m <= weightZ proto total n.
Proof.
  intros Hle. pose proof (weightZ_range n). pose proof (weightZ_range m).
  pose proof provenZ_range. destruct Hp as [Hr _]. unfold weightZ in *.
  assert (1 <= proto_CompactCertRounds proto / 2) by (apply Z.div_le_lower_bound; lia).
  destruct (Z.leb_spec n 0), (Z.leb_spec m 0); try lia.
  destruct (Z.leb_spec (proto_CompactCertRounds proto / 2) n),
    (Z.leb_spec (proto_CompactCertRounds proto / 2) m); try lia.
  apply Z.add_le_mono_l, Z.div_le_mono; [lia|nia].
Qed.

Lemma weight_closed_form votersHdr firstValid :
  ConsensusOf (bh_CurrentProtocol votersHdr) = proto ->
  ccs_CompactCertVotersTotal (CompactCertOf votersHdr) = total ->
  0 <= bh_Round votersHdr < 2 ^ 63 -> is_u64 firstValid ->
  AcceptableCompactCertWeight votersHdr firstValid =
    Ok (weightZ proto total
          (firstValid - (bh_Round votersHdr + proto_CompactCertRounds proto + proto_CompactCertRounds proto / 2 + 2))).
Proof.
  intros Hproto Htotal Hr Hf. unfold AcceptableCompactCertWeight. rewrite Hproto, Htotal.
  pose proof provenZ_range as Hpz. pose proof Hp as [Hcr Hth].
  assert (1 <= proto_CompactCertRounds proto / 2) as Hh1 by (apply Z.div_le_lower_bound; lia).
  assert (proto_CompactCertRounds proto / 2 < two32) as Hh2 by (apply Z.div_lt_upper_bound; word).
  unfold weightZ. set (half := proto_CompactCertRounds proto / 2) in *.
  set (cr := proto_CompactCertRounds proto) in *. set (r := bh_Round votersHdr) in *.
  rewrite (wrap64_small (r + cr)), (wrap64_small (half + 2)) by word. unfold Round_SubSaturate.
  destruct (Z.ltb_spec firstValid (r + cr)); cbn [Z.eqb].
  { by rewrite (proj2 (Z.leb_le _ 0)) by lia. }
  rewrite wrap64_small by word. destruct (Z.eqb_spec (firstValid - (r + cr)) 0).
  { by rewrite (proj2 (Z.leb_le _ 0)) by lia. }
  destruct (Z.ltb_spec (firstValid - (r + cr)) (half + 2)); cbn [Z.eqb].
  { by rewrite (proj2 (Z.leb_le _ 0)) by lia. }
  rewrite wrap64_small by word.
  replace (firstValid - (r + cr + half + 2)) with (firstValid - (r + cr) - (half + 2)) by lia.
  set (k := firstValid - (r + cr) - (half + 2)) in *.
  destruct (Z.eqb_spec k 0); [by rewrite (proj2 (Z.leb_le k 0)) by lia|].
  rewrite (proj2 (Z.leb_gt k 0)) by lia.
  unfold Muldiv. rewrite (proj2 (Z.eqb_neq two32 0)) by done.
  fold (provenZ proto total). set (pz := provenZ proto total) in *. cbv [mbind outcome_bind].
  rewrite (proj2 (Z.leb_le 0 pz)), (proj2 (Z.ltb_lt pz two64)), wrap64_small by word. cbn [andb negb orb].
  rewrite (proj2 (Z.ltb_ge total pz)) by lia.
  destruct (Z.leb_spec half k); [done|].
  rewrite (wrap64_small (total - pz)), (wrap64_small (half - k)) by word.
  rewrite (proj2 (Z.eqb_neq half 0)) by lia.
  set (sc := (total - pz) * (half - k) / half).
  assert (0 <= sc <= total - pz) as Hsc.
  { subst sc. split; [apply Z.div_pos; nia|]. apply Z.div_le_upper_bound; nia. }
  rewrite (proj2 (Z.leb_le 0 sc)), (proj2 (Z.ltb_lt sc two64)), wrap64_small by word. cbn [andb negb].
  rewrite OAdd_spec by word. by rewrite (proj2 (Z.ltb_lt (pz + sc) two64)) by word.
Qed.

End schedule.

(** The weight a compact certificate must carry is total: it never
    panics, lies between the proven weight and the total weight, never rises as
    time passes, is the whole weight until half a certificate interval plus two
    rounds after the certified block, and the proven weight after the other
    half. *)
Theorem acceptable_weight_schedule proto total votersHdr fv fv' :
  cert_params_wf proto -> is_u64 total -> 0 <= bh_Round votersHdr < 2 ^ 63 ->
  is_u64 fv -> is_u64 fv' -> fv <= fv' ->
  ConsensusOf (bh_CurrentProtocol votersHdr) = proto ->
  ccs_CompactCertVotersTotal (CompactCertOf votersHdr) = total ->
  let half := proto_CompactCertRounds proto / 2 in
  let settled := bh_Round votersHdr + proto_CompactCertRounds proto + half + 2 in
  exists w w', AcceptableCompactCertWeight votersHdr fv = Ok w /\
    AcceptableCompactCertWeight votersHdr fv' = Ok w' /\
    provenZ proto total <= w' <= w /\ w <= total /\
    (fv <= settled -> w = total) /\ (settled + half <= fv -> w = provenZ proto total).
Proof.
  intros Hp Ht Hr Hf Hf' Hle Hproto Htotal half settled.
  rewrite !(weight_closed_form proto total Hp Ht votersHdr) by done.
  do 2 eexists. split; [done|]. split; [done|]. fold half settled.
  pose proof (weightZ_range proto total Hp Ht (fv - settled)).
  pose proof (weightZ_range proto total Hp Ht (fv' - settled)).
  pose proof (weightZ_antitone proto total Hp Ht (fv - settled) (fv' - settled) ltac:(lia)).
  assert (1 <= half) by (destruct Hp; apply Z.div_le_lower_bound; lia).
  split_and!; try lia.
  - intros. unfold weightZ. by rewrite (proj2 (Z.leb_le _ 0)) by lia.
  - intros. unfold weightZ. fold half. rewrite (proj2 (Z.leb_gt _ 0)), (proj2 (Z.leb_le half _)) by lia. done.
Qed.

Definition cert_header : BlockHeader :=
  sample_header <| bh_Round := 512 |> <| bh_UpgradeState := idle ConsensusFuture |>
    <| bh_CompactCert := {[ CompactCertBasic := mkCompactCertState [1] 1000000 768 ]} |>.

Lemma acceptable_weight_schedule_witness :
  exists w w', AcceptableCompactCertWeight cert_header 900 = Ok w /\
    AcceptableCompactCertWeight cert_header 960 = Ok w' /\ w' <= w <= 1000000.
Proof.
  destruct (acceptable_weight_schedule (ConsensusOf ConsensusFuture) 1000000 cert_header 900 960)
    as (w & w' & H1 & H2 & H3 & H4 & _);
    [vm_compute; intuition discriminate | done | done | done | done | done | reflexivity | reflexivity |].
  exists w, w'. split; [exact H1|]. split; [exact H2|]. lia.
Defined.
