(* ===== verification/Cow.v ===== *)
(** [src/ledger/internal/cow.go], [appcow.go], [assetcow.go] and the first part of
    [eval.go]: the copy-on-write view of the ledger a block is evaluated in.

    [roundCowBase] reads the ledger of the previous round through caches.  A
    [roundCowState] records changes on top of a parent, which is the base or
    another cow; [roundCowParent] is the interface both offer.  An evaluation
    holds a stack of cows: [child] pushes one, [commitToParent] merges the top
    into the one below.  Application storage is kept apart from the accounts, in
    the [sdeltas], until [deltas] folds it in. *)
From S2P Require Import Prelude Config Basics Transactions Bookkeeping StateDelta CompactCert.
#[local] Open Scope string_scope.
#[local] Open Scope list_scope.
#[local] Open Scope Z_scope.

(** ** The interface of a parent *)

Record roundCowParent : Type := mkParent {
  par_lookup : Address -> outcome AccountData;
  par_checkDup : Round -> Round -> Txid -> Txlease -> outcome unit;
  par_txnCounter : Z;
  par_getCreator : CreatableIndex -> CreatableType -> outcome (Address * bool);
  par_compactCertNext : Round;
  par_blockHdr : Round -> outcome BlockHeader;
  par_getStorageCounts : Address -> AppIndex -> bool -> outcome StateSchema;
  par_getStorageLimits : Address -> AppIndex -> bool -> outcome StateSchema;
  par_allocated : Address -> AppIndex -> bool -> outcome bool;
  par_getKey : Address -> AppIndex -> bool -> string -> Z -> outcome (TealValue * bool) }.

Definition errNoStorage (global : bool) : error :=
  if global then Errorf "app does not exist" else Errorf "address has not opted in to app".
Definition errAlreadyStorage (global : bool) : error :=
  if global then Errorf "app already exists" else Errorf "address has already opted in to app".

(** ** The base: the ledger of the previous round, with caches *)

Record LedgerForCowBase : Type := mkLedgerForCowBase {
  l_BlockHdr : Round -> outcome BlockHeader;
  l_CheckDup : ConsensusParams -> Round -> Round -> Round -> Txid -> Txlease -> outcome unit;
  l_LookupWithoutRewards : Round -> Address -> outcome (AccountData * Round);
  l_GetCreatorForRound : Round -> CreatableIndex -> CreatableType -> outcome (Address * bool) }.

Record roundCowBase : Type := mkRoundCowBase {
  base_l : LedgerForCowBase;
  base_rnd : Round;
  base_txnCount : Z;
  base_compactCertNextRnd : Round;
  base_proto : ConsensusParams;
  base_accounts : gmap Z AccountData;
  base_creators : gmap (Z * CreatableType) (Address * bool) }.
#[export] Instance Eta_roundCowBase : Eta roundCowBase := fun r =>
  mkRoundCowBase (base_l r) (base_rnd r) (base_txnCount r) (base_compactCertNextRnd r)
    (base_proto r) (base_accounts r) (base_creators r).

Definition makeRoundCowBase (l : LedgerForCowBase) (rnd : Round) (txnCount : Z)
    (compactCertNextRnd : Round) (proto : ConsensusParams) : roundCowBase :=
  mkRoundCowBase l rnd txnCount compactCertNextRnd proto ∅ ∅.

Definition base_getCreator (cidx : CreatableIndex) (ctype : CreatableType)
    : M roundCowBase (Address * bool) := fun x =>
  match base_creators x !! (cidx, ctype) with
  | Some found => (Ok found, x)
  | None =>
      match l_GetCreatorForRound (base_l x) (base_rnd x) cidx ctype with
      | Ok found => (Ok found, x <| base_creators := <[(cidx, ctype) := found]> (base_creators x) |>)
      | Err e => (Err (Errorf "roundCowBase.getCreator()"), x)
      | Panic => (Panic, x)
      end
  end.

Definition base_lookup (addr : Address) : M roundCowBase AccountData := fun x =>
  match base_accounts x !! addr with
  | Some accountData => (Ok accountData, x)
  | None =>
      match l_LookupWithoutRewards (base_l x) (base_rnd x) addr with
      | Ok (accountData, _) =>
          (Ok accountData, x <| base_accounts := <[addr := accountData]> (base_accounts x) |>)
      | Err e => (Err e, x)
      | Panic => (Panic, x)
      end
  end.

Definition base_checkDup (firstValid lastValid : Round) (txid : Txid) (txl : Txlease)
    : M roundCowBase unit := fun x =>
  (l_CheckDup (base_l x) (base_proto x) (wrap64 (base_rnd x + 1)) firstValid lastValid txid txl, x).

Definition base_blockHdr (r : Round) : M roundCowBase BlockHeader := fun x =>
  (l_BlockHdr (base_l x) r, x).

Definition base_allocated (addr : Address) (aidx : AppIndex) (global : bool) : M roundCowBase bool :=
  acct ← base_lookup addr;
  mret (if global then bool_decide (is_Some (acct_AppParams acct !! aidx))
        else bool_decide (is_Some (acct_AppLocalStates acct !! aidx))).

(** The key-value store of an application in an account, if there is one. *)
Definition stored_kv (ad : AccountData) (aidx : AppIndex) (global : bool) : option (gmap string TealValue) :=
  if global then app_GlobalState <$> acct_AppParams ad !! aidx
  else als_KeyValue <$> acct_AppLocalStates ad !! aidx.

Definition base_getKey (addr : Address) (aidx : AppIndex) (global : bool) (key : string) (accountIdx : Z)
    : M roundCowBase (TealValue * bool) :=
  ad ← base_lookup addr;
  match stored_kv ad aidx global with
  | None => throw (errNoStorage global)
  | Some kv =>
      mret (match kv !! key with Some val => (val, true) | None => (TealValue_zero, false) end)
  end.

(** The number of values of each type; every type but [TealUintType] counts as
    bytes. *)
Definition countKV (kv : gmap string TealValue) : StateSchema :=
  mkStateSchema
    (Z.of_nat (size (filter (fun p => tv_Type p.2 = TealUintType) kv)))
    (Z.of_nat (size (filter (fun p => tv_Type p.2 <> TealUintType) kv))).

Definition base_getStorageCounts (addr : Address) (aidx : AppIndex) (global : bool)
    : M roundCowBase StateSchema :=
  ad ← base_lookup addr;
  mret (match stored_kv ad aidx global with
        | None => StateSchema_zero
        | Some kv => countKV kv
        end).

Definition base_getStorageLimits (addr : Address) (aidx : AppIndex) (global : bool)
    : M roundCowBase StateSchema :=
  '(creator, exists_) ← base_getCreator aidx AppCreatable;
  if negb exists_ then mret StateSchema_zero
  else
    record ← base_lookup creator;
    match acct_AppParams record !! aidx with
    | None => throw (Errorf "app not found in account")
    | Some params =>
        mret (if global then app_GlobalStateSchema params else app_LocalStateSchema params)
    end.

(** The answers a base gives with its caches empty: what its clients see
    ([base_cache_transparent] shows that the caches never show). *)
Definition base_parent (x : roundCowBase) : roundCowParent :=
  let x := x <| base_accounts := ∅ |> <| base_creators := ∅ |> in
  mkParent
    (fun addr => (base_lookup addr x).1)
    (fun fv lv txid txl => (base_checkDup fv lv txid txl x).1)
    (base_txnCount x)
    (fun cidx ctype => (base_getCreator cidx ctype x).1)
    (base_compactCertNextRnd x)
    (fun r => (base_blockHdr r x).1)
    (fun addr aidx global => (base_getStorageCounts addr aidx global x).1)
    (fun addr aidx global => (base_getStorageLimits addr aidx global x).1)
    (fun addr aidx global => (base_allocated addr aidx global x).1)
    (fun addr aidx global key idx => (base_getKey addr aidx global key idx x).1).

(** ** Storage deltas (appcow.go) *)

Inductive storageAction : Type := remainAllocAction | allocAction | deallocAction.
#[export] Instance storageAction_eq_dec : EqDecision storageAction.
Proof. solve_decision. Defined.

Record valueDelta : Type := mkvalueDelta {
  vd_old : TealValue; vd_new : TealValue; vd_oldExists : bool; vd_newExists : bool }.

(** The second component is false when the delta is no update. *)
Definition valueDelta_serialize (vd : valueDelta) : ValueDelta * bool :=
  if negb (vd_newExists vd) then
    if vd_oldExists vd then (mkValueDelta DeleteAction "" 0, true)
    else (mkValueDelta (OtherDeltaAction 0) "" 0, false)
  else if vd_oldExists vd && bool_decide (vd_old vd = vd_new vd) then
    (mkValueDelta (OtherDeltaAction 0) "" 0, false)
  else if tv_Type (vd_new vd) =? TealBytesType then
    (mkValueDelta SetBytesAction (tv_Bytes (vd_new vd)) 0, true)
  else (mkValueDelta SetUintAction "" (tv_Uint (vd_new vd)), true).

Definition stateDelta_serialize (sd : gmap string valueDelta) : gmap string ValueDelta :=
  omap (fun vd => let '(vdelta, ok) := valueDelta_serialize vd in
                  if ok then Some vdelta else None) sd.

Record storageDelta : Type := mkstorageDelta {
  sto_action : storageAction;
  sto_kvCow : gmap string valueDelta;
  sto_counts : StateSchema;
  sto_maxCounts : StateSchema;
  sto_accountIdx : Z }.
#[export] Instance Eta_storageDelta : Eta storageDelta := fun r =>
  mkstorageDelta (sto_action r) (sto_kvCow r) (sto_counts r) (sto_maxCounts r) (sto_accountIdx r).

Notation storagePtr := (Z * bool)%type (only parsing).

(** Decrement and increment of the 64-bit counters; an unknown type is an error
    that leaves the counters as they are at that point. *)
Definition decCount (v : TealValue) (c : StateSchema) : outcome StateSchema :=
  if tv_Type v =? TealBytesType then Ok (mkStateSchema (NumUint c) (wrap64 (NumByteSlice c - 1)))
  else if tv_Type v =? TealUintType then Ok (mkStateSchema (wrap64 (NumUint c - 1)) (NumByteSlice c))
  else Err (Errorf "unknown before type").
Definition incCount (v : TealValue) (c : StateSchema) : outcome StateSchema :=
  if tv_Type v =? TealBytesType then Ok (mkStateSchema (NumUint c) (wrap64 (NumByteSlice c + 1)))
  else if tv_Type v =? TealUintType then Ok (mkStateSchema (wrap64 (NumUint c + 1)) (NumByteSlice c))
  else Err (Errorf "unknown after type").

Definition updateCounts (bv : TealValue) (bok : bool) (av : TealValue) (aok : bool)
    : M storageDelta unit := fun lsd =>
  match (if bok then decCount bv (sto_counts lsd) else Ok (sto_counts lsd)) with
  | Ok c =>
      let lsd := lsd <| sto_counts := c |> in
      match (if aok then incCount av c else Ok c) with
      | Ok c => (Ok tt, lsd <| sto_counts := c |>)
      | Err e => (Err e, lsd)
      | Panic => (Panic, lsd)
      end
  | Err e => (Err e, lsd)
  | Panic => (Panic, lsd)
  end.

Definition checkCounts (lsd : storageDelta) : outcome unit :=
  _ ← failIf (NumUint (sto_maxCounts lsd) <? NumUint (sto_counts lsd))
        (Errorf "store integer count exceeds schema integer count");
  failIf (NumByteSlice (sto_maxCounts lsd) <? NumByteSlice (sto_counts lsd))
    (Errorf "store bytes count exceeds schema bytes count").

(** Merge the child's delta of one key into the parent's. *)
Definition mergeValueDelta (lsd child : option valueDelta) : option valueDelta :=
  match child with
  | None => lsd
  | Some c =>
      match lsd with
      | None => Some c
      | Some d => Some (mkvalueDelta (vd_old d) (vd_new c) (vd_oldExists d) (vd_newExists c))
      end
  end.

Definition applyChild (lsd child : storageDelta) : outcome storageDelta :=
  let lsd :=
    if bool_decide (sto_action child <> remainAllocAction) then
      mkstorageDelta (sto_action child) (sto_kvCow child) (sto_counts child) (sto_maxCounts child)
        (sto_accountIdx lsd)
    else
      lsd <| sto_kvCow := merge mergeValueDelta (sto_kvCow lsd) (sto_kvCow child) |>
          <| sto_counts := sto_counts child |> in
  if bool_decide (sto_action lsd = deallocAction) && negb (bool_decide (sto_kvCow lsd = ∅))
  then Panic else Ok lsd.

(** Write the deltas of the keys into a store. *)
Definition applyKV (kvCow : gmap string valueDelta) (kv : gmap string TealValue)
    : gmap string TealValue :=
  merge (fun v d => match d with
                    | None => v
                    | Some vd => if vd_newExists vd then Some (vd_new vd) else None
                    end) kv kvCow.

(** An allocation with writes starts from an empty store, as does a write to a
    store that was never made; an empty store and a nil one are the same value. *)
Definition applyStorageDelta (data : AccountData) (aapp : storagePtr) (store : storageDelta)
    : outcome AccountData :=
  let '(aidx, global) := aapp in
  let fresh := bool_decide (sto_action store = allocAction) && negb (bool_decide (sto_kvCow store = ∅)) in
  if (global : bool) then
    match sto_action store with
    | deallocAction => Ok (data <| acct_AppParams := delete aidx (acct_AppParams data) |>)
    | _ =>
        match acct_AppParams data !! aidx with
        | None => Err (Errorf "could not find existing params")
        | Some params =>
            let gs := if fresh then ∅ else app_GlobalState params in
            Ok (data <| acct_AppParams :=
                  <[aidx := params <| app_GlobalState := applyKV (sto_kvCow store) gs |>]>
                    (acct_AppParams data) |>)
        end
    end
  else
    match sto_action store with
    | deallocAction => Ok (data <| acct_AppLocalStates := delete aidx (acct_AppLocalStates data) |>)
    | _ =>
        match acct_AppLocalStates data !! aidx with
        | None => Err (Errorf "could not find existing states")
        | Some states =>
            let kv := if fresh then ∅ else als_KeyValue states in
            Ok (data <| acct_AppLocalStates :=
                  <[aidx := states <| als_KeyValue := applyKV (sto_kvCow store) kv |>]>
                    (acct_AppLocalStates data) |>)
        end
    end.

(** ** A cow on top of a parent *)

(** [hasCommitParent]: [commitParent] is set (to the parent below) or nil. *)
Record roundCowState : Type := mkRoundCowState {
  cow_hasCommitParent : bool;
  cow_proto : ConsensusParams;
  cow_mods : LedgerStateDelta;
  cow_txnCount : Z;
  cow_sdeltas : gmap Z (gmap storagePtr storageDelta);
  cow_compatibilityMode : bool;
  cow_compatibilityGetKeyCache : gmap Z (gmap storagePtr Z);
  cow_prevTotals : AccountTotals }.
#[export] Instance Eta_roundCowState : Eta roundCowState := fun r =>
  mkRoundCowState (cow_hasCommitParent r) (cow_proto r) (cow_mods r) (cow_txnCount r)
    (cow_sdeltas r) (cow_compatibilityMode r) (cow_compatibilityGetKeyCache r) (cow_prevTotals r).

Definition cow_hdr (cb : roundCowState) : BlockHeader := sd_Hdr (cow_mods cb).
Definition rewardsLevel (cb : roundCowState) : Z := rs_RewardsLevel (bh_RewardsState (cow_hdr cb)).
Definition round (cb : roundCowState) : Round := bh_Round (cow_hdr cb).
Definition prevTimestamp (cb : roundCowState) : Z := sd_PrevTimestamp (cow_mods cb).

Definition makeRoundCowState (hdr : BlockHeader) (proto : ConsensusParams) (prevTimestamp : Z)
    (prevTotals : AccountTotals) (hint : Z) : roundCowState :=
  let us := bh_UpgradeState hdr in
  let uv := bh_UpgradeVote hdr in
  let compatibilityMode :=
    String.eqb (us_CurrentProtocol us) ConsensusV24 &&
    (negb (String.eqb (us_NextProtocol us) ConsensusV26) ||
     (String.eqb (uv_UpgradePropose uv) "" && Bool.eqb (uv_UpgradeApprove uv) false &&
      (bh_Round hdr <? us_NextProtocolVoteBefore us))) in
  mkRoundCowState false proto (MakeStateDelta hdr prevTimestamp hint 0) 0 ∅ compatibilityMode ∅ prevTotals.

Definition getStorageDelta (cb : roundCowState) (addr : Address) (aapp : storagePtr) : option storageDelta :=
  m ← cow_sdeltas cb !! addr; m !! aapp.

Definition setStorageDelta (addr : Address) (aapp : storagePtr) (lsd : storageDelta)
    (cb : roundCowState) : roundCowState :=
  cb <| cow_sdeltas :=
          <[addr := <[aapp := lsd]> (default ∅ (cow_sdeltas cb !! addr))]> (cow_sdeltas cb) |>.

Definition cow_getCreator (P : roundCowParent) (cb : roundCowState) (cidx : CreatableIndex)
    (ctype : CreatableType) : outcome (Address * bool) :=
  match sd_Creatables (cow_mods cb) !! cidx with
  | Some delta =>
      if mc_Created delta && bool_decide (mc_Ctype delta = ctype)
      then Ok (mc_Creator delta, true) else Ok (0, false)
  | None => par_getCreator P cidx ctype
  end.

Definition cow_lookup (P : roundCowParent) (cb : roundCowState) (addr : Address) : outcome AccountData :=
  d ← Get (sd_Accts (cow_mods cb)) addr;
  match d with
  | Some data => Ok data
  | None => par_lookup P addr
  end.

Definition cow_checkDup (P : roundCowParent) (cb : roundCowState) (firstValid lastValid : Round)
    (txid : Txid) (txl : Txlease) : outcome unit :=
  match sd_Txids (cow_mods cb) !! txid with
  | Some _ => Err TransactionInLedgerError
  | None =>
      if proto_SupportTransactionLeases (cow_proto cb) && negb (txl.2 =? 0) &&
         match sd_Txleases (cow_mods cb) !! txl with
         | Some expires => round cb <=? expires
         | None => false
         end
      then Err LeaseInLedgerError
      else par_checkDup P firstValid lastValid txid txl
  end.

Definition cow_txnCounter (P : roundCowParent) (cb : roundCowState) : Z :=
  wrap64 (par_txnCounter P + cow_txnCount cb).

Definition cow_compactCertNext (P : roundCowParent) (cb : roundCowState) : Round :=
  if negb (sd_CompactCertNext (cow_mods cb) =? 0) then sd_CompactCertNext (cow_mods cb)
  else par_compactCertNext P.

Definition cow_allocated (P : roundCowParent) (cb : roundCowState) (addr : Address) (aidx : AppIndex)
    (global : bool) : outcome bool :=
  match sto_action <$> getStorageDelta cb addr (aidx, global) with
  | Some allocAction => Ok true
  | Some deallocAction => Ok false
  | _ => par_allocated P addr aidx global
  end.

Definition cow_getStorageCounts (P : roundCowParent) (cb : roundCowState) (addr : Address)
    (aidx : AppIndex) (global : bool) : outcome StateSchema :=
  allocated ← cow_allocated P cb addr aidx global;
  if negb allocated then Ok StateSchema_zero
  else match getStorageDelta cb addr (aidx, global) with
       | Some lsd => Ok (sto_counts lsd)
       | None => par_getStorageCounts P addr aidx global
       end.

Definition cow_getStorageLimits (P : roundCowParent) (cb : roundCowState) (addr : Address)
    (aidx : AppIndex) (global : bool) : outcome StateSchema :=
  allocated ← cow_allocated P cb addr aidx global;
  if negb allocated then Ok StateSchema_zero
  else match getStorageDelta cb addr (aidx, global) with
       | Some lsd => Ok (sto_maxCounts lsd)
       | None => par_getStorageLimits P addr aidx global
       end.

(** The part of [getKey] before the parent is asked: the answer found in this
    cow, or [None]. *)
Definition getKey_here (P : roundCowParent) (cb : roundCowState) (addr : Address) (aidx : AppIndex)
    (global : bool) (key : string) : outcome (option (TealValue * bool)) :=
  allocated ← cow_allocated P cb addr aidx global;
  if negb allocated then Err (errNoStorage global)
  else match getStorageDelta cb addr (aidx, global) with
       | Some lsd =>
           match sto_kvCow lsd !! key with
           | Some vdelta => Ok (Some (vd_new vdelta, vd_newExists vdelta))
           | None =>
               if bool_decide (sto_action lsd <> remainAllocAction)
               then Ok (Some (TealValue_zero, false)) else Ok None
           end
       | None => Ok None
       end.

Definition cow_getKey (P : roundCowParent) (cb : roundCowState) (addr : Address) (aidx : AppIndex)
    (global : bool) (key : string) (accountIdx : Z) : outcome (TealValue * bool) :=
  r ← getKey_here P cb addr aidx global key;
  match r with
  | Some v => Ok v
  | None => par_getKey P addr aidx global key accountIdx
  end.

(** A cow offers the interface of a parent to the cow above it. *)
Definition cow_parent (P : roundCowParent) (cb : roundCowState) : roundCowParent :=
  mkParent (cow_lookup P cb) (cow_checkDup P cb) (cow_txnCounter P cb) (cow_getCreator P cb)
    (cow_compactCertNext P cb) (par_blockHdr P) (cow_getStorageCounts P cb)
    (cow_getStorageLimits P cb) (cow_allocated P cb) (cow_getKey P cb).

(** ** The stack of cows *)

Record cowStack : Type := mkCowStack { cs_cur : roundCowState; cs_parents : list roundCowState }.
#[export] Instance Eta_cowStack : Eta cowStack := fun r => mkCowStack (cs_cur r) (cs_parents r).

Section cow.
  (** The base of the stack. *)
  Context (B : roundCowParent).

Definition parent_of (ps : list roundCowState) : roundCowParent :=
  foldr (fun cb P => cow_parent P cb) B ps.
Definition cs_parent (s : cowStack) : roundCowParent := parent_of (cs_parents s).

(** What the code sees at the top of the stack. *)
Definition cs_view (s : cowStack) : roundCowParent := cow_parent (cs_parent s) (cs_cur s).

Definition modify_cur (f : roundCowState -> roundCowState) : M cowStack unit :=
  modify (fun s => s <| cs_cur := f (cs_cur s) |>).
Definition modify_mods (f : LedgerStateDelta -> LedgerStateDelta) : M cowStack unit :=
  modify_cur (fun cb => cb <| cow_mods := f (cow_mods cb) |>).
Definition asks {A} (f : roundCowParent -> outcome A) : M cowStack A := fun s => (f (cs_view s), s).

Definition lookup (addr : Address) : M cowStack AccountData := asks (fun P => par_lookup P addr).
Definition getCreator (cidx : CreatableIndex) (ctype : CreatableType) : M cowStack (Address * bool) :=
  asks (fun P => par_getCreator P cidx ctype).
Definition checkDup (firstValid lastValid : Round) (txid : Txid) (txl : Txlease) : M cowStack unit :=
  asks (fun P => par_checkDup P firstValid lastValid txid txl).
Definition allocated (addr : Address) (aidx : AppIndex) (global : bool) : M cowStack bool :=
  asks (fun P => par_allocated P addr aidx global).

Definition incTxnCount (cb : roundCowState) : roundCowState :=
  cb <| cow_txnCount := wrap64 (cow_txnCount cb + 1) |>.

Definition addTx (txn : Transaction) (txid : Txid) (cb : roundCowState) : roundCowState :=
  let h := tx_Header txn in
  let cb := incTxnCount (cb <| cow_mods := cow_mods cb <| sd_Txids :=
                                 <[txid := hdr_LastValid h]> (sd_Txids (cow_mods cb)) |> |>) in
  if negb (hdr_Lease h =? 0) then
    cb <| cow_mods := cow_mods cb <| sd_Txleases :=
            <[(hdr_Sender h, hdr_Lease h) := hdr_LastValid h]> (sd_Txleases (cow_mods cb)) |> |>
  else cb.

Definition setCompactCertNext (rnd : Round) (cb : roundCowState) : roundCowState :=
  cb <| cow_mods := cow_mods cb <| sd_CompactCertNext := rnd |> |>.

(** The cow [child] makes. *)
Definition make_child (cb : roundCowState) (hint : Z) : roundCowState :=
  mkRoundCowState true (cow_proto cb)
    (MakeStateDelta (cow_hdr cb) (prevTimestamp cb) hint (sd_CompactCertNext (cow_mods cb)))
    0 ∅ (cow_compatibilityMode cb) ∅ AccountTotals_zero.

Definition child (hint : Z) (s : cowStack) : cowStack :=
  mkCowStack (make_child (cs_cur s) hint) (cs_cur s :: cs_parents s).

(** Merge the storage deltas of an address into the parent's: [applyChild] where
    the parent has one, a plain move otherwise. *)
Fixpoint merge_storage (addr : Address) (smod : list (storagePtr * storageDelta)) (p : roundCowState)
    : outcome roundCowState :=
  match smod with
  | [] => Ok p
  | (aapp, nsd) :: rest =>
      lsd ← match getStorageDelta p addr aapp with
            | Some lsd => applyChild lsd nsd
            | None => Ok nsd
            end;
      merge_storage addr rest (setStorageDelta addr aapp lsd p)
  end.

Fixpoint merge_sdeltas (sds : list (Address * gmap storagePtr storageDelta)) (p : roundCowState)
    : outcome roundCowState :=
  match sds with
  | [] => Ok p
  | (addr, smod) :: rest =>
      p ← merge_storage addr (map_to_list smod) p; merge_sdeltas rest p
  end.

(** The parent's cow after the child [cb] is committed to it. *)
Definition commit_into (cb p : roundCowState) : outcome roundCowState :=
  accts ← MergeAccounts (sd_Accts (cow_mods p)) (sd_Accts (cow_mods cb));
  let m := cow_mods cb in
  let pm := cow_mods p in
  let pm := pm <| sd_Accts := accts |>
               <| sd_Txids := sd_Txids m ∪ sd_Txids pm |>
               <| sd_Txleases := sd_Txleases m ∪ sd_Txleases pm |>
               <| sd_Creatables := sd_Creatables m ∪ sd_Creatables pm |>
               <| sd_CompactCertNext := sd_CompactCertNext m |>
               <| sd_ModifiedAssetHoldings := sd_ModifiedAssetHoldings m ∪ sd_ModifiedAssetHoldings pm |>
               <| sd_ModifiedAppLocalStates := sd_ModifiedAppLocalStates m ∪ sd_ModifiedAppLocalStates pm |> in
  let p := p <| cow_mods := pm |> <| cow_txnCount := wrap64 (cow_txnCount p + cow_txnCount cb) |> in
  merge_sdeltas (map_to_list (cow_sdeltas cb)) p.

(** A nil [commitParent] is a nil dereference. *)
Definition commitToParent : M cowStack unit := fun s =>
  match cs_parents s with
  | p :: rest =>
      if cow_hasCommitParent (cs_cur s) then
        match commit_into (cs_cur s) p with
        | Ok p' => (Ok tt, mkCowStack p' rest)
        | Err e => (Err e, s)
        | Panic => (Panic, s)
        end
      else (Panic, s)
  | [] => (Panic, s)
  end.

Definition modifiedAccounts (cb : roundCowState) : list Address :=
  ModifiedAccounts (sd_Accts (cow_mods cb)).

(** *** Application storage *)

(** The account index cached by [getKey] in compatibility mode, in every cow the
    read falls through. *)
Definition cacheGetKey (addr : Address) (aidx : AppIndex) (global : bool) (accountIdx : Z)
    (cb : roundCowState) : roundCowState :=
  if cow_compatibilityMode cb && negb global then
    let s := default ∅ (cow_compatibilityGetKeyCache cb !! addr) in
    match s !! (aidx, global) with
    | Some _ => cb
    | None =>
        cb <| cow_compatibilityGetKeyCache :=
                <[addr := <[(aidx, global) := accountIdx]> s]> (cow_compatibilityGetKeyCache cb) |>
    end
  else cb.

Fixpoint touchKeyCaches (ps : list roundCowState) (addr : Address) (aidx : AppIndex) (global : bool)
    (key : string) (accountIdx : Z) : list roundCowState :=
  match ps with
  | [] => []
  | cb :: rest =>
      match getKey_here (parent_of rest) cb addr aidx global key with
      | Ok None =>
          cacheGetKey addr aidx global accountIdx cb ::
          touchKeyCaches rest addr aidx global key accountIdx
      | _ => ps
      end
  end.

Definition getKey (addr : Address) (aidx : AppIndex) (global : bool) (key : string) (accountIdx : Z)
    : M cowStack (TealValue * bool) := fun s =>
  (par_getKey (cs_view s) addr aidx global key accountIdx,
   match touchKeyCaches (cs_cur s :: cs_parents s) addr aidx global key accountIdx with
   | cur :: parents => mkCowStack cur parents
   | [] => s
   end).

Definition ensureStorageDelta (addr : Address) (aidx : AppIndex) (global : bool)
    (defaultAction : storageAction) (accountIdx : Z) : M cowStack storageDelta := fun s =>
  let cb := cs_cur s in
  match getStorageDelta cb addr (aidx, global) with
  | Some lsd => (Ok lsd, s)
  | None =>
      match (counts ← par_getStorageCounts (cs_view s) addr aidx global;
             maxCounts ← par_getStorageLimits (cs_view s) addr aidx global;
             Ok (counts, maxCounts)) with
      | Ok (counts, maxCounts) =>
          let idx :=
            if cow_compatibilityMode cb && negb global then
              match (c ← cow_compatibilityGetKeyCache cb !! addr; c !! (aidx, global)) with
              | Some idx => idx
              | None => accountIdx
              end
            else 0 in
          let lsd := mkstorageDelta defaultAction ∅ counts maxCounts idx in
          (Ok lsd, s <| cs_cur := setStorageDelta addr (aidx, global) lsd cb |>)
      | Err e => (Err e, s)
      | Panic => (Panic, s)
      end
  end.

Definition putStorageDelta (addr : Address) (aidx : AppIndex) (global : bool) (lsd : storageDelta)
    : M cowStack unit := modify_cur (setStorageDelta addr (aidx, global) lsd).

Definition AllocateApp (addr : Address) (aidx : AppIndex) (global : bool) (space : StateSchema)
    : M cowStack unit :=
  alloc ← allocated addr aidx global;
  _ ← throwIf alloc (errAlreadyStorage global);
  lsd ← ensureStorageDelta addr aidx global allocAction 0;
  _ ← putStorageDelta addr aidx global
        (lsd <| sto_action := allocAction |> <| sto_maxCounts := space |>);
  if global then
    modify_mods (fun m => m <| sd_Creatables :=
      <[aidx := mkModifiedCreatable AppCreatable true addr 0]> (sd_Creatables m) |>)
  else
    modify_mods (fun m => m <| sd_ModifiedAppLocalStates :=
      <[(addr, aidx) := true]> (sd_ModifiedAppLocalStates m) |>).

Definition DeallocateApp (addr : Address) (aidx : AppIndex) (global : bool) : M cowStack unit :=
  alloc ← allocated addr aidx global;
  _ ← throwIf (negb alloc) (errNoStorage global);
  lsd ← ensureStorageDelta addr aidx global deallocAction 0;
  _ ← putStorageDelta addr aidx global
        (lsd <| sto_action := deallocAction |> <| sto_counts := StateSchema_zero |>
             <| sto_maxCounts := StateSchema_zero |> <| sto_kvCow := ∅ |>);
  if global then
    modify_mods (fun m => m <| sd_Creatables :=
      <[aidx := mkModifiedCreatable AppCreatable false addr 0]> (sd_Creatables m) |>)
  else
    modify_mods (fun m => m <| sd_ModifiedAppLocalStates :=
      <[(addr, aidx) := false]> (sd_ModifiedAppLocalStates m) |>).

(** Record a new value of a key (or its deletion) and update the counters; the
    counters written before an error stay. *)
Definition writeKey (addr : Address) (aidx : AppIndex) (global : bool) (key : string)
    (lsd : storageDelta) (old : TealValue) (oldOk : bool) (new : TealValue) (newOk : bool)
    : M cowStack storageDelta :=
  let vdelta :=
    match sto_kvCow lsd !! key with
    | Some d => mkvalueDelta (vd_old d) new (vd_oldExists d) newOk
    | None => mkvalueDelta old new oldOk newOk
    end in
  let lsd := lsd <| sto_kvCow := <[key := vdelta]> (sto_kvCow lsd) |> in
  let '(r, lsd) := updateCounts old oldOk new newOk lsd in
  _ ← putStorageDelta addr aidx global lsd;
  _ ← lift r;
  mret lsd.

Definition SetKey (addr : Address) (aidx : AppIndex) (global : bool) (key : string) (value : TealValue)
    (accountIdx : Z) : M cowStack unit :=
  proto ← gets (fun s => cow_proto (cs_cur s));
  _ ← throwIf (proto_MaxAppKeyLen proto <? slen key) (Errorf "key too long");
  _ ← (if tv_Type value =? TealBytesType then
         _ ← throwIf (proto_MaxAppBytesValueLen proto <? slen (tv_Bytes value)) (Errorf "value too long");
         throwIf (proto_MaxAppSumKeyValueLens proto <? slen key + slen (tv_Bytes value))
           (Errorf "key/value total too long")
       else mret tt);
  alloc ← allocated addr aidx global;
  _ ← throwIf (negb alloc) (errNoStorage global);
  '(oldValue, oldOk) ← getKey addr aidx global key accountIdx;
  lsd ← ensureStorageDelta addr aidx global remainAllocAction accountIdx;
  lsd ← writeKey addr aidx global key lsd oldValue oldOk value true;
  lift (checkCounts lsd).

(** An error of [ensureStorageDelta] is dropped. *)
Definition DelKey (addr : Address) (aidx : AppIndex) (global : bool) (key : string) (accountIdx : Z)
    : M cowStack unit :=
  alloc ← allocated addr aidx global;
  _ ← throwIf (negb alloc) (errNoStorage global);
  '(oldValue, oldOk) ← getKey addr aidx global key accountIdx;
  r ← attempt (ensureStorageDelta addr aidx global remainAllocAction accountIdx);
  match r with
  | inl lsd => _ ← writeKey addr aidx global key lsd oldValue oldOk TealValue_zero false; mret tt
  | inr _ => mret tt
  end.

(** *** Assets (assetcow.go) *)

Definition AllocateAsset (addr : Address) (index : AssetIndex) (global : bool) : M cowStack unit :=
  if global then
    modify_mods (fun m => m <| sd_Creatables :=
      <[index := mkModifiedCreatable AssetCreatable true addr 0]> (sd_Creatables m) |>)
  else
    modify_mods (fun m => m <| sd_ModifiedAssetHoldings :=
      <[(addr, index) := true]> (sd_ModifiedAssetHoldings m) |>).

Definition DeallocateAsset (addr : Address) (index : AssetIndex) (global : bool) : M cowStack unit :=
  if global then
    modify_mods (fun m => m <| sd_Creatables :=
      <[index := mkModifiedCreatable AssetCreatable false addr 0]> (sd_Creatables m) |>)
  else
    modify_mods (fun m => m <| sd_ModifiedAssetHoldings :=
      <[(addr, index) := false]> (sd_ModifiedAssetHoldings m) |>).

(** *** Folding the storage into the accounts *)

Fixpoint apply_storage (data : AccountData) (smap : list (storagePtr * storageDelta)) : outcome AccountData :=
  match smap with
  | [] => Ok data
  | (aapp, store) :: rest => data ← applyStorageDelta data aapp store; apply_storage data rest
  end.

(** An error while reading an account or applying a delta is a panic. *)
Definition orPanic {A} (r : outcome A) : outcome A :=
  match r with Ok a => Ok a | _ => Panic end.

Fixpoint fold_sdeltas (P : roundCowParent) (cb : roundCowState)
    (sds : list (Address * gmap storagePtr storageDelta)) : outcome roundCowState :=
  match sds with
  | [] => Ok cb
  | (addr, smap) :: rest =>
      data ← orPanic (cow_lookup P cb addr);
      delta ← orPanic (apply_storage data (map_to_list smap));
      accts ← Upsert (sd_Accts (cow_mods cb)) addr delta;
      fold_sdeltas P (cb <| cow_mods := cow_mods cb <| sd_Accts := accts |> |>) rest
  end.

Definition deltas : M cowStack LedgerStateDelta := fun s =>
  match fold_sdeltas (cs_parent s) (cs_cur s) (map_to_list (cow_sdeltas (cs_cur s))) with
  | Ok cb => (Ok (cow_mods cb), s <| cs_cur := cb |>)
  | Err e => (Err e, s)
  | Panic => (Panic, s)
  end.

(** *** Totals *)

Fixpoint total_changes (P : roundCowParent) (proto : ConsensusParams) (brs : list BalanceRecord)
    (totals : AccountTotals) (ot : OverflowTracker) : outcome (AccountTotals * OverflowTracker) :=
  match brs with
  | [] => Ok (totals, ot)
  | br :: rest =>
      previous ← wrapErr (Errorf "roundCowState.CalculateTotals unable to load account data")
                   (par_lookup P (br_Addr br));
      '(totals, ot) ← DelAccount proto previous totals ot;
      '(totals, ot) ← AddAccount proto (br_AccountData br) totals ot;
      total_changes P proto rest totals ot
  end.

Definition CalculateTotals : M cowStack unit := fun s =>
  let cb := cs_cur s in
  let r :=
    _ ← failIf (cow_hasCommitParent cb) (Errorf "CalculateTotals should be called only on a top-level cow");
    let '(totals, ot) := ApplyRewards (rewardsLevel cb) (cow_prevTotals cb) false in
    '(totals, ot) ← total_changes (cs_parent s) (cow_proto cb) (accts (sd_Accts (cow_mods cb))) totals ot;
    _ ← failIf ot (Errorf "CalculateTotals overflowed totals");
    all ← All totals;
    prevAll ← All (cow_prevTotals cb);
    _ ← failIf (negb (all =? prevAll)) (Errorf "CalculateTotals sum of money changed");
    Ok totals in
  match r with
  | Ok totals =>
      (Ok tt, s <| cs_cur := cb <| cow_mods := cow_mods cb <| sd_Totals := totals |> |> |>)
  | Err e => (Err e, s)
  | Panic => (Panic, s)
  end.

(** *** The operations of [apply.Balances] (eval.go) *)

Definition cow_Get (addr : Address) (withPendingRewards : bool) : M cowStack AccountData :=
  acct ← lookup addr;
  if withPendingRewards then
    cb ← gets cs_cur;
    lift (WithUpdatedRewards (cow_proto cb) (rewardsLevel cb) acct)
  else mret acct.

Definition cow_GetCreator (cidx : CreatableIndex) (ctype : CreatableType) : M cowStack (Address * bool) :=
  getCreator cidx ctype.

Definition cow_Put (addr : Address) (acct : AccountData) : M cowStack unit :=
  m ← gets (fun s => cow_mods (cs_cur s));
  accts ← lift (Upsert (sd_Accts m) addr acct);
  modify_mods (fun m => m <| sd_Accts := accts |>).

(** Accumulate the rewards an account has just received, when asked to. *)
Definition trackRewards (tracked : option Z) (new old : Z) : outcome (option Z) :=
  match tracked with
  | None => Ok None
  | Some r =>
      let '(gain, ot) := ot_SubA false new old in
      let '(sum, ot) := ot_AddA ot r gain in
      if ot then Err (Errorf "overflowed tracking of rewards") else Ok (Some sum)
  end.

Definition cow_Move (from to : Address) (amt : Z) (fromRewards toRewards : option Z)
    : M cowStack (option Z * option Z) :=
  cb ← gets cs_cur;
  let rewardlvl := rewardsLevel cb in
  fromBal ← lookup from;
  fromBalNew ← lift (WithUpdatedRewards (cow_proto cb) rewardlvl fromBal);
  fromRewards ← lift (trackRewards fromRewards (acct_MicroNovas fromBalNew) (acct_MicroNovas fromBal));
  let '(novas, overflowed) := OSubA (acct_MicroNovas fromBalNew) amt in
  _ ← throwIf overflowed (Errorf "overspend");
  _ ← cow_Put from (fromBalNew <| acct_MicroNovas := novas |>);
  toBal ← lookup to;
  toBalNew ← lift (WithUpdatedRewards (cow_proto cb) rewardlvl toBal);
  toRewards ← lift (trackRewards toRewards (acct_MicroNovas toBalNew) (acct_MicroNovas toBal));
  let '(novas, overflowed) := OAddA (acct_MicroNovas toBalNew) amt in
  _ ← throwIf overflowed (Errorf "balance overflow");
  _ ← cow_Put to (toBalNew <| acct_MicroNovas := novas |>);
  mret (fromRewards, toRewards).

Section compactcerts.
  Context (Verify : CompactCertVerifierParams -> list Z -> CertBuilder.Cert -> outcome unit).

Definition cow_compactCert (certRnd : Round) (certType : Z) (cert : CertBuilder.Cert) (atRound : Round)
    (validate : bool) : M cowStack unit :=
  _ ← throwIf (negb (certType =? CompactCertBasic)) (Errorf "compact cert type not supported");
  nextCertRnd ← gets (fun s => par_compactCertNext (cs_view s));
  certHdr ← asks (fun P => par_blockHdr P certRnd);
  let proto := ConsensusOf (bh_CurrentProtocol certHdr) in
  _ ← (if validate then
         let votersRnd := Round_SubSaturate certRnd (proto_CompactCertRounds proto) in
         votersHdr ← asks (fun P => par_blockHdr P votersRnd);
         lift (validateCompactCert Verify certHdr cert votersHdr nextCertRnd atRound)
       else mret tt);
  modify_cur (setCompactCertNext (wrap64 (certRnd + proto_CompactCertRounds proto))).

End compactcerts.

(** *** Evaluation deltas and application calls *)

(** The deltas of one address for application [aidx], in iteration order; the
    accumulator holds whether a global delta was found. *)
Fixpoint eval_delta_addr (cb : roundCowState) (aidx : AppIndex) (txn : Transaction) (addr : Address)
    (smod : list (storagePtr * storageDelta)) (acc : EvalDelta * bool) : outcome (EvalDelta * bool) :=
  match smod with
  | [] => Ok acc
  | ((a, global), sdelta) :: rest =>
      let '(ed, foundGlobal) := acc in
      _ ← failIf (negb (a =? aidx)) (Errorf "found storage delta for different app");
      acc ← (if (global : bool) then
               _ ← failIf foundGlobal (Errorf "found more than one global delta");
               Ok (mkEvalDelta (stateDelta_serialize (sto_kvCow sdelta)) (ed_LocalDeltas ed)
                     (ed_Logs ed) (ed_InnerTxns ed), true)
             else
               addrOffset ← (if cow_compatibilityMode cb then Ok (sto_accountIdx sdelta)
                             else IndexByAddress (tx_ApplicationCall txn) addr (hdr_Sender (tx_Header txn)));
               let d := stateDelta_serialize (sto_kvCow sdelta) in
               let us := bh_UpgradeState (cow_hdr cb) in
               let noEmptyDeltas := proto_NoEmptyLocalDeltas (cow_proto cb) ||
                 (String.eqb (us_CurrentProtocol us) ConsensusV24 &&
                  negb (String.eqb (us_NextProtocol us) ConsensusV26)) in
               Ok (if negb noEmptyDeltas || negb (bool_decide (d = ∅))
                   then mkEvalDelta (ed_GlobalDelta ed) (<[addrOffset := d]> (ed_LocalDeltas ed))
                          (ed_Logs ed) (ed_InnerTxns ed)
                   else ed, foundGlobal));
      eval_delta_addr cb aidx txn addr rest acc
  end.

Fixpoint eval_delta_all (cb : roundCowState) (aidx : AppIndex) (txn : Transaction)
    (sds : list (Address * gmap storagePtr storageDelta)) (acc : EvalDelta * bool)
    : outcome (EvalDelta * bool) :=
  match sds with
  | [] => Ok acc
  | (addr, smod) :: rest =>
      acc ← eval_delta_addr cb aidx txn addr (map_to_list smod) acc;
      eval_delta_all cb aidx txn rest acc
  end.

Definition BuildEvalDelta (aidx : AppIndex) (txn : Transaction) (cb : roundCowState) : outcome EvalDelta :=
  '(ed, _) ← eval_delta_all cb aidx txn (map_to_list (cow_sdeltas cb)) (EvalDelta_zero, false);
  Ok ed.

(** Drop the child at the top of [calf], which was pushed on [s]. *)
Definition discard (calf s : cowStack) : cowStack :=
  match cs_parents calf with
  | p :: rest => mkCowStack p rest
  | [] => s
  end.

(** [StatefulEval] runs a program in a child cow.  The interpreter
    [logic.EvalContract] is an argument: it runs on the stack and on the
    evaluation parameters [V] of the transaction group, and returns whether the
    program passed and the [EvalDelta] it left in the parameters. *)
Definition StatefulEval {V : Type} (evalContract : M (cowStack * V) (bool * EvalDelta))
    (txn : Transaction) (aidx : AppIndex) : M (cowStack * V) (bool * EvalDelta) := fun '(s, v) =>
  match evalContract (child 1 s, v) with
  | (Ok (pass, paramsDelta), (calf, v')) =>
      if pass then
        match
          (if proto_LogicSigVersion (cow_proto (cs_cur s)) <? 6 then
             ed ← BuildEvalDelta aidx txn (cs_cur calf);
             Ok (mkEvalDelta (ed_GlobalDelta ed) (ed_LocalDeltas ed) (ed_Logs paramsDelta)
                   (ed_InnerTxns paramsDelta))
           else Ok paramsDelta)
        with
        | Ok evalDelta =>
            let '(r, s') := commitToParent calf in
            (_ ← r; Ok (true, evalDelta), (s', v'))
        | Err e => (Err e, (discard calf s, v'))
        | Panic => (Panic, (s, v'))
        end
      else (Ok (false, EvalDelta_zero), (discard calf s, v'))
  | (Err e, (calf, v')) =>
      (Err (match e with ClearStateBudgetError => e | _ => LogicEvalError e end),
       (discard calf s, v'))
  | (Panic, (calf, v')) => (Panic, (s, v'))
  end.

End cow.
