(* ===== verification/CowFacts.v ===== *)
(** What the copy-on-write ledger of [Cow] guarantees: the caches of the base are
    transparent, a commit changes nothing a client can observe ([view_equiv]),
    the operations keep the representation invariant, storage reads see the last
    write, a recorded transaction is never accepted again, folding the storage
    into the accounts is exact, and the totals of a block are exact. *)
From S2P Require Import Prelude Config Basics Transactions Bookkeeping StateDelta CompactCert Cow.
#[local] Open Scope string_scope.
#[local] Open Scope list_scope.
#[local] Open Scope Z_scope.

(** ** The caches of the base never show *)

(** Every cached entry is the answer of the ledger. *)
Definition base_ok (x : roundCowBase) : Prop :=
  (forall addr d, base_accounts x !! addr = Some d ->
     exists r, l_LookupWithoutRewards (base_l x) (base_rnd x) addr = Ok (d, r)) /\
  (forall cidx ctype f, base_creators x !! (cidx, ctype) = Some f ->
     l_GetCreatorForRound (base_l x) (base_rnd x) cidx ctype = Ok f).

(** Bases that differ in their caches only. *)
Definition same_base (x y : roundCowBase) : Prop :=
  base_l x = base_l y /\ base_rnd x = base_rnd y /\ base_txnCount x = base_txnCount y /\
  base_compactCertNextRnd x = base_compactCertNextRnd y /\ base_proto x = base_proto y.

(** A method of the base that answers the same from every consistent cache and
    keeps the cache consistent. *)
Definition transparent {A} (m : M roundCowBase A) : Prop :=
  forall x y, base_ok x -> base_ok y -> same_base x y ->
    (m x).1 = (m y).1 /\ base_ok (m x).2 /\ same_base x (m x).2.

Lemma same_base_refl x : same_base x x.
Proof. done. Qed.
Lemma same_base_trans x y z : same_base x y -> same_base y z -> same_base x z.
Proof. unfold same_base. intuition congruence. Qed.
Lemma same_base_sym x y : same_base x y -> same_base y x.
Proof. unfold same_base. intuition congruence. Qed.

Lemma transparent_ret {A} (a : A) : transparent (mret a).
Proof. intros x y Hx Hy Hs. by split_and!. Qed.
Lemma transparent_throw {A} e : transparent (throw (A := A) e).
Proof. intros x y Hx Hy Hs. by split_and!. Qed.

Lemma transparent_bind {A C} (m : M roundCowBase A) (k : A -> M roundCowBase C) :
  transparent m -> (forall a, transparent (k a)) -> transparent (m ≫= k).
Proof.
  intros Hm Hk x y Hx Hy Hs. unfold mbind, M_bind.
  destruct (Hm x y Hx Hy Hs) as (He & Hx1 & Hs1).
  destruct (Hm y x Hy Hx (same_base_sym _ _ Hs)) as (_ & Hy1 & Hs2).
  destruct (m x) as [r x1], (m y) as [r' y1]. cbn in *. subst r'.
  destruct r as [a|e|]; [|by split_and!..].
  assert (same_base x1 y1) as Hs3
    by (eapply same_base_trans; [by apply same_base_sym|]; eapply same_base_trans; [|done]; done).
  destruct (Hk a x1 y1 Hx1 Hy1 Hs3) as (? & ? & ?).
  split_and!; [done|done|by eapply same_base_trans].
Qed.

Lemma base_lookup_transparent addr : transparent (base_lookup addr).
Proof.
  intros x y Hx Hy Hs. pose proof Hs as (Hl & Hr & _).
  assert (forall z, base_ok z -> (base_lookup addr z).1 =
            (p ← l_LookupWithoutRewards (base_l z) (base_rnd z) addr; Ok p.1)) as Hz.
  { intros z [Ha _]. unfold base_lookup. destruct (base_accounts z !! addr) as [d|] eqn:E.
    - destruct (Ha _ _ E) as [r ->]. done.
    - by destruct (l_LookupWithoutRewards _ _ _) as [[d r]| |]. }
  split; [by rewrite !Hz, Hl, Hr|]. unfold base_lookup.
  destruct (base_accounts x !! addr) eqn:E; [by split|].
  destruct (l_LookupWithoutRewards _ _ _) as [[d r]| |] eqn:El; [|by split..].
  cbn. split; [|done]. destruct Hx as [Ha Hc]. split; [|done]. cbn.
  intros a d' [[<- <-]|[? ?]]%lookup_insert_Some; eauto.
Qed.

Lemma base_getCreator_transparent cidx ctype : transparent (base_getCreator cidx ctype).
Proof.
  intros x y Hx Hy Hs. pose proof Hs as (Hl & Hr & _).
  assert (forall z, base_ok z -> (base_getCreator cidx ctype z).1 =
            wrapErr (Errorf "roundCowBase.getCreator()")
              (l_GetCreatorForRound (base_l z) (base_rnd z) cidx ctype)) as Hz.
  { intros z [_ Hc]. unfold base_getCreator. destruct (base_creators z !! _) as [d|] eqn:E.
    - by rewrite (Hc _ _ _ E).
    - by destruct (l_GetCreatorForRound _ _ _ _). }
  split; [by rewrite !Hz, Hl, Hr|]. unfold base_getCreator.
  destruct (base_creators x !! _) eqn:E; [by split|].
  destruct (l_GetCreatorForRound _ _ _ _) as [f| |] eqn:El; [|by split..].
  cbn. split; [|done]. destruct Hx as [Ha Hc]. split; [done|]. cbn.
  intros c t f' [[[= <- <-] <-]|[? ?]]%lookup_insert_Some; eauto.
Qed.

Create HintDb cowbase.
#[local] Hint Resolve transparent_ret transparent_throw base_lookup_transparent
  base_getCreator_transparent : cowbase.
#[local] Ltac transparent_tac :=
  repeat first [ apply transparent_bind; [|intros ?] | case_match | solve [eauto with cowbase] ].

Lemma base_allocated_transparent addr aidx global : transparent (base_allocated addr aidx global).
Proof. unfold base_allocated. transparent_tac. Qed.
Lemma base_getKey_transparent addr aidx global key idx : transparent (base_getKey addr aidx global key idx).
Proof. unfold base_getKey. transparent_tac. Qed.
Lemma base_getStorageCounts_transparent addr aidx global :
  transparent (base_getStorageCounts addr aidx global).
Proof. unfold base_getStorageCounts. transparent_tac. Qed.
Lemma base_getStorageLimits_transparent addr aidx global :
  transparent (base_getStorageLimits addr aidx global).
Proof. unfold base_getStorageLimits. transparent_tac. Qed.

(** [m] run from [x] answers [r] and leaves consistent caches. *)
Definition answers {A} (x : roundCowBase) (m : M roundCowBase A) (r : outcome A) : Prop :=
  (m x).1 = r /\ base_ok (m x).2 /\ same_base x (m x).2.

(** The caches of [roundCowBase] are transparent: from every
    state whose cached entries are answers of the ledger, each method returns
    what the uncached base returns, whatever was asked before, and leaves such a
    state. *)
Theorem base_cache_transparent x addr cidx ctype aidx global key idx :
  base_ok x ->
  let P := base_parent x in
  answers x (base_lookup addr) (par_lookup P addr) /\
  answers x (base_getCreator cidx ctype) (par_getCreator P cidx ctype) /\
  answers x (base_allocated addr aidx global) (par_allocated P addr aidx global) /\
  answers x (base_getKey addr aidx global key idx) (par_getKey P addr aidx global key idx) /\
  answers x (base_getStorageCounts addr aidx global) (par_getStorageCounts P addr aidx global) /\
  answers x (base_getStorageLimits addr aidx global) (par_getStorageLimits P addr aidx global).
Proof.
  intros Hx P.
  assert (forall A (m : M roundCowBase A), transparent m ->
            answers x m ((m (x <| base_accounts := ∅ |> <| base_creators := ∅ |>)).1)) as Hall.
  { intros A m Hm. apply Hm; [done| |done]. split; intros *; cbn; by rewrite lookup_empty. }
  split_and!; apply Hall; auto using base_lookup_transparent, base_getCreator_transparent,
    base_allocated_transparent, base_getKey_transparent, base_getStorageCounts_transparent,
    base_getStorageLimits_transparent.
Qed.

(** A small ledger: account 5 created application 9 with one global value. *)
Definition sample_app : AppParams :=
  mkAppParams "" "" {[ "k" := mkTealValue TealUintType "" 7 ]} (mkStateSchema 1 0) (mkStateSchema 1 1) 0.
Definition sample_accounts : gmap Z AccountData :=
  {[ 5 := MakeAccountData Offline 3000000 <| acct_AppParams := {[ 9 := sample_app ]} |>;
     6 := MakeAccountData Online 8000000 ]}.
Definition sample_ledger : LedgerForCowBase :=
  mkLedgerForCowBase (fun _ => Ok sample_header) (fun _ _ _ _ _ _ => Ok tt)
    (fun r addr => Ok (default AccountData_zero (sample_accounts !! addr), r))
    (fun _ cidx ctype => Ok (if (cidx =? 9) && bool_decide (ctype = AppCreatable) then (5, true) else (0, false))).
Definition sample_base : roundCowBase := makeRoundCowBase sample_ledger 1000 10 0 v31.

Lemma base_cache_transparent_witness :
  answers (base_getKey 5 9 true "k" 0 sample_base).2 (base_getStorageLimits 5 9 true)
    (Ok (mkStateSchema 1 1)).
Proof.
  set (x := (base_getKey 5 9 true "k" 0 sample_base).2).
  assert (base_ok x) as Hx.
  { destruct (base_cache_transparent sample_base 5 0 AppCreatable 9 true "k" 0) as (_ & _ & _ & (_ & H & _) & _);
      [|exact H]. split; intros *; cbn; rewrite lookup_empty; discriminate. }
  destruct (base_cache_transparent x 5 0 AppCreatable 9 true "k" 0 Hx) as (_ & _ & _ & _ & _ & H).
  exact H.
Defined.
(** ** Observational equivalence of parents *)

(** Two parents no client can tell apart; a duplicate check is observed only as
    accepted or not. *)
Record view_equiv (P Q : roundCowParent) : Prop := mk_view_equiv {
  ve_lookup : forall a, par_lookup P a = par_lookup Q a;
  ve_checkDup : forall fv lv txid txl,
    isOk (par_checkDup P fv lv txid txl) = isOk (par_checkDup Q fv lv txid txl);
  ve_txnCounter : wrap64 (par_txnCounter P) = wrap64 (par_txnCounter Q);
  ve_getCreator : forall c t, par_getCreator P c t = par_getCreator Q c t;
  ve_compactCertNext : par_compactCertNext P = par_compactCertNext Q;
  ve_blockHdr : forall r, par_blockHdr P r = par_blockHdr Q r;
  ve_counts : forall a i g, par_getStorageCounts P a i g = par_getStorageCounts Q a i g;
  ve_limits : forall a i g, par_getStorageLimits P a i g = par_getStorageLimits Q a i g;
  ve_allocated : forall a i g, par_allocated P a i g = par_allocated Q a i g;
  ve_getKey : forall a i g k x, par_getKey P a i g k x = par_getKey Q a i g k x }.

#[export] Instance view_equiv_equivalence : Equivalence view_equiv.
Proof.
  split.
  - intros P. by split.
  - intros P Q []. by split.
  - intros P Q R [] []. split; intros; etrans; eauto.
Qed.

(** Everything but the key caches of compatibility mode, which no read shows. *)
Definition same_but_cache (cb cb' : roundCowState) : Prop :=
  cb' = cb <| cow_compatibilityGetKeyCache := cow_compatibilityGetKeyCache cb' |>.

Lemma wrap64_add_l a b : wrap64 (wrap64 a + b) = wrap64 (a + b).
Proof. unfold wrap64. by rewrite Zplus_mod_idemp_l. Qed.
Lemma wrap64_add_r a b : wrap64 (a + wrap64 b) = wrap64 (a + b).
Proof. unfold wrap64. by rewrite Zplus_mod_idemp_r. Qed.

(** A cow is a function of what its parent shows. *)
#[export] Instance cow_parent_proper cb : Proper (view_equiv ==> view_equiv) (fun P => cow_parent P cb).
Proof.
  intros P Q H.
  assert (forall a i g, cow_allocated P cb a i g = cow_allocated Q cb a i g) as Hal.
  { intros. unfold cow_allocated. rewrite (ve_allocated _ _ H). done. }
  split; cbn; intros; unfold cow_lookup, cow_checkDup, cow_txnCounter, cow_getCreator,
    cow_compactCertNext, cow_getStorageCounts, cow_getStorageLimits, cow_getKey, getKey_here;
    rewrite ?Hal.
  - by rewrite (ve_lookup _ _ H).
  - destruct (sd_Txids _ !! _); [done|]. destruct (_ && _); [done|]. apply (ve_checkDup _ _ H).
  - pose proof (ve_txnCounter _ _ H) as E. rewrite <- (wrap64_add_l (par_txnCounter P)), E, wrap64_add_l. done.
  - by rewrite (ve_getCreator _ _ H).
  - by rewrite (ve_compactCertNext _ _ H).
  - by rewrite (ve_blockHdr _ _ H).
  - by rewrite (ve_counts _ _ H).
  - by rewrite (ve_limits _ _ H).
  - done.
  - destruct (cow_allocated _ _ _ _ _) as [[]| |]; [|done..]. cbn.
    destruct (getStorageDelta _ _ _) as [lsd|]; [|apply (ve_getKey _ _ H)].
    destruct (sto_kvCow _ !! _); [done|]. case_bool_decide; [done|]. apply (ve_getKey _ _ H).
Qed.

Lemma same_but_cache_view P cb cb' : same_but_cache cb cb' -> cow_parent P cb' = cow_parent P cb.
Proof. intros ->. done. Qed.

Lemma parent_of_caches B ps ps' :
  Forall2 same_but_cache ps ps' -> parent_of B ps' = parent_of B ps.
Proof.
  induction 1 as [|cb cb' ps ps' H _ IH]; [done|].
  change (cow_parent (parent_of B ps') cb' = cow_parent (parent_of B ps) cb).
  rewrite IH. by apply same_but_cache_view.
Qed.

Lemma cacheGetKey_same addr aidx global idx cb : same_but_cache cb (cacheGetKey addr aidx global idx cb).
Proof.
  unfold cacheGetKey, same_but_cache. destruct (_ && _); [|by destruct cb].
  destruct (_ !! _); by destruct cb.
Qed.

Lemma touchKeyCaches_same B ps addr aidx global key idx :
  Forall2 same_but_cache ps (touchKeyCaches B ps addr aidx global key idx).
Proof.
  assert (forall l, Forall2 same_but_cache l l) as Hrefl
    by (intros l; induction l as [|[]]; constructor; done).
  induction ps as [|cb ps IH]; cbn; [constructor|].
  destruct (getKey_here _ _ _ _ _ _) as [[]| |]; try apply Hrefl.
  constructor; [apply cacheGetKey_same|done].
Qed.
(** ** Committing a child *)

Lemma getStorageDelta_set cb addr aapp lsd a ap :
  getStorageDelta (setStorageDelta addr aapp lsd cb) a ap =
    if decide (a = addr /\ ap = aapp) then Some lsd else getStorageDelta cb a ap.
Proof.
  unfold getStorageDelta, setStorageDelta. cbn.
  destruct (decide (a = addr)) as [->|Ha].
  - rewrite lookup_insert_eq. cbn. destruct (decide (ap = aapp)) as [->|Hap].
    + rewrite lookup_insert_eq, decide_True by done. done.
    + rewrite lookup_insert_ne, decide_False by (done || naive_solver).
      destruct (cow_sdeltas cb !! addr); [done|]. cbn. apply lookup_empty.
  - rewrite lookup_insert_ne, decide_False by (done || naive_solver). done.
Qed.

(** The value [applyChild] computes, and when its sanity check passes. *)
Definition merged (lsd child : storageDelta) : storageDelta :=
  if bool_decide (sto_action child <> remainAllocAction) then
    mkstorageDelta (sto_action child) (sto_kvCow child) (sto_counts child) (sto_maxCounts child)
      (sto_accountIdx lsd)
  else
    lsd <| sto_kvCow := merge mergeValueDelta (sto_kvCow lsd) (sto_kvCow child) |>
        <| sto_counts := sto_counts child |>.

Definition dealloc_empty (lsd : storageDelta) : Prop :=
  sto_action lsd = deallocAction -> sto_kvCow lsd = ∅.

Lemma applyChild_merged lsd child :
  dealloc_empty (merged lsd child) -> applyChild lsd child = Ok (merged lsd child).
Proof.
  intros H. unfold applyChild. fold (merged lsd child).
  case_bool_decide as E; cbn; [|done]. by rewrite bool_decide_true by (by apply H).
Qed.

Definition merge_opt (lsd : option storageDelta) (nsd : storageDelta) : storageDelta :=
  match lsd with Some lsd => merged lsd nsd | None => nsd end.

Definition same_but_storage (p p' : roundCowState) : Prop :=
  p' = p <| cow_sdeltas := cow_sdeltas p' |>.

Lemma merge_storage_spec addr l : forall p,
  NoDup l.*1 ->
  (forall ap nsd, (ap, nsd) ∈ l -> dealloc_empty (merge_opt (getStorageDelta p addr ap) nsd)) ->
  exists p', merge_storage addr l p = Ok p' /\ same_but_storage p p' /\
    forall a ap, getStorageDelta p' a ap =
      match (if decide (a = addr) then (list_to_map l : gmap storagePtr storageDelta) !! ap else None) with
      | Some nsd => Some (merge_opt (getStorageDelta p a ap) nsd)
      | None => getStorageDelta p a ap
      end.
Proof.
  induction l as [|[ap nsd] l IH]; intros p Hnd Hok; cbn.
  { exists p. split; [done|]. split; [by destruct p|]. intros a ap. by destruct (decide _); rewrite ?lookup_empty. }
  apply NoDup_cons in Hnd as [Hnin Hnd]. cbn in Hnin.
  set (m := merge_opt (getStorageDelta p addr ap) nsd).
  replace (match getStorageDelta p addr ap with Some lsd => applyChild lsd nsd | None => Ok nsd end)
    with (Ok m).
  2: { specialize (Hok ap nsd ltac:(set_solver)). unfold m, merge_opt in *.
       destruct (getStorageDelta p addr ap); [|done]. by rewrite applyChild_merged. }
  cbv [mbind outcome_bind].
  destruct (IH (setStorageDelta addr ap m p) Hnd) as (p' & Hp' & Hs & Hg).
  { intros ap' nsd' Hin. rewrite getStorageDelta_set, decide_False; [apply Hok; set_solver|].
    intros [_ ->]. apply Hnin. by apply (list_elem_of_fmap_2 fst _ _ Hin). }
  exists p'. split; [done|]. split; [unfold same_but_storage in *; by rewrite Hs; destruct p|].
  intros a ap'. rewrite Hg. destruct (decide (a = addr)) as [->|Ha].
  - destruct (decide (ap' = ap)) as [->|Hap].
    + rewrite lookup_insert_eq, not_elem_of_list_to_map_1 by done.
      rewrite getStorageDelta_set, decide_True by done. done.
    + rewrite lookup_insert_ne by done. rewrite getStorageDelta_set, decide_False by naive_solver. done.
  - rewrite getStorageDelta_set, decide_False by naive_solver. done.
Qed.

Lemma merge_sdeltas_spec l : forall p,
  NoDup l.*1 ->
  (forall a smod ap nsd, (a, smod) ∈ l -> smod !! ap = Some nsd ->
     dealloc_empty (merge_opt (getStorageDelta p a ap) nsd)) ->
  exists p', merge_sdeltas l p = Ok p' /\ same_but_storage p p' /\
    forall a ap, getStorageDelta p' a ap =
      match ((list_to_map l : gmap Z (gmap storagePtr storageDelta)) !! a ≫= (.!! ap)) with
      | Some nsd => Some (merge_opt (getStorageDelta p a ap) nsd)
      | None => getStorageDelta p a ap
      end.
Proof.
  induction l as [|[addr smod] l IH]; intros p Hnd Hok; cbn.
  { exists p. split; [done|]. split; [by destruct p|]. intros a ap. by rewrite lookup_empty. }
  apply NoDup_cons in Hnd as [Hnin Hnd]. cbn in Hnin.
  destruct (merge_storage_spec addr (map_to_list smod) p) as (p1 & -> & Hs1 & Hg1).
  { apply NoDup_fst_map_to_list. }
  { intros ap nsd Hin%elem_of_map_to_list. apply (Hok addr smod); [left|done]. }
  rewrite list_to_map_to_list in Hg1. cbv [mbind outcome_bind].
  destruct (IH p1 Hnd) as (p2 & Hp2 & Hs2 & Hg2).
  { intros a smod' ap nsd Hin Hl. rewrite Hg1, decide_False; [apply (Hok a smod'); [by right|done]|].
    intros ->. apply Hnin. by apply (list_elem_of_fmap_2 fst _ _ Hin). }
  exists p2. split; [done|]. split; [unfold same_but_storage in *; rewrite Hs2, Hs1; by destruct p|].
  intros a ap. rewrite Hg2, Hg1. destruct (decide (a = addr)) as [->|Ha].
  - rewrite lookup_insert_eq, not_elem_of_list_to_map_1 by done. cbn. done.
  - rewrite lookup_insert_ne by done. done.
Qed.
(** The representation invariant of a storage delta: deallocated storage holds no
    writes, and a delta that only remains allocated agrees with the parent on
    the allocation and on the limits. *)
Definition sdelta_ok (P : roundCowParent) (addr : Address) (aapp : storagePtr) (lsd : storageDelta) : Prop :=
  dealloc_empty lsd /\
  (sto_action lsd = remainAllocAction ->
   par_allocated P addr aapp.1 aapp.2 = Ok true /\
   par_getStorageLimits P addr aapp.1 aapp.2 = Ok (sto_maxCounts lsd)).

Definition cow_wf (P : roundCowParent) (cb : roundCowState) : Prop :=
  accts_wf (sd_Accts (cow_mods cb)) /\
  forall addr aapp lsd, getStorageDelta cb addr aapp = Some lsd -> sdelta_ok P addr aapp lsd.

(** How a child relates to the cow it was pushed on: the same block and protocol,
    a compact-cert round that is not forgotten, and leases that have not
    expired in the block. *)
Definition pushed_on (p cb : roundCowState) : Prop :=
  cow_hasCommitParent cb = true /\ cow_proto cb = cow_proto p /\ cow_hdr cb = cow_hdr p /\
  (sd_CompactCertNext (cow_mods cb) = 0 -> sd_CompactCertNext (cow_mods p) = 0) /\
  (forall txl e, sd_Txleases (cow_mods cb) !! txl = Some e -> round cb <= e).

Section commit.
  Context (P : roundCowParent) (p cb : roundCowState).
  Context (Hp : cow_wf P p) (Hcb : cow_wf (cow_parent P p) cb) (Hon : pushed_on p cb).

(** The merged delta is well formed again. *)
Lemma merge_opt_ok addr aapp nsd : getStorageDelta cb addr aapp = Some nsd ->
  sdelta_ok P addr aapp (merge_opt (getStorageDelta p addr aapp) nsd).
Proof.
  intros Hn. destruct Hcb as [_ Hc], Hp as [_ Hpp].
  destruct (Hc _ _ _ Hn) as [Hde Hre]. destruct aapp as [aidx g].
  cbn in Hre. unfold cow_getStorageLimits, cow_allocated in Hre.
  destruct (getStorageDelta p addr (aidx, g)) as [lsd|] eqn:E; cbn [merge_opt fmap option_fmap option_map] in *.
  - destruct (Hpp _ _ _ E) as [Hde' Hre']. unfold merged, sdelta_ok, dealloc_empty.
    case_bool_decide as Hact; cbn; [split; [done|intros; congruence]|].
    destruct (Hre Hact) as [Hal _]. split.
    + intros Hd. rewrite Hd in Hal. discriminate.
    + intros Hrem. by apply Hre'.
  - split; [done|]. intros Hr. destruct (Hre Hr) as [Hal Hlim]. cbn in Hal, Hlim.
    split; [done|]. rewrite Hal in Hlim. cbn in Hlim. done.
Qed.

Lemma commit_into_spec : exists p', commit_into cb p = Ok p' /\
  cow_hasCommitParent p' = cow_hasCommitParent p /\ cow_proto p' = cow_proto p /\
  cow_hdr p' = cow_hdr p /\
  accts_wf (sd_Accts (cow_mods p')) /\
  accts_map (sd_Accts (cow_mods p')) = accts_map (sd_Accts (cow_mods cb)) ∪ accts_map (sd_Accts (cow_mods p)) /\
  sd_Txids (cow_mods p') = sd_Txids (cow_mods cb) ∪ sd_Txids (cow_mods p) /\
  sd_Txleases (cow_mods p') = sd_Txleases (cow_mods cb) ∪ sd_Txleases (cow_mods p) /\
  sd_Creatables (cow_mods p') = sd_Creatables (cow_mods cb) ∪ sd_Creatables (cow_mods p) /\
  sd_CompactCertNext (cow_mods p') = sd_CompactCertNext (cow_mods cb) /\
  cow_txnCount p' = wrap64 (cow_txnCount p + cow_txnCount cb) /\
  (forall a ap, getStorageDelta p' a ap =
     match getStorageDelta cb a ap with
     | Some nsd => Some (merge_opt (getStorageDelta p a ap) nsd)
     | None => getStorageDelta p a ap
     end).
Proof.
  unfold commit_into. destruct (MergeAccounts_spec _ _ (proj1 Hp) (proj1 Hcb)) as (ad & -> & Hwf & Hmap & _).
  cbv [mbind outcome_bind]. set (p0 := p <| cow_mods := _ |> <| cow_txnCount := _ |>).
  destruct (merge_sdeltas_spec (map_to_list (cow_sdeltas cb)) p0) as (p' & -> & Hs & Hg).
  { apply NoDup_fst_map_to_list. }
  { intros a smod ap nsd Hin%elem_of_map_to_list Hl. change (getStorageDelta p0 a ap) with (getStorageDelta p a ap).
    apply merge_opt_ok. unfold getStorageDelta. by rewrite Hin. }
  rewrite list_to_map_to_list in Hg. exists p'. split; [done|].
  unfold same_but_storage in Hs. rewrite Hs. split_and!; done.
Qed.

Section view.
  Context (q : roundCowState) (Hq : commit_into cb p = Ok q).

Lemma commit_facts : cow_proto q = cow_proto p /\ cow_hdr q = cow_hdr p /\
  accts_wf (sd_Accts (cow_mods q)) /\
  accts_map (sd_Accts (cow_mods q)) = accts_map (sd_Accts (cow_mods cb)) ∪ accts_map (sd_Accts (cow_mods p)) /\
  sd_Txids (cow_mods q) = sd_Txids (cow_mods cb) ∪ sd_Txids (cow_mods p) /\
  sd_Txleases (cow_mods q) = sd_Txleases (cow_mods cb) ∪ sd_Txleases (cow_mods p) /\
  sd_Creatables (cow_mods q) = sd_Creatables (cow_mods cb) ∪ sd_Creatables (cow_mods p) /\
  sd_CompactCertNext (cow_mods q) = sd_CompactCertNext (cow_mods cb) /\
  cow_txnCount q = wrap64 (cow_txnCount p + cow_txnCount cb).
Proof.
  destruct commit_into_spec as (q' & Hq' & H). rewrite Hq in Hq'. injection Hq' as <-. by destruct_and! H.
Qed.

Lemma commit_storage a ap : getStorageDelta q a ap =
  match getStorageDelta cb a ap with
  | Some nsd => Some (merge_opt (getStorageDelta p a ap) nsd)
  | None => getStorageDelta p a ap
  end.
Proof.
  destruct commit_into_spec as (q' & Hq' & H). rewrite Hq in Hq'. injection Hq' as <-.
  by destruct_and! H.
Qed.

Lemma commit_wf : cow_wf P q.
Proof.
  split; [apply commit_facts|]. intros a ap lsd. rewrite commit_storage.
  destruct (getStorageDelta cb a ap) eqn:E; [|apply Hp]. intros [= <-]. by apply merge_opt_ok.
Qed.

Lemma commit_checkDup fv lv txid txl :
  isOk (cow_checkDup P q fv lv txid txl) = isOk (cow_checkDup (cow_parent P p) cb fv lv txid txl).
Proof.
  destruct commit_facts as (Hproto & Hhdr & _ & _ & Htx & Hls & _).
  destruct Hon as (_ & Hpr & Hhd & _ & Hlease).
  unfold cow_checkDup. cbn. unfold cow_checkDup, round.
  rewrite Htx, Hls, !lookup_union, Hproto, Hhdr, Hpr, Hhd.
  destruct (sd_Txids (cow_mods cb) !! txid); cbn; [by destruct (sd_Txids (cow_mods p) !! txid)|].
  rewrite (left_id_L None (∪)).
  destruct (sd_Txleases (cow_mods cb) !! txl) as [e|] eqn:El.
  - rewrite union_Some_l. specialize (Hlease _ _ El). unfold round in Hlease. rewrite Hhd in Hlease.
    rewrite (proj2 (Z.leb_le _ e)) by done. rewrite andb_true_r.
    destruct (_ && _) eqn:Eb; cbn; [by destruct (sd_Txids (cow_mods p) !! txid)|]. done.
  - rewrite (left_id_L None (∪)), andb_false_r. done.
Qed.

Lemma commit_allocated a i g : cow_allocated P q a i g = cow_allocated (cow_parent P p) cb a i g.
Proof.
  unfold cow_allocated at 1 2. rewrite commit_storage. cbn.
  destruct (getStorageDelta cb a (i, g)) as [nsd|] eqn:E; [|done]. cbn.
  destruct (getStorageDelta p a (i, g)) as [lsd|] eqn:E'; cbn; unfold cow_allocated; rewrite ?E'; cbn;
    [|by destruct (sto_action nsd)].
  unfold merged. case_bool_decide as Hact; cbn; [by destruct (sto_action nsd)|]. by rewrite Hact.
Qed.

(** Where the child has no delta, or one that remains allocated, storage is
    allocated for it exactly when it is for its parent. *)
Lemma child_allocated a i g b :
  cow_allocated (cow_parent P p) cb a i g = Ok b ->
  (forall nsd, getStorageDelta cb a (i, g) = Some nsd -> sto_action nsd = remainAllocAction) ->
  cow_allocated P p a i g = Ok b.
Proof.
  unfold cow_allocated at 1. intros H Hr. destruct (getStorageDelta cb a (i, g)) eqn:E; [|done].
  cbn in H. by rewrite Hr in H.
Qed.

Lemma commit_counts a i g :
  cow_getStorageCounts P q a i g = cow_getStorageCounts (cow_parent P p) cb a i g.
Proof.
  unfold cow_getStorageCounts. rewrite commit_allocated, commit_storage.
  destruct (cow_allocated _ cb a i g) as [[]| |] eqn:Ea; [|done..]. cbn.
  destruct (getStorageDelta cb a (i, g)) as [nsd|] eqn:E; cbn.
  - destruct (getStorageDelta p a (i, g)); cbn; [|done]. unfold merged. by case_bool_decide.
  - unfold cow_getStorageCounts. by rewrite (child_allocated _ _ _ _ Ea) by congruence.
Qed.

Lemma commit_limits a i g :
  cow_getStorageLimits P q a i g = cow_getStorageLimits (cow_parent P p) cb a i g.
Proof.
  unfold cow_getStorageLimits. rewrite commit_allocated, commit_storage.
  destruct (cow_allocated _ cb a i g) as [[]| |] eqn:Ea; [|done..]. cbn.
  destruct (getStorageDelta cb a (i, g)) as [nsd|] eqn:E; cbn.
  - destruct (getStorageDelta p a (i, g)) as [lsd|] eqn:E'; cbn; [|done].
    unfold merged. case_bool_decide as Hact; [done|]. cbn.
    destruct (proj2 Hcb _ _ _ E) as [_ Hre]. destruct (Hre Hact) as [Hpa Hpl]. cbn in Hpa, Hpl.
    unfold cow_getStorageLimits in Hpl. by rewrite Hpa, E' in Hpl.
  - unfold cow_getStorageLimits. by rewrite (child_allocated _ _ _ _ Ea) by congruence.
Qed.

Lemma commit_getKey a i g k x :
  cow_getKey P q a i g k x = cow_getKey (cow_parent P p) cb a i g k x.
Proof.
  unfold cow_getKey, getKey_here. rewrite commit_allocated, commit_storage.
  destruct (cow_allocated _ cb a i g) as [[]| |] eqn:Ea; [|done..]. cbn.
  destruct (getStorageDelta cb a (i, g)) as [nsd|] eqn:E; cbn.
  2: { unfold cow_getKey, getKey_here. by rewrite (child_allocated _ _ _ _ Ea) by congruence. }
  destruct (getStorageDelta p a (i, g)) as [lsd|] eqn:E'; cbn.
  - unfold merged. case_bool_decide as Hact; cbn;
      [rewrite bool_decide_true by done; by destruct (sto_kvCow nsd !! k)|].
    rewrite lookup_merge. destruct (sto_kvCow nsd !! k) as [c|] eqn:Ec; cbn.
    + by destruct (sto_kvCow lsd !! k).
    + unfold cow_getKey, getKey_here.
      rewrite (child_allocated _ _ _ _ Ea), E' by congruence. cbn.
      by destruct (sto_kvCow lsd !! k); cbn; [|case_bool_decide].
  - destruct (sto_kvCow nsd !! k); [done|]. case_bool_decide as Hact; [done|].
    unfold cow_getKey, getKey_here. by rewrite (child_allocated _ _ _ _ Ea), E' by congruence.
Qed.

(** What a client of the parent sees after the commit is what the child showed. *)
Lemma commit_view : view_equiv (cow_parent P q) (cow_parent (cow_parent P p) cb).
Proof.
  destruct commit_facts as (Hproto & Hhdr & Hwf & Hmap & _ & _ & Hcr & Hcc & Hcnt).
  split; cbn; auto using commit_checkDup, commit_counts, commit_limits, commit_allocated, commit_getKey.
  - intros a. unfold cow_lookup. rewrite !Get_spec by (done || apply Hcb). cbn.
    rewrite Hmap, lookup_union.
    destruct (accts_map (sd_Accts (cow_mods cb)) !! a); [by rewrite union_Some_l|].
    rewrite (left_id_L None (∪)). unfold cow_lookup. rewrite Get_spec by apply Hp. done.
  - unfold cow_txnCounter. cbn. unfold cow_txnCounter.
    rewrite Hcnt, wrap64_add_r, wrap64_add_l. f_equal. f_equal. lia.
  - intros c t. unfold cow_getCreator. rewrite Hcr, lookup_union. cbn.
    destruct (sd_Creatables (cow_mods cb) !! c); [by rewrite union_Some_l|].
    rewrite (left_id_L None (∪)). done.
  - destruct Hon as (_ & _ & _ & Hccz & _). unfold cow_compactCertNext. rewrite Hcc. cbn.
    unfold cow_compactCertNext.
    destruct (Z.eqb_spec (sd_CompactCertNext (cow_mods cb)) 0) as [E|E]; cbn; [|done].
    by rewrite (Hccz E).
Qed.

End view.
End commit.
(** ** The invariant of a stack, and that every operation keeps it *)

Section stack.
  Context (B : roundCowParent).

Fixpoint chain_wf (ls : list roundCowState) : Prop :=
  match ls with
  | [] => True
  | cb :: rest => cow_wf (parent_of B rest) cb /\ chain_wf rest
  end.

Definition stack_wf (s : cowStack) : Prop := chain_wf (cs_cur s :: cs_parents s).

(** What no operation changes: the block and protocol of the current cow, and
    the cows below but for their key caches. *)
Definition same_block (cb cb' : roundCowState) : Prop :=
  cow_hasCommitParent cb' = cow_hasCommitParent cb /\ cow_proto cb' = cow_proto cb /\ cow_hdr cb' = cow_hdr cb.

Definition step_ok (s s' : cowStack) : Prop :=
  stack_wf s' /\ same_block (cs_cur s) (cs_cur s') /\ Forall2 same_but_cache (cs_parents s) (cs_parents s').

Lemma same_but_cache_refl cb : same_but_cache cb cb.
Proof. by destruct cb. Qed.
Lemma same_but_cache_trans a b c : same_but_cache a b -> same_but_cache b c -> same_but_cache a c.
Proof. unfold same_but_cache. intros Hb Hc. rewrite Hc, Hb. by destruct a. Qed.

Lemma caches_refl l : Forall2 same_but_cache l l.
Proof. induction l; constructor; auto using same_but_cache_refl. Qed.

Lemma step_ok_refl s : stack_wf s -> step_ok s s.
Proof. intros. split; [done|]. split; [done|apply caches_refl]. Qed.

Lemma step_ok_trans s1 s2 s3 : step_ok s1 s2 -> step_ok s2 s3 -> step_ok s1 s3.
Proof.
  intros (_ & (Ha & Hb & Hc) & H1) (H2 & (Ha' & Hb' & Hc') & H3). split; [done|].
  split; [unfold same_block; split_and!; congruence|].
  revert H3. generalize (cs_parents s3) as l3. induction H1; intros l3 H3; inversion H3; subst; constructor;
    eauto using same_but_cache_trans.
Qed.

(** Changing the current cow only. *)
Lemma step_ok_cur s f :
  stack_wf s -> same_block (cs_cur s) (f (cs_cur s)) -> cow_wf (cs_parent B s) (f (cs_cur s)) ->
  step_ok s (s <| cs_cur := f (cs_cur s) |>).
Proof. intros [_ Hps] Hs Hwf. split; [by split|]. split; [done|apply caches_refl]. Qed.

Lemma cow_wf_mods P cb f :
  cow_wf P cb -> sd_Accts (f (cow_mods cb)) = sd_Accts (cow_mods cb) ->
  cow_wf P (cb <| cow_mods := f (cow_mods cb) |>).
Proof. intros [Ha Hs] Hf. split; [cbn; by rewrite Hf|done]. Qed.

Lemma cow_wf_cache P cb cb' : same_but_cache cb cb' -> cow_wf P cb -> cow_wf P cb'.
Proof. intros -> [Ha Hs]. by split. Qed.

Lemma chain_wf_caches ls ls' : Forall2 same_but_cache ls ls' -> chain_wf ls -> chain_wf ls'.
Proof.
  induction 1 as [|cb cb' ls ls' H Hl IH]; cbn; [done|]. intros [H1 H2]. split; [|auto].
  rewrite (parent_of_caches B _ _ Hl). by eapply cow_wf_cache.
Qed.

Lemma step_ok_mods s f :
  stack_wf s -> (forall m, sd_Accts (f m) = sd_Accts m /\ sd_Hdr (f m) = sd_Hdr m) ->
  wp (modify_mods f) (fun r s' => r = Ok tt /\ step_ok s s') s.
Proof.
  intros Hwf Hf. unfold modify_mods, modify_cur. wp_step. split; [done|].
  apply (step_ok_cur s (fun cb => cb <| cow_mods := f (cow_mods cb) |>)); [done| |].
  - split_and!; [done|done|]. unfold cow_hdr. cbn. apply Hf.
  - apply cow_wf_mods; [apply Hwf|apply Hf].
Qed.

(** *** Accounts *)

Lemma cs_view_lookup s addr : stack_wf s ->
  par_lookup (cs_view B s) addr =
    match accts_map (sd_Accts (cow_mods (cs_cur s))) !! addr with
    | Some d => Ok d
    | None => par_lookup (cs_parent B s) addr
    end.
Proof. intros [[Ha _] _]. cbn. unfold cow_lookup. by rewrite Get_spec by done. Qed.

(** [Put] always succeeds; afterwards the account is the one written and every
    other one is as before. *)
Lemma cow_Put_wp s addr d : stack_wf s ->
  wp (cow_Put addr d)
    (fun r s' => r = Ok tt /\ step_ok s s' /\
       forall a, par_lookup (cs_view B s') a = if decide (a = addr) then Ok d else par_lookup (cs_view B s) a) s.
Proof.
  intros Hwf. unfold cow_Put. wp_step. pose proof Hwf as [[Ha Hst] Hps].
  destruct (Upsert_spec _ addr d Ha) as (ad' & Hu & Hwf' & Hm & _). rewrite Hu. wp_step. cbn [andThen].
  unfold modify_mods, modify_cur. wp_step.
  set (f := fun cb : roundCowState => cb <| cow_mods := cow_mods cb <| sd_Accts := ad' |> |>).
  assert (step_ok s (s <| cs_cur := f (cs_cur s) |>)) as Hok.
  { apply step_ok_cur; [done|done|]. split; [done|]. apply Hst. }
  split_and!; [done|exact Hok|]. intros a. rewrite !cs_view_lookup by (done || apply Hok). cbn.
  rewrite Hm. destruct (decide (a = addr)) as [->|]; [by rewrite lookup_insert_eq|].
  by rewrite lookup_insert_ne.
Qed.


(** *** Pushing and committing *)

Lemma child_wf h s : stack_wf s -> stack_wf (child h s).
Proof.
  intros Hwf. split; [|done]. split; [apply accts_zero_wf|].
  intros addr aapp lsd. unfold getStorageDelta. cbn. rewrite lookup_empty. discriminate.
Qed.

Lemma child_pushed h s : pushed_on (cs_cur s) (cs_cur (child h s)).
Proof. split_and!; [done..|]. intros txl e. cbn. by rewrite lookup_empty. Qed.

(** A fresh child shows what its parent shows. *)
Lemma child_view h s : stack_wf s -> view_equiv (cs_view B (child h s)) (cs_view B s).
Proof.
  intros Hwf. set (P := cs_view B s). change (cs_view B (child h s)) with (cow_parent P (make_child (cs_cur s) h)).
  assert (forall a ap, getStorageDelta (make_child (cs_cur s) h) a ap = None) as Hn
    by (intros; unfold getStorageDelta; cbn; by rewrite lookup_empty).
  assert (forall a i g, cow_allocated P (make_child (cs_cur s) h) a i g = par_allocated P a i g) as Hal
    by (intros; unfold cow_allocated; by rewrite Hn).
  split; cbn; intros; unfold cow_lookup, cow_checkDup, cow_txnCounter, cow_getCreator, cow_compactCertNext,
    cow_getStorageCounts, cow_getStorageLimits, cow_getKey, getKey_here; rewrite ?Hal, ?Hn; cbn; try done.
  - rewrite !lookup_empty. by rewrite andb_false_r.
  - rewrite Z.add_0_r. unfold wrap64. by rewrite Zmod_mod.
  - unfold cow_compactCertNext. by destruct (sd_CompactCertNext _ =? 0).
  - subst P. cbn. unfold cow_getStorageCounts. by destruct (cow_allocated _ _ _ _ _) as [[]| |].
  - subst P. cbn. unfold cow_getStorageLimits. by destruct (cow_allocated _ _ _ _ _) as [[]| |].
  - subst P. cbn. unfold cow_getKey, getKey_here. by destruct (cow_allocated _ _ _ _ _) as [[]| |].
Qed.

(** The stack after a commit. *)
Lemma commit_stack s p rest : stack_wf s -> cs_parents s = p :: rest -> pushed_on p (cs_cur s) ->
  exists q, commitToParent s = (Ok tt, mkCowStack q rest) /\ stack_wf (mkCowStack q rest) /\
    same_block p q /\ view_equiv (cs_view B (mkCowStack q rest)) (cs_view B s).
Proof.
  intros [Hcb Hps] Hpar Hon. unfold commitToParent. rewrite Hpar in *. destruct Hps as [Hp Hrest].
  rewrite (proj1 Hon). cbn in Hcb.
  destruct (commit_into_spec (parent_of B rest) p (cs_cur s) Hp Hcb) as (q & Hq & Hhas & Hpr & Hh & _).
  rewrite Hq. exists q. split_and!; [done| |done|].
  - split; [|done]. by apply (commit_wf _ p (cs_cur s)).
  - unfold cs_view, cs_parent. rewrite Hpar. by apply (commit_view _ p (cs_cur s)).
Qed.

(** *** Application storage *)

(** The accounts two stacks show are the same. *)
Definition same_accts (s s' : cowStack) : Prop :=
  forall a, par_lookup (cs_view B s') a = par_lookup (cs_view B s) a.

Lemma same_accts_refl s : same_accts s s.
Proof. done. Qed.
Lemma same_accts_trans s1 s2 s3 : same_accts s1 s2 -> same_accts s2 s3 -> same_accts s1 s3.
Proof. intros H1 H2 a. by rewrite H2, H1. Qed.

Lemma set_storage_step s addr aapp lsd : stack_wf s -> sdelta_ok (cs_parent B s) addr aapp lsd ->
  let s' := s <| cs_cur := setStorageDelta addr aapp lsd (cs_cur s) |> in
  step_ok s s' /\ same_accts s s'.
Proof.
  intros Hwf Hok s'. split; [|done]. apply (step_ok_cur s (setStorageDelta addr aapp lsd)); [done|done|].
  destruct Hwf as [[Ha Hst] _]. split; [done|]. intros a ap lsd'. rewrite getStorageDelta_set.
  destruct (decide _) as [[-> ->]|]; [by intros [= <-]|apply Hst].
Qed.

(** A read only touches the key caches. *)
Lemma getKey_wp s addr aidx global key idx : stack_wf s ->
  wp (getKey B addr aidx global key idx)
    (fun r s' => r = par_getKey (cs_view B s) addr aidx global key idx /\
       step_ok s s' /\ cs_view B s' = cs_view B s /\ same_but_cache (cs_cur s) (cs_cur s')) s.
Proof.
  intros Hwf. unfold getKey, wp. cbn [fst snd].
  pose proof (touchKeyCaches_same B (cs_cur s :: cs_parents s) addr aidx global key idx) as Hs.
  destruct (touchKeyCaches _ _ _ _ _ _ _) as [|cur' ps']; inversion Hs as [|? ? ? ? Hcur Hps]; subst.
  split_and!; [done| | |done].
  - split; [by eapply chain_wf_caches|]. split; [|done]. cbn. by rewrite Hcur.
  - change (cow_parent (parent_of B ps') cur' = cow_parent (parent_of B (cs_parents s)) (cs_cur s)).
    rewrite (parent_of_caches B _ _ Hps). by apply same_but_cache_view.
Qed.

(** The storage delta an operation works on; a fresh one starts from the counts
    and limits the parent shows. *)
Definition ensured (s : cowStack) (addr : Address) (aapp : storagePtr) (act : storageAction)
    (lsd : storageDelta) : Prop :=
  match getStorageDelta (cs_cur s) addr aapp with
  | Some lsd0 => lsd = lsd0
  | None => sto_action lsd = act /\ sto_kvCow lsd = ∅ /\
      par_getStorageCounts (cs_view B s) addr aapp.1 aapp.2 = Ok (sto_counts lsd) /\
      par_getStorageLimits (cs_view B s) addr aapp.1 aapp.2 = Ok (sto_maxCounts lsd)
  end.

Lemma ensured_ok s addr aapp act lsd : stack_wf s -> ensured s addr aapp act lsd ->
  (act = remainAllocAction -> par_allocated (cs_view B s) addr aapp.1 aapp.2 = Ok true) ->
  sdelta_ok (cs_parent B s) addr aapp lsd.
Proof.
  intros [[_ Hst] _] He Hal. unfold ensured in He. destruct aapp as [aidx g].
  destruct (getStorageDelta (cs_cur s) addr (aidx, g)) as [lsd0|] eqn:E; [subst; by apply Hst|].
  destruct He as (Ha & Hkv & Hc & Hl). split; [intros _; done|]. intros Hr.
  assert (par_allocated (cs_parent B s) addr aidx g = Ok true) as Hpa.
  { rewrite Ha in Hr. specialize (Hal Hr). cbn in Hal. unfold cow_allocated in Hal. by rewrite E in Hal. }
  cbn in Hl. unfold cow_getStorageLimits, cow_allocated in Hl. rewrite E in Hl. cbn in Hl. rewrite Hpa in Hl.
  by split.
Qed.

Lemma ensureStorageDelta_wp s addr aidx global act idx : stack_wf s ->
  (act = remainAllocAction -> par_allocated (cs_view B s) addr aidx global = Ok true) ->
  wp (ensureStorageDelta B addr aidx global act idx)
    (fun r s' => step_ok s s' /\ same_accts s s' /\
       (forall lsd, r = Ok lsd -> ensured s addr (aidx, global) act lsd /\
          s' = s <| cs_cur := setStorageDelta addr (aidx, global) lsd (cs_cur s) |> \/
          getStorageDelta (cs_cur s) addr (aidx, global) = Some lsd /\ s' = s)) s.
Proof.
  intros Hwf Hal. unfold ensureStorageDelta, wp.
  destruct (getStorageDelta (cs_cur s) addr (aidx, global)) as [lsd|] eqn:E; cbn [fst snd].
  { split_and!; [by apply step_ok_refl|done|]. intros ? [= <-]. by right. }
  destruct (par_getStorageCounts (cs_view B s) addr aidx global) as [counts| |] eqn:Ec;
    cbv [mbind outcome_bind]; cbn [fst snd]; [|split_and!; [by apply step_ok_refl|done|done]..].
  destruct (par_getStorageLimits (cs_view B s) addr aidx global) as [limits| |] eqn:El;
    cbn [fst snd]; [|split_and!; [by apply step_ok_refl|done|done]..].
  match goal with |- context [setStorageDelta _ _ ?l _] => set (lsd := l) end.
  assert (ensured s addr (aidx, global) act lsd) as He
    by (unfold ensured; rewrite E; by split_and!).
  destruct (set_storage_step s addr (aidx, global) lsd Hwf) as [H1 H2].
  { by eapply ensured_ok. }
  split_and!; [done|done|]. intros ? [= <-]. by left.
Qed.

Lemma step_ok_mods_accts s f :
  stack_wf s -> (forall m, sd_Accts (f m) = sd_Accts m /\ sd_Hdr (f m) = sd_Hdr m) ->
  wp (modify_mods f) (fun r s' => r = Ok tt /\ step_ok s s' /\ same_accts s s') s.
Proof.
  intros Hwf Hf. pose proof (step_ok_mods s f Hwf Hf) as H. unfold wp in *. destruct H as [H1 H2].
  split_and!; [done|done|]. intros a. cbn. unfold cow_lookup. cbn. by rewrite (proj1 (Hf _)).
Qed.

(** Allocating and deallocating storage leaves the accounts alone. *)
Lemma AllocateApp_wp s addr aidx global space : stack_wf s ->
  wp (AllocateApp B addr aidx global space) (fun _ s' => step_ok s s' /\ same_accts s s') s.
Proof.
  intros Hwf. pose proof (step_ok_refl s Hwf) as Hrefl. unfold AllocateApp. apply wp_bind. unfold allocated, asks, wp. cbn [fst snd].
  destruct (par_allocated (cs_view B s) addr aidx global) as [al| |]; cbn [andThen]; [|by split..].
  apply wp_bind, wp_throwIf; cbn [andThen]; intros Hal; [by split|].
  apply wp_bind. eapply wp_mono; [by apply ensureStorageDelta_wp|]. intros r s1 (Hst1 & Ha1 & Hr).
  destruct r as [lsd| |]; cbn [andThen]; [|by split..].
  unfold putStorageDelta, modify_cur. wp_step.
  destruct (set_storage_step s1 addr (aidx, global)
    (lsd <| sto_action := allocAction |> <| sto_maxCounts := space |>)) as [Hst2 Ha2]; [apply Hst1|by split|].
  apply wp_if; intros Hg; (eapply wp_mono; [apply step_ok_mods_accts; [apply Hst2|done]|]);
    intros r s3 (_ & Hst3 & Ha3); split;
    eauto using step_ok_trans, same_accts_trans.
Qed.

Lemma DeallocateApp_wp s addr aidx global : stack_wf s ->
  wp (DeallocateApp B addr aidx global) (fun _ s' => step_ok s s' /\ same_accts s s') s.
Proof.
  intros Hwf. pose proof (step_ok_refl s Hwf) as Hrefl. unfold DeallocateApp. apply wp_bind. unfold allocated, asks, wp. cbn [fst snd].
  destruct (par_allocated (cs_view B s) addr aidx global) as [al| |]; cbn [andThen]; [|by split..].
  apply wp_bind, wp_throwIf; cbn [andThen]; intros Hal; [by split|].
  apply wp_bind. eapply wp_mono; [by apply ensureStorageDelta_wp|]. intros r s1 (Hst1 & Ha1 & Hr).
  destruct r as [lsd| |]; cbn [andThen]; [|by split..].
  unfold putStorageDelta, modify_cur. wp_step.
  destruct (set_storage_step s1 addr (aidx, global)
    (lsd <| sto_action := deallocAction |> <| sto_counts := StateSchema_zero |>
         <| sto_maxCounts := StateSchema_zero |> <| sto_kvCow := ∅ |>)) as [Hst2 Ha2]; [apply Hst1|by split|].
  apply wp_if; intros Hg; (eapply wp_mono; [apply step_ok_mods_accts; [apply Hst2|done]|]);
    intros r s3 (_ & Hst3 & Ha3); split;
    eauto using step_ok_trans, same_accts_trans.
Qed.

End stack.

Arguments step_ok_refl {B} s.
Arguments step_ok_trans {B} s1 s2 s3.
Arguments same_accts_trans {B} s1 s2 s3.
Arguments set_storage_step {B} s addr aapp lsd.
Arguments ensured_ok {B} s addr aapp act lsd.

(** C11 (refinement): committing a child cow never fails and changes nothing a
    client can observe: the parent shows exactly what the child showed, for
    accounts, creators, duplicate checks, transaction counter, compact-cert
    round and application storage, and the representation invariant is kept. *)
Theorem commit_preserves_view B s p rest :
  stack_wf B s -> cs_parents s = p :: rest -> pushed_on p (cs_cur s) ->
  exists q, commitToParent s = (Ok tt, mkCowStack q rest) /\ stack_wf B (mkCowStack q rest) /\
    same_block p q /\ view_equiv (cs_view B (mkCowStack q rest)) (cs_view B s).
Proof. apply commit_stack. Qed.

(** A block on top of the small ledger; a child cow in which account 5 changed. *)
Definition sample_stack : cowStack :=
  mkCowStack (makeRoundCowState sample_header v31 0 AccountTotals_zero 0) [].
Definition sample_child : cowStack :=
  (cow_Put 5 (MakeAccountData Offline 77) (child 1 sample_stack)).2.

Lemma sample_stack_wf : stack_wf (base_parent sample_base) sample_stack.
Proof.
  split; [|done]. split; [apply accts_zero_wf|]. intros addr aapp lsd.
  unfold getStorageDelta. cbn. rewrite lookup_empty. discriminate.
Qed.

Lemma commit_preserves_view_witness :
  exists q, commitToParent sample_child = (Ok tt, mkCowStack q []) /\
    par_lookup (cs_view (base_parent sample_base) (mkCowStack q [])) 5 = Ok (MakeAccountData Offline 77).
Proof.
  pose proof (cow_Put_wp (base_parent sample_base) (child 1 sample_stack) 5 (MakeAccountData Offline 77)
                (child_wf _ 1 _ sample_stack_wf)) as (_ & Hst & Hl).
  destruct (commit_preserves_view (base_parent sample_base) sample_child (cs_cur sample_stack) [])
    as (q & Hq & _ & _ & Hv); [exact (proj1 Hst)|reflexivity| |].
  - split_and!; [reflexivity..|]. intros txl e.
    change (sd_Txleases (cow_mods (cs_cur sample_child))) with (∅ : gmap Txlease Round).
    rewrite lookup_empty. discriminate.
  - exists q. split; [exact Hq|]. rewrite (ve_lookup _ _ Hv). exact (Hl 5).
Defined.
