(* ===== verification/CowStorage.v ===== *)
(** Application storage in the copy-on-write ledger: an application's store in an
    account is a finite map, reads answer from it, [SetKey] and [DelKey] update
    it, and the counters the schema limits are checked against are the counts of
    the map. *)
From S2P Require Import Prelude Config Basics Transactions Bookkeeping StateDelta CompactCert Cow.
From S2P Require Import CowFacts.
#[local] Open Scope string_scope.
#[local] Open Scope list_scope.
#[local] Open Scope Z_scope.

Section storage.
  Context (B : roundCowParent).
  #[local] Notation stack_wf := (stack_wf B).
  #[local] Notation step_ok := (step_ok B).
  #[local] Notation same_accts := (same_accts B).
  #[local] Notation ensured := (ensured B).

(** The store an application has in an account, as a finite map: every read
    answers from the map, and the counters are the counts of the map. *)
Definition teal_ok (v : TealValue) : Prop := tv_Type v = TealBytesType \/ tv_Type v = TealUintType.
Definition read_kv (m : gmap string TealValue) (k : string) : TealValue * bool :=
  match m !! k with Some v => (v, true) | None => (TealValue_zero, false) end.

Definition holds_store (P : roundCowParent) (addr : Address) (aidx : AppIndex) (global : bool)
    (m : gmap string TealValue) : Prop :=
  par_allocated P addr aidx global = Ok true /\
  (forall k x, par_getKey P addr aidx global k x = Ok (read_kv m k)) /\
  par_getStorageCounts P addr aidx global = Ok (countKV m) /\
  map_Forall (fun _ v => teal_ok v) m.

Definition uint_count (v : TealValue) : Z := if tv_Type v =? TealUintType then 1 else 0.

Lemma countKV_insert m k v : m !! k = None ->
  countKV (<[k := v]> m) =
    mkStateSchema (NumUint (countKV m) + uint_count v) (NumByteSlice (countKV m) + (1 - uint_count v)).
Proof.
  intros Hk. unfold countKV, uint_count. cbn.
  assert (forall Q : string * TealValue -> Prop, forall (dQ : forall x, Decision (Q x)),
            filter Q m !! k = None) as Hf
    by (intros; apply map_lookup_filter_None; by left).
  destruct (Z.eqb_spec (tv_Type v) TealUintType) as [E|E].
  - rewrite map_filter_insert_True, map_size_insert_None by auto.
    rewrite map_filter_insert_False, delete_id by (cbn; auto). f_equal; lia.
  - rewrite map_filter_insert_False, delete_id by (cbn; auto).
    rewrite map_filter_insert_True, map_size_insert_None by (cbn; auto). f_equal; lia.
Qed.

Lemma countKV_delete m k v : m !! k = Some v ->
  countKV m =
    mkStateSchema (NumUint (countKV (delete k m)) + uint_count v)
      (NumByteSlice (countKV (delete k m)) + (1 - uint_count v)).
Proof.
  intros Hk. rewrite <- (countKV_insert (delete k m) k v) by apply lookup_delete_eq.
  by rewrite insert_delete_id.
Qed.

Lemma countKV_nonneg m : 0 <= NumUint (countKV m) /\ 0 <= NumByteSlice (countKV m).
Proof. cbn. lia. Qed.

Lemma countKV_le m : NumUint (countKV m) <= Z.of_nat (size m) /\ NumByteSlice (countKV m) <= Z.of_nat (size m).
Proof.
  cbn. split; apply Nat2Z.inj_le, map_subseteq_size, map_filter_subseteq.
Qed.

Lemma decCount_exact m k v : m !! k = Some v -> teal_ok v -> Z.of_nat (size m) < two64 ->
  decCount v (countKV m) = Ok (countKV (delete k m)).
Proof.
  intros Hk Ht Hsz. pose proof (countKV_nonneg (delete k m)) as Hn. pose proof (countKV_le m) as Hle.
  rewrite (countKV_delete m k v Hk) in *. destruct (countKV (delete k m)) as [u b]. cbn in Hn, Hle.
  unfold decCount, uint_count in *.
  destruct Ht as [Ht|Ht]; rewrite Ht in *; cbn in *; rewrite !wrap64_small by word; do 2 f_equal; lia.
Qed.

Lemma incCount_exact m k v : m !! k = None -> teal_ok v -> Z.of_nat (size m) + 1 < two64 ->
  incCount v (countKV m) = Ok (countKV (<[k := v]> m)).
Proof.
  intros Hk Ht Hsz. rewrite (countKV_insert m k v Hk). pose proof (countKV_nonneg m) as Hn.
  pose proof (countKV_le m) as Hle. destruct (countKV m) as [u b]. cbn in Hn, Hle. unfold incCount, uint_count.
  destruct Ht as [Ht|Ht]; rewrite Ht; cbn; rewrite !wrap64_small by word; do 2 f_equal; lia.
Qed.

(** The new content of a store after a write or a deletion. *)
Definition write_kv (m : gmap string TealValue) (key : string) (new : TealValue) (newOk : bool)
    : gmap string TealValue :=
  if newOk then <[key := new]> m else delete key m.

Lemma updateCounts_exact m key new (newOk : bool) lsd :
  map_Forall (fun _ v => teal_ok v) m -> Z.of_nat (size m) + 1 < two64 -> sto_counts lsd = countKV m ->
  (newOk = true -> teal_ok new) ->
  updateCounts (read_kv m key).1 (read_kv m key).2 new newOk lsd =
    (Ok tt, lsd <| sto_counts := countKV (write_kv m key new newOk) |>).
Proof.
  intros Hm Hsz Hc Hnew. unfold updateCounts, read_kv, write_kv.
  assert (Z.of_nat (size (delete key m)) <= Z.of_nat (size m)) as Hdel.
  { apply Nat2Z.inj_le, map_subseteq_size, delete_subseteq. }
  assert ((if (match m !! key with Some v => (v, true) | None => (TealValue_zero, false) end).2
           then decCount (match m !! key with Some v => (v, true) | None => (TealValue_zero, false) end).1 (sto_counts lsd)
           else Ok (sto_counts lsd)) = Ok (countKV (delete key m))) as ->.
  { destruct (m !! key) as [v|] eqn:E; cbn; rewrite Hc.
    - apply decCount_exact; [done|by apply (Hm key v)|lia].
    - by rewrite delete_id. }
  destruct newOk; cbn [sto_counts]; [|done].
  rewrite (incCount_exact _ key) by (apply lookup_delete_eq || auto || lia).
  rewrite insert_delete_eq. done.
Qed.

(** The types of a successful update of the counters are known ones. *)
Lemma updateCounts_type bv bok av lsd lsd' : updateCounts bv bok av true lsd = (Ok tt, lsd') -> teal_ok av.
Proof.
  unfold updateCounts. destruct (if bok then _ else _) as [c| |]; [|done..]. unfold incCount, teal_ok.
  destruct (Z.eqb_spec (tv_Type av) TealBytesType); [auto|].
  destruct (Z.eqb_spec (tv_Type av) TealUintType); [auto|done].
Qed.

(** Where the storage deltas agree, so does everything read from storage. *)
Lemma storage_frame s s' a i g : cs_parent B s' = cs_parent B s ->
  getStorageDelta (cs_cur s') a (i, g) = getStorageDelta (cs_cur s) a (i, g) ->
  par_allocated (cs_view B s') a i g = par_allocated (cs_view B s) a i g /\
  (forall k x, par_getKey (cs_view B s') a i g k x = par_getKey (cs_view B s) a i g k x) /\
  par_getStorageCounts (cs_view B s') a i g = par_getStorageCounts (cs_view B s) a i g /\
  par_getStorageLimits (cs_view B s') a i g = par_getStorageLimits (cs_view B s) a i g.
Proof.
  intros Hp Hd. unfold cs_view. rewrite Hp. cbn.
  assert (cow_allocated (cs_parent B s) (cs_cur s') a i g = cow_allocated (cs_parent B s) (cs_cur s) a i g) as Hal
    by (unfold cow_allocated; by rewrite Hd).
  unfold cow_getKey, getKey_here, cow_getStorageCounts, cow_getStorageLimits.
  rewrite !Hal, !Hd. by split_and!.
Qed.

(** Storage that is allocated is worked on through a delta that does not
    deallocate it. *)
Lemma ensured_allocated s addr aidx g lsd : ensured s addr (aidx, g) remainAllocAction lsd ->
  par_allocated (cs_view B s) addr aidx g = Ok true -> sto_action lsd <> deallocAction.
Proof.
  intros He Hal. unfold ensured in He. cbn in Hal. unfold cow_allocated in Hal.
  destruct (getStorageDelta (cs_cur s) addr (aidx, g)); cbn in *; [subst; intros Hx; by rewrite Hx in Hal|].
  destruct He as [-> _]. done.
Qed.

(** What a cow shows once a key's delta is written into the storage delta [lsd]. *)
Lemma written_store s s' addr aidx g lsd key vd c m :
  stack_wf s -> cs_parent B s' = cs_parent B s ->
  getStorageDelta (cs_cur s') addr (aidx, g) =
    Some (lsd <| sto_kvCow := <[key := vd]> (sto_kvCow lsd) |> <| sto_counts := c |>) ->
  ensured s addr (aidx, g) remainAllocAction lsd -> holds_store (cs_view B s) addr aidx g m ->
  par_allocated (cs_view B s') addr aidx g = Ok true /\
  (forall k x, par_getKey (cs_view B s') addr aidx g k x =
     if decide (k = key) then Ok (vd_new vd, vd_newExists vd) else Ok (read_kv m k)) /\
  par_getStorageCounts (cs_view B s') addr aidx g = Ok c /\
  par_getStorageLimits (cs_view B s') addr aidx g = Ok (sto_maxCounts lsd).
Proof.
  intros Hwf Hp Hd He (Hal & Hget & _).
  pose proof (ensured_ok _ _ _ _ _ Hwf He (fun _ => Hal)) as [_ Hre]. cbn in Hre.
  pose proof (ensured_allocated _ _ _ _ _ He Hal) as Hnd.
  assert (cow_allocated (cs_parent B s) (cs_cur s') addr aidx g = Ok true) as Hal'.
  { unfold cow_allocated. rewrite Hd. cbn. destruct (sto_action lsd) eqn:E; [by apply Hre|done|done]. }
  unfold cs_view at 1 2 3 4. rewrite Hp. cbn. unfold cow_getStorageCounts, cow_getStorageLimits.
  rewrite Hal', Hd. split_and!; [done| |done|done].
  intros k x. unfold cow_getKey, getKey_here. rewrite Hal', Hd. cbn.
  destruct (decide (k = key)) as [->|Hk]; [by rewrite lookup_insert_eq|]. rewrite lookup_insert_ne by done.
  rewrite <- (Hget k x). cbn. unfold cow_getKey, getKey_here.
  cbn in Hal. rewrite Hal. cbn. unfold ensured in He.
  destruct (getStorageDelta (cs_cur s) addr (aidx, g)) as [lsd0|]; [by subst|].
  destruct He as (Ha & Hkv & _). rewrite Ha, Hkv, lookup_empty. done.
Qed.

(** Recording a write: the counters follow the content. *)
Definition stored (s s' : cowStack) (addr : Address) (aidx : AppIndex) (g : bool)
    (m' : gmap string TealValue) (lsd : storageDelta) : Prop :=
  step_ok s s' /\ same_accts s s' /\ holds_store (cs_view B s') addr aidx g m' /\
  par_getStorageLimits (cs_view B s') addr aidx g = Ok (sto_maxCounts lsd) /\
  sto_counts lsd = countKV m' /\
  (forall a i g', (a, (i, g')) <> (addr, (aidx, g)) ->
     par_allocated (cs_view B s') a i g' = par_allocated (cs_view B s) a i g' /\
     (forall k x, par_getKey (cs_view B s') a i g' k x = par_getKey (cs_view B s) a i g' k x) /\
     par_getStorageCounts (cs_view B s') a i g' = par_getStorageCounts (cs_view B s) a i g' /\
     par_getStorageLimits (cs_view B s') a i g' = par_getStorageLimits (cs_view B s) a i g').

Lemma ensured_counts s addr aidx g lsd m : holds_store (cs_view B s) addr aidx g m ->
  ensured s addr (aidx, g) remainAllocAction lsd -> sto_counts lsd = countKV m.
Proof.
  intros (Hal & _ & Hc & _) He. unfold ensured in He. cbn in Hal, Hc. unfold cow_getStorageCounts in Hc.
  rewrite Hal in Hc. cbn in Hc. destruct (getStorageDelta (cs_cur s) addr (aidx, g)) as [l|] eqn:E.
  - subst l. cbn in Hc. by injection Hc.
  - destruct He as (_ & _ & He & _). cbn in He. unfold cow_getStorageCounts in He. rewrite Hal, E in He. cbn in He.
    rewrite Hc in He. by injection He.
Qed.

Lemma read_write_kv m key new (newOk : bool) k : (newOk = false -> new = TealValue_zero) ->
  read_kv (write_kv m key new newOk) k = if decide (k = key) then (new, newOk) else read_kv m k.
Proof.
  intros Hz. unfold read_kv, write_kv. destruct newOk.
  - destruct (decide (k = key)) as [->|]; [by rewrite lookup_insert_eq|by rewrite lookup_insert_ne].
  - destruct (decide (k = key)) as [->|]; [rewrite lookup_delete_eq; by rewrite Hz|by rewrite lookup_delete_ne].
Qed.

Lemma write_kv_types m key new (newOk : bool) : map_Forall (fun _ v => teal_ok v) m ->
  (newOk = true -> teal_ok new) -> map_Forall (fun _ v => teal_ok v) (write_kv m key new newOk).
Proof. intros Hm Hn. destruct newOk; [apply map_Forall_insert_2; auto|by apply map_Forall_delete]. Qed.

Lemma writeKey_stored s s1 addr aidx g key lsd new (newOk : bool) m :
  stack_wf s -> holds_store (cs_view B s) addr aidx g m -> Z.of_nat (size m) + 1 < two64 ->
  (newOk = false -> new = TealValue_zero) ->
  ensured s addr (aidx, g) remainAllocAction lsd ->
  (s1 = s <| cs_cur := setStorageDelta addr (aidx, g) lsd (cs_cur s) |> \/ s1 = s) ->
  wp (writeKey addr aidx g key lsd (read_kv m key).1 (read_kv m key).2 new newOk)
    (fun r s' => forall lsd', r = Ok lsd' -> stored s s' addr aidx g (write_kv m key new newOk) lsd') s1.
Proof.
  intros Hwf Hst Hsz Hz He Hs1. unfold writeKey.
  set (vd := match sto_kvCow lsd !! key with Some d => _ | None => _ end).
  pose proof (ensured_counts _ _ _ _ _ _ Hst He) as Hc.
  destruct (updateCounts _ _ _ _ _) as [r lsd2] eqn:Eu.
  unfold putStorageDelta, modify_cur. wp_step. wp_step. destruct r as [[]| |]; cbn [andThen]; try discriminate.
  wp_step. intros lsd' [= <-].
  assert (newOk = true -> teal_ok new) as Hnew
    by (intros ->; eapply updateCounts_type; exact Eu).
  rewrite (updateCounts_exact m) in Eu; [|apply Hst|done|exact Hc|done]. injection Eu as <-.
  set (lsd' := lsd <| sto_kvCow := _ |> <| sto_counts := _ |>).
  pose proof (ensured_ok _ _ _ _ _ Hwf He (fun _ => proj1 Hst)) as Hok.
  assert (step_ok s s1 /\ same_accts s s1 /\ cs_parent B s1 = cs_parent B s) as (Hst1 & Ha1 & Hp1).
  { destruct Hs1 as [->| ->]; [|split_and!; [by apply step_ok_refl|done|done]].
    destruct (set_storage_step s addr (aidx, g) lsd Hwf Hok). by split_and!. }
  destruct (set_storage_step (B := B) s1 addr (aidx, g) lsd') as [Hst2 Ha2]; [apply Hst1| |].
  { split; [|rewrite Hp1; apply Hok]. intros Hd. by destruct (ensured_allocated _ _ _ _ _ He (proj1 Hst)). }
  set (s' := s1 <| cs_cur := _ |>) in *.
  assert (forall a ap, getStorageDelta (cs_cur s') a ap =
            if decide (a = addr /\ ap = (aidx, g)) then Some lsd' else getStorageDelta (cs_cur s) a ap) as Hg.
  { intros a ap. subst s'. cbn. rewrite getStorageDelta_set. destruct Hs1 as [->| ->]; [|done]. cbn.
    rewrite getStorageDelta_set. by destruct (decide _). }
  destruct (written_store s s' addr aidx g lsd key vd (countKV (write_kv m key new newOk)) m)
    as (Hw1 & Hw2 & Hw3 & Hw4); [done|done|by rewrite Hg, decide_True|done|done|].
  split_and!; [by eapply step_ok_trans|by eapply same_accts_trans| |exact Hw4|done|].
  - split_and!; [done| |done|apply write_kv_types; [apply Hst|done]].
    intros k x. rewrite Hw2, read_write_kv by done.
    destruct (decide (k = key)); [|done]. unfold vd. by destruct (sto_kvCow lsd !! key).
  - intros a i g' Hne. apply storage_frame; [done|]. rewrite Hg, decide_False; [done|]. naive_solver.
Qed.

Lemma ensure_write_wp s addr aidx g key new (newOk : bool) idx m :
  stack_wf s -> holds_store (cs_view B s) addr aidx g m -> Z.of_nat (size m) + 1 < two64 ->
  (newOk = false -> new = TealValue_zero) ->
  wp (ensureStorageDelta B addr aidx g remainAllocAction idx)
    (fun r s2 => forall lsd, r = Ok lsd -> sto_counts lsd = countKV m /\
       wp (writeKey addr aidx g key lsd (read_kv m key).1 (read_kv m key).2 new newOk)
         (fun r s' => forall lsd', r = Ok lsd' -> stored s s' addr aidx g (write_kv m key new newOk) lsd') s2) s.
Proof.
  intros Hwf Hst Hsz Hz. eapply wp_mono; [apply ensureStorageDelta_wp; [done|intros _; apply Hst]|].
  intros r s2 (_ & _ & Hr) lsd ->.
  assert (ensured s addr (aidx, g) remainAllocAction lsd /\
          (s2 = s <| cs_cur := setStorageDelta addr (aidx, g) lsd (cs_cur s) |> \/ s2 = s)) as [He Hs2].
  { destruct (Hr lsd eq_refl) as [[He ->]|[He ->]]; [by auto|]. split; [|by right]. unfold ensured. by rewrite He. }
  split; [by eapply ensured_counts|]. by apply (writeKey_stored s).
Qed.

Lemma stored_from s s1 s' addr aidx g m lsd : step_ok s s1 -> cs_view B s1 = cs_view B s ->
  stored s1 s' addr aidx g m lsd -> stored s s' addr aidx g m lsd.
Proof.
  intros Hst Hv (H1 & H2 & H3 & H4 & H5 & H6). unfold stored, same_accts in *. rewrite Hv in *.
  split_and!; auto. by eapply step_ok_trans.
Qed.

Lemma SetKey_wp s addr aidx g key value idx m :
  stack_wf s -> holds_store (cs_view B s) addr aidx g m -> Z.of_nat (size m) + 1 < two64 ->
  wp (SetKey B addr aidx g key value idx)
    (fun r s' => r = Ok tt -> slen key <= proto_MaxAppKeyLen (cow_proto (cs_cur s)) /\ exists lsd,
       stored s s' addr aidx g (<[key := value]> m) lsd /\ checkCounts lsd = Ok tt) s.
Proof.
  intros Hwf Hst Hsz. unfold SetKey. wp_step. apply wp_bind, wp_throwIf; cbn [andThen]; intros Hk; [done|].
  apply wp_bind. eapply (wp_mono _ (fun _ s' => s' = s)).
  { apply wp_if; intros _; [|by wp_step].
    apply wp_bind, wp_throwIf; cbn [andThen]; intros _; [done|]. by apply wp_throwIf. }
  intros r s0 ->. destruct r as [u| |]; cbn [andThen]; [|done..].
  apply wp_bind. unfold allocated, asks, wp at 1. cbn [fst snd]. rewrite (proj1 Hst). cbn [andThen].
  apply wp_bind, wp_throwIf; cbn [andThen]; intros _; [done|].
  apply wp_bind. eapply wp_mono; [by apply getKey_wp|]. intros r s1 (-> & Hst1 & Hv & _).
  rewrite (proj1 (proj2 Hst)). cbn [andThen]. rewrite (surjective_pairing (read_kv m key)).
  apply wp_bind. eapply wp_mono.
  { apply (ensure_write_wp s1 addr aidx g key value true idx m); [apply Hst1|by rewrite Hv|done|done]. }
  intros r s2 Hr. destruct r as [lsd| |]; cbn [andThen]; [|done..].
  apply wp_bind. eapply wp_mono; [by apply (Hr lsd eq_refl)|]. intros r s3 Hr3. destruct r as [lsd'| |]; cbn [andThen]; [|done..].
  wp_step. intros Hcc. rewrite Z.ltb_ge in Hk. split; [done|]. exists lsd'. split; [|done].
  eapply stored_from; [done|done|]. by apply Hr3.
Qed.

(** Deleting a key: with readable limits it succeeds. *)
Lemma ensure_succeeds s addr aidx g idx limits m : holds_store (cs_view B s) addr aidx g m ->
  par_getStorageLimits (cs_view B s) addr aidx g = Ok limits ->
  exists lsd s', ensureStorageDelta B addr aidx g remainAllocAction idx s = (Ok lsd, s').
Proof.
  intros (_ & _ & Hc & _) Hl. unfold ensureStorageDelta.
  destruct (getStorageDelta (cs_cur s) addr (aidx, g)) as [lsd|]; [eauto|].
  rewrite Hc, Hl. cbv [mbind outcome_bind]. eauto.
Qed.

Lemma writeKey_delete_Ok addr aidx g key lsd m s :
  map_Forall (fun _ v => teal_ok v) m -> Z.of_nat (size m) + 1 < two64 -> sto_counts lsd = countKV m ->
  exists lsd' s', writeKey addr aidx g key lsd (read_kv m key).1 (read_kv m key).2 TealValue_zero false s = (Ok lsd', s').
Proof.
  intros Hm Hsz Hc. unfold writeKey. rewrite (updateCounts_exact m key); [|done|done|done|done].
  unfold mbind, M_bind, putStorageDelta, modify_cur, modify, lift, mret, M_ret. eauto.
Qed.

Lemma DelKey_wp s addr aidx g key idx m limits :
  stack_wf s -> holds_store (cs_view B s) addr aidx g m -> Z.of_nat (size m) + 1 < two64 ->
  par_getStorageLimits (cs_view B s) addr aidx g = Ok limits ->
  wp (DelKey B addr aidx g key idx)
    (fun r s' => r = Ok tt /\ exists lsd, stored s s' addr aidx g (delete key m) lsd) s.
Proof.
  intros Hwf Hst Hsz Hlim. unfold DelKey.
  apply wp_bind. unfold allocated, asks, wp at 1. cbn [fst snd]. rewrite (proj1 Hst). cbn [andThen].
  apply wp_bind, wp_throwIf; cbn [andThen]; intros; [done|].
  apply wp_bind. eapply wp_mono; [by apply getKey_wp|]. intros r s1 (-> & Hst1 & Hv & _).
  rewrite (proj1 (proj2 Hst)). cbn [andThen]. rewrite (surjective_pairing (read_kv m key)).
  apply wp_bind, wp_attempt. rewrite <- Hv in Hlim, Hst.
  destruct (ensure_succeeds s1 addr aidx g idx limits m Hst Hlim) as (lsd & s2 & Hrun).
  pose proof (ensure_write_wp s1 addr aidx g key TealValue_zero false idx m (proj1 Hst1) Hst Hsz (fun _ => eq_refl)) as Hw.
  unfold wp at 1 in Hw. unfold wp at 1. rewrite Hrun in *. cbn [fst snd andThen] in *.
  destruct (Hw lsd eq_refl) as [Hc Hwr]. apply wp_bind.
  destruct (writeKey_delete_Ok addr aidx g key lsd m s2) as (lsd' & s3 & Hrun'); [apply Hst|done|done|].
  unfold wp at 1 in Hwr. unfold wp at 1. rewrite Hrun' in *. cbn [fst snd andThen] in *. wp_step. split; [done|].
  exists lsd'. eapply stored_from; [done|done|]. by apply Hwr.
Qed.

End storage.

(** A successful [SetKey] writes the key and nothing else: the
    store becomes the old map with the key inserted, the counters are the counts
    of the new map and within the schema limits, no other store and no account
    changes. *)
Theorem SetKey_updates_store B s s' addr aidx g key value idx m :
  stack_wf B s -> holds_store (cs_view B s) addr aidx g m -> Z.of_nat (size m) + 1 < two64 ->
  SetKey B addr aidx g key value idx s = (Ok tt, s') ->
  stack_wf B s' /\ holds_store (cs_view B s') addr aidx g (<[key := value]> m) /\
  (exists limits, par_getStorageLimits (cs_view B s') addr aidx g = Ok limits /\
     NumUint (countKV (<[key := value]> m)) <= NumUint limits /\
     NumByteSlice (countKV (<[key := value]> m)) <= NumByteSlice limits) /\
  slen key <= proto_MaxAppKeyLen (cow_proto (cs_cur s)) /\
  (forall a i g' k x, (a, (i, g')) <> (addr, (aidx, g)) ->
     par_getKey (cs_view B s') a i g' k x = par_getKey (cs_view B s) a i g' k x) /\
  (forall a, par_lookup (cs_view B s') a = par_lookup (cs_view B s) a).
Proof.
  intros Hwf Hst Hsz Hrun. pose proof (SetKey_wp B s addr aidx g key value idx m Hwf Hst Hsz) as Hwp.
  destruct (wp_run _ _ _ _ _ Hrun Hwp eq_refl) as (Hk & lsd & (Hstep & Ha & Hh & Hl & Hc & Hfr) & Hck).
  unfold checkCounts in Hck. okinv Hck. rewrite Hc, !Z.ltb_ge in *.
  split_and!; [apply Hstep|done| |done| |done].
  - eauto.
  - intros b i g' k x Hne. by apply (Hfr b i g' Hne).
Qed.

(** The block of [sample_stack]: application 9 of account 5 holds one key. *)
Lemma sample_store : holds_store (cs_view (base_parent sample_base) sample_stack) 5 9 true
  {[ "k" := mkTealValue TealUintType "" 7 ]}.
Proof.
  split_and!; [reflexivity| |reflexivity|].
  - intros k x. change (cs_view (base_parent sample_base) sample_stack) with
      (cow_parent (base_parent sample_base) (cs_cur sample_stack)). cbn. unfold cow_getKey, getKey_here.
    replace (getStorageDelta (cs_cur sample_stack) 5 (9, true)) with (@None storageDelta) by reflexivity.
    replace (cow_allocated (base_parent sample_base) (cs_cur sample_stack) 5 9 true) with (Ok true) by reflexivity.
    reflexivity.
  - apply map_Forall_singleton. by right.
Qed.

Lemma SetKey_updates_store_witness :
  exists s', SetKey (base_parent sample_base) 5 9 true "j" (mkTealValue TealBytesType "xyz" 0) 0 sample_stack
               = (Ok tt, s') /\
    par_getKey (cs_view (base_parent sample_base) s') 5 9 true "j" 0 = Ok (mkTealValue TealBytesType "xyz" 0, true).
Proof.
  destruct (SetKey (base_parent sample_base) 5 9 true "j" (mkTealValue TealBytesType "xyz" 0) 0 sample_stack)
    as [r s'] eqn:E. assert (r = Ok tt) as -> by (revert E; vm_compute; intros [= <- _]; reflexivity).
  exists s'. split; [reflexivity|].
  destruct (SetKey_updates_store _ _ _ _ _ _ _ _ _ _ sample_stack_wf sample_store ltac:(vm_compute; reflexivity) E)
    as (_ & (_ & Hget & _) & _). rewrite Hget. reflexivity.
Defined.

(** With readable schema limits, [DelKey] on allocated storage
    always succeeds and deletes the key and nothing else; the counters are the
    counts of the remaining map. *)
Theorem DelKey_updates_store B s addr aidx g key idx m limits :
  stack_wf B s -> holds_store (cs_view B s) addr aidx g m -> Z.of_nat (size m) + 1 < two64 ->
  par_getStorageLimits (cs_view B s) addr aidx g = Ok limits ->
  exists s', DelKey B addr aidx g key idx s = (Ok tt, s') /\ stack_wf B s' /\
    holds_store (cs_view B s') addr aidx g (delete key m) /\
    (forall a i g' k x, (a, (i, g')) <> (addr, (aidx, g)) ->
       par_getKey (cs_view B s') a i g' k x = par_getKey (cs_view B s) a i g' k x) /\
    (forall a, par_lookup (cs_view B s') a = par_lookup (cs_view B s) a).
Proof.
  intros Hwf Hst Hsz Hl. pose proof (DelKey_wp B s addr aidx g key idx m limits Hwf Hst Hsz Hl) as Hwp.
  destruct (DelKey B addr aidx g key idx s) as [r s'] eqn:E.
  destruct (wp_run _ _ _ _ _ E Hwp) as (-> & lsd & Hstep & Ha & Hh & _ & _ & Hfr).
  exists s'. split_and!; [done|apply Hstep|done| |done]. intros a i g' k x Hne. by apply (Hfr a i g' Hne).
Qed.

Lemma DelKey_updates_store_witness :
  exists s', DelKey (base_parent sample_base) 5 9 true "k" 0 sample_stack = (Ok tt, s') /\
    par_getKey (cs_view (base_parent sample_base) s') 5 9 true "k" 0 = Ok (TealValue_zero, false).
Proof.
  destruct (DelKey_updates_store _ _ 5 9 true "k" 0 _ (mkStateSchema 1 1) sample_stack_wf sample_store)
    as (s' & Hrun & _ & (_ & Hget & _) & _); [vm_compute; reflexivity|vm_compute; reflexivity|].
  exists s'. split; [exact Hrun|]. rewrite Hget. reflexivity.
Defined.

(** A ledger that cannot say who created application 9: the limits are not
    readable. *)
Definition broken_base : roundCowBase :=
  makeRoundCowBase
    (mkLedgerForCowBase (l_BlockHdr sample_ledger) (l_CheckDup sample_ledger) (l_LookupWithoutRewards sample_ledger)
       (fun _ _ _ => Err (Errorf "storage failure"))) 1000 10 0 v31.

(** [DelKey] drops the error of [ensureStorageDelta]: on a ledger
    whose creator index fails, it reports success and the key is still there,
    while [SetKey] on the same state reports the error. *)
Theorem DelKey_drops_error :
  let B := base_parent broken_base in
  exists s', DelKey B 5 9 true "k" 0 sample_stack = (Ok tt, s') /\
    par_getKey (cs_view B s') 5 9 true "k" 0 = Ok (mkTealValue TealUintType "" 7, true) /\
    isOk (SetKey B 5 9 true "k" (mkTealValue TealUintType "" 8) 0 sample_stack).1 = false.
Proof.
  exists (DelKey (base_parent broken_base) 5 9 true "k" 0 sample_stack).2.
  split_and!; vm_compute; reflexivity.
Qed.
