(* ===== verification/CowTotals.v ===== *)
(** What a block leaves behind: recorded transactions are never accepted again,
    the totals of the block are the exact sums over its accounts and conserve
    money, and the storage deltas are folded into the accounts exactly. *)
From S2P Require Import Prelude Config Basics Transactions Bookkeeping StateDelta CompactCert Cow.
From S2P Require Import CowFacts CowStorage.
#[local] Open Scope string_scope.
#[local] Open Scope list_scope.
#[local] Open Scope Z_scope.

(** ** Recorded transactions *)

(** The cow after [addTx]. *)
Definition recorded (txn : Transaction) (txid : Txid) (s : cowStack) : cowStack :=
  s <| cs_cur := addTx txn txid (cs_cur s) |>.

Lemma addTx_fields txn txid cb :
  cow_proto (addTx txn txid cb) = cow_proto cb /\ cow_hdr (addTx txn txid cb) = cow_hdr cb /\
  sd_Txids (cow_mods (addTx txn txid cb)) = <[txid := hdr_LastValid (tx_Header txn)]> (sd_Txids (cow_mods cb)) /\
  sd_Txleases (cow_mods (addTx txn txid cb)) =
    (if negb (hdr_Lease (tx_Header txn) =? 0)
     then <[(hdr_Sender (tx_Header txn), hdr_Lease (tx_Header txn)) := hdr_LastValid (tx_Header txn)]>
            (sd_Txleases (cow_mods cb))
     else sd_Txleases (cow_mods cb)) /\
  cow_txnCount (addTx txn txid cb) = wrap64 (cow_txnCount cb + 1).
Proof. unfold addTx. by destruct (negb _). Qed.

(** Once a transaction is recorded, the block rejects the same
    transaction id, and, while the lease lasts, any transaction with the same
    sender and lease; transactions with another id and another lease are judged
    as before, and the transaction counter advances by one. *)
Theorem recorded_never_replayed B s txn txid fv lv txid' txl :
  let h := tx_Header txn in
  let dup := par_checkDup (cs_view B (recorded txn txid s)) fv lv in
  dup txid txl = Err TransactionInLedgerError /\
  (proto_SupportTransactionLeases (cow_proto (cs_cur s)) = true -> hdr_Lease h <> 0 ->
   round (cs_cur s) <= hdr_LastValid h -> isOk (dup txid' (hdr_Sender h, hdr_Lease h)) = false) /\
  (txid' <> txid -> txl.2 = 0 \/ txl <> (hdr_Sender h, hdr_Lease h) ->
   dup txid' txl = par_checkDup (cs_view B s) fv lv txid' txl) /\
  par_txnCounter (cs_view B (recorded txn txid s)) = wrap64 (par_txnCounter (cs_view B s) + 1).
Proof.
  intros h dup. unfold dup, recorded. cbn.
  destruct (addTx_fields txn txid (cs_cur s)) as (Hp & Hh & Htx & Hls & Hc).
  unfold cow_checkDup, cow_txnCounter, round. rewrite Hp, Hh, Htx, Hls, Hc. fold h. split_and!.
  - by rewrite lookup_insert_eq.
  - intros Hsup Hnz Hlv. rewrite Hsup, !(proj2 (Z.eqb_neq _ _) Hnz). cbn.
    rewrite lookup_insert_eq. fold h. rewrite (proj2 (Z.leb_le _ _)) by exact Hlv.
    rewrite (proj2 (Z.eqb_neq _ _) Hnz). cbn. by destruct (_ !! txid').
  - intros Htxid Hl. rewrite lookup_insert_ne by done.
    destruct (sd_Txids (cow_mods (cs_cur s)) !! txid'); [done|].
    destruct Hl as [Hz|Hne]; [by rewrite Hz, !andb_false_r|].
    destruct (negb (hdr_Lease h =? 0)); [|done]. by rewrite lookup_insert_ne.
  - by rewrite wrap64_add_r, wrap64_add_l, Z.add_assoc.
Qed.

Lemma recorded_never_replayed_witness :
  isOk (par_checkDup (cs_view (base_parent sample_base)
     (recorded (stx_Txn (sample_stx 0 1000) <| tx_Header := tx_Header (stx_Txn (sample_stx 0 1000))
                  <| hdr_Lease := 3 |> <| hdr_LastValid := 5000 |> |>) 99 sample_stack))
     0 5000 100 (hdr_Sender (tx_Header (stx_Txn (sample_stx 0 1000))), 3)) = false.
Proof.
  set (txn := stx_Txn (sample_stx 0 1000) <| tx_Header := _ |>).
  destruct (recorded_never_replayed (base_parent sample_base) sample_stack txn 99 0 5000 100 (0, 0))
    as (_ & H & _). apply H; vm_compute; congruence.
Defined.

(** ** Totals *)

Section totals.
  Context (P : roundCowParent) (proto : ConsensusParams) (Hunit : 0 < proto_RewardUnit proto).

(** The accounts after the records [brs] are written over [cur]. *)
Definition written (cur : Address -> AccountData) (m : gmap Z AccountData) (a : Address) : AccountData :=
  default (cur a) (m !! a).

Lemma totals_replace lvl (cur cur' : Address -> AccountData) addrs a :
  NoDup addrs -> a ∈ addrs -> (forall b, b <> a -> cur' b = cur b) ->
  exists rest, map cur addrs ≡ₚ cur a :: rest /\ totals_of proto lvl (map cur' addrs) = totals_of proto lvl (cur' a :: rest).
Proof.
  intros Hnd Hin Heq. apply list_elem_of_split in Hin as (l1 & l2 & ->).
  exists (map cur (l1 ++ l2)). rewrite !map_app. cbn. split; [by rewrite Permutation_middle|].
  apply NoDup_app in Hnd as (_ & Hl1 & [Hl2 _]%NoDup_cons).
  assert (map cur' l1 = map cur l1 /\ map cur' l2 = map cur l2) as [-> ->].
  { split; apply map_ext_in; intros b Hb%list_elem_of_In; apply Heq; intros ->;
      [apply (Hl1 a Hb); left|done]. }
  by rewrite Permutation_middle.
Qed.

(** A raised overflow flag stays raised. *)
Lemma AddAccount_sticky d t t' ot' : AddAccount proto d t true = Ok (t', ot') -> ot' = true.
Proof.
  intros H. unfold AddAccount in H. okinv H. rewrite RewardUnits_eq in H by done.
  cbv [mbind outcome_bind ot_AddA ot_Add] in H.
  destruct (OAdd _ _) as [? []] in H; destruct (OAdd _ _) as [? []] in H; by injection H as _ <-.
Qed.
Lemma DelAccount_sticky d t t' ot' : DelAccount proto d t true = Ok (t', ot') -> ot' = true.
Proof.
  intros H. unfold DelAccount in H. okinv H. rewrite RewardUnits_eq in H by done.
  cbv [mbind outcome_bind ot_SubA ot_Sub] in H.
  destruct (OSub _ _) as [? []] in H; destruct (OSub _ _) as [? []] in H; by injection H as _ <-.
Qed.
Lemma total_changes_sticky brs : forall t t', total_changes P proto brs t true <> Ok (t', false).
Proof.
  induction brs as [|br brs IH]; intros t t' H; cbn in H; [discriminate|]. okinv H.
  apply DelAccount_sticky in Ho0 as ->. apply AddAccount_sticky in Ho1 as ->. by apply IH in H.
Qed.

Lemma total_changes_exact brs : forall lvl cur addrs t ot,
  NoDup (map br_Addr brs) -> NoDup addrs ->
  (forall br, br ∈ brs -> br_Addr br ∈ addrs /\ acct_wf (br_AccountData br) /\
     par_lookup P (br_Addr br) = Ok (cur (br_Addr br)) /\ acct_wf (cur (br_Addr br))) ->
  totals_u64 (totals_of proto lvl (map cur addrs)) ->
  total_changes P proto brs (totals_of proto lvl (map cur addrs)) ot = Ok (t, false) ->
  ot = false /\
  t = totals_of proto lvl (map (written cur (list_to_map (map br_pair brs))) addrs) /\ totals_u64 t.
Proof.
  induction brs as [|[a d] brs IH]; intros lvl cur addrs t ot Hnd Hna Hbr Hu H.
  { cbn in H. injection H as <- ->. split; [done|]. split; [|done].
    by f_equal. }
  cbn in Hnd. apply NoDup_cons in Hnd as [Hnin Hnd].
  destruct (Hbr (mkBalanceRecord a d)) as (Hin & Hwd & Hl & Hwc); [left|]. cbn in *.
  rewrite Hl in H. cbv [wrapErr mbind outcome_bind] in H.
  destruct (DelAccount _ _ _ _) as [[t1 ot1]| |] eqn:E1 in H; [|discriminate..].
  destruct (AddAccount _ _ _ _) as [[t2 ot2]| |] eqn:E2 in H; [|discriminate..].
  set (cur' := fun b => if decide (b = a) then d else cur b).
  assert (ot2 = false) as -> by (destruct ot2; [by apply total_changes_sticky in H|done]).
  destruct (totals_replace lvl cur cur' addrs a Hna Hin) as (rest & Hperm & Hcur').
  { intros b Hb. unfold cur'. by rewrite decide_False. }
  rewrite Hperm in Hu, E1. destruct (ReplaceAccount_exact proto Hunit lvl rest (cur a) d ot t1 t2 ot1)
    as (-> & Ht2 & Hu2); [done..|].
  assert (cur' a = d) as Hda by (unfold cur'; by rewrite decide_True).
  rewrite Hda in Hcur'. rewrite Ht2, <- Hcur' in H, Hu2.
  apply (IH lvl cur' addrs) in H as (_ & -> & Hu'); [|done|done| |done].
  - split; [done|]. split; [|done]. f_equal. apply map_ext. intros b. unfold written, cur'. cbn.
    destruct (decide (b = a)) as [->|Hb]; [|by rewrite lookup_insert_ne].
    rewrite lookup_insert_eq. rewrite not_elem_of_list_to_map_1; [done|].
    intros Hx. apply Hnin. by rewrite (fst_br_pairs (mkAccountDeltas brs ∅)) in Hx.
  - intros br Hbrin. destruct (Hbr br) as (? & ? & ? & ?); [by right|].
    assert (br_Addr br <> a) as Hne. { intros <-. apply Hnin. by apply list_elem_of_fmap_2. }
    unfold cur'. rewrite !decide_False by done. done.
Qed.

End totals.

(** C10 (invariant): the totals of a block are exact: if the previous totals are
    the sums over the accounts of the previous round at the previous rewards
    level, then after [CalculateTotals] succeeds the new totals are the sums over
    the accounts the block shows, at the block's rewards level; and the sum of
    all money, pending rewards included, has not changed. *)
Theorem CalculateTotals_exact B s s' prev old addrs :
  let cb := cs_cur s in
  let proto := cow_proto cb in
  let lvl := rewardsLevel cb in
  stack_wf B s -> 0 < proto_RewardUnit proto -> is_u64 lvl -> NoDup addrs ->
  (forall a, a ∈ addrs -> par_lookup (cs_parent B s) a = Ok (old a) /\ acct_wf (old a)) ->
  (forall a d, accts_map (sd_Accts (cow_mods cb)) !! a = Some d -> a ∈ addrs /\ acct_wf d) ->
  cow_prevTotals cb = totals_of proto prev (map old addrs) -> totals_u64 (cow_prevTotals cb) ->
  CalculateTotals B s = (Ok tt, s') ->
  exists new,
    (forall a, a ∈ addrs -> par_lookup (cs_view B s) a = Ok (new a)) /\
    sd_Totals (cow_mods (cs_cur s')) = totals_of proto lvl (map new addrs) /\
    sumZ (moneyZ proto lvl) (map new addrs) = sumZ (moneyZ proto prev) (map old addrs).
Proof.
  intros cb proto lvl Hwf Hunit Hlvl Hnd Hold Hmod Hprev Hpu Hrun. unfold CalculateTotals in Hrun. fold cb in Hrun.
  set (r := _ ← failIf _ _; _) in Hrun. destruct r as [totals| |] eqn:Er; [|discriminate..]. subst r.
  injection Hrun as <-. okinv Er. fold lvl proto in Er. rewrite Hprev in *.
  destruct (ApplyRewards lvl _ false) as [t0 ot0] eqn:E0. okinv Er. subst a0 b.
  rewrite negb_false_iff, Z.eqb_eq in Ho4. subst a3.
  assert (ot0 = false) as -> by (destruct ot0; [by apply total_changes_sticky in Ho0|done]).
  apply ApplyRewards_exact in E0 as (_ & -> & Hu0); [|done..].
  pose proof Hwf as [[Hacc _] _].
  apply (total_changes_exact _ proto Hunit) in Ho0 as (_ & -> & Hu); [|apply Hacc|done| |done].
  - exists (written old (accts_map (sd_Accts (cow_mods cb)))). split_and!.
    + intros b Hb. rewrite cs_view_lookup by done. fold cb. unfold written.
      destruct (accts_map _ !! b); [done|]. by apply Hold.
    + reflexivity.
    + apply All_exact in Ho2; [|done]. apply All_exact in Ho3; [|done]. unfold accts_map. congruence.
  - intros br [i Hi]%list_elem_of_lookup.
    destruct (Hmod (br_Addr br) (br_AccountData br)) as [Hin Hbw]; [apply accts_map_lookup; eauto|].
    destruct (Hold _ Hin) as [Hl Ho']. by split_and!.
Qed.

(** A block in which account 6 pays 500 to account 5, over the small ledger. *)
Definition totals_old (a : Address) : AccountData := default AccountData_zero (sample_accounts !! a).
Definition totals_start : cowStack :=
  mkCowStack (makeRoundCowState sample_header v31 0
    (totals_of v31 0 (map totals_old [5; 6])) 0) [].
Definition totals_mid : cowStack :=
  (cow_Put 6 (totals_old 6 <| acct_MicroNovas := 7999500 |>) totals_start).2.
Definition totals_stack : cowStack :=
  (cow_Put 5 (totals_old 5 <| acct_MicroNovas := 3000500 |>) totals_mid).2.

Lemma totals_stack_wf : stack_wf (base_parent sample_base) totals_stack.
Proof.
  assert (stack_wf (base_parent sample_base) totals_start) as H0.
  { split; [|done]. split; [apply accts_zero_wf|]. intros addr aapp lsd.
    unfold getStorageDelta. cbn. rewrite lookup_empty. discriminate. }
  destruct (cow_Put_wp _ totals_start 6 (totals_old 6 <| acct_MicroNovas := 7999500 |>) H0) as (_ & [H1 _] & _).
  destruct (cow_Put_wp _ totals_mid 5 (totals_old 5 <| acct_MicroNovas := 3000500 |>) H1) as (_ & [H2 _] & _).
  exact H2.
Qed.

Lemma CalculateTotals_exact_witness :
  exists s', CalculateTotals (base_parent sample_base) totals_stack = (Ok tt, s') /\
    exists new, sumZ (moneyZ (cow_proto (cs_cur totals_stack)) (rewardsLevel (cs_cur totals_stack)))
      (map new [5; 6]) = 11000000.
Proof.
  destruct (CalculateTotals (base_parent sample_base) totals_stack) as [r s'] eqn:E.
  assert (r = Ok tt) as -> by (revert E; vm_compute; intros [= <- _]; reflexivity).
  exists s'. split; [reflexivity|].
  destruct (CalculateTotals_exact (base_parent sample_base) totals_stack s' 0 totals_old [5; 6])
    as (new & _ & _ & Hsum).
  - exact totals_stack_wf.
  - vm_compute; reflexivity.
  - vm_compute; split; congruence.
  - clear. repeat constructor; set_solver.
  - clear. intros a Ha. split; [reflexivity|].
    repeat (apply elem_of_cons in Ha as [->|Ha]; [repeat split; vm_compute; congruence|]). set_solver.
  - clear. intros a d. change (accts_map _) with
      (list_to_map [(6, totals_old 6 <| acct_MicroNovas := 7999500 |>);
                    (5, totals_old 5 <| acct_MicroNovas := 3000500 |>)] : gmap Z AccountData). cbn.
    intros [[<- <-]|[_ H]]%lookup_insert_Some; [split; [set_solver|repeat split; vm_compute; congruence]|].
    apply lookup_insert_Some in H as [[<- <-]|[_ H]]; [split; [set_solver|repeat split; vm_compute; congruence]|].
    by rewrite lookup_empty in H.
  - reflexivity.
  - repeat split; vm_compute; congruence.
  - exact E.
  - exists new. rewrite Hsum. vm_compute. reflexivity.
Defined.

(** ** Folding the storage into the accounts *)

(** Two versions of an account that differ only in the content and presence of
    application storage. *)
Definition same_but_apps (d d' : AccountData) : Prop :=
  d' = d <| acct_AppParams := acct_AppParams d' |> <| acct_AppLocalStates := acct_AppLocalStates d' |>.

(** What a storage delta makes of a store. *)
Definition folded (st : option storageDelta) (kv : option (gmap string TealValue))
    : option (gmap string TealValue) :=
  match st with
  | None => kv
  | Some st =>
      match sto_action st with
      | deallocAction => None
      | act =>
          (fun kv => applyKV (sto_kvCow st)
             (if bool_decide (act = allocAction) && negb (bool_decide (sto_kvCow st = ∅)) then ∅ else kv)) <$> kv
      end
  end.

Lemma applyStorageDelta_spec d i g st d' : applyStorageDelta d (i, g) st = Ok d' ->
  same_but_apps d d' /\
  forall i' g', stored_kv d' i' g' =
    if decide ((i', g') = (i, g)) then folded (Some st) (stored_kv d i g) else stored_kv d i' g'.
Proof.
  unfold applyStorageDelta, folded, stored_kv, same_but_apps. intros H.
  destruct g, (sto_action st) eqn:Ea; cbn zeta in H; try (injection H as <-);
    try (destruct (acct_AppParams d !! i) as [p|] eqn:E in H; [injection H as <-|discriminate]);
    try (destruct (acct_AppLocalStates d !! i) as [p|] eqn:E in H; [injection H as <-|discriminate]);
    (split; [by destruct d|]); intros i' []; cbn;
    destruct (decide _) as [[= ->]|Hne]; rewrite ?lookup_insert_eq, ?lookup_delete_eq, ?E; try done;
    rewrite ?lookup_insert_ne, ?lookup_delete_ne by congruence; done.
Qed.

Lemma same_but_apps_refl d : same_but_apps d d.
Proof. by destruct d. Qed.
Lemma same_but_apps_trans a b c : same_but_apps a b -> same_but_apps b c -> same_but_apps a c.
Proof. unfold same_but_apps. intros H1 H2. rewrite H2, H1. by destruct a. Qed.

Lemma apply_storage_spec l : forall d d', NoDup l.*1 -> apply_storage d l = Ok d' ->
  same_but_apps d d' /\
  forall i g, stored_kv d' i g = folded ((list_to_map l : gmap storagePtr storageDelta) !! (i, g)) (stored_kv d i g).
Proof.
  induction l as [|[[i g] st] l IH]; intros d d' Hnd H; cbn in H.
  { injection H as <-. split; [apply same_but_apps_refl|done]. }
  okinv H. cbn in Hnd. apply NoDup_cons in Hnd as [Hnin Hnd].
  apply applyStorageDelta_spec in Ho as [Hs1 Hk1]. destruct (IH _ _ Hnd H) as [Hs2 Hk2].
  split; [by eapply same_but_apps_trans|]. intros i' g'. rewrite Hk2, Hk1. cbn.
  destruct (decide ((i', g') = (i, g))) as [[= -> ->]|Hne].
  - rewrite lookup_insert_eq, not_elem_of_list_to_map_1 by done. done.
  - by rewrite lookup_insert_ne.
Qed.

(** The accounts of the cow after the fold. *)
Lemma fold_sdeltas_spec P l : forall cb cb', NoDup l.*1 -> accts_wf (sd_Accts (cow_mods cb)) ->
  fold_sdeltas P cb l = Ok cb' ->
  accts_wf (sd_Accts (cow_mods cb')) /\
  forall a, match (list_to_map l : gmap Z (gmap storagePtr storageDelta)) !! a with
            | None => cow_lookup P cb' a = cow_lookup P cb a
            | Some smap => exists d d', cow_lookup P cb a = Ok d /\ cow_lookup P cb' a = Ok d' /\
                apply_storage d (map_to_list smap) = Ok d'
            end.
Proof.
  induction l as [|[addr smap] l IH]; intros cb cb' Hnd Hwf H; cbn in H.
  { injection H as <-. by split. }
  cbn in Hnd. apply NoDup_cons in Hnd as [Hnin Hnd]. okinv H.
  destruct (cow_lookup P cb addr) as [d| |] eqn:El in Ho; [|discriminate..]. injection Ho as ->.
  destruct (apply_storage _ _) as [d'| |] eqn:Ea in Ho0; [|discriminate..]. injection Ho0 as ->.
  destruct (Upsert_spec _ addr a0 Hwf) as (ad & Hu & Hwf' & Hm & _). rewrite Hu in Ho1. injection Ho1 as <-.
  pose proof H as H'. apply IH in H' as [Hw2 Hl2]; [|done|exact Hwf']. split; [done|]. intros b. specialize (Hl2 b).
  set (cb1 := cb <| cow_mods := _ |>) in *.
  assert (forall x, cow_lookup P cb1 x = if decide (x = addr) then Ok a0 else cow_lookup P cb x) as Hcb1.
  { intros x. unfold cow_lookup, cb1. cbn. rewrite !Get_spec by done. cbn. rewrite Hm.
    destruct (decide (x = addr)) as [->|]; [by rewrite lookup_insert_eq|by rewrite lookup_insert_ne]. }
  cbn. destruct (decide (b = addr)) as [->|Hb].
  - rewrite lookup_insert_eq. rewrite not_elem_of_list_to_map_1 in Hl2 by done.
    exists a, a0. rewrite Hl2, Hcb1, decide_True by done. done.
  - rewrite lookup_insert_ne by done. rewrite Hcb1, decide_False in Hl2 by done. done.
Qed.

(** What the fold does to the account of an address. *)
Lemma deltas_account B s sd s' a d : stack_wf B s -> deltas B s = (Ok sd, s') ->
  par_lookup (cs_view B s) a = Ok d ->
  exists d', par_lookup (cs_view B s') a = Ok d' /\ same_but_apps d d' /\
    forall i g, stored_kv d' i g = folded (getStorageDelta (cs_cur s) a (i, g)) (stored_kv d i g).
Proof.
  intros [[Hwf _] _] H Hl. unfold deltas in H.
  destruct (fold_sdeltas _ _ _) as [cb'| |] eqn:Ef; [|discriminate..]. injection H as <- <-.
  destruct (fold_sdeltas_spec _ _ _ _ (NoDup_fst_map_to_list _) Hwf Ef) as [_ Hf]. specialize (Hf a).
  rewrite list_to_map_to_list in Hf. change (par_lookup (cs_view B s) a) with (cow_lookup (cs_parent B s) (cs_cur s) a) in Hl.
  change (par_lookup (cs_view B (s <| cs_cur := cb' |>)) a) with (cow_lookup (cs_parent B s) cb' a).
  unfold getStorageDelta. destruct (cow_sdeltas (cs_cur s) !! a) as [smap|].
  - destruct Hf as (d0 & d' & Hd0 & Hd' & Ha). rewrite Hl in Hd0. injection Hd0 as <-.
    apply apply_storage_spec in Ha as [Hs Hk]; [|apply NoDup_fst_map_to_list].
    exists d'. split_and!; [done|done|]. intros i g. cbn. rewrite Hk, list_to_map_to_list. done.
  - exists d. rewrite Hf. split_and!; [done|apply same_but_apps_refl|done].
Qed.

(** The cow's answer to a read, and the value in a store: both absent, or both
    present and equal. *)
Definition same_read (r : outcome (TealValue * bool)) (kv : gmap string TealValue) (k : string) : Prop :=
  match kv !! k with
  | Some v => r = Ok (v, true)
  | None => exists v, r = Ok (v, false)
  end.

Lemma applyKV_lookup kvCow kv k :
  applyKV kvCow kv !! k =
    match kvCow !! k with
    | Some vd => if vd_newExists vd then Some (vd_new vd) else None
    | None => kv !! k
    end.
Proof. unfold applyKV. rewrite lookup_merge. by destruct (kv !! k), (kvCow !! k). Qed.

(** Folding the storage deltas into the accounts changes no
    answer: after [deltas] an account has a store exactly when the cow says it
    is allocated, and every key of the store has the value the cow answered
    before the fold; nothing else of the account changes.  Assumed of the store
    [kv] the account holds before the fold: it is what the parent answers from,
    and a store allocated in this cow starts empty. *)
Theorem deltas_preserve_reads B s sd s' a d i g kv :
  stack_wf B s -> deltas B s = (Ok sd, s') -> par_lookup (cs_view B s) a = Ok d ->
  stored_kv d i g = Some kv ->
  (forall k x, par_allocated (cs_parent B s) a i g = Ok true ->
     same_read (par_getKey (cs_parent B s) a i g k x) kv k) ->
  (sto_action <$> getStorageDelta (cs_cur s) a (i, g) = Some allocAction -> kv = ∅) ->
  exists d', par_lookup (cs_view B s') a = Ok d' /\ same_but_apps d d' /\
    match par_allocated (cs_view B s) a i g with
    | Ok true => exists kv', stored_kv d' i g = Some kv' /\
        forall k x, same_read (par_getKey (cs_view B s) a i g k x) kv' k
    | Ok false => sto_action <$> getStorageDelta (cs_cur s) a (i, g) = Some deallocAction ->
        stored_kv d' i g = None
    | _ => True
    end.
Proof.
  intros Hwf Hrun Hl Hkv Hread Halloc.
  destruct (deltas_account _ _ _ _ _ _ Hwf Hrun Hl) as (d' & Hd' & Hs & Hf). specialize (Hf i g).
  exists d'. split_and!; [done|done|]. rewrite Hkv in Hf. cbn.
  unfold cow_allocated, cow_getKey, getKey_here, cow_allocated.
  destruct (getStorageDelta (cs_cur s) a (i, g)) as [st|] eqn:E; cbn in *.
  2: { destruct (par_allocated (cs_parent B s) a i g) as [[]| |]; [|discriminate|done|done].
       exists kv. split; [done|]. intros k x. by apply Hread. }
  destruct (proj2 (proj1 Hwf) _ _ _ E) as [_ Hre]. unfold same_read in *.
  destruct (sto_action st) eqn:Ea; cbn in *.
  - destruct (Hre eq_refl) as [Hal _]. cbn in Hal. fold (cs_parent B s) in Hal. rewrite Hal. eexists. split; [done|]. intros k x. cbn.
    rewrite applyKV_lookup. destruct (sto_kvCow st !! k) as [vd|]; cbn.
    + destruct (vd_newExists vd); eauto.
    + by apply Hread.
  - rewrite (Halloc eq_refl) in Hf. eexists. split; [done|]. intros k x. rewrite applyKV_lookup.
    destruct (sto_kvCow st !! k) as [vd|]; cbn; [destruct (vd_newExists vd); eauto|].
    case_match; rewrite lookup_empty; eauto.
  - done.
Qed.

(** The sample application after a write to its store. *)
Definition folded_stack : cowStack :=
  (SetKey (base_parent sample_base) 5 9 true "k" (mkTealValue TealUintType "" 8) 0 sample_stack).2.

Lemma deltas_preserve_reads_witness :
  exists d', par_lookup (cs_view (base_parent sample_base) (deltas (base_parent sample_base) folded_stack).2) 5 = Ok d' /\
    exists kv', stored_kv d' 9 true = Some kv' /\
      same_read (par_getKey (cs_view (base_parent sample_base) folded_stack) 5 9 true "k" 0) kv' "k".
Proof.
  set (B := base_parent sample_base).
  destruct (SetKey B 5 9 true "k" (mkTealValue TealUintType "" 8) 0 sample_stack) as [r s1] eqn:E.
  assert (r = Ok tt) as -> by (revert E; vm_compute; intros [= <- _]; reflexivity).
  assert (folded_stack = s1) as Hs1 by (unfold folded_stack; fold B; by rewrite E).
  pose proof (SetKey_wp B sample_stack 5 9 true "k" (mkTealValue TealUintType "" 8) 0 _ sample_stack_wf
                sample_store ltac:(vm_compute; reflexivity)) as Hwp.
  destruct (wp_run _ _ _ _ _ E Hwp eq_refl) as (_ & lsd & ([Hwf _] & _) & _). rewrite <- Hs1 in Hwf. clear E Hwp Hs1.
  destruct (deltas B folded_stack) as [r s2] eqn:E.
  assert (exists sd, r = Ok sd) as [sd ->] by (revert E; vm_compute; intros [= <- _]; eauto).
  destruct (deltas_preserve_reads B folded_stack sd s2 5 (totals_old 5) 9 true
              {[ "k" := mkTealValue TealUintType "" 7 ]} Hwf E) as (d' & Hd' & _ & Hcase).
  - vm_compute. reflexivity.
  - reflexivity.
  - intros k x _.
    change (par_getKey (cs_parent B folded_stack) 5 9 true k x) with
      (Ok (read_kv {[ "k" := mkTealValue TealUintType "" 7 ]} k)).
    unfold same_read, read_kv. destruct (_ !! k); eauto.
  - vm_compute. discriminate.
  - exists d'. split; [exact Hd'|].
    assert (par_allocated (cs_view B folded_stack) 5 9 true = Ok true) as Hal by (vm_compute; reflexivity).
    rewrite Hal in Hcase. destruct Hcase as (kv' & Hkv' & Hread). exists kv'. split; [exact Hkv'|]. apply Hread.
Defined.
