(* ===== verification/Balances.v ===== *)
(** [src/ledger/apply/apply.go]: the interface [Balances] through which the
    transaction types read and change accounts, what an implementation promises
    ([BalancesLaws]), and the consequences the clients share: money and asset
    units can only be moved.

    The copy-on-write ledger implements it ([CowBalances]); the transaction types
    are its clients ([Apply]). *)
From S2P Require Import Prelude Config Basics Transactions.
#[local] Open Scope string_scope.
#[local] Open Scope list_scope.
#[local] Open Scope Z_scope.

(** The pointers to tracked rewards that [Move] takes are optional values it
    returns updated.  The evaluation parameters of a program are part of the
    state [S]. *)
Class Balances (S : Type) : Type := {
  bal_Get : Address -> bool -> M S AccountData;
  bal_Put : Address -> AccountData -> M S unit;
  bal_GetCreator : CreatableIndex -> CreatableType -> M S (Address * bool);
  bal_AllocateApp : Address -> AppIndex -> bool -> StateSchema -> M S unit;
  bal_DeallocateApp : Address -> AppIndex -> bool -> M S unit;
  bal_AllocateAsset : Address -> AssetIndex -> bool -> M S unit;
  bal_DeallocateAsset : Address -> AssetIndex -> bool -> M S unit;
  bal_StatefulEval : Z -> Transaction -> AppIndex -> string -> M S (bool * EvalDelta);
  bal_Move : Address -> Address -> Z -> option Z -> option Z -> M S (option Z * option Z);
  bal_ConsensusParams : S -> ConsensusParams }.

(** Two versions of an account that differ only in their money. *)
Definition same_but_money (d d' : AccountData) : Prop :=
  d' = d <| acct_MicroNovas := acct_MicroNovas d' |> <| acct_RewardsBase := acct_RewardsBase d' |>
         <| acct_RewardedMicroNovas := acct_RewardedMicroNovas d' |>.

(** An account whose 64-bit fields hold 64-bit values, the amounts of its asset
    holdings included. *)
Definition record_wf (d : AccountData) : Prop :=
  acct_wf d /\ map_Forall (fun _ h => is_u64 (ah_Amount h)) (acct_Assets d).

(** What an implementation promises.  [bal_acct] is the account an address has in
    a state, [bal_inv] the implementation's own invariant. *)
Class BalancesLaws (S : Type) `{Balances S} : Type := {
  bal_inv : S -> Prop;
  bal_acct : S -> Address -> outcome AccountData;
  bal_level : S -> Z;

  bal_unit_pos s : bal_inv s -> 0 < proto_RewardUnit (bal_ConsensusParams s);
  bal_level_u64 s : bal_inv s -> is_u64 (bal_level s);
  bal_record_wf s a d : bal_inv s -> bal_acct s a = Ok d -> record_wf d;

  (** A state and one reached from it by an operation of the interface. *)
  bal_step s s' : Prop :=
    bal_inv s' /\ bal_ConsensusParams s' = bal_ConsensusParams s /\ bal_level s' = bal_level s;

  bal_Get_law s a w : bal_inv s ->
    bal_Get a w s =
      ((d ← bal_acct s a;
        if w then WithUpdatedRewards (bal_ConsensusParams s) (bal_level s) d else Ok d), s);
  bal_Put_law s a d : bal_inv s -> record_wf d ->
    wp (bal_Put a d)
      (fun r s' => r = Ok tt /\ bal_step s s' /\
         forall b, bal_acct s' b = if decide (b = a) then Ok d else bal_acct s b) s;
  bal_GetCreator_law s c t : bal_inv s -> (bal_GetCreator c t s).2 = s;
  bal_AllocateAsset_law s a i g : bal_inv s ->
    wp (bal_AllocateAsset a i g)
      (fun r s' => r = Ok tt /\ bal_step s s' /\ bal_acct s' = bal_acct s) s;
  bal_DeallocateAsset_law s a i g : bal_inv s ->
    wp (bal_DeallocateAsset a i g)
      (fun r s' => r = Ok tt /\ bal_step s s' /\ bal_acct s' = bal_acct s) s;
  bal_AllocateApp_law s a i g sp : bal_inv s ->
    wp (bal_AllocateApp a i g sp)
      (fun _ s' => bal_step s s' /\ forall b, bal_acct s' b = bal_acct s b) s;
  bal_DeallocateApp_law s a i g : bal_inv s ->
    wp (bal_DeallocateApp a i g)
      (fun _ s' => bal_step s s' /\ forall b, bal_acct s' b = bal_acct s b) s;

  bal_money_of s d : Z := moneyZ (bal_ConsensusParams s) (bal_level s) d;

  (** A successful [Move] takes [amt] from one account, which had it, and gives it
      to the other; nothing but the money of the two changes. *)
  bal_Move_law s from to amt fr tr : bal_inv s -> is_u64 amt ->
    wp (bal_Move from to amt fr tr)
      (fun r s' => bal_step s s' /\
         match r with
         | Ok _ =>
             (forall a, a <> from -> a <> to -> bal_acct s' a = bal_acct s a) /\
             exists df dt df' dt',
               bal_acct s from = Ok df /\ bal_acct s to = Ok dt /\
               bal_acct s' from = Ok df' /\ bal_acct s' to = Ok dt' /\
               same_but_money df df' /\ same_but_money dt dt' /\
               amt <= bal_money_of s df /\
               acct_MicroNovas df' = bal_money_of s df' /\
               (if decide (from = to) then bal_money_of s df' = bal_money_of s df
                else bal_money_of s df' = bal_money_of s df - amt /\
                     bal_money_of s dt' = bal_money_of s dt + amt)
         | _ => True
         end) s }.

(** ** Consequences of the laws *)

Section laws.
  Context {S : Type} `{BalancesLaws S}.

(** The money of an address, and the total over a list of addresses. *)
Definition money_at (s : S) (a : Address) : Z :=
  match bal_acct s a with Ok d => bal_money_of s d | _ => 0 end.
Definition total_money (s : S) (l : list Address) : Z := sumZ (money_at s) l.

Lemma bal_acct_wf s a d : bal_inv s -> bal_acct s a = Ok d -> acct_wf d.
Proof. intros. by eapply bal_record_wf. Qed.

Lemma bal_step_refl s : bal_inv s -> bal_step s s.
Proof. intros ?. unfold bal_step. by split_and!. Qed.
Lemma bal_step_trans s1 s2 s3 : bal_step s1 s2 -> bal_step s2 s3 -> bal_step s1 s3.
Proof. intros (_ & H1 & H2) (? & H3 & H4). unfold bal_step. split_and!; congruence. Qed.

Lemma bal_step_money s s' d : bal_step s s' -> bal_money_of s' d = bal_money_of s d.
Proof. intros (_ & H1 & H2). unfold bal_money_of. by rewrite H1, H2. Qed.

Lemma money_at_ext s s' a : bal_step s s' -> bal_acct s' a = bal_acct s a -> money_at s' a = money_at s a.
Proof. intros Hs Ha. unfold money_at. rewrite Ha. by destruct (bal_acct s a); rewrite ?(bal_step_money s s'). Qed.

Lemma wp_Get s a (w : bool) (Q : outcome AccountData -> S -> Prop) : bal_inv s ->
  Q (d ← bal_acct s a;
     if w then WithUpdatedRewards (bal_ConsensusParams s) (bal_level s) d else Ok d) s ->
  wp (bal_Get a w) Q s.
Proof. intros Hs HQ. unfold wp. by rewrite bal_Get_law. Qed.

(** With pending rewards: the account with its rewards applied, or a panic. *)
Lemma wp_Get_rewards s a (Q : outcome AccountData -> S -> Prop) : bal_inv s ->
  (forall d, bal_acct s a = Ok d -> rewardable (bal_ConsensusParams s) (bal_level s) d ->
     Q (Ok (rewarded (bal_ConsensusParams s) (bal_level s) d)) s) ->
  (forall e, bal_acct s a = Err e -> Q (Err e) s) -> Q Panic s ->
  wp (bal_Get a true) Q s.
Proof.
  intros Hs HOk HErr HP. apply wp_Get; [done|]. destruct (bal_acct s a) as [d|e|] eqn:E; cbn; auto.
  destruct (WithUpdatedRewards _ _ d) as [d'|e|] eqn:Er; [|exfalso|done].
  - apply WithUpdatedRewards_inv in Er as [-> Hr]; eauto using bal_unit_pos, bal_level_u64, bal_acct_wf.
  - unfold WithUpdatedRewards in Er. case_bool_decide; [|done].
    unfold RewardUnits in Er. destruct (_ =? 0); [done|]. cbn in Er.
    repeat (destruct (ot_Sub _ _ _) || destruct (ot_Mul _ _ _) || destruct (ot_AddA _ _ _)).
    by destruct b1.
Qed.

Lemma wp_Get_plain s a (Q : outcome AccountData -> S -> Prop) : bal_inv s ->
  Q (bal_acct s a) s -> wp (bal_Get a false) Q s.
Proof. intros Hs HQ. apply wp_Get; [done|]. by destruct (bal_acct s a). Qed.

(** A run that ends in a state reached by a step, whatever it returns, and on
    success satisfies [Q]. *)
Definition steps_to {A} (s : S) (Q : A -> S -> Prop) (r : outcome A) (s' : S) : Prop :=
  bal_step s s' /\ forall a, r = Ok a -> Q a s'.

(** [Move] seen through the money of the addresses. *)
Definition moved (s : S) (from to : Address) (amt : Z) (s' : S) : Prop :=
  bal_step s s' /\ (forall a, a <> from -> a <> to -> bal_acct s' a = bal_acct s a) /\
  (forall a d', bal_acct s' a = Ok d' -> exists d, bal_acct s a = Ok d /\ same_but_money d d') /\
  (exists df', bal_acct s' from = Ok df' /\ acct_MicroNovas df' = money_at s' from) /\
  (if decide (from = to) then money_at s' from = money_at s from
   else money_at s' from = money_at s from - amt /\ money_at s' to = money_at s to + amt).

Lemma same_but_money_refl d : same_but_money d d.
Proof. by destruct d. Qed.

Lemma wp_Move s from to amt fr tr (Q : outcome (option Z * option Z) -> S -> Prop) :
  bal_inv s -> is_u64 amt ->
  (forall r s', moved s from to amt s' -> Q (Ok r) s') ->
  (forall e s', bal_step s s' -> Q (Err e) s') -> (forall s', bal_step s s' -> Q Panic s') ->
  wp (bal_Move from to amt fr tr) Q s.
Proof.
  intros Hs Hamt HOk HErr HP. eapply wp_mono; [by apply bal_Move_law|].
  intros [r|e|] s' [Hst Hr]; [|auto..]. apply HOk.
  destruct Hr as (Hfr & df & dt & df' & dt' & Ef & Et & Ef' & Et' & Sf & St & Hle & Hm & Hmoney).
  assert (money_at s' from = bal_money_of s df') as Mf' by (unfold money_at; by rewrite Ef', (bal_step_money s s')).
  assert (money_at s' to = bal_money_of s dt') as Mt' by (unfold money_at; by rewrite Et', (bal_step_money s s')).
  assert (money_at s from = bal_money_of s df) as Mf by (unfold money_at; by rewrite Ef).
  assert (money_at s to = bal_money_of s dt) as Mt by (unfold money_at; by rewrite Et).
  split_and!; [done|done| | |].
  - intros a d' Ha. destruct (decide (a = from)) as [->|Hn].
    { exists df. rewrite Ef' in Ha. by injection Ha as <-. }
    destruct (decide (a = to)) as [->|Hn'].
    { exists dt. rewrite Et' in Ha. by injection Ha as <-. }
    rewrite Hfr in Ha by done. eauto using same_but_money_refl.
  - exists df'. by rewrite Mf'.
  - rewrite Mf', Mf, Mt', Mt. by destruct (decide (from = to)).
Qed.

Lemma moved_total s from to amt s' l :
  moved s from to amt s' -> NoDup l -> from ∈ l -> to ∈ l -> total_money s' l = total_money s l.
Proof.
  intros (Hst & Hfr & _ & _ & Hm) Hnd Hf Ht. unfold total_money.
  set (g := fun a => if decide (a = from) then money_at s' from else money_at s a).
  assert (sumZ (money_at s') l = sumZ g l + (money_at s' to - g to)) as ->.
  { apply sumZ_update; [done..|]. intros a Ha. unfold g. destruct (decide (a = from)) as [->|]; [done|].
    apply money_at_ext; auto. }
  rewrite (sumZ_update (money_at s) g l from); [|done|done|].
  2: { intros a Ha. unfold g. by rewrite decide_False. }
  unfold g. rewrite (decide_True (P := from = from)) by done.
  destruct (decide (from = to)) as [->|Hn]; [rewrite decide_True by done; lia|].
  rewrite decide_False by congruence. lia.
Qed.

End laws.
