(* ===== verification/CowBalances.v ===== *)
(** The copy-on-write ledger implements the interface [Balances] and keeps its
    laws, so that everything proved of the transaction types from the laws holds
    of the evaluator.  The state is a stack of cows with the evaluation
    parameters of the transaction group, which belong to the interpreter. *)
From S2P Require Import Prelude Config Basics Transactions Bookkeeping StateDelta CompactCert Cow.
From S2P Require Import CowFacts CowStorage Balances.
#[local] Open Scope string_scope.
#[local] Open Scope list_scope.
#[local] Open Scope Z_scope.

Section cow_balances.
  Context (B : roundCowParent).

(** ** The invariant of a stack that transactions run on *)

Definition cow_inv (s : cowStack) : Prop :=
  stack_wf B s /\ 0 < proto_RewardUnit (cow_proto (cs_cur s)) /\ is_u64 (rewardsLevel (cs_cur s)) /\
  forall a d, par_lookup (cs_view B s) a = Ok d -> record_wf d.

(** A stack and one reached from it. *)
Definition cow_step (s s' : cowStack) : Prop := cow_inv s' /\ step_ok B s s'.

Lemma cow_step_refl s : cow_inv s -> cow_step s s.
Proof. intros Hs. split; [done|]. apply step_ok_refl, Hs. Qed.
Lemma cow_step_trans s1 s2 s3 : cow_step s1 s2 -> cow_step s2 s3 -> cow_step s1 s3.
Proof. intros [_ H1] [H2 H3]. split; [done|]. by eapply step_ok_trans. Qed.

Lemma step_level s s' : step_ok B s s' ->
  cow_proto (cs_cur s') = cow_proto (cs_cur s) /\ rewardsLevel (cs_cur s') = rewardsLevel (cs_cur s).
Proof. intros (_ & (_ & Hp & Hh) & _). unfold rewardsLevel. by rewrite Hp, Hh. Qed.

(** A step that leaves every account well formed keeps the invariant. *)
Lemma cow_step_intro s s' : cow_inv s -> step_ok B s s' ->
  (forall a d, par_lookup (cs_view B s') a = Ok d -> record_wf d) -> cow_step s s'.
Proof.
  intros (_ & Hu & Hl & _) Hst Hrec. destruct (step_level _ _ Hst) as [Hp Hlv]. split; [|done].
  unfold cow_inv. rewrite Hp, Hlv. split_and!; [apply Hst|done..].
Qed.

Lemma cow_step_accts s s' : cow_inv s -> step_ok B s s' -> same_accts B s s' -> cow_step s s'.
Proof. intros Hs Hst Ha. apply cow_step_intro; [done..|]. intros a d. rewrite Ha. apply Hs. Qed.

Lemma cow_Put_law s a d : cow_inv s -> record_wf d ->
  wp (cow_Put a d)
    (fun r s' => r = Ok tt /\ cow_step s s' /\
       forall b, par_lookup (cs_view B s') b = if decide (b = a) then Ok d else par_lookup (cs_view B s) b) s.
Proof.
  intros Hs Hd. eapply wp_mono; [apply cow_Put_wp, Hs|]. intros r s' (-> & Hst & Hput).
  split_and!; [done| |done]. apply cow_step_intro; [done..|]. intros b db Hb. rewrite Hput in Hb.
  destruct (decide (b = a)); [by injection Hb as <-|by eapply Hs].
Qed.

(** ** Moving money *)

(** An account that has received its rewards. *)
Definition settled (lvl : Z) (d : AccountData) : Prop :=
  acct_Status d = NotParticipating \/ acct_RewardsBase d = lvl.

Lemma settled_money proto lvl d : settled lvl d -> moneyZ proto lvl d = acct_MicroNovas d.
Proof.
  intros [Hs|Hb]; apply moneyZ_nopending; [|by apply pendingZ_uptodate].
  unfold pendingZ. by rewrite bool_decide_true.
Qed.

Lemma rewarded_settled proto lvl d m : settled lvl (rewarded proto lvl d <| acct_MicroNovas := m |>).
Proof.
  unfold settled. cbn. rewrite rewarded_Status.
  destruct (decide (acct_Status d = NotParticipating)); [by left|right]. by apply rewarded_Base.
Qed.

Lemma rewarded_record_wf proto lvl d m : 0 < proto_RewardUnit proto -> is_u64 lvl -> record_wf d ->
  rewardable proto lvl d -> is_u64 m -> record_wf (rewarded proto lvl d <| acct_MicroNovas := m |>).
Proof.
  intros Hu Hl [Hw Ha] Hr Hm. pose proof (rewarded_wf proto lvl d Hu Hl Hw Hr) as (_ & H2 & H3).
  split; [by split_and!|]. cbn. unfold rewarded. by case_bool_decide.
Qed.

Lemma rewarded_same_but_money proto lvl d m :
  same_but_money d (rewarded proto lvl d <| acct_MicroNovas := m |>).
Proof. unfold same_but_money, rewarded. case_bool_decide; by destruct d. Qed.

Lemma same_but_money_trans a b c : same_but_money a b -> same_but_money b c -> same_but_money a c.
Proof. unfold same_but_money. intros H1 H2. rewrite H2, H1. by destruct a. Qed.

(** Reading an account with its rewards applied. *)
Lemma wp_rewards {A} s d (k : AccountData -> M cowStack A) Q :
  cow_inv s -> record_wf d ->
  let proto := cow_proto (cs_cur s) in
  let lvl := rewardsLevel (cs_cur s) in
  (rewardable proto lvl d -> wp (k (rewarded proto lvl d)) Q s) ->
  (forall e, Q (Err e) s) -> Q Panic s ->
  wp (x ← lift (WithUpdatedRewards proto lvl d); k x) Q s.
Proof.
  intros (_ & Hu & Hl & _) [Hw _] proto lvl HOk HErr HP. wp_step.
  destruct (WithUpdatedRewards proto lvl d) as [d'|e|] eqn:E; cbn [andThen]; [|auto..].
  apply WithUpdatedRewards_inv in E as [-> Hr]; auto.
Qed.

(** One side of a move: the account gets its rewards and a new balance. *)
Definition rebalanced (s : cowStack) (a : Address) (f : Z -> Z) (s' : cowStack) : Prop :=
  let proto := cow_proto (cs_cur s) in
  let lvl := rewardsLevel (cs_cur s) in
  cow_step s s' /\
  (forall b, b <> a -> par_lookup (cs_view B s') b = par_lookup (cs_view B s) b) /\
  exists d d', par_lookup (cs_view B s) a = Ok d /\ par_lookup (cs_view B s') a = Ok d' /\
    same_but_money d d' /\ settled lvl d' /\ acct_MicroNovas d' = f (moneyZ proto lvl d) /\
    rewardable proto lvl d.

Lemma rebalance_wp s a d m : cow_inv s -> par_lookup (cs_view B s) a = Ok d ->
  let proto := cow_proto (cs_cur s) in
  let lvl := rewardsLevel (cs_cur s) in
  rewardable proto lvl d -> is_u64 m ->
  wp (cow_Put a (rewarded proto lvl d <| acct_MicroNovas := m |>))
    (fun r s' => r = Ok tt /\ rebalanced s a (fun _ => m) s') s.
Proof.
  intros Hs Hd proto lvl Hr Hm. pose proof Hs as (_ & Hu & Hl & Hrec).
  eapply wp_mono; [apply cow_Put_law; [done|apply rewarded_record_wf; eauto]|].
  intros r s' (-> & Hst & Hput). split; [done|]. split_and!; [done| |].
  - intros b Hb. by rewrite Hput, decide_False.
  - eexists d, _. rewrite Hput, decide_True by done.
    split_and!; [done|done|apply rewarded_same_but_money|apply rewarded_settled|done|done].
Qed.

Definition moved_money (s : cowStack) (from to : Address) (amt : Z) (s' : cowStack) : Prop :=
  let money := moneyZ (cow_proto (cs_cur s)) (rewardsLevel (cs_cur s)) in
  (forall a, a <> from -> a <> to -> par_lookup (cs_view B s') a = par_lookup (cs_view B s) a) /\
  exists df dt df' dt',
    par_lookup (cs_view B s) from = Ok df /\ par_lookup (cs_view B s) to = Ok dt /\
    par_lookup (cs_view B s') from = Ok df' /\ par_lookup (cs_view B s') to = Ok dt' /\
    same_but_money df df' /\ same_but_money dt dt' /\ amt <= money df /\
    acct_MicroNovas df' = money df' /\
    (if decide (from = to) then money df' = money df
     else money df' = money df - amt /\ money dt' = money dt + amt).

(** Two rebalancings in a row move money. *)
Lemma rebalanced_moved s s1 s2 from to amt :
  rebalanced s from (fun m => m - amt) s1 ->
  (forall df, par_lookup (cs_view B s) from = Ok df ->
     amt <= moneyZ (cow_proto (cs_cur s)) (rewardsLevel (cs_cur s)) df) ->
  rebalanced s1 to (fun m => m + amt) s2 -> moved_money s from to amt s2.
Proof.
  intros (Hst1 & Hfr1 & df & d1 & Hdf & Hd1 & Hs1 & Hset1 & Hm1 & _) Hle
    (Hst2 & Hfr2 & dt & d2 & Hdt & Hd2 & Hs2 & Hset2 & Hm2 & _).
  destruct (step_level _ _ (proj2 Hst1)) as [Hp Hl]. rewrite Hp, Hl in *.
  set (proto := cow_proto (cs_cur s)) in *. set (lvl := rewardsLevel (cs_cur s)) in *.
  specialize (Hle df Hdf). unfold moved_money. fold proto lvl. cbn zeta.
  split; [intros a H1 H2; by rewrite Hfr2, Hfr1|].
  destruct (decide (from = to)) as [<-|Hne].
  - rewrite Hd1 in Hdt. injection Hdt as <-. exists df, df, d2, d2.
    rewrite (settled_money proto lvl d2 Hset2), Hm2, (settled_money proto lvl d1 Hset1), Hm1.
    split_and!; eauto using same_but_money_trans; lia.
  - rewrite Hfr1 in Hdt by done. exists df, dt, d1, d2.
    rewrite Hfr2 by done. rewrite (settled_money proto lvl d1 Hset1), (settled_money proto lvl d2 Hset2), Hm1, Hm2.
    split_and!; auto.
Qed.

Lemma cow_Move_wp s from to amt fr tr : cow_inv s -> is_u64 amt ->
  wp (cow_Move B from to amt fr tr)
    (fun r s' => cow_step s s' /\ match r with Ok _ => moved_money s from to amt s' | _ => True end) s.
Proof.
  intros Hs Hamt. pose proof (cow_step_refl s Hs) as Hrefl. pose proof Hs as (_ & Hu & Hl & Hrec).
  unfold cow_Move. apply wp_bind, wp_gets. cbn [andThen].
  apply wp_bind. unfold lookup, asks, wp at 1. cbn [fst snd].
  destruct (par_lookup (cs_view B s) from) as [df| |] eqn:Edf; cbn [andThen]; [|by split..].
  apply wp_rewards; [done|by eapply Hrec|intros Hr1|by split|by split].
  apply wp_bind, wp_lift. destruct (trackRewards fr _ _) as [fr'| |]; cbn [andThen]; [|by split..].
  rewrite rewarded_MicroNovas. unfold OSubA.
  assert (is_u64 (moneyZ (cow_proto (cs_cur s)) (rewardsLevel (cs_cur s)) df)) as Hmf.
  { rewrite <- rewarded_MicroNovas. apply rewarded_wf; auto. by apply (Hrec from). }
  rewrite OSub_spec by done. destruct (Z.leb_spec amt (moneyZ (cow_proto (cs_cur s)) (rewardsLevel (cs_cur s)) df)) as [Hle|];
    apply wp_bind, wp_throwIf; cbn [andThen]; intros Hov; try discriminate; [|by split].
  apply wp_bind. eapply wp_mono; [apply (rebalance_wp s from df); [done..|word]|].
  intros r s1 [-> Hreb1]. cbn [andThen]. pose proof Hreb1 as (Hst1 & _). pose proof (proj1 Hst1) as (_ & _ & _ & Hrec1).
  destruct (step_level _ _ (proj2 Hst1)) as [Hp Hlv].
  apply wp_bind. unfold lookup, asks, wp at 1. cbn [fst snd].
  destruct (par_lookup (cs_view B s1) to) as [dt| |] eqn:Edt; cbn [andThen]; [|by split..].
  rewrite <- Hp, <- Hlv. apply wp_rewards; [apply Hst1|by eapply Hrec1|intros Hr2|by split|by split].
  apply wp_bind, wp_lift. destruct (trackRewards tr _ _) as [tr'| |]; cbn [andThen]; [|by split..].
  rewrite rewarded_MicroNovas. unfold OAddA.
  assert (is_u64 (moneyZ (cow_proto (cs_cur s1)) (rewardsLevel (cs_cur s1)) dt)) as Hmt.
  { rewrite <- rewarded_MicroNovas. apply rewarded_wf; [by rewrite Hp|by rewrite Hlv|by apply (Hrec1 to)|done]. }
  rewrite OAdd_spec by done.
  destruct (Z.ltb_spec (moneyZ (cow_proto (cs_cur s1)) (rewardsLevel (cs_cur s1)) dt + amt) two64) as [Hlt|];
    apply wp_bind, wp_throwIf; cbn [andThen]; intros Hov2; try discriminate; [|by split].
  apply wp_bind. eapply wp_mono; [apply (rebalance_wp s1 to dt); [apply Hst1|done|done|word]|].
  intros r s2 [-> Hreb2]. cbn [andThen]. wp_step. pose proof Hreb2 as (Hst2 & _).
  split; [by eapply cow_step_trans|]. apply (rebalanced_moved s s1 s2 from to amt).
  - destruct Hreb1 as (H1 & H2 & d & d' & Hd & Hd' & Hrest). split_and!; [done|done|].
    rewrite Edf in Hd. injection Hd as <-. eauto 10.
  - intros d Hd. rewrite Edf in Hd. by injection Hd as <-.
  - destruct Hreb2 as (H1 & H2 & d & d' & Hd & Hd' & Hrest). split_and!; [done|done|].
    rewrite Edt in Hd. injection Hd as <-. eauto 10.
Qed.

End cow_balances.

(** ** The implementation *)

Section instances.
  Context (B : roundCowParent) {V : Type}.
  Context (evalContract : Z -> AppIndex -> string -> M (cowStack * V) (bool * EvalDelta)).

(** A method of the cow, with the evaluation parameters beside it. *)
Definition onCow {A} (m : M cowStack A) : M (cowStack * V) A := fun s =>
  ((m s.1).1, ((m s.1).2, s.2)).

Lemma wp_onCow {A} (m : M cowStack A) (Q : outcome A -> cowStack * V -> Prop) s :
  wp m (fun r s' => Q r (s', s.2)) s.1 -> wp (onCow m) Q s.
Proof. done. Qed.

#[local] Instance cow_Balances : Balances (cowStack * V) := {
  bal_Get addr w := onCow (cow_Get B addr w);
  bal_Put addr d := onCow (cow_Put addr d);
  bal_GetCreator cidx ctype := onCow (cow_GetCreator B cidx ctype);
  bal_AllocateApp addr aidx global space := onCow (AllocateApp B addr aidx global space);
  bal_DeallocateApp addr aidx global := onCow (DeallocateApp B addr aidx global);
  bal_AllocateAsset addr index global := onCow (AllocateAsset addr index global);
  bal_DeallocateAsset addr index global := onCow (DeallocateAsset addr index global);
  bal_StatefulEval gi txn aidx program := StatefulEval (evalContract gi aidx program) txn aidx;
  bal_Move from to amt fr tr := onCow (cow_Move B from to amt fr tr);
  bal_ConsensusParams s := cow_proto (cs_cur s.1) }.

Lemma asset_mods_law s f : cow_inv B s ->
  (forall m, sd_Accts (f m) = sd_Accts m /\ sd_Hdr (f m) = sd_Hdr m) ->
  wp (modify_mods f) (fun r s' => r = Ok tt /\ cow_step B s s' /\ par_lookup (cs_view B s') = par_lookup (cs_view B s)) s.
Proof.
  intros Hs Hf. eapply wp_mono; [apply wp_and; [apply (step_ok_mods_accts B s f); [apply Hs|done]|]|].
  - instantiate (1 := fun _ s' => par_lookup (cs_view B s') = par_lookup (cs_view B s)).
    unfold wp. cbn. unfold cow_lookup. cbn. by rewrite (proj1 (Hf _)).
  - intros r s' [(-> & Hst & Ha) He]. split_and!; [done|by apply cow_step_accts|done].
Qed.

Lemma cow_step_bal s s' (v v' : V) : cow_step B s s' ->
  cow_inv B s' /\ bal_ConsensusParams (s', v') = bal_ConsensusParams (s, v) /\
  rewardsLevel (cs_cur s') = rewardsLevel (cs_cur s).
Proof. intros [Hi Hst]. by destruct (step_level _ _ _ Hst). Qed.

#[local] Program Instance cow_BalancesLaws : BalancesLaws (cowStack * V) := {
  bal_inv s := cow_inv B s.1;
  bal_acct s := par_lookup (cs_view B s.1);
  bal_level s := rewardsLevel (cs_cur s.1) }.
Next Obligation. intros s Hs. apply Hs. Qed.
Next Obligation. intros s Hs. apply Hs. Qed.
Next Obligation. intros s a d Hs. apply Hs. Qed.
Next Obligation.
  intros [s v] a w Hs. unfold bal_Get, cow_Balances, onCow, cow_Get, lookup, asks, mbind, M_bind. cbn.
  destruct (cow_lookup _ _ _) as [d| |] eqn:E; [|done..]. by destruct w.
Qed.
Next Obligation.
  intros [s v] a d Hs Hd. apply wp_onCow. eapply wp_mono; [by apply cow_Put_law|].
  intros r s' (-> & Hst & Hput). split; [done|split; [by apply (cow_step_bal s s' v v)|done]].
Qed.
Next Obligation. by intros [s v] c t Hs. Qed.
Next Obligation.
  intros [s v] a i g Hs. apply wp_onCow. unfold AllocateAsset. apply wp_if; intros _;
    (eapply wp_mono; [by apply asset_mods_law|]; intros r s' (-> & Hst & Ha);
     split; [done|split; [by apply (cow_step_bal s s' v v)|done]]).
Qed.
Next Obligation.
  intros [s v] a i g Hs. apply wp_onCow. unfold DeallocateAsset. apply wp_if; intros _;
    (eapply wp_mono; [by apply asset_mods_law|]; intros r s' (-> & Hst & Ha);
     split; [done|split; [by apply (cow_step_bal s s' v v)|done]]).
Qed.
Next Obligation.
  intros [s v] a i g sp Hs. apply wp_onCow. eapply wp_mono; [apply AllocateApp_wp, Hs|].
  intros r s' [Hst Ha]. split; [|done]. by apply (cow_step_bal s s' v v), cow_step_accts.
Qed.
Next Obligation.
  intros [s v] a i g Hs. apply wp_onCow. eapply wp_mono; [apply DeallocateApp_wp, Hs|].
  intros r s' [Hst Ha]. split; [|done]. by apply (cow_step_bal s s' v v), cow_step_accts.
Qed.
Next Obligation.
  intros [s v] from to amt fr tr Hs Hamt. apply wp_onCow. eapply wp_mono; [by apply cow_Move_wp|].
  intros r s' [Hst Hr]. split; [by apply (cow_step_bal s s' v v)|]. by destruct r.
Qed.

End instances.

(** ** Running a program in a child *)

Lemma discard_view B s calf : step_ok B (child 1 s) calf -> stack_wf B s ->
  stack_wf B (discard calf s) /\ cs_view B (discard calf s) = cs_view B s /\
  same_block (cs_cur s) (cs_cur (discard calf s)).
Proof.
  intros (_ & _ & Hps) Hwf. unfold discard.
  destruct (cs_parents calf) as [|p rest]; inversion Hps as [|? ? ? ? Hp Hrest]; subst. split_and!.
  - by eapply (chain_wf_caches B (cs_cur s :: cs_parents s)).
  - by apply (parent_of_caches B (cs_cur s :: cs_parents s) (p :: rest)).
  - cbn. by rewrite Hp.
Qed.

Lemma commit_calf B s calf : stack_wf B s -> step_ok B (child 1 s) calf -> pushed_on (cs_cur s) (cs_cur calf) ->
  exists s', commitToParent calf = (Ok tt, s') /\ stack_wf B s' /\ same_block (cs_cur s) (cs_cur s') /\
    view_equiv (cs_view B s') (cs_view B calf).
Proof.
  intros Hwf (Hcwf & _ & Hps) Hon.
  destruct (cs_parents calf) as [|p rest] eqn:E; inversion Hps as [|? ? ? ? Hp Hrest]; subst.
  destruct (commit_stack B calf p rest Hcwf E) as (q & Hq & Hqwf & Hb & Hv).
  - rewrite Hp. exact Hon.
  - eexists. split_and!; [exact Hq|done| |done]. destruct Hb as (H1 & H2 & H3). unfold same_block. cbn.
    rewrite H1, H2, H3, Hp. done.
Qed.

(** An application runs atomically: when its program fails or
    rejects (or its evaluation delta cannot be built), the ledger is exactly what
    it was; when it passes, the ledger shows exactly what the program left in its
    own child cow.  The interpreter is any function that works on the child
    through operations that keep the invariant of the stack. *)
Theorem StatefulEval_atomic {V} B (evalContract : M (cowStack * V) (bool * EvalDelta)) txn aidx s v :
  stack_wf B s ->
  (forall r calf v', evalContract (child 1 s, v) = (r, (calf, v')) ->
     step_ok B (child 1 s) calf /\ pushed_on (cs_cur s) (cs_cur calf)) ->
  match StatefulEval evalContract txn aidx (s, v) with
  | (Ok (true, _), (s', v')) => exists ed calf,
      evalContract (child 1 s, v) = (Ok (true, ed), (calf, v')) /\ stack_wf B s' /\
      same_block (cs_cur s) (cs_cur s') /\ view_equiv (cs_view B s') (cs_view B calf)
  | (Ok (false, _), (s', _)) | (Err _, (s', _)) =>
      stack_wf B s' /\ same_block (cs_cur s) (cs_cur s') /\ cs_view B s' = cs_view B s
  | (Panic, _) => True
  end.
Proof.
  intros Hwf Hvm. unfold StatefulEval.
  destruct (evalContract (child 1 s, v)) as [r [calf v']] eqn:E.
  destruct (Hvm _ _ _ eq_refl) as [Hst Hon]. destruct (discard_view _ _ _ Hst Hwf) as (H1 & H2 & H3).
  destruct r as [[[] ed]|e|]; [|by split_and!|by split_and!|done].
  destruct (commit_calf _ _ _ Hwf Hst Hon) as (s' & Hc & H4 & H5 & H6). rewrite Hc.
  destruct (if proto_LogicSigVersion _ <? 6 then _ else _) as [ed'|e|]; [|by split_and!|done].
  exists ed, calf. by split_and!.
Qed.

(** A program that writes a key and then passes or rejects. *)
Definition sample_program (pass : bool) : M (cowStack * unit) (bool * EvalDelta) :=
  _ ← onCow (SetKey (base_parent sample_base) 5 9 true "k" (mkTealValue TealUintType "" 8) 0);
  mret (pass, EvalDelta_zero).

Lemma StatefulEval_atomic_witness :
  match StatefulEval (sample_program false) (stx_Txn (sample_stx 0 1000)) 9 (sample_stack, tt) with
  | (Ok (false, _), (s', _)) =>
      par_getKey (cs_view (base_parent sample_base) s') 5 9 true "k" 0 = Ok (mkTealValue TealUintType "" 7, true)
  | _ => False
  end.
Proof.
  set (B := base_parent sample_base).
  assert (forall r calf v', sample_program false (child 1 sample_stack, tt) = (r, (calf, v')) ->
            step_ok B (child 1 sample_stack) calf /\ pushed_on (cs_cur sample_stack) (cs_cur calf)) as Hvm.
  { intros r calf v' Hrun.
    destruct (SetKey B 5 9 true "k" (mkTealValue TealUintType "" 8) 0 (child 1 sample_stack)) as [r1 s1] eqn:E.
    assert (r1 = Ok tt) as -> by (revert E; vm_compute; intros [= <- _]; reflexivity).
    assert (calf = s1) as ->.
    { revert Hrun. unfold sample_program, onCow, mbind, M_bind, mret, M_ret. cbn [fst snd]. fold B.
      rewrite E. intros [= _ <- _]. reflexivity. }
    pose proof (child_wf B 1 _ sample_stack_wf) as Hwf.
    assert (holds_store (cs_view B (child 1 sample_stack)) 5 9 true {[ "k" := mkTealValue TealUintType "" 7 ]}) as Hst.
    { destruct sample_store as (H1 & H2 & H3 & H4). pose proof (child_view B 1 _ sample_stack_wf) as Hv.
      split_and!; [rewrite (ve_allocated _ _ Hv)|intros; rewrite (ve_getKey _ _ Hv)|rewrite (ve_counts _ _ Hv)|]; done. }
    pose proof (SetKey_wp B _ 5 9 true "k" (mkTealValue TealUintType "" 8) 0 _ Hwf Hst
                  ltac:(vm_compute; reflexivity)) as Hwp.
    destruct (wp_run _ _ _ _ _ E Hwp eq_refl) as (_ & lsd & (Hstep & _) & _). split; [exact Hstep|].
    clear - E. assert (s1 = (SetKey B 5 9 true "k" (mkTealValue TealUintType "" 8) 0 (child 1 sample_stack)).2) as ->
      by (by rewrite E).
    split_and!; [vm_compute; reflexivity..|vm_compute; congruence|]. intros txl e.
    change (sd_Txleases _) with (∅ : gmap Txlease Round). rewrite lookup_empty. discriminate. }
  pose proof (StatefulEval_atomic B (sample_program false) (stx_Txn (sample_stx 0 1000)) 9 sample_stack tt
                sample_stack_wf Hvm) as H.
  destruct (StatefulEval _ _ _ _) as [r [s' v']] eqn:E.
  assert (exists ed, r = Ok (false, ed)) as [ed ->] by (revert E; vm_compute; intros [= <- _ _]; eauto).
  destruct H as (_ & _ & Hv). rewrite Hv. vm_compute. reflexivity.
Defined.
