(* ===== verification/Apply.v ===== *)
(** [src/ledger/apply/]: how each type of transaction changes the balances, as
    clients of the interface of [Balances].

    The [ApplyData] a function fills in through a pointer is passed in and
    returned.  [logic.CheckContract], the static check of a program, is a
    parameter of the application calls. *)
From S2P Require Import Prelude Config Basics Transactions Balances.
#[local] Open Scope string_scope.
#[local] Open Scope list_scope.
#[local] Open Scope Z_scope.

Section apply.
  Context {S : Type} `{Balances S}.

(** ** Rekeying (apply.go) *)

Definition Rekey (tx : Header) : M S unit :=
  if negb (hdr_RekeyTo tx =? 0) then
    acct ← bal_Get (hdr_Sender tx) false;
    bal_Put (hdr_Sender tx)
      (acct <| acct_AuthAddr := if hdr_RekeyTo tx =? hdr_Sender tx then 0 else hdr_RekeyTo tx |>)
  else mret tt.

(** ** Payments (payment.go) *)

(** Close the account of [sender] to [closeTo]. *)
Definition closeAccount (sender closeTo : Address) (ad : ApplyData) : M S ApplyData :=
  rec ← bal_Get sender true;
  let closeAmount := acct_MicroNovas rec in
  let ad := ad <| ad_ClosingAmount := closeAmount |> in
  '(sr, cr) ← bal_Move sender closeTo closeAmount (Some (ad_SenderRewards ad)) (Some (ad_CloseRewards ad));
  let ad := ad <| ad_SenderRewards := default 0 sr |> <| ad_CloseRewards := default 0 cr |> in
  rec ← bal_Get sender true;
  _ ← throwIf (negb (acct_MicroNovas rec =? 0)) (Errorf "balance still not zero after CloseRemainderTo");
  _ ← throwIf (0 <? glen (acct_Assets rec)) (Errorf "cannot close: outstanding assets");
  _ ← throwIf (0 <? glen (acct_AssetParams rec)) (Errorf "cannot close: outstanding created assets");
  _ ← throwIf (0 <? glen (acct_AppLocalStates rec)) (Errorf "cannot close: outstanding applications opted in");
  _ ← throwIf (0 <? glen (acct_AppParams rec)) (Errorf "cannot close: outstanding created applications");
  _ ← bal_Put sender AccountData_zero;
  mret ad.

Definition Payment (payment : PaymentTxnFields) (header : Header) (ad : ApplyData) : M S ApplyData :=
  ad ← (if negb (pay_Amount payment =? 0) || negb (pay_Receiver payment =? 0) then
          '(sr, rr) ← bal_Move (hdr_Sender header) (pay_Receiver payment) (pay_Amount payment)
                        (Some (ad_SenderRewards ad)) (Some (ad_ReceiverRewards ad));
          mret (ad <| ad_SenderRewards := default 0 sr |> <| ad_ReceiverRewards := default 0 rr |>)
        else mret ad);
  if negb (pay_CloseRemainderTo payment =? 0)
  then closeAccount (hdr_Sender header) (pay_CloseRemainderTo payment) ad
  else mret ad.

(** ** Key registration (keyreg.go) *)

Definition Keyreg (keyreg : KeyregTxnFields) (header : Header) (spec : SpecialAddresses)
    (round : Round) : M S unit :=
  _ ← throwIf (hdr_Sender header =? spec_FeeSink spec) (Errorf "cannot register participation key for fee sink");
  record ← bal_Get (hdr_Sender header) false;
  _ ← throwIf (bool_decide (acct_Status record = NotParticipating))
        (Errorf "cannot change online/offline status of non-participating account");
  proto ← gets bal_ConsensusParams;
  let record := record <| acct_VoteID := kr_VotePK keyreg |>
                       <| acct_SelectionID := kr_SelectionPK keyreg |> in
  record ←
    (if (kr_VotePK keyreg =? 0) || (kr_SelectionPK keyreg =? 0) then
       record ← (if kr_Nonparticipation keyreg then
                   _ ← throwIf (negb (proto_SupportBecomeNonParticipatingTransactions proto))
                         (Errorf "marking an account as nonparticipating is not supported");
                   mret (record <| acct_Status := NotParticipating |>)
                 else mret (record <| acct_Status := Offline |>));
       mret (record <| acct_VoteFirstValid := 0 |> <| acct_VoteLastValid := 0 |>
                    <| acct_VoteKeyDilution := 0 |>)
     else
       _ ← (if proto_EnableKeyregCoherencyCheck proto then
              _ ← throwIf (kr_VoteLast keyreg <=? round)
                    (Errorf "going online with last voting round in the past");
              throwIf (wrap64 (round + 1) <? kr_VoteFirst keyreg)
                (Errorf "going online with first voting round beyond the next voting round")
            else mret tt);
       let record := record <| acct_Status := Online |>
                            <| acct_VoteFirstValid := kr_VoteFirst keyreg |>
                            <| acct_VoteLastValid := kr_VoteLast keyreg |>
                            <| acct_VoteKeyDilution := kr_VoteKeyDilution keyreg |> in
       mret (if proto_EnableStateProofKeyregCheck proto
             then record <| acct_StateProofID := kr_StateProofPK keyreg |> else record));
  bal_Put (hdr_Sender header) record.

(** ** Address prints (addressprint.go): only a line in a log file *)

Definition AddressPrint (addressprint : AddressPrintTxnFields) (header : Header) : M S unit := mret tt.

(** ** Assets (asset.go) *)

Definition getParams (aidx : AssetIndex) : M S (AssetParams * Address) :=
  '(creator, exists_) ← bal_GetCreator aidx AssetCreatable;
  _ ← throwIf (negb exists_) (Errorf "asset does not exist or has been deleted");
  creatorRecord ← bal_Get creator false;
  match acct_AssetParams creatorRecord !! aidx with
  | None => throw (Errorf "asset index not found in account")
  | Some params => mret (params, creator)
  end.

Definition createAsset (cc : AssetConfigTxnFields) (sender : Address) (ad : ApplyData) (txnCounter : Z)
    : M S ApplyData :=
  record ← bal_Get sender false;
  let newidx := wrap64 (txnCounter + 1) in
  _ ← throwIf (bool_decide (is_Some (acct_AssetParams record !! newidx)))
        (Errorf "already found asset with index");
  let record :=
    record <| acct_AssetParams := <[newidx := ac_AssetParams cc]> (acct_AssetParams record) |>
           <| acct_Assets := <[newidx := mkAssetHolding (ap_Total (ac_AssetParams cc)) false]> (acct_Assets record) |> in
  proto ← gets bal_ConsensusParams;
  _ ← throwIf (proto_MaxAssetsPerAccount proto <? glen (acct_Assets record))
        (Errorf "too many assets in account");
  _ ← bal_Put sender record;
  _ ← bal_AllocateAsset sender newidx true;
  _ ← bal_AllocateAsset sender newidx false;
  mret (ad <| ad_ConfigAsset := newidx |>).

(** A key that is zero stays zero. *)
Definition reconfigure (params new : AssetParams) : AssetParams :=
  let params := if negb (ap_Manager params =? 0) then params <| ap_Manager := ap_Manager new |> else params in
  let params := if negb (ap_Reserve params =? 0) then params <| ap_Reserve := ap_Reserve new |> else params in
  let params := if negb (ap_Freeze params =? 0) then params <| ap_Freeze := ap_Freeze new |> else params in
  if negb (ap_Clawback params =? 0) then params <| ap_Clawback := ap_Clawback new |> else params.

Definition holdingAmount (record : AccountData) (aidx : AssetIndex) : Z :=
  ah_Amount (default AssetHolding_zero (acct_Assets record !! aidx)).

Definition AssetConfig (cc : AssetConfigTxnFields) (header : Header) (ad : ApplyData) (txnCounter : Z)
    : M S ApplyData :=
  let aidx := ac_ConfigAsset cc in
  if aidx =? 0 then createAsset cc (hdr_Sender header) ad txnCounter
  else
    '(params, creator) ← getParams aidx;
    _ ← throwIf ((ap_Manager params =? 0) || negb (hdr_Sender header =? ap_Manager params))
          (Errorf "this transaction should be issued by the manager");
    record ← bal_Get creator false;
    record ←
      (if bool_decide (ac_AssetParams cc = AssetParams_zero) then
         _ ← throwIf (negb (holdingAmount record aidx =? ap_Total params)) (Errorf "cannot destroy asset");
         _ ← bal_DeallocateAsset creator aidx true;
         _ ← bal_DeallocateAsset creator aidx false;
         mret (record <| acct_Assets := delete aidx (acct_Assets record) |>
                      <| acct_AssetParams := delete aidx (acct_AssetParams record) |>)
       else
         mret (record <| acct_AssetParams :=
                 <[aidx := reconfigure params (ac_AssetParams cc)]> (acct_AssetParams record) |>));
    _ ← bal_Put creator record;
    mret ad.

Definition takeOut (addr : Address) (asset : AssetIndex) (amount : Z) (bypassFreeze : bool) : M S unit :=
  if amount =? 0 then mret tt
  else
    snd ← bal_Get addr false;
    match acct_Assets snd !! asset with
    | None => throw (Errorf "asset missing from account")
    | Some sndHolding =>
        _ ← throwIf (ah_Frozen sndHolding && negb bypassFreeze) (Errorf "asset frozen in account");
        let '(newAmount, overflowed) := OSub (ah_Amount sndHolding) amount in
        _ ← throwIf overflowed (Errorf "underflow on subtracting from sender amount");
        bal_Put addr (snd <| acct_Assets :=
          <[asset := sndHolding <| ah_Amount := newAmount |>]> (acct_Assets snd) |>)
    end.

Definition putIn (addr : Address) (asset : AssetIndex) (amount : Z) (bypassFreeze : bool) : M S unit :=
  if amount =? 0 then mret tt
  else
    rcv ← bal_Get addr false;
    match acct_Assets rcv !! asset with
    | None => throw (Errorf "asset missing from account")
    | Some rcvHolding =>
        _ ← throwIf (ah_Frozen rcvHolding && negb bypassFreeze) (Errorf "asset frozen in recipient");
        let '(newAmount, overflowed) := OAdd (ah_Amount rcvHolding) amount in
        _ ← throwIf overflowed (Errorf "overflow on adding to receiver amount");
        bal_Put addr (rcv <| acct_Assets :=
          <[asset := rcvHolding <| ah_Amount := newAmount |>]> (acct_Assets rcv) |>)
    end.

(** Allocate a slot for an asset: a self-transfer of a zero amount. *)
Definition optInAsset (source : Address) (aidx : AssetIndex) : M S unit :=
  snd ← bal_Get source false;
  match acct_Assets snd !! aidx with
  | Some _ => mret tt
  | None =>
      '(params, _) ← getParams aidx;
      let snd := snd <| acct_Assets :=
        <[aidx := mkAssetHolding 0 (ap_DefaultFrozen params)]> (acct_Assets snd) |> in
      proto ← gets bal_ConsensusParams;
      _ ← throwIf (proto_MaxAssetsPerAccount proto <? glen (acct_Assets snd))
            (Errorf "too many assets in account");
      _ ← bal_Put source snd;
      bal_AllocateAsset source aidx false
  end.

(** Close out a holding to [closeTo]. *)
Definition closeAsset (source closeTo : Address) (aidx : AssetIndex) (ad : ApplyData) : M S ApplyData :=
  snd ← bal_Get source false;
  _ ← throwIf (bool_decide (is_Some (acct_AssetParams snd !! aidx)))
        (Errorf "cannot close asset ID in allocating account");
  match acct_Assets snd !! aidx with
  | None => throw (Errorf "asset not present in account")
  | Some sndHolding =>
      dst ← bal_Get closeTo false;
      let bypassFreeze := bool_decide (is_Some (acct_AssetParams dst !! aidx)) in
      proto ← gets bal_ConsensusParams;
      let ad := if proto_EnableAssetCloseAmount proto
                then ad <| ad_AssetClosingAmount := ah_Amount sndHolding |> else ad in
      _ ← takeOut source aidx (ah_Amount sndHolding) bypassFreeze;
      _ ← putIn closeTo aidx (ah_Amount sndHolding) bypassFreeze;
      snd ← bal_Get source false;
      _ ← throwIf (negb (holdingAmount snd aidx =? 0)) (Errorf "asset not zero after closing");
      _ ← bal_Put source (snd <| acct_Assets := delete aidx (acct_Assets snd) |>);
      _ ← bal_DeallocateAsset source aidx false;
      mret ad
  end.

Definition AssetTransfer (ct : AssetTransferTxnFields) (header : Header) (ad : ApplyData) : M S ApplyData :=
  let aidx := ax_XferAsset ct in
  let clawback := negb (ax_AssetSender ct =? 0) in
  _ ← (if clawback then
         '(params, _) ← getParams aidx;
         throwIf ((ap_Clawback params =? 0) || negb (hdr_Sender header =? ap_Clawback params))
           (Errorf "clawback not allowed")
       else mret tt);
  let source := if clawback then ax_AssetSender ct else hdr_Sender header in
  _ ← (if (ax_AssetAmount ct =? 0) && (ax_AssetReceiver ct =? source) && negb clawback
       then optInAsset source aidx else mret tt);
  _ ← takeOut source aidx (ax_AssetAmount ct) clawback;
  _ ← putIn (ax_AssetReceiver ct) aidx (ax_AssetAmount ct) clawback;
  if negb (ax_AssetCloseTo ct =? 0) then
    _ ← throwIf clawback (Errorf "cannot close asset by clawback");
    closeAsset source (ax_AssetCloseTo ct) aidx ad
  else mret ad.

Definition AssetFreeze (cf : AssetFreezeTxnFields) (header : Header) : M S unit :=
  '(params, _) ← getParams (af_FreezeAsset cf);
  _ ← throwIf ((ap_Freeze params =? 0) || negb (hdr_Sender header =? ap_Freeze params))
        (Errorf "freeze not allowed");
  record ← bal_Get (af_FreezeAccount cf) false;
  match acct_Assets record !! af_FreezeAsset cf with
  | None => throw (Errorf "asset not found in account")
  | Some holding =>
      bal_Put (af_FreezeAccount cf)
        (record <| acct_Assets :=
           <[af_FreezeAsset cf := holding <| ah_Frozen := af_AssetFrozen cf |>]> (acct_Assets record) |>)
  end.

(** ** Applications (application.go) *)

Definition getAppParams (aidx : AppIndex) : M S (AppParams * Address * bool) :=
  '(creator, exists_) ← bal_GetCreator aidx AppCreatable;
  if negb exists_ then mret (AppParams_zero, creator, false)
  else
    record ← bal_Get creator false;
    match acct_AppParams record !! aidx with
    | None => throw (Errorf "app not found in account")
    | Some params => mret (params, creator, true)
    end.

Definition createApplication (ac : ApplicationCallTxnFields) (creator : Address) (txnCounter : Z)
    : M S AppIndex :=
  record ← bal_Get creator false;
  proto ← gets bal_ConsensusParams;
  _ ← throwIf (proto_MaxAppsCreated proto <=? glen (acct_AppParams record))
        (Errorf "cannot create app: max created apps per acct");
  let appIdx := wrap64 (txnCounter + 1) in
  let params := mkAppParams (apc_ApprovalProgram ac) (apc_ClearStateProgram ac) ∅
                  (apc_LocalStateSchema ac) (apc_GlobalStateSchema ac) (apc_ExtraProgramPages ac) in
  _ ← bal_Put creator
        (record <| acct_AppParams := <[appIdx := params]> (acct_AppParams record) |>
                <| acct_TotalAppSchema := AddSchema (acct_TotalAppSchema record) (apc_GlobalStateSchema ac) |>
                <| acct_TotalExtraAppPages :=
                     AddSaturate32 (acct_TotalExtraAppPages record) (apc_ExtraProgramPages ac) |>);
  _ ← bal_AllocateApp creator appIdx true (apc_GlobalStateSchema ac);
  mret appIdx.

Definition deleteApplication (creator : Address) (appIdx : AppIndex) : M S unit :=
  record ← bal_Get creator false;
  let params := default AppParams_zero (acct_AppParams record !! appIdx) in
  proto ← gets bal_ConsensusParams;
  let pages := acct_TotalExtraAppPages record in
  let pages :=
    if (0 <? pages) && proto_EnableExtraPagesOnAppUpdate proto
    then SubSaturate32 pages (app_ExtraProgramPages params) else pages in
  _ ← bal_Put creator
        (record <| acct_TotalAppSchema := SubSchema (acct_TotalAppSchema record) (app_GlobalStateSchema params) |>
                <| acct_TotalExtraAppPages := pages |>
                <| acct_AppParams := delete appIdx (acct_AppParams record) |>);
  bal_DeallocateApp creator appIdx true.

Definition updateApplication (ac : ApplicationCallTxnFields) (creator : Address) (appIdx : AppIndex)
    : M S unit :=
  record ← bal_Get creator false;
  let params := default AppParams_zero (acct_AppParams record !! appIdx) in
  proto ← gets bal_ConsensusParams;
  _ ← (if proto_EnableExtraPagesOnAppUpdate proto then
         let lap := slen (apc_ApprovalProgram ac) in
         let lcs := slen (apc_ClearStateProgram ac) in
         let pages := wrap32 (1 + app_ExtraProgramPages params) in
         _ ← throwIf (pages * proto_MaxAppProgramLen proto <? lap) (Errorf "approval program too long");
         _ ← throwIf (pages * proto_MaxAppProgramLen proto <? lcs) (Errorf "clear state program too long");
         throwIf (pages * proto_MaxAppTotalProgramLen proto <? lap + lcs) (Errorf "app programs too long")
       else mret tt);
  bal_Put creator
    (record <| acct_AppParams :=
       <[appIdx := params <| app_ApprovalProgram := apc_ApprovalProgram ac |>
                          <| app_ClearStateProgram := apc_ClearStateProgram ac |>]>
         (acct_AppParams record) |>).

Definition optInApplication (sender : Address) (appIdx : AppIndex) (params : AppParams) : M S unit :=
  record ← bal_Get sender false;
  _ ← throwIf (bool_decide (is_Some (acct_AppLocalStates record !! appIdx)))
        (Errorf "account has already opted in to app");
  proto ← gets bal_ConsensusParams;
  _ ← throwIf (proto_MaxAppsOptedIn proto <=? glen (acct_AppLocalStates record))
        (Errorf "cannot opt in app: max opted-in apps per acct");
  _ ← bal_Put sender
        (record <| acct_AppLocalStates :=
                     <[appIdx := mkAppLocalState (app_LocalStateSchema params) ∅]> (acct_AppLocalStates record) |>
                <| acct_TotalAppSchema := AddSchema (acct_TotalAppSchema record) (app_LocalStateSchema params) |>);
  bal_AllocateApp sender appIdx false (app_LocalStateSchema params).

Definition closeOutApplication (sender : Address) (appIdx : AppIndex) : M S unit :=
  record ← bal_Get sender false;
  match acct_AppLocalStates record !! appIdx with
  | None => throw (Errorf "account is not opted in to app")
  | Some localState =>
      _ ← bal_Put sender
            (record <| acct_TotalAppSchema := SubSchema (acct_TotalAppSchema record) (als_Schema localState) |>
                    <| acct_AppLocalStates := delete appIdx (acct_AppLocalStates record) |>);
      bal_DeallocateApp sender appIdx false
  end.

Section application_calls.
  Context (CheckContract : string -> S -> outcome unit).

Definition checkPrograms (check : string -> outcome unit) (ac : ApplicationCallTxnFields) : outcome unit :=
  _ ← wrapErr (Errorf "check failed on ApprovalProgram") (check (apc_ApprovalProgram ac));
  wrapErr (Errorf "check failed on ClearStateProgram") (check (apc_ClearStateProgram ac)).

(** The branch of [ApplicationCall] that clears the sender's local state: the
    program's rejections and logic errors are ignored. *)
Definition clearState (header : Header) (ad : ApplyData) (gi : Z) (txn : Transaction)
    (appIdx : AppIndex) (params : AppParams) (exists_ : bool) : M S ApplyData :=
  record ← bal_Get (hdr_Sender header) false;
  _ ← throwIf (negb (bool_decide (is_Some (acct_AppLocalStates record !! appIdx))))
        (Errorf "cannot clear state: not currently opted in to app");
  ad ← (if (exists_ : bool) then
          r ← attempt (bal_StatefulEval gi txn appIdx (app_ClearStateProgram params));
          match r with
          | inl (true, evalDelta) => mret (ad <| ad_EvalDelta := evalDelta |>)
          | inl (false, _) => mret ad
          | inr (LogicEvalError _) => mret ad
          | inr e => throw e
          end
        else mret ad);
  _ ← closeOutApplication (hdr_Sender header) appIdx;
  mret ad.

(** The action taken after the approval program passed. *)
Definition completion (ac : ApplicationCallTxnFields) (sender creator : Address) (appIdx : AppIndex)
    : M S unit :=
  if apc_OnCompletion ac =? NoOpOC then mret tt
  else if apc_OnCompletion ac =? OptInOC then mret tt
  else if apc_OnCompletion ac =? CloseOutOC then closeOutApplication sender appIdx
  else if apc_OnCompletion ac =? DeleteApplicationOC then deleteApplication creator appIdx
  else if apc_OnCompletion ac =? UpdateApplicationOC then updateApplication ac creator appIdx
  else throw (Errorf "invalid application action").

Definition ApplicationCall (ac : ApplicationCallTxnFields) (header : Header) (ad : ApplyData)
    (gi : Z) (txn : Transaction) (txnCounter : Z) : M S ApplyData :=
  '(appIdx, ad) ← (if apc_ApplicationID ac =? 0 then
                     appIdx ← createApplication ac (hdr_Sender header) txnCounter;
                     mret (appIdx, ad <| ad_ApplicationID := appIdx |>)
                   else mret (apc_ApplicationID ac, ad));
  '(params, creator, exists_) ← getAppParams appIdx;
  _ ← throwIf (negb exists_ && negb (apc_OnCompletion ac =? ClearStateOC))
        (Errorf "only clearing out is supported for applications that do not exist");
  _ ← (if (apc_ApplicationID ac =? 0) || (apc_OnCompletion ac =? UpdateApplicationOC) then
         _ ← lift (CheckContractVersions (apc_ApprovalProgram ac) (apc_ClearStateProgram ac) params);
         check ← gets (fun (s : S) program => CheckContract program s);
         lift (checkPrograms check ac)
       else mret tt);
  if apc_OnCompletion ac =? ClearStateOC then clearState header ad gi txn appIdx params exists_
  else
    _ ← (if apc_OnCompletion ac =? OptInOC
         then optInApplication (hdr_Sender header) appIdx params else mret tt);
    '(approved, evalDelta) ← bal_StatefulEval gi txn appIdx (app_ApprovalProgram params);
    _ ← throwIf (negb approved) (Errorf "transaction rejected by ApprovalProgram");
    _ ← completion ac (hdr_Sender header) creator appIdx;
    mret (ad <| ad_EvalDelta := evalDelta |>).

End application_calls.
End apply.
