(* ===== verification/ApplyFacts.v ===== *)
(** What the transaction types of [Apply] guarantee, proved from the laws of the
    interface [Balances] alone: payments conserve money, closing leaves an empty
    account, asset transfers conserve units and respect freezes, application
    calls keep the cached schema totals exact. *)
From S2P Require Import Prelude Config Basics Transactions Balances Apply.
#[local] Open Scope string_scope.
#[local] Open Scope list_scope.
#[local] Open Scope Z_scope.

Section facts.
  Context {S : Type} `{BalancesLaws S}.

(** ** Payments *)

Lemma glen_zero {V} (m : gmap Z V) : (0 <? glen m) = false -> m = ∅.
Proof.
  unfold glen. rewrite Z.ltb_ge. intros Hle. apply map_size_empty_inv. lia.
Qed.

Lemma AccountData_zero_wf : record_wf AccountData_zero.
Proof. split; [by split_and!|apply map_Forall_empty]. Qed.

Lemma money_zero proto lvl : moneyZ proto lvl AccountData_zero = 0.
Proof. reflexivity. Qed.

(** Closing an account: the money goes to [closeTo] and the account is empty. *)
Lemma closeAccount_wp s sender closeTo ad : bal_inv s ->
  wp (closeAccount sender closeTo ad)
    (steps_to s (fun _ s' =>
       bal_acct s' sender = Ok AccountData_zero /\
       (forall a, a <> sender -> a <> closeTo -> bal_acct s' a = bal_acct s a) /\
       (forall l, NoDup l -> sender ∈ l -> closeTo ∈ l -> total_money s' l = total_money s l))) s.
Proof.
  intros Hs. unfold closeAccount. apply wp_bind. apply wp_Get_rewards; [done| | |];
    [|split; [by apply bal_step_refl|done]..].
  intros d Hd Hr. cbn [andThen]. rewrite rewarded_MicroNovas. cbn zeta.
  apply wp_bind. apply wp_Move; [done| | | |]; [|intros [sr cr] s1 Hmv|..]; cbn [andThen];
    [|..|intros; split; [done|done]|intros; split; [done|done]].
  { rewrite <- rewarded_MicroNovas.
    apply rewarded_wf; eauto using bal_unit_pos, bal_level_u64, bal_acct_wf. }
  pose proof Hmv as (Hst & Hfr & Hsame & (df' & Hdf & Hmic) & _).
  apply wp_bind. apply wp_Get_rewards; [apply Hst| | |]; [|split; [done|done]..].
  intros d1 Hd1 Hr1. rewrite Hd1 in Hdf. injection Hdf as <-. cbn [andThen].
  repeat (apply wp_bind; apply wp_throwIf; cbn [andThen]; intros ?; [by split|]).
  apply wp_bind. eapply wp_mono; [apply bal_Put_law; [apply Hst|apply AccountData_zero_wf]|].
  intros r s2 (-> & Hst2 & Hput). cbn [andThen]. wp_step.
  split; [by eapply bal_step_trans|]. intros a _. split_and!.
  - by rewrite Hput, decide_True.
  - intros b Hb1 Hb2. rewrite Hput, decide_False by done. by apply Hfr.
  - intros l Hnd Hl1 Hl2. rewrite <- (moved_total s sender closeTo _ s1 l Hmv Hnd Hl1 Hl2).
    unfold total_money. rewrite (sumZ_update (money_at s1) (money_at s2) l sender); [|done|done|].
    2: { intros b Hb. apply money_at_ext; [done|]. by rewrite Hput, decide_False. }
    assert (money_at s2 sender = 0) as -> by (unfold money_at; by rewrite Hput, decide_True).
    rewrite negb_false_iff, Z.eqb_eq, rewarded_MicroNovas in H1.
    unfold money_at. rewrite Hd1. unfold bal_money_of. lia.
Qed.

Lemma Payment_wp s payment header ad : bal_inv s -> is_u64 (pay_Amount payment) ->
  let sender := hdr_Sender header in
  let receiver := pay_Receiver payment in
  let closeTo := pay_CloseRemainderTo payment in
  wp (Payment payment header ad)
    (steps_to s (fun _ s' =>
       (closeTo <> 0 -> bal_acct s' sender = Ok AccountData_zero) /\
       (forall a, a <> sender -> a <> receiver -> a <> closeTo -> bal_acct s' a = bal_acct s a) /\
       (forall l, NoDup l -> sender ∈ l -> receiver ∈ l -> closeTo ∈ l ->
          total_money s' l = total_money s l))) s.
Proof.
  intros Hs Hamt sender receiver closeTo. unfold Payment. fold sender receiver closeTo.
  (* the amount itself *)
  apply wp_bind. eapply (wp_mono _ (steps_to s (fun _ s1 =>
    (forall a, a <> sender -> a <> receiver -> bal_acct s1 a = bal_acct s a) /\
    forall l, NoDup l -> sender ∈ l -> receiver ∈ l -> total_money s1 l = total_money s l))).
  { apply wp_if; intros _.
    - apply wp_bind. apply wp_Move; [done|done| | |]; cbn [andThen];
        [|intros; split; [done|done]..].
      intros [sr rr] s1 Hmv. wp_step. split; [apply Hmv|]. intros ad' _. split; [apply Hmv|].
      intros l Hnd H1 H2. by eapply moved_total.
    - wp_step. split; [by apply bal_step_refl|]. done. }
  intros r s1 [Hst1 Hr1]. destruct r as [ad1|e|]; cbn [andThen]; [|by split..].
  destruct (Hr1 ad1 eq_refl) as [Hfr1 Htot1].
  (* closing *)
  apply wp_if; intros Hc.
  - eapply wp_mono; [apply closeAccount_wp, Hst1|]. intros r s2 [Hst2 Hr2].
    split; [by eapply bal_step_trans|]. intros ad2 ->. destruct (Hr2 ad2 eq_refl) as (Hz & Hfr2 & Htot2).
    split_and!; [done| |].
    + intros a H1 H2 H3. rewrite Hfr2 by done. by apply Hfr1.
    + intros l Hnd H1 H2 H3. rewrite Htot2 by done. by apply Htot1.
  - wp_step. split; [done|]. intros ad2 _. rewrite negb_false_iff, Z.eqb_eq in Hc.
    split_and!; [done|auto|auto].
Qed.

(** ** Key registration and rekeying *)

(** What a key registration may do to an account. *)
Definition keyreg_effect (proto : ConsensusParams) (round : Round) (kr : KeyregTxnFields)
    (d d' : AccountData) : Prop :=
  acct_Status d <> NotParticipating /\
  acct_MicroNovas d' = acct_MicroNovas d /\ acct_RewardsBase d' = acct_RewardsBase d /\
  acct_RewardedMicroNovas d' = acct_RewardedMicroNovas d /\
  acct_Assets d' = acct_Assets d /\ acct_AssetParams d' = acct_AssetParams d /\
  acct_AppParams d' = acct_AppParams d /\ acct_AppLocalStates d' = acct_AppLocalStates d /\
  acct_AuthAddr d' = acct_AuthAddr d /\
  acct_VoteID d' = kr_VotePK kr /\ acct_SelectionID d' = kr_SelectionPK kr /\
  (acct_Status d' = Online <-> kr_VotePK kr <> 0 /\ kr_SelectionPK kr <> 0) /\
  (acct_Status d' = Online ->
     acct_VoteFirstValid d' = kr_VoteFirst kr /\ acct_VoteLastValid d' = kr_VoteLast kr /\
     acct_VoteKeyDilution d' = kr_VoteKeyDilution kr /\
     (proto_EnableKeyregCoherencyCheck proto = true ->
        round < kr_VoteLast kr /\ kr_VoteFirst kr <= wrap64 (round + 1))) /\
  (acct_Status d' <> Online ->
     acct_VoteFirstValid d' = 0 /\ acct_VoteLastValid d' = 0 /\ acct_VoteKeyDilution d' = 0 /\
     (acct_Status d' = NotParticipating <-> kr_Nonparticipation kr = true)).

Lemma Keyreg_wp s kr header spec round : bal_inv s ->
  wp (Keyreg kr header spec round)
    (steps_to s (fun _ s' =>
       hdr_Sender header <> spec_FeeSink spec /\
       (forall a, a <> hdr_Sender header -> bal_acct s' a = bal_acct s a) /\
       exists d d', bal_acct s (hdr_Sender header) = Ok d /\ bal_acct s' (hdr_Sender header) = Ok d' /\
         keyreg_effect (bal_ConsensusParams s) round kr d d')) s.
Proof.
  intros Hs. unfold Keyreg. pose proof (bal_step_refl s Hs) as Hrefl.
  apply wp_bind, wp_throwIf; cbn [andThen]; intros Hfs; [by split|].
  apply wp_bind, wp_Get_plain; [done|]. destruct (bal_acct s (hdr_Sender header)) as [d|e|] eqn:Ed;
    cbn [andThen]; [|by split..].
  apply wp_bind, wp_throwIf; cbn [andThen]; intros Hnp; [by split|]. apply wp_bind, wp_gets. cbn [andThen].
  rewrite bool_decide_eq_false in Hnp. set (proto := bal_ConsensusParams s).
  apply wp_bind. eapply (wp_mono _ (fun r s' => s' = s /\
      forall d', r = Ok d' -> keyreg_effect proto round kr d d' /\ record_wf d')).
  { assert (record_wf d) as Hdw by eauto using bal_record_wf.
    apply wp_if; intros Hk.
    - apply wp_bind. apply wp_if; intros Hn; [apply wp_bind, wp_throwIf; cbn [andThen]; intros Hsup; [by split|]|];
        wp_step; wp_step; (split; [done|]; intros d' [= <-]; split; [|exact Hdw]);
        unfold keyreg_effect; cbn; rewrite orb_true_iff, !Z.eqb_eq in Hk; rewrite Hn;
        split_and!; try done; try (intros ?; congruence || done); try (split; intros; congruence || tauto).
    - rewrite orb_false_iff, !Z.eqb_neq in Hk. apply wp_bind.
      eapply (wp_mono _ (fun r s' => s' = s /\ (r = Ok tt -> proto_EnableKeyregCoherencyCheck proto = true ->
                 round < kr_VoteLast kr /\ kr_VoteFirst kr <= wrap64 (round + 1)))).
      + apply wp_if; intros Hck; [|wp_step; split; [done|intros; congruence]].
        apply wp_bind, wp_throwIf; cbn [andThen]; intros Hl; [by split|].
        apply wp_throwIf; intros Hf; (split; [done|]); [done|].
        rewrite Z.leb_gt in Hl. rewrite Z.ltb_ge in Hf. done.
      + intros r s' [-> Hr]. destruct r as [[]|e|]; cbn [andThen]; [|by split..].
        wp_step. split; [done|]. intros d' [= <-].
        destruct (proto_EnableStateProofKeyregCheck proto); (split; [|exact Hdw]); unfold keyreg_effect; cbn;
          split_and!; try done; try (intros ?; done); split; intros; tauto. }
  intros r s' [-> Hr]. destruct r as [d'|e|]; cbn [andThen]; [|by split..].
  destruct (Hr d' eq_refl) as [Heff Hwf].
  eapply wp_mono; [by apply bal_Put_law|]. intros r s' (-> & Hst & Hput). split; [done|]. intros _ _.
  rewrite Z.eqb_neq in Hfs. split_and!; [done| |].
  - intros a Ha. by rewrite Hput, decide_False.
  - exists d, d'. rewrite Hput, decide_True by done. done.
Qed.


(** ** Assets *)

(** The units of an asset an address holds, and the total over addresses. *)
Definition units_at (s : S) (aidx : AssetIndex) (a : Address) : Z :=
  match bal_acct s a with Ok d => holdingAmount d aidx | _ => 0 end.
Definition total_units (s : S) (aidx : AssetIndex) (l : list Address) : Z := sumZ (units_at s aidx) l.

(** Two versions of an account that differ only in the holding of one asset. *)
Definition same_but_holding (aidx : AssetIndex) (d d' : AccountData) : Prop :=
  exists h, d' = d <| acct_Assets := partial_alter h aidx (acct_Assets d) |>.

(** A state change of one address's holding of one asset. *)
Definition holding_changed (s : S) (addr : Address) (aidx : AssetIndex) (amt : Z) (s' : S) : Prop :=
  bal_step s s' /\ (forall a, a <> addr -> bal_acct s' a = bal_acct s a) /\
  (forall d', bal_acct s' addr = Ok d' ->
     exists d, bal_acct s addr = Ok d /\ same_but_holding aidx d d') /\
  units_at s' aidx addr = amt.

Lemma holding_changed_total s addr aidx amt s' l :
  holding_changed s addr aidx amt s' -> NoDup l -> addr ∈ l ->
  total_units s' aidx l = total_units s aidx l + (amt - units_at s aidx addr).
Proof.
  intros (Hst & Hfr & _ & <-) Hnd Hin. unfold total_units. apply sumZ_update; [done..|].
  intros a Ha. unfold units_at. by rewrite Hfr.
Qed.

Lemma record_wf_insert d aidx h : record_wf d -> is_u64 (ah_Amount h) ->
  record_wf (d <| acct_Assets := <[aidx := h]> (acct_Assets d) |>).
Proof. intros [Hw Hm] Hh. split; [exact Hw|]. cbn. by apply map_Forall_insert_2. Qed.

Lemma holdingAmount_insert d aidx h :
  holdingAmount (d <| acct_Assets := <[aidx := h]> (acct_Assets d) |>) aidx = ah_Amount h.
Proof. unfold holdingAmount. cbn. by rewrite lookup_insert_eq. Qed.

(** Writing one holding. *)
Lemma put_holding_wp s addr d aidx h : bal_inv s -> bal_acct s addr = Ok d -> is_u64 (ah_Amount h) ->
  wp (bal_Put addr (d <| acct_Assets := <[aidx := h]> (acct_Assets d) |>))
    (fun r s' => r = Ok tt /\ holding_changed s addr aidx (ah_Amount h) s' /\
       bal_acct s' addr = Ok (d <| acct_Assets := <[aidx := h]> (acct_Assets d) |>)) s.
Proof.
  intros Hs Hd Hh. eapply wp_mono; [apply bal_Put_law; [done|]|].
  { apply record_wf_insert; [by eapply bal_record_wf|done]. }
  intros r s' (-> & Hst & Hput). pose proof (Hput addr) as Ha. rewrite decide_True in Ha by done.
  split_and!; [done| |done]. split_and!; [done| | |].
  - intros a Hne. by rewrite Hput, decide_False.
  - intros d' Hd'. rewrite Ha in Hd'. injection Hd' as <-. exists d. split; [done|].
    by exists (fun _ => Some h).
  - unfold units_at. rewrite Ha. apply holdingAmount_insert.
Qed.

(** A frozen holding does not move unless the freeze is bypassed. *)
Definition may_move (s : S) (addr : Address) (aidx : AssetIndex) (bypass : bool) : Prop :=
  exists d h, bal_acct s addr = Ok d /\ acct_Assets d !! aidx = Some h /\
    (ah_Frozen h = true -> bypass = true).

Lemma may_move_unfrozen s addr aidx bypass : may_move s addr aidx false -> may_move s addr aidx bypass.
Proof. intros (d & h & Hd & Hh & Hf). exists d, h. split_and!; [done|done|]. by intros Hz%Hf. Qed.

Lemma holdingAmount_Some d aidx h : acct_Assets d !! aidx = Some h -> holdingAmount d aidx = ah_Amount h.
Proof. unfold holdingAmount. by intros ->. Qed.

Lemma takeOut_wp s addr aidx amount bypass : bal_inv s -> is_u64 amount ->
  wp (takeOut addr aidx amount bypass)
    (steps_to s (fun _ s' =>
       if amount =? 0 then s' = s
       else holding_changed s addr aidx (units_at s aidx addr - amount) s' /\
            may_move s addr aidx bypass /\ amount <= units_at s aidx addr)) s.
Proof.
  intros Hs Hamt. unfold takeOut. pose proof (bal_step_refl s Hs) as Hrefl.
  destruct (Z.eqb_spec amount 0) as [->|Hnz]; [wp_step; by split|].
  apply wp_bind, wp_Get_plain; [done|]. destruct (bal_acct s addr) as [d|e|] eqn:Ed; cbn [andThen]; [|by split..].
  destruct (acct_Assets d !! aidx) as [h|] eqn:Eh; [|wp_step; by split].
  apply wp_bind, wp_throwIf; cbn [andThen]; intros Hfr; [by split|].
  assert (is_u64 (ah_Amount h)) as Hh by (by eapply bal_record_wf in Ed as [_ Hm]; [|done]; eapply Hm).
  rewrite OSub_spec by done.
  assert (units_at s aidx addr = ah_Amount h) as Hu
    by (unfold units_at; rewrite Ed; by apply holdingAmount_Some).
  destruct (Z.leb_spec amount (ah_Amount h)) as [Hle|Hlt]; apply wp_bind, wp_throwIf; cbn [andThen];
    intros Hov; try discriminate; [|by split].
  eapply wp_mono; [apply put_holding_wp; [done|done|cbn; word]|]. cbn.
  intros r s' (-> & Hch & _). split; [apply Hch|]. intros _ _. rewrite Hu. split_and!; [done| |done].
  exists d, h. split_and!; [done|done|]. intros Hz. rewrite Hz in Hfr. by destruct bypass.
Qed.

Lemma putIn_wp s addr aidx amount bypass : bal_inv s -> is_u64 amount ->
  wp (putIn addr aidx amount bypass)
    (steps_to s (fun _ s' =>
       if amount =? 0 then s' = s
       else holding_changed s addr aidx (units_at s aidx addr + amount) s' /\
            may_move s addr aidx bypass)) s.
Proof.
  intros Hs Hamt. unfold putIn. pose proof (bal_step_refl s Hs) as Hrefl.
  destruct (Z.eqb_spec amount 0) as [->|Hnz]; [wp_step; by split|].
  apply wp_bind, wp_Get_plain; [done|]. destruct (bal_acct s addr) as [d|e|] eqn:Ed; cbn [andThen]; [|by split..].
  destruct (acct_Assets d !! aidx) as [h|] eqn:Eh; [|wp_step; by split].
  apply wp_bind, wp_throwIf; cbn [andThen]; intros Hfr; [by split|].
  assert (is_u64 (ah_Amount h)) as Hh by (by eapply bal_record_wf in Ed as [_ Hm]; [|done]; eapply Hm).
  rewrite OAdd_spec by done.
  assert (units_at s aidx addr = ah_Amount h) as Hu
    by (unfold units_at; rewrite Ed; by apply holdingAmount_Some).
  destruct (Z.ltb_spec (ah_Amount h + amount) two64) as [Hle|Hlt]; apply wp_bind, wp_throwIf; cbn [andThen];
    intros Hov; try discriminate; [|by split].
  eapply wp_mono; [apply put_holding_wp; [done|done|cbn; word]|]. cbn.
  intros r s' (-> & Hch & _). split; [apply Hch|]. intros _ _. rewrite Hu. split; [done|].
  exists d, h. split_and!; [done|done|]. intros Hz. rewrite Hz in Hfr. by destruct bypass.
Qed.

(** Taking out and putting in the same amount conserves the units. *)
Lemma transfer_wp s from to aidx amount bypass : bal_inv s -> is_u64 amount ->
  wp (_ ← takeOut from aidx amount bypass; putIn to aidx amount bypass)
    (steps_to s (fun _ s' =>
       (forall l, NoDup l -> from ∈ l -> to ∈ l -> total_units s' aidx l = total_units s aidx l) /\
       (forall a, a <> from -> a <> to -> bal_acct s' a = bal_acct s a) /\
       (amount <> 0 -> may_move s from aidx bypass /\ amount <= units_at s aidx from) /\
       (amount <> 0 -> from <> to -> may_move s to aidx bypass) /\
       (amount = 0 -> s' = s))) s.
Proof.
  intros Hs Hamt. apply wp_bind. eapply wp_mono; [by apply takeOut_wp|].
  intros r s1 [Hst1 Hr1]. destruct r as [u|e|]; cbn [andThen]; [|by split..].
  specialize (Hr1 u eq_refl). eapply wp_mono; [apply putIn_wp; [apply Hst1|done]|].
  intros r s2 [Hst2 Hr2]. split; [by eapply bal_step_trans|]. intros u' ->. specialize (Hr2 u' eq_refl).
  destruct (Z.eqb_spec amount 0) as [->|Hnz]; [subst; by split_and!|].
  destruct Hr1 as (Hc1 & Hm1 & Hle), Hr2 as [Hc2 Hm2]. split_and!.
  - intros l Hnd Hf Ht. rewrite (holding_changed_total _ _ _ _ _ l Hc2 Hnd Ht).
    rewrite (holding_changed_total _ _ _ _ _ l Hc1 Hnd Hf). lia.
  - intros a Ha Hb. destruct Hc1 as (_ & Hf1 & _), Hc2 as (_ & Hf2 & _). by rewrite Hf2, Hf1.
  - done.
  - intros _ Hne. destruct Hm2 as (d & h & Hd & Hh & Hb). exists d, h. split_and!; [|done|done].
    destruct Hc1 as (_ & Hf1 & _). by rewrite <- Hf1.
  - done.
Qed.

(** Reading the parameters of an asset changes nothing; they are those of its
    creator's account. *)
Lemma getParams_wp s aidx : bal_inv s ->
  wp (getParams aidx) (fun r s' => s' = s /\
     forall params creator, r = Ok (params, creator) ->
       exists d, bal_acct s creator = Ok d /\ acct_AssetParams d !! aidx = Some params) s.
Proof.
  intros Hs. unfold getParams. apply wp_bind. apply wp_intro. intros r s' Hrun.
  pose proof (bal_GetCreator_law s aidx AssetCreatable Hs) as Hsame. rewrite Hrun in Hsame. cbn in Hsame. subst s'.
  destruct r as [[creator ex]|e|]; cbn [andThen]; [|by split..].
  apply wp_bind, wp_throwIf; cbn [andThen]; intros Hex; [by split|].
  apply wp_bind, wp_Get_plain; [done|]. destruct (bal_acct s creator) as [d|e|] eqn:Ed; cbn [andThen]; [|by split..].
  destruct (acct_AssetParams d !! aidx) as [params|] eqn:Ep; wp_step; (split; [done|]); [|done].
  intros ? ? [= <- <-]. eauto.
Qed.

Lemma optInAsset_wp s source aidx : bal_inv s ->
  wp (optInAsset source aidx)
    (steps_to s (fun _ s' =>
       (forall a, a <> source -> bal_acct s' a = bal_acct s a) /\
       units_at s' aidx source = units_at s aidx source /\
       (units_at s aidx source <> 0 -> s' = s))) s.
Proof.
  intros Hs. unfold optInAsset. pose proof (bal_step_refl s Hs) as Hrefl.
  apply wp_bind, wp_Get_plain; [done|]. destruct (bal_acct s source) as [d|e|] eqn:Ed; cbn [andThen]; [|by split..].
  destruct (acct_Assets d !! aidx) as [h|] eqn:Eh; [wp_step; by split|].
  assert (units_at s aidx source = 0) as Hz by (unfold units_at, holdingAmount; by rewrite Ed, Eh).
  apply wp_bind. eapply wp_mono; [by apply getParams_wp|]. intros r s' [-> _].
  destruct r as [[params c]|e|]; cbn [andThen]; [|by split..].
  apply wp_bind, wp_gets. cbn [andThen]. apply wp_bind, wp_throwIf; cbn [andThen]; intros Hmax; [by split|].
  apply wp_bind. eapply wp_mono; [apply put_holding_wp; [done|done|cbn; word]|].
  intros r s1 (-> & (Hst & Hfr & _ & Hun) & _). cbn [andThen].
  eapply wp_mono; [apply bal_AllocateAsset_law, Hst|]. intros r s2 (-> & Hst2 & Hacct).
  split; [by eapply bal_step_trans|]. intros _ _. split_and!.
  - intros a Ha. rewrite Hacct. by apply Hfr.
  - rewrite Hz. unfold units_at in *. rewrite Hacct. exact Hun.
  - done.
Qed.

(** The account holds the parameters of the asset: it is the asset's creator. *)
Definition is_creator (s : S) (addr : Address) (aidx : AssetIndex) : bool :=
  match bal_acct s addr with
  | Ok d => bool_decide (is_Some (acct_AssetParams d !! aidx))
  | _ => false
  end.

(** Closing out a holding: the units go to [closeTo], the slot is gone; a frozen
    holding with units is only closed out to the creator. *)
Lemma closeAsset_wp s source closeTo aidx ad : bal_inv s ->
  wp (closeAsset source closeTo aidx ad)
    (steps_to s (fun _ s' =>
       (forall l, NoDup l -> source ∈ l -> closeTo ∈ l -> total_units s' aidx l = total_units s aidx l) /\
       (forall a, a <> source -> a <> closeTo -> bal_acct s' a = bal_acct s a) /\
       (exists d, bal_acct s' source = Ok d /\ acct_Assets d !! aidx = None) /\
       (units_at s aidx source <> 0 -> may_move s source aidx (is_creator s closeTo aidx)))) s.
Proof.
  intros Hs. unfold closeAsset. pose proof (bal_step_refl s Hs) as Hrefl.
  apply wp_bind, wp_Get_plain; [done|]. destruct (bal_acct s source) as [d|e|] eqn:Ed; cbn [andThen]; [|by split..].
  apply wp_bind, wp_throwIf; cbn [andThen]; intros Hcr; [by split|].
  destruct (acct_Assets d !! aidx) as [h|] eqn:Eh; [|wp_step; by split].
  apply wp_bind, wp_Get_plain; [done|]. destruct (bal_acct s closeTo) as [dst|e|] eqn:Edst; cbn [andThen]; [|by split..].
  apply wp_bind, wp_gets. cbn [andThen].
  assert (is_u64 (ah_Amount h)) as Hh by (by eapply bal_record_wf in Ed as [_ Hm]; [|done]; eapply Hm).
  apply wp_bind2. eapply wp_mono; [by apply transfer_wp|]. intros r s1 [Hst1 Hr1].
  destruct r as [u|e|]; cbn [andThen]; [|by split..]. destruct (Hr1 u eq_refl) as (Htot & Hfr & Hmv & _).
  apply wp_bind, wp_Get_plain; [apply Hst1|].
  destruct (bal_acct s1 source) as [d1|e|] eqn:Ed1; cbn [andThen]; [|by split..].
  apply wp_bind, wp_throwIf; cbn [andThen]; intros Hz; [by split|]. rewrite negb_false_iff, Z.eqb_eq in Hz.
  apply wp_bind. eapply wp_mono; [apply bal_Put_law; [apply Hst1|]|].
  { eapply bal_record_wf in Ed1 as [Hw Hm]; [|apply Hst1]. split; [exact Hw|]. cbn. by apply map_Forall_delete. }
  intros r s2 (-> & Hst2 & Hput). cbn [andThen].
  apply wp_bind. eapply wp_mono; [apply bal_DeallocateAsset_law, Hst2|]. intros r s3 (-> & Hst3 & Hacct).
  cbn [andThen]. wp_step. split; [eapply bal_step_trans; [|done]; by eapply bal_step_trans|]. intros ad' _.
  assert (units_at s3 aidx source = units_at s1 aidx source) as Hsrc.
  { unfold units_at. rewrite Hacct, Hput, decide_True, Ed1, Hz by done.
    unfold holdingAmount. cbn. by rewrite lookup_delete_eq. }
  split_and!.
  - intros l Hnd H1 H2. rewrite <- Htot by done. unfold total_units. apply sumZ_ext. intros a _.
    destruct (decide (a = source)) as [->|Hne]; [done|]. unfold units_at. by rewrite Hacct, Hput, decide_False.
  - intros a H1 H2. rewrite Hacct, Hput, decide_False by done. by apply Hfr.
  - eexists. rewrite Hacct, Hput, decide_True by done. split; [done|]. cbn. apply lookup_delete_eq.
  - unfold units_at, is_creator. rewrite Ed, Edst, (holdingAmount_Some _ _ _ Eh). intros Hnz. by apply Hmv.
Qed.

(** The account an asset transfer takes from. *)
Definition transfer_source (ct : AssetTransferTxnFields) (header : Header) : Address :=
  if ax_AssetSender ct =? 0 then hdr_Sender header else ax_AssetSender ct.

(** A clawback is issued by the clawback address of the asset. *)
Definition clawback_allowed (s : S) (ct : AssetTransferTxnFields) (header : Header) : Prop :=
  exists creator d params, bal_acct s creator = Ok d /\
    acct_AssetParams d !! ax_XferAsset ct = Some params /\
    ap_Clawback params = hdr_Sender header /\ ap_Clawback params <> 0.

Lemma clawback_wp s ct header : bal_inv s ->
  wp (if negb (ax_AssetSender ct =? 0) then
        '(params, _) ← getParams (ax_XferAsset ct);
        throwIf ((ap_Clawback params =? 0) || negb (hdr_Sender header =? ap_Clawback params))
          (Errorf "clawback not allowed")
      else mret tt)
    (fun r s' => s' = s /\ (r = Ok tt -> ax_AssetSender ct <> 0 -> clawback_allowed s ct header)) s.
Proof.
  intros Hs. apply wp_if; intros Hcl.
  - apply wp_bind. eapply wp_mono; [by apply getParams_wp|]. intros r s' [-> Hr].
    destruct r as [[params c]|e|]; cbn [andThen]; [|by split..].
    destruct (Hr params c eq_refl) as (d & Hd & Hp). apply wp_throwIf; intros Hb; (split; [done|]); [done|].
    rewrite orb_false_iff, Z.eqb_neq, negb_false_iff, Z.eqb_eq in Hb. destruct Hb as [Hb1 Hb2].
    intros _ _. exists c, d, params. by split_and!.
  - wp_step. rewrite negb_false_iff, Z.eqb_eq in Hcl. split; [done|]. done.
Qed.

(** The opt-in leaves the units of everyone as they are. *)
Lemma optIn_branch_wp s ct header : bal_inv s ->
  let source := transfer_source ct header in
  wp (if (ax_AssetAmount ct =? 0) && (ax_AssetReceiver ct =? source) && negb (negb (ax_AssetSender ct =? 0))
      then optInAsset source (ax_XferAsset ct) else mret tt)
    (steps_to s (fun _ s1 =>
      (forall a, a <> source -> bal_acct s1 a = bal_acct s a) /\
      units_at s1 (ax_XferAsset ct) source = units_at s (ax_XferAsset ct) source /\
      (ax_AssetAmount ct <> 0 -> s1 = s) /\
      (units_at s (ax_XferAsset ct) source <> 0 -> s1 = s))) s.
Proof.
  intros Hs source. apply wp_if; intros Ho.
  - eapply wp_mono; [by apply optInAsset_wp|]. intros r s1 [Hst Hr]. split; [done|]. intros u ->.
    destruct (Hr u eq_refl) as (Hf & Hu & Hid). rewrite !andb_true_iff, !Z.eqb_eq in Ho. split_and!; tauto.
  - wp_step. split; [by apply bal_step_refl|done].
Qed.

Lemma AssetTransfer_wp s ct header ad : bal_inv s -> is_u64 (ax_AssetAmount ct) ->
  let source := transfer_source ct header in
  let aidx := ax_XferAsset ct in
  wp (AssetTransfer ct header ad)
    (steps_to s (fun _ s' =>
       (forall l, NoDup l -> source ∈ l -> ax_AssetReceiver ct ∈ l -> ax_AssetCloseTo ct ∈ l ->
          total_units s' aidx l = total_units s aidx l) /\
       (forall a, a <> source -> a <> ax_AssetReceiver ct -> a <> ax_AssetCloseTo ct ->
          bal_acct s' a = bal_acct s a) /\
       (ax_AssetAmount ct <> 0 ->
          may_move s source aidx (negb (ax_AssetSender ct =? 0)) /\
          ax_AssetAmount ct <= units_at s aidx source) /\
       (ax_AssetSender ct <> 0 -> clawback_allowed s ct header) /\
       (ax_AssetCloseTo ct <> 0 ->
          ax_AssetSender ct = 0 /\
          (exists d, bal_acct s' source = Ok d /\ acct_Assets d !! aidx = None) /\
          (units_at s aidx source <> 0 ->
           may_move s source aidx (is_creator s (ax_AssetCloseTo ct) aidx))))) s.
Proof.
  intros Hs Hamt source aidx. unfold AssetTransfer. pose proof (bal_step_refl s Hs) as Hrefl.
  assert ((if negb (ax_AssetSender ct =? 0) then ax_AssetSender ct else hdr_Sender header) = source) as Hsrc
    by (unfold source, transfer_source; by destruct (ax_AssetSender ct =? 0)).
  rewrite Hsrc. fold aidx.
  apply wp_bind. eapply wp_mono; [by apply (clawback_wp s ct header)|].
  intros r s0 [-> Hclaw]. destruct r as [[]|e|]; cbn [andThen]; [|by split..]. specialize (Hclaw eq_refl).
  apply wp_bind. eapply wp_mono; [by apply (optIn_branch_wp s ct header)|].
  intros r s1 [Hst1 Hr1]. destruct r as [u|e|]; cbn [andThen]; [|by split..].
  destruct (Hr1 u eq_refl) as (Hfr1 & Hun1 & Hid1 & Hheld).
  (* the transfer *)
  apply wp_bind2. eapply wp_mono; [apply transfer_wp; [apply Hst1|done]|]. intros r s2 [Hst2 Hr2].
  destruct r as [u2|e|]; cbn [andThen]; [|split; [by eapply bal_step_trans|done]..].
  destruct (Hr2 u2 eq_refl) as (Htot2 & Hfr2 & Hmv2 & _ & Hid2).
  assert (bal_step s s2) as Hst12 by (by eapply bal_step_trans).
  assert (forall l, NoDup l -> source ∈ l -> ax_AssetReceiver ct ∈ l ->
            total_units s2 aidx l = total_units s aidx l) as Htot.
  { intros l Hnd H1 H2. rewrite Htot2 by done. unfold total_units. apply sumZ_ext. intros a _.
    destruct (decide (a = source)) as [->|]; [done|]. unfold units_at. by rewrite Hfr1. }
  assert (ax_AssetAmount ct <> 0 -> may_move s source aidx (negb (ax_AssetSender ct =? 0)) /\
            ax_AssetAmount ct <= units_at s aidx source) as Hmv.
  { intros Hnz. rewrite (Hid1 Hnz) in Hmv2. by apply Hmv2. }
  (* closing out *)
  apply wp_if; intros Hc.
  - apply wp_bind, wp_throwIf; cbn [andThen]; intros Hncl; [by split|].
    eapply wp_mono; [apply closeAsset_wp, Hst12|]. intros r s3 [Hst3 Hr3].
    split; [by eapply bal_step_trans|]. intros ad' ->. destruct (Hr3 ad' eq_refl) as (Htot3 & Hfr3 & Hgone & Hmv3).
    rewrite negb_false_iff in Hncl. rewrite Hncl in Hmv. apply Z.eqb_eq in Hncl.
    split_and!; [| |rewrite Hncl; exact Hmv|done|intros _; split_and!; [done..|]].
    + intros l Hnd H1 H2 H3. rewrite Htot3 by done. by apply Htot.
    + intros a H1 H2 H3. rewrite Hfr3, Hfr2, Hfr1 by done. done.
    + intros Hu. destruct (Z.eq_dec (ax_AssetAmount ct) 0) as [Hz|Hnz].
      * rewrite (Hid2 Hz), (Hheld Hu) in Hmv3. by apply Hmv3.
      * destruct (Hmv Hnz) as [Hf _]. by apply may_move_unfrozen.
  - wp_step. split; [done|]. intros ad' _. rewrite negb_false_iff, Z.eqb_eq in Hc.
    split_and!; [auto| |done|done|done]. intros a H1 H2 _. by rewrite Hfr2, Hfr1.
Qed.

(** Freezing: issued by the freeze address, only the flag of the holding changes. *)
Lemma AssetFreeze_wp s cf header : bal_inv s ->
  wp (AssetFreeze cf header)
    (steps_to s (fun _ s' =>
       (exists creator d params, bal_acct s creator = Ok d /\
          acct_AssetParams d !! af_FreezeAsset cf = Some params /\
          ap_Freeze params = hdr_Sender header /\ ap_Freeze params <> 0) /\
       (forall a, a <> af_FreezeAccount cf -> bal_acct s' a = bal_acct s a) /\
       exists d h, bal_acct s (af_FreezeAccount cf) = Ok d /\ acct_Assets d !! af_FreezeAsset cf = Some h /\
         bal_acct s' (af_FreezeAccount cf) =
           Ok (d <| acct_Assets := <[af_FreezeAsset cf := mkAssetHolding (ah_Amount h) (af_AssetFrozen cf)]>
                                     (acct_Assets d) |>))) s.
Proof.
  intros Hs. unfold AssetFreeze. pose proof (bal_step_refl s Hs) as Hrefl.
  apply wp_bind. eapply wp_mono; [by apply getParams_wp|]. intros r s' [-> Hr].
  destruct r as [[params c]|e|]; cbn [andThen]; [|by split..].
  destruct (Hr params c eq_refl) as (dc & Hdc & Hp).
  apply wp_bind, wp_throwIf; cbn [andThen]; intros Hb; [by split|].
  rewrite orb_false_iff, Z.eqb_neq, negb_false_iff, Z.eqb_eq in Hb. destruct Hb as [Hb1 Hb2].
  apply wp_bind, wp_Get_plain; [done|].
  destruct (bal_acct s (af_FreezeAccount cf)) as [d|e|] eqn:Ed; cbn [andThen]; [|by split..].
  destruct (acct_Assets d !! af_FreezeAsset cf) as [h|] eqn:Eh; [|wp_step; by split].
  assert (is_u64 (ah_Amount h)) as Hh by (by eapply bal_record_wf in Ed as [_ Hm]; [|done]; eapply Hm).
  eapply wp_mono; [apply put_holding_wp; [done|done|exact Hh]|].
  intros r s' (-> & (Hst & Hfr & _) & Hd'). split; [done|]. intros _ _. split_and!; [|done|].
  - exists c, dc, params. by split_and!.
  - exists d, h. split_and!; [done|done|]. rewrite Hd'. by destruct h.
Qed.

(** Creating an asset: the sender holds the whole supply under a new index. *)
Lemma createAsset_wp s cc sender ad ctr : bal_inv s -> is_u64 (ap_Total (ac_AssetParams cc)) ->
  let idx := wrap64 (ctr + 1) in
  wp (createAsset cc sender ad ctr)
    (steps_to s (fun ad' s' =>
       ad_ConfigAsset ad' = idx /\
       (forall a, a <> sender -> bal_acct s' a = bal_acct s a) /\
       exists d, bal_acct s sender = Ok d /\ acct_AssetParams d !! idx = None /\
         bal_acct s' sender =
           Ok (d <| acct_AssetParams := <[idx := ac_AssetParams cc]> (acct_AssetParams d) |>
                 <| acct_Assets := <[idx := mkAssetHolding (ap_Total (ac_AssetParams cc)) false]>
                                     (acct_Assets d) |>))) s.
Proof.
  intros Hs Ht idx. unfold createAsset. fold idx. pose proof (bal_step_refl s Hs) as Hrefl.
  apply wp_bind, wp_Get_plain; [done|].
  destruct (bal_acct s sender) as [d|e|] eqn:Ed; cbn [andThen]; [|by split..].
  apply wp_bind, wp_throwIf; cbn [andThen]; intros Hnew; [by split|].
  rewrite bool_decide_eq_false, <- eq_None_not_Some in Hnew.
  apply wp_bind, wp_gets; cbn [andThen]. apply wp_bind, wp_throwIf; cbn [andThen]; intros Hmax; [by split|].
  apply wp_bind. eapply wp_mono; [apply bal_Put_law; [done|]|].
  { eapply bal_record_wf in Ed as [Hw Hm]; [|done]. split; [exact Hw|]. cbn. by apply map_Forall_insert_2. }
  intros r s1 (-> & Hst1 & Hput). cbn [andThen].
  apply wp_bind. eapply wp_mono; [apply bal_AllocateAsset_law, Hst1|]. intros r s2 (-> & Hst2 & Ha2). cbn [andThen].
  apply wp_bind. eapply wp_mono; [apply bal_AllocateAsset_law, Hst2|]. intros r s3 (-> & Hst3 & Ha3). cbn [andThen].
  wp_step. split; [eapply bal_step_trans; [|done]; by eapply bal_step_trans|]. intros ad' [= <-].
  rewrite Ha3, Ha2. split_and!; [done| |].
  - intros a Ha. by rewrite Hput, decide_False.
  - exists d. rewrite Hput, decide_True by done. by split_and!.
Qed.

(** A change of the keys of an asset: everything else is fixed at creation, and a
    key given up is given up for good. *)
Definition only_keys_change (p p' : AssetParams) : Prop :=
  ap_Total p' = ap_Total p /\ ap_Decimals p' = ap_Decimals p /\ ap_DefaultFrozen p' = ap_DefaultFrozen p /\
  ap_UnitName p' = ap_UnitName p /\ ap_AssetName p' = ap_AssetName p /\ ap_URL p' = ap_URL p /\
  ap_MetadataHash p' = ap_MetadataHash p /\
  (ap_Manager p = 0 -> ap_Manager p' = 0) /\ (ap_Reserve p = 0 -> ap_Reserve p' = 0) /\
  (ap_Freeze p = 0 -> ap_Freeze p' = 0) /\ (ap_Clawback p = 0 -> ap_Clawback p' = 0).

Lemma reconfigure_keys p n : only_keys_change p (reconfigure p n).
Proof.
  destruct p as [? ? ? ? ? ? ? man res fr cl]. unfold reconfigure, only_keys_change. cbn.
  destruct (Z.eqb_spec man 0); cbn; destruct (Z.eqb_spec res 0); cbn; destruct (Z.eqb_spec fr 0); cbn;
    destruct (Z.eqb_spec cl 0); cbn; split_and!; done.
Qed.

(** Reconfiguring or destroying: only the manager may, only the creator's account
    changes, and an asset is destroyed only while the creator holds all of it. *)
Lemma AssetConfig_existing_wp s cc header ad ctr : bal_inv s -> ac_ConfigAsset cc <> 0 ->
  let aidx := ac_ConfigAsset cc in
  wp (AssetConfig cc header ad ctr)
    (steps_to s (fun _ s' => exists creator d params,
       bal_acct s creator = Ok d /\ acct_AssetParams d !! aidx = Some params /\
       ap_Manager params = hdr_Sender header /\ ap_Manager params <> 0 /\
       (forall a, a <> creator -> bal_acct s' a = bal_acct s a) /\
       if bool_decide (ac_AssetParams cc = AssetParams_zero) then
         units_at s aidx creator = ap_Total params /\
         bal_acct s' creator = Ok (d <| acct_Assets := delete aidx (acct_Assets d) |>
                                     <| acct_AssetParams := delete aidx (acct_AssetParams d) |>)
       else
         exists params', only_keys_change params params' /\
         bal_acct s' creator = Ok (d <| acct_AssetParams := <[aidx := params']> (acct_AssetParams d) |>))) s.
Proof.
  intros Hs Hnz aidx. unfold AssetConfig. fold aidx. rewrite (proj2 (Z.eqb_neq aidx 0) Hnz).
  pose proof (bal_step_refl s Hs) as Hrefl.
  apply wp_bind. eapply wp_mono; [by apply getParams_wp|]. intros r s' [-> Hr].
  destruct r as [[params c]|e|]; cbn [andThen]; [|by split..].
  destruct (Hr params c eq_refl) as (d & Hd & Hp).
  apply wp_bind, wp_throwIf; cbn [andThen]; intros Hb; [by split|].
  rewrite orb_false_iff, Z.eqb_neq, negb_false_iff, Z.eqb_eq in Hb. destruct Hb as [Hb1 Hb2].
  apply wp_bind, wp_Get_plain; [done|]. rewrite Hd. cbn [andThen]. pose proof (bal_record_wf s c d Hs Hd) as [Hw Hm].
  apply wp_bind. case_bool_decide as Hz.
  - apply wp_bind, wp_throwIf; cbn [andThen]; intros Hall; [by split|]. rewrite negb_false_iff, Z.eqb_eq in Hall.
    apply wp_bind. eapply wp_mono; [by apply bal_DeallocateAsset_law|]. intros r s1 (-> & Hst1 & Ha1). cbn [andThen].
    apply wp_bind. eapply wp_mono; [apply bal_DeallocateAsset_law, Hst1|]. intros r s2 (-> & Hst2 & Ha2). cbn [andThen].
    wp_step. apply wp_bind. eapply wp_mono; [apply bal_Put_law; [apply Hst2|]|].
    { split; [exact Hw|]. cbn. by apply map_Forall_delete. }
    intros r s3 (-> & Hst3 & Hput). cbn [andThen]. wp_step.
    split; [eapply bal_step_trans; [|done]; by eapply bal_step_trans|]. intros ad' _.
    exists c, d, params. split_and!; [done|done|done|done| | |].
    + intros a Ha. by rewrite Hput, decide_False, Ha2, Ha1.
    + unfold units_at. by rewrite Hd.
    + by rewrite Hput, decide_True.
  - wp_step. apply wp_bind. eapply wp_mono; [apply bal_Put_law; [done|by split]|].
    intros r s1 (-> & Hst1 & Hput). cbn [andThen]. wp_step. split; [done|]. intros ad' _.
    exists c, d, params. split_and!; [done|done|done|done| |].
    + intros a Ha. by rewrite Hput, decide_False.
    + exists (reconfigure params (ac_AssetParams cc)). split; [apply reconfigure_keys|]. by rewrite Hput, decide_True.
Qed.

Lemma Rekey_wp s tx : bal_inv s ->
  wp (Rekey tx)
    (steps_to s (fun _ s' =>
       (forall a, a <> hdr_Sender tx -> bal_acct s' a = bal_acct s a) /\
       (hdr_RekeyTo tx = 0 -> s' = s) /\
       (hdr_RekeyTo tx <> 0 -> exists d, bal_acct s (hdr_Sender tx) = Ok d /\
          bal_acct s' (hdr_Sender tx) =
            Ok (d <| acct_AuthAddr := if hdr_RekeyTo tx =? hdr_Sender tx then 0 else hdr_RekeyTo tx |>)))) s.
Proof.
  intros Hs. unfold Rekey. pose proof (bal_step_refl s Hs) as Hrefl.
  apply wp_if; rewrite ?negb_true_iff, ?negb_false_iff, ?Z.eqb_eq, ?Z.eqb_neq; intros Hz; [|wp_step; by split].
  apply wp_bind, wp_Get_plain; [done|].
  destruct (bal_acct s (hdr_Sender tx)) as [d|e|] eqn:Ed; cbn [andThen]; [|by split..].
  eapply wp_mono; [apply bal_Put_law; [done|exact (bal_record_wf s _ d Hs Ed)]|].
  intros r s' (-> & Hst & Hput). split; [done|]. intros _ _. split_and!; [|done|].
  - intros a Ha. by rewrite Hput, decide_False.
  - intros _. exists d. by rewrite Hput, decide_True.
Qed.

(** ** Applications: the cached schema totals of an account *)

Definition schema_u64 (sm : StateSchema) : Prop := is_u64 (NumUint sm) /\ is_u64 (NumByteSlice sm).

(** What the applications an account created and opted in to reserve, in each
    kind of value. *)
Definition reserved (f : StateSchema -> Z) (d : AccountData) : Z :=
  mapsumZ (fun p => f (app_GlobalStateSchema p)) (acct_AppParams d) +
  mapsumZ (fun l => f (als_Schema l)) (acct_AppLocalStates d).

(** The cached total is what the applications reserve, one by one. *)
Definition schema_tracked (d : AccountData) : Prop :=
  map_Forall (fun _ p => schema_u64 (app_GlobalStateSchema p)) (acct_AppParams d) /\
  map_Forall (fun _ l => schema_u64 (als_Schema l)) (acct_AppLocalStates d) /\
  schema_u64 (acct_TotalAppSchema d) /\
  NumUint (acct_TotalAppSchema d) = reserved NumUint d /\
  NumByteSlice (acct_TotalAppSchema d) = reserved NumByteSlice d.

Definition has_room (sm : StateSchema) (d : AccountData) : Prop :=
  reserved NumUint d + NumUint sm < two64 /\ reserved NumByteSlice d + NumByteSlice sm < two64.

Lemma AddSchema_exact t sm : schema_u64 t -> schema_u64 sm ->
  NumUint t + NumUint sm < two64 -> NumByteSlice t + NumByteSlice sm < two64 ->
  AddSchema t sm = mkStateSchema (NumUint t + NumUint sm) (NumByteSlice t + NumByteSlice sm).
Proof.
  intros [? ?] [? ?] ? ?. unfold AddSchema. rewrite !AddSaturate_spec by done.
  rewrite !clamp_id by word. done.
Qed.

Lemma SubSchema_exact t sm : schema_u64 t -> schema_u64 sm ->
  NumUint sm <= NumUint t -> NumByteSlice sm <= NumByteSlice t ->
  SubSchema t sm = mkStateSchema (NumUint t - NumUint sm) (NumByteSlice t - NumByteSlice sm).
Proof.
  intros [? ?] [? ?] ? ?. unfold SubSchema. rewrite !SubSaturate_spec by done.
  f_equal; lia.
Qed.

Lemma reserved_parts d : schema_tracked d ->
  0 <= mapsumZ (fun p => NumUint (app_GlobalStateSchema p)) (acct_AppParams d) /\
  0 <= mapsumZ (fun p => NumByteSlice (app_GlobalStateSchema p)) (acct_AppParams d) /\
  0 <= mapsumZ (fun l => NumUint (als_Schema l)) (acct_AppLocalStates d) /\
  0 <= mapsumZ (fun l => NumByteSlice (als_Schema l)) (acct_AppLocalStates d).
Proof.
  intros (Hg & Hl & _). split_and!; apply mapsumZ_nonneg; intros i x Hx;
    (apply (Hg i x) in Hx as [[? ?] [? ?]] || apply (Hl i x) in Hx as [[? ?] [? ?]]); done.
Qed.

(** Adding the schema of a new application keeps the total exact. *)
Lemma tracked_create d i p pages : schema_tracked d -> acct_AppParams d !! i = None ->
  schema_u64 (app_GlobalStateSchema p) -> has_room (app_GlobalStateSchema p) d ->
  schema_tracked (d <| acct_AppParams := <[i := p]> (acct_AppParams d) |>
                    <| acct_TotalAppSchema := AddSchema (acct_TotalAppSchema d) (app_GlobalStateSchema p) |>
                    <| acct_TotalExtraAppPages := pages |>).
Proof.
  intros (Hg & Hl & Ht & Hu & Hb) Hi Hp [Hr1 Hr2]. pose proof Ht as [? ?]. pose proof Hp as [? ?].
  rewrite AddSchema_exact by (done || lia). unfold schema_tracked, schema_u64, reserved in *. cbn.
  rewrite !mapsumZ_insert by done. split_and!; try word; [by apply map_Forall_insert_2|done].
Qed.

Lemma tracked_optIn d i sm : schema_tracked d -> acct_AppLocalStates d !! i = None ->
  schema_u64 sm -> has_room sm d ->
  schema_tracked (d <| acct_AppLocalStates := <[i := mkAppLocalState sm ∅]> (acct_AppLocalStates d) |>
                    <| acct_TotalAppSchema := AddSchema (acct_TotalAppSchema d) sm |>).
Proof.
  intros (Hg & Hl & Ht & Hu & Hb) Hi Hp [Hr1 Hr2]. pose proof Ht as [? ?]. pose proof Hp as [? ?].
  rewrite AddSchema_exact by (done || lia). unfold schema_tracked, schema_u64, reserved in *. cbn.
  rewrite !mapsumZ_insert by done. cbn. split_and!; try word; [done|by apply map_Forall_insert_2].
Qed.

Lemma tracked_closeOut d i ls : schema_tracked d -> acct_AppLocalStates d !! i = Some ls ->
  schema_tracked (d <| acct_TotalAppSchema := SubSchema (acct_TotalAppSchema d) (als_Schema ls) |>
                    <| acct_AppLocalStates := delete i (acct_AppLocalStates d) |>).
Proof.
  intros Htr Hi. destruct (reserved_parts d Htr) as (H1 & H2 & _ & _). destruct Htr as (Hg & Hl & Ht & Hu & Hb).
  assert (map_Forall (fun _ l => schema_u64 (als_Schema l)) (delete i (acct_AppLocalStates d))) as Hdel
    by (by apply map_Forall_delete).
  assert (forall f, (forall l, schema_u64 (als_Schema l) -> 0 <= f l) ->
            0 <= mapsumZ f (delete i (acct_AppLocalStates d))) as Hnn
    by (intros f Hf; apply mapsumZ_nonneg; intros j l Hj; apply Hf; by apply (Hdel j l)).
  pose proof (Hnn (fun l => NumUint (als_Schema l)) ltac:(intros l [[? ?] ?]; done)) as Hn1.
  pose proof (Hnn (fun l => NumByteSlice (als_Schema l)) ltac:(intros l [? [? ?]]; done)) as Hn2.
  pose proof (Hl _ _ Hi) as Hls. pose proof Ht as [? ?]. pose proof Hls as [? ?].
  unfold reserved in *. rewrite (mapsumZ_delete _ _ _ _ Hi) in Hu. rewrite (mapsumZ_delete _ _ _ _ Hi) in Hb.
  rewrite SubSchema_exact by (done || lia). unfold schema_tracked, schema_u64, reserved. cbn.
  split_and!; try word; done.
Qed.

Lemma tracked_delete d i pages : schema_tracked d ->
  schema_tracked
    (d <| acct_TotalAppSchema :=
            SubSchema (acct_TotalAppSchema d)
              (app_GlobalStateSchema (default AppParams_zero (acct_AppParams d !! i))) |>
       <| acct_TotalExtraAppPages := pages |>
       <| acct_AppParams := delete i (acct_AppParams d) |>).
Proof.
  intros Htr. destruct (reserved_parts d Htr) as (_ & _ & H1 & H2). destruct Htr as (Hg & Hl & Ht & Hu & Hb).
  assert (map_Forall (fun _ p => schema_u64 (app_GlobalStateSchema p)) (delete i (acct_AppParams d))) as Hdel
    by (by apply map_Forall_delete).
  assert (forall f, (forall p, schema_u64 (app_GlobalStateSchema p) -> 0 <= f p) ->
            0 <= mapsumZ f (delete i (acct_AppParams d))) as Hnn
    by (intros f Hf; apply mapsumZ_nonneg; intros j p Hj; apply Hf; by apply (Hdel j p)).
  pose proof (Hnn (fun p => NumUint (app_GlobalStateSchema p)) ltac:(intros p [[? ?] ?]; done)) as Hn1.
  pose proof (Hnn (fun p => NumByteSlice (app_GlobalStateSchema p)) ltac:(intros p [? [? ?]]; done)) as Hn2.
  destruct (acct_AppParams d !! i) as [p|] eqn:Hi; cbn [default from_option id].
  - pose proof (Hg _ _ Hi) as Hp. pose proof Ht as [? ?]. pose proof Hp as [? ?].
    unfold reserved in *. rewrite (mapsumZ_delete _ _ _ _ Hi) in Hu. rewrite (mapsumZ_delete _ _ _ _ Hi) in Hb.
    rewrite SubSchema_exact by (done || lia). unfold schema_tracked, schema_u64, reserved. cbn.
    split_and!; try word; done.
  - pose proof Ht as [? ?]. rewrite delete_id in * by done. rewrite SubSchema_exact by (cbn; (done || word)).
    unfold schema_tracked, schema_u64, reserved in *. cbn. split_and!; try word; done.
Qed.

(** Every account's total is exact. *)
Definition apps_tracked (s : S) : Prop := forall a d, bal_acct s a = Ok d -> schema_tracked d.

(** One account is replaced, then storage is (de)allocated. *)
Lemma put_then_wp s a d' (m : M S unit) : bal_inv s -> apps_tracked s -> record_wf d' -> schema_tracked d' ->
  (forall s1, bal_inv s1 ->
     wp m (fun _ s' => bal_step s1 s' /\ forall b, bal_acct s' b = bal_acct s1 b) s1) ->
  wp (_ ← bal_Put a d'; m)
    (steps_to s (fun _ s' => apps_tracked s' /\
       forall b, bal_acct s' b = if decide (b = a) then Ok d' else bal_acct s b)) s.
Proof.
  intros Hs Ht Hw Hd' Hm. apply wp_bind. eapply wp_mono; [by apply bal_Put_law|].
  intros r s1 (-> & Hst1 & Hput). cbn [andThen]. eapply wp_mono; [apply Hm, Hst1|].
  intros r s2 [Hst2 Hacct]. split; [by eapply bal_step_trans|]. intros u _. split.
  - intros b d Hb. rewrite Hacct, Hput in Hb. destruct (decide (b = a)) as [->|]; [by injection Hb as <-|by eapply Ht].
  - intros b. by rewrite Hacct, Hput.
Qed.

Lemma createApplication_wp s ac creator ctr : bal_inv s -> apps_tracked s ->
  schema_u64 (apc_GlobalStateSchema ac) ->
  (forall d, bal_acct s creator = Ok d ->
     acct_AppParams d !! wrap64 (ctr + 1) = None /\ has_room (apc_GlobalStateSchema ac) d) ->
  wp (createApplication ac creator ctr)
    (steps_to s (fun idx s' => idx = wrap64 (ctr + 1) /\ apps_tracked s' /\
       (forall a, a <> creator -> bal_acct s' a = bal_acct s a) /\
       exists d d', bal_acct s creator = Ok d /\ bal_acct s' creator = Ok d' /\
         glen (acct_AppParams d) < proto_MaxAppsCreated (bal_ConsensusParams s) /\
         acct_AppParams d' = <[idx := mkAppParams (apc_ApprovalProgram ac) (apc_ClearStateProgram ac) ∅
             (apc_LocalStateSchema ac) (apc_GlobalStateSchema ac) (apc_ExtraProgramPages ac)]>
           (acct_AppParams d))) s.
Proof.
  intros Hs Ht Hsch Hroom. unfold createApplication. pose proof (bal_step_refl s Hs) as Hrefl.
  apply wp_bind, wp_Get_plain; [done|].
  destruct (bal_acct s creator) as [d|e|] eqn:Ed; cbn [andThen]; [|by split..].
  destruct (Hroom d eq_refl) as [Hfresh Hr].
  apply wp_bind, wp_gets; cbn [andThen]. apply wp_bind, wp_throwIf; cbn [andThen]; intros Hmax; [by split|].
  rewrite Z.leb_gt in Hmax. apply wp_bind2.
  eapply wp_mono; [eapply (put_then_wp s creator _ (bal_AllocateApp creator (wrap64 (ctr + 1)) true
                     (apc_GlobalStateSchema ac))); [done|done| | |]|].
  - exact (bal_record_wf s _ d Hs Ed).
  - apply (tracked_create d (wrap64 (ctr + 1))); [by eapply Ht|done..].
  - intros. by apply bal_AllocateApp_law.
  - intros r s1 [Hst Hr1]. destruct r as [u|e|]; cbn [andThen]; [|by split..].
    destruct (Hr1 u eq_refl) as [Ht1 Hput]. wp_step. split; [done|]. intros idx [= <-].
    split_and!; [done|done| |].
    + intros a Ha. by rewrite Hput, decide_False.
    + eexists d, _. rewrite Hput, decide_True by done. by split_and!.
Qed.

Lemma optInApplication_wp s sender i params : bal_inv s -> apps_tracked s ->
  schema_u64 (app_LocalStateSchema params) ->
  (forall d, bal_acct s sender = Ok d -> has_room (app_LocalStateSchema params) d) ->
  wp (optInApplication sender i params)
    (steps_to s (fun _ s' => apps_tracked s' /\
       (forall a, a <> sender -> bal_acct s' a = bal_acct s a) /\
       exists d d', bal_acct s sender = Ok d /\ bal_acct s' sender = Ok d' /\
         acct_AppLocalStates d !! i = None /\
         glen (acct_AppLocalStates d) < proto_MaxAppsOptedIn (bal_ConsensusParams s) /\
         acct_AppLocalStates d' = <[i := mkAppLocalState (app_LocalStateSchema params) ∅]>
           (acct_AppLocalStates d))) s.
Proof.
  intros Hs Ht Hsch Hroom. unfold optInApplication. pose proof (bal_step_refl s Hs) as Hrefl.
  apply wp_bind, wp_Get_plain; [done|].
  destruct (bal_acct s sender) as [d|e|] eqn:Ed; cbn [andThen]; [|by split..].
  apply wp_bind, wp_throwIf; cbn [andThen]; intros Hnew; [by split|].
  rewrite bool_decide_eq_false, <- eq_None_not_Some in Hnew.
  apply wp_bind, wp_gets; cbn [andThen]. apply wp_bind, wp_throwIf; cbn [andThen]; intros Hmax; [by split|].
  rewrite Z.leb_gt in Hmax. eapply wp_mono; [apply put_then_wp; [done|done| | |]|].
  - exact (bal_record_wf s _ d Hs Ed).
  - apply tracked_optIn; [by eapply Ht|done|done|by apply Hroom].
  - intros. by apply bal_AllocateApp_law.
  - intros r s1 [Hst Hr1]. split; [done|]. intros u ->. destruct (Hr1 u eq_refl) as [Ht1 Hput].
    split_and!; [done| |].
    + intros a Ha. by rewrite Hput, decide_False.
    + eexists d, _. rewrite Hput, decide_True by done. by split_and!.
Qed.

Lemma closeOutApplication_wp s sender i : bal_inv s -> apps_tracked s ->
  wp (closeOutApplication sender i)
    (steps_to s (fun _ s' => apps_tracked s' /\
       (forall a, a <> sender -> bal_acct s' a = bal_acct s a) /\
       exists d d' ls, bal_acct s sender = Ok d /\ bal_acct s' sender = Ok d' /\
         acct_AppLocalStates d !! i = Some ls /\
         acct_AppLocalStates d' = delete i (acct_AppLocalStates d))) s.
Proof.
  intros Hs Ht. unfold closeOutApplication. pose proof (bal_step_refl s Hs) as Hrefl.
  apply wp_bind, wp_Get_plain; [done|].
  destruct (bal_acct s sender) as [d|e|] eqn:Ed; cbn [andThen]; [|by split..].
  destruct (acct_AppLocalStates d !! i) as [ls|] eqn:Ei; [|wp_step; by split].
  eapply wp_mono; [apply put_then_wp; [done|done| | |]|].
  - exact (bal_record_wf s _ d Hs Ed).
  - apply tracked_closeOut; [by eapply Ht|done].
  - intros. by apply bal_DeallocateApp_law.
  - intros r s1 [Hst Hr1]. split; [done|]. intros u ->. destruct (Hr1 u eq_refl) as [Ht1 Hput].
    split_and!; [done| |].
    + intros a Ha. by rewrite Hput, decide_False.
    + eexists d, _, ls. rewrite Hput, decide_True by done. by split_and!.
Qed.

Lemma deleteApplication_wp s creator i : bal_inv s -> apps_tracked s ->
  wp (deleteApplication creator i)
    (steps_to s (fun _ s' => apps_tracked s' /\
       (forall a, a <> creator -> bal_acct s' a = bal_acct s a) /\
       exists d d', bal_acct s creator = Ok d /\ bal_acct s' creator = Ok d' /\
         acct_AppParams d' = delete i (acct_AppParams d))) s.
Proof.
  intros Hs Ht. unfold deleteApplication. pose proof (bal_step_refl s Hs) as Hrefl.
  apply wp_bind, wp_Get_plain; [done|].
  destruct (bal_acct s creator) as [d|e|] eqn:Ed; cbn [andThen]; [|by split..].
  apply wp_bind, wp_gets; cbn [andThen]. eapply wp_mono; [apply put_then_wp; [done|done| | |]|].
  - exact (bal_record_wf s _ d Hs Ed).
  - apply tracked_delete. by eapply Ht.
  - intros. by apply bal_DeallocateApp_law.
  - intros r s1 [Hst Hr1]. split; [done|]. intros u ->. destruct (Hr1 u eq_refl) as [Ht1 Hput].
    split_and!; [done| |].
    + intros a Ha. by rewrite Hput, decide_False.
    + eexists d, _. rewrite Hput, decide_True by done. by split_and!.
Qed.

Lemma updateApplication_wp s ac creator i : bal_inv s -> apps_tracked s ->
  (forall d, bal_acct s creator = Ok d -> is_Some (acct_AppParams d !! i)) ->
  wp (updateApplication ac creator i)
    (steps_to s (fun _ s' => apps_tracked s' /\
       (forall a, a <> creator -> bal_acct s' a = bal_acct s a) /\
       exists d d' p, bal_acct s creator = Ok d /\ bal_acct s' creator = Ok d' /\
         acct_AppParams d !! i = Some p /\
         acct_AppParams d' = <[i := p <| app_ApprovalProgram := apc_ApprovalProgram ac |>
                                      <| app_ClearStateProgram := apc_ClearStateProgram ac |>]>
           (acct_AppParams d))) s.
Proof.
  intros Hs Ht Hex. unfold updateApplication. pose proof (bal_step_refl s Hs) as Hrefl.
  apply wp_bind, wp_Get_plain; [done|].
  destruct (bal_acct s creator) as [d|e|] eqn:Ed; cbn [andThen]; [|by split..].
  destruct (Hex d eq_refl) as [p Hp]. rewrite Hp. cbn [default from_option id].
  apply wp_bind, wp_gets; cbn [andThen].
  apply wp_bind. eapply (wp_mono _ (fun _ s' => s' = s)).
  { apply wp_if; intros _; [|by wp_step].
    apply wp_bind, wp_throwIf; cbn [andThen]; intros _; [done|].
    apply wp_bind, wp_throwIf; cbn [andThen]; intros _; [done|]. by apply wp_throwIf. }
  intros r s' ->. destruct r as [u|e|]; cbn [andThen]; [|by split..].
  eapply wp_mono; [apply bal_Put_law; [done|exact (bal_record_wf s _ d Hs Ed)]|].
  intros r s' (-> & Hst & Hput). split; [done|]. intros _ _. split_and!.
  - intros b db Hb. rewrite Hput in Hb. destruct (decide (b = creator)) as [->|]; [|by eapply Ht].
    injection Hb as <-. pose proof (Ht _ _ Ed) as (Hg & Hl & Htot & Hu & Hb).
    unfold schema_tracked, reserved in *. cbn. rewrite <- insert_delete_eq.
    rewrite !mapsumZ_insert by apply lookup_delete_eq.
    cbn. rewrite (mapsumZ_delete _ _ _ _ Hp) in Hu. rewrite (mapsumZ_delete _ _ _ _ Hp) in Hb.
    split_and!; [|done|done|done|done]. apply map_Forall_insert_2; [by apply (Hg i p)|by apply map_Forall_delete].
  - intros a Ha. by rewrite Hput, decide_False.
  - eexists d, _, p. rewrite Hput, decide_True by done. by split_and!.
Qed.

(** The action taken after an approved call keeps every total exact. *)
Lemma completion_wp s ac sender creator i : bal_inv s -> apps_tracked s ->
  (apc_OnCompletion ac = UpdateApplicationOC ->
   forall d, bal_acct s creator = Ok d -> is_Some (acct_AppParams d !! i)) ->
  wp (completion ac sender creator i)
    (steps_to s (fun _ s' => apps_tracked s' /\
       forall a, a <> sender -> a <> creator -> bal_acct s' a = bal_acct s a)) s.
Proof.
  intros Hs Ht Hex. unfold completion. pose proof (bal_step_refl s Hs) as Hrefl.
  apply wp_if; intros _; [wp_step; by split|]. apply wp_if; intros _; [wp_step; by split|].
  apply wp_if; intros _; [|apply wp_if; intros _; [|apply wp_if; intros HU; [|wp_step; by split]]].
  - eapply wp_mono; [by apply closeOutApplication_wp|]. intros r s' [Hst Hr]. split; [done|].
    intros u ->. destruct (Hr u eq_refl) as (? & ? & _). split; auto.
  - eapply wp_mono; [by apply deleteApplication_wp|]. intros r s' [Hst Hr]. split; [done|].
    intros u ->. destruct (Hr u eq_refl) as (? & ? & _). split; auto.
  - apply Z.eqb_eq in HU. eapply wp_mono; [apply updateApplication_wp; auto|]. intros r s' [Hst Hr]. split; [done|].
    intros u ->. destruct (Hr u eq_refl) as (? & ? & _). split; auto.
Qed.

Lemma bind_ext_at {A B} (m : M S A) (k k' : A -> M S B) s :
  (forall a s', m s = (Ok a, s') -> k a s' = k' a s') -> (m ≫= k) s = (m ≫= k') s.
Proof. intros Hk. unfold mbind, M_bind. destruct (m s) as [[a|e|] s'] eqn:E; auto. Qed.

(** Clearing out ignores what the clear-state program decides. *)
Lemma clearState_ignores s header ad gi txn i params r :
  bal_inv s -> bal_StatefulEval gi txn i (app_ClearStateProgram params) s = (r, s) ->
  (exists ed, r = Ok (false, ed)) \/ (exists e, r = Err (LogicEvalError e)) ->
  clearState header ad gi txn i params true s = clearState header ad gi txn i params false s.
Proof.
  intros Hs Hrun Hr. unfold clearState. apply bind_ext_at. intros d s1 Hget.
  rewrite bal_Get_law in Hget by done. injection Hget as Hget <-.
  apply bind_ext_at. intros u s1 [_ ->]%throwIf_Ok. unfold mbind, M_bind, attempt. rewrite Hrun.
  destruct Hr as [[ed ->]|[e ->]]; done.
Qed.

End facts.
