(* ===== verification/ApplyCorrect.v ===== *)
(** The theorems about the transaction types, for every implementation of
    [Balances] that keeps the laws; the witnesses run them on the copy-on-write
    ledger of [CowBalances]. *)
From S2P Require Import Prelude Config Basics Transactions Bookkeeping StateDelta CompactCert Cow.
From S2P Require Import CowFacts CowStorage Balances CowBalances Apply ApplyFacts.
#[local] Open Scope string_scope.
#[local] Open Scope list_scope.
#[local] Open Scope Z_scope.

Section theorems.
  Context {S : Type} `{BalancesLaws S}.

(** A payment conserves money: over any list of distinct addresses
    that contains the sender, the receiver and the close-to address, the total
    with pending rewards is unchanged; nobody else's account changes; and a
    payment that closes leaves the sender's account empty. *)
Theorem Payment_conserves_money payment header ad ad' s s' :
  bal_inv s -> is_u64 (pay_Amount payment) -> Payment payment header ad s = (Ok ad', s') ->
  let sender := hdr_Sender header in
  let receiver := pay_Receiver payment in
  let closeTo := pay_CloseRemainderTo payment in
  bal_inv s' /\
  (closeTo <> 0 -> bal_acct s' sender = Ok AccountData_zero) /\
  (forall a, a <> sender -> a <> receiver -> a <> closeTo -> bal_acct s' a = bal_acct s a) /\
  (forall l, NoDup l -> sender ∈ l -> receiver ∈ l -> closeTo ∈ l -> total_money s' l = total_money s l).
Proof.
  intros Hs Hamt Hrun. destruct (wp_run _ _ _ _ _ Hrun (Payment_wp s payment header ad Hs Hamt)) as [Hst HQ].
  destruct (HQ ad' eq_refl) as (H1 & H2 & H3). split_and!; [apply Hst|done..].
Qed.

(** C34 (safety): an asset transfer conserves the units of the asset over any list
    of distinct addresses that contains the source, the receiver and the close-to
    address, and changes no other account.  It never takes more than the source
    holds, and takes the amount from a frozen holding only by clawback, which is
    issued by the asset's clawback address.  Closing out is never a clawback and
    removes the holding; a frozen holding with units is closed out only to the
    asset's creator. *)
Theorem AssetTransfer_conserves_units ct header ad ad' s s' :
  bal_inv s -> is_u64 (ax_AssetAmount ct) -> AssetTransfer ct header ad s = (Ok ad', s') ->
  let source := transfer_source ct header in
  let aidx := ax_XferAsset ct in
  bal_inv s' /\
  (forall l, NoDup l -> source ∈ l -> ax_AssetReceiver ct ∈ l -> ax_AssetCloseTo ct ∈ l ->
     total_units s' aidx l = total_units s aidx l) /\
  (forall a, a <> source -> a <> ax_AssetReceiver ct -> a <> ax_AssetCloseTo ct ->
     bal_acct s' a = bal_acct s a) /\
  (ax_AssetAmount ct <> 0 ->
     may_move s source aidx (negb (ax_AssetSender ct =? 0)) /\ ax_AssetAmount ct <= units_at s aidx source) /\
  (ax_AssetSender ct <> 0 -> clawback_allowed s ct header) /\
  (ax_AssetCloseTo ct <> 0 ->
     ax_AssetSender ct = 0 /\
     (exists d, bal_acct s' source = Ok d /\ acct_Assets d !! aidx = None) /\
     (units_at s aidx source <> 0 -> may_move s source aidx (is_creator s (ax_AssetCloseTo ct) aidx))).
Proof.
  intros Hs Hamt Hrun. destruct (wp_run _ _ _ _ _ Hrun (AssetTransfer_wp s ct header ad Hs Hamt)) as [Hst HQ].
  destruct (HQ ad' eq_refl) as (H1 & H2 & H3 & H4 & H5). split_and!; [apply Hst|done..].
Qed.

(** An existing asset is reconfigured or destroyed only by its
    manager and only the creator's account changes; it is destroyed only while
    the creator holds the whole supply, and reconfiguring changes only the keys,
    a key given up staying given up. *)
Theorem AssetConfig_guarded cc header ad ad' ctr s s' :
  bal_inv s -> ac_ConfigAsset cc <> 0 -> AssetConfig cc header ad ctr s = (Ok ad', s') ->
  let aidx := ac_ConfigAsset cc in
  exists creator d params,
    bal_acct s creator = Ok d /\ acct_AssetParams d !! aidx = Some params /\
    ap_Manager params = hdr_Sender header /\ ap_Manager params <> 0 /\
    (forall a, a <> creator -> bal_acct s' a = bal_acct s a) /\
    if bool_decide (ac_AssetParams cc = AssetParams_zero) then
      units_at s aidx creator = ap_Total params /\
      bal_acct s' creator = Ok (d <| acct_Assets := delete aidx (acct_Assets d) |>
                                  <| acct_AssetParams := delete aidx (acct_AssetParams d) |>)
    else
      exists params', only_keys_change params params' /\
      bal_acct s' creator = Ok (d <| acct_AssetParams := <[aidx := params']> (acct_AssetParams d) |>).
Proof.
  intros Hs Hnz Hrun.
  destruct (wp_run _ _ _ _ _ Hrun (AssetConfig_existing_wp s cc header ad ctr Hs Hnz)) as [_ HQ]. exact (HQ ad' eq_refl).
Qed.

(** Creating an asset gives its whole supply to the creator,
    under an index the creator's account did not use, and changes nothing else. *)
Theorem AssetConfig_creates cc header ad ad' ctr s s' :
  bal_inv s -> is_u64 (ap_Total (ac_AssetParams cc)) -> ac_ConfigAsset cc = 0 ->
  AssetConfig cc header ad ctr s = (Ok ad', s') ->
  let idx := wrap64 (ctr + 1) in
  ad_ConfigAsset ad' = idx /\
  units_at s' idx (hdr_Sender header) = ap_Total (ac_AssetParams cc) /\
  (forall a, a <> hdr_Sender header -> bal_acct s' a = bal_acct s a) /\
  (forall aidx, aidx <> idx -> units_at s' aidx (hdr_Sender header) = units_at s aidx (hdr_Sender header)) /\
  exists d d', bal_acct s (hdr_Sender header) = Ok d /\ bal_acct s' (hdr_Sender header) = Ok d' /\
    acct_AssetParams d !! idx = None /\ acct_AssetParams d' !! idx = Some (ac_AssetParams cc).
Proof.
  intros Hs Ht Hz Hrun idx. unfold AssetConfig in Hrun. rewrite Hz in Hrun. cbn [Z.eqb] in Hrun.
  destruct (wp_run _ _ _ _ _ Hrun (createAsset_wp s cc (hdr_Sender header) ad ctr Hs Ht)) as [_ HQ].
  destruct (HQ ad' eq_refl) as (Had & Hfr & d & Hd & Hnew & Hd'). fold idx in Hd', Hnew.
  unfold units_at. rewrite Hd, Hd'. split_and!; [done| |done| |].
  - unfold holdingAmount. cbn. by rewrite lookup_insert_eq.
  - intros aidx Hne. unfold holdingAmount. cbn. by rewrite lookup_insert_ne.
  - eexists d, _. split_and!; [done|done|done|]. cbn. by rewrite lookup_insert_eq.
Qed.

(** A key registration sets the keys of the sender and its
    online status, and nothing else: money, assets, applications and other
    accounts are untouched; it never succeeds for the fee sink or an account
    marked non-participating, and under the coherency check the account only goes
    online with keys that are valid in the next round. *)
Theorem Keyreg_changes_only_keys kr header spec rnd s s' :
  bal_inv s -> Keyreg kr header spec rnd s = (Ok tt, s') ->
  bal_inv s' /\ hdr_Sender header <> spec_FeeSink spec /\
  (forall a, a <> hdr_Sender header -> bal_acct s' a = bal_acct s a) /\
  exists d d', bal_acct s (hdr_Sender header) = Ok d /\ bal_acct s' (hdr_Sender header) = Ok d' /\
    keyreg_effect (bal_ConsensusParams s) rnd kr d d'.
Proof.
  intros Hs Hrun. destruct (wp_run _ _ _ _ _ Hrun (Keyreg_wp s kr header spec rnd Hs)) as [Hst HQ].
  destruct (HQ tt eq_refl) as (H1 & H2 & H3). split_and!; [apply Hst|done..].
Qed.

(** The cached schema total of every account stays the sum of
    the schemas of its applications through creating, opting in to, closing out
    of and deleting applications. *)
Theorem app_schemas_tracked s s' :
  bal_inv s -> apps_tracked s ->
  (forall ac creator ctr idx, schema_u64 (apc_GlobalStateSchema ac) ->
     (forall d, bal_acct s creator = Ok d ->
        acct_AppParams d !! wrap64 (ctr + 1) = None /\ has_room (apc_GlobalStateSchema ac) d) ->
     createApplication ac creator ctr s = (Ok idx, s') -> apps_tracked s') /\
  (forall sender i params, schema_u64 (app_LocalStateSchema params) ->
     (forall d, bal_acct s sender = Ok d -> has_room (app_LocalStateSchema params) d) ->
     optInApplication sender i params s = (Ok tt, s') -> apps_tracked s') /\
  (forall sender i, closeOutApplication sender i s = (Ok tt, s') -> apps_tracked s') /\
  (forall creator i, deleteApplication creator i s = (Ok tt, s') -> apps_tracked s').
Proof.
  intros Hs Ht. split_and!.
  - intros ac creator ctr idx Hsch Hroom Hrun.
    destruct (wp_run _ _ _ _ _ Hrun (createApplication_wp s ac creator ctr Hs Ht Hsch Hroom)) as [_ HQ].
    by destruct (HQ idx eq_refl) as (_ & H' & _).
  - intros sender i params Hsch Hroom Hrun.
    destruct (wp_run _ _ _ _ _ Hrun (optInApplication_wp s sender i params Hs Ht Hsch Hroom)) as [_ HQ].
    by destruct (HQ tt eq_refl).
  - intros sender i Hrun. destruct (wp_run _ _ _ _ _ Hrun (closeOutApplication_wp s sender i Hs Ht)) as [_ HQ].
    by destruct (HQ tt eq_refl).
  - intros creator i Hrun. destruct (wp_run _ _ _ _ _ Hrun (deleteApplication_wp s creator i Hs Ht)) as [_ HQ].
    by destruct (HQ tt eq_refl).
Qed.

(** An application cannot keep an account from clearing its state:
    when the clear-state program rejects or fails in its logic, the call behaves
    exactly as if the application had no program. *)
Theorem clearState_ignores_program s header ad gi txn i params r :
  bal_inv s -> bal_StatefulEval gi txn i (app_ClearStateProgram params) s = (r, s) ->
  (exists ed, r = Ok (false, ed)) \/ (exists e, r = Err (LogicEvalError e)) ->
  clearState header ad gi txn i params true s = clearState header ad gi txn i params false s.
Proof. apply clearState_ignores. Qed.

End theorems.

(** ** Witnesses on the copy-on-write ledger *)

(** Account 5 created asset 7, with 100 units of which it holds 60; account 6
    holds the other 40, frozen; account 8 holds money only. *)
Definition market_asset : AssetParams := mkAssetParams 100 0 false "" "" "" 0 5 0 5 6.
Definition market_accounts : gmap Z AccountData :=
  {[ 5 := MakeAccountData Offline 3000000 <| acct_AssetParams := {[ 7 := market_asset ]} |>
            <| acct_Assets := {[ 7 := mkAssetHolding 60 false ]} |>;
     6 := MakeAccountData Online 8000000 <| acct_Assets := {[ 7 := mkAssetHolding 40 true ]} |>;
     8 := MakeAccountData Offline 2000000 ]}.
Definition market_ledger : LedgerForCowBase :=
  mkLedgerForCowBase (fun _ => Ok sample_header) (fun _ _ _ _ _ _ => Ok tt)
    (fun r addr => Ok (default AccountData_zero (market_accounts !! addr), r))
    (fun _ cidx ctype => Ok (if (cidx =? 7) && bool_decide (ctype = AssetCreatable) then (5, true) else (0, false))).
Definition market : roundCowParent := base_parent (makeRoundCowBase market_ledger 1000 10 0 v31).
Definition market_stack : cowStack :=
  mkCowStack (makeRoundCowState sample_header v31 0 AccountTotals_zero 0) [].
Definition no_programs : Z -> AppIndex -> string -> M (cowStack * unit) (bool * EvalDelta) :=
  fun _ _ _ => throw (Errorf "no interpreter").
#[local] Instance market_Balances : Balances (cowStack * unit) := cow_Balances market no_programs.
#[local] Instance market_BalancesLaws : BalancesLaws (cowStack * unit) := cow_BalancesLaws market no_programs.

Lemma market_inv : bal_inv (market_stack, tt).
Proof.
  split_and!.
  - split; [|done]. split; [apply accts_zero_wf|]. intros addr aapp lsd.
    unfold getStorageDelta. cbn. rewrite lookup_empty. discriminate.
  - vm_compute. reflexivity.
  - vm_compute. split; congruence.
  - intros a d Hd. change (Ok (default AccountData_zero (market_accounts !! a)) = Ok d) in Hd. injection Hd as <-.
    assert (map_Forall (fun _ d => record_wf d) market_accounts) as Hall.
    { unfold market_accounts. repeat apply map_Forall_insert_2; [..|apply map_Forall_empty];
        (split; [vm_compute; repeat split; congruence|]); cbn;
        (apply map_Forall_empty || (apply map_Forall_singleton; vm_compute; split; congruence)). }
    destruct (market_accounts !! a) as [d|] eqn:E; [by apply (Hall a)|].
    split; [vm_compute; repeat split; congruence|]. apply map_Forall_empty.
Qed.

Definition from8 : Header := mkHeader 8 1000 1 2000 "" "" 77 0 0 0.
Definition from6 : Header := mkHeader 6 1000 1 2000 "" "" 77 0 0 0.
Definition from5 : Header := mkHeader 5 1000 1 2000 "" "" 77 0 0 0.

(** Split a run of the market into its result, computed, and its final state. *)
Ltac run_market op r s E :=
  destruct op as [r s] eqn:E;
  let H := fresh in
  assert (exists x, r = Ok x) as [? H] by (revert E; vm_compute; intros [= <- _]; eexists; reflexivity); subst r.

Lemma Payment_conserves_money_witness :
  exists ad s', Payment (mkPaymentTxnFields 6 500000 5) from8 ApplyData_zero (market_stack, tt) = (Ok ad, s') /\
    bal_acct s' 8 = Ok AccountData_zero /\ total_money s' [5; 6; 8] = 13000000.
Proof.
  run_market (Payment (mkPaymentTxnFields 6 500000 5) from8 ApplyData_zero (market_stack, tt)) r s' E.
  exists x, s'. split; [reflexivity|].
  destruct (Payment_conserves_money (mkPaymentTxnFields 6 500000 5) from8 ApplyData_zero x (market_stack, tt) s' market_inv ltac:(vm_compute; split; congruence) E)
    as (_ & Hclose & _ & Htot). clear E. split; [apply Hclose; discriminate|].
  rewrite Htot; [vm_compute; reflexivity|repeat constructor; set_solver|set_solver..].
Defined.

Lemma AssetTransfer_conserves_units_witness :
  exists ad s' d, AssetTransfer (mkAssetTransferTxnFields 7 0 0 6 5) from6 ApplyData_zero (market_stack, tt) = (Ok ad, s') /\
    total_units s' 7 [5; 6] = 100 /\ bal_acct s' 6 = Ok d /\ acct_Assets d !! 7 = None /\
    may_move (market_stack, tt) 6 7 (is_creator (market_stack, tt) 5 7).
Proof.
  run_market (AssetTransfer (mkAssetTransferTxnFields 7 0 0 6 5) from6 ApplyData_zero (market_stack, tt)) r s' E.
  destruct (AssetTransfer_conserves_units (mkAssetTransferTxnFields 7 0 0 6 5) from6 ApplyData_zero x (market_stack, tt) s' market_inv ltac:(vm_compute; split; congruence) E)
    as (_ & Htot & _ & _ & _ & Hclose). clear E.
  destruct (Hclose ltac:(discriminate)) as (_ & (d & Hd & Hgone) & Hmv).
  exists x, s', d. split_and!; [reflexivity| |exact Hd|exact Hgone|apply Hmv; vm_compute; discriminate].
  rewrite Htot; [vm_compute; reflexivity|repeat constructor; set_solver|set_solver..].
Defined.

Lemma AssetConfig_guarded_witness :
  exists ad s' creator d params,
    AssetConfig (mkAssetConfigTxnFields 7 (mkAssetParams 0 0 false "" "" "" 0 8 8 0 0)) from5 ApplyData_zero 10
      (market_stack, tt) = (Ok ad, s') /\
    bal_acct (market_stack, tt) creator = Ok d /\ acct_AssetParams d !! 7 = Some params /\ ap_Manager params = 5.
Proof.
  run_market (AssetConfig (mkAssetConfigTxnFields 7 (mkAssetParams 0 0 false "" "" "" 0 8 8 0 0)) from5 ApplyData_zero 10
      (market_stack, tt)) r s' E.
  destruct (AssetConfig_guarded (mkAssetConfigTxnFields 7 (mkAssetParams 0 0 false "" "" "" 0 8 8 0 0)) from5 ApplyData_zero x 10
    (market_stack, tt) s' market_inv ltac:(discriminate) E)
    as (creator & d & params & H1 & H2 & H3 & _).
  exists x, s', creator, d, params. split_and!; [reflexivity|exact H1|exact H2|exact H3].
Defined.

Lemma AssetConfig_creates_witness :
  exists ad s', AssetConfig (mkAssetConfigTxnFields 0 (mkAssetParams 55 0 false "" "" "" 0 8 0 0 0)) from8 ApplyData_zero 10
      (market_stack, tt) = (Ok ad, s') /\ units_at s' 11 8 = 55.
Proof.
  run_market (AssetConfig (mkAssetConfigTxnFields 0 (mkAssetParams 55 0 false "" "" "" 0 8 0 0 0)) from8 ApplyData_zero 10
      (market_stack, tt)) r s' E.
  exists x, s'. split; [reflexivity|].
  destruct (AssetConfig_creates (mkAssetConfigTxnFields 0 (mkAssetParams 55 0 false "" "" "" 0 8 0 0 0)) from8 ApplyData_zero x 10
    (market_stack, tt) s' market_inv ltac:(vm_compute; split; congruence) ltac:(reflexivity) E)
    as (_ & Hu & _). exact Hu.
Defined.

Lemma Keyreg_changes_only_keys_witness :
  exists s' d', Keyreg (mkKeyregTxnFields 1 2 3 900 2000 10 false) from8 (mkSpecialAddresses 1 2) 1000 (market_stack, tt)
      = (Ok tt, s') /\ bal_acct s' 8 = Ok d' /\ acct_Status d' = Online /\ acct_MicroNovas d' = 2000000.
Proof.
  run_market (Keyreg (mkKeyregTxnFields 1 2 3 900 2000 10 false) from8 (mkSpecialAddresses 1 2) 1000 (market_stack, tt)) r s' E.
  destruct x. destruct (Keyreg_changes_only_keys (mkKeyregTxnFields 1 2 3 900 2000 10 false) from8 (mkSpecialAddresses 1 2) 1000
    (market_stack, tt) s' market_inv E) as (_ & _ & _ & d & d' & Hd & Hd' & Heff).
  clear E. change (Ok (default AccountData_zero (market_accounts !! 8)) = Ok d) in Hd. injection Hd as <-.
  destruct Heff as (_ & Hm & _ & _ & _ & _ & _ & _ & _ & _ & _ & Hon & _).
  exists s', d'. split_and!; [reflexivity|exact Hd'|apply Hon; split; discriminate|].
  rewrite Hm. vm_compute. reflexivity.
Defined.

Lemma clearState_ignores_program_witness :
  let run b := clearState from8 ApplyData_zero 0 (stx_Txn (sample_stx 0 1000)) 9 AppParams_zero b (market_stack, tt) in
  run true = run false.
Proof.
  apply (clearState_ignores_program (market_stack, tt) from8 ApplyData_zero 0 (stx_Txn (sample_stx 0 1000)) 9
           AppParams_zero (Err (LogicEvalError (Errorf "no interpreter")))).
  - exact market_inv.
  - reflexivity.
  - right. eexists. reflexivity.
Defined.

Definition market_app : ApplicationCallTxnFields :=
  mkApplicationCallTxnFields 0 0 [] [] [] [] (mkStateSchema 1 0) (mkStateSchema 2 3) "a" "c" 0.

Lemma market_no_apps a d : bal_acct (market_stack, tt) a = Ok d ->
  acct_AppParams d = ∅ /\ acct_AppLocalStates d = ∅ /\ acct_TotalAppSchema d = StateSchema_zero.
Proof.
  intros Hd. change (Ok (default AccountData_zero (market_accounts !! a)) = Ok d) in Hd. injection Hd as <-.
  assert (map_Forall (fun _ d => acct_AppParams d = ∅ /\ acct_AppLocalStates d = ∅ /\
            acct_TotalAppSchema d = StateSchema_zero) market_accounts) as Hall
    by (unfold market_accounts; repeat apply map_Forall_insert_2; try apply map_Forall_empty; done).
  destruct (market_accounts !! a) as [d|] eqn:E; [by apply (Hall a)|done].
Qed.

Lemma app_schemas_tracked_witness :
  exists idx s', createApplication market_app 8 10 (market_stack, tt) = (Ok idx, s') /\ apps_tracked s'.
Proof.
  run_market (createApplication market_app 8 10 (market_stack, tt)) r s' E.
  exists x, s'. split; [reflexivity|].
  destruct (app_schemas_tracked (market_stack, tt) s' market_inv) as [Hc _].
  - intros a d (Hp & Hl & Ht)%market_no_apps. unfold schema_tracked, reserved. rewrite Hp, Hl, Ht, !mapsumZ_empty.
    split; [apply map_Forall_empty|]. split; [apply map_Forall_empty|].
    split; [split; vm_compute; split; congruence|]. split; reflexivity.
  - apply (Hc market_app 8 10 x); [vm_compute; split; split; congruence| |exact E].
    clear. intros d (Hp & Hl & Ht)%market_no_apps. unfold has_room, reserved. rewrite Hp, Hl, !mapsumZ_empty.
    split; [apply lookup_empty|]. vm_compute. split; reflexivity.
Defined.
