(* ===== verification/Eval.v ===== *)
(** [src/ledger/internal/eval.go]: the block evaluator.  [StartEvaluator] opens a
    block on top of the ledger and withdraws the block's rewards from the pool;
    [transactionGroup] executes a group in a child cow and commits it or leaves
    nothing; [endOfBlock] settles expired accounts, commitments and totals;
    [GenerateBlock] and [Eval] are the two ways a block is finished.

    The TEAL interpreter ([Interpreter]), the hashes and the encoded length of
    transactions ([Hashes]), the verifier of compact certificates and the
    verification of signatures are parameters.  The base of the cow is its view
    without caches ([CowFacts.base_cache_transparent]); the log lines of payments
    are not part of the state. *)
From S2P Require Import Prelude Config Basics Transactions Bookkeeping StateDelta CompactCert Cow.
From S2P Require Import Balances CowBalances Apply.
#[local] Open Scope string_scope.
#[local] Open Scope list_scope.
#[local] Open Scope Z_scope.

(** [logic.EvalParams] and the functions of package logic the evaluator calls. *)
Record Interpreter : Type := mkInterpreter {
  vm_state : Type;
  vm_NewEvalParams : list SignedTxnWithAD -> ConsensusParams -> SpecialAddresses -> vm_state;
  vm_RecordAD : Z -> ApplyData -> vm_state -> vm_state;
  vm_EvalContract : roundCowParent -> Z -> AppIndex -> string -> M (cowStack * vm_state) (bool * EvalDelta);
  vm_CheckContract : string -> vm_state -> outcome unit }.

Record Hashes : Type := mkHashes {
  h_Header : BlockHeader -> Digest;
  h_CommitFlat : list SignedTxnInBlock -> Digest;
  h_TxnMerkleRoot : list SignedTxnInBlock -> outcome Digest;
  h_Txn : Transaction -> Digest;
  h_TxGroup : list Digest -> Digest;
  h_CompactCertSender : Address;
  h_EncodedLength : SignedTxnInBlock -> Z }.

(** [LedgerForEvaluator]; the voters of a round are the root and total weight of
    their Merkle tree. *)
Record LedgerForEvaluator : Type := mkLedgerForEvaluator {
  le_base : LedgerForCowBase;
  le_GenesisHash : Digest;
  le_LatestTotals : outcome (Round * AccountTotals);
  le_CompactCertVoters : Round -> outcome (option (list Z * Z)) }.

Record EvaluatorOptions : Type := mkEvaluatorOptions {
  opt_PaysetHint : Z;
  opt_Validate : bool;
  opt_Generate : bool;
  opt_MaxTxnBytesPerBlock : Z;
  opt_ProtoParams : option ConsensusParams }.

Record BlockEvaluator : Type := mkBlockEvaluator {
  ev_base : roundCowParent;
  ev_state : cowStack;
  ev_validate : bool;
  ev_generate : bool;
  ev_prevHeader : BlockHeader;
  ev_proto : ConsensusParams;
  ev_genesisHash : Digest;
  ev_block : Block;
  ev_blockTxBytes : Z;
  ev_specials : SpecialAddresses;
  ev_blockGenerated : bool;
  ev_l : LedgerForEvaluator;
  ev_maxTxnBytesPerBlock : Z;
  ev_rewardAddresses : list Address }.
#[export] Instance Eta_BlockEvaluator : Eta BlockEvaluator := fun r =>
  mkBlockEvaluator (ev_base r) (ev_state r) (ev_validate r) (ev_generate r) (ev_prevHeader r) (ev_proto r)
    (ev_genesisHash r) (ev_block r) (ev_blockTxBytes r) (ev_specials r) (ev_blockGenerated r) (ev_l r)
    (ev_maxTxnBytesPerBlock r) (ev_rewardAddresses r).

Definition ev_header (ev : BlockEvaluator) : BlockHeader := blk_Header (ev_block ev).
Definition ev_view (ev : BlockEvaluator) : roundCowParent := cs_view (ev_base ev) (ev_state ev).
Definition PaySetSize (ev : BlockEvaluator) : Z := llen (blk_Payset (ev_block ev)).
Definition ev_Round (ev : BlockEvaluator) : Round := bh_Round (ev_header ev).
Definition ResetTxnBytes (ev : BlockEvaluator) : BlockEvaluator := ev <| ev_blockTxBytes := 0 |>.

(** A cow method on the evaluator's state. *)
Definition onState {A} (m : M cowStack A) : M BlockEvaluator A := fun ev =>
  let '(r, s) := m (ev_state ev) in (r, ev <| ev_state := s |>).

Section eval.
  Context (I : Interpreter) (H : Hashes).
  Context (Verify : CompactCertVerifierParams -> list Z -> CertBuilder.Cert -> outcome unit).

(** A block as the context of a transaction. *)
Definition block_context (ev : BlockEvaluator) : TxnContext :=
  mkTxnContext (ev_Round ev) (ConsensusOf (bh_CurrentProtocol (ev_header ev)))
    (bh_GenesisID (ev_header ev)) (bh_GenesisHash (ev_header ev)).

(** ** Starting a block *)

(** The testnet genesis and bank the hotfix of 2019 names. *)
Definition testnetGenesisHash : Digest :=
  32742692837880903159880865331627754858522853715659795510592116759189929933346.
Definition testnetBank : Address :=
  22159437942146839742042243532860542130363201515710523244261468240769010518148.

Definition workaroundOverspentRewards (B : roundCowParent) (genesisHash : Digest) (pool : Address)
    (rewardPoolBalance : AccountData) (headerRound : Round) : M cowStack AccountData :=
  if negb (headerRound =? 1499995) && negb (headerRound =? 2926564) then mret rewardPoolBalance
  else if negb (genesisHash =? testnetGenesisHash) then mret rewardPoolBalance
  else
    r ← attempt (cow_Move B testnetBank pool 20000000000 None None);
    match r with
    | inr _ => throw (Errorf "unable to move funds from testnet bank to incentive pool")
    | inl _ => cow_Get B pool true
    end.

(** The round of the next compact certificate: carried over, or the first one
    when certificates are being enabled. *)
Definition startCompactCert (prev : BlockHeader) (round : Round) (proto : ConsensusParams) : outcome Round :=
  let next := ccs_CompactCertNextRound (CompactCertOf prev) in
  if (next =? 0) && negb (proto_CompactCertRounds proto =? 0) then
    votersRound ← RoundUpToMultipleOf (wrap64 (round + proto_CompactCertVotersLookback proto))
                    (proto_CompactCertRounds proto);
    Ok (wrap64 (votersRound + proto_CompactCertRounds proto))
  else Ok next.

(** Withdraw the rewards of the block from the incentive pool. *)
Definition withdrawRewards (B : roundCowParent) (genesisHash : Digest) (proto : ConsensusParams)
    (prev : BlockHeader) (hdr : BlockHeader) (prevTotals : AccountTotals) : M cowStack unit :=
  let poolAddr := rs_RewardsPool (bh_RewardsState prev) in
  let '(rewardsPerUnit, ot) :=
    ot_Sub false (rs_RewardsLevel (bh_RewardsState hdr)) (rs_RewardsLevel (bh_RewardsState prev)) in
  _ ← throwIf ot (Errorf "overflowed subtracting rewards levels");
  poolOld ← cow_Get B poolAddr true;
  poolOld ← workaroundOverspentRewards B genesisHash poolAddr poolOld (bh_Round hdr);
  units ← lift (Totals_RewardUnits prevTotals);
  let '(spent, ot) := ot_Mul ot units rewardsPerUnit in
  let '(remaining, ot) := ot_SubA ot (acct_MicroNovas poolOld) spent in
  _ ← throwIf ot (Errorf "overflowed subtracting reward unit");
  _ ← cow_Put poolAddr (poolOld <| acct_MicroNovas := remaining |>);
  let '(_, ot) := ot_SubA ot remaining (proto_MinBalance proto) in
  throwIf ot (Errorf "overflowed subtracting rewards").

(** [hdr] is the header with the fields [Generate] fills in; a wrong rewards
    state or genesis hash is rejected when validating. *)
Definition checkHeader (proto : ConsensusParams) (genesisHash : Digest) (prev hdr : BlockHeader)
    (expected : outcome RewardsState) : outcome unit :=
  _ ← PreCheck (h_Header H) hdr prev;
  expected ← expected;
  _ ← failIf (negb (bool_decide (bh_RewardsState hdr = expected))) (Errorf "bad rewards state");
  failIf (proto_SupportGenesisHash proto && negb (bh_GenesisHash hdr =? genesisHash))
    (Errorf "wrong genesis hash").

Definition StartEvaluator (l : LedgerForEvaluator) (hdr : BlockHeader) (opts : EvaluatorOptions)
    : outcome BlockEvaluator :=
  proto ← match opt_ProtoParams opts with
          | None => match Consensus !! bh_CurrentProtocol hdr with
                    | Some proto => Ok proto
                    | None => Err (Errorf "protocol not supported")
                    end
          | Some proto => Ok proto
          end;
  let maxBytes :=
    if (opt_MaxTxnBytesPerBlock opts <=? 0) || (proto_MaxTxnBytesPerBlock proto <? opt_MaxTxnBytesPerBlock opts)
    then proto_MaxTxnBytesPerBlock proto else opt_MaxTxnBytesPerBlock opts in
  _ ← failIf (bh_Round hdr =? 0) ErrRoundZero;
  prev ← wrapErr (Errorf "can't evaluate block without previous header")
           (l_BlockHdr (le_base l) (wrap64 (bh_Round hdr - 1)));
  prevProto ← match Consensus !! bh_CurrentProtocol prev with
              | Some p => Ok p
              | None => Err (Errorf "protocol not supported")
              end;
  nextCert ← startCompactCert prev (bh_Round hdr) proto;
  let B := base_parent (makeRoundCowBase (le_base l) (wrap64 (bh_Round hdr - 1)) (bh_TxnCounter prev) nextCert proto) in
  '(latestRound, prevTotals) ← le_LatestTotals l;
  _ ← failIf (negb (latestRound =? bh_Round prev)) ErrNonSequentialBlockEval;
  '(pool, _) ← l_LookupWithoutRewards (le_base l) (bh_Round prev) (rs_RewardsPool (bh_RewardsState prev));
  pool ← WithUpdatedRewards prevProto (rs_RewardsLevel (bh_RewardsState prev)) pool;
  let expected :=
    units ← Totals_RewardUnits prevTotals;
    NextRewardsState (bh_RewardsState prev) (bh_Round hdr) proto (acct_MicroNovas pool) units in
  hdr' ← (if opt_Generate opts then
            rs ← expected;
            let hdr := if proto_SupportGenesisHash proto
                       then hdr <| bh_GenesisHash := le_GenesisHash l |> else hdr in
            Ok (hdr <| bh_RewardsState := rs |>)
          else Ok hdr);
  let s := mkCowStack (makeRoundCowState hdr' proto (bh_TimeStamp prev) prevTotals (opt_PaysetHint opts)) [] in
  _ ← (if opt_Validate opts then checkHeader proto (le_GenesisHash l) prev hdr' expected else Ok tt);
  match withdrawRewards B (le_GenesisHash l) proto prev hdr' prevTotals s with
  | (Ok tt, s) =>
      Ok (mkBlockEvaluator B s (opt_Validate opts) (opt_Generate opts) prev proto (le_GenesisHash l)
            (mkBlock hdr' []) 0
            (mkSpecialAddresses (rs_FeeSink (bh_RewardsState hdr)) (rs_RewardsPool (bh_RewardsState hdr)))
            false l maxBytes [])
  | (Err e, _) => Err e
  | (Panic, _) => Panic
  end.

(** ** Checking transactions without executing them *)

Definition txlease (tx : Transaction) : Txlease := (hdr_Sender (tx_Header tx), hdr_Lease (tx_Header tx)).

Definition TestTransaction (ev : BlockEvaluator) (txn : SignedTxn) : M cowStack unit :=
  let tx := stx_Txn txn in
  _ ← lift (Alive (tx_Header tx) (block_context ev));
  _ ← lift (wrapErr (Errorf "transaction: malformed")
              (WellFormed (h_CompactCertSender H) tx (ev_specials ev) (ev_proto ev)));
  checkDup (ev_base ev) (hdr_FirstValid (tx_Header tx)) (hdr_LastValid (tx_Header tx)) (h_Txn H tx) (txlease tx).

Definition without_group (tx : Transaction) : Transaction :=
  tx <| tx_Header := tx_Header tx <| hdr_Group := 0 |> |>.

(** The check of one member of a group of [n]; the hash it contributes. *)
Definition groupMember (first : Digest) (n : Z) (tx : Transaction) (hashes : list Digest)
    : outcome (list Digest) :=
  _ ← failIf (negb (hdr_Group (tx_Header tx) =? first)) (Errorf "transactionGroup: inconsistent group values");
  if negb (hdr_Group (tx_Header tx) =? 0) then Ok (hashes ++ [h_Txn H (without_group tx)])
  else
    _ ← failIf (1 <? n) (Errorf "transactionGroup: had zero Group but was submitted in a group");
    Ok hashes.

Definition groupComplete (first : Digest) (hashes : list Digest) : outcome unit :=
  match hashes with
  | [] => Ok tt
  | _ => failIf (negb (first =? h_TxGroup H hashes)) (Errorf "transactionGroup: incomplete group")
  end.

Fixpoint test_loop (ev : BlockEvaluator) (first : Digest) (n : Z) (txns : list SignedTxn)
    (hashes : list Digest) : M cowStack (list Digest) :=
  match txns with
  | [] => mret hashes
  | txn :: rest =>
      _ ← TestTransaction ev txn;
      hashes ← lift (groupMember first n (stx_Txn txn) hashes);
      test_loop ev first n rest hashes
  end.

(** The child cow the checks run in is dropped: only its answer is kept. *)
Definition TestTransactionGroup (ev : BlockEvaluator) (txgroup : list SignedTxn) : outcome unit :=
  match txgroup with
  | [] => Ok tt
  | txn0 :: _ =>
      _ ← failIf (proto_MaxTxGroupSize (ev_proto ev) <? llen txgroup) (Errorf "group size exceeds maximum");
      hashes ← (test_loop ev (stx_group txn0) (llen txgroup) txgroup [] (child (llen txgroup) (ev_state ev))).1;
      groupComplete (stx_group txn0) hashes
  end.


(** ** Executing a transaction *)

Section execute.
  Context (ev : BlockEvaluator).

(** The state a transaction runs on: the stack and the group's evaluation
    parameters. *)
#[local] Notation state := (cowStack * vm_state I)%type.
#[local] Instance eval_Balances : Balances state := cow_Balances (ev_base ev) (vm_EvalContract I (ev_base ev)).

(** Every voter of the certificate gets the same share of the fee. *)
Fixpoint payVoters (sender : Address) (reward : Z) (voters : list Address) (ad : ApplyData)
    : M state ApplyData :=
  match voters with
  | [] => mret ad
  | rewardAdd :: rest =>
      '(sr, rr) ← bal_Move sender rewardAdd reward (Some (ad_SenderRewards ad)) (Some (ad_ReceiverRewards ad));
      payVoters sender reward rest
        (ad <| ad_SenderRewards := default 0 sr |> <| ad_ReceiverRewards := default 0 rr |>)
  end.

(** The fee goes to the voters of the certificate, or to the fee sink when there
    are none. *)
Definition payFee (header : Header) : M state ApplyData :=
  let certVoters := llen (ev_rewardAddresses ev) in
  if negb (certVoters =? 0) then
    payVoters (hdr_Sender header) (hdr_Fee header / certVoters) (ev_rewardAddresses ev) ApplyData_zero
  else
    '(sr, _) ← bal_Move (hdr_Sender header) (spec_FeeSink (ev_specials ev)) (hdr_Fee header) (Some 0) None;
    mret (ApplyData_zero <| ad_SenderRewards := default 0 sr |>).

(** The switch on the type of the transaction. *)
Definition applyType (tx : Transaction) (gi ctr : Z) (ad : ApplyData) : M state ApplyData :=
  let header := tx_Header tx in
  match tx_Type tx with
  | PaymentTx => Payment (tx_Payment tx) header ad
  | KeyRegistrationTx =>
      rnd ← gets (fun s : state => round (cs_cur s.1));
      _ ← Keyreg (tx_Keyreg tx) header (ev_specials ev) rnd; mret ad
  | AssetConfigTx => AssetConfig (tx_AssetConfig tx) header ad ctr
  | AssetTransferTx => AssetTransfer (tx_AssetTransfer tx) header ad
  | AssetFreezeTx => _ ← AssetFreeze (tx_AssetFreeze tx) header; mret ad
  | ApplicationCallTx =>
      ApplicationCall (fun program (s : state) => vm_CheckContract I program s.2) (tx_ApplicationCall tx) header ad gi tx ctr
  | AddressPrintTx => _ ← AddressPrint (tx_AddressPrint tx) header; mret ad
  | CompactCertTx =>
      let cc := tx_CompactCert tx in
      _ ← (if ev_validate ev || ev_generate ev then
             onCow (cow_compactCert (ev_base ev) Verify (cc_CertRound cc) (cc_CertType cc) (cc_Cert cc)
                      (hdr_FirstValid header) (ev_validate ev))
           else mret tt);
      mret ad
  | UnknownTx => throw (Errorf "unknown transaction type")
  end.

(** The fields of [ApplyData] a protocol does not record. *)
Definition clearAD (params : ConsensusParams) (ad : ApplyData) : ApplyData :=
  let ad := if negb (proto_RewardsInApplyData params)
            then ad <| ad_SenderRewards := 0 |> <| ad_ReceiverRewards := 0 |> <| ad_CloseRewards := 0 |>
            else ad in
  if proto_MaxInnerTransactions params =? 0
  then ad <| ad_ApplicationID := 0 |> <| ad_ConfigAsset := 0 |> else ad.

(** On an error the group is abandoned, so the [ApplyData] recorded then is not
    modelled. *)
Definition applyTransaction (tx : Transaction) (gi ctr : Z) : M state ApplyData :=
  params ← gets bal_ConsensusParams;
  ad ← payFee (tx_Header tx);
  _ ← Rekey (tx_Header tx);
  ad ← applyType tx gi ctr ad;
  _ ← modify (fun s : state => (s.1, vm_RecordAD I gi ad s.2));
  mret (clearAD params ad).

(** Every account the group has modified so far must keep its minimum balance,
    except for special accounts and accounts that are empty. *)
Definition minBalanceOk (P : roundCowParent) (rewardlvl : Z) (addr : Address) : outcome unit :=
  let proto := ev_proto ev in
  if (addr =? rs_FeeSink (bh_RewardsState (ev_header ev))) ||
     (addr =? rs_RewardsPool (bh_RewardsState (ev_header ev))) || (addr =? h_CompactCertSender H)
  then Ok tt
  else
    data ← par_lookup P addr;
    if AccountData_IsZero data then Ok tt
    else
      dataNew ← WithUpdatedRewards proto rewardlvl data;
      let effectiveMinBalance := MinBalance proto dataNew in
      _ ← failIf (acct_MicroNovas dataNew <? effectiveMinBalance) (Errorf "account balance below min");
      failIf (negb (proto_MaximumMinimumBalance proto =? 0) &&
              (proto_MaximumMinimumBalance proto <? effectiveMinBalance))
        (Errorf "account would use too much space after this transaction").

Fixpoint each_ok {A} (f : A -> outcome unit) (l : list A) : outcome unit :=
  match l with
  | [] => Ok tt
  | a :: l' => _ ← f a; each_ok f l'
  end.

Definition checkMinBalance : M cowStack unit := fun s =>
  (each_ok (minBalanceOk (cs_view (ev_base ev) s) (rewardsLevel (cs_cur s))) (modifiedAccounts (cs_cur s)), s).

(** Wrapping an error hides its type. *)
Definition wrapM {S A} (e : error) (m : M S A) : M S A := fun s =>
  let '(r, s') := m s in (wrapErr e r, s').

(** Is the transaction authorized by the address its sender is rekeyed to? *)
Definition checkAuthorizer (txn : SignedTxn) : M cowStack unit :=
  let sender := hdr_Sender (tx_Header (stx_Txn txn)) in
  acctdata ← lookup (ev_base ev) sender;
  let correctAuthorizer := if acct_AuthAddr acctdata =? 0 then sender else acct_AuthAddr acctdata in
  throwIf (negb (Authorizer txn =? correctAuthorizer)) (Errorf "transaction: should have been authorized by").

Definition checkApplyData (ad applyData : ApplyData) : outcome unit :=
  if ev_validate ev && negb (ev_generate ev) then
    if proto_ApplyData (ev_proto ev)
    then failIf (negb (ApplyData_Equal ad applyData)) (Errorf "transaction: applyData mismatch")
    else failIf (negb (ApplyData_Equal ad ApplyData_zero)) (Errorf "transaction: applyData not supported")
  else Ok tt.

Definition transaction (txn : SignedTxn) (gi : Z) (ad : ApplyData) : M state SignedTxnInBlock :=
  let tx := stx_Txn txn in
  let txid := h_Txn H tx in
  _ ← (if ev_validate ev then
         _ ← lift (Alive (tx_Header tx) (block_context ev));
         _ ← onCow (checkDup (ev_base ev) (hdr_FirstValid (tx_Header tx)) (hdr_LastValid (tx_Header tx)) txid
                      (txlease tx));
         onCow (checkAuthorizer txn)
       else mret tt);
  ctr ← gets (fun s : state => par_txnCounter (cs_view (ev_base ev) s.1));
  applyData ← wrapM (Errorf "transaction") (applyTransaction tx gi ctr);
  _ ← lift (checkApplyData ad applyData);
  txib ← lift (EncodeSignedTxn (ev_header ev) txn applyData);
  _ ← (if ev_validate ev || ev_generate ev
       then wrapM (Errorf "transaction") (onCow checkMinBalance) else mret tt);
  _ ← onCow (modify_cur (addTx tx txid));
  mret txib.

(** The loop over a group; the accumulator holds the encoded transactions, the
    member hashes and the bytes used. *)
Fixpoint group_loop (first : Digest) (n gi : Z) (txads : list SignedTxnWithAD)
    (acc : list SignedTxnInBlock * list Digest * Z) : M state (list SignedTxnInBlock * list Digest * Z) :=
  match txads with
  | [] => mret acc
  | txad :: rest =>
      let '(txibs, hashes, bytes) := acc in
      txib ← transaction (stad_SignedTxn txad) gi (stad_ApplyData txad);
      let bytes := if ev_validate ev then bytes + h_EncodedLength H txib else bytes in
      _ ← throwIf (ev_validate ev && (ev_maxTxnBytesPerBlock ev <? ev_blockTxBytes ev + bytes)) ErrNoSpace;
      hashes ← lift (groupMember first n (stx_Txn (stad_SignedTxn txad)) hashes);
      group_loop first n (gi + 1) rest (txibs ++ [txib], hashes, bytes)
  end.

End execute.

(** The group runs in a child cow, which is committed only at the end. *)
Definition transactionGroup (txgroup : list SignedTxnWithAD) : M BlockEvaluator unit := fun ev =>
  match txgroup with
  | [] => (Ok tt, ev)
  | txad0 :: _ =>
      if proto_MaxTxGroupSize (ev_proto ev) <? llen txgroup
      then (Err (Errorf "group size exceeds maximum"), ev)
      else
        let first := stx_group (stad_SignedTxn txad0) in
        let cow := child (llen txgroup) (ev_state ev) in
        let evalParams := vm_NewEvalParams I txgroup (ev_proto ev) (ev_specials ev) in
        match group_loop ev first (llen txgroup) 0 txgroup ([], [], 0) (cow, evalParams) with
        | (Ok (txibs, hashes, bytes), (cow', _)) =>
            match groupComplete first hashes with
            | Ok _ =>
                let '(r, s) := commitToParent cow' in
                (r, ev <| ev_block := ev_block ev <| blk_Payset := blk_Payset (ev_block ev) ++ txibs |> |>
                       <| ev_blockTxBytes := ev_blockTxBytes ev + bytes |>
                       <| ev_state := s |>)
            | Err e => (Err e, ev <| ev_state := discard cow' (ev_state ev) |>)
            | Panic => (Panic, ev)
            end
        | (Err e, (cow', _)) => (Err e, ev <| ev_state := discard cow' (ev_state ev) |>)
        | (Panic, _) => (Panic, ev)
        end
  end.

Definition TransactionGroup (txads : list SignedTxnWithAD) : M BlockEvaluator unit := transactionGroup txads.

Definition Transaction_ (txn : SignedTxn) (ad : ApplyData) : M BlockEvaluator unit :=
  TransactionGroup [mkSignedTxnWithAD txn ad].

(** ** The end of a block *)

Definition compactCertVotersAndTotal (ev : BlockEvaluator) : outcome (list Z * Z) :=
  if proto_CompactCertRounds (ev_proto ev) =? 0 then Ok ([], 0)
  else if negb (ev_Round ev mod proto_CompactCertRounds (ev_proto ev) =? 0) then Ok ([], 0)
  else
    voters ← le_CompactCertVoters (ev_l ev)
               (Round_SubSaturate (ev_Round ev) (proto_CompactCertVotersLookback (ev_proto ev)));
    Ok (default ([], 0) voters).

Definition expired (d : AccountData) (currentRound : Round) : bool :=
  bool_decide (acct_Status d = Online) && (acct_VoteLastValid d <? currentRound).

(** The loop of [generateExpiredOnlineAccountsList]: [expired] accounts are
    appended until the maximum is reached. *)
Fixpoint collect_expired (accts : AccountDeltas) (currentRound max : Z) (addrs : list Address)
    (acc : list Address) : outcome (list Address) :=
  match addrs with
  | [] => Ok acc
  | addr :: rest =>
      if llen acc <? max then
        d ← Get accts addr;
        collect_expired accts currentRound max rest
          (match d with
           | Some d => if expired d currentRound then acc ++ [addr] else acc
           | None => acc
           end)
      else Ok acc
  end.

Definition setHeader (f : BlockHeader -> BlockHeader) (ev : BlockEvaluator) : BlockEvaluator :=
  ev <| ev_block := ev_block ev <| blk_Header := f (ev_header ev) |> |>.

Definition generateExpiredOnlineAccountsList : M BlockEvaluator unit := fun ev =>
  if negb (ev_generate ev) then (Ok tt, ev)
  else
    let accts := sd_Accts (cow_mods (cs_cur (ev_state ev))) in
    match collect_expired accts (ev_Round ev) (proto_MaxProposedExpiredOnlineAccounts (ev_proto ev))
            (ModifiedAccounts accts) (bh_ExpiredParticipationAccounts (ev_header ev)) with
    | Ok l => (Ok tt, setHeader (fun h => h <| bh_ExpiredParticipationAccounts := l |>) ev)
    | Err e => (Err e, ev)
    | Panic => (Panic, ev)
    end.

Fixpoint validate_expired (P : roundCowParent) (currentRound : Round) (addrs : list Address)
    (addressSet : gset Z) : outcome unit :=
  match addrs with
  | [] => Ok tt
  | addr :: rest =>
      _ ← failIf (bool_decide (addr ∈ addressSet)) (Errorf "duplicate address found");
      d ← wrapErr (Errorf "endOfBlock was unable to retrieve account") (par_lookup P addr);
      _ ← failIf (negb (bool_decide (acct_Status d = Online))) (Errorf "endOfBlock found account was not online");
      _ ← failIf (negb (acct_VoteLastValid d <? currentRound)) (Errorf "endOfBlock found account not expired");
      validate_expired P currentRound rest ({[ addr ]} ∪ addressSet)
  end.

Definition validateExpiredOnlineAccounts (ev : BlockEvaluator) : outcome unit :=
  if negb (ev_validate ev) then Ok tt
  else
    let l := bh_ExpiredParticipationAccounts (ev_header ev) in
    _ ← failIf (proto_MaxProposedExpiredOnlineAccounts (ev_proto ev) <? llen l)
          (Errorf "length of expired accounts was greater than expected");
    validate_expired (ev_view ev) (ev_Round ev) l ∅.

Definition resetExpired (B : roundCowParent) (addr : Address) : M cowStack unit :=
  d ← wrapM (Errorf "resetExpiredOnlineAccountsParticipationKeys was unable to retrieve account") (lookup B addr);
  cow_Put addr (ClearOnlineState d).

Definition resetExpiredOnlineAccountsParticipationKeys : M BlockEvaluator unit :=
  ev ← gets id;
  let l := bh_ExpiredParticipationAccounts (ev_header ev) in
  _ ← throwIf (proto_MaxProposedExpiredOnlineAccounts (ev_proto ev) <? llen l)
        (Errorf "length of expired accounts was greater than expected");
  onState (mforeach (resetExpired (ev_base ev)) l).

(** The commitments, counters and certificate state of a validated block. *)
Definition checkCommitments (ev : BlockEvaluator) : outcome unit :=
  let hdr := ev_header ev in
  let cc := CompactCertOf hdr in
  txnRoot ← PaysetCommit (h_CommitFlat H) (h_TxnMerkleRoot H) (ev_block ev);
  _ ← failIf (negb (txnRoot =? bh_TxnRoot hdr)) (Errorf "txn root wrong");
  let expectedTxnCount := if proto_TxnCounter (ev_proto ev) then par_txnCounter (ev_view ev) else 0 in
  _ ← failIf (negb (bh_TxnCounter hdr =? expectedTxnCount)) (Errorf "txn count wrong");
  '(voters, weight) ← compactCertVotersAndTotal ev;
  _ ← failIf (negb (bool_decide (ccs_CompactCertVoters cc = voters))) (Errorf "CompactCertVoters wrong");
  _ ← failIf (negb (ccs_CompactCertVotersTotal cc =? weight)) (Errorf "CompactCertVotersTotal wrong");
  _ ← failIf (negb (ccs_CompactCertNextRound cc =? par_compactCertNext (ev_view ev)))
        (Errorf "CompactCertNextRound wrong");
  failIf (negb (forallb (fun '(t, _) => t =? CompactCertBasic) (map_to_list (bh_CompactCert hdr))))
    (Errorf "CompactCertType unexpected").

(** What [Generate] fills in at the end of a block. *)
Definition generateHeader : M BlockEvaluator unit :=
  ev ← gets id;
  root ← lift (PaysetCommit (h_CommitFlat H) (h_TxnMerkleRoot H) (ev_block ev));
  let count := if proto_TxnCounter (ev_proto ev) then par_txnCounter (ev_view ev) else 0 in
  _ ← modify (setHeader (fun h => h <| bh_TxnRoot := root |> <| bh_TxnCounter := count |>));
  _ ← generateExpiredOnlineAccountsList;
  if 0 <? proto_CompactCertRounds (ev_proto ev) then
    ev ← gets id;
    '(voters, weight) ← lift (compactCertVotersAndTotal ev);
    modify (setHeader (fun h => h <| bh_CompactCert :=
      {[ CompactCertBasic := mkCompactCertState voters weight (par_compactCertNext (ev_view ev)) ]} |>))
  else mret tt.

Section finish.
  (** Whether [OptimizeAllocatedMemory] reallocates the account table. *)
  Context (shrink : LedgerStateDelta -> bool).

Definition endOfBlock : M BlockEvaluator unit :=
  ev ← gets id;
  _ ← (if ev_generate ev then generateHeader else mret tt);
  ev ← gets id;
  _ ← lift (validateExpiredOnlineAccounts ev);
  _ ← resetExpiredOnlineAccountsParticipationKeys;
  _ ← onState (modify_mods (fun m => OptimizeAllocatedMemory (shrink m) m));
  ev ← gets id;
  _ ← (if ev_validate ev then lift (checkCommitments ev) else mret tt);
  onState (CalculateTotals (ev_base ev)).

(** The evaluator continues on a fresh top-level cow over its old state. *)
Definition GenerateBlock : M BlockEvaluator (Block * LedgerStateDelta) := fun ev =>
  if negb (ev_generate ev) then (Panic, ev)
  else
    (_ ← throwIf (ev_blockGenerated ev) (Errorf "GenerateBlock already called on this BlockEvaluator");
     _ ← endOfBlock;
     delta ← onState (deltas (ev_base ev));
     _ ← modify (fun ev => ev <| ev_blockGenerated := true |>);
     ev ← gets id;
     match Consensus !! bh_CurrentProtocol (ev_header ev) with
     | None => throw (Errorf "unknown consensus version")
     | Some proto =>
         let old := ev_state ev in
         let cur := makeRoundCowState (ev_header ev) proto (bh_TimeStamp (ev_prevHeader ev))
                      (sd_Totals (cow_mods (cs_cur old))) (PaySetSize ev) in
         _ ← modify (fun ev => ev <| ev_state := mkCowStack cur (cs_cur old :: cs_parents old) |>);
         mret (ev_block ev, delta)
     end) ev.

(** ** Evaluating a block *)

(** The addresses whose accounts a group is loaded with. *)
Definition groupAddresses (group : list SignedTxnWithAD) : list Address :=
  filter (fun a => a <> 0)
    (group ≫= fun txad =>
       let tx := stx_Txn (stad_SignedTxn txad) in
       [hdr_Sender (tx_Header tx); pay_Receiver (tx_Payment tx); pay_CloseRemainderTo (tx_Payment tx);
        ax_AssetSender (tx_AssetTransfer tx); ax_AssetReceiver (tx_AssetTransfer tx);
        ax_AssetCloseTo (tx_AssetTransfer tx); af_FreezeAccount (tx_AssetFreeze tx)] ++
       apc_Accounts (tx_ApplicationCall tx)).

Fixpoint load_all (l : LedgerForEvaluator) (rnd : Round) (addrs : list Address)
    : outcome (list BalanceRecord) :=
  match addrs with
  | [] => Ok []
  | addr :: rest =>
      '(d, _) ← l_LookupWithoutRewards (le_base l) rnd addr;
      brs ← load_all l rnd rest;
      Ok (mkBalanceRecord addr d :: brs)
  end.

(** The groups in order, each with the accounts it needs; the fee sink is loaded
    with the first group. *)
Definition loadAccounts (l : LedgerForEvaluator) (rnd : Round) (groups : list (list SignedTxnWithAD))
    (feeSinkAddr : Address) : list (list SignedTxnWithAD * outcome (list BalanceRecord)) :=
  match groups with
  | [] => []
  | g :: rest =>
      (g, load_all l rnd (groupAddresses g ++ filter (fun a => a <> 0) [feeSinkAddr])) ::
      map (fun g => (g, load_all l rnd (groupAddresses g))) rest
  end.

(** The loaded accounts only fill the cache of the base. *)
Fixpoint eval_groups (loaded : list (list SignedTxnWithAD * outcome (list BalanceRecord)))
    : M BlockEvaluator unit :=
  match loaded with
  | [] => mret tt
  | (group, balances) :: rest =>
      _ ← lift balances;
      _ ← TransactionGroup group;
      eval_groups rest
  end.

(** [verifyPayset] is the verification of signatures that runs beside the
    evaluation; an error of the evaluation is reported first. *)
Definition evalTxValidator (verifyPayset : list (list SignedTxn) -> BlockHeader -> outcome unit)
    (blk : Block) (groups : list (list SignedTxnWithAD)) : outcome unit :=
  let hdr := blk_Header blk in
  let ctx := mkTxnContext (bh_Round hdr) (ConsensusOf (bh_CurrentProtocol hdr)) (bh_GenesisID hdr)
               (bh_GenesisHash hdr) in
  _ ← each_ok (fun txad => Alive (tx_Header (stx_Txn (stad_SignedTxn txad))) ctx) (concat groups);
  verifyPayset (map (map stad_SignedTxn) groups) hdr.

Definition Eval (verifyPayset : list (list SignedTxn) -> BlockHeader -> outcome unit)
    (l : LedgerForEvaluator) (blk : Block) (validate : bool) (certVoteAddresses : list Address)
    : outcome LedgerStateDelta :=
  ev ← StartEvaluator l (blk_Header blk) (mkEvaluatorOptions (llen (blk_Payset blk)) validate false 0 None);
  let ev := ev <| ev_rewardAddresses := certVoteAddresses |> in
  groups ← DecodePaysetGroups blk;
  _ ← (if validate then
         match Consensus !! bh_CurrentProtocol (blk_Header blk) with
         | None => Err (Errorf "protocol not supported")
         | Some _ => Ok tt
         end
       else Ok tt);
  let loaded := loadAccounts l (wrap64 (bh_Round (blk_Header blk) - 1)) groups
                  (rs_FeeSink (bh_RewardsState (blk_Header blk))) in
  match (_ ← eval_groups loaded; endOfBlock) ev with
  | (Ok _, ev) =>
      _ ← (if validate then evalTxValidator verifyPayset blk groups else Ok tt);
      (deltas (ev_base ev) (ev_state ev)).1
  | (Err e, _) => Err e
  | (Panic, _) => Panic
  end.

End finish.
End eval.
