(* ===== verification/EvalFacts.v ===== *)
(** What the block evaluator guarantees: a transaction group is atomic and sound
    as a group, accounts keep their minimum balance, and expired accounts are
    listed and reset correctly. *)
From S2P Require Import Prelude Config Basics Transactions Bookkeeping StateDelta CompactCert Cow.
From S2P Require Import CowFacts CowStorage Balances CowBalances Apply ApplyFacts ApplyCorrect Eval.
#[local] Open Scope string_scope.
#[local] Open Scope list_scope.
#[local] Open Scope Z_scope.

(** ** A relation every operation keeps, lifted to the transaction types *)

Section keeps.
  Context {S : Type} `{Balances S} (R : S -> S -> Prop).
  Context (Rrefl : forall s, R s s) (Rtrans : forall x y z, R x y -> R y z -> R x z).

(** Every operation of the interface keeps [R]. *)
Record interface_keeps : Prop := {
  ik_Get a w : keeps R (bal_Get a w);
  ik_Put a d : keeps R (bal_Put a d);
  ik_GetCreator c t : keeps R (bal_GetCreator c t);
  ik_AllocateApp a i g sp : keeps R (bal_AllocateApp a i g sp);
  ik_DeallocateApp a i g : keeps R (bal_DeallocateApp a i g);
  ik_AllocateAsset a i g : keeps R (bal_AllocateAsset a i g);
  ik_DeallocateAsset a i g : keeps R (bal_DeallocateAsset a i g);
  ik_StatefulEval gi txn i prog : keeps R (bal_StatefulEval gi txn i prog);
  ik_Move f t a fr tr : keeps R (bal_Move f t a fr tr) }.
Context (IK : interface_keeps).

Lemma keeps_throw {A} e : keeps R (throw (A := A) e).
Proof. intros s. apply Rrefl. Qed.
Lemma keeps_gets {A} (f : S -> A) : keeps R (gets f).
Proof. intros s. apply Rrefl. Qed.
Lemma keeps_throwIf b e : keeps R (throwIf b e).
Proof. intros s. apply Rrefl. Qed.
Lemma keeps_lift' {A} (r : outcome A) : keeps R (lift r).
Proof. intros s. apply Rrefl. Qed.
Lemma keeps_ret' {A} (a : A) : keeps R (mret a).
Proof. intros s. apply Rrefl. Qed.
Lemma keeps_attempt {A} (m : M S A) : keeps R m -> keeps R (attempt m).
Proof. intros Hm s. specialize (Hm s). unfold attempt. by destruct (m s) as [[]]. Qed.
Lemma keeps_seq {A B} (m : M S A) (k : A -> M S B) :
  keeps R m -> (forall a, keeps R (k a)) -> keeps R (m ≫= k).
Proof. intros. by apply keeps_bind. Qed.

(** Walk through a computation, branch by branch. *)
Ltac keeps_step :=
  first
    [ apply (ik_Get IK) | apply (ik_Put IK) | apply (ik_GetCreator IK) | apply (ik_AllocateApp IK)
    | apply (ik_DeallocateApp IK) | apply (ik_AllocateAsset IK) | apply (ik_DeallocateAsset IK)
    | apply (ik_StatefulEval IK) | apply (ik_Move IK)
    | apply keeps_ret' | apply keeps_throw | apply keeps_gets | apply keeps_throwIf | apply keeps_lift'
    | apply keeps_attempt
    | apply keeps_seq; [|intros ?]
    | progress cbv zeta
    | case_match; try discriminate ].
Ltac keeps_walk := repeat keeps_step.

Lemma keeps_Rekey tx : keeps R (Rekey tx).
Proof. unfold Rekey. keeps_walk. Qed.
Lemma keeps_Payment p h ad : keeps R (Payment p h ad).
Proof. unfold Payment, closeAccount. keeps_walk. Qed.
Lemma keeps_Keyreg k h sp r : keeps R (Keyreg k h sp r).
Proof. unfold Keyreg. keeps_walk. Qed.
Lemma keeps_getParams i : keeps R (getParams i).
Proof. unfold getParams. keeps_walk. Qed.
Lemma keeps_AssetConfig c h ad ctr : keeps R (AssetConfig c h ad ctr).
Proof. unfold AssetConfig, createAsset. repeat first [apply keeps_getParams | keeps_step]. Qed.
Lemma keeps_AssetTransfer c h ad : keeps R (AssetTransfer c h ad).
Proof.
  unfold AssetTransfer, optInAsset, closeAsset, takeOut, putIn.
  repeat first [apply keeps_getParams | keeps_step].
Qed.
Lemma keeps_AssetFreeze c h : keeps R (AssetFreeze c h).
Proof. unfold AssetFreeze. repeat first [apply keeps_getParams | keeps_step]. Qed.
Lemma keeps_ApplicationCall check ac h ad gi txn ctr : keeps R (ApplicationCall check ac h ad gi txn ctr).
Proof.
  unfold ApplicationCall, clearState, completion, createApplication, optInApplication, closeOutApplication,
    deleteApplication, updateApplication, getAppParams. keeps_walk.
Qed.

End keeps.

(** ** The copy-on-write ledger keeps its invariant *)

Section cow_keeps.
  Context (B : roundCowParent).

(** Leaving a child, by committing it or by dropping it, is a step of the parent. *)
Lemma child_commit_step h s calf : stack_wf B s -> step_ok B (child h s) calf ->
  exists s', commitToParent calf = (Ok tt, s') /\ step_ok B s s'.
Proof.
  intros Hwf ([Hcb Hps] & (Hhas & _) & Hsame). unfold commitToParent.
  destruct (cs_parents calf) as [|p rest] eqn:E; inversion Hsame as [|? ? ? ? Hp Hrest]; subst.
  destruct Hps as [Hpwf Hrestwf]. rewrite Hhas. cbn [child cs_cur cow_hasCommitParent make_child].
  destruct (commit_into_spec (parent_of B rest) p (cs_cur calf) Hpwf Hcb) as (q & Hq & H1 & H2 & H3 & _).
  rewrite Hq. eexists. split; [done|]. split; [split; [|done]|split; [|done]].
  - by apply (commit_wf _ p (cs_cur calf)).
  - unfold same_block. cbn. rewrite H1, H2, H3, Hp. done.
Qed.

Lemma child_discard_step h s calf : stack_wf B s -> step_ok B (child h s) calf -> step_ok B s (discard calf s).
Proof.
  intros Hwf (_ & _ & Hps). unfold discard.
  destruct (cs_parents calf) as [|p rest]; inversion Hps as [|? ? ? ? Hp Hrest]; subst. split_and!.
  - by eapply (chain_wf_caches B (cs_cur s :: cs_parents s)).
  - cbn. by rewrite Hp.
  - done.
Qed.

Lemma step_view s s' : Forall2 same_but_cache (cs_cur s :: cs_parents s) (cs_cur s' :: cs_parents s') ->
  cs_view B s' = cs_view B s.
Proof. intros Hs. by apply (parent_of_caches B (cs_cur s :: cs_parents s) (cs_cur s' :: cs_parents s')). Qed.

Lemma child_discard_view h s calf : step_ok B (child h s) calf -> cs_view B (discard calf s) = cs_view B s.
Proof.
  intros (_ & _ & Hps). unfold discard.
  destruct (cs_parents calf) as [|p rest]; inversion Hps; subst. apply step_view. by constructor.
Qed.

Context {V : Type} (evalContract : Z -> AppIndex -> string -> M (cowStack * V) (bool * EvalDelta)).

(** From a well-formed stack, a step. *)
Definition ok_step (s s' : cowStack * V) : Prop := stack_wf B s.1 -> step_ok B s.1 s'.1.

Lemma ok_step_refl s : ok_step s s.
Proof. intros Hwf. by apply step_ok_refl. Qed.
Lemma ok_step_trans x y z : ok_step x y -> ok_step y z -> ok_step x z.
Proof. intros H1 H2 Hx. specialize (H1 Hx). eapply step_ok_trans; [done|]. by apply H2, H1. Qed.

(** An interpreter that works on its own cow. *)
Definition interpreter_ok : Prop := forall gi aidx prog, keeps ok_step (evalContract gi aidx prog).
Context (Hvm : interpreter_ok).

Lemma keeps_onCow {A} (m : M cowStack A) :
  (forall s, stack_wf B s -> wp m (fun _ s' => step_ok B s s') s) -> keeps ok_step (onCow (V := V) m).
Proof. intros Hm [s v] Hwf. cbn in *. by apply Hm. Qed.

Lemma wp_state_same {A} (m : M cowStack A) s : (m s).2 = s -> stack_wf B s -> wp m (fun _ s' => step_ok B s s') s.
Proof. intros Hm Hwf. unfold wp. rewrite Hm. by apply step_ok_refl. Qed.

Lemma keeps_StatefulEval gi txn aidx prog :
  keeps ok_step (StatefulEval (evalContract gi aidx prog) txn aidx).
Proof.
  intros [s v] Hwf. cbn in Hwf. unfold StatefulEval.
  pose proof (Hvm gi aidx prog (child 1 s, v) (child_wf B 1 s Hwf)) as Hst.
  destruct (evalContract gi aidx prog (child 1 s, v)) as [r [calf v']]. cbn in Hst.
  pose proof (child_discard_step 1 s calf Hwf Hst) as Hd.
  destruct (child_commit_step 1 s calf Hwf Hst) as (s' & Hc & Hs').
  destruct r as [[[] ed]|e|]; [|done|done|by apply step_ok_refl].
  rewrite Hc. destruct (if proto_LogicSigVersion _ <? 6 then _ else _) as [ed'|e|];
    [done|done|by apply step_ok_refl].
Qed.

Lemma cow_Move_step s from to amt fr tr : stack_wf B s ->
  wp (cow_Move B from to amt fr tr) (fun _ s' => step_ok B s s') s.
Proof.
  intros Hwf. pose proof (step_ok_refl s Hwf) as Hrefl. unfold cow_Move. wp_step.
  apply wp_bind. unfold lookup, asks, wp at 1. cbn [fst snd].
  destruct (par_lookup (cs_view B s) from) as [df| |]; cbn [andThen]; [|done..].
  apply wp_bind, wp_lift. destruct (WithUpdatedRewards _ _ _); cbn [andThen]; [|done..].
  apply wp_bind, wp_lift. destruct (trackRewards _ _ _); cbn [andThen]; [|done..].
  destruct (OSubA _ _) as [n o]. apply wp_bind, wp_throwIf; cbn [andThen]; intros _; [done|].
  apply wp_bind. eapply wp_mono; [by apply cow_Put_wp|]. intros r s1 (-> & Hst1 & _). cbn [andThen].
  apply wp_bind. unfold lookup, asks, wp at 1. cbn [fst snd].
  destruct (par_lookup (cs_view B s1) to) as [dt| |]; cbn [andThen]; [|done..].
  apply wp_bind, wp_lift. destruct (WithUpdatedRewards _ _ dt); cbn [andThen]; [|done..].
  apply wp_bind, wp_lift. destruct (trackRewards tr _ _); cbn [andThen]; [|done..].
  destruct (OAddA _ _) as [n' o']. apply wp_bind, wp_throwIf; cbn [andThen]; intros _; [done|].
  apply wp_bind. eapply wp_mono; [apply cow_Put_wp, Hst1|]. intros r s2 (-> & Hst2 & _). cbn [andThen].
  wp_step. by eapply step_ok_trans.
Qed.

#[local] Instance keeps_Balances : Balances (cowStack * V) := cow_Balances B evalContract.

Lemma cow_interface_keeps : interface_keeps ok_step.
Proof.
  split; intros.
  - apply keeps_onCow. intros s Hwf. apply wp_state_same; [|done]. unfold cow_Get, lookup, asks, mbind, M_bind.
    destruct (par_lookup _ _); [|done..]. by destruct w.
  - apply keeps_onCow. intros s Hwf. eapply wp_mono; [by apply cow_Put_wp|]. by intros r s' (_ & ? & _).
  - apply keeps_onCow. intros s Hwf. by apply wp_state_same.
  - apply keeps_onCow. intros s Hwf. eapply wp_mono; [by apply AllocateApp_wp|]. by intros r s' [? _].
  - apply keeps_onCow. intros s Hwf. eapply wp_mono; [by apply DeallocateApp_wp|]. by intros r s' [? _].
  - apply keeps_onCow. intros s Hwf. unfold AllocateAsset. apply wp_if; intros _;
      (eapply wp_mono; [by apply step_ok_mods|by intros r s' [_ ?]]).
  - apply keeps_onCow. intros s Hwf. unfold DeallocateAsset. apply wp_if; intros _;
      (eapply wp_mono; [by apply step_ok_mods|by intros r s' [_ ?]]).
  - apply keeps_StatefulEval.
  - apply keeps_onCow. intros s Hwf. by apply cow_Move_step.
Qed.

End cow_keeps.

(** ** Transaction groups *)

Section evaluator.
  Context (I : Interpreter) (H : Hashes).
  Context (Verify : CompactCertVerifierParams -> list Z -> CertBuilder.Cert -> outcome unit).
  Context (ev : BlockEvaluator).
#[local] Notation B := (ev_base ev).
#[local] Notation R := (ok_step (V := vm_state I) B).
Context (Hvm : interpreter_ok B (vm_EvalContract I B)).
#[local] Instance the_Balances : Balances (cowStack * vm_state I) := eval_Balances I ev.

Lemma eval_interface_keeps : interface_keeps R.
Proof. by apply cow_interface_keeps. Qed.

Lemma keeps_wrapM {S A} (Q : S -> S -> Prop) e (m : M S A) : keeps Q m -> keeps Q (wrapM e m).
Proof. intros Hm s. specialize (Hm s). unfold wrapM. by destruct (m s). Qed.

Lemma keeps_pure {A} (m : M cowStack A) : (forall s, (m s).2 = s) -> keeps R (onCow (V := vm_state I) m).
Proof. intros Hm. apply keeps_onCow. intros s Hwf. by apply wp_state_same. Qed.

Ltac walk :=
  repeat first
    [ apply (ik_Move _ eval_interface_keeps) | apply keeps_ret'; apply ok_step_refl | apply keeps_throw; apply ok_step_refl
    | apply keeps_gets; apply ok_step_refl | apply keeps_throwIf; apply ok_step_refl
    | apply keeps_lift'; apply ok_step_refl | apply keeps_wrapM
    | apply keeps_bind; [apply ok_step_trans|..|intros ?] | progress cbv zeta | case_match; try discriminate ].

Lemma keeps_payVoters sender reward voters : forall ad, keeps R (payVoters I ev sender reward voters ad).
Proof. induction voters as [|a l IH]; intros ad; cbn; walk. apply IH. Qed.

Lemma keeps_payFee h : keeps R (payFee I ev h).
Proof. unfold payFee. walk. apply keeps_payVoters. Qed.

Lemma keeps_compactCert rnd t c at_ v : keeps R (onCow (V := vm_state I) (cow_compactCert B Verify rnd t c at_ v)).
Proof.
  apply keeps_onCow. intros s Hwf. pose proof (step_ok_refl s Hwf) as Hrefl. unfold cow_compactCert.
  apply wp_bind, wp_throwIf; cbn [andThen]; intros _; [done|]. wp_step.
  apply wp_bind. unfold asks, wp at 1. cbn [fst snd]. destruct (par_blockHdr _ _) as [ch| |]; cbn [andThen]; [|done..].
  apply wp_bind. eapply (wp_mono _ (fun _ s' => s' = s)).
  - apply wp_if; intros _; [|by wp_step]. apply wp_bind. unfold asks, wp at 1. cbn [fst snd].
    destruct (par_blockHdr _ _); done.
  - intros r s' ->. destruct r; cbn [andThen]; [|done..]. unfold modify_cur. wp_step.
    apply (step_ok_cur B s (setCompactCertNext _)); [done|done|]. destruct Hwf as [[Ha Hs] _]. by split.
Qed.

Ltac seq := apply keeps_bind; [apply ok_step_trans | | intros ?].
Ltac by_interface L := apply L; [apply ok_step_refl | apply ok_step_trans | apply eval_interface_keeps].

Lemma keeps_applyType tx gi ctr ad : keeps R (applyType I Verify ev tx gi ctr ad).
Proof.
  unfold applyType. destruct (tx_Type tx); cbv zeta.
  - by_interface (keeps_Payment (S := cowStack * vm_state I) R).
  - seq; [walk|]. seq; [by_interface (keeps_Keyreg (S := cowStack * vm_state I) R)|walk].
  - by_interface (keeps_AssetConfig (S := cowStack * vm_state I) R).
  - by_interface (keeps_AssetTransfer (S := cowStack * vm_state I) R).
  - seq; [by_interface (keeps_AssetFreeze (S := cowStack * vm_state I) R)|walk].
  - by_interface (keeps_ApplicationCall (S := cowStack * vm_state I) R).
  - seq; [|walk]. case_match; [apply keeps_compactCert|walk].
  - walk.
  - walk.
Qed.

Lemma keeps_applyTransaction tx gi ctr : keeps R (applyTransaction I Verify ev tx gi ctr).
Proof.
  unfold applyTransaction. seq; [walk|]. seq; [apply keeps_payFee|].
  seq; [by_interface (keeps_Rekey (S := cowStack * vm_state I) R)|].
  seq; [apply keeps_applyType|]. seq; [|walk]. intros s Hwf. cbn. by apply step_ok_refl.
Qed.

Lemma addTx_step s txn txid : stack_wf B s ->
  step_ok B s (s <| cs_cur := addTx txn txid (cs_cur s) |>).
Proof.
  intros Hwf. apply (step_ok_cur B s (addTx txn txid)); [done| |].
  - unfold addTx. by destruct (negb _).
  - destruct Hwf as [[Ha Hs] _]. unfold addTx. destruct (negb _); split; done.
Qed.

Lemma keeps_transaction txn gi ad : keeps R (transaction I H Verify ev txn gi ad).
Proof.
  unfold transaction. cbv zeta. seq.
  { case_match; [|walk]. seq; [walk|]. seq; [by apply keeps_pure|]. apply keeps_pure. intros s.
    unfold checkAuthorizer, lookup, asks, mbind, M_bind. by destruct (par_lookup _ _). }
  seq; [walk|]. seq; [apply keeps_wrapM, keeps_applyTransaction|]. seq; [walk|]. seq; [walk|].
  seq; [case_match; [apply keeps_wrapM; by apply keeps_pure|walk]|].
  seq; [|walk]. apply keeps_onCow. intros s Hwf. unfold modify_cur. wp_step. by apply addTx_step.
Qed.

Lemma keeps_group_loop first n txads : forall gi acc, keeps R (group_loop I H Verify ev first n gi txads acc).
Proof.
  induction txads as [|txad rest IH]; intros gi [[txibs hashes] bytes]; cbn [group_loop]; [walk|].
  seq; [apply keeps_transaction|]. cbv zeta. seq; [walk|]. seq; [walk|]. apply IH.
Qed.

(** What the loop accumulates. *)
Lemma group_loop_facts first n txads : forall gi txibs hashes bytes txibs' hashes' bytes' s s',
  group_loop I H Verify ev first n gi txads (txibs, hashes, bytes) s = (Ok (txibs', hashes', bytes'), s') ->
  length txibs' = (length txibs + length txads)%nat /\
  Forall (fun txad => stx_group (stad_SignedTxn txad) = first) txads /\
  (txads <> [] -> 1 < n -> first <> 0) /\
  hashes' = hashes ++ (if first =? 0 then []
                       else map (fun txad => h_Txn H (without_group (stx_Txn (stad_SignedTxn txad)))) txads) /\
  (ev_validate ev = true -> ev_blockTxBytes ev + bytes <= ev_maxTxnBytesPerBlock ev \/ txads <> [] ->
   ev_blockTxBytes ev + bytes' <= ev_maxTxnBytesPerBlock ev) /\
  (ev_validate ev = false -> bytes' = bytes).
Proof.
  induction txads as [|txad rest IH]; intros gi txibs hashes bytes txibs' hashes' bytes' s s' Hrun; cbn in Hrun.
  { apply ret_Ok in Hrun as [[= -> -> ->] ->]. split_and!; [cbn; lia|constructor|done| |by intros _ []|done].
    by destruct (first =? 0); rewrite app_nil_r. }
  apply bind_Ok in Hrun as (txib & s1 & _ & Hrun). apply bind_Ok in Hrun as (u & s2 & Hb & Hrun).
  apply throwIf_Ok in Hb as [Hb ->]. apply bind_Ok in Hrun as (hs & s3 & Hh & Hrun).
  apply lift_Ok in Hh as [Hh ->]. unfold groupMember in Hh. okinv Hh.
  rewrite negb_false_iff, Z.eqb_eq in Ho. apply IH in Hrun as (Hl & Hall & Hnz & Hhs & Hby & Hbv).
  rewrite length_app in Hl. cbn in Hl. fold (stx_group (stad_SignedTxn txad)) in *.
  rewrite Ho in Hh. split_and!.
  - cbn. lia.
  - by constructor.
  - intros _ Hn. destruct (Z.eqb_spec first 0) as [->|]; [|done]. cbn in Hh. okinv Hh.
    rewrite Z.ltb_ge in Ho0. lia.
  - rewrite Hhs. destruct (Z.eqb_spec first 0) as [->|]; cbn in Hh; okinv Hh; subst hs; cbn.
    + done.
    + by rewrite <- app_assoc.
  - intros Hv _. apply Hby; [done|left]. rewrite Hv in *. cbn in Hb. by rewrite Z.ltb_ge in Hb.
  - intros Hv. rewrite Hbv, Hv by done. done.
Qed.

End evaluator.

(** C1 (safety): a transaction group is atomic: when any transaction of the group
    fails (or the group is malformed), the evaluator is what it was before the
    group, the payset, the byte count and everything the ledger shows included;
    and the representation invariant of the cow stack is kept on success and on
    failure. *)
Theorem transactionGroup_atomic I H Verify ev txgroup r ev' :
  interpreter_ok (ev_base ev) (vm_EvalContract I (ev_base ev)) -> stack_wf (ev_base ev) (ev_state ev) ->
  transactionGroup I H Verify txgroup ev = (r, ev') -> r <> Panic ->
  stack_wf (ev_base ev') (ev_state ev') /\ ev_base ev' = ev_base ev /\
  (forall e, r = Err e ->
     ev_block ev' = ev_block ev /\ ev_blockTxBytes ev' = ev_blockTxBytes ev /\ ev_view ev' = ev_view ev).
Proof.
  intros Hvm Hwf Hrun Hnp. unfold transactionGroup in Hrun.
  destruct txgroup as [|txad0 rest]; [injection Hrun as <- <-; by split_and!|].
  destruct (proto_MaxTxGroupSize _ <? _); [injection Hrun as <- <-; by split_and!|].
  set (txgroup := txad0 :: rest) in *. set (n := llen txgroup) in *.
  set (vm := vm_NewEvalParams I txgroup _ _) in *. set (first := stx_group _) in *.
  pose proof (keeps_group_loop I H Verify ev Hvm first n txgroup 0 ([], [], 0) (child n (ev_state ev), vm)
                (child_wf _ n _ Hwf)) as Hst.
  destruct (group_loop _ _ _ _ _ _ _ _ _ _) as [res [cow' vm']]. cbn in Hst.
  pose proof (child_discard_step _ n _ _ Hwf Hst) as [Hd _].
  pose proof (child_discard_view _ n _ _ Hst) as Hv.
  destruct res as [[[txibs hashes] bytes]|e|]; [|injection Hrun as <- <-; by split_and!|congruence].
  destruct (groupComplete _ _ _) as [u|e|]; [|injection Hrun as <- <-; by split_and!|congruence].
  destruct (child_commit_step _ n _ _ Hwf Hst) as (s' & Hc & Hs' & _). rewrite Hc in Hrun.
  injection Hrun as <- <-. by split_and!.
Qed.

(** An accepted group is a group: at most the maximum size, all
    members with the same group id, a nonzero one if there are several, equal to
    the hash of the members; the payset grows by exactly its members, and a
    validated block never exceeds the byte limit. *)
Theorem transactionGroup_complete I H Verify ev txad0 rest ev' :
  transactionGroup I H Verify (txad0 :: rest) ev = (Ok tt, ev') ->
  let txgroup := txad0 :: rest in
  let first := stx_group (stad_SignedTxn txad0) in
  llen txgroup <= proto_MaxTxGroupSize (ev_proto ev) /\
  Forall (fun txad => stx_group (stad_SignedTxn txad) = first) txgroup /\
  (rest <> [] -> first <> 0) /\
  (first <> 0 -> first = h_TxGroup H (map (fun txad => h_Txn H (without_group (stx_Txn (stad_SignedTxn txad)))) txgroup)) /\
  (exists txibs, length txibs = length txgroup /\
     blk_Payset (ev_block ev') = blk_Payset (ev_block ev) ++ txibs) /\
  (ev_validate ev = true -> ev_blockTxBytes ev' <= ev_maxTxnBytesPerBlock ev) /\
  (ev_validate ev = false -> ev_blockTxBytes ev' = ev_blockTxBytes ev).
Proof.
  intros Hrun txgroup first. unfold transactionGroup in Hrun. fold txgroup first in Hrun.
  destruct (Z.ltb_spec (proto_MaxTxGroupSize (ev_proto ev)) (llen txgroup)) as [|Hmax]; [discriminate|].
  destruct (group_loop _ _ _ _ _ _ _ _ _ _) as [res [cow' vm']] eqn:Eg.
  destruct res as [[[txibs hashes] bytes]|e|]; [|discriminate..].
  apply group_loop_facts in Eg as (Hl & Hall & Hnz & Hh & Hby & Hbv).
  destruct (groupComplete H first hashes) as [u|e|] eqn:Egc; [|discriminate..].
  destruct (commitToParent cow') as [rc s']. injection Hrun as -> <-. cbn.
  split_and!; [done|done| | | | |].
  - intros Hrest. apply Hnz; [done|]. unfold txgroup, llen. destruct rest; [done|]. cbn. lia.
  - intros Hf. rewrite (proj2 (Z.eqb_neq _ _) Hf) in Hh. cbn in Hh. subst hashes. unfold groupComplete in Egc. cbn in Egc.
    apply failIf_Ok in Egc. by rewrite negb_false_iff, Z.eqb_eq in Egc.
  - exists txibs. done.
  - intros Hv. apply Hby; [done|]. by right.
  - intros Hv. rewrite Hbv by done. lia.
Qed.

(** An evaluator over the ledger of [ApplyCorrect.market], with an interpreter
    that runs no programs. *)
Definition demo_vm : Interpreter :=
  mkInterpreter unit (fun _ _ _ => tt) (fun _ _ v => v) (fun _ _ _ _ => throw (Errorf "no interpreter")) (fun _ _ => Ok tt).
Definition demo_hashes : Hashes :=
  mkHashes (fun h => bh_Round h) (fun l => llen l) (fun l => Ok (llen l))
    (fun tx => hdr_Fee (tx_Header tx) + pay_Amount (tx_Payment tx)) (fun l => sumZ id l + 7) 0 (fun _ => 200).
Definition no_certs : CompactCertVerifierParams -> list Z -> CertBuilder.Cert -> outcome unit :=
  fun _ _ _ => Err (Errorf "no certificates").
Definition demo_ledger : LedgerForEvaluator :=
  mkLedgerForEvaluator market_ledger 77 (Ok (1000, AccountTotals_zero)) (fun _ => Ok None).
Definition demo_ev (voters : list Address) : BlockEvaluator :=
  mkBlockEvaluator market market_stack true true sample_header v31 77 (mkBlock sample_header []) 0
    (mkSpecialAddresses 1 2) false demo_ledger 1000000 voters.
Definition demo_pay (amount : Z) (group : Digest) : SignedTxnWithAD :=
  mkSignedTxnWithAD
    (mkSignedTxn 1 MultisigSig_zero LogicSig_zero
       (mkTransaction PaymentTx (mkHeader 8 1000 1 2000 "" "" 77 group 0 0) KeyregTxnFields_zero
          (mkPaymentTxnFields 6 amount 0) AssetConfigTxnFields_zero AssetTransferTxnFields_zero
          AssetFreezeTxnFields_zero ApplicationCallTxnFields_zero CompactCertTxnFields_zero
          AddressPrintTxnFields_zero) 0) ApplyData_zero.

Lemma demo_vm_ok : interpreter_ok market (vm_EvalContract demo_vm market).
Proof. intros gi aidx prog s Hwf. by apply step_ok_refl. Qed.

(** The second payment of the group overspends: the first one is undone. *)
Lemma transactionGroup_atomic_witness :
  exists e ev', transactionGroup demo_vm demo_hashes no_certs [demo_pay 500000 9; demo_pay 5000000 9] (demo_ev [])
                  = (Err e, ev') /\ ev_view ev' = ev_view (demo_ev []).
Proof.
  assert (match (transactionGroup demo_vm demo_hashes no_certs [demo_pay 500000 9; demo_pay 5000000 9] (demo_ev [])).1
          with Err _ => True | _ => False end) as Hr by (vm_compute; exact Logic.I).
  destruct (transactionGroup demo_vm demo_hashes no_certs [demo_pay 500000 9; demo_pay 5000000 9] (demo_ev []))
    as [r ev'] eqn:E. cbn in Hr. destruct r as [|e|]; [destruct Hr| |destruct Hr].
  exists e, ev'. split; [reflexivity|].
  destruct (transactionGroup_atomic demo_vm demo_hashes no_certs (demo_ev [])
              [demo_pay 500000 9; demo_pay 5000000 9] (Err e) ev' demo_vm_ok (proj1 market_inv) E)
    as (_ & _ & Herr); [discriminate|]. by destruct (Herr e eq_refl) as (_ & _ & Hv).
Defined.

Lemma transactionGroup_complete_witness :
  exists ev', transactionGroup demo_vm demo_hashes no_certs [demo_pay 500000 502507; demo_pay 500 502507] (demo_ev [])
                = (Ok tt, ev') /\ ev_blockTxBytes ev' <= 1000000.
Proof.
  assert ((transactionGroup demo_vm demo_hashes no_certs [demo_pay 500000 502507; demo_pay 500 502507] (demo_ev [])).1
          = Ok tt) as Hr by (vm_compute; reflexivity).
  destruct (transactionGroup demo_vm demo_hashes no_certs [demo_pay 500000 502507; demo_pay 500 502507] (demo_ev []))
    as [r ev'] eqn:E. cbn in Hr. subst r.
  exists ev'. split; [reflexivity|].
  destruct (transactionGroup_complete demo_vm demo_hashes no_certs (demo_ev []) (demo_pay 500000 502507)
              [demo_pay 500 502507] ev' E) as (_ & _ & _ & _ & _ & Hb & _).
  exact (Hb eq_refl).
Defined.

(** ** Minimum balances *)

Lemma each_ok_elem {A} (f : A -> outcome unit) l u a : each_ok f l = Ok u -> a ∈ l -> f a = Ok tt.
Proof.
  induction l as [|b l IH]; intros Hl Ha; [set_solver|]. cbn in Hl. okinv Hl. destruct a0.
  apply elem_of_cons in Ha as [->|Ha]; auto.
Qed.

Lemma wrapM_Ok {S A} e (m : M S A) s a s' : wrapM e m s = (Ok a, s') -> m s = (Ok a, s').
Proof. unfold wrapM. destruct (m s) as [[]]; cbn; congruence. Qed.

(** C33 (safety): after a transaction is accepted by an evaluator that validates or
    generates, every account the group has modified so far, other than the fee
    sink, the rewards pool and the compact-cert sender, is empty or holds at
    least its minimum balance, with its rewards applied, and within the maximum
    the protocol allows. *)
Theorem transaction_keeps_min_balance I H Verify ev txn gi ad s v txib s' v' addr :
  transaction I H Verify ev txn gi ad (s, v) = (Ok txib, (s', v')) ->
  ev_validate ev || ev_generate ev = true ->
  addr ∈ modifiedAccounts (cs_cur s') ->
  addr <> rs_FeeSink (bh_RewardsState (ev_header ev)) -> addr <> rs_RewardsPool (bh_RewardsState (ev_header ev)) ->
  addr <> h_CompactCertSender H ->
  exists d, par_lookup (cs_view (ev_base ev) s') addr = Ok d /\
    (AccountData_IsZero d = true \/
     exists d', WithUpdatedRewards (ev_proto ev) (rewardsLevel (cs_cur s')) d = Ok d' /\
       MinBalance (ev_proto ev) d' <= acct_MicroNovas d' /\
       (proto_MaximumMinimumBalance (ev_proto ev) <> 0 ->
        MinBalance (ev_proto ev) d' <= proto_MaximumMinimumBalance (ev_proto ev))).
Proof.
  intros Hrun Hmode Hin Hn1 Hn2 Hn3. unfold transaction in Hrun. cbv zeta in Hrun.
  do 5 (apply bind_Ok in Hrun as (? & ? & _ & Hrun)). apply bind_Ok in Hrun as (u & [s1 v1] & Hmin & Hrun).
  rewrite Hmode in Hmin. apply wrapM_Ok in Hmin. unfold onCow, checkMinBalance in Hmin. cbn in Hmin.
  injection Hmin as Hmin <- <-. apply bind_Ok in Hrun as (u' & [s2 v2] & Hadd & Hrun).
  unfold onCow, modify_cur, modify in Hadd. injection Hadd as _ <- <-. apply ret_Ok in Hrun as [-> [= -> ->]].
  set (s1 := x8.1) in *. set (s' := s1 <| cs_cur := _ |>) in *.
  assert (sd_Accts (cow_mods (cs_cur s')) = sd_Accts (cow_mods (cs_cur s1)) /\
          rewardsLevel (cs_cur s') = rewardsLevel (cs_cur s1)) as [Ha Hl]
    by (unfold s', addTx; cbn; by destruct (negb _)).
  unfold modifiedAccounts in Hin. rewrite Ha in Hin. pose proof (each_ok_elem _ _ _ _ Hmin Hin) as Hok.
  unfold minBalanceOk in Hok. rewrite !(proj2 (Z.eqb_neq _ _)) in Hok by done. cbn [orb] in Hok.
  assert (par_lookup (cs_view (ev_base ev) s') addr = par_lookup (cs_view (ev_base ev) s1) addr) as ->
    by (unfold s'; cbn; unfold cow_lookup; cbn; unfold s' in Ha; cbn in Ha; by rewrite Ha).
  okinv Hok. exists a. split; [done|]. destruct (AccountData_IsZero a); [by left|right].
  okinv Hok. exists a0. rewrite Hl. rewrite Z.ltb_ge in Ho1. split_and!; [done|done|].
  intros Hnz. rewrite (proj2 (Z.eqb_neq _ _) Hnz) in Hok. cbn in Hok. by rewrite Z.ltb_ge in Hok.
Qed.

Lemma transaction_keeps_min_balance_witness :
  exists txib s' v' d,
    transaction demo_vm demo_hashes no_certs (demo_ev []) (stad_SignedTxn (demo_pay 500000 0)) 0 ApplyData_zero
      (child 1 market_stack, tt) = (Ok txib, (s', v')) /\
    par_lookup (cs_view market s') 8 = Ok d.
Proof.
  assert (match (transaction demo_vm demo_hashes no_certs (demo_ev []) (stad_SignedTxn (demo_pay 500000 0)) 0
             ApplyData_zero (child 1 market_stack, tt)) with
          | (Ok _, (s', _)) => bool_decide (8 ∈ modifiedAccounts (cs_cur s'))
          | _ => false
          end = true) as Hr by (vm_compute; reflexivity).
  destruct (transaction demo_vm demo_hashes no_certs (demo_ev []) (stad_SignedTxn (demo_pay 500000 0)) 0
              ApplyData_zero (child 1 market_stack, tt)) as [[txib|e|] [s' v']] eqn:E;
    [|discriminate Hr|discriminate Hr].
  destruct (transaction_keeps_min_balance demo_vm demo_hashes no_certs (demo_ev []) (stad_SignedTxn (demo_pay 500000 0))
              0 ApplyData_zero (child 1 market_stack) tt txib s' v' 8 E) as (d & Hd & _).
  - reflexivity.
  - by apply bool_decide_eq_true in Hr.
  - discriminate.
  - discriminate.
  - discriminate.
  - exists txib, s', v', d. split; [reflexivity|exact Hd].
Defined.

(** ** Expired accounts *)

Lemma collect_expired_spec accts rnd max addrs : accts_wf accts -> forall acc,
  exists l, collect_expired accts rnd max addrs acc = Ok (acc ++ l) /\ l `sublist_of` addrs /\
    Forall (fun a => exists d, accts_map accts !! a = Some d /\ expired d rnd = true) l /\
    (llen (acc ++ l) <= max \/ l = []).
Proof.
  intros Hwf. induction addrs as [|a addrs IH]; intros acc; cbn.
  { exists []. rewrite app_nil_r. split_and!; auto. }
  destruct (Z.ltb_spec (llen acc) max) as [Hlt|Hge].
  2: { exists []. rewrite app_nil_r. split_and!; auto using sublist_nil_l. }
  rewrite Get_spec by done. cbv [mbind outcome_bind].
  destruct (accts_map accts !! a) as [d|] eqn:Ed; [destruct (expired d rnd) eqn:Ee|].
  - destruct (IH (acc ++ [a])) as (l & -> & Hsub & Hall & Hmax). exists (a :: l).
    rewrite <- app_assoc in *. split_and!; [done|by constructor|constructor; eauto|].
    left. destruct Hmax as [Hmax| ->]; [exact Hmax|]. unfold llen in *. rewrite length_app. cbn. lia.
  - destruct (IH acc) as (l & -> & Hsub & Hall & Hmax). exists l. split_and!; auto using sublist_cons.
  - destruct (IH acc) as (l & -> & Hsub & Hall & Hmax). exists l. split_and!; auto using sublist_cons.
Qed.

Lemma validate_expired_ok P rnd l : forall (seen : gset Z), NoDup l -> (forall a, a ∈ l -> a ∉ seen) ->
  Forall (fun a => exists d, par_lookup P a = Ok d /\ expired d rnd = true) l ->
  validate_expired P rnd l seen = Ok tt.
Proof.
  induction l as [|a l IH]; intros seen Hnd Hseen Hall; cbn; [done|].
  apply NoDup_cons in Hnd as [Hnin Hnd]. apply Forall_cons in Hall as [(d & Hd & He) Hall].
  unfold expired in He. rewrite andb_true_iff in He. destruct He as [Ho Hl].
  rewrite (bool_decide_false (a ∈ seen)) by (apply Hseen; left). rewrite Hd.
  cbv [mbind outcome_bind wrapErr failIf]. rewrite Ho, Hl. cbn [negb].
  apply IH; [done| |done]. intros b Hb. set_solver.
Qed.

(** The list of expired accounts a proposer puts in its block
    passes the validation every other node runs: at most the protocol's maximum,
    no duplicates, every account online with keys that expired before this
    round. *)
Theorem generated_expired_valid ev :
  stack_wf (ev_base ev) (ev_state ev) -> ev_generate ev = true ->
  bh_ExpiredParticipationAccounts (ev_header ev) = [] ->
  0 <= proto_MaxProposedExpiredOnlineAccounts (ev_proto ev) ->
  exists ev', generateExpiredOnlineAccountsList ev = (Ok tt, ev') /\
    ev_state ev' = ev_state ev /\ validateExpiredOnlineAccounts ev' = Ok tt /\
    Forall (fun a => exists d, par_lookup (ev_view ev) a = Ok d /\ acct_Status d = Online /\
      acct_VoteLastValid d < ev_Round ev) (bh_ExpiredParticipationAccounts (ev_header ev')).
Proof.
  intros Hwf Hgen Hempty Hmax. unfold generateExpiredOnlineAccountsList. rewrite Hgen, Hempty. cbn [negb].
  pose proof Hwf as [[Hacc _] _].
  destruct (collect_expired_spec _ (ev_Round ev) (proto_MaxProposedExpiredOnlineAccounts (ev_proto ev))
              (ModifiedAccounts (sd_Accts (cow_mods (cs_cur (ev_state ev))))) Hacc []) as (l & -> & Hsub & Hall & Hlen).
  assert (Forall (fun a => exists d, par_lookup (ev_view ev) a = Ok d /\ expired d (ev_Round ev) = true) l) as Hall'.
  { eapply Forall_impl; [exact Hall|]. intros a (d & Hd & He). exists d. split; [|done].
    unfold ev_view. rewrite cs_view_lookup by done. by rewrite Hd. }
  eexists. split_and!; [done|done| |].
  - unfold validateExpiredOnlineAccounts. cbn. destruct (ev_validate ev); cbn; [|done].
    assert (llen l <= proto_MaxProposedExpiredOnlineAccounts (ev_proto ev)) as Hle
      by (destruct Hlen as [?| ->]; done).
    rewrite (proj2 (Z.ltb_ge _ _) Hle). cbn. apply validate_expired_ok; [|set_solver|exact Hall'].
    eapply sublist_NoDup; [|exact Hsub]. apply Hacc.
  - cbn. eapply Forall_impl; [exact Hall'|]. intros a (d & Hd & He). exists d. unfold expired in He.
    rewrite andb_true_iff, bool_decide_eq_true, Z.ltb_lt in He. done.
Qed.

(** The market with account 6, online with expired keys, modified in the block. *)
Definition expired_stack : cowStack :=
  (cow_Put 6 (MakeAccountData Online 7000000 <| acct_VoteLastValid := 900 |>) market_stack).2.
Definition expired_ev : BlockEvaluator := demo_ev [] <| ev_state := expired_stack |>.

Lemma expired_stack_wf : stack_wf market expired_stack.
Proof.
  destruct (cow_Put_wp market market_stack 6 (MakeAccountData Online 7000000 <| acct_VoteLastValid := 900 |>)
              (proj1 market_inv)) as (_ & [Hwf _] & _). exact Hwf.
Qed.

Lemma generated_expired_valid_witness :
  exists ev', generateExpiredOnlineAccountsList expired_ev = (Ok tt, ev') /\
    bh_ExpiredParticipationAccounts (ev_header ev') = [6] /\ validateExpiredOnlineAccounts ev' = Ok tt.
Proof.
  destruct (generated_expired_valid expired_ev) as (ev' & Hrun & _ & Hval & _).
  - exact expired_stack_wf.
  - reflexivity.
  - reflexivity.
  - vm_compute. congruence.
  - exists ev'. split_and!; [exact Hrun| |exact Hval].
    assert (bh_ExpiredParticipationAccounts (ev_header (generateExpiredOnlineAccountsList expired_ev).2) = [6])
      as Hl by (vm_compute; reflexivity). rewrite Hrun in Hl. exact Hl.
Defined.

Lemma resetExpired_wp B s addr : stack_wf B s ->
  wp (resetExpired B addr) (fun r s' => step_ok B s s' /\ (r = Ok tt ->
    exists d, par_lookup (cs_view B s) addr = Ok d /\
      forall a, par_lookup (cs_view B s') a =
        if decide (a = addr) then Ok (ClearOnlineState d) else par_lookup (cs_view B s) a)) s.
Proof.
  intros Hwf. unfold resetExpired, wrapM, lookup, asks. apply wp_bind. unfold wp at 1. cbn [fst snd].
  destruct (par_lookup (cs_view B s) addr) as [d| |] eqn:Ed; cbn [wrapErr andThen];
    [|split; [by apply step_ok_refl|done]..].
  eapply wp_mono; [by apply cow_Put_wp|]. intros r s' (-> & Hst & Hput). split; [done|]. intros _. eauto.
Qed.

Lemma ClearOnlineState_twice d : ClearOnlineState (ClearOnlineState d) = ClearOnlineState d.
Proof. reflexivity. Qed.

Lemma reset_all_wp B l : forall s, stack_wf B s ->
  wp (mforeach (resetExpired B) l) (fun r s' => step_ok B s s' /\ (r = Ok tt -> forall a,
    if decide (a ∈ l) then exists d, par_lookup (cs_view B s) a = Ok d /\
                              par_lookup (cs_view B s') a = Ok (ClearOnlineState d)
    else par_lookup (cs_view B s') a = par_lookup (cs_view B s) a)) s.
Proof.
  induction l as [|addr l IH]; intros s Hwf; cbn [mforeach].
  { wp_step. split; [by apply step_ok_refl|]. intros _ a. rewrite decide_False by apply not_elem_of_nil. reflexivity. }
  apply wp_bind. eapply wp_mono; [by apply resetExpired_wp|]. intros r s1 [Hst1 Hr1].
  destruct r as [[]| |]; cbn [andThen]; [|by split..]. destruct (Hr1 eq_refl) as (d & Hd & Hput).
  eapply wp_mono; [apply IH, Hst1|]. intros r s2 [Hst2 Hr2]. split; [by eapply step_ok_trans|].
  intros Hr a. specialize (Hr2 Hr a). destruct (decide (a = addr)) as [->|Hne].
  - rewrite decide_True by constructor. exists d. split; [done|]. rewrite Hput, (decide_True (P := addr = addr)) in Hr2 by done.
    destruct (decide (addr ∈ l)); [|done]. destruct Hr2 as (d' & [= <-] & ->). by rewrite ClearOnlineState_twice.
  - rewrite Hput, (decide_False (P := a = addr)) in Hr2 by done. destruct (decide (a ∈ l)).
    + rewrite decide_True by (by constructor). exact Hr2.
    + rewrite decide_False by (by rewrite elem_of_cons; intros [?|?]). exact Hr2.
Qed.

(** At the end of a block every listed expired account goes
    offline with its participation keys cleared and its money untouched, and no
    other account changes. *)
Theorem expired_accounts_reset ev ev' :
  stack_wf (ev_base ev) (ev_state ev) ->
  resetExpiredOnlineAccountsParticipationKeys ev = (Ok tt, ev') ->
  stack_wf (ev_base ev') (ev_state ev') /\
  forall a,
    if decide (a ∈ bh_ExpiredParticipationAccounts (ev_header ev)) then
      exists d d', par_lookup (ev_view ev) a = Ok d /\ par_lookup (ev_view ev') a = Ok d' /\
        acct_Status d' = Offline /\ acct_VoteID d' = 0 /\ acct_SelectionID d' = 0 /\ acct_VoteLastValid d' = 0 /\
        acct_MicroNovas d' = acct_MicroNovas d /\ acct_Assets d' = acct_Assets d /\ acct_AppParams d' = acct_AppParams d
    else par_lookup (ev_view ev') a = par_lookup (ev_view ev) a.
Proof.
  intros Hwf Hrun. unfold resetExpiredOnlineAccountsParticipationKeys in Hrun.
  apply bind_Ok in Hrun as (e & ev1 & Hg & Hrun). apply gets_Ok in Hg as [-> ->]. cbn [id] in Hrun.
  apply bind_Ok in Hrun as (u & ev1 & Ht & Hrun). apply throwIf_Ok in Ht as [_ ->].
  unfold onState in Hrun.
  pose proof (reset_all_wp (ev_base ev) (bh_ExpiredParticipationAccounts (ev_header ev)) _ Hwf) as Hwp.
  destruct (mforeach _ _ (ev_state ev)) as [r s'] eqn:E. injection Hrun as -> <-.
  destruct (wp_run _ _ _ _ _ E Hwp) as [Hst Hr]. split; [apply Hst|]. intros a. specialize (Hr eq_refl a).
  unfold ev_view. cbn. destruct (decide _); [|exact Hr]. destruct Hr as (d & Hd & Hd').
  exists d, (ClearOnlineState d). by split_and!.
Qed.

Lemma expired_accounts_reset_witness :
  exists ev' d', resetExpiredOnlineAccountsParticipationKeys
      (setHeader (fun h => h <| bh_ExpiredParticipationAccounts := [6] |>) expired_ev) = (Ok tt, ev') /\
    par_lookup (ev_view ev') 6 = Ok d' /\ acct_Status d' = Offline.
Proof.
  set (ev := setHeader _ expired_ev).
  assert ((resetExpiredOnlineAccountsParticipationKeys ev).1 = Ok tt) as Hr by (vm_compute; reflexivity).
  destruct (resetExpiredOnlineAccountsParticipationKeys ev) as [r ev'] eqn:E. cbn in Hr. subst r.
  destruct (expired_accounts_reset ev ev' expired_stack_wf E) as [_ Hall]. specialize (Hall 6).
  rewrite decide_True in Hall by (apply (bool_decide_unpack _); vm_compute; exact Logic.I).
  destruct Hall as (d & d' & _ & Hd' & Hs & _). exists ev', d'. split_and!; [reflexivity|exact Hd'|exact Hs].
Defined.
