(* ===== verification/EvalMoney.v ===== *)
(** Where the money of a block comes from and goes to: the fee of a transaction
    is shared by the voters of the certificate, and opening a block moves exactly
    the block's rewards out of the incentive pool. *)
From S2P Require Import Prelude Config Basics Transactions Bookkeeping StateDelta CompactCert Cow.
From S2P Require Import CowFacts Balances CowBalances Apply ApplyCorrect Eval EvalFacts.
#[local] Open Scope string_scope.
#[local] Open Scope list_scope.
#[local] Open Scope Z_scope.

(** ** The fee *)

Section fee.
  Context (I : Interpreter) (ev : BlockEvaluator).
#[local] Instance fee_Balances : Balances (cowStack * vm_state I) := eval_Balances I ev.
#[local] Instance fee_BalancesLaws : BalancesLaws (cowStack * vm_state I) :=
  cow_BalancesLaws (ev_base ev) (vm_EvalContract I (ev_base ev)).

(** How often an address votes. *)
Definition ballots (a : Address) (voters : list Address) : Z := sumZ (fun v => if decide (v = a) then 1 else 0) voters.

(** [s'] is [s] after [sender] paid [share] to each voter. *)
Definition shared (s s' : cowStack * vm_state I) (sender : Address) (share : Z) (voters : list Address) : Prop :=
  bal_step s s' /\
  (forall a, a <> sender -> a ∉ voters -> bal_acct s' a = bal_acct s a) /\
  (forall a, money_at s' a =
     money_at s a + share * ballots a voters - (if decide (a = sender) then share * llen voters else 0)) /\
  (forall l, NoDup l -> sender ∈ l -> (forall v, v ∈ voters -> v ∈ l) -> total_money s' l = total_money s l).

Lemma moved_money_at (s s' : cowStack * vm_state I) from to amt a : moved s from to amt s' ->
  money_at s' a = money_at s a + (if decide (to = a) then amt else 0) - (if decide (a = from) then amt else 0).
Proof.
  intros (Hst & Hfr & _ & _ & Hm). destruct (decide (from = to)) as [<-|Hn].
  - destruct (decide (from = a)) as [<-|]; [rewrite decide_True by done; lia|].
    rewrite decide_False by congruence. rewrite (money_at_ext s s') by (auto). lia.
  - destruct Hm as [Hf Ht]. destruct (decide (to = a)) as [<-|]; [rewrite decide_False by congruence; lia|].
    destruct (decide (a = from)) as [->|]; [lia|]. rewrite (money_at_ext s s') by auto. lia.
Qed.

Lemma shared_cons (s s1 s2 : cowStack * vm_state I) sender share v voters :
  moved s sender v share s1 -> shared s1 s2 sender share voters -> shared s s2 sender share (v :: voters).
Proof.
  intros Hm (Hst & Hfr & Hmoney & Htot). pose proof Hm as (Hst1 & Hfr1 & _). split_and!.
  - by eapply bal_step_trans.
  - intros a Ha Hnin. rewrite Hfr, Hfr1; set_solver.
  - intros a. rewrite Hmoney, (moved_money_at s s1 sender v share) by done. unfold ballots, llen. cbn [length]. rewrite Nat2Z.inj_succ.
    change (sumZ ?f (v :: voters)) with (f v + sumZ f voters). cbv beta.
    rewrite Z.mul_add_distr_l, Z.mul_succ_r. repeat case_decide; first [ring|congruence].
  - intros l Hnd Hs Hl. rewrite Htot by (auto; set_solver). eapply moved_total; [done..|]. apply Hl. set_solver.
Qed.

Lemma payVoters_wp sender share voters : is_u64 share -> forall ad s, bal_inv s ->
  wp (payVoters I ev sender share voters ad) (fun r s' => forall ad', r = Ok ad' -> shared s s' sender share voters) s.
Proof.
  intros Hu. induction voters as [|v voters IH]; intros ad s Hs; cbn [payVoters].
  - wp_step. intros _ _. split_and!; [by apply bal_step_refl|done| |done].
    intros a. unfold ballots, llen. cbn. destruct (decide _); lia.
  - apply wp_bind. apply wp_Move; [done|done| |by intros; cbn|by intros; cbn].
    intros [sr rr] s1 Hm. cbn [andThen]. eapply wp_mono; [apply IH, Hm|].
    intros r s2 Hsh ad' ->. eapply shared_cons; [done|]. by eapply Hsh.
Qed.

(** The fee of an accepted transaction is split evenly among the
    voters of the certificate: each receives the quotient once per vote, the
    sender is charged exactly the sum of the shares (so the remainder of the
    division is not charged), nobody else's account changes and no money is made
    or lost; without voters the fee sink receives the whole fee. *)
Theorem fee_shared_by_voters header s ad s' :
  let voters := ev_rewardAddresses ev in
  let payees := match voters with [] => [spec_FeeSink (ev_specials ev)] | _ => voters end in
  let share := hdr_Fee header / llen payees in
  bal_inv s -> is_u64 (hdr_Fee header) -> payFee I ev header s = (Ok ad, s') ->
  shared s s' (hdr_Sender header) share payees /\
  share * llen payees = hdr_Fee header - hdr_Fee header mod llen payees.
Proof.
  intros voters payees share Hs Hfee Hrun.
  assert (0 < llen payees) as Hn by (unfold payees; unfold llen; destruct voters; cbn; lia).
  split; [|unfold share; rewrite Z.mod_eq by lia; lia].
  assert (is_u64 share) as Hsh.
  { unfold share. split; [apply Z.div_pos; word|]. apply Z.div_lt_upper_bound; [lia|]. unfold_words. nia. }
  eapply (wp_run _ (fun r s' => forall ad', r = Ok ad' -> shared s s' (hdr_Sender header) share payees)); [done| |done].
  unfold payFee. fold voters. destruct voters as [|v l] eqn:E; cbn [llen length negb].
  - subst payees share. change (llen [_]) with 1. rewrite Z.div_1_r.
    apply wp_bind. apply wp_Move; [done|done| |by intros; cbn|by intros; cbn].
    intros [sr rr] s1 Hm. cbn [andThen]. wp_step. intros _ _. eapply shared_cons; [done|].
    split_and!; [apply bal_step_refl, Hm|done| |done]. intros a. unfold ballots, llen. cbn. destruct (decide _); lia.
  - destruct (Z.eqb_spec (llen (v :: l)) 0) as [Hz|_]; [unfold llen in Hz; cbn in Hz; lia|]. by apply payVoters_wp.
Qed.
End fee.

Lemma fee_shared_by_voters_witness :
  exists ad s', payFee demo_vm (demo_ev [5; 6; 6]) from8 (market_stack, tt) = (Ok ad, s') /\
    forall d, par_lookup (cs_view market s'.1) 8 = Ok d -> moneyZ v31 0 d = 2000000 - 999.
Proof.
  assert (match (payFee demo_vm (demo_ev [5; 6; 6]) from8 (market_stack, tt)).1 with Ok _ => True | _ => False end) as Hr
    by (vm_compute; exact Logic.I).
  destruct (payFee demo_vm (demo_ev [5; 6; 6]) from8 (market_stack, tt)) as [r s'] eqn:E.
  destruct r as [ad| |]; [|destruct Hr..]. exists ad, s'. split; [reflexivity|]. intros d Hd.
  destruct (fee_shared_by_voters demo_vm (demo_ev [5; 6; 6]) from8 (market_stack, tt) ad s' market_inv
              ltac:(vm_compute; split; congruence) E) as [(Hst & _ & Hm & _) _].
  specialize (Hm 8). unfold money_at in Hm.
  change (bal_acct s' 8) with (par_lookup (cs_view market s'.1) 8) in Hm. rewrite Hd in Hm.
  rewrite (bal_step_money (market_stack, tt) s') in Hm by exact Hst. clear - Hm.
  change (bal_money_of (market_stack, tt) d) with (moneyZ v31 0 d) in Hm. rewrite Hm. vm_compute. reflexivity.
Defined.

(** ** Opening a block *)

Lemma withdrawRewards_wp B gen proto prev hdr totals s :
  let lvl h := rs_RewardsLevel (bh_RewardsState h) in
  let pool := rs_RewardsPool (bh_RewardsState prev) in
  stack_wf B s -> bh_Round hdr <> 1499995 -> bh_Round hdr <> 2926564 ->
  is_u64 (lvl prev) -> is_u64 (lvl hdr) -> is_u64 (proto_MinBalance proto) ->
  (forall units, Totals_RewardUnits totals = Ok units -> is_u64 units) ->
  (forall d d', par_lookup (cs_view B s) pool = Ok d ->
     WithUpdatedRewards (cow_proto (cs_cur s)) (rewardsLevel (cs_cur s)) d = Ok d' -> is_u64 (acct_MicroNovas d')) ->
  wp (withdrawRewards B gen proto prev hdr totals) (fun r s' => r = Ok tt ->
    step_ok B s s' /\ exists units d d' left,
      Totals_RewardUnits totals = Ok units /\ par_lookup (cs_view B s) pool = Ok d /\
      WithUpdatedRewards (cow_proto (cs_cur s)) (rewardsLevel (cs_cur s)) d = Ok d' /\
      left = acct_MicroNovas d' - units * (lvl hdr - lvl prev) /\ proto_MinBalance proto <= left /\ lvl prev <= lvl hdr /\
      forall a, par_lookup (cs_view B s') a =
        if decide (a = pool) then Ok (d' <| acct_MicroNovas := left |>) else par_lookup (cs_view B s) a) s.
Proof.
  intros lvl pool Hwf Hr1 Hr2 Hl Hl' Hmin Hunits Hpool. unfold withdrawRewards. fold pool.
  destruct (ot_Sub false _ _) as [per ot] eqn:Esub. apply wp_bind, wp_throwIf; intros Hot; cbn [andThen]; [done|]. subst ot.
  apply ot_Sub_inv in Esub as (_ & -> & Hper); [|done..].
  apply wp_bind. unfold cow_Get. wp_step. unfold lookup, asks, wp at 1. cbn [fst snd].
  destruct (par_lookup (cs_view B s) pool) as [d| |] eqn:Ed; cbn [andThen]; [|done..].
  wp_step. wp_step. destruct (WithUpdatedRewards _ _ d) as [d'| |] eqn:Er; cbn [andThen]; [|done..].
  specialize (Hpool _ _ eq_refl Er). apply wp_bind. unfold workaroundOverspentRewards.
  rewrite (proj2 (Z.eqb_neq _ _) Hr1), (proj2 (Z.eqb_neq _ _) Hr2). cbn [negb andb]. wp_step.
  wp_step. destruct (Totals_RewardUnits totals) as [units| |] eqn:Eu; cbn [andThen]; [|done..].
  specialize (Hunits _ eq_refl). destruct (ot_Mul false units _) as [spent ot] eqn:Emul.
  destruct (ot_SubA ot _ spent) as [left ot'] eqn:Eleft.
  apply wp_bind, wp_throwIf; intros Hot; cbn [andThen]; [done|]. subst ot'.
  destruct ot; [unfold ot_SubA, ot_Sub in Eleft; destruct (OSub (acct_MicroNovas d') spent) as [? []]; discriminate|].
  apply ot_Mul_inv in Emul as (_ & -> & Hspent); [|done..].
  apply ot_Sub_inv in Eleft as (_ & -> & Hleft); [|done..].
  apply wp_bind. eapply wp_mono; [by apply cow_Put_wp|]. intros r s' (-> & Hst & Hput). cbn [andThen].
  destruct (ot_SubA false _ (proto_MinBalance proto)) as [x ot] eqn:Emin.
  apply wp_throwIf; intros Hot; [done|]. subst ot. apply ot_Sub_inv in Emin as (_ & -> & Hm); [|done..].
  intros _. split; [done|]. eexists _, d, d', _. split_and!; [done..| | |exact Hput]; unfold is_u64 in *; subst lvl; cbn in *; lia.
Qed.

Lemma start_stack_wf B hdr proto ts totals hint :
  stack_wf B (mkCowStack (makeRoundCowState hdr proto ts totals hint) []).
Proof.
  split; [|done]. split; [apply accts_zero_wf|]. intros addr aapp lsd. unfold getStorageDelta. cbn.
  rewrite lookup_empty. discriminate.
Qed.

Lemma Totals_RewardUnits_u64 t units : totals_u64 t -> Totals_RewardUnits t = Ok units -> is_u64 units.
Proof.
  intros ((_ & H1) & (_ & H2) & _) Hu. unfold Totals_RewardUnits in Hu. rewrite OAdd_spec in Hu by done.
  destruct (Z.ltb_spec (ac_RewardUnits (at_Online t) + ac_RewardUnits (at_Offline t)) two64); [|done].
  injection Hu as <-. unfold is_u64 in *. lia.
Qed.

Lemma StartEvaluator_inv H l hdr opts ev : StartEvaluator H l hdr opts = Ok ev ->
  exists totals ts, le_LatestTotals l = Ok (bh_Round (ev_prevHeader ev), totals) /\
    bh_Round (ev_header ev) = bh_Round hdr /\
    withdrawRewards (ev_base ev) (ev_genesisHash ev) (ev_proto ev) (ev_prevHeader ev) (ev_header ev) totals
      (mkCowStack (makeRoundCowState (ev_header ev) (ev_proto ev) ts totals (opt_PaysetHint opts)) [])
      = (Ok tt, ev_state ev).
Proof.
  intros Hstart. unfold StartEvaluator in Hstart. okinv Hstart.
  set (s := mkCowStack _ []) in Hstart. destruct (withdrawRewards _ _ _ _ _ _ s) as [r s'] eqn:E.
  destruct r as [[]| |]; [|done..]. injection Hstart as <-. eexists _, _. split_and!; [|clear E|exact E].
  - match goal with Hb : negb (_ =? _) = false |- _ => apply negb_false_iff, Z.eqb_eq in Hb; cbn; rewrite <- Hb; done end.
  - cbn. destruct (opt_Generate opts); [|by simplify_eq].
    match goal with Hg : (_ ≫= _) = Ok a8 |- _ => okinv Hg; subst a8 end. by destruct (proto_SupportGenesisHash a).
Qed.

(** A block that opens is funded: outside the two rounds of the
    testnet hotfix, the rewards the block's level increase owes to all reward
    units leave the incentive pool, exactly and once, the pool keeps at least the
    minimum balance, no other account changes, and the rewards level never
    falls. *)
Theorem StartEvaluator_funds_rewards H l hdr opts ev totals :
  let lvl h := rs_RewardsLevel (bh_RewardsState h) in
  let pool := rs_RewardsPool (bh_RewardsState (ev_prevHeader ev)) in
  StartEvaluator H l hdr opts = Ok ev -> bh_Round hdr <> 1499995 -> bh_Round hdr <> 2926564 ->
  le_LatestTotals l = Ok (bh_Round (ev_prevHeader ev), totals) -> totals_u64 totals ->
  0 < proto_RewardUnit (ev_proto ev) -> is_u64 (proto_MinBalance (ev_proto ev)) ->
  is_u64 (lvl (ev_prevHeader ev)) -> is_u64 (lvl (ev_header ev)) ->
  (forall d, par_lookup (ev_base ev) pool = Ok d -> acct_wf d) ->
  stack_wf (ev_base ev) (ev_state ev) /\ lvl (ev_prevHeader ev) <= lvl (ev_header ev) /\
  exists units d d' rest,
    Totals_RewardUnits totals = Ok units /\ par_lookup (ev_base ev) pool = Ok d /\
    WithUpdatedRewards (ev_proto ev) (lvl (ev_header ev)) d = Ok d' /\
    rest = acct_MicroNovas d' - units * (lvl (ev_header ev) - lvl (ev_prevHeader ev)) /\
    proto_MinBalance (ev_proto ev) <= rest /\
    par_lookup (ev_view ev) pool = Ok (d' <| acct_MicroNovas := rest |>) /\
    forall a, a <> pool -> par_lookup (ev_view ev) a = par_lookup (ev_base ev) a.
Proof.
  intros lvl pool Hstart Hr1 Hr2 Htot Htu Hunit Hmin Hl Hl' Hacct.
  destruct (StartEvaluator_inv _ _ _ _ _ Hstart) as (totals' & ts & Htot' & Hround & Hrun). clear Hstart.
  rewrite Htot in Htot'. injection Htot' as <-. set (s := mkCowStack _ []) in Hrun.
  pose proof (start_stack_wf (ev_base ev) (ev_header ev) (ev_proto ev) ts totals (opt_PaysetHint opts)) as Hwf.
  change (rewardsLevel (cs_cur s)) with (lvl (ev_header ev)) in *.
  assert (forall a, par_lookup (cs_view (ev_base ev) s) a = par_lookup (ev_base ev) a) as Hview by reflexivity.
  destruct (wp_run _ _ _ _ _ Hrun
    (withdrawRewards_wp (ev_base ev) (ev_genesisHash ev) (ev_proto ev) (ev_prevHeader ev) (ev_header ev) totals s Hwf
       ltac:(congruence) ltac:(congruence) Hl Hl' Hmin (fun u => Totals_RewardUnits_u64 totals u Htu)
       ltac:(intros d d' Hd Hd'; rewrite Hview in Hd;
             apply (WithUpdatedRewards_inv _ _ _ _ Hunit Hl' (Hacct _ Hd)) in Hd' as [-> Hrw];
             by apply rewarded_wf; auto)) eq_refl)
    as (Hst & units & d & d' & rest & Hu & Hd & Hd' & Hrest & Hge & Hlvl & Hput).
  split; [apply Hst|]. split; [exact Hlvl|]. exists units, d, d', rest. split_and!; try done.
  - unfold ev_view. by rewrite Hput, decide_True.
  - intros a Ha. unfold ev_view. by rewrite Hput, decide_False.
Qed.

(** A pool of 10 Novas pays 5000 microNovas to 1000 reward units. *)
Definition pool_header : BlockHeader :=
  sample_header <| bh_RewardsState := mkRewardsState 1 2 20 5000 0 500000 |>.
Definition pool_ledger : LedgerForEvaluator :=
  mkLedgerForEvaluator
    (mkLedgerForCowBase (fun _ => Ok pool_header) (fun _ _ _ _ _ _ => Ok tt)
       (fun r _ => Ok (MakeAccountData NotParticipating 10000000, r)) (fun _ _ _ => Ok (0, false)))
    77 (Ok (1000, mkAccountTotals (mkAlgoCount 1000000000 1000) (mkAlgoCount 0 0) (mkAlgoCount 10000000 10) 20))
    (fun _ => Ok None).
Definition pool_start : outcome BlockEvaluator :=
  StartEvaluator demo_hashes pool_ledger (pool_header <| bh_Round := 1001 |>)
    (mkEvaluatorOptions 0 false true 0 None).

Definition pool_ev : BlockEvaluator := match pool_start with Ok ev => ev | _ => demo_ev [] end.

Lemma pool_starts : pool_start = Ok pool_ev.
Proof.
  assert (isOk pool_start = true) as Hok by (vm_compute; reflexivity).
  unfold pool_ev. destruct pool_start; [reflexivity|discriminate Hok..].
Qed.

Lemma StartEvaluator_funds_rewards_witness :
  exists d, par_lookup (ev_view pool_ev) 2 = Ok d /\ acct_MicroNovas d = 10000000 - 5000.
Proof.
  assert (par_lookup (ev_base pool_ev) 2 = Ok (MakeAccountData NotParticipating 10000000)) as Hd by (vm_compute; reflexivity).
  destruct (StartEvaluator_funds_rewards demo_hashes pool_ledger (pool_header <| bh_Round := 1001 |>)
    (mkEvaluatorOptions 0 false true 0 None) pool_ev
    (mkAccountTotals (mkAlgoCount 1000000000 1000) (mkAlgoCount 0 0) (mkAlgoCount 10000000 10) 20) pool_starts)
    as (_ & _ & units & d & d' & rest & Hu & Hd1 & Hd' & Hrest & _ & Hv & _).
  1-2: discriminate.
  1-6: vm_compute; repeat split; congruence.
  - intros d. replace (rs_RewardsPool _) with 2 by (vm_compute; reflexivity). rewrite Hd. intros [= <-].
    vm_compute. repeat split; congruence.
  - replace (rs_RewardsPool _) with 2 in Hd1, Hv by (vm_compute; reflexivity). rewrite Hd in Hd1. injection Hd1 as <-.
    eexists. split; [exact Hv|]. cbv [set_field]. cbn [acct_MicroNovas]. rewrite Hrest.
    assert (Ok d' = Ok (MakeAccountData NotParticipating 10000000)) as [= ->] by (rewrite <- Hd'; vm_compute; reflexivity).
    assert (Ok units = Ok 1000) as [= ->] by (rewrite <- Hu; vm_compute; reflexivity). vm_compute. reflexivity.
Defined.
