(* ===== verification/Conserve.v ===== *)
(** Money over whole transactions: for every implementation of [Balances] that
    keeps the laws, no transaction type makes or destroys money.

    [conserves] relates two states between which only finitely many accounts
    changed and the money of all accounts together did not.  It composes, so it
    carries from the operations of the interface to the transaction types, from
    there to inner transactions ([LogicFacts]) and to transaction groups
    ([LogicCorrect]). *)
From S2P Require Import Prelude Config Basics Transactions Bookkeeping StateDelta CompactCert Cow.
From S2P Require Import CowFacts CowStorage Balances CowBalances Apply ApplyFacts.
#[local] Open Scope string_scope.
#[local] Open Scope list_scope.
#[local] Open Scope Z_scope.

Section conserve.
  Context {S : Type} `{BalancesLaws S}.

(** The accounts outside [T] are unchanged, and the money of any finite collection
    of accounts that includes [T] is. *)
Definition conserves_on (T : gset Address) (s s' : S) : Prop :=
  bal_step s s' /\ (forall a, a ∉ T -> bal_acct s' a = bal_acct s a) /\
  (forall l, NoDup l -> (forall a, a ∈ T -> a ∈ l) -> total_money s' l = total_money s l).
Definition conserves (s s' : S) : Prop := exists T, conserves_on T s s'.

Lemma conserves_step s s' : conserves s s' -> bal_step s s'.
Proof. by intros (T & ? & _). Qed.

Lemma conserves_inv s s' : conserves s s' -> bal_inv s'.
Proof. intros Hc. apply (conserves_step _ _ Hc). Qed.

Lemma conserves_refl s : bal_inv s -> conserves s s.
Proof. intros Hs. exists ∅. split_and!; [by apply bal_step_refl|done..]. Qed.

Lemma conserves_trans s1 s2 s3 : conserves s1 s2 -> conserves s2 s3 -> conserves s1 s3.
Proof.
  intros (T1 & H1 & F1 & M1) (T2 & H2 & F2 & M2). exists (T1 ∪ T2). split_and!.
  - by eapply bal_step_trans.
  - intros a Ha. rewrite F2, F1 by set_solver. done.
  - intros l Hnd Hl. rewrite M2, M1 by (auto; set_solver). done.
Qed.

(** Only one account changes, and not its money. *)
Lemma conserves_one s s' a : bal_step s s' -> (forall b, b <> a -> bal_acct s' b = bal_acct s b) ->
  money_at s' a = money_at s a -> conserves s s'.
Proof.
  intros Hst Hfr Hm. exists {[a]}. split_and!; [done| |].
  - intros b Hb. apply Hfr. set_solver.
  - intros l _ _. unfold total_money. apply sumZ_ext. intros b _.
    destruct (decide (b = a)) as [->|Hne]; [done|]. apply money_at_ext; auto.
Qed.

(** No account changes. *)
Lemma conserves_same s s' : bal_step s s' -> (forall b, bal_acct s' b = bal_acct s b) -> conserves s s'.
Proof. intros Hst Ha. exists ∅. split_and!; [done|done|]. intros l _ _. apply sumZ_ext. intros b _. by apply money_at_ext. Qed.

Lemma moved_conserves s from to amt s' : moved s from to amt s' -> conserves s s'.
Proof.
  intros Hm. exists {[from; to]}. pose proof Hm as (Hst & Hfr & _). split_and!; [done| |].
  - intros a Ha. apply Hfr; set_solver.
  - intros l Hnd Hl. eapply moved_total; [done|done|apply Hl; set_solver..].
Qed.

(** The fields the money of an account is computed from. *)
Definition same_money (d d' : AccountData) : Prop :=
  acct_MicroNovas d' = acct_MicroNovas d /\ acct_RewardsBase d' = acct_RewardsBase d /\ acct_Status d' = acct_Status d.

Lemma same_money_moneyZ proto lvl d d' : same_money d d' -> moneyZ proto lvl d' = moneyZ proto lvl d.
Proof. intros (H1 & H2 & H3). unfold moneyZ, pendingZ. by rewrite H1, H2, H3. Qed.

(** ** Computations that conserve money, whatever they return *)

Definition quiet {A} (m : M S A) : Prop := forall s, bal_inv s -> wp m (fun _ s' => conserves s s') s.

Lemma quiet_ret {A} (a : A) : quiet (mret a).
Proof. intros s Hs. wp_step. by apply conserves_refl. Qed.
Lemma quiet_throw {A} e : quiet (throw (A := A) e).
Proof. intros s Hs. wp_step. by apply conserves_refl. Qed.
Lemma quiet_throwIf b e : quiet (throwIf b e).
Proof. intros s Hs. apply wp_throwIf; intros _; by apply conserves_refl. Qed.
Lemma quiet_lift {A} (r : outcome A) : quiet (lift r).
Proof. intros s Hs. wp_step. by apply conserves_refl. Qed.
Lemma quiet_gets {A} (f : S -> A) : quiet (gets f).
Proof. intros s Hs. wp_step. by apply conserves_refl. Qed.
Lemma quiet_attempt {A} (m : M S A) : quiet m -> quiet (attempt m).
Proof. intros Hm s Hs. specialize (Hm s Hs). unfold wp, attempt in *. by destruct (m s) as [[]]. Qed.

Lemma wp_quiet_bind {A B} (m : M S A) (k : A -> M S B) s0 s :
  conserves s0 s -> quiet m -> (forall a s', conserves s0 s' -> wp (k a) (fun _ s' => conserves s0 s') s') ->
  wp (m ≫= k) (fun _ s' => conserves s0 s') s.
Proof.
  intros Hc Hm Hk. apply wp_bind. eapply wp_mono; [apply Hm; by eapply conserves_inv|].
  intros r s' Hc'. assert (conserves s0 s') by (by eapply conserves_trans). destruct r; cbn [andThen]; auto.
Qed.

Lemma quiet_bind {A B} (m : M S A) (k : A -> M S B) : quiet m -> (forall a, quiet (k a)) -> quiet (m ≫= k).
Proof.
  intros Hm Hk s Hs. apply wp_quiet_bind; [by apply conserves_refl|done|]. intros a s' Hc.
  eapply wp_mono; [by apply Hk, (conserves_inv s)|]. intros r s'' Hc'. by eapply conserves_trans.
Qed.

Lemma quiet_Get a w : quiet (bal_Get a w).
Proof. intros s Hs. unfold wp. rewrite bal_Get_law by done. by apply conserves_refl. Qed.
Lemma quiet_GetCreator c t : quiet (bal_GetCreator c t).
Proof. intros s Hs. unfold wp. rewrite bal_GetCreator_law by done. by apply conserves_refl. Qed.
Lemma quiet_AllocateApp a i g sp : quiet (bal_AllocateApp a i g sp).
Proof. intros s Hs. eapply wp_mono; [by apply bal_AllocateApp_law|]. intros r s' [? ?]. by apply conserves_same. Qed.
Lemma quiet_DeallocateApp a i g : quiet (bal_DeallocateApp a i g).
Proof. intros s Hs. eapply wp_mono; [by apply bal_DeallocateApp_law|]. intros r s' [? ?]. by apply conserves_same. Qed.
Lemma quiet_AllocateAsset a i g : quiet (bal_AllocateAsset a i g).
Proof.
  intros s Hs. eapply wp_mono; [by apply bal_AllocateAsset_law|]. intros r s' (_ & ? & Ha). apply conserves_same; [done|].
  by rewrite Ha.
Qed.
Lemma quiet_DeallocateAsset a i g : quiet (bal_DeallocateAsset a i g).
Proof.
  intros s Hs. eapply wp_mono; [by apply bal_DeallocateAsset_law|]. intros r s' (_ & ? & Ha). apply conserves_same; [done|].
  by rewrite Ha.
Qed.

(** Writing back an account that was read, with its money. *)
Lemma wp_Put_conserves s a d d' : bal_inv s -> bal_acct s a = Ok d -> same_money d d' -> record_wf d' ->
  wp (bal_Put a d') (fun _ s' => conserves s s') s.
Proof.
  intros Hs Hd Hm Hw. eapply wp_mono; [by apply bal_Put_law|]. intros r s' (_ & Hst & Hput).
  eapply (conserves_one s s' a); [done| |].
  - intros b Hb. by rewrite Hput, decide_False.
  - unfold money_at. rewrite Hput, decide_True, Hd by done. rewrite (bal_step_money s s') by done.
    by apply same_money_moneyZ.
Qed.

(** Reading an account and going on with what was read, in the same state. *)
Lemma quiet_read {A} a (k : AccountData -> M S A) :
  (forall s d, bal_inv s -> bal_acct s a = Ok d -> record_wf d -> wp (k d) (fun _ s' => conserves s s') s) ->
  quiet (bal_Get a false ≫= k).
Proof.
  intros Hk s Hs. apply wp_bind, wp_Get_plain; [done|].
  destruct (bal_acct s a) as [d| |] eqn:Ed; cbn [andThen]; [|by apply conserves_refl..].
  apply Hk; eauto using bal_record_wf.
Qed.

(** After a read: steps that do not change the state. *)
Lemma wp_conserves_gets {A B} (f : S -> A) (k : A -> M S B) s :
  (forall a, wp (k a) (fun _ s' => conserves s s') s) -> wp (gets f ≫= k) (fun _ s' => conserves s s') s.
Proof. intros Hk. apply wp_bind, wp_gets. apply Hk. Qed.
Lemma wp_conserves_throwIf {B} b e (k : unit -> M S B) s : bal_inv s ->
  wp (k tt) (fun _ s' => conserves s s') s -> wp (throwIf b e ≫= k) (fun _ s' => conserves s s') s.
Proof. intros Hs Hk. apply wp_bind, wp_throwIf; intros _; cbn [andThen]; [by apply conserves_refl|done]. Qed.
Lemma wp_conserves_put {B} a d d' (k : unit -> M S B) s : bal_inv s -> bal_acct s a = Ok d ->
  same_money d d' -> record_wf d' -> quiet (k tt) -> wp (bal_Put a d' ≫= k) (fun _ s' => conserves s s') s.
Proof.
  intros Hs Hd Hm Hw Hk. apply wp_bind. eapply wp_mono; [by eapply wp_Put_conserves|].
  intros r s' Hc. destruct r as [[]| |]; cbn [andThen]; [|done..].
  eapply wp_mono; [by apply Hk, (conserves_inv s)|]. intros r s'' Hc'. by eapply conserves_trans.
Qed.
Lemma wp_conserves_quiet {A B} (m : M S A) (k : A -> M S B) s : bal_inv s ->
  (forall s', bal_inv s' -> wp m (fun _ s'' => bal_step s' s'' /\ bal_acct s'' = bal_acct s') s') ->
  (forall a s', bal_inv s' -> bal_acct s' = bal_acct s -> wp (k a) (fun _ s'' => conserves s' s'') s') ->
  wp (m ≫= k) (fun _ s' => conserves s s') s.
Proof.
  intros Hs Hm Hk. apply wp_bind. eapply wp_mono; [by apply Hm|]. intros r s' [Hst Ha].
  assert (conserves s s') as Hc by (apply conserves_same; [done|]; by rewrite Ha).
  destruct r as [a| |]; cbn [andThen]; [|done..].
  eapply wp_mono; [apply Hk; [by eapply conserves_inv|done]|]. intros r s'' Hc'. by eapply conserves_trans.
Qed.

(** Walk through a computation of quiet parts. *)
Ltac quiet_step :=
  first
    [ apply quiet_ret | apply quiet_throw | apply quiet_throwIf | apply quiet_lift | apply quiet_gets
    | apply quiet_Get | apply quiet_GetCreator | apply quiet_AllocateApp | apply quiet_DeallocateApp
    | apply quiet_AllocateAsset | apply quiet_DeallocateAsset | apply quiet_attempt
    | apply quiet_bind; [|intros ?]
    | progress cbv zeta
    | case_match ].
Ltac quiet_walk := repeat quiet_step.

(** After reading an account: guards, then writing it back. *)
Ltac after_read :=
  lazymatch goal with
  | |- wp (throwIf _ _ ≫= _) _ _ => apply wp_conserves_throwIf; [assumption|]; cbv beta zeta; after_read
  | |- wp (gets _ ≫= _) _ _ => apply wp_conserves_gets; intros ?; cbv beta zeta; after_read
  | |- wp (bal_Put _ _ ≫= _) _ _ => eapply wp_conserves_put; [assumption|eassumption|split_and!; reflexivity|..]
  | |- wp (bal_Put _ _) _ _ => eapply wp_Put_conserves; [assumption|eassumption|split_and!; reflexivity|..]
  end.
Ltac write_back := cbv beta zeta; after_read.

Lemma quiet_Rekey tx : quiet (Rekey tx).
Proof.
  unfold Rekey. case_match; [|apply quiet_ret]. apply quiet_read. intros s d Hs Hd Hw. write_back. exact Hw.
Qed.

(** *** Assets *)

Lemma quiet_getParams i : quiet (getParams i).
Proof. unfold getParams. quiet_walk. Qed.

Lemma quiet_createAsset cc sender ad ctr : is_u64 (ap_Total (ac_AssetParams cc)) -> quiet (createAsset cc sender ad ctr).
Proof.
  intros Ht. unfold createAsset. apply quiet_read. intros s d Hs Hd Hw. write_back; [|quiet_walk].
  destruct Hw as [Hw Hm]. split; [exact Hw|]. cbn. by apply map_Forall_insert_2.
Qed.

Lemma record_wf_delete d i : record_wf d -> record_wf (d <| acct_Assets := delete i (acct_Assets d) |>).
Proof. intros [Hw Hm]. split; [exact Hw|]. cbn. by apply map_Forall_delete. Qed.

Lemma quiet_reconfigure cc creator params aidx ad :
  quiet (record ← bal_Get creator false;
    record ←
      (if bool_decide (ac_AssetParams cc = AssetParams_zero) then
         _ ← throwIf (negb (holdingAmount record aidx =? ap_Total params)) (Errorf "cannot destroy asset");
         _ ← bal_DeallocateAsset creator aidx true;
         _ ← bal_DeallocateAsset creator aidx false;
         mret (record <| acct_Assets := delete aidx (acct_Assets record) |>
                      <| acct_AssetParams := delete aidx (acct_AssetParams record) |>)
       else
         mret (record <| acct_AssetParams :=
                 <[aidx := reconfigure params (ac_AssetParams cc)]> (acct_AssetParams record) |>));
    _ ← bal_Put creator record;
    mret (ad : ApplyData)).
Proof.
  apply quiet_read. intros s d Hs Hd Hw. apply wp_bind. eapply (wp_mono _ (fun r s' =>
    conserves s s' /\ bal_acct s' = bal_acct s /\ forall d', r = Ok d' -> same_money d d' /\ record_wf d')).
  - case_match.
    + apply wp_bind, wp_throwIf; intros _; cbn [andThen]; [split_and!; [by apply conserves_refl|done..]|].
      apply wp_bind. eapply wp_mono; [by apply bal_DeallocateAsset_law|]. intros r s1 (-> & Hs1 & Ha1). cbn [andThen].
      apply wp_bind. eapply wp_mono; [apply bal_DeallocateAsset_law, Hs1|]. intros r s2 (-> & Hs2 & Ha2). cbn [andThen].
      wp_step. split_and!; [apply conserves_same; [by eapply bal_step_trans|by rewrite Ha2, Ha1]|congruence|].
      intros d' [= <-]. split; [by split_and!|]. exact (record_wf_delete d aidx Hw).
    + wp_step. split_and!; [by apply conserves_refl|done|]. intros d' [= <-]. split; [by split_and!|exact Hw].
  - intros r s1 (Hc & Ha & Hr). destruct r as [d'| |]; cbn [andThen]; [|done..].
    destruct (Hr d' eq_refl) as [Hm Hw']. eapply wp_mono; [eapply (wp_conserves_put creator d d');
      [by eapply conserves_inv|by rewrite Ha|done|done|apply quiet_ret]|].
    intros r s2 Hc2. by eapply conserves_trans.
Qed.

Lemma quiet_AssetConfig cc header ad ctr : is_u64 (ap_Total (ac_AssetParams cc)) -> quiet (AssetConfig cc header ad ctr).
Proof.
  intros Ht. unfold AssetConfig. cbv zeta. case_match; [by apply quiet_createAsset|].
  apply quiet_bind; [apply quiet_getParams|]. intros [params creator].
  apply quiet_bind; [apply quiet_throwIf|]. intros _. apply quiet_reconfigure.
Qed.

Lemma quiet_takeOut addr asset amount bypass : is_u64 amount -> quiet (takeOut addr asset amount bypass).
Proof.
  intros Ha. unfold takeOut. case_match; [apply quiet_ret|]. apply quiet_read. intros s d Hs Hd Hw.
  destruct (acct_Assets d !! asset) as [h|] eqn:Eh; [|by apply quiet_throw].
  assert (is_u64 (ah_Amount h)) as Hh by (by apply (proj2 Hw asset h)). rewrite OSub_spec by done.
  destruct (Z.leb_spec amount (ah_Amount h)); cbn [fst snd]; write_back; (apply record_wf_insert; [exact Hw|cbn]); word.
Qed.

Lemma quiet_putIn addr asset amount bypass : is_u64 amount -> quiet (putIn addr asset amount bypass).
Proof.
  intros Ha. unfold putIn. case_match; [apply quiet_ret|]. apply quiet_read. intros s d Hs Hd Hw.
  destruct (acct_Assets d !! asset) as [h|] eqn:Eh; [|by apply quiet_throw].
  assert (is_u64 (ah_Amount h)) as Hh by (by apply (proj2 Hw asset h)). rewrite OAdd_spec by done.
  destruct (Z.ltb_spec (ah_Amount h + amount) two64); cbn [fst snd]; write_back; (apply record_wf_insert; [exact Hw|cbn]); word.
Qed.

Lemma quiet_optInAsset source aidx : quiet (optInAsset source aidx).
Proof.
  unfold optInAsset. apply quiet_read. intros s d Hs Hd Hw. case_match; [by apply quiet_ret|].
  apply wp_bind. eapply wp_mono; [by apply getParams_wp|]. intros r s' [-> _].
  destruct r as [[params c]| |]; cbn [andThen]; [|by apply conserves_refl..]. write_back; [|quiet_walk].
  apply record_wf_insert; [exact Hw|cbn; word].
Qed.

Lemma quiet_closeAsset source closeTo aidx ad : quiet (closeAsset source closeTo aidx ad).
Proof.
  unfold closeAsset. apply quiet_read. intros s d Hs Hd Hw. apply wp_conserves_throwIf; [done|].
  destruct (acct_Assets d !! aidx) as [h|] eqn:Eh; [|by apply quiet_throw].
  assert (is_u64 (ah_Amount h)) as Hh by (by apply (proj2 Hw aidx h)).
  revert s Hs Hd. assert (quiet (dst ← bal_Get closeTo false;
      let bypassFreeze := bool_decide (is_Some (acct_AssetParams dst !! aidx)) in
      proto ← gets bal_ConsensusParams;
      let ad := if proto_EnableAssetCloseAmount proto
                then ad <| ad_AssetClosingAmount := ah_Amount h |> else ad in
      _ ← takeOut source aidx (ah_Amount h) bypassFreeze;
      _ ← putIn closeTo aidx (ah_Amount h) bypassFreeze;
      snd ← bal_Get source false;
      _ ← throwIf (negb (holdingAmount snd aidx =? 0)) (Errorf "asset not zero after closing");
      _ ← bal_Put source (snd <| acct_Assets := delete aidx (acct_Assets snd) |>);
      _ ← bal_DeallocateAsset source aidx false;
      mret ad)) as Hq; [|intros s Hs _; exact (Hq s Hs)].
  apply quiet_bind; [apply quiet_Get|]. intros dst. cbv zeta. apply quiet_bind; [apply quiet_gets|]. intros p.
  apply quiet_bind; [by apply quiet_takeOut|]. intros _. apply quiet_bind; [by apply quiet_putIn|]. intros _.
  apply quiet_read. intros s d1 Hs Hd1 Hw1. write_back; [by apply record_wf_delete|quiet_walk].
Qed.

Lemma quiet_AssetTransfer ct header ad : is_u64 (ax_AssetAmount ct) -> quiet (AssetTransfer ct header ad).
Proof.
  intros Ha. unfold AssetTransfer. cbv zeta.
  apply quiet_bind; [case_match; [apply quiet_bind; [apply quiet_getParams|]; intros [p c]; apply quiet_throwIf|apply quiet_ret]|].
  intros _. apply quiet_bind; [case_match; [apply quiet_optInAsset|apply quiet_ret]|]. intros _.
  apply quiet_bind; [by apply quiet_takeOut|]. intros _. apply quiet_bind; [by apply quiet_putIn|]. intros _.
  case_match; [|apply quiet_ret]. apply quiet_bind; [apply quiet_throwIf|]. intros _. apply quiet_closeAsset.
Qed.

Lemma quiet_AssetFreeze cf header : quiet (AssetFreeze cf header).
Proof.
  unfold AssetFreeze. apply quiet_bind; [apply quiet_getParams|]. intros [p c].
  apply quiet_bind; [apply quiet_throwIf|]. intros _. apply quiet_read. intros s d Hs Hd Hw.
  destruct (acct_Assets d !! af_FreezeAsset cf) as [h|] eqn:Eh; [|by apply quiet_throw].
  write_back. apply record_wf_insert; [exact Hw|]. by apply (proj2 Hw (af_FreezeAsset cf) h).
Qed.

(** *** Applications *)

Lemma quiet_createApplication ac creator ctr : quiet (createApplication ac creator ctr).
Proof. unfold createApplication. apply quiet_read. intros s d Hs Hd Hw. write_back; [exact Hw|quiet_walk]. Qed.
Lemma quiet_deleteApplication creator i : quiet (deleteApplication creator i).
Proof. unfold deleteApplication. apply quiet_read. intros s d Hs Hd Hw. write_back; [exact Hw|quiet_walk]. Qed.
Lemma quiet_optInApplication sender i params : quiet (optInApplication sender i params).
Proof. unfold optInApplication. apply quiet_read. intros s d Hs Hd Hw. write_back; [exact Hw|quiet_walk]. Qed.
Lemma quiet_closeOutApplication sender i : quiet (closeOutApplication sender i).
Proof.
  unfold closeOutApplication. apply quiet_read. intros s d Hs Hd Hw.
  case_match; [write_back; [exact Hw|quiet_walk]|by apply quiet_throw].
Qed.

Lemma quiet_updateApplication ac creator i : quiet (updateApplication ac creator i).
Proof.
  unfold updateApplication. apply quiet_read. intros s d Hs Hd Hw. cbv zeta. apply wp_conserves_gets. intros p.
  apply wp_bind. eapply (wp_mono _ (fun _ s' => s' = s)).
  { case_match; [|by wp_step]. apply wp_bind, wp_throwIf; intros _; cbn [andThen]; [done|].
    apply wp_bind, wp_throwIf; intros _; cbn [andThen]; [done|]. by apply wp_throwIf. }
  intros r s' ->. destruct r; cbn [andThen]; [|by apply conserves_refl..]. write_back. exact Hw.
Qed.

Lemma quiet_completion ac sender creator i : quiet (completion ac sender creator i).
Proof.
  unfold completion. repeat case_match; first [apply quiet_ret|apply quiet_throw|apply quiet_closeOutApplication
    |apply quiet_deleteApplication|apply quiet_updateApplication].
Qed.

Lemma quiet_getAppParams i : quiet (getAppParams i).
Proof. unfold getAppParams. quiet_walk. Qed.

(** An application call conserves money if running programs does. *)
Section calls.
  Context (check : string -> S -> outcome unit).
  Context (Heval : forall gi txn i prog, quiet (bal_StatefulEval gi txn i prog)).

Lemma quiet_clearState header ad gi txn i params ex : quiet (clearState header ad gi txn i params ex).
Proof.
  unfold clearState. apply quiet_bind; [apply quiet_Get|]. intros d. apply quiet_bind; [apply quiet_throwIf|]. intros _.
  apply quiet_bind; [|intros; apply quiet_bind; [apply quiet_closeOutApplication|intros; apply quiet_ret]].
  case_match; [|apply quiet_ret]. apply quiet_bind; [apply quiet_attempt, Heval|]. intros r. quiet_walk.
Qed.

Lemma quiet_ApplicationCall ac header ad gi txn ctr : quiet (ApplicationCall check ac header ad gi txn ctr).
Proof.
  unfold ApplicationCall. apply quiet_bind.
  { case_match; [apply quiet_bind; [apply quiet_createApplication|intros; apply quiet_ret]|apply quiet_ret]. }
  intros [i ad1]. apply quiet_bind; [apply quiet_getAppParams|]. intros [[params creator] ex].
  apply quiet_bind; [apply quiet_throwIf|]. intros _. apply quiet_bind; [quiet_walk|]. intros _.
  case_match; [apply quiet_clearState|].
  apply quiet_bind; [case_match; [apply quiet_optInApplication|apply quiet_ret]|]. intros _.
  apply quiet_bind; [apply Heval|]. intros [ok ed]. apply quiet_bind; [apply quiet_throwIf|]. intros _.
  apply quiet_bind; [apply quiet_completion|]. intros _. apply quiet_ret.
Qed.
End calls.

(** ** Computations that conserve money when they succeed

    A payment or a fee that fails half-way may have moved part of the money; its
    state is thrown away. *)

Definition fair {A} (m : M S A) : Prop := forall s, bal_inv s -> wp m (steps_to s (fun _ s' => conserves s s')) s.

Lemma quiet_fair {A} (m : M S A) : quiet m -> fair m.
Proof. intros Hm s Hs. eapply wp_mono; [by apply Hm|]. intros r s' Hc. split; [by apply conserves_step|done]. Qed.

Lemma fair_bind {A B} (m : M S A) (k : A -> M S B) : fair m -> (forall a, fair (k a)) -> fair (m ≫= k).
Proof.
  intros Hm Hk s Hs. apply wp_bind. eapply wp_mono; [by apply Hm|]. intros r s' [Hst Hr].
  destruct r as [a| |]; cbn [andThen]; [|by split..]. specialize (Hr a eq_refl).
  eapply wp_mono; [apply Hk, Hst|]. intros r s'' [Hst' Hr']. split; [by eapply bal_step_trans|].
  intros b ->. eapply conserves_trans; [done|]. by apply (Hr' b).
Qed.

Lemma fair_Move from to amt fr tr : is_u64 amt -> fair (bal_Move from to amt fr tr).
Proof.
  intros Ha s Hs. apply wp_Move; [done|done| | |].
  - intros r s' Hm. split; [apply Hm|]. intros _ _. by eapply moved_conserves.
  - intros e s' Hst. by split.
  - intros s' Hst. by split.
Qed.

Lemma fair_Payment payment header ad : is_u64 (pay_Amount payment) -> fair (Payment payment header ad).
Proof.
  intros Ha s Hs. eapply wp_mono; [by apply Payment_wp|]. intros r s' [Hst Hr]. split; [done|].
  intros ad' ->. destruct (Hr ad' eq_refl) as (_ & Hfr & Htot).
  exists {[hdr_Sender header; pay_Receiver payment; pay_CloseRemainderTo payment]}. split_and!; [done| |].
  - intros a Hn. apply Hfr; set_solver.
  - intros l Hnd Hl. apply Htot; [done|apply Hl; set_solver..].
Qed.

(** The account of [a] has received its rewards. *)
Definition settled_at (s : S) (a : Address) : Prop :=
  exists d, bal_acct s a = Ok d /\ acct_MicroNovas d = bal_money_of s d.

Lemma settled_at_same s s' a : settled_at s a -> bal_step s s' ->
  (forall d, bal_acct s a = Ok d -> exists d', bal_acct s' a = Ok d' /\ same_money d d') -> settled_at s' a.
Proof.
  intros (d & Hd & Hm) Hst Hsame. destruct (Hsame d Hd) as (d' & Hd' & Hm').
  exists d'. split; [done|]. rewrite (bal_step_money s s') by done.
  unfold bal_money_of in *. rewrite (same_money_moneyZ _ _ d d') by done. rewrite <- Hm. apply Hm'.
Qed.

(** Paying settles the account of the payer, and rekeying leaves it settled. *)
Lemma Move_settles s from to amt fr tr : bal_inv s -> is_u64 amt ->
  wp (bal_Move from to amt fr tr) (steps_to s (fun _ s' => conserves s s' /\ settled_at s' from)) s.
Proof.
  intros Hs Ha. apply wp_Move; [done|done| | |].
  - intros r s' Hm. split; [apply Hm|]. intros _ _. split; [by eapply moved_conserves|].
    destruct Hm as (Hst & _ & _ & (d & Hd & Hmoney) & _). exists d. split; [done|].
    rewrite Hmoney. unfold money_at. by rewrite Hd.
  - intros e s' Hst. by split.
  - intros s' Hst. by split.
Qed.

Lemma Rekey_settles s header : bal_inv s -> settled_at s (hdr_Sender header) ->
  wp (Rekey header) (steps_to s (fun _ s' => conserves s s' /\ settled_at s' (hdr_Sender header))) s.
Proof.
  intros Hs Hset. eapply wp_mono; [apply wp_and; [by apply quiet_Rekey|by apply Rekey_wp]|].
  intros r s' [Hc [Hst Hr]]. split; [done|]. intros u ->. split; [done|]. destruct (Hr u eq_refl) as (_ & Hz & Hnz).
  destruct (decide (hdr_RekeyTo header = 0)) as [Hd|Hd]; [by rewrite (Hz Hd)|].
  destruct (Hnz Hd) as (d & Hd1 & Hd2). eapply settled_at_same; [done|done|].
  intros d0 Hd0. rewrite Hd1 in Hd0. injection Hd0 as <-. eexists. split; [exact Hd2|]. by split_and!.
Qed.

(** A key registration may change the status of an account, and with it whether it
    earns rewards; the sender has been paid its rewards by the time it runs. *)
Lemma Keyreg_conserves kr header spec rnd s : bal_inv s ->
  settled_at s (hdr_Sender header) ->
  wp (Keyreg kr header spec rnd) (steps_to s (fun _ s' => conserves s s')) s.
Proof.
  intros Hs (d0 & Hd0 & Hset). eapply wp_mono; [by apply Keyreg_wp|]. intros r s' [Hst Hr]. split; [done|].
  intros u ->. destruct (Hr u eq_refl) as (_ & Hfr & d & d' & Hd & Hd' & Hnp & Hm & Hb & _).
  rewrite Hd in Hd0. injection Hd0 as <-. apply (conserves_one s s' (hdr_Sender header)); [done|done|].
  unfold money_at. rewrite Hd', Hd. rewrite (bal_step_money s s') by done.
  unfold bal_money_of, moneyZ, pendingZ in *. rewrite Hm, Hb. rewrite (bool_decide_false _ Hnp) in *.
  case_bool_decide; [|done]. rewrite Hset at 1. lia.
Qed.

End conserve.
