(* ===== verification/AvmValue.v ===== *)
(** [src/data/transactions/logic/eval.go]: values of the operand stack and the
    opcodes that only compute on the stack.

    A [stackValue] is a 64-bit integer or a byte string; the source tells the two
    apart by a nil slice and never looks at the number of a byte string.  Byte
    strings are strings; [bytes_of] gives their bytes as numbers.  A [big.Int] is an
    integer.  The stack is a list with its top first.  An opcode finds the
    arguments its entry of the opcode table asks for, because the loop has checked
    them; a stack that does not hold them is an index out of range, a panic. *)
From S2P Require Import Prelude Config Basics Transactions.
#[local] Open Scope string_scope.
#[local] Open Scope list_scope.
#[local] Open Scope Z_scope.

(** ** Limits *)

Definition MaxStringSize : Z := 4096.
Definition MaxByteMathSize : Z := 64.
Definition MaxLogSize : Z := 1024.
Definition MaxLogCalls : Z := 32.
Definition MaxStackDepth : Z := 1000.
Definition MaxInt32 : Z := 2147483647.

(** ** Bytes *)

Definition bytes_of (s : string) : list Z := map (fun c => Z.of_N (Ascii.N_of_ascii c)) (String.list_ascii_of_string s).
Definition of_bytes (l : list Z) : string := String.string_of_list_ascii (map (fun b => Ascii.ascii_of_N (Z.to_N b)) l).

(** Big-endian numbers: [big.Int.SetBytes], [n] bytes of a number, and
    [big.Int.Bytes], the shortest bytes of a number. *)
Definition be_value (l : list Z) : Z := fold_left (fun v b => v * 256 + b) l 0.
Fixpoint be_bytes (n : nat) (z : Z) : list Z :=
  match n with O => [] | S n' => be_bytes n' (z / 256) ++ [z mod 256] end.
Definition bit_len (z : Z) : Z := if z =? 0 then 0 else Z.log2 z + 1.
Definition big_bytes (z : Z) : string := of_bytes (be_bytes (Z.to_nat ((bit_len z + 7) / 8)) z).
Definition big_of (s : string) : Z := be_value (bytes_of s).

(** A 32-byte address, digest or key as a number, and back. *)
Definition digest_bytes (d : Z) : string := of_bytes (be_bytes 32 d).

(** [x[start:end]]; the bounds are checked by the callers. *)
Definition slice (x : string) (start end_ : Z) : string := String.substring (Z.to_nat start) (Z.to_nat (end_ - start)) x.

(** [x[i]], a panic out of range, and a copy of [x] with a byte replaced. *)
Definition byteAt (x : string) (i : Z) : outcome Z :=
  if i <? 0 then Panic
  else match bytes_of x !! Z.to_nat i with Some b => Ok b | None => Panic end.
Definition setByteAt (x : string) (i b : Z) : string := of_bytes (<[Z.to_nat i := b]> (bytes_of x)).

(** ** Stack values *)

Inductive stackValue : Type := SUint (u : Z) | SBytes (b : string).
#[export] Instance stackValue_eq_dec : EqDecision stackValue.
Proof. solve_decision. Defined.

(** The value of a field on the stack: a Go integer of at most 64 bits. *)
Definition svUint (x : Z) : stackValue := SUint (wrap64 x).
Definition boolToUint (b : bool) : Z := if b then 1 else 0.
Definition svBool (b : bool) : stackValue := SUint (boolToUint b).

Inductive StackType : Type := StackNone | StackAny | StackUint64 | StackBytes.
#[export] Instance StackType_eq_dec : EqDecision StackType.
Proof. solve_decision. Defined.

Definition argType (sv : stackValue) : StackType := match sv with SUint _ => StackUint64 | SBytes _ => StackBytes end.

(** The field [Bytes], nil for an integer. *)
Definition sv_Bytes (sv : stackValue) : string := match sv with SBytes b => b | SUint _ => "" end.

Definition opCompat (expected got : StackType) : bool :=
  bool_decide (expected = StackAny) || bool_decide (expected = got).

Definition typecheck (expected got : StackType) : bool :=
  if bool_decide (expected = StackAny) && bool_decide (got = StackNone) then false
  else bool_decide (expected = StackAny) || bool_decide (got = StackAny) || bool_decide (expected = got).

Definition sv_address (sv : stackValue) : outcome Address :=
  if negb (slen (sv_Bytes sv) =? 32) then Err (Errorf "not an address") else Ok (big_of (sv_Bytes sv)).

Definition sv_uint (sv : stackValue) : outcome Z :=
  match sv with SUint u => Ok u | SBytes _ => Err (Errorf "not a uint64") end.

Definition uintMaxed (max : Z) (sv : stackValue) : outcome Z :=
  match sv with
  | SBytes _ => Err (Errorf "is not a uint64")
  | SUint u => if max <? u then Err (Errorf "is larger than max") else Ok u
  end.

Definition sv_bool (sv : stackValue) : outcome bool :=
  u64 ← sv_uint sv;
  if u64 =? 0 then Ok false
  else if u64 =? 1 then Ok true
  else Err (Errorf "boolean is neither 1 nor 0").

Definition sv_string (limit : Z) (sv : stackValue) : outcome string :=
  match sv with
  | SUint _ => Err (Errorf "not a byte array")
  | SBytes b => if limit <? slen b then Err (Errorf "value is too long") else Ok b
  end.

Definition stackValueFromTealValue (tv : TealValue) : outcome stackValue :=
  if tv_Type tv =? TealBytesType then Ok (SBytes (tv_Bytes tv))
  else if tv_Type tv =? TealUintType then Ok (svUint (tv_Uint tv))
  else Err (Errorf "invalid TealValue type").

Definition toTealValue (sv : stackValue) : TealValue :=
  match sv with
  | SBytes b => mkTealValue TealBytesType b 0
  | SUint u => mkTealValue TealUintType "" u
  end.

(** ** Opcodes on the stack *)

Notation stack := (list stackValue).
Definition stackOp : Type := stack -> outcome stack.

(** The shapes of arguments. *)
Definition onUint (f : Z -> outcome stack) : stackOp := fun st =>
  match st with SUint a :: st => r ← f a; Ok (r ++ st) | _ => Panic end.
Definition onUints (f : Z -> Z -> outcome stack) : stackOp := fun st =>
  match st with SUint b :: SUint a :: st => r ← f a b; Ok (r ++ st) | _ => Panic end.
Definition onBytes (f : string -> outcome stack) : stackOp := fun st =>
  match st with SBytes a :: st => r ← f a; Ok (r ++ st) | _ => Panic end.
Definition onBytess (f : string -> string -> outcome stack) : stackOp := fun st =>
  match st with SBytes b :: SBytes a :: st => r ← f a b; Ok (r ++ st) | _ => Panic end.

(** *** Control of the stack *)

Definition opErr : stackOp := fun _ => Err (Errorf "TEAL runtime encountered err opcode").

Definition opAssert : stackOp :=
  onUint (fun a => if negb (a =? 0) then Ok [] else Err (Errorf "assert failed")).

Definition opSwap : stackOp := fun st =>
  match st with b :: a :: st => Ok (a :: b :: st) | _ => Panic end.

Definition opSelect : stackOp := fun st =>
  match st with
  | SUint c :: b :: a :: st => Ok ((if negb (c =? 0) then b else a) :: st)
  | _ => Panic
  end.

Definition opPop : stackOp := fun st => match st with _ :: st => Ok st | _ => Panic end.
Definition opDup : stackOp := fun st => match st with a :: st => Ok (a :: a :: st) | _ => Panic end.
Definition opDup2 : stackOp := fun st => match st with b :: a :: st => Ok (b :: a :: b :: a :: st) | _ => Panic end.

Definition opDig (depth : Z) : stackOp := fun st =>
  match st !! Z.to_nat depth with
  | Some sv => Ok (sv :: st)
  | None => Err (Errorf "dig")
  end.

Definition opCover (depth : Z) : stackOp := fun st =>
  if llen st - 1 - depth <? 0 then Err (Errorf "cover")
  else match st with
       | sv :: st => Ok (take (Z.to_nat depth) st ++ sv :: drop (Z.to_nat depth) st)
       | [] => Panic
       end.

Definition opUncover (depth : Z) : stackOp := fun st =>
  match st !! Z.to_nat depth with
  | Some sv => Ok (sv :: take (Z.to_nat depth) st ++ drop (Z.to_nat depth + 1) st)
  | None => Err (Errorf "uncover")
  end.

(** *** Arithmetic on 64 bits *)

(** [bits.Add64] and [bits.Mul64]: the high and the low word of the result. *)
Definition Add64 (a b : Z) : Z * Z := (wrap64 (a + b), (a + b) / two64).
Definition Mul64 (a b : Z) : Z * Z := ((a * b) / two64, wrap64 (a * b)).

Definition opPlus : stackOp := onUints (fun a b =>
  let '(sum, carry) := Add64 a b in
  if 0 <? carry then Err (Errorf "+ overflowed") else Ok [SUint sum]).

Definition opAddw : stackOp := onUints (fun a b =>
  let '(sum, carry) := Add64 a b in Ok [SUint sum; SUint carry]).

Definition uint128 (hi lo : Z) : Z := Z.shiftl hi 64 + lo.

Definition opDivModwImpl (hiNum loNum hiDen loDen : Z) : Z * Z * Z * Z :=
  let dividend := uint128 hiNum loNum in
  let divisor := uint128 hiDen loDen in
  let '(quo, rem) := Z.quotrem dividend divisor in
  (wrap64 (Z.shiftr quo 64), wrap64 quo, wrap64 (Z.shiftr rem 64), wrap64 rem).

Definition opDivModw : stackOp := fun st =>
  match st with
  | SUint loDen :: SUint hiDen :: SUint loNum :: SUint hiNum :: st =>
      if (loDen =? 0) && (hiDen =? 0) then Err (Errorf "/ 0")
      else let '(hiQuo, loQuo, hiRem, loRem) := opDivModwImpl hiNum loNum hiDen loDen in
           Ok (SUint loRem :: SUint hiRem :: SUint loQuo :: SUint hiQuo :: st)
  | _ => Panic
  end.

Definition opMinus : stackOp := onUints (fun a b =>
  if a <? b then Err (Errorf "- would result negative") else Ok [SUint (a - b)]).

Definition opDiv : stackOp := onUints (fun a b => if b =? 0 then Err (Errorf "/ 0") else Ok [SUint (a / b)]).
Definition opModulo : stackOp := onUints (fun a b => if b =? 0 then Err (Errorf "% 0") else Ok [SUint (a mod b)]).

Definition opMul : stackOp := onUints (fun a b =>
  let '(high, low) := Mul64 a b in
  if 0 <? high then Err (Errorf "* overflowed") else Ok [SUint low]).

Definition opMulw : stackOp := onUints (fun a b =>
  let '(high, low) := Mul64 a b in Ok [SUint low; SUint high]).

Definition opDivw : stackOp := fun st =>
  match st with
  | SUint y :: SUint lo :: SUint hi :: st =>
      if y =? 0 then Err (Errorf "divw 0")
      else if y <=? hi then Err (Errorf "divw overflow")
      else Ok (SUint ((hi * two64 + lo) / y) :: st)
  | _ => Panic
  end.

Definition opNot : stackOp := onUint (fun a => Ok [svBool (a =? 0)]).
Definition opLt : stackOp := onUints (fun a b => Ok [svBool (a <? b)]).
Definition opGt : stackOp := fun st => st ← opSwap st; opLt st.
Definition opLe : stackOp := fun st => st ← opGt st; opNot st.
Definition opGe : stackOp := fun st => st ← opLt st; opNot st.
Definition opAnd : stackOp := onUints (fun a b => Ok [svBool (negb (a =? 0) && negb (b =? 0))]).
Definition opOr : stackOp := onUints (fun a b => Ok [svBool (negb (a =? 0) || negb (b =? 0))]).

Definition opEq : stackOp := fun st =>
  match st with
  | SBytes b :: SBytes a :: st => Ok (svBool (bool_decide (a = b)) :: st)
  | SUint b :: SUint a :: st => Ok (svBool (a =? b) :: st)
  | _ :: _ :: _ => Err (Errorf "cannot compare")
  | _ => Panic
  end.
Definition opNeq : stackOp := fun st => st ← opEq st; opNot st.

Definition opLen : stackOp := onBytes (fun a => Ok [SUint (slen a)]).
Definition opItob : stackOp := onUint (fun a => Ok [SBytes (of_bytes (be_bytes 8 a))]).

(** [value<<8 | b], byte by byte. *)
Definition convertBytesToInt (x : string) : Z :=
  fold_left (fun out b => Z.lor (wrap64 (Z.shiftl out 8)) (Z.land b 255)) (bytes_of x) 0.

Definition opBtoi : stackOp := onBytes (fun ibytes =>
  if 8 <? slen ibytes then Err (Errorf "btoi arg too long") else Ok [SUint (convertBytesToInt ibytes)]).

Definition opBitOr : stackOp := onUints (fun a b => Ok [SUint (Z.lor a b)]).
Definition opBitAnd : stackOp := onUints (fun a b => Ok [SUint (Z.land a b)]).
Definition opBitXor : stackOp := onUints (fun a b => Ok [SUint (Z.lxor a b)]).
Definition opBitNot : stackOp := onUint (fun a => Ok [SUint (Z.lxor a MaxUint64)]).

Definition opShiftLeft : stackOp := onUints (fun a b =>
  if 63 <? b then Err (Errorf "shl arg too big") else Ok [SUint (wrap64 (Z.shiftl a b))]).
Definition opShiftRight : stackOp := onUints (fun a b =>
  if 63 <? b then Err (Errorf "shr arg too big") else Ok [SUint (Z.shiftr a b)]).

(** The loop of the integer square root, two bits of [sq] at a time. *)
Fixpoint sqrt_loop (n : nat) (sq rem root : Z) : Z :=
  match n with
  | O => root
  | S n' =>
      let root := wrap64 (Z.shiftl root 1) in
      let rem := Z.lor (wrap64 (Z.shiftl rem 2)) (Z.shiftr sq 62) in
      let sq := wrap64 (Z.shiftl sq 2) in
      if root <? rem then sqrt_loop n' sq (wrap64 (rem - Z.lor root 1)) (wrap64 (root + 2))
      else sqrt_loop n' sq rem root
  end.
Definition opSqrt : stackOp := onUint (fun a => Ok [SUint (Z.shiftr (sqrt_loop 32 a 0 0) 1)]).

(** The bit length of bytes: from the first byte that is not zero. *)
Fixpoint bytes_bit_len (l : list Z) : Z :=
  match l with
  | [] => 0
  | b :: rest => if negb (b =? 0) then bit_len b + 8 * llen rest else bytes_bit_len rest
  end.
Definition opBitLen : stackOp := fun st =>
  match st with
  | SUint a :: st => Ok (SUint (bit_len a) :: st)
  | SBytes b :: st => Ok (SUint (bytes_bit_len (bytes_of b)) :: st)
  | _ => Panic
  end.

(** [exp - 1] multiplications, each checked. *)
Fixpoint exp_loop (n : nat) (answer base : Z) : outcome Z :=
  match n with
  | O => Ok answer
  | S n' =>
      let next := wrap64 (answer * base) in
      if negb (next / answer =? base) then Err (Errorf "exp overflow") else exp_loop n' next base
  end.

Definition opExpImpl (base exp : Z) : outcome Z :=
  if (exp =? 0) && (base =? 0) then Err (Errorf "0^0 is undefined")
  else if base =? 0 then Ok 0
  else if (exp =? 0) || (base =? 1) then Ok 1
  else if 64 <=? exp then Err (Errorf "exp overflow")
  else exp_loop (Z.to_nat (exp - 1)) base base.

Definition opExp : stackOp := onUints (fun base exp => val ← opExpImpl base exp; Ok [SUint val]).

Fixpoint expw_loop (n : nat) (answer base : Z) : outcome Z :=
  match n with
  | O => Ok answer
  | S n' =>
      let answer := answer * base in
      if 128 <? bit_len answer then Err (Errorf "expw overflow") else expw_loop n' answer base
  end.

Definition opExpwImpl (base exp : Z) : outcome Z :=
  if (exp =? 0) && (base =? 0) then Err (Errorf "0^0 is undefined")
  else if base =? 0 then Ok 0
  else if (exp =? 0) || (base =? 1) then Ok 1
  else if 128 <=? exp then Err (Errorf "expw overflow")
  else expw_loop (Z.to_nat (exp - 1)) base base.

Definition opExpw : stackOp := onUints (fun base exp =>
  val ← opExpwImpl base exp;
  Ok [SUint (wrap64 val); SUint (wrap64 (Z.shiftr val 64))]).

(** *** Arithmetic on byte strings *)

Definition bytesTooLarge (a b : string) : bool := (MaxByteMathSize <? slen b) || (MaxByteMathSize <? slen a).

(** [op] is given the result to write; its own error is reported at the end. *)
Definition opBytesBinOp (op : Z -> Z -> outcome Z) : stackOp := onBytess (fun a b =>
  if bytesTooLarge a b then Err (Errorf "math attempted on large byte-array")
  else result ← op (big_of a) (big_of b);
       if result <? 0 then Err (Errorf "byte math would have negative result")
       else Ok [SBytes (big_bytes result)]).

Definition opBytesPlus : stackOp := opBytesBinOp (fun x y => Ok (x + y)).
Definition opBytesMinus : stackOp := opBytesBinOp (fun x y => Ok (x - y)).
Definition opBytesDiv : stackOp := opBytesBinOp (fun x y =>
  if bit_len y =? 0 then Err (Errorf "division by zero") else Ok (x / y)).
Definition opBytesMul : stackOp := opBytesBinOp (fun x y => Ok (x * y)).
Definition opBytesModulo : stackOp := opBytesBinOp (fun x y =>
  if bit_len y =? 0 then Err (Errorf "modulo by zero") else Ok (x mod y)).

Definition opBytesSqrt : stackOp := onBytes (fun a =>
  if MaxByteMathSize <? slen a then Err (Errorf "math attempted on large byte-array")
  else Ok [SBytes (big_bytes (Z.sqrt (big_of a)))]).

Definition opBytesCmp (test : Z -> Z -> bool) : stackOp := onBytess (fun a b =>
  if bytesTooLarge a b then Err (Errorf "math attempted on large byte-array")
  else Ok [svBool (test (big_of a) (big_of b))]).
Definition opBytesLt : stackOp := opBytesCmp Z.ltb.
Definition opBytesGt : stackOp := fun st => st ← opSwap st; opBytesLt st.
Definition opBytesLe : stackOp := fun st => st ← opBytesGt st; opNot st.
Definition opBytesGe : stackOp := fun st => st ← opBytesLt st; opNot st.
Definition opBytesEq : stackOp := opBytesCmp Z.eqb.
Definition opBytesNeq : stackOp := fun st => st ← opBytesEq st; opNot st.

(** *** Bitwise operations on byte strings, the shorter one padded with zeros *)

Definition zpad (smaller : list Z) (size : nat) : list Z := repeat 0 (size - length smaller) ++ smaller.

Definition opBytesBinaryLogicPrep (a b : list Z) : list Z * list Z :=
  if Nat.ltb (length a) (length b) then (zpad a (length b), b) else (zpad b (length a), a).

Definition opBytesLogic (f : Z -> Z -> Z) : stackOp := onBytess (fun a b =>
  let '(fresh, other) := opBytesBinaryLogicPrep (bytes_of a) (bytes_of b) in
  Ok [SBytes (of_bytes (zip_with f fresh other))]).
Definition opBytesBitOr : stackOp := opBytesLogic Z.lor.
Definition opBytesBitAnd : stackOp := opBytesLogic Z.land.
Definition opBytesBitXor : stackOp := opBytesLogic Z.lxor.

Definition opBytesBitNot : stackOp := onBytes (fun a => Ok [SBytes (of_bytes (map (fun b => Z.lxor b 255) (bytes_of a)))]).

Definition opBytesZero : stackOp := onUint (fun length =>
  if MaxStringSize <? length then Err (Errorf "bzero attempted to create a too large string")
  else Ok [SBytes (of_bytes (repeat 0 (Z.to_nat length)))]).

(** *** Parts of byte strings *)

Definition opConcat : stackOp := onBytess (fun a b => Ok [SBytes (a +:+ b)]).

Definition substring (x : string) (start end_ : Z) : outcome string :=
  if end_ <? start then Err (Errorf "substring end before start")
  else if (slen x <? start) || (slen x <? end_) then Err (Errorf "substring range beyond length of string")
  else Ok (slice x start end_).

Definition opSubstring (start end_ : Z) : stackOp :=
  onBytes (fun x => out ← substring x start end_; Ok [SBytes out]).

Definition opSubstring3 : stackOp := fun st =>
  match st with
  | SUint end_ :: SUint start :: SBytes x :: st =>
      if (MaxInt32 <? start) || (MaxInt32 <? end_) then Err (Errorf "substring range beyond length of string")
      else out ← substring x start end_; Ok (SBytes out :: st)
  | _ => Panic
  end.

Definition opGetBit : stackOp := fun st =>
  match st with
  | SUint idx :: SUint target :: st =>
      if 63 <? idx then Err (Errorf "getbit index > 63 with with Uint")
      else let mask := Z.shiftl 1 idx in Ok (SUint (Z.shiftr (Z.land target mask) idx) :: st)
  | SUint idx :: SBytes target :: st =>
      let byteIdx := idx / 8 in
      if slen target <=? byteIdx then Err (Errorf "getbit index beyond byteslice")
      else byteVal ← byteAt target byteIdx;
           let bitIdx := idx mod 8 in
           let mask := Z.shiftr 128 bitIdx in
           Ok (SUint (Z.shiftr (Z.land byteVal mask) (7 - bitIdx)) :: st)
  | _ => Panic
  end.

Definition opSetBit : stackOp := fun st =>
  match st with
  | SUint bit :: SUint idx :: target :: st =>
      if 1 <? bit then Err (Errorf "setbit value > 1")
      else match target with
           | SUint u =>
               if 63 <? idx then Err (Errorf "setbit index > 63 with Uint")
               else let mask := Z.shiftl 1 idx in
                    Ok (SUint (if bit =? 1 then Z.lor u mask else Z.ldiff u mask) :: st)
           | SBytes x =>
               let byteIdx := idx / 8 in
               if slen x <=? byteIdx then Err (Errorf "setbit index beyond byteslice")
               else byteVal ← byteAt x byteIdx;
                    let mask := Z.shiftr 128 (idx mod 8) in
                    let byteVal := if bit =? 1 then Z.lor byteVal mask else Z.ldiff byteVal mask in
                    Ok (SBytes (setByteAt x byteIdx byteVal) :: st)
           end
  | _ => Panic
  end.

Definition opGetByte : stackOp := fun st =>
  match st with
  | SUint idx :: SBytes target :: st =>
      if slen target <=? idx then Err (Errorf "getbyte index beyond array length")
      else b ← byteAt target idx; Ok (SUint b :: st)
  | _ => Panic
  end.

Definition opSetByte : stackOp := fun st =>
  match st with
  | SUint val :: SUint idx :: SBytes target :: st =>
      if 255 <? val then Err (Errorf "setbyte value > 255")
      else if slen target <=? idx then Err (Errorf "setbyte index beyond array length")
      else Ok (SBytes (setByteAt target idx val) :: st)
  | _ => Panic
  end.

(** [int(start)] may be negative; then slicing panics. *)
Definition opExtractImpl (x : string) (start length : Z) : outcome string :=
  let end_ := swrap64 (start + length) in
  if (slen x <? start) || (slen x <? end_) then Err (Errorf "extract range beyond length of string")
  else if (start <? 0) || (end_ <? start) then Panic
  else Ok (slice x start end_).

Definition opExtract (startIdx lengthIdx : Z) : stackOp := onBytes (fun x =>
  let length := if lengthIdx =? 0 then slen x - startIdx else lengthIdx in
  out ← opExtractImpl x startIdx length; Ok [SBytes out]).

Definition opExtract3 : stackOp := fun st =>
  match st with
  | SUint lengthIdx :: SUint startIdx :: SBytes x :: st =>
      if (MaxInt32 <? startIdx) || (MaxInt32 <? lengthIdx) then Err (Errorf "extract range beyond length of string")
      else out ← opExtractImpl x startIdx lengthIdx; Ok (SBytes out :: st)
  | _ => Panic
  end.

Definition opExtractNBytes (n : Z) : stackOp := fun st =>
  match st with
  | SUint startIdx :: SBytes x :: st =>
      out ← opExtractImpl x (swrap64 startIdx) n; Ok (SUint (convertBytesToInt out) :: st)
  | _ => Panic
  end.
Definition opExtract16Bits : stackOp := opExtractNBytes 2.
Definition opExtract32Bits : stackOp := opExtractNBytes 4.
Definition opExtract64Bits : stackOp := opExtractNBytes 8.
