(* ===== verification/LogicParams.v ===== *)
(** [src/data/transactions/logic/eval.go]: the evaluation parameters of a
    transaction group.

    [EvalParams] of the source points to values that the inner groups of a group
    share with it (the fee credit, the pooled budget of opcodes, the pooled number
    of inner transactions, the resources created); they are the record [Shared]
    here, and an [evalState] pairs it with the parameters of one group.
    [NewEvalParams] always sets the fee credit, so it is never nil.  The chain of
    callers of a group ([caller]) is an argument of the functions that walk it; the
    parameters of an inner group hold what its members are identified by, the ID of
    the calling transaction and the number of inner transactions it had.  Traces,
    loggers, debuggers and the caches of application addresses and program hashes
    are left out: they change no answer.  The cache of transaction IDs does. *)
From S2P Require Import Prelude Config Basics Transactions AvmValue.
#[local] Open Scope string_scope.
#[local] Open Scope list_scope.
#[local] Open Scope Z_scope.

Record resources : Type := mkresources { res_asas : list AssetIndex; res_apps : list AppIndex }.
Definition resources_zero : resources := mkresources [] [].

Record Shared : Type := mkShared {
  sh_FeeCredit : Z;
  sh_PooledApplicationBudget : option Z;
  sh_pooledAllowedInners : option Z;
  sh_created : resources }.
#[export] Instance Eta_Shared : Eta Shared := fun r =>
  mkShared (sh_FeeCredit r) (sh_PooledApplicationBudget r) (sh_pooledAllowedInners r) (sh_created r).

(** A scratch space, by slot; a slot that was never written holds zero. *)
Definition scratchSpace : Type := gmap Z stackValue.

Record EvalParams : Type := mkEvalParams {
  ep_Proto : ConsensusParams;
  ep_TxnGroup : list SignedTxnWithAD;
  ep_pastScratch : gmap Z scratchSpace;
  ep_MinTealVersion : Z;
  ep_Specials : SpecialAddresses;
  ep_txidCache : gmap Z Digest;
  ep_caller : option (Digest * Z) }.
#[export] Instance Eta_EvalParams : Eta EvalParams := fun r =>
  mkEvalParams (ep_Proto r) (ep_TxnGroup r) (ep_pastScratch r) (ep_MinTealVersion r) (ep_Specials r)
    (ep_txidCache r) (ep_caller r).

Definition evalState : Type := Shared * EvalParams.

(** An index that is out of range is a panic. *)
Definition txnAt (ep : EvalParams) (gi : Z) : outcome SignedTxnWithAD :=
  match ep_TxnGroup ep !! Z.to_nat gi with Some txn => Ok txn | None => Panic end.

(** ** Constants *)

Definition rekeyingEnabledVersion : Z := 2.
Definition appsEnabledVersion : Z := 2.
Definition innerAppsEnabledVersion : Z := ExtraProgramChecksVersion.
Definition EvalMaxVersion : Z := 6.
Definition maxAppCallDepth : Z := 8.

(** ** Building the parameters *)

Definition stad_tx (txn : SignedTxnWithAD) : Transaction := stx_Txn (stad_SignedTxn txn).
Definition isAppCall (txn : SignedTxnWithAD) : bool :=
  bool_decide (tx_Type (stad_tx txn) = ApplicationCallTx).

Definition ComputeMinTealVersion (group : list SignedTxnWithAD) (inner : bool) : Z :=
  fold_left (fun minVersion txn =>
    let minVersion :=
      if negb (hdr_RekeyTo (tx_Header (stad_tx txn)) =? 0) && (minVersion <? rekeyingEnabledVersion)
      then rekeyingEnabledVersion else minVersion in
    let minVersion :=
      if isAppCall txn && (minVersion <? appsEnabledVersion) then appsEnabledVersion else minVersion in
    if inner && (minVersion <? innerAppsEnabledVersion) then innerAppsEnabledVersion else minVersion)
    group 0.

(** The members of the group without what was recorded about them. *)
Definition copyWithClearAD (txgroup : list SignedTxnWithAD) : list SignedTxnWithAD :=
  map (fun txn => mkSignedTxnWithAD (stad_SignedTxn txn) ApplyData_zero) txgroup.

(** The fees the members of a group pay, saturating. *)
Definition feesPaid (txgroup : list SignedTxnWithAD) : Z :=
  fold_left (fun paid txn => AddSaturate paid (hdr_Fee (tx_Header (stad_tx txn)))) txgroup 0.

Definition feeCredit (txgroup : list SignedTxnWithAD) (minFee : Z) : Z :=
  let minFeeCount :=
    llen (List.filter (fun txn => negb (bool_decide (tx_Type (stad_tx txn) = CompactCertTx))) txgroup) in
  let feeNeeded := wrap64 (minFee * minFeeCount) in
  wrap64 (feesPaid txgroup - feeNeeded).

Definition NewEvalParams (txgroup : list SignedTxnWithAD) (proto : ConsensusParams) (specials : SpecialAddresses)
    : evalState :=
  let apps := llen (List.filter isAppCall txgroup) in
  (mkShared
     (feeCredit txgroup (proto_MinTxnFee proto))
     (if proto_EnableAppCostPooling proto && (0 <? apps) then Some (apps * proto_MaxAppProgramCost proto) else None)
     (if proto_EnableInnerTransactionPooling proto && (0 <? apps)
      then Some (proto_MaxTxGroupSize proto * proto_MaxInnerTransactions proto) else None)
     resources_zero,
   mkEvalParams proto (copyWithClearAD txgroup) ∅ (ComputeMinTealVersion txgroup false) specials ∅ None).

(** The budget every application call of an inner group brings along; adding to a
    budget that is not pooled is a nil dereference. *)
Definition addBudget (proto : ConsensusParams) (txg : list SignedTxnWithAD) (budget : option Z) : outcome (option Z) :=
  if proto_EnableAppCostPooling proto then
    let calls := llen (List.filter isAppCall txg) in
    match budget with
    | Some b => Ok (Some (b + calls * proto_MaxAppProgramCost proto))
    | None => if 0 <? calls then Panic else Ok None
    end
  else Ok budget.

Definition NewInnerEvalParams (callerID : Digest) (innerOffset : Z) (txg : list SignedTxnWithAD) (st : evalState)
    : outcome evalState :=
  let '(sh, caller) := st in
  let minTealVersion := ComputeMinTealVersion txg true in
  let minTealVersion :=
    if minTealVersion <? ep_MinTealVersion caller then ep_MinTealVersion caller else minTealVersion in
  budget ← addBudget (ep_Proto caller) txg (sh_PooledApplicationBudget sh);
  Ok (sh <| sh_PooledApplicationBudget := budget |>,
      mkEvalParams (ep_Proto caller) txg ∅ minTealVersion (ep_Specials caller) ∅ (Some (callerID, innerOffset))).

(** ** Recording what a transaction did *)

(** Overwrite the [ApplyData] of a member of the group. *)
Definition setAD (gi : Z) (ad : ApplyData) (ep : EvalParams) : EvalParams :=
  ep <| ep_TxnGroup :=
          alter (fun txn => mkSignedTxnWithAD (stad_SignedTxn txn) ad) (Z.to_nat gi) (ep_TxnGroup ep) |>.

Definition RecordAD (gi : Z) (ad : ApplyData) (st : evalState) : evalState :=
  let '(sh, ep) := st in
  let c := sh_created sh in
  let c := if negb (ad_ConfigAsset ad =? 0) then mkresources (res_asas c ++ [ad_ConfigAsset ad]) (res_apps c) else c in
  let c := if negb (ad_ApplicationID ad =? 0) then mkresources (res_asas c) (res_apps c ++ [ad_ApplicationID ad]) else c in
  (sh <| sh_created := c |>, setAD gi ad ep).
