(* ===== verification/LogicLedger.v ===== *)
(** [src/ledger/internal/applications.go]: the ledger as an application sees it.

    The [logicLedger] of the source wraps the cow of the running application, the
    top of the stack here; its methods read accounts, holdings, parameters and
    application storage, write storage, and [Perform] the inner transactions an
    application issues.  [Perform] runs on the stack together with the evaluation
    parameters of the inner group ([LogicParams]); the program of an inner
    application call is evaluated by [evalContract], and [CheckContract] is the
    static check of programs. *)
From S2P Require Import Prelude Config Basics Transactions Bookkeeping StateDelta CompactCert Cow.
From S2P Require Import Balances CowBalances Apply LogicParams.
#[local] Open Scope string_scope.
#[local] Open Scope list_scope.
#[local] Open Scope Z_scope.

Section logic_ledger.
  Context (B : roundCowParent).

(** ** Reading *)

Definition ll_AccountData (addr : Address) : M cowStack AccountData := cow_Get B addr true.

Definition ll_Authorizer (addr : Address) : M cowStack Address :=
  record ← cow_Get B addr false;
  mret (if negb (acct_AuthAddr record =? 0) then acct_AuthAddr record else addr).

Definition ll_AssetHolding (addr : Address) (assetIdx : AssetIndex) : M cowStack AssetHolding :=
  record ← cow_Get B addr false;
  match acct_Assets record !! assetIdx with
  | None => throw (Errorf "account has not opted in to asset")
  | Some holding => mret holding
  end.

Definition ll_AssetParams (assetIdx : AssetIndex) : M cowStack (AssetParams * Address) :=
  '(creator, ok) ← cow_GetCreator B assetIdx AssetCreatable;
  _ ← throwIf (negb ok) (Errorf "asset does not exist");
  record ← cow_Get B creator false;
  match acct_AssetParams record !! assetIdx with
  | None => throw (Errorf "account has not created asset")
  | Some params => mret (params, creator)
  end.

Definition ll_AppParams (appIdx : AppIndex) : M cowStack (AppParams * Address) :=
  '(creator, ok) ← cow_GetCreator B appIdx AppCreatable;
  _ ← throwIf (negb ok) (Errorf "app does not exist");
  record ← cow_Get B creator false;
  match acct_AppParams record !! appIdx with
  | None => throw (Errorf "account has not created app")
  | Some params => mret (params, creator)
  end.

Definition ll_Round : M cowStack Round := gets (fun s => round (cs_cur s)).
Definition ll_LatestTimestamp : M cowStack Z := gets (fun s => prevTimestamp (cs_cur s)).
Definition ll_Counter : M cowStack Z := gets (fun s => par_txnCounter (cs_view B s)).

Definition ll_OptedIn (addr : Address) (appIdx : AppIndex) : M cowStack bool := allocated B addr appIdx false.

(** ** Application storage *)

Definition ll_GetLocal (addr : Address) (appIdx : AppIndex) (key : string) (accountIdx : Z)
    : M cowStack (TealValue * bool) := getKey B addr appIdx false key accountIdx.

Definition ll_SetLocal (addr : Address) (appIdx : AppIndex) (key : string) (value : TealValue) (accountIdx : Z)
    : M cowStack unit := SetKey B addr appIdx false key value accountIdx.

Definition ll_DelLocal (addr : Address) (appIdx : AppIndex) (key : string) (accountIdx : Z)
    : M cowStack unit := DelKey B addr appIdx false key accountIdx.

Definition fetchAppCreator (appIdx : AppIndex) : M cowStack Address :=
  '(addr, ok) ← cow_GetCreator B appIdx AppCreatable;
  _ ← throwIf (negb ok) (Errorf "app does not exist");
  mret addr.

Definition ll_GetGlobal (appIdx : AppIndex) (key : string) : M cowStack (TealValue * bool) :=
  addr ← fetchAppCreator appIdx; getKey B addr appIdx true key 0.

Definition ll_SetGlobal (appIdx : AppIndex) (key : string) (value : TealValue) : M cowStack unit :=
  creator ← fetchAppCreator appIdx; SetKey B creator appIdx true key value 0.

Definition ll_DelGlobal (appIdx : AppIndex) (key : string) : M cowStack unit :=
  creator ← fetchAppCreator appIdx; DelKey B creator appIdx true key 0.

(** ** Inner transactions *)

Section perform.
  Context (evalContract : Z -> AppIndex -> string -> M (cowStack * evalState) (bool * EvalDelta)).
  Context (CheckContract : string -> evalState -> outcome unit).
#[local] Notation state := (cowStack * evalState)%type.
#[local] Instance perform_Balances : Balances state := cow_Balances B evalContract.

(** The switch on the type of the inner transaction. *)
Definition performType (spec : SpecialAddresses) (gi : Z) (tx : Transaction) (ad : ApplyData) : M state ApplyData :=
  let header := tx_Header tx in
  match tx_Type tx with
  | PaymentTx => Payment (tx_Payment tx) header ad
  | KeyRegistrationTx =>
      rnd ← onCow ll_Round;
      _ ← Keyreg (tx_Keyreg tx) header spec rnd; mret ad
  | AssetConfigTx => ctr ← onCow ll_Counter; AssetConfig (tx_AssetConfig tx) header ad ctr
  | AssetTransferTx => AssetTransfer (tx_AssetTransfer tx) header ad
  | AssetFreezeTx => _ ← AssetFreeze (tx_AssetFreeze tx) header; mret ad
  | ApplicationCallTx =>
      ctr ← onCow ll_Counter;
      ApplicationCall (fun program (s : state) => CheckContract program s.2) (tx_ApplicationCall tx) header ad gi tx ctr
  | _ => throw (Errorf "tx in AVM")
  end.

(** The [ApplyData] of an inner transaction is filled in place, in the entry of
    the group that a program evaluated for it writes its [EvalDelta] to as it
    goes.  The copy that went through the transaction type therefore takes the
    [EvalDelta] that is in the entry; before programs kept it there, it is the one
    [StatefulEval] built. *)
Definition inPlace (gi : Z) (tx : Transaction) (ad : ApplyData) (ep : EvalParams) : ApplyData :=
  match tx_Type tx, txnAt ep gi with
  | ApplicationCallTx, Ok txn =>
      if proto_LogicSigVersion (ep_Proto ep) <? 6 then ad
      else ad <| ad_EvalDelta := ad_EvalDelta (stad_ApplyData txn) |>
  | _, _ => ad
  end.

(** [Perform] the transaction at [gi] of the group.  The cow always implements
    [apply.Balances], so [balances()] does not fail; what an inner transaction
    recorded before an error is dropped with its group. *)
Definition Perform (gi : Z) : M state unit :=
  ep ← gets (fun s : state => s.2.2);
  txn ← lift (txnAt ep gi);
  let tx := stad_tx txn in
  let header := tx_Header tx in
  let ad := stad_ApplyData txn in
  '(sr, _) ← bal_Move (hdr_Sender header) (spec_FeeSink (ep_Specials ep)) (hdr_Fee header)
               (Some (ad_SenderRewards ad)) None;
  let ad := ad <| ad_SenderRewards := default 0 sr |> in
  _ ← Rekey header;
  _ ← onCow (modify_cur incTxnCount);
  ad ← performType (ep_Specials ep) gi tx ad;
  modify (fun s : state => let '(sh, ep) := s.2 in (s.1, (sh, setAD gi (inPlace gi tx ad ep) ep))).

End perform.
End logic_ledger.
