(* ===== verification/LogicEval.v ===== *)
(** [src/data/transactions/logic/eval.go]: evaluating an application and the inner
    transactions it issues ([EvalContract], [eval] around the opcode loop,
    [opTxBegin], [opTxNext], [opTxSubmit]).

    What a program does between two steps that leave the interpreter is the
    interpreter's own business, so a running program is a tree ([program]): it asks
    the ledger something and goes on with the answer, looks at the evaluation
    parameters, charges the opcode budget, writes its scratch space, remembers a
    transaction ID, records state deltas and logs, submits a group of inner
    transactions, or stops.  [lg_interpret] gives the tree of a program; the
    theorems about evaluations hold for every such function, and [AvmLoop] defines
    the one of the source, opcode by opcode.  Trees are finite, as an evaluation is:
    each opcode costs at least one unit of a finite budget.

    The recursion from an inner application call into another evaluation takes
    fuel; [LogicDepth.call_depth_bounded] shows that one unit more than
    [maxAppCallDepth] is always enough. *)
From S2P Require Import Prelude Config Basics Transactions Bookkeeping StateDelta CompactCert Cow.
From S2P Require Import Balances CowBalances Apply LogicParams LogicLedger.
#[local] Open Scope string_scope.
#[local] Open Scope list_scope.
#[local] Open Scope Z_scope.

(** ** Programs *)

(** The methods of [LedgerForLogic] an opcode calls; [Perform] is only called by
    [opTxSubmit]. *)
Inductive ledgerCall : Type :=
| CAccountData (addr : Address)
| CAuthorizer (addr : Address)
| CRound
| CLatestTimestamp
| CAssetHolding (addr : Address) (assetIdx : AssetIndex)
| CAssetParams (assetIdx : AssetIndex)
| CAppParams (appIdx : AppIndex)
| COptedIn (addr : Address) (appIdx : AppIndex)
| CGetLocal (addr : Address) (appIdx : AppIndex) (key : string) (accountIdx : Z)
| CSetLocal (addr : Address) (appIdx : AppIndex) (key : string) (value : TealValue) (accountIdx : Z)
| CDelLocal (addr : Address) (appIdx : AppIndex) (key : string) (accountIdx : Z)
| CGetGlobal (appIdx : AppIndex) (key : string)
| CSetGlobal (appIdx : AppIndex) (key : string) (value : TealValue)
| CDelGlobal (appIdx : AppIndex) (key : string)
| CCounter.

Definition answer (c : ledgerCall) : Type :=
  match c with
  | CAccountData _ => AccountData
  | CAuthorizer _ => Address
  | CRound => Round
  | CLatestTimestamp | CCounter => Z
  | CAssetHolding _ _ => AssetHolding
  | CAssetParams _ => AssetParams * Address
  | CAppParams _ => AppParams * Address
  | COptedIn _ _ => bool
  | CGetLocal _ _ _ _ | CGetGlobal _ _ => TealValue * bool
  | CSetLocal _ _ _ _ _ | CDelLocal _ _ _ _ | CSetGlobal _ _ _ | CDelGlobal _ _ => unit
  end.

Inductive prog (A : Type) : Type :=
| Finish (a : A)
| Fail (e : error)
| Crash
| Ask (c : ledgerCall) (k : answer c + error -> prog A)
| Look (k : evalState -> prog A)
| Charge (cost : Z) (k : prog A)
| Store (scratch : scratchSpace) (k : prog A)
| CacheID (gi : Z) (txid : Digest) (k : prog A)
| Log (global : gmap string ValueDelta) (locals : gmap Z (gmap string ValueDelta)) (logs : list string) (k : prog A)
| Submit (subtxns : list SignedTxnWithAD) (k : prog A).
Arguments Finish {A} a.
Arguments Fail {A} e.
Arguments Crash {A}.
Arguments Ask {A} c k.
Arguments Look {A} k.
Arguments Charge {A} cost k.
Arguments Store {A} scratch k.
Arguments CacheID {A} gi txid k.
Arguments Log {A} global locals logs k.
Arguments Submit {A} subtxns k.

(** A program finishes with its verdict. *)
Notation program := (prog bool).

(** ** The context of a program *)

Record context : Type := mkcontext { cx_GroupIndex : Z; cx_appID : AppIndex; cx_callers : list AppIndex }.

(** What the evaluation takes from elsewhere: hashes, the address of an application
    ([AppIndex.Address]) and of compact certificates; and the static check of
    programs and the opcodes. *)
Class LogicHashes : Type := {
  lg_CompactCertSender : Address;
  lg_appAddress : AppIndex -> Address;
  lg_ID : Transaction -> Digest;
  lg_InnerID : Transaction -> Digest -> Z -> Digest;
  lg_HashGroup : list Digest -> Digest }.
Class LogicEnv : Type := {
  #[global] lg_hashes :: LogicHashes;
  lg_CheckContract : string -> evalState -> outcome unit;
  lg_interpret : string -> Z -> context -> program }.

(** ** Building an inner group *)

Section inner_group.
  Context {L : LogicHashes}.

Definition innerTxns (cx : context) (ep : EvalParams) : outcome (list (SignedTxn * ApplyData)) :=
  txn ← txnAt ep (cx_GroupIndex cx);
  Ok (ed_InnerTxns (ad_EvalDelta (stad_ApplyData txn))).

Definition remainingInners (cx : context) (st : evalState) : outcome Z :=
  let '(sh, ep) := st in
  match sh_pooledAllowedInners sh with
  | Some n => if proto_EnableInnerTransactionPooling (ep_Proto ep) then Ok n
              else inners ← innerTxns cx ep; Ok (proto_MaxInnerTransactions (ep_Proto ep) - llen inners)
  | None => inners ← innerTxns cx ep; Ok (proto_MaxInnerTransactions (ep_Proto ep) - llen inners)
  end.

Definition addInnerTxn (cx : context) (subtxns : list SignedTxnWithAD) (st : evalState) : outcome (list SignedTxnWithAD) :=
  let '(sh, ep) := st in
  let p := ep_Proto ep in
  remaining ← remainingInners cx st;
  _ ← failIf ((remaining <? llen subtxns) || (proto_MaxTxGroupSize p <=? llen subtxns))
        (Errorf "too many inner transactions");
  let groupFee := MulSaturate (proto_MinTxnFee p) (wrap64 (llen subtxns + 1)) in
  let groupPaid := feesPaid subtxns in
  let fee := if groupPaid <? groupFee then SubSaturate (groupFee - groupPaid) (sh_FeeCredit sh) else 0 in
  txn ← txnAt ep (cx_GroupIndex cx);
  let h := tx_Header (stad_tx txn) in
  let header := mkHeader (lg_appAddress (cx_appID cx)) fee (hdr_FirstValid h) (hdr_LastValid h) "" "" 0 0 0 0 in
  Ok (subtxns ++
    [mkSignedTxnWithAD
       (mkSignedTxn 0 MultisigSig_zero LogicSig_zero
          (mkTransaction UnknownTx header KeyregTxnFields_zero PaymentTxnFields_zero AssetConfigTxnFields_zero
             AssetTransferTxnFields_zero AssetFreezeTxnFields_zero ApplicationCallTxnFields_zero
             CompactCertTxnFields_zero AddressPrintTxnFields_zero) 0) ApplyData_zero]).

Definition isClearState (p : ConsensusParams) (txn : SignedTxnWithAD) : bool :=
  proto_IsolateClearState p && (apc_OnCompletion (tx_ApplicationCall (stad_tx txn)) =? ClearStateOC).

Definition opTxBegin (cx : context) (subtxns : list SignedTxnWithAD) (st : evalState) : outcome (list SignedTxnWithAD) :=
  _ ← failIf (0 <? llen subtxns) (Errorf "itxn_begin without itxn_submit");
  txn ← txnAt st.2 (cx_GroupIndex cx);
  _ ← failIf (isClearState (ep_Proto st.2) txn) (Errorf "clear state programs can not issue inner transactions");
  addInnerTxn cx subtxns st.

Definition opTxNext (cx : context) (subtxns : list SignedTxnWithAD) (st : evalState) : outcome (list SignedTxnWithAD) :=
  _ ← failIf (llen subtxns =? 0) (Errorf "itxn_next without itxn_begin");
  addInnerTxn cx subtxns st.

End inner_group.

Section logic_eval.
  Context {L : LogicEnv} (B : roundCowParent).
#[local] Notation state := (cowStack * evalState)%type.

Definition askLedger (c : ledgerCall) : M cowStack (answer c) :=
  match c with
  | CAccountData addr => ll_AccountData B addr
  | CAuthorizer addr => ll_Authorizer B addr
  | CRound => ll_Round
  | CLatestTimestamp => ll_LatestTimestamp
  | CAssetHolding addr assetIdx => ll_AssetHolding B addr assetIdx
  | CAssetParams assetIdx => ll_AssetParams B assetIdx
  | CAppParams appIdx => ll_AppParams B appIdx
  | COptedIn addr appIdx => ll_OptedIn B addr appIdx
  | CGetLocal addr appIdx key accountIdx => ll_GetLocal B addr appIdx key accountIdx
  | CSetLocal addr appIdx key value accountIdx => ll_SetLocal B addr appIdx key value accountIdx
  | CDelLocal addr appIdx key accountIdx => ll_DelLocal B addr appIdx key accountIdx
  | CGetGlobal appIdx key => ll_GetGlobal B appIdx key
  | CSetGlobal appIdx key value => ll_SetGlobal B appIdx key value
  | CDelGlobal appIdx key => ll_DelGlobal B appIdx key
  | CCounter => ll_Counter B
  end.

(** ** Changing the parameters *)

#[local] Notation proto s := (ep_Proto s.2.2).

Definition onShared (f : Shared -> Shared) : M state unit :=
  modify (fun s : state => (s.1, (f s.2.1, s.2.2))).

(** The scratch space of a program is kept for the later ones of its group; nobody
    else reads it while the program runs, so it is written as the program goes. *)
Definition setScratch (cx : context) (scratch : scratchSpace) : M state unit :=
  modify (fun s : state =>
    (s.1, (s.2.1, s.2.2 <| ep_pastScratch := <[cx_GroupIndex cx := scratch]> (ep_pastScratch s.2.2) |>))).

Definition cacheID (gi : Z) (txid : Digest) : M state unit :=
  modify (fun s : state => (s.1, (s.2.1, s.2.2 <| ep_txidCache := <[gi := txid]> (ep_txidCache s.2.2) |>))).

(** The [EvalDelta] of the transaction the program runs for, in its group. *)
Definition onDelta (cx : context) (f : EvalDelta -> EvalDelta) : M state unit :=
  ep ← gets (fun s : state => s.2.2);
  txn ← lift (txnAt ep (cx_GroupIndex cx));
  let ad := stad_ApplyData txn in
  modify (fun s : state =>
    (s.1, (s.2.1, setAD (cx_GroupIndex cx) (ad <| ad_EvalDelta := f (ad_EvalDelta ad) |>) s.2.2))).

(** ** Submitting an inner group *)

(** Fees are pooled over the group; the credit of the whole transaction group pays
    a shortfall and receives what is overpaid. *)
Definition chargeFees (p : ConsensusParams) (subtxns : list SignedTxnWithAD) (credit : Z) : outcome Z :=
  let groupFee := MulSaturate (proto_MinTxnFee p) (wrap64 (llen subtxns)) in
  let groupPaid := feesPaid subtxns in
  if groupPaid <? groupFee then
    let shortfall := groupFee - groupPaid in
    if credit <? shortfall then Err (Errorf "fee too small") else Ok (credit - shortfall)
  else Ok (AddSaturate credit (groupPaid - groupFee)).

Definition authorizedSender (cx : context) (addr : Address) : M state unit :=
  authorizer ← onCow (ll_Authorizer B addr);
  throwIf (negb (lg_appAddress (cx_appID cx) =? authorizer)) (Errorf "app unauthorized").

(** Walk the callers of the running application; their number is its depth. *)
Fixpoint callDepth (callers : list AppIndex) (called : AppIndex) (depth : Z) : outcome Z :=
  match callers with
  | [] => Ok depth
  | parent :: rest =>
      if parent =? called then Err (Errorf "attempt to re-enter") else callDepth rest called (depth + 1)
  end.

(** The checks on an inner application call. *)
Definition checkInnerCall (cx : context) (ac : ApplicationCallTxnFields) : M state unit :=
  _ ← throwIf (cx_appID cx =? apc_ApplicationID ac) (Errorf "attempt to self-call");
  depth ← lift (callDepth (cx_callers cx) (apc_ApplicationID ac) 0);
  _ ← throwIf (maxAppCallDepth <=? depth) (Errorf "appl depth exceeded");
  program ← (if negb (apc_ApplicationID ac =? 0) then
               '(app, _) ← onCow (ll_AppParams B (apc_ApplicationID ac));
               mret (app_ApprovalProgram app)
             else mret (apc_ApprovalProgram ac));
  '(v, _) ← lift (ProgramVersion program);
  throwIf (v <? innerAppsEnabledVersion) (Errorf "inner app call with version").

Definition checkSubtxn (cx : context) (sub : SignedTxnWithAD) : M state unit :=
  let tx := stad_tx sub in
  _ ← authorizedSender cx (hdr_Sender (tx_Header tx));
  ep ← gets (fun s : state => s.2.2);
  _ ← lift (WellFormed lg_CompactCertSender tx (ep_Specials ep) (ep_Proto ep));
  if bool_decide (tx_Type tx = ApplicationCallTx) then checkInnerCall cx (tx_ApplicationCall tx) else mret tt.

Definition withGroup (g : Digest) (txn : SignedTxnWithAD) : SignedTxnWithAD :=
  let stx := stad_SignedTxn txn in
  let tx := stx_Txn stx in
  mkSignedTxnWithAD (stx <| stx_Txn := tx <| tx_Header := tx_Header tx <| hdr_Group := g |> |> |>) (stad_ApplyData txn).

(** Several inner transactions form a group of their own. *)
Definition groupSubtxns (cx : context) (subtxns : list SignedTxnWithAD) (ep : EvalParams) : outcome (list SignedTxnWithAD) :=
  if 1 <? llen subtxns then
    txn ← txnAt ep (cx_GroupIndex cx);
    let parent := lg_ID (stad_tx txn) in
    let innerOffset := llen (ed_InnerTxns (ad_EvalDelta (stad_ApplyData txn))) in
    let hashes := map (fun sub => lg_InnerID (stad_tx sub) parent innerOffset) subtxns in
    Ok (map (withGroup (lg_HashGroup hashes)) subtxns)
  else Ok subtxns.

Section submit.
(** Evaluation of a program, given the callers of its application. *)
  Context (evalContract : list AppIndex -> Z -> AppIndex -> string -> M state (bool * EvalDelta)).

(** [for i := range ep.TxnGroup] *)
Fixpoint performAll (callers : list AppIndex) (gi : Z) (n : nat) : M state unit :=
  match n with
  | O => mret tt
  | S n' =>
      _ ← Perform B (evalContract callers) lg_CheckContract gi;
      _ ← (fun s : state =>
             match txnAt s.2.2 gi with
             | Ok txn => (Ok tt, (s.1, RecordAD gi (stad_ApplyData txn) s.2))
             | Err e => (Err e, s)
             | Panic => (Panic, s)
             end);
      performAll callers (gi + 1) n'
  end.

(** Run the inner group on its own parameters; the shared values it leaves are the
    caller's, which then records the group. *)
Definition runInner (cx : context) (subtxns : list SignedTxnWithAD) : M state (list SignedTxnWithAD) := fun s =>
  match
    txn ← txnAt s.2.2 (cx_GroupIndex cx);
    NewInnerEvalParams (lg_ID (stad_tx txn)) (llen (ed_InnerTxns (ad_EvalDelta (stad_ApplyData txn)))) subtxns s.2
  with
  | Ok inner =>
      let '(r, (cow, (sh, ep))) := performAll (cx_appID cx :: cx_callers cx) 0 (length subtxns) (s.1, inner) in
      (_ ← r; Ok (ep_TxnGroup ep), (cow, (sh, s.2.2)))
  | Err e => (Err e, s)
  | Panic => (Panic, s)
  end.

(** The ledger is always there. *)
Definition opTxSubmit (cx : context) (subtxns : list SignedTxnWithAD) : M state unit :=
  remaining ← (fun s : state => (remainingInners cx s.2, s));
  p ← gets (fun s : state => proto s);
  _ ← throwIf ((remaining <? llen subtxns) || (proto_MaxTxGroupSize p <? llen subtxns))
        (Errorf "too many inner transactions");
  _ ← throwIf (llen subtxns =? 0) (Errorf "itxn_submit without itxn_begin");
  credit ← (fun s : state => (chargeFees p subtxns (sh_FeeCredit s.2.1), s));
  _ ← onShared (fun sh => sh <| sh_FeeCredit := credit |>);
  _ ← mforeach (checkSubtxn cx) subtxns;
  subtxns ← (fun s : state => (groupSubtxns cx subtxns s.2.2, s));
  _ ← onShared (fun sh => sh <| sh_pooledAllowedInners :=
                             (fun n => n - llen subtxns) <$> sh_pooledAllowedInners sh |>);
  ran ← runInner cx subtxns;
  onDelta cx (fun ed => ed <| ed_InnerTxns :=
    ed_InnerTxns ed ++ map (fun txn => (stad_SignedTxn txn, stad_ApplyData txn)) ran |>).

(** The opcode loop. *)
Fixpoint runProgram {A} (cx : context) (p : prog A) : M state A :=
  match p with
  | Finish a => mret a
  | Fail e => throw e
  | Crash => lift Panic
  | Ask c k => r ← attempt (onCow (askLedger c)); runProgram cx (k r)
  | Look k => st ← gets snd; runProgram cx (k st)
  | Charge cost k =>
      _ ← onShared (fun sh => sh <| sh_PooledApplicationBudget :=
                                 (fun b => b - cost) <$> sh_PooledApplicationBudget sh |>);
      runProgram cx k
  | Store scratch k => _ ← setScratch cx scratch; runProgram cx k
  | CacheID gi txid k => _ ← cacheID gi txid; runProgram cx k
  | Log global locals logs k =>
      _ ← onDelta cx (fun ed => mkEvalDelta global locals logs (ed_InnerTxns ed));
      runProgram cx k
  | Submit subtxns k => _ ← opTxSubmit cx subtxns; runProgram cx k
  end.

Definition versionCheck (program : string) (ep : EvalParams) : outcome Z :=
  '(version, _) ← ProgramVersion program;
  _ ← failIf (EvalMaxVersion <? version) (Errorf "program version greater than max supported version");
  _ ← failIf (proto_LogicSigVersion (ep_Proto ep) <? version)
        (Errorf "program version greater than protocol supported version");
  _ ← failIf (version <? ep_MinTealVersion ep) (Errorf "program version must be >= for this transaction group");
  Ok version.

(** A panic of an opcode is recovered and becomes an error. *)
Definition recovered {A} (m : M state A) : M state A := fun s =>
  match m s with
  | (Panic, s') => (Err (Errorf "panic in TEAL Eval"), s')
  | rs => rs
  end.

Definition eval (cx : context) (code : string) : M state bool :=
  recovered (
    ep ← gets (fun s : state => s.2.2);
    txn ← lift (txnAt ep (cx_GroupIndex cx));
    _ ← throwIf (proto_LogicSigVersion (ep_Proto ep) =? 0) (Errorf "LogicSig not supported");
    _ ← throwIf (EvalMaxArgs <? llen (ls_Args (stx_Lsig (stad_SignedTxn txn)))) (Errorf "LogicSig has too many arguments");
    version ← lift (versionCheck code ep);
    _ ← onDelta cx (fun ed => mkEvalDelta ∅ ∅ (ed_Logs ed) (ed_InnerTxns ed));
    runProgram cx (lg_interpret code version cx)).

(** Evaluate a program as the transaction [gi] of the group. *)
Definition evalContract1 (callers : list AppIndex) (gi : Z) (aid : AppIndex) (code : string) : M state (bool * EvalDelta) :=
  _ ← throwIf (aid =? 0) (Errorf "0 appId in contract eval");
  ep ← gets (fun s : state => s.2.2);
  txn ← lift (txnAt ep gi);
  budget ← gets (fun s : state => sh_PooledApplicationBudget s.2.1);
  _ ← throwIf (isClearState (ep_Proto ep) txn &&
               match budget with Some b => b <? proto_MaxAppProgramCost (ep_Proto ep) | None => false end)
        ClearStateBudgetError;
  _ ← setScratch (mkcontext gi aid callers) ∅;
  pass ← eval (mkcontext gi aid callers) code;
  ep ← gets (fun s : state => s.2.2);
  txn ← lift (txnAt ep gi);
  mret (pass, ad_EvalDelta (stad_ApplyData txn)).

End submit.

Definition outOfFuel : error := Errorf "out of fuel".

(** The calls an evaluation makes into others take one unit of fuel less. *)
Fixpoint EvalContract (fuel : nat) (callers : list AppIndex) (gi : Z) (aid : AppIndex) (code : string)
    : M state (bool * EvalDelta) :=
  match fuel with
  | O => throw outOfFuel
  | S fuel' => evalContract1 (EvalContract fuel') callers gi aid code
  end.

End logic_eval.
