(* ===== verification/LogicFacts.v ===== *)
(** What holds of every evaluation of an application: it works on its own cow
    through steps that keep the invariant of the stack, and it conserves money. *)
From S2P Require Import Prelude Config Basics Transactions Bookkeeping StateDelta CompactCert Cow.
From S2P Require Import CowFacts CowStorage Balances CowBalances Apply ApplyFacts Eval EvalFacts.
From S2P Require Import Conserve LogicParams LogicLedger LogicEval.
#[local] Open Scope string_scope.
#[local] Open Scope list_scope.
#[local] Open Scope Z_scope.

(** ** The methods of the ledger an application sees *)

Section ledger_calls.
  Context (B : roundCowParent).

(** A computation on the cow that is a step and leaves the accounts alone. *)
Definition calm {A} (m : M cowStack A) : Prop :=
  forall s, stack_wf B s -> wp m (fun _ s' => step_ok B s s' /\ same_accts B s s') s.

Lemma calm_pure {A} (m : M cowStack A) : (forall s, (m s).2 = s) -> calm m.
Proof. intros Hm s Hwf. unfold wp. rewrite Hm. split; [by apply step_ok_refl|done]. Qed.

Lemma calm_bind {A C} (m : M cowStack A) (k : A -> M cowStack C) : calm m -> (forall a, calm (k a)) -> calm (m ≫= k).
Proof.
  intros Hm Hk s Hwf. apply wp_bind. eapply wp_mono; [by apply Hm|]. intros r s1 [Hst Ha].
  destruct r as [a| |]; cbn [andThen]; [|done..]. eapply wp_mono; [apply Hk, Hst|]. intros r s2 [Hst2 Ha2].
  split; [by eapply step_ok_trans|by eapply same_accts_trans].
Qed.

Lemma calm_throwIf b e : calm (throwIf b e).
Proof. by apply calm_pure. Qed.
Lemma calm_ret {A} (a : A) : calm (mret a).
Proof. by apply calm_pure. Qed.
Lemma calm_throw {A} e : calm (throw (A := A) e).
Proof. by apply calm_pure. Qed.
Lemma calm_Get a w : calm (cow_Get B a w).
Proof.
  apply calm_pure. intros s. unfold cow_Get, lookup, asks, mbind, M_bind. destruct (par_lookup _ _); [|done..]. by destruct w.
Qed.
Lemma calm_GetCreator c t : calm (cow_GetCreator B c t).
Proof. by apply calm_pure. Qed.
Lemma calm_getKey addr i g key idx : calm (getKey B addr i g key idx).
Proof. intros s Hwf. eapply wp_mono; [by apply getKey_wp|]. intros r s' (_ & Hst & Hv & _). split; [done|]. intros a. by rewrite Hv. Qed.

(** Writing a key through a delta of allocated storage. *)
Lemma writeKey_step s addr i g key lsd old oldOk new newOk : stack_wf B s -> sdelta_ok (cs_parent B s) addr (i, g) lsd ->
  sto_action lsd <> deallocAction ->
  wp (writeKey addr i g key lsd old oldOk new newOk) (fun _ s' => step_ok B s s' /\ same_accts B s s') s.
Proof.
  intros Hwf Hok Hna. unfold writeKey. cbv zeta.
  set (vd := match sto_kvCow lsd !! key with Some d => _ | None => _ end).
  destruct (updateCounts _ _ _ _ _) as [r lsd2] eqn:Eu.
  assert (sto_action lsd2 = sto_action lsd /\ sto_maxCounts lsd2 = sto_maxCounts lsd) as [Ha Hm].
  { unfold updateCounts in Eu. destruct (if oldOk then _ else _) as [c| |]; [|by simplify_eq..].
    destruct newOk; [|by simplify_eq]. destruct (incCount new c); by simplify_eq. }
  destruct (set_storage_step (B := B) s addr (i, g) lsd2 Hwf) as [H1 H2].
  { split; [intros Hd; congruence|]. rewrite Ha, Hm. apply Hok. }
  unfold putStorageDelta, modify_cur. wp_step. wp_step. destruct r; cbn [andThen]; [wp_step|..]; by split.
Qed.

(** The delta an operation on allocated storage works on, and writing through it. *)
Lemma ensure_then_write s addr i g key idx old oldOk new newOk :
  stack_wf B s -> par_allocated (cs_view B s) addr i g = Ok true ->
  wp (ensureStorageDelta B addr i g remainAllocAction idx)
    (fun r s2 => (step_ok B s s2 /\ same_accts B s s2) /\ forall lsd, r = Ok lsd ->
       wp (writeKey addr i g key lsd old oldOk new newOk) (fun _ s' => step_ok B s s' /\ same_accts B s s') s2) s.
Proof.
  intros Hwf Hal. eapply wp_mono; [by apply ensureStorageDelta_wp|]. intros r s2 (Hst & Ha & Hr).
  split; [done|]. intros lsd ->.
  assert (ensured B s addr (i, g) remainAllocAction lsd /\ cs_parent B s2 = cs_parent B s) as [He Hp].
  { destruct (Hr lsd eq_refl) as [[He ->]|[He ->]]; [done|]. split; [|done]. unfold ensured. by rewrite He. }
  eapply wp_mono; [apply writeKey_step; [apply Hst| |by eapply ensured_allocated]|].
  - rewrite Hp. by eapply ensured_ok.
  - intros r s3 [Hst3 Ha3]. split; [by eapply step_ok_trans|by eapply same_accts_trans].
Qed.

Lemma calm_SetKey addr i g key value idx : calm (SetKey B addr i g key value idx).
Proof.
  unfold SetKey. intros s Hwf. pose proof (step_ok_refl (B := B) s Hwf) as Hrefl. wp_step.
  apply wp_bind, wp_throwIf; intros _; cbn [andThen]; [done|].
  apply wp_bind. eapply (wp_mono _ (fun _ s' => s' = s)).
  { case_match; [|by wp_step]. apply wp_bind, wp_throwIf; intros _; cbn [andThen]; [done|]. by apply wp_throwIf. }
  intros r s0 ->. destruct r; cbn [andThen]; [|done..].
  apply wp_bind. unfold allocated, asks, wp at 1. cbn [fst snd].
  destruct (par_allocated (cs_view B s) addr i g) as [al| |] eqn:Hal; cbn [andThen]; [|done..].
  apply wp_bind, wp_throwIf; intros Hb; cbn [andThen]; [done|]. destruct al; [|done].
  apply wp_bind. eapply wp_mono; [by apply getKey_wp|]. intros r s1 (_ & Hst1 & Hv & _).
  assert (same_accts B s s1) as Ha1 by (intros ?; by rewrite Hv).
  destruct r as [[ov ok]| |]; cbn [andThen]; [|done..].
  apply wp_bind. eapply wp_mono; [apply (ensure_then_write s1 addr i g key idx ov ok value true); [apply Hst1|by rewrite Hv]|].
  intros r s2 [[Hst2 Ha2] Hr].
  assert (step_ok B s s2 /\ same_accts B s s2) as H2 by (split; [by eapply step_ok_trans|by eapply same_accts_trans]).
  destruct r as [lsd| |]; cbn [andThen]; [|done..].
  apply wp_bind. eapply wp_mono; [by apply (Hr lsd)|]. intros r s3 [Hst3 Ha3].
  assert (step_ok B s s3 /\ same_accts B s s3) as H3 by (split; [by eapply step_ok_trans|by eapply same_accts_trans]).
  destruct r; cbn [andThen]; [by wp_step|done..].
Qed.

Lemma calm_DelKey addr i g key idx : calm (DelKey B addr i g key idx).
Proof.
  unfold DelKey. intros s Hwf. pose proof (step_ok_refl (B := B) s Hwf) as Hrefl.
  apply wp_bind. unfold allocated, asks, wp at 1. cbn [fst snd].
  destruct (par_allocated (cs_view B s) addr i g) as [al| |] eqn:Hal; cbn [andThen]; [|done..].
  apply wp_bind, wp_throwIf; intros Hb; cbn [andThen]; [done|]. destruct al; [|done].
  apply wp_bind. eapply wp_mono; [by apply getKey_wp|]. intros r s1 (_ & Hst1 & Hv & _).
  assert (same_accts B s s1) as Ha1 by (intros ?; by rewrite Hv).
  destruct r as [[ov ok]| |]; cbn [andThen]; [|done..].
  apply wp_bind, wp_attempt.
  eapply wp_mono; [apply (ensure_then_write s1 addr i g key idx ov ok TealValue_zero false); [apply Hst1|by rewrite Hv]|].
  intros r s2 [[Hst2 Ha2] Hr].
  assert (step_ok B s s2 /\ same_accts B s s2) as H2 by (split; [by eapply step_ok_trans|by eapply same_accts_trans]).
  destruct r as [lsd| |]; cbn [andThen]; [|by wp_step|done].
  apply wp_bind. eapply wp_mono; [by apply (Hr lsd)|]. intros r s3 [Hst3 Ha3].
  assert (step_ok B s s3 /\ same_accts B s s3) as H3 by (split; [by eapply step_ok_trans|by eapply same_accts_trans]).
  destruct r; cbn [andThen]; [by wp_step|done..].
Qed.

Ltac calm_walk :=
  repeat first
    [ apply calm_Get | apply calm_GetCreator | apply calm_getKey | apply calm_SetKey | apply calm_DelKey
    | apply calm_throwIf | apply calm_ret | apply calm_throw | (apply calm_pure; reflexivity)
    | apply calm_bind; [|intros ?] | case_match ].

Lemma calm_AppParams i : calm (ll_AppParams B i).
Proof. unfold ll_AppParams. calm_walk. Qed.
Lemma calm_Authorizer addr : calm (ll_Authorizer B addr).
Proof. unfold ll_Authorizer. calm_walk. Qed.

(** Whatever an opcode asks the ledger, no account changes. *)
Lemma calm_askLedger c : calm (askLedger B c).
Proof.
  destruct c; cbn [askLedger]; unfold ll_AccountData, ll_AssetHolding, ll_AssetParams, ll_GetLocal, ll_SetLocal,
    ll_DelLocal, ll_GetGlobal, ll_SetGlobal, ll_DelGlobal, fetchAppCreator; 
    first [apply calm_AppParams | apply calm_Authorizer | calm_walk].
Qed.

Lemma calm_incTxnCount : calm (modify_cur incTxnCount).
Proof.
  intros s Hwf. unfold modify_cur. wp_step. split; [|done]. apply (step_ok_cur B s incTxnCount); [done|done|].
  destruct Hwf as [[Ha Hs] _]. by split.
Qed.

End ledger_calls.

(** ** What every evaluation keeps *)

(** Two versions of the parameters of the same group: only what was recorded about
    its members differs. *)
Definition same_txns (ep ep' : EvalParams) : Prop :=
  map stad_SignedTxn (ep_TxnGroup ep') = map stad_SignedTxn (ep_TxnGroup ep) /\
  ep_Proto ep' = ep_Proto ep /\ ep_Specials ep' = ep_Specials ep.

Lemma setAD_txns gi ad ep : same_txns ep (setAD gi ad ep).
Proof.
  split; [|done]. cbn. generalize (ep_TxnGroup ep) as l. induction (Z.to_nat gi) as [|n IH]; intros [|x l]; cbn; try done.
  f_equal. apply IH.
Qed.

(** The pooled budgets. *)
Definition same_pools (sh sh' : Shared) : Prop :=
  sh_PooledApplicationBudget sh' = sh_PooledApplicationBudget sh /\ sh_pooledAllowedInners sh' = sh_pooledAllowedInners sh.

Section evaluation_keeps.
  Context {L : LogicEnv} (B : roundCowParent).
#[local] Notation state := (cowStack * evalState)%type.

(** A relation between states that performing a transaction keeps, given that the
    evaluations it asks for do. *)
Record steady (R : state -> state -> Prop) : Prop := {
  st_refl s : R s s;
  st_trans x y z : R x y -> R y z -> R x z;
  st_calm {A} (m : M cowStack A) : calm B m -> keeps R (onCow m);
  st_params s v : same_txns s.2.2 v.2 -> same_pools s.2.1 v.1 -> R s (s.1, v);
  st_interface ec : (forall gi i code, keeps R (ec gi i code)) ->
    interface_keeps (H := cow_Balances B ec) R }.

(** A relation that all the steps of an evaluation keep. *)
Record stable (R : state -> state -> Prop) : Prop := {
  st_steady : steady R;
  st_shared s v : same_txns s.2.2 v.2 -> R s (s.1, v);
  st_inner s inner cow sh ep : R (s.1, inner) (cow, (sh, ep)) -> R s (cow, (sh, s.2.2)) }.

Section steady_keeps.
  Context (R : state -> state -> Prop) (HR : steady R).

Lemma keeps_params {A} (m : M state A) :
  (forall s, (m s).2.1 = s.1 /\ same_txns s.2.2 (m s).2.2.2 /\ same_pools s.2.1 (m s).2.2.1) -> keeps R m.
Proof.
  intros Hm s. destruct (Hm s) as (H1 & H2 & H3). destruct (m s) as [r [s' v]]. cbn in *. subst s'. by apply (st_params R HR).
Qed.

Lemma keeps_setScratch cx scratch : keeps R (setScratch cx scratch).
Proof. by apply keeps_params. Qed.
Lemma keeps_cacheID gi txid : keeps R (cacheID gi txid).
Proof. by apply keeps_params. Qed.
Lemma keeps_onDelta cx f : keeps R (onDelta cx f).
Proof.
  apply keeps_params. intros s. unfold onDelta, mbind, M_bind, gets, lift, modify.
  destruct (txnAt _ _); cbn; split_and!; try done. apply setAD_txns.
Qed.
Lemma keeps_state {A} (f : state -> outcome A) : keeps R (fun s => (f s, s)).
Proof. intros s. apply (st_refl R HR). Qed.

Ltac seq := apply keeps_bind; [apply (st_trans R HR) | | intros ?].
Ltac walk :=
  repeat first
    [ apply keeps_ret'; apply (st_refl R HR) | apply keeps_throw; apply (st_refl R HR)
    | apply keeps_gets; apply (st_refl R HR) | apply keeps_throwIf; apply (st_refl R HR)
    | apply keeps_lift'; apply (st_refl R HR) | apply keeps_attempt
    | apply keeps_setScratch | apply keeps_cacheID | apply keeps_onDelta | apply keeps_state
    | (apply (st_calm R HR); first [apply calm_AppParams | apply calm_Authorizer | apply calm_askLedger | apply calm_incTxnCount
                               | (apply calm_pure; reflexivity)])
    | lazymatch goal with |- keeps _ (_ ≫= _) => seq end
    | progress cbv beta zeta | case_match; try discriminate ].

Lemma keeps_mforeach {A} (f : A -> M state unit) l : (forall a, keeps R (f a)) -> keeps R (mforeach f l).
Proof. intros Hf. induction l as [|a l IH]; cbn [mforeach]; walk; [apply Hf|apply IH]. Qed.

Section perform_keeps.
  Context (evalContract : Z -> AppIndex -> string -> M state (bool * EvalDelta)).
  Context (Hvm : forall gi i code, keeps R (evalContract gi i code)).
#[local] Instance pk_Balances : Balances state := cow_Balances B evalContract.

Ltac by_interface K := apply K; [apply (st_refl R HR) | apply (st_trans R HR) | by apply (st_interface R HR)].

Lemma keeps_performType check spec gi tx ad : keeps R (performType B evalContract check spec gi tx ad).
Proof.
  unfold performType, ll_Round, ll_Counter. destruct (tx_Type tx); cbv zeta.
  - by_interface (keeps_Payment (S := state) R).
  - seq; [walk|]. seq; [by_interface (keeps_Keyreg (S := state) R)|walk].
  - seq; [walk|]. by_interface (keeps_AssetConfig (S := state) R).
  - by_interface (keeps_AssetTransfer (S := state) R).
  - seq; [by_interface (keeps_AssetFreeze (S := state) R)|walk].
  - seq; [walk|]. by_interface (keeps_ApplicationCall (S := state) R).
  - walk.
  - walk.
  - walk.
Qed.

Lemma keeps_Perform check gi : keeps R (Perform B evalContract check gi).
Proof.
  unfold Perform. seq; [walk|]. seq; [walk|]. cbv zeta.
  seq; [apply (ik_Move _ (st_interface R HR evalContract Hvm))|]. case_match.
  seq; [by_interface (keeps_Rekey (S := state) R)|]. seq; [walk|]. seq; [apply keeps_performType|].
  apply keeps_params. intros [s [sh ep]]. split; [done|]. split; [apply setAD_txns|done].
Qed.
End perform_keeps.

Lemma keeps_checkSubtxn cx sub : keeps R (checkSubtxn B cx sub).
Proof. unfold checkSubtxn, authorizedSender, checkInnerCall. walk. Qed.

Lemma keeps_performAll evalContract (Hvm : forall callers gi i code, keeps R (evalContract callers gi i code)) callers n : forall gi, keeps R (performAll B evalContract callers gi n).
Proof.
  induction n as [|n IH]; intros gi; cbn [performAll]; walk; [by apply keeps_Perform| |apply IH].
  apply keeps_params. intros [s [sh ep]]. cbn. destruct (txnAt _ _); cbn; split_and!; try done. apply setAD_txns.
Qed.

Lemma keeps_recovered {A} (m : M state A) : keeps R m -> keeps R (recovered m).
Proof. intros Hm s. specialize (Hm s). unfold recovered. by destruct (m s) as [[]]. Qed.
End steady_keeps.

Section stable_keeps.
  Context (R : state -> state -> Prop) (HS : stable R).
#[local] Notation HR := (st_steady R HS).

Lemma keeps_onShared f : keeps R (onShared f).
Proof. intros s. by apply (st_shared R HS). Qed.

Ltac seq := apply keeps_bind; [apply (st_trans R HR) | | intros ?].
Ltac walk :=
  repeat first
    [ apply keeps_ret'; apply (st_refl R HR) | apply keeps_throw; apply (st_refl R HR)
    | apply keeps_gets; apply (st_refl R HR) | apply keeps_throwIf; apply (st_refl R HR)
    | apply keeps_lift'; apply (st_refl R HR) | apply keeps_attempt
    | apply keeps_onShared | apply (keeps_setScratch R HR) | apply (keeps_cacheID R HR) | apply (keeps_onDelta R HR)
    | apply (keeps_state R HR) | (apply (st_calm R HR); apply calm_askLedger)
    | lazymatch goal with |- keeps _ (_ ≫= _) => seq end
    | progress cbv beta zeta | case_match; try discriminate ].

Section submit_keeps.
  Context (evalContract : list AppIndex -> Z -> AppIndex -> string -> M state (bool * EvalDelta)).
  Context (Hvm : forall callers gi i code, keeps R (evalContract callers gi i code)).

Lemma keeps_runInner cx subtxns : keeps R (runInner B evalContract cx subtxns).
Proof.
  intros s. unfold runInner. destruct (txnAt _ _ ≫= _) as [inner| |]; [|apply (st_refl R HR)..].
  pose proof (keeps_performAll R HR evalContract Hvm (cx_appID cx :: cx_callers cx) (length subtxns) 0 (s.1, inner)) as Hst.
  destruct (performAll _ _ _ _ _ _) as [r [cow [sh ep]]]. by eapply (st_inner R HS).
Qed.

Lemma keeps_opTxSubmit cx subtxns : keeps R (opTxSubmit B evalContract cx subtxns).
Proof. unfold opTxSubmit. walk; [apply (keeps_mforeach R HR), (keeps_checkSubtxn R HR)|apply keeps_runInner]. Qed.

Lemma keeps_runProgram {A} cx (p : prog A) : keeps R (runProgram B evalContract cx p).
Proof. induction p; cbn [runProgram]; walk; auto. apply keeps_opTxSubmit. Qed.

Lemma keeps_eval cx code : keeps R (eval B evalContract cx code).
Proof. unfold eval. apply (keeps_recovered R). walk. apply keeps_runProgram. Qed.

Lemma keeps_evalContract1 callers gi aid code : keeps R (evalContract1 B evalContract callers gi aid code).
Proof. unfold evalContract1. walk. apply keeps_eval. Qed.
End submit_keeps.

Lemma keeps_EvalContract fuel : forall callers gi aid code, keeps R (EvalContract B fuel callers gi aid code).
Proof.
  induction fuel as [|fuel IH]; intros callers gi aid code; [|by apply keeps_evalContract1]. cbn. walk.
Qed.
End stable_keeps.
End evaluation_keeps.

(** *** The invariant of the stack *)

Lemma stable_ok_step B : stable B (ok_step (V := evalState) B).
Proof.
  split; [split|..].
  - apply ok_step_refl.
  - apply ok_step_trans.
  - intros A m Hm. apply keeps_onCow. intros s Hwf. eapply wp_mono; [by apply Hm|]. by intros r s' [? _].
  - intros s v _ _ Hwf. by apply step_ok_refl.
  - intros ec Hec. by apply cow_interface_keeps.
  - intros s v _ Hwf. by apply step_ok_refl.
  - intros s inner cow sh ep Hst Hwf. by apply Hst.
Qed.

Lemma EvalContract_ok `{LogicEnv} B fuel callers : interpreter_ok B (EvalContract B fuel callers).
Proof. intros gi aid code. apply keeps_EvalContract, stable_ok_step. Qed.

(** *** The members of the group *)

Definition txns_step (s s' : cowStack * evalState) : Prop := same_txns s.2.2 s'.2.2.

Lemma keeps_same_params {A} (m : M cowStack A) : keeps txns_step (onCow m).
Proof. by intros s. Qed.

Lemma stable_txns_step B : stable B txns_step.
Proof.
  split; [split|..]; try done.
  - intros x y z (H1 & H2 & H3) (H4 & H5 & H6). split_and!; etrans; eauto.
  - intros ec Hec. split; intros; try apply keeps_same_params. intros [s v]. cbn. unfold StatefulEval.
    pose proof (Hec gi i prog (child 1 s, v)) as Ht. destruct (ec gi i prog (child 1 s, v)) as [r [calf v']].
    destruct r as [[[] ed]|e|]; try done.
    destruct (if proto_LogicSigVersion _ <? 6 then _ else _); try done. by destruct (commitToParent calf).
Qed.

Lemma EvalContract_txns `{LogicEnv} B fuel callers gi aid code : keeps txns_step (EvalContract B fuel callers gi aid code).
Proof. apply (keeps_EvalContract B), stable_txns_step. Qed.
