(* ===== verification/LogicMoney.v ===== *)
(** Applications conserve money: whatever a program does, and whatever inner
    transactions and inner applications it runs, an evaluation that succeeds
    neither makes nor destroys money; one that fails leaves no trace. *)
From S2P Require Import Prelude Config Basics Transactions Bookkeeping StateDelta CompactCert Cow.
From S2P Require Import CowFacts CowStorage Balances CowBalances Apply ApplyFacts Eval EvalFacts.
From S2P Require Import Conserve LogicParams LogicLedger LogicEval LogicFacts.
#[local] Open Scope string_scope.
#[local] Open Scope list_scope.
#[local] Open Scope Z_scope.

(** ** Money of a stack of cows *)

Section stacks.
  Context (B : roundCowParent).

Definition stack_money (s : cowStack) (a : Address) : Z :=
  match par_lookup (cs_view B s) a with
  | Ok d => moneyZ (cow_proto (cs_cur s)) (rewardsLevel (cs_cur s)) d
  | _ => 0
  end.

(** The relation [conserves] of the copy-on-write ledger, which does not depend on
    how programs are evaluated. *)
Definition cow_conserves (s s' : cowStack) : Prop := exists T : gset Address,
  (cow_inv B s' /\ cow_proto (cs_cur s') = cow_proto (cs_cur s) /\
   rewardsLevel (cs_cur s') = rewardsLevel (cs_cur s)) /\
  (forall a, a ∉ T -> par_lookup (cs_view B s') a = par_lookup (cs_view B s) a) /\
  (forall l, NoDup l -> (forall a, a ∈ T -> a ∈ l) -> sumZ (stack_money s') l = sumZ (stack_money s) l).

Lemma conserves_cow {V} ec (s s' : cowStack * V) :
  conserves (H0 := cow_BalancesLaws B ec) s s' <-> cow_conserves s.1 s'.1.
Proof. reflexivity. Qed.

Lemma cow_conserves_same s s' : cow_inv B s -> stack_wf B s' ->
  cow_proto (cs_cur s') = cow_proto (cs_cur s) -> cow_hdr (cs_cur s') = cow_hdr (cs_cur s) ->
  same_accts B s s' -> cow_conserves s s'.
Proof.
  intros (Hwf & Hu & Hl & Hrec) Hwf' Hp Hh Ha.
  assert (rewardsLevel (cs_cur s') = rewardsLevel (cs_cur s)) as Hlv by (unfold rewardsLevel; by rewrite Hh).
  exists ∅. split_and!; [|done|done|done|].
  - split_and!; [done|by rewrite Hp|by rewrite Hlv|]. intros a d. rewrite Ha. apply Hrec.
  - intros l _ _. apply sumZ_ext. intros a _. unfold stack_money. by rewrite Ha, Hp, Hlv.
Qed.

Lemma cow_conserves_trans s1 s2 s3 : cow_conserves s1 s2 -> cow_conserves s2 s3 -> cow_conserves s1 s3.
Proof.
  intros (T1 & (_ & P1 & L1) & F1 & M1) (T2 & (I2 & P2 & L2) & F2 & M2). exists (T1 ∪ T2). split_and!; [done|congruence..| |].
  - intros a Ha. rewrite F2, F1 by set_solver. done.
  - intros l Hnd Hl. rewrite M2, M1 by (auto; set_solver). done.
Qed.

Lemma cow_conserves_refl s : cow_inv B s -> cow_conserves s s.
Proof. intros Hs. apply cow_conserves_same; [done|apply Hs|done..]. Qed.

Lemma cow_conserves_inv s s' : cow_conserves s s' -> cow_inv B s'.
Proof. by intros (T & (? & _) & _). Qed.

(** *** Pushing, dropping and committing a child *)

Lemma child_conserves h s : cow_inv B s -> cow_conserves s (child h s).
Proof.
  intros Hs. pose proof (child_wf B h s (proj1 Hs)) as Hwf.
  apply cow_conserves_same; [done|done|done|done|]. intros a. apply (ve_lookup _ _ (child_view B h s (proj1 Hs))).
Qed.

Lemma discard_conserves h s calf : cow_inv B s -> step_ok B (child h s) calf -> cow_conserves s (discard calf s).
Proof.
  intros Hs Hst. destruct (child_discard_step B h s calf (proj1 Hs) Hst) as (Hwf & (_ & Hp & Hh) & _).
  apply cow_conserves_same; [done|done|done|done|]. intros a. by rewrite (child_discard_view B h s calf).
Qed.

(** A commit shows the accounts the child showed. *)
Lemma commit_lookup s s' : stack_wf B s -> commitToParent s = (Ok tt, s') -> stack_wf B s' -> same_accts B s s'.
Proof.
  intros [Hcb Hps] Hc Hwf'. unfold commitToParent in Hc.
  destruct (cs_parents s) as [|p rest] eqn:E; [done|]. destruct Hps as [Hp _].
  destruct (cow_hasCommitParent (cs_cur s)); [|done].
  destruct (commit_into_spec (parent_of B rest) p (cs_cur s) Hp Hcb) as (q & Hq & _ & _ & _ & _ & Hmap & _).
  rewrite Hq in Hc. injection Hc as <-. intros a.
  rewrite (cs_view_lookup B (mkCowStack q rest)) by done. cbn [cs_cur]. rewrite Hmap, lookup_union.
  unfold cs_view, cs_parent. rewrite E. cbn. unfold cow_lookup. rewrite !Get_spec by (apply Hp || apply Hcb).
  destruct (accts_map (sd_Accts (cow_mods (cs_cur s))) !! a) as [d|]; [by rewrite union_Some_l|].
  rewrite (left_id_L None (∪)). cbn. unfold cow_lookup. rewrite Get_spec by apply Hp. by destruct (accts_map _ !! a).
Qed.

Lemma commit_conserves h s calf : cow_inv B s -> step_ok B (child h s) calf -> cow_conserves (child h s) calf ->
  exists s', commitToParent calf = (Ok tt, s') /\ cow_conserves s s'.
Proof.
  intros Hs Hst Hc. destruct (child_commit_step B h s calf (proj1 Hs) Hst) as (s' & Hcm & Hwf' & (_ & Hp & Hh) & _).
  exists s'. split; [done|]. eapply cow_conserves_trans; [by apply child_conserves|].
  eapply cow_conserves_trans; [exact Hc|]. destruct Hst as (_ & (_ & Hp' & Hh') & _).
  apply cow_conserves_same; [by eapply cow_conserves_inv|done|..].
  - rewrite Hp, Hp'. done.
  - rewrite Hh, Hh'. done.
  - apply commit_lookup; [by apply (cow_conserves_inv _ _ Hc)|done|done].
Qed.

End stacks.

(** ** Transactions whose 64-bit fields hold 64-bit values *)

Definition txn_typed (tx : Transaction) : Prop :=
  is_u64 (hdr_Fee (tx_Header tx)) /\ is_u64 (pay_Amount (tx_Payment tx)) /\
  is_u64 (ax_AssetAmount (tx_AssetTransfer tx)) /\ is_u64 (ap_Total (ac_AssetParams (tx_AssetConfig tx))).
Definition group_typed (l : list SignedTxnWithAD) : Prop := Forall (fun txn => txn_typed (stad_tx txn)) l.

(** The inner transactions a program submits are. *)
Fixpoint program_typed {A} (p : prog A) : Prop :=
  match p with
  | Finish _ | Fail _ | Crash => True
  | Ask _ k => forall r, program_typed (k r)
  | Look k => forall st, program_typed (k st)
  | Charge _ k | Store _ k | CacheID _ _ k | Log _ _ _ k => program_typed k
  | Submit subtxns k => group_typed subtxns /\ program_typed k
  end.
Class TypedEnv (L : LogicEnv) : Prop :=
  lg_typed : forall code version cx, program_typed (lg_interpret code version cx).

Lemma group_typed_txns ep ep' : same_txns ep ep' -> group_typed (ep_TxnGroup ep) -> group_typed (ep_TxnGroup ep').
Proof.
  intros (Hm & _) Ht. unfold group_typed, stad_tx in *.
  rewrite <- (List.Forall_map stad_SignedTxn (fun stx => txn_typed (stx_Txn stx))) in *. by rewrite Hm.
Qed.

Lemma txnAt_typed ep gi txn : txnAt ep gi = Ok txn -> group_typed (ep_TxnGroup ep) -> txn_typed (stad_tx txn).
Proof.
  unfold txnAt. intros Ht Hg. destruct (ep_TxnGroup ep !! Z.to_nat gi) eqn:E; [|done]. injection Ht as <-.
  by eapply Forall_lookup_1 in Hg; [|exact E].
Qed.

(** ** Evaluations that conserve money when they succeed *)

Section evaluation_money.
  Context {L : LogicEnv} (HL : TypedEnv L) (B : roundCowParent).
#[local] Notation state := (cowStack * evalState)%type.
#[local] Notation contract := (Z -> AppIndex -> string -> M state (bool * EvalDelta)).

(** The laws of the ledger do not mention the programs that run on it; those of a
    ledger that runs none stand for all. *)
Definition no_contract : contract := fun _ _ _ => throw (Errorf "no interpreter").
#[local] Instance em_Balances : Balances state := cow_Balances B no_contract.
#[local] Instance em_BalancesLaws : BalancesLaws state := cow_BalancesLaws B no_contract.

Lemma fair_any {A} (ec : contract) (m : M state A) :
  fair (H := cow_Balances B ec) (H0 := cow_BalancesLaws B ec) m <-> fair m.
Proof. reflexivity. Qed.
Lemma quiet_any {A} (ec : contract) (m : M state A) :
  quiet (H := cow_Balances B ec) (H0 := cow_BalancesLaws B ec) m <-> quiet m.
Proof. reflexivity. Qed.

Lemma quiet_calm {A} (m : M cowStack A) : calm B m -> quiet (onCow m).
Proof.
  intros Hm s Hs. apply wp_onCow. eapply wp_mono; [apply Hm, Hs|]. intros r s' [(Hwf & (_ & Hp & Hh) & _) Ha].
  apply (conserves_cow B no_contract). by apply cow_conserves_same.
Qed.

(** Changes of the evaluation parameters only. *)
Lemma quiet_params {A} (m : M state A) : (forall s, (m s).2.1 = s.1) -> quiet m.
Proof.
  intros Hm s Hs. unfold wp. apply (conserves_cow B no_contract). rewrite Hm. by apply cow_conserves_refl.
Qed.
Lemma quiet_onShared f : quiet (onShared f).
Proof. by apply quiet_params. Qed.
Lemma quiet_setScratch cx scratch : quiet (setScratch cx scratch).
Proof. by apply quiet_params. Qed.
Lemma quiet_cacheID gi txid : quiet (cacheID gi txid).
Proof. by apply quiet_params. Qed.
Lemma quiet_onDelta cx f : quiet (onDelta cx f).
Proof.
  apply quiet_params. intros s. unfold onDelta, mbind, M_bind, gets, lift, modify. by destruct (txnAt _ _).
Qed.
Lemma quiet_state {A} (f : state -> outcome A) : quiet (fun s => (f s, s)).
Proof. by apply quiet_params. Qed.

Section perform_money.
  Context (ec : contract) (Hok : interpreter_ok B ec) (Hec : forall gi i code, fair (ec gi i code)).

Lemma quiet_StatefulEval gi txn i code : quiet (StatefulEval (ec gi i code) txn i).
Proof.
  intros [s v] Hs. unfold StatefulEval, wp. apply (conserves_cow B no_contract). cbn in Hs.
  pose proof (child_conserves B 1 s Hs) as Hch.
  pose proof (Hok gi i code (child 1 s, v) (child_wf B 1 s (proj1 Hs))) as Hst.
  pose proof (Hec gi i code (child 1 s, v) (cow_conserves_inv _ _ _ Hch)) as Hw. unfold wp, steps_to in Hw.
  destruct (ec gi i code (child 1 s, v)) as [r [calf v']]. cbn in Hst, Hw. destruct Hw as [_ Hw].
  pose proof (discard_conserves B 1 s calf Hs Hst) as Hd.
  destruct r as [[[] ed]|e|]; [|done|done|by apply cow_conserves_refl].
  destruct (commit_conserves B 1 s calf Hs Hst (Hw _ eq_refl)) as (s' & Hcm & Hc). rewrite Hcm.
  destruct (if proto_LogicSigVersion _ <? 6 then _ else _); cbn; [done|done|by apply cow_conserves_refl].
Qed.

Lemma performType_money check spec gi tx ad s : bal_inv s -> txn_typed tx -> settled_at s (hdr_Sender (tx_Header tx)) ->
  wp (performType B ec check spec gi tx ad) (steps_to s (fun _ s' => conserves s s')) s.
Proof.
  intros Hs (Hfee & Hpay & Hax & Hac) Hset. unfold performType, ll_Round, ll_Counter. destruct (tx_Type tx); cbv zeta.
  - by apply (proj1 (fair_any ec _) (fair_Payment (H0 := cow_BalancesLaws B ec) (tx_Payment tx) (tx_Header tx) ad Hpay)).
  - apply wp_bind. unfold onCow, gets, wp at 1. cbn [fst snd andThen]. destruct s as [s v]. cbn [fst snd].
    apply wp_bind. eapply wp_mono; [exact (Keyreg_conserves (H0 := cow_BalancesLaws B ec) (tx_Keyreg tx) _ _ _ (s, v) Hs Hset)|].
    intros r s' [Hst Hr]. destruct r as [u| |]; cbn [andThen]; [|by split..]. wp_step. split; [done|].
    intros _ _. by apply (Hr u).
  - apply (quiet_fair (S := state)); [|done]. apply quiet_bind; [by apply quiet_calm, calm_pure|]. intros ctr.
    exact (proj1 (quiet_any ec _) (quiet_AssetConfig (H0 := cow_BalancesLaws B ec) _ _ _ _ Hac)).
  - apply (quiet_fair (S := state)); [|done].
    exact (proj1 (quiet_any ec _) (quiet_AssetTransfer (H0 := cow_BalancesLaws B ec) _ _ _ Hax)).
  - apply (quiet_fair (S := state)); [|done]. apply quiet_bind; [|intros; apply quiet_ret].
    exact (proj1 (quiet_any ec _) (quiet_AssetFreeze (H0 := cow_BalancesLaws B ec) _ _)).
  - apply (quiet_fair (S := state)); [|done]. apply quiet_bind; [by apply quiet_calm, calm_pure|]. intros ctr.
    exact (proj1 (quiet_any ec _) (quiet_ApplicationCall (H0 := cow_BalancesLaws B ec) (fun program (s : state) => check program s.2)
             (fun gi txn i prog => quiet_StatefulEval gi txn i prog) _ _ _ _ _ _)).
  - apply (quiet_fair (S := state)); [apply quiet_throw|done].
  - apply (quiet_fair (S := state)); [apply quiet_throw|done].
  - apply (quiet_fair (S := state)); [apply quiet_throw|done].
Qed.

(** The switch runs once the fee has been paid and the sender rekeyed. *)
Lemma Perform_money check gi s : bal_inv s -> group_typed (ep_TxnGroup s.2.2) ->
  wp (Perform B ec check gi) (steps_to s (fun _ s' => conserves s s')) s.
Proof.
  intros Hs Ht. unfold Perform. wp_step. apply wp_bind, wp_lift. cbv beta.
  assert (bal_step s s) as Hrefl by (by apply bal_step_refl).
  destruct (txnAt _ gi) as [txn| |] eqn:E; cbn [andThen]; [|by split..].
  pose proof (txnAt_typed _ _ _ E Ht) as Htx. cbv zeta. set (tx := stad_tx txn) in *.
  apply wp_bind. eapply wp_mono; [exact (Move_settles (H0 := cow_BalancesLaws B ec) s _ _ _ _ _ Hs (proj1 Htx))|].
  intros r s1 [Hst1 Hr1]. destruct r as [[sr rr]| |]; cbn [andThen]; [|by split..]. destruct (Hr1 _ eq_refl) as [Hc1 Hset1].
  apply wp_bind. eapply wp_mono; [exact (Rekey_settles (H0 := cow_BalancesLaws B ec) s1 (tx_Header tx) (proj1 Hst1) Hset1)|].
  intros r s2 [Hst2 Hr2]. assert (bal_step s s2) as Hst12 by (by eapply bal_step_trans).
  destruct r as [u| |]; cbn [andThen]; [|by split..]. destruct (Hr2 _ eq_refl) as [Hc2 Hset2].
  apply wp_bind. eapply (wp_mono _ (fun r s3 => conserves s2 s3 /\ bal_acct s3 = bal_acct s2)).
  { apply wp_and; [apply quiet_calm; [apply calm_incTxnCount|apply Hst2]|]. reflexivity. }
  intros r s3 [Hc3 Ha3]. pose proof (conserves_step _ _ Hc3) as Hst3.
  assert (bal_step s s3) as Hst13 by (by eapply bal_step_trans). destruct r as [u3| |]; cbn [andThen]; [|by split..].
  assert (settled_at s3 (hdr_Sender (tx_Header tx))) as Hset3.
  { eapply settled_at_same; [exact Hset2|done|]. intros d Hd. exists d. rewrite Ha3. split; [done|by split_and!]. }
  apply wp_bind. eapply wp_mono; [by apply performType_money; [apply Hst3|..]|].
  intros r s4 [Hst4 Hr4]. assert (bal_step s s4) as Hst14 by (by eapply bal_step_trans).
  destruct r as [ad| |]; cbn [andThen]; [|by split..]. specialize (Hr4 ad eq_refl).
  assert (conserves s s4) as Hc14 by (do 3 (eapply conserves_trans; [done|]); done).
  wp_step. destruct s4 as [s4 [sh ep]]. by split.
Qed.
End perform_money.

(** Walk through quiet parts. *)
Ltac walk :=
  repeat first
    [ apply quiet_ret | apply quiet_throw | apply quiet_throwIf | apply quiet_lift | apply quiet_gets
    | apply quiet_onShared | apply quiet_setScratch | apply quiet_cacheID | apply quiet_onDelta | apply quiet_state
    | (apply quiet_calm; first [apply calm_AppParams | apply calm_Authorizer | apply calm_askLedger])
    | apply quiet_attempt
    | lazymatch goal with |- quiet (_ ≫= _) => apply quiet_bind; [|intros ?] end
    | progress cbv beta zeta | case_match ].
Ltac fwalk := apply fair_bind; [apply quiet_fair; walk|intros ?].

Lemma quiet_checkSubtxns cx l : quiet (mforeach (checkSubtxn B cx) l).
Proof.
  assert (forall sub, quiet (checkSubtxn B cx sub)) as Hsub
    by (intros sub; unfold checkSubtxn, authorizedSender, checkInnerCall; walk).
  induction l as [|a l IH]; cbn [mforeach]; [apply quiet_ret|]. by apply quiet_bind.
Qed.

Lemma groupSubtxns_typed cx subtxns ep subtxns' : group_typed subtxns -> groupSubtxns cx subtxns ep = Ok subtxns' ->
  group_typed subtxns'.
Proof.
  intros Ht Hg. unfold groupSubtxns in Hg. case_match; [|by injection Hg as <-]. okinv Hg. subst subtxns'.
  unfold group_typed. rewrite List.Forall_map. eapply List.Forall_impl; [|exact Ht]. intros sub Hs. exact Hs.
Qed.

Section submit_money.
  Context (ec : list AppIndex -> contract) (Hok : forall callers, interpreter_ok B (ec callers)).
  Context (Htx : forall callers gi i code, keeps txns_step (ec callers gi i code)).
  Context (Hec : forall callers gi i code, fair (ec callers gi i code)).

Lemma performAll_money callers n : forall gi s, bal_inv s -> group_typed (ep_TxnGroup s.2.2) ->
  wp (performAll B ec callers gi n) (steps_to s (fun _ s' => conserves s s')) s.
Proof.
  induction n as [|n IH]; intros gi s Hs Ht; cbn [performAll]; [by apply (quiet_fair (S := state)); [apply quiet_ret|]|].
  pose proof (keeps_Perform B txns_step (st_steady B _ (stable_txns_step B)) (ec callers) (Htx callers) lg_CheckContract gi s) as Hk1.
  apply wp_bind. pose proof (Perform_money (ec callers) (Hok callers) (Hec callers) lg_CheckContract gi s Hs Ht) as Hp.
  unfold wp in Hp |- *. destruct (Perform _ _ _ _ s) as [r s1]. cbn [fst snd] in *. destruct Hp as [Hst1 Hr1].
  destruct r as [u| |]; cbn [andThen]; [|by split..]. specialize (Hr1 u eq_refl).
  apply wp_bind. unfold wp at 1. pose proof (group_typed_txns _ _ Hk1 Ht) as Ht1. destruct s1 as [s1 [sh ep]]. cbn in Ht1.
  cbn [snd fst]. destruct (txnAt ep gi) as [txn| |]; cbn [fst snd andThen]; [|by split..].
  eapply wp_mono; [apply (IH (gi + 1) (s1, RecordAD gi (stad_ApplyData txn) (sh, ep))); [exact (proj1 Hst1)|]|].
  - apply (group_typed_txns ep); [apply setAD_txns|done].
  - intros r s2 [Hst2 Hr2]. split; [by eapply bal_step_trans|]. intros x ->.
    eapply conserves_trans; [exact Hr1|]. by apply (Hr2 x).
Qed.

Lemma runInner_fair cx subtxns : group_typed subtxns -> fair (runInner B ec cx subtxns).
Proof.
  intros Ht s Hs. unfold runInner, wp. assert (bal_step s s) as Hrefl by (by apply bal_step_refl).
  destruct (txnAt _ _ ≫= _) as [inner| |] eqn:E; [|by split..].
  assert (group_typed (ep_TxnGroup inner.2)) as Hti.
  { apply outcome_bind_Ok in E as (txn & _ & E). unfold NewInnerEvalParams in E. destruct s as [s [sh ep]].
    apply outcome_bind_Ok in E as (b & _ & [= <-]). done. }
  pose proof (performAll_money (cx_appID cx :: cx_callers cx) (length subtxns) 0 (s.1, inner) Hs Hti) as Hp. unfold wp in Hp.
  destruct (performAll _ _ _ _ _ _) as [r [cow [sh ep]]]. destruct Hp as [Hst Hr]. split; [exact Hst|].
  intros x Hx. destruct r as [u| |]; try discriminate. exact (Hr u eq_refl).
Qed.

Lemma opTxSubmit_fair cx subtxns : group_typed subtxns -> fair (opTxSubmit B ec cx subtxns).
Proof.
  intros Ht. unfold opTxSubmit. do 6 fwalk. apply fair_bind; [apply quiet_fair, quiet_checkSubtxns|]. intros _.
  intros s Hs. apply wp_bind. unfold wp at 1. cbn [fst snd]. assert (bal_step s s) as Hrefl by (by apply bal_step_refl).
  destruct (groupSubtxns cx subtxns s.2.2) as [subtxns'| |] eqn:E; cbn [andThen]; [|by split..].
  pose proof (groupSubtxns_typed _ _ _ _ Ht E) as Ht'. revert s Hs E Hrefl.
  enough (fair (_ ← onShared (fun sh => sh <| sh_pooledAllowedInners :=
                                 (fun n => n - llen subtxns') <$> sh_pooledAllowedInners sh |>);
                ran ← runInner B ec cx subtxns';
                onDelta cx (fun ed => ed <| ed_InnerTxns :=
                  ed_InnerTxns ed ++ map (fun txn => (stad_SignedTxn txn, stad_ApplyData txn)) ran |>))) as Hf
    by (intros s Hs _ _; by apply Hf).
  fwalk. apply fair_bind; [by apply runInner_fair|]. intros ran. apply quiet_fair. walk.
Qed.

Lemma runProgram_fair {A} cx (p : prog A) : program_typed p -> fair (runProgram B ec cx p).
Proof.
  induction p as [| | |c k IH|k IH|cost k IH|scratch k IH|gi txid k IH|g l logs k IH|subtxns k IH]; cbn [runProgram program_typed]; intros Ht.
  1-3: apply quiet_fair; walk.
  1-6: fwalk; auto.
  destruct Ht as [Ht Hk]. apply fair_bind; [by apply opTxSubmit_fair|]. auto.
Qed.

Lemma recovered_fair {A} (m : M state A) : fair m -> fair (recovered m).
Proof.
  intros Hm s Hs. specialize (Hm s Hs). unfold wp, recovered in *. destruct (m s) as [[a|e|] s']; [done|done|].
  destruct Hm as [Hst _]. by split.
Qed.

Lemma evalContract1_fair callers gi aid code : fair (evalContract1 B ec callers gi aid code).
Proof.
  unfold evalContract1. do 6 fwalk. apply fair_bind.
  - unfold eval. apply recovered_fair. do 6 fwalk. apply runProgram_fair, HL.
  - intros pass. apply quiet_fair. walk.
Qed.
End submit_money.

(** An evaluation that succeeds conserves money. *)
Lemma EvalContract_fair fuel : forall callers gi aid code, fair (EvalContract B fuel callers gi aid code).
Proof.
  induction fuel as [|fuel IH]; intros callers gi aid code; [apply quiet_fair, quiet_throw|].
  cbn [EvalContract]. apply evalContract1_fair; [apply EvalContract_ok|apply EvalContract_txns|exact IH].
Qed.
End evaluation_money.
