(* ===== verification/LogicCorrect.v ===== *)
(** The block evaluator with its applications: transaction groups conserve money
    for every interpreter whose inner transactions are typed ([AvmCorrect] discharges
    that for the one of the source), and what a failing clear-state program leaves
    behind when it is called from a program. *)
From S2P Require Import Prelude Config Basics Transactions Bookkeeping StateDelta CompactCert Cow.
From S2P Require Import CowFacts CowStorage Balances CowBalances Apply ApplyFacts ApplyCorrect Eval EvalFacts EvalMoney.
From S2P Require Import Conserve LogicParams LogicLedger LogicEval LogicFacts LogicMoney.
#[local] Open Scope string_scope.
#[local] Open Scope list_scope.
#[local] Open Scope Z_scope.

(** The interpreter of the block evaluator: [EvalContract] with fuel for the
    deepest chain of calls. *)
Definition callFuel : nat := 9.
#[local] Opaque callFuel.
Definition logicInterpreter {L : LogicEnv} : Interpreter :=
  mkInterpreter evalState NewEvalParams RecordAD
    (fun B gi aid code => EvalContract B callFuel [] gi aid code) lg_CheckContract.

(** ** Money of a transaction group *)

Section group_money.
  Context {L : LogicEnv} (HL : TypedEnv L) (H : Hashes).
  Context (Verify : CompactCertVerifierParams -> list Z -> CertBuilder.Cert -> outcome unit) (ev : BlockEvaluator).
#[local] Notation B := (ev_base ev).
#[local] Notation I := logicInterpreter.
#[local] Notation state := (cowStack * evalState)%type.
#[local] Instance gm_Balances : Balances state := cow_Balances B (vm_EvalContract I B).
#[local] Instance gm_BalancesLaws : BalancesLaws state := cow_BalancesLaws B (vm_EvalContract I B).

Lemma vm_ok : interpreter_ok B (vm_EvalContract I B).
Proof. exact (EvalContract_ok (ev_base ev) callFuel []). Qed.

Lemma gm_calm {A} (m : M cowStack A) : calm B m -> quiet (onCow m : M state A).
Proof. exact (quiet_calm B m). Qed.

Lemma vm_quiet gi txn i prog : quiet (bal_StatefulEval gi txn i prog).
Proof.
  exact (quiet_StatefulEval B (EvalContract B callFuel []) vm_ok (EvalContract_fair HL B callFuel []) gi txn i prog).
Qed.

Lemma payVoters_settles sender share v voters : is_u64 share -> forall ad s, bal_inv s ->
  wp (payVoters I ev sender share (v :: voters) ad) (steps_to s (fun _ s' => conserves s s' /\ settled_at s' sender)) s.
Proof.
  intros Hu. revert v. induction voters as [|w voters IH]; intros v ad s Hs; cbn [payVoters];
    apply wp_bind; (eapply wp_mono; [by apply Move_settles|]); intros r s1 [Hst1 Hr1];
    (destruct r as [[sr rr]| |]; cbn [andThen]; [|by split..]); destruct (Hr1 _ eq_refl) as [Hc1 Hset1].
  - wp_step. by split.
  - eapply wp_mono; [apply IH, Hst1|]. intros r s2 [Hst2 Hr2]. split; [by eapply bal_step_trans|]. intros ad' ->.
    destruct (Hr2 _ eq_refl) as [Hc2 Hset2]. split; [by eapply conserves_trans|done].
Qed.

Lemma payFee_settles header s : bal_inv s -> is_u64 (hdr_Fee header) ->
  wp (payFee I ev header) (steps_to s (fun _ s' => conserves s s' /\ settled_at s' (hdr_Sender header))) s.
Proof.
  intros Hs Hfee. unfold payFee. destruct (ev_rewardAddresses ev) as [|v voters]; cbn [llen length negb].
  - apply wp_bind. eapply wp_mono; [by apply Move_settles|]. intros r s1 [Hst1 Hr1].
    destruct r as [[sr rr]| |]; cbn [andThen]; [|by split..]. wp_step. split; [done|]. intros _ _. by apply (Hr1 _ eq_refl).
  - destruct (Z.eqb_spec (llen (v :: voters)) 0) as [Hz|Hz]; [unfold llen in Hz; cbn in Hz; lia|].
    apply payVoters_settles; [|done]. assert (0 < llen (v :: voters)) by (unfold llen in *; cbn in *; lia).
    split; [apply Z.div_pos; word|]. apply Z.div_lt_upper_bound; [done|]. unfold_words. nia.
Qed.

(** The compact certificate of a round is no account. *)
Lemma quiet_compactCert rnd t c at_ v : quiet (onCow (cow_compactCert B Verify rnd t c at_ v) : M state unit).
Proof.
  apply gm_calm. intros s Hwf. pose proof (step_ok_refl (B := B) s Hwf) as Hrefl. unfold cow_compactCert.
  apply wp_bind, wp_throwIf; cbn [andThen]; intros _; [done|]. wp_step.
  apply wp_bind. unfold asks, wp at 1. cbn [fst snd]. destruct (par_blockHdr _ _) as [ch| |]; cbn [andThen]; [|done..].
  apply wp_bind. eapply (wp_mono _ (fun _ s' => s' = s)).
  - apply wp_if; intros _; [|by wp_step]. apply wp_bind. unfold asks, wp at 1. cbn [fst snd].
    destruct (par_blockHdr _ _); done.
  - intros r s' ->. destruct r; cbn [andThen]; [|done..]. unfold modify_cur. wp_step. split; [|done].
    apply (step_ok_cur B s (setCompactCertNext _)); [done|done|]. destruct Hwf as [[Ha Hs] _]. by split.
Qed.

Lemma applyType_money tx gi ctr ad s : bal_inv s -> txn_typed tx -> settled_at s (hdr_Sender (tx_Header tx)) ->
  wp (applyType I Verify ev tx gi ctr ad) (steps_to s (fun _ s' => conserves s s')) s.
Proof.
  intros Hs (Hfee & Hpay & Hax & Hac) Hset. unfold applyType. destruct (tx_Type tx); cbv zeta.
  - by apply fair_Payment.
  - wp_step. apply wp_bind. eapply wp_mono; [by apply Keyreg_conserves|]. intros r s' [Hst Hr].
    destruct r as [u| |]; cbn [andThen]; [|by split..]. wp_step. split; [done|]. intros _ _. by apply (Hr u).
  - by apply quiet_fair; [apply quiet_AssetConfig|].
  - by apply quiet_fair; [apply quiet_AssetTransfer|].
  - apply quiet_fair; [|done]. apply quiet_bind; [apply quiet_AssetFreeze|]. intros _. apply quiet_ret.
  - apply quiet_fair; [|done]. apply quiet_ApplicationCall, vm_quiet.
  - apply quiet_fair; [|done]. apply quiet_bind; [case_match; [apply quiet_compactCert|apply quiet_ret]|]. intros _. apply quiet_ret.
  - apply quiet_fair; [|done]. apply quiet_bind; [apply quiet_ret|]. intros _. apply quiet_ret.
  - apply quiet_fair; [apply quiet_throw|done].
Qed.

Lemma applyTransaction_money tx gi ctr s : bal_inv s -> txn_typed tx ->
  wp (applyTransaction I Verify ev tx gi ctr) (steps_to s (fun _ s' => conserves s s')) s.
Proof.
  intros Hs Htx. unfold applyTransaction. wp_step.
  apply wp_bind. eapply wp_mono; [apply payFee_settles; [done|apply Htx]|]. intros r s1 [Hst1 Hr1].
  destruct r as [ad1| |]; cbn [andThen]; [|by split..]. destruct (Hr1 _ eq_refl) as [Hc1 Hset1].
  apply wp_bind. eapply wp_mono; [apply Rekey_settles; [apply Hst1|done]|]. intros r s2 [Hst2 Hr2].
  assert (bal_step s s2) as Hst12 by (by eapply bal_step_trans).
  destruct r as [u| |]; cbn [andThen]; [|by split..]. destruct (Hr2 _ eq_refl) as [Hc2 Hset2].
  apply wp_bind. eapply wp_mono; [apply applyType_money; [apply Hst2|done|done]|]. intros r s3 [Hst3 Hr3].
  assert (bal_step s s3) as Hst13 by (by eapply bal_step_trans). destruct r as [ad| |]; cbn [andThen]; [|by split..].
  specialize (Hr3 ad eq_refl). assert (conserves s s3) as Hc by (do 2 (eapply conserves_trans; [done|]); done).
  wp_step. wp_step. by split.
Qed.

Lemma quiet_addTx tx txid : quiet (onCow (modify_cur (addTx tx txid)) : M state unit).
Proof.
  apply gm_calm. intros s Hwf. unfold modify_cur. wp_step. split; [by apply addTx_step|].
  intros a. cbn. unfold cow_lookup, addTx. by destruct (negb _).
Qed.

Lemma transaction_fair txn gi ad : txn_typed (stx_Txn txn) -> fair (transaction I H Verify ev txn gi ad).
Proof.
  intros Htx. unfold transaction. cbv zeta. apply fair_bind.
  { apply quiet_fair. case_match; [|apply quiet_ret]. apply quiet_bind; [apply quiet_lift|]. intros _.
    apply quiet_bind; [by apply gm_calm, calm_pure|]. intros _. apply gm_calm, calm_pure. intros s.
    unfold checkAuthorizer, lookup, asks, mbind, M_bind. by destruct (par_lookup _ _). }
  intros _. apply fair_bind; [apply quiet_fair, quiet_gets|]. intros ctr. apply fair_bind.
  { intros s Hs. pose proof (applyTransaction_money (stx_Txn txn) gi ctr s Hs Htx) as Hw. unfold wp, wrapM in *.
    destruct (applyTransaction _ _ _ _ _ _ s) as [[a|e|] s']; [done| |done]. destruct Hw as [Hst _]. by split. }
  intros applyData. apply fair_bind; [apply quiet_fair, quiet_lift|]. intros _.
  apply fair_bind; [apply quiet_fair, quiet_lift|]. intros txib. apply fair_bind.
  { apply quiet_fair. case_match; [|apply quiet_ret]. intros [s v] Hs. unfold wp, wrapM, onCow, checkMinBalance. cbn [fst snd].
    by apply conserves_refl. }
  intros _. apply fair_bind; [apply quiet_fair, quiet_addTx|]. intros _. apply quiet_fair, quiet_ret.
Qed.

Lemma group_loop_fair first n txads : group_typed txads ->
  forall gi acc, fair (group_loop I H Verify ev first n gi txads acc).
Proof.
  induction 1 as [|txad rest Ht _ IH]; intros gi [[txibs hashes] bytes]; cbn [group_loop]; [apply quiet_fair, quiet_ret|].
  apply fair_bind; [by apply transaction_fair|]. intros txib. cbv zeta.
  apply fair_bind; [apply quiet_fair, quiet_throwIf|]. intros _.
  apply fair_bind; [apply quiet_fair, quiet_lift|]. intros hs. apply IH.
Qed.
End group_money.

(** A group that is accepted conserves money, for every interpreter of programs whose
    inner transactions have the 64-bit types of Go. *)
Lemma typed_group_conserves_money (L : LogicEnv) H Verify ev txgroup ev' :
  TypedEnv L -> cow_inv (ev_base ev) (ev_state ev) -> group_typed txgroup ->
  transactionGroup logicInterpreter H Verify txgroup ev = (Ok tt, ev') ->
  ev_base ev' = ev_base ev /\ cow_inv (ev_base ev') (ev_state ev') /\
  exists touched : gset Address,
    (forall a, a ∉ touched -> par_lookup (ev_view ev') a = par_lookup (ev_view ev) a) /\
    (forall l, NoDup l -> (forall a, a ∈ touched -> a ∈ l) ->
       sumZ (stack_money (ev_base ev) (ev_state ev')) l = sumZ (stack_money (ev_base ev) (ev_state ev)) l).
Proof.
  intros HL Hs Ht Hrun. unfold transactionGroup in Hrun.
  enough (ev_base ev' = ev_base ev /\ cow_conserves (ev_base ev) (ev_state ev) (ev_state ev')) as [Hb (T & (Hi & _) & Hf & Hm)].
  { split_and!; [done|by rewrite Hb|]. exists T. unfold ev_view. rewrite Hb. by split. }
  destruct txgroup as [|txad0 rest]; [injection Hrun as <-; split; [done|by apply cow_conserves_refl]|].
  destruct (_ <? _); [discriminate|]. set (txgroup := txad0 :: rest) in *. set (n := llen txgroup) in *.
  set (vm := vm_NewEvalParams _ txgroup _ _) in *. set (first := stx_group _) in *.
  pose proof (keeps_group_loop logicInterpreter H Verify ev (vm_ok ev) first n txgroup 0 ([], [], 0)
                (child n (ev_state ev), vm) (child_wf _ n _ (proj1 Hs))) as Hst.
  pose proof (group_loop_fair HL H Verify ev first n txgroup Ht 0 ([], [], 0) (child n (ev_state ev), vm)
                (cow_conserves_inv _ _ _ (child_conserves _ n _ Hs))) as Hw. unfold wp in Hw.
  destruct (group_loop _ _ _ _ _ _ _ _ _ _) as [res [cow' vm']]. cbn [fst snd] in Hst, Hw. destruct Hw as [_ Hw].
  destruct res as [[[txibs hashes] bytes]|e|]; [|discriminate..].
  destruct (groupComplete _ _ _) as [u|e|]; [|discriminate..].
  destruct (commit_conserves _ n _ _ Hs Hst (Hw _ eq_refl)) as (s' & Hc & Hcons). rewrite Hc in Hrun.
  by injection Hrun as <-.
Qed.

(** ** A ledger with applications *)

(** Account 5 created the applications 30 to 45, which all hold the same program,
    a single byte 6, the version; account 8 calls them; the account of application
    [i] is [1000 + i]. *)
Definition six : string := String (Ascii.ascii_of_nat 6) EmptyString.
Definition bazaar_app : AppParams := mkAppParams six six ∅ (mkStateSchema 1 0) (mkStateSchema 0 0) 0.
Definition bazaar_accounts : gmap Z AccountData :=
  {[ 5 := MakeAccountData Offline 30000000 <| acct_AppParams := list_to_map ((fun i => (30 + Z.of_nat i, bazaar_app)) <$> seq 0 16) |>;
     6 := MakeAccountData Online 8000000;
     8 := MakeAccountData Offline 2000000;
     1030 := MakeAccountData Offline 2000000;
     1031 := MakeAccountData Offline 2000000 <| acct_AppLocalStates := {[ 32 := mkAppLocalState (mkStateSchema 1 0) ∅ ]} |> ]}.
Definition bazaar_ledger : LedgerForCowBase :=
  mkLedgerForCowBase (fun _ => Ok sample_header) (fun _ _ _ _ _ _ => Ok tt)
    (fun r addr => Ok (default AccountData_zero (bazaar_accounts !! addr), r))
    (fun _ cidx ctype => Ok (if (30 <=? cidx) && (cidx <? 46) && bool_decide (ctype = AppCreatable) then (5, true) else (0, false))).
Definition bazaar : roundCowParent := base_parent (makeRoundCowBase bazaar_ledger 1000 10 0 v31).
Definition bazaar_ev : BlockEvaluator :=
  mkBlockEvaluator bazaar market_stack true true sample_header v31 77 (mkBlock sample_header []) 0
    (mkSpecialAddresses 1 2) false (mkLedgerForEvaluator bazaar_ledger 77 (Ok (1000, AccountTotals_zero)) (fun _ => Ok None))
    1000000 [].

Lemma bazaar_inv : cow_inv bazaar market_stack.
Proof.
  split_and!.
  - split; [|done]. split; [apply accts_zero_wf|]. intros addr aapp lsd.
    unfold getStorageDelta. cbn. rewrite lookup_empty. discriminate.
  - vm_compute. reflexivity.
  - vm_compute. split; congruence.
  - intros a d Hd. change (Ok (default AccountData_zero (bazaar_accounts !! a)) = Ok d) in Hd. injection Hd as <-.
    assert (map_Forall (fun _ d => record_wf d) bazaar_accounts) as Hall.
    { unfold bazaar_accounts. repeat apply map_Forall_insert_2; [..|apply map_Forall_empty];
        (split; [vm_compute; repeat split; congruence|]); apply map_Forall_empty. }
    destruct (bazaar_accounts !! a) as [d|] eqn:E; [by apply (Hall a)|].
    split; [vm_compute; repeat split; congruence|]. apply map_Forall_empty.
Qed.

(** A transaction of some type that [sender] sends, and a call of an application. *)
Definition bazaar_txn (ty : TxType) (sender fee : Z) (pay : PaymentTxnFields) (ac : ApplicationCallTxnFields) : SignedTxnWithAD :=
  mkSignedTxnWithAD
    (mkSignedTxn 1 MultisigSig_zero LogicSig_zero
       (mkTransaction ty (mkHeader sender fee 900 1900 "" "" 77 0 0 0) KeyregTxnFields_zero pay AssetConfigTxnFields_zero
          AssetTransferTxnFields_zero AssetFreezeTxnFields_zero ac CompactCertTxnFields_zero AddressPrintTxnFields_zero) 0)
    ApplyData_zero.
Definition call_of (aid oc : Z) : ApplicationCallTxnFields :=
  mkApplicationCallTxnFields aid oc [] [] [] [] StateSchema_zero StateSchema_zero "" "" 0.

#[local] Instance bazaar_hashes : LogicHashes := {
  lg_CompactCertSender := 3;
  lg_appAddress := Z.add 1000;
  lg_ID := fun tx => hdr_Fee (tx_Header tx);
  lg_InnerID := fun tx parent i => parent + i;
  lg_HashGroup := fun l => sumZ id l }.
#[local] Instance bazaar_env (interpret : AppIndex -> program) : LogicEnv := {
  lg_hashes := bazaar_hashes;
  lg_CheckContract := fun _ _ => Ok tt;
  lg_interpret := fun _ _ cx => interpret (cx_appID cx) }.

(** ** What a failed clear-state program leaves *)

(** Application 31 clears its state in application 32, whose clear-state program
    records some changes and rejects. *)
Definition clear_and_reject g l logs (aid : AppIndex) : program :=
  if aid =? 31 then
    Submit [bazaar_txn ApplicationCallTx 1031 0 PaymentTxnFields_zero (call_of 32 ClearStateOC)] (Finish true)
  else Log g l logs (Finish false).

(** An example.  A clear-state program that rejects is ignored, and the ledger keeps none
    of its changes, but when the clearing transaction is an inner one the block
    records them all the same.  Whatever state deltas and logs the program
    produced before it rejected, they are in the apply data of the inner
    transaction of the accepted block, which every reader takes for changes made;
    the comment in [ApplicationCall] says that changes are recorded if and only if
    the program passed.  [Perform] hands [ApplicationCall] the very record the
    program was writing to. *)
Example rejected_clear_state_recorded g l logs :
  let '(r, ev') := transactionGroup (logicInterpreter (L := bazaar_env (clear_and_reject g l logs))) demo_hashes no_certs
                     [bazaar_txn ApplicationCallTx 8 2000 PaymentTxnFields_zero (call_of 31 NoOpOC)] bazaar_ev in
  r = Ok tt /\
  (exists d, par_lookup (ev_view ev') 1031 = Ok d /\ acct_AppLocalStates d !! 32 = None) /\
  (exists d, par_lookup (ev_view ev') 5 = Ok d /\ app_GlobalState <$> acct_AppParams d !! 32 = Some ∅) /\
  map (fun txib => map (fun inner => ad_EvalDelta inner.2) (ed_InnerTxns (ad_EvalDelta (stib_ApplyData txib))))
    (blk_Payset (ev_block ev')) = [[mkEvalDelta g l logs []]].
Proof. vm_compute. split_and!; try eexists; repeat split; reflexivity. Qed.
