(* ===== verification/LogicDepth.v ===== *)
(** Calls between applications are bounded: an evaluation that is
    [maxAppCallDepth] calls deep makes no further one, so the recursion of
    [EvalContract] never runs out of fuel. *)
From S2P Require Import Prelude Config Basics Transactions Bookkeeping StateDelta CompactCert Cow.
From S2P Require Import CowFacts CowStorage Balances CowBalances Apply ApplyFacts ApplyCorrect Eval EvalFacts.
From S2P Require Import Conserve LogicParams LogicLedger LogicEval LogicFacts LogicCorrect.
From Stdlib Require Import FunctionalExtensionality.
#[local] Open Scope string_scope.
#[local] Open Scope list_scope.
#[local] Open Scope Z_scope.

Section call_depth.
  Context {L : LogicEnv} (B : roundCowParent).
#[local] Notation state := (cowStack * evalState)%type.
#[local] Notation evaluator := (list AppIndex -> Z -> AppIndex -> string -> M state (bool * EvalDelta)).

(** ** Groups without application calls need no evaluator *)

Definition no_calls (l : list SignedTxnWithAD) : Prop := Forall (fun txn => tx_Type (stad_tx txn) <> ApplicationCallTx) l.

Lemma no_calls_txns ep ep' : same_txns ep ep' -> no_calls (ep_TxnGroup ep) -> no_calls (ep_TxnGroup ep').
Proof.
  intros (Hm & _) Ht. unfold no_calls, stad_tx in *.
  rewrite <- (List.Forall_map stad_SignedTxn (fun stx => tx_Type (stx_Txn stx) <> ApplicationCallTx)) in *. by rewrite Hm.
Qed.

Lemma callDepth_length callers called : forall d depth, callDepth callers called d = Ok depth -> depth = d + llen callers.
Proof.
  unfold llen. induction callers as [|c callers IH]; intros d depth; cbn [callDepth length].
  - intros [= <-]. lia.
  - destruct (c =? called); [done|]. intros ->%IH. lia.
Qed.

(** A call that passes the checks is made less than [maxAppCallDepth] calls deep. *)
Lemma checkSubtxn_depth cx sub s s' : checkSubtxn B cx sub s = (Ok tt, s') ->
  maxAppCallDepth <= llen (cx_callers cx) -> tx_Type (stad_tx sub) <> ApplicationCallTx.
Proof.
  intros Hrun Hdeep Hty. unfold checkSubtxn in Hrun. cbv zeta in Hrun. rewrite bool_decide_eq_true_2 in Hrun by done.
  unfold mbind, M_bind, gets, lift in Hrun. destruct (authorizedSender _ _ _ _) as [[[]| |] s1]; [|discriminate..].
  destruct (WellFormed _ _ _ _); [|discriminate..]. unfold checkInnerCall, throwIf, lift, mbind, M_bind in Hrun.
  destruct (_ =? _); [discriminate|]. cbv beta iota in Hrun.
  destruct (callDepth _ _ _) as [d| |] eqn:E; [|discriminate..]. apply callDepth_length in E.
  rewrite (proj2 (Z.leb_le maxAppCallDepth d)) in Hrun by lia. discriminate.
Qed.

Lemma checkSubtxns_depth cx l : maxAppCallDepth <= llen (cx_callers cx) -> forall s s',
  mforeach (checkSubtxn B cx) l s = (Ok tt, s') -> no_calls l.
Proof.
  intros Hdeep. induction l as [|sub l IH]; intros s s' Hrun; [constructor|]. cbn [mforeach] in Hrun.
  unfold mbind, M_bind in Hrun. destruct (checkSubtxn B cx sub s) as [[[]| |] s1] eqn:E; [|discriminate..].
  constructor; [by eapply checkSubtxn_depth|by eapply IH].
Qed.

Lemma groupSubtxns_no_calls cx subtxns ep subtxns' : no_calls subtxns -> groupSubtxns cx subtxns ep = Ok subtxns' ->
  no_calls subtxns'.
Proof.
  intros Ht Hg. unfold groupSubtxns in Hg. case_match; [|by injection Hg as <-]. okinv Hg. subst subtxns'.
  unfold no_calls. rewrite List.Forall_map. eapply List.Forall_impl; [|exact Ht]. intros sub Hs. exact Hs.
Qed.

Lemma bind_agree {A C} (m m' : M state A) (k k' : A -> M state C) s : m s = m' s ->
  (forall a s', m s = (Ok a, s') -> k a s' = k' a s') -> (m ≫= k) s = (m' ≫= k') s.
Proof. unfold mbind, M_bind. intros <- Hk. destruct (m s) as [[]]; auto. Qed.

Lemma Perform_no_calls (ec ec' : Z -> AppIndex -> string -> M state (bool * EvalDelta)) gi s :
  no_calls (ep_TxnGroup s.2.2) -> Perform B ec lg_CheckContract gi s = Perform B ec' lg_CheckContract gi s.
Proof.
  intros Hn. unfold Perform. apply bind_agree; [done|]. intros ep s1 [= <- <-].
  apply bind_agree; [done|]. intros txn s1 [= E <-]. cbv zeta. assert (tx_Type (stad_tx txn) <> ApplicationCallTx) as Hty.
  { unfold txnAt in E. destruct (ep_TxnGroup _ !! _) eqn:El; [|done]. injection E as <-.
    by eapply Forall_lookup_1 in Hn; [|exact El]. }
  apply bind_agree; [done|]. intros [sr rr] s1 _. apply bind_agree; [done|]. intros _ s2 _.
  apply bind_agree; [done|]. intros _ s3 _. apply bind_agree; [|done]. unfold performType. by destruct (tx_Type (stad_tx txn)).
Qed.

Lemma performAll_no_calls (ec ec' : evaluator) callers n : (forall gi i code, keeps txns_step (ec callers gi i code)) ->
  forall gi s, no_calls (ep_TxnGroup s.2.2) -> performAll B ec callers gi n s = performAll B ec' callers gi n s.
Proof.
  intros Hec. induction n as [|n IH]; intros gi s Hn; cbn [performAll]; [done|].
  pose proof (keeps_Perform B txns_step (st_steady B _ (stable_txns_step B)) (ec callers) Hec lg_CheckContract gi s) as Hk.
  unfold mbind, M_bind. rewrite (Perform_no_calls (ec' callers) (ec callers)) by done.
  destruct (Perform _ _ _ _ s) as [[u| |] [s1 [sh ep]]]; cbn [snd fst] in *; [|done..].
  destruct (txnAt ep gi); [|done..]. apply IH. eapply no_calls_txns; [apply setAD_txns|]. by eapply no_calls_txns.
Qed.

(** ** Evaluators that agree *)

(** Evaluations agree when the submissions of their programs do. *)
Section agreement.
  Context (ec ec' : evaluator) (cx : context).
  Context (Hsub : forall subtxns s, opTxSubmit B ec cx subtxns s = opTxSubmit B ec' cx subtxns s).

Lemma runProgram_agree {A} (p : prog A) : forall s, runProgram B ec cx p s = runProgram B ec' cx p s.
Proof.
  induction p as [| | |c k IH|k IH|cost k IH|scratch k IH|gi txid k IH|g l logs k IH|subtxns k IH]; intros s; cbn [runProgram];
    [reflexivity|reflexivity|reflexivity|..]; (apply bind_agree; [|intros x s' _; apply IH]); [reflexivity..|apply Hsub].
Qed.

Lemma recovered_agree {A} (m m' : M state A) s : m s = m' s -> recovered m s = recovered m' s.
Proof. unfold recovered. by intros ->. Qed.

Lemma eval_agree code s : eval B ec cx code s = eval B ec' cx code s.
Proof.
  unfold eval. apply recovered_agree. do 6 (apply bind_agree; [reflexivity|]; intros ? ? _). apply runProgram_agree.
Qed.
End agreement.

Lemma evalContract1_agree (ec ec' : evaluator) callers gi aid code s :
  (forall subtxns s, opTxSubmit B ec (mkcontext gi aid callers) subtxns s = opTxSubmit B ec' (mkcontext gi aid callers) subtxns s) ->
  evalContract1 B ec callers gi aid code s = evalContract1 B ec' callers gi aid code s.
Proof.
  intros Hsub. unfold evalContract1. do 6 (apply bind_agree; [reflexivity|]; intros ? ? _).
  apply bind_agree; [by apply eval_agree|]. reflexivity.
Qed.

Lemma performAll_agree (ec ec' : evaluator) callers n : (forall gi i code s, ec callers gi i code s = ec' callers gi i code s) ->
  forall gi, performAll B ec callers gi n = performAll B ec' callers gi n.
Proof.
  intros He. assert (ec callers = ec' callers) as Heq.
  { extensionality gi. extensionality i. extensionality code. extensionality s. apply He. }
  induction n as [|n IH]; intros gi; cbn [performAll]; [done|]. by rewrite Heq, IH.
Qed.

(** Submissions agree when the evaluators agree on the applications called, or
    when the program is too deep to call any. *)
Lemma opTxSubmit_agree (ec ec' : evaluator) cx subtxns s :
  (forall gi i code, keeps txns_step (ec (cx_appID cx :: cx_callers cx) gi i code)) ->
  (llen (cx_callers cx) < maxAppCallDepth -> forall gi i code s,
     ec (cx_appID cx :: cx_callers cx) gi i code s = ec' (cx_appID cx :: cx_callers cx) gi i code s) ->
  opTxSubmit B ec cx subtxns s = opTxSubmit B ec' cx subtxns s.
Proof.
  intros Hec He. unfold opTxSubmit. do 6 (apply bind_agree; [reflexivity|]; intros ? ? _). clear s.
  apply bind_agree; [reflexivity|]. intros [] s1 Ef. apply bind_agree; [reflexivity|]. intros subtxns' s2 [= Eg <-].
  apply bind_agree; [reflexivity|]. intros _ s3 _. apply bind_agree; [|reflexivity]. unfold runInner.
  destruct (txnAt _ _ ≫= _) as [inner| |] eqn:Ei; [|reflexivity..].
  enough (performAll B ec (cx_appID cx :: cx_callers cx) 0 (length subtxns') (s3.1, inner) =
          performAll B ec' (cx_appID cx :: cx_callers cx) 0 (length subtxns') (s3.1, inner)) as Hp by (by rewrite Hp).
  destruct (decide (llen (cx_callers cx) < maxAppCallDepth)) as [Hlt|Hge]; [by rewrite (performAll_agree ec ec') by auto|].
  apply performAll_no_calls; [done|]. cbn [snd].
  enough (ep_TxnGroup inner.2 = subtxns') as ->
    by (eapply groupSubtxns_no_calls; [|exact Eg]; eapply checkSubtxns_depth; [|exact Ef]; lia).
  apply outcome_bind_Ok in Ei as (txn & _ & Ei). unfold NewInnerEvalParams in Ei. destruct s3 as [cow [sh ep]]. apply outcome_bind_Ok in Ei as (b & _ & [= <-]). reflexivity.
Qed.

(** C20 (termination): applications call each other at most [maxAppCallDepth] deep, so
    evaluating one always comes to an answer.  Nine nested evaluations, one more
    than the depth allowed, are enough for a program that no other called, and one
    less for every caller it has: with that much fuel the answer, whatever the
    programs do, is the same for every greater amount, and does not depend on what
    an evaluation would answer once the fuel is used up. *)
Theorem call_depth_bounded (n m : nat) (exhausted : outcome (bool * EvalDelta)) callers gi aid code s :
  (9 <= n + length callers)%nat -> (1 <= n)%nat -> (n <= m)%nat ->
  Nat.iter n (evalContract1 B) (fun _ _ _ _ s => (exhausted, s)) callers gi aid code s =
  EvalContract B m callers gi aid code s.
Proof.
  revert m callers gi aid code s. induction n as [|n IH]; intros m callers gi aid code s Hn H1 Hm; [lia|].
  destruct m as [|m]; [lia|]. cbn [Nat.iter EvalContract]. apply evalContract1_agree. intros subtxns s'.
  symmetry. apply opTxSubmit_agree; cbn [cx_appID cx_callers]; [intros; apply EvalContract_txns|].
  unfold llen, maxAppCallDepth. intros Hlt gi' i code' s''. symmetry. apply IH; cbn [length]; lia.
Qed.

End call_depth.

(** Application 30 calls 31, which calls 32, and so on: the ninth call is refused. *)
Definition call_next (aid : AppIndex) : program :=
  Submit [bazaar_txn ApplicationCallTx (1000 + aid) 0 PaymentTxnFields_zero (call_of (aid + 1) NoOpOC)] (Finish true).

Lemma call_depth_bounded_witness :
  let s := (market_stack, NewEvalParams [bazaar_txn ApplicationCallTx 8 20000 PaymentTxnFields_zero (call_of 30 NoOpOC)]
                            v31 (mkSpecialAddresses 1 2)) in
  (EvalContract (L := bazaar_env call_next) bazaar 20 [] 0 30 six s).1 <> Err outOfFuel.
Proof.
  cbv zeta. rewrite <- (call_depth_bounded (L := bazaar_env call_next) bazaar 9 20 (Ok (true, EvalDelta_zero)) [] 0 30 six) by (cbn; lia).
  vm_compute. discriminate.
Defined.
