(* ===== verification/AvmFields.v ===== *)
(** [src/data/transactions/logic/fields.go]: the fields programs can name, with the
    version that introduced each, and reading a field of a transaction, of an asset,
    of an application or of an account ([txnFieldToStack], [assetParamsToValue] and
    their siblings of eval.go).  Each enumeration is a module, since the source uses
    the same names for other things too. *)
From S2P Require Import Prelude Config Basics Transactions AvmValue LogicParams.
#[local] Open Scope string_scope.
#[local] Open Scope list_scope.
#[local] Open Scope Z_scope.

(** ** Modes of evaluation *)

Definition runModeSignature : Z := 1.
Definition runModeApplication : Z := 2.
Definition modeAny : Z := Z.lor runModeSignature runModeApplication.

(** ** Versions that changed the rules *)

Definition LogicVersion : Z := 6.
Definition backBranchEnabledVersion : Z := 4.
Definition directRefEnabledVersion : Z := 4.
Definition txnEffectsVersion : Z := 6.
Definition createdResourcesVersion : Z := 6.

(** ** Fields of transactions *)

Module TxnField.
Inductive t : Type :=
| Sender | Fee | FirstValid | FirstValidTime | LastValid | Note
| Lease | Receiver | Amount | CloseRemainderTo | VotePK | SelectionPK
| VoteFirst | VoteLast | VoteKeyDilution | Type_ | TypeEnum | XferAsset
| AssetAmount | AssetSender | AssetReceiver | AssetCloseTo | GroupIndex | TxID
| ApplicationID | OnCompletion | ApplicationArgs | NumAppArgs | Accounts | NumAccounts
| ApprovalProgram | ClearStateProgram | RekeyTo | ConfigAsset | ConfigAssetTotal | ConfigAssetDecimals
| ConfigAssetDefaultFrozen | ConfigAssetUnitName | ConfigAssetName | ConfigAssetURL | ConfigAssetMetadataHash | ConfigAssetManager
| ConfigAssetReserve | ConfigAssetFreeze | ConfigAssetClawback | FreezeAsset | FreezeAssetAccount | FreezeAssetFrozen
| Assets | NumAssets | Applications | NumApplications | GlobalNumUint | GlobalNumByteSlice
| LocalNumUint | LocalNumByteSlice | ExtraProgramPages | Nonparticipation | Logs | NumLogs
| CreatedAssetID | CreatedApplicationID | LastLog | StateProofPK.
#[global] Instance t_eq_dec : EqDecision t.
Proof. solve_decision. Defined.

Record spec : Type := mkspec {
  field : t;
  ftype : StackType;
  array : bool;
  version : Z;
  itxVersion : Z;
  effects : bool }.

Definition specs : list spec := [
  mkspec Sender StackBytes false 0 5 false;
  mkspec Fee StackUint64 false 0 5 false;
  mkspec FirstValid StackUint64 false 0 0 false;
  mkspec FirstValidTime StackUint64 false 0 0 false;
  mkspec LastValid StackUint64 false 0 0 false;
  mkspec Note StackBytes false 0 6 false;
  mkspec Lease StackBytes false 0 0 false;
  mkspec Receiver StackBytes false 0 5 false;
  mkspec Amount StackUint64 false 0 5 false;
  mkspec CloseRemainderTo StackBytes false 0 5 false;
  mkspec VotePK StackBytes false 0 6 false;
  mkspec SelectionPK StackBytes false 0 6 false;
  mkspec VoteFirst StackUint64 false 0 6 false;
  mkspec VoteLast StackUint64 false 0 6 false;
  mkspec VoteKeyDilution StackUint64 false 0 6 false;
  mkspec Type_ StackBytes false 0 5 false;
  mkspec TypeEnum StackUint64 false 0 5 false;
  mkspec XferAsset StackUint64 false 0 5 false;
  mkspec AssetAmount StackUint64 false 0 5 false;
  mkspec AssetSender StackBytes false 0 5 false;
  mkspec AssetReceiver StackBytes false 0 5 false;
  mkspec AssetCloseTo StackBytes false 0 5 false;
  mkspec GroupIndex StackUint64 false 0 0 false;
  mkspec TxID StackBytes false 0 0 false;
  mkspec ApplicationID StackUint64 false 2 6 false;
  mkspec OnCompletion StackUint64 false 2 6 false;
  mkspec ApplicationArgs StackBytes true 2 6 false;
  mkspec NumAppArgs StackUint64 false 2 0 false;
  mkspec Accounts StackBytes true 2 6 false;
  mkspec NumAccounts StackUint64 false 2 0 false;
  mkspec ApprovalProgram StackBytes false 2 6 false;
  mkspec ClearStateProgram StackBytes false 2 6 false;
  mkspec RekeyTo StackBytes false 2 6 false;
  mkspec ConfigAsset StackUint64 false 2 5 false;
  mkspec ConfigAssetTotal StackUint64 false 2 5 false;
  mkspec ConfigAssetDecimals StackUint64 false 2 5 false;
  mkspec ConfigAssetDefaultFrozen StackUint64 false 2 5 false;
  mkspec ConfigAssetUnitName StackBytes false 2 5 false;
  mkspec ConfigAssetName StackBytes false 2 5 false;
  mkspec ConfigAssetURL StackBytes false 2 5 false;
  mkspec ConfigAssetMetadataHash StackBytes false 2 5 false;
  mkspec ConfigAssetManager StackBytes false 2 5 false;
  mkspec ConfigAssetReserve StackBytes false 2 5 false;
  mkspec ConfigAssetFreeze StackBytes false 2 5 false;
  mkspec ConfigAssetClawback StackBytes false 2 5 false;
  mkspec FreezeAsset StackUint64 false 2 5 false;
  mkspec FreezeAssetAccount StackBytes false 2 5 false;
  mkspec FreezeAssetFrozen StackUint64 false 2 5 false;
  mkspec Assets StackUint64 true 3 6 false;
  mkspec NumAssets StackUint64 false 3 0 false;
  mkspec Applications StackUint64 true 3 6 false;
  mkspec NumApplications StackUint64 false 3 0 false;
  mkspec GlobalNumUint StackUint64 false 3 6 false;
  mkspec GlobalNumByteSlice StackUint64 false 3 6 false;
  mkspec LocalNumUint StackUint64 false 3 6 false;
  mkspec LocalNumByteSlice StackUint64 false 3 6 false;
  mkspec ExtraProgramPages StackUint64 false 4 6 false;
  mkspec Nonparticipation StackUint64 false 5 6 false;
  mkspec Logs StackBytes true 5 0 true;
  mkspec NumLogs StackUint64 false 5 0 true;
  mkspec CreatedAssetID StackUint64 false 5 0 true;
  mkspec CreatedApplicationID StackUint64 false 5 0 true;
  mkspec LastLog StackBytes false 6 0 true;
  mkspec StateProofPK StackBytes false 6 6 false].
End TxnField.

(** The entry of a field by its number; the table is in the order of the numbers. *)
Definition txnFieldSpecByField (n : Z) : option TxnField.spec := TxnField.specs !! Z.to_nat n.

(** ** Global fields *)

Module GlobalField.
Inductive t : Type :=
| MinTxnFee | MinBalance | MaxTxnLife | ZeroAddress | GroupSize
| LogicSigVersion | Round | LatestTimestamp | CurrentApplicationID | CreatorAddress
| CurrentApplicationAddress | GroupID | OpcodeBudget | CallerApplicationID | CallerApplicationAddress.

Record spec : Type := mkspec { field : t; ftype : StackType; mode : Z; version : Z }.

Definition specs : list spec := [
  mkspec MinTxnFee StackUint64 modeAny 0;
  mkspec MinBalance StackUint64 modeAny 0;
  mkspec MaxTxnLife StackUint64 modeAny 0;
  mkspec ZeroAddress StackBytes modeAny 0;
  mkspec GroupSize StackUint64 modeAny 0;
  mkspec LogicSigVersion StackUint64 modeAny 2;
  mkspec Round StackUint64 runModeApplication 2;
  mkspec LatestTimestamp StackUint64 runModeApplication 2;
  mkspec CurrentApplicationID StackUint64 runModeApplication 2;
  mkspec CreatorAddress StackBytes runModeApplication 3;
  mkspec CurrentApplicationAddress StackBytes runModeApplication 5;
  mkspec GroupID StackBytes modeAny 5;
  mkspec OpcodeBudget StackUint64 modeAny 6;
  mkspec CallerApplicationID StackUint64 runModeApplication 6;
  mkspec CallerApplicationAddress StackBytes runModeApplication 6].
End GlobalField.
Definition globalFieldSpecByField (n : Z) : option GlobalField.spec := GlobalField.specs !! Z.to_nat n.

(** ** Fields of holdings *)

Module AssetHoldingField.
Inductive t : Type :=
| AssetBalance | AssetFrozen.

Record spec : Type := mkspec { field : t; ftype : StackType; version : Z }.

Definition specs : list spec := [
  mkspec AssetBalance StackUint64 2;
  mkspec AssetFrozen StackUint64 2].
End AssetHoldingField.
Definition assetHoldingFieldSpecByField (n : Z) : option AssetHoldingField.spec := AssetHoldingField.specs !! Z.to_nat n.

(** ** Fields of asset parameters *)

Module AssetParamsField.
Inductive t : Type :=
| AssetTotal | AssetDecimals | AssetDefaultFrozen | AssetUnitName | AssetName | AssetURL
| AssetMetadataHash | AssetManager | AssetReserve | AssetFreeze | AssetClawback | AssetCreator.

Record spec : Type := mkspec { field : t; ftype : StackType; version : Z }.

Definition specs : list spec := [
  mkspec AssetTotal StackUint64 2;
  mkspec AssetDecimals StackUint64 2;
  mkspec AssetDefaultFrozen StackUint64 2;
  mkspec AssetUnitName StackBytes 2;
  mkspec AssetName StackBytes 2;
  mkspec AssetURL StackBytes 2;
  mkspec AssetMetadataHash StackBytes 2;
  mkspec AssetManager StackBytes 2;
  mkspec AssetReserve StackBytes 2;
  mkspec AssetFreeze StackBytes 2;
  mkspec AssetClawback StackBytes 2;
  mkspec AssetCreator StackBytes 5].
End AssetParamsField.
Definition assetParamsFieldSpecByField (n : Z) : option AssetParamsField.spec := AssetParamsField.specs !! Z.to_nat n.

(** ** Fields of application parameters *)

Module AppParamsField.
Inductive t : Type :=
| AppApprovalProgram | AppClearStateProgram | AppGlobalNumUint | AppGlobalNumByteSlice | AppLocalNumUint | AppLocalNumByteSlice
| AppExtraProgramPages | AppCreator | AppAddress.

Record spec : Type := mkspec { field : t; ftype : StackType; version : Z }.

Definition specs : list spec := [
  mkspec AppApprovalProgram StackBytes 5;
  mkspec AppClearStateProgram StackBytes 5;
  mkspec AppGlobalNumUint StackUint64 5;
  mkspec AppGlobalNumByteSlice StackUint64 5;
  mkspec AppLocalNumUint StackUint64 5;
  mkspec AppLocalNumByteSlice StackUint64 5;
  mkspec AppExtraProgramPages StackUint64 5;
  mkspec AppCreator StackBytes 5;
  mkspec AppAddress StackBytes 5].
End AppParamsField.
Definition appParamsFieldSpecByField (n : Z) : option AppParamsField.spec := AppParamsField.specs !! Z.to_nat n.

(** ** Fields of accounts *)

Module AcctParamsField.
Inductive t : Type :=
| AcctBalance | AcctMinBalance | AcctAuthAddr.

Record spec : Type := mkspec { field : t; ftype : StackType; version : Z }.

Definition specs : list spec := [
  mkspec AcctBalance StackUint64 6;
  mkspec AcctMinBalance StackUint64 6;
  mkspec AcctAuthAddr StackBytes 6].
End AcctParamsField.
Definition acctParamsFieldSpecByField (n : Z) : option AcctParamsField.spec := AcctParamsField.specs !! Z.to_nat n.

(** ** Types of transactions by name and number *)

Definition TxType_name (ty : TxType) : string :=
  match ty with
  | PaymentTx => "pay"
  | KeyRegistrationTx => "keyreg"
  | AssetConfigTx => "acfg"
  | AssetTransferTx => "axfer"
  | AssetFreezeTx => "afrz"
  | ApplicationCallTx => "appl"
  | CompactCertTx => "cert"
  | AddressPrintTx => "addrprint"
  | UnknownTx => "unknown"
  end.

(** The types in the order of their numbers. *)
Definition TxnTypeNames : list TxType :=
  [UnknownTx; PaymentTx; KeyRegistrationTx; AssetConfigTx; AssetTransferTx; AssetFreezeTx; ApplicationCallTx; AddressPrintTx].

(** The number of a type; a type without one counts as [UnknownTx]. *)
Definition txnTypeIndexes (ty : TxType) : Z :=
  match list_find (fun t => t = ty) TxnTypeNames with Some (i, _) => Z.of_nat i | None => 0 end.

(** The types an inner transaction may have, with the version that allowed them. *)
Definition innerTxnTypes (ty : TxType) : option Z :=
  match ty with
  | PaymentTx | AssetTransferTx | AssetConfigTx | AssetFreezeTx | AddressPrintTx => Some 5
  | KeyRegistrationTx | ApplicationCallTx => Some 6
  | CompactCertTx | UnknownTx => None
  end.

Definition innerTypeByName (name : string) : option TxType :=
  snd <$> list_find (fun ty => TxType_name ty = name) TxnTypeNames.

(** ** Reading fields *)

(** The type a field is declared with. *)
Definition declared (ftype : StackType) (sv : stackValue) : outcome stackValue :=
  if typecheck ftype (argType sv) then Ok sv else Err (Errorf "expected field type").

Definition svDigest (d : Z) : stackValue := SBytes (digest_bytes d).

(** A program that is missing is a nil slice, which reads as an integer. *)
Definition svProgram (program : string) : stackValue := if slen program =? 0 then SUint 0 else SBytes program.

Definition assetHoldingToValue (holding : AssetHolding) (fs : AssetHoldingField.spec) : outcome stackValue :=
  declared (AssetHoldingField.ftype fs)
    match AssetHoldingField.field fs with
    | AssetHoldingField.AssetBalance => svUint (ah_Amount holding)
    | AssetHoldingField.AssetFrozen => svBool (ah_Frozen holding)
    end.

Section asset_params.
Import AssetParamsField.
Definition assetParamsToValue (params : AssetParams) (creator : Address) (fs : spec) : outcome stackValue :=
  declared (ftype fs)
    match field fs with
    | AssetTotal => svUint (ap_Total params)
    | AssetDecimals => svUint (ap_Decimals params)
    | AssetDefaultFrozen => svBool (ap_DefaultFrozen params)
    | AssetUnitName => SBytes (ap_UnitName params)
    | AssetName => SBytes (ap_AssetName params)
    | AssetURL => SBytes (ap_URL params)
    | AssetMetadataHash => svDigest (ap_MetadataHash params)
    | AssetManager => svDigest (ap_Manager params)
    | AssetReserve => svDigest (ap_Reserve params)
    | AssetFreeze => svDigest (ap_Freeze params)
    | AssetClawback => svDigest (ap_Clawback params)
    | AssetCreator => svDigest creator
    end.
End asset_params.

(** The creator and the address of an application are not in its parameters. *)
Section app_params.
Import AppParamsField.
Definition appParamsToValue (params : AppParams) (fs : spec) : outcome stackValue :=
  sv ← match field fs with
       | AppApprovalProgram => Ok (svProgram (app_ApprovalProgram params))
       | AppClearStateProgram => Ok (svProgram (app_ClearStateProgram params))
       | AppGlobalNumUint => Ok (svUint (NumUint (app_GlobalStateSchema params)))
       | AppGlobalNumByteSlice => Ok (svUint (NumByteSlice (app_GlobalStateSchema params)))
       | AppLocalNumUint => Ok (svUint (NumUint (app_LocalStateSchema params)))
       | AppLocalNumByteSlice => Ok (svUint (NumByteSlice (app_LocalStateSchema params)))
       | AppExtraProgramPages => Ok (svUint (app_ExtraProgramPages params))
       | AppCreator | AppAddress => Err (Errorf "invalid app_params_get field")
       end;
  declared (ftype fs) sv.
End app_params.

(** An element of an array field, after its bounds have been checked. *)
Definition element {A} (l : list A) (i : Z) (e : error) : outcome A :=
  if llen l <=? i then Err e else index_or_panic l i.

(** A field of a transaction, other than its ID. *)
Section txn_field.
Import TxnField.
Definition txnFieldValue (stxn : SignedTxnWithAD) (f : t) (arrayFieldIdx groupIndex : Z) : outcome stackValue :=
  let txn := stad_tx stxn in
  let h := tx_Header txn in
  let ac := tx_ApplicationCall txn in
  let asset := ac_AssetParams (tx_AssetConfig txn) in
  let ad := stad_ApplyData stxn in
  let logs := ed_Logs (ad_EvalDelta ad) in
  match f with
  | Sender => Ok (svDigest (hdr_Sender h))
  | Fee => Ok (svUint (hdr_Fee h))
  | FirstValid => Ok (svUint (hdr_FirstValid h))
  | LastValid => Ok (svUint (hdr_LastValid h))
  | Note => Ok (SBytes (hdr_Note h))
  | Receiver => Ok (svDigest (pay_Receiver (tx_Payment txn)))
  | Amount => Ok (svUint (pay_Amount (tx_Payment txn)))
  | CloseRemainderTo => Ok (svDigest (pay_CloseRemainderTo (tx_Payment txn)))
  | VotePK => Ok (svDigest (kr_VotePK (tx_Keyreg txn)))
  | SelectionPK => Ok (svDigest (kr_SelectionPK (tx_Keyreg txn)))
  | StateProofPK => Ok (SBytes (of_bytes (be_bytes 64 (kr_StateProofPK (tx_Keyreg txn)))))
  | VoteFirst => Ok (svUint (kr_VoteFirst (tx_Keyreg txn)))
  | VoteLast => Ok (svUint (kr_VoteLast (tx_Keyreg txn)))
  | VoteKeyDilution => Ok (svUint (kr_VoteKeyDilution (tx_Keyreg txn)))
  | Nonparticipation => Ok (svBool (kr_Nonparticipation (tx_Keyreg txn)))
  | Type_ => Ok (SBytes (TxType_name (tx_Type txn)))
  | TypeEnum => Ok (svUint (txnTypeIndexes (tx_Type txn)))
  | XferAsset => Ok (svUint (ax_XferAsset (tx_AssetTransfer txn)))
  | AssetAmount => Ok (svUint (ax_AssetAmount (tx_AssetTransfer txn)))
  | AssetSender => Ok (svDigest (ax_AssetSender (tx_AssetTransfer txn)))
  | AssetReceiver => Ok (svDigest (ax_AssetReceiver (tx_AssetTransfer txn)))
  | AssetCloseTo => Ok (svDigest (ax_AssetCloseTo (tx_AssetTransfer txn)))
  | GroupIndex => Ok (svUint groupIndex)
  | Lease => Ok (svDigest (hdr_Lease h))
  | ApplicationID => Ok (svUint (apc_ApplicationID ac))
  | OnCompletion => Ok (svUint (apc_OnCompletion ac))
  | ApplicationArgs =>
      arg ← element (apc_ApplicationArgs ac) arrayFieldIdx (Errorf "invalid ApplicationArgs index"); Ok (SBytes arg)
  | NumAppArgs => Ok (svUint (llen (apc_ApplicationArgs ac)))
  | Accounts =>
      if arrayFieldIdx =? 0 then Ok (svDigest (hdr_Sender h))
      else addr ← element (apc_Accounts ac) (arrayFieldIdx - 1) (Errorf "invalid Accounts index"); Ok (svDigest addr)
  | NumAccounts => Ok (svUint (llen (apc_Accounts ac)))
  | Assets => aid ← element (apc_ForeignAssets ac) arrayFieldIdx (Errorf "invalid Assets index"); Ok (svUint aid)
  | NumAssets => Ok (svUint (llen (apc_ForeignAssets ac)))
  | Applications =>
      if arrayFieldIdx =? 0 then Ok (svUint (apc_ApplicationID ac))
      else aid ← element (apc_ForeignApps ac) (arrayFieldIdx - 1) (Errorf "invalid Applications index"); Ok (svUint aid)
  | NumApplications => Ok (svUint (llen (apc_ForeignApps ac)))
  | GlobalNumUint => Ok (svUint (NumUint (apc_GlobalStateSchema ac)))
  | GlobalNumByteSlice => Ok (svUint (NumByteSlice (apc_GlobalStateSchema ac)))
  | LocalNumUint => Ok (svUint (NumUint (apc_LocalStateSchema ac)))
  | LocalNumByteSlice => Ok (svUint (NumByteSlice (apc_LocalStateSchema ac)))
  | ApprovalProgram => Ok (SBytes (apc_ApprovalProgram ac))
  | ClearStateProgram => Ok (SBytes (apc_ClearStateProgram ac))
  | RekeyTo => Ok (svDigest (hdr_RekeyTo h))
  | ConfigAsset => Ok (svUint (ac_ConfigAsset (tx_AssetConfig txn)))
  | ConfigAssetTotal => Ok (svUint (ap_Total asset))
  | ConfigAssetDecimals => Ok (svUint (ap_Decimals asset))
  | ConfigAssetDefaultFrozen => Ok (svBool (ap_DefaultFrozen asset))
  | ConfigAssetUnitName => Ok (SBytes (ap_UnitName asset))
  | ConfigAssetName => Ok (SBytes (ap_AssetName asset))
  | ConfigAssetURL => Ok (SBytes (ap_URL asset))
  | ConfigAssetMetadataHash => Ok (svDigest (ap_MetadataHash asset))
  | ConfigAssetManager => Ok (svDigest (ap_Manager asset))
  | ConfigAssetReserve => Ok (svDigest (ap_Reserve asset))
  | ConfigAssetFreeze => Ok (svDigest (ap_Freeze asset))
  | ConfigAssetClawback => Ok (svDigest (ap_Clawback asset))
  | FreezeAsset => Ok (svUint (af_FreezeAsset (tx_AssetFreeze txn)))
  | FreezeAssetAccount => Ok (svDigest (af_FreezeAccount (tx_AssetFreeze txn)))
  | FreezeAssetFrozen => Ok (svBool (af_AssetFrozen (tx_AssetFreeze txn)))
  | ExtraProgramPages => Ok (svUint (apc_ExtraProgramPages ac))
  | Logs => log ← element logs arrayFieldIdx (Errorf "invalid Logs index"); Ok (SBytes log)
  | NumLogs => Ok (svUint (llen logs))
  | LastLog => Ok (SBytes (default "" (list.last logs)))
  | CreatedAssetID => Ok (svUint (ad_ConfigAsset ad))
  | CreatedApplicationID => Ok (svUint (ad_ApplicationID ad))
  | FirstValidTime | TxID => Err (Errorf "invalid txn field")
  end.
End txn_field.
