(* ===== verification/AvmMachine.v ===== *)
(** [src/data/transactions/logic/eval.go]: the state of a running program
    ([EvalContext]) and what opcodes read of their surroundings: references to
    accounts, applications and assets, fields of transactions, global fields.

    The parts of [EvalContext] that do not change while a program runs are an
    [evalEnv]; the others are a [machine].  What an opcode does is a tree that ends
    in the next machine; trees are sequenced by grafting ([prog_bind]). *)
From S2P Require Import Prelude Config Basics Transactions Bookkeeping StateDelta CompactCert Cow.
From S2P Require Import Balances CowBalances Apply AvmValue LogicParams LogicLedger LogicEval AvmFields.
#[local] Open Scope string_scope.
#[local] Open Scope list_scope.
#[local] Open Scope Z_scope.

(** ** Sequences of trees *)

#[export] Instance prog_ret : MRet prog := fun A a => Finish a.
#[export] Instance prog_bind : MBind prog := fun A B f =>
  fix bind (p : prog A) : prog B :=
    match p with
    | Finish a => f a
    | Fail e => Fail e
    | Crash => Crash
    | Ask c k => Ask c (fun r => bind (k r))
    | Look k => Look (fun st => bind (k st))
    | Charge cost k => Charge cost (bind k)
    | Store scratch k => Store scratch (bind k)
    | CacheID gi txid k => CacheID gi txid (bind k)
    | Log global locals logs k => Log global locals logs (bind k)
    | Submit subtxns k => Submit subtxns (bind k)
    end.

Definition tlift {A} (r : outcome A) : prog A :=
  match r with Ok a => Finish a | Err e => Fail e | Panic => Crash end.
Definition tfailIf (b : bool) (e : error) : prog unit := tlift (failIf b e).
Definition tlook : prog evalState := Look Finish.
Definition tread {A} (f : evalState -> outcome A) : prog A := Look (fun st => tlift (f st)).
Definition tcacheID (gi : Z) (txid : Digest) : prog unit := CacheID gi txid (Finish tt).
Definition tstore (scratch : scratchSpace) : prog unit := Store scratch (Finish tt).
Definition tlog (ed : EvalDelta) : prog unit := Log (ed_GlobalDelta ed) (ed_LocalDeltas ed) (ed_Logs ed) (Finish tt).
Definition tsubmit (subtxns : list SignedTxnWithAD) : prog unit := Submit subtxns (Finish tt).
Definition tcharge (cost : Z) : prog unit := Charge cost (Finish tt).

(** A call of the ledger: with the error as a value, and failing with it. *)
Definition task (c : ledgerCall) : prog (answer c + error) := Ask c Finish.
Definition tcall (c : ledgerCall) : prog (answer c) :=
  Ask c (fun r => match r with inl a => Finish a | inr e => Fail e end).

(** ** The state of a program *)

Record evalEnv : Type := mkevalEnv {
  en_program : string;
  en_version : Z;
  en_mode : Z;
  en_args : list string;
  en_cx : context }.

Record machine : Type := mkmachine {
  mc_stack : stack;
  mc_callstack : list Z;
  mc_pc : Z;
  mc_nextpc : Z;
  mc_intc : list Z;
  mc_bytec : list string;
  mc_scratch : scratchSpace;
  mc_subtxns : list SignedTxnWithAD;
  mc_cost : Z;
  mc_logSize : Z }.
#[export] Instance Eta_machine : Eta machine := fun m =>
  mkmachine (mc_stack m) (mc_callstack m) (mc_pc m) (mc_nextpc m) (mc_intc m) (mc_bytec m) (mc_scratch m)
    (mc_subtxns m) (mc_cost m) (mc_logSize m).

(** The functions of cryptographic libraries. *)
Class AvmCrypto : Type := {
  cr_Sum256 : string -> string;
  cr_Keccak256 : string -> string;
  cr_Sum512_256 : string -> string;
  cr_HashProgram : string -> Digest;
  cr_Verify : string -> Digest -> string -> string -> bool -> bool;
  cr_VerifySignature : Z -> Z -> string -> string -> bool;
  cr_DecompressPubkey : string -> option (Z * Z);
  cr_RecoverPubkey : string -> string -> outcome string;
  cr_Unmarshal : string -> option (Z * Z) }.

Section machine.
  Context {L : LogicHashes} (E : evalEnv).
#[local] Notation cx := (en_cx E).
#[local] Notation version := (en_version E).

Definition ownTxn (st : evalState) : outcome SignedTxnWithAD := txnAt st.2 (cx_GroupIndex cx).
Definition getApplicationAddress (app : AppIndex) : Address := lg_appAddress app.

(** The instruction's immediate bytes. *)
Definition imm (m : machine) (i : Z) : outcome Z := byteAt (en_program E) (mc_pc m + i).

Definition push (sv : stackValue) (m : machine) : machine := m <| mc_stack := sv :: mc_stack m |>.
Definition setStack (st : stack) (m : machine) : machine := m <| mc_stack := st |>.

(** The budget left, after what the program has used. *)
Definition remainingBudget (m : machine) (st : evalState) : outcome Z :=
  let '(sh, ep) := st in
  let p := ep_Proto ep in
  if en_mode E =? runModeSignature then Ok (proto_LogicSigMaxCost p - mc_cost m)
  else txn ← ownTxn st;
       if isClearState p txn then Ok (proto_MaxAppProgramCost p - mc_cost m)
       else match sh_PooledApplicationBudget sh with
            | Some b => Ok b
            | None => Ok (proto_MaxAppProgramCost p - mc_cost m)
            end.

(** ** References *)

(** The address an argument designates, with its index in the accounts of the
    transaction; one past the last index for an application's own account. *)
Definition accountReference (st : evalState) (account : stackValue) : outcome (Address * Z) :=
  txn ← ownTxn st;
  let ac := tx_ApplicationCall (stad_tx txn) in
  let sender := hdr_Sender (tx_Header (stad_tx txn)) in
  match account with
  | SUint u => addr ← AddressByIndex ac u sender; Ok (addr, u)
  | SBytes _ =>
      addr ← sv_address account;
      let invalidIndex := wrap64 (llen (apc_Accounts ac) + 1) in
      match IndexByAddress ac addr sender with
      | Ok idx => Ok (addr, idx)
      | Err e =>
          if (createdResourcesVersion <=? version)
             && existsb (fun appID => addr =? getApplicationAddress appID) (res_apps (sh_created st.1))
          then Ok (addr, invalidIndex)
          else if getApplicationAddress (cx_appID cx) =? addr then Ok (addr, invalidIndex)
          else Err e
      | Panic => Panic
      end
  end.

Definition mutableAccountReference (st : evalState) (account : stackValue) : outcome (Address * Z) :=
  '(addr, accountIdx) ← accountReference st account;
  txn ← ownTxn st;
  _ ← failIf (llen (apc_Accounts (tx_ApplicationCall (stad_tx txn))) <? accountIdx)
        (Errorf "invalid Account reference for mutation");
  Ok (addr, accountIdx).

Definition member (x : Z) (l : list Z) : bool := existsb (Z.eqb x) l.

Definition appReference (st : evalState) (ref : Z) (foreign : bool) : outcome AppIndex :=
  txn ← ownTxn st;
  let apps := apc_ForeignApps (tx_ApplicationCall (stad_tx txn)) in
  if directRefEnabledVersion <=? version then
    if (ref =? 0) || (ref =? cx_appID cx) then Ok (cx_appID cx)
    else if member ref apps then Ok ref
    else if (createdResourcesVersion <=? version) && member ref (res_apps (sh_created st.1)) then Ok ref
    else if ref <=? llen apps then index_or_panic apps (ref - 1)
    else Err (Errorf "invalid App reference")
  else if ref =? 0 then Ok (cx_appID cx)
  else if foreign then
    if ref <=? llen apps then index_or_panic apps (ref - 1) else Err (Errorf "invalid App reference")
  else Ok ref.

Definition asaReference (st : evalState) (ref : Z) (foreign : bool) : outcome AssetIndex :=
  txn ← ownTxn st;
  let assets := apc_ForeignAssets (tx_ApplicationCall (stad_tx txn)) in
  if directRefEnabledVersion <=? version then
    if member ref assets then Ok ref
    else if (createdResourcesVersion <=? version) && member ref (res_asas (sh_created st.1)) then Ok ref
    else if ref <? llen assets then index_or_panic assets ref
    else Err (Errorf "invalid Asset reference")
  else if foreign then
    if ref <? llen assets then index_or_panic assets ref else Err (Errorf "invalid Asset reference")
  else Ok ref.

(** *** References without small indices *)

Definition availableAccount (st : evalState) (sv : stackValue) : outcome Address :=
  match sv with
  | SUint _ => Err (Errorf "not an address")
  | SBytes b => if negb (slen b =? 32) then Err (Errorf "not an address")
                else '(addr, _) ← accountReference st sv; Ok addr
  end.

Definition availableAsset (st : evalState) (sv : stackValue) : outcome AssetIndex :=
  aid ← sv_uint sv;
  txn ← ownTxn st;
  if member aid (apc_ForeignAssets (tx_ApplicationCall (stad_tx txn))) then Ok aid
  else if (createdResourcesVersion <=? version) && member aid (res_asas (sh_created st.1)) then Ok aid
  else Err (Errorf "invalid Asset reference").

Definition availableApp (st : evalState) (sv : stackValue) : outcome AppIndex :=
  aid ← sv_uint sv;
  txn ← ownTxn st;
  if member aid (apc_ForeignApps (tx_ApplicationCall (stad_tx txn))) then Ok aid
  else if (createdResourcesVersion <=? version) && member aid (res_apps (sh_created st.1)) then Ok aid
  else if cx_appID cx =? aid then Ok aid
  else Err (Errorf "invalid App reference").

(** ** Fields of transactions *)

(** The ID of a member of the group.  IDs are kept by their index, whatever group
    the transaction is a member of. *)
Definition getTxID (txn : Transaction) (groupIndex : Z) : prog Digest :=
  st ← tlook;
  match ep_txidCache st.2 !! groupIndex with
  | Some txid => mret txid
  | None =>
      let txid := match ep_caller st.2 with
                  | Some (parent, innerOffset) => lg_InnerID txn parent (innerOffset + groupIndex)
                  | None => lg_ID txn
                  end in
      _ ← tcacheID groupIndex txid; mret txid
  end.

Definition txnFieldToStack (stxn : SignedTxnWithAD) (fs : TxnField.spec) (arrayFieldIdx groupIndex : Z) (inner : bool)
    : prog stackValue :=
  _ ← tfailIf (TxnField.effects fs && (en_mode E =? runModeSignature)) (Errorf "txn not allowed in current mode");
  _ ← tfailIf (TxnField.effects fs && (version <? txnEffectsVersion) && negb inner)
        (Errorf "Unable to obtain effects from top-level transactions");
  _ ← tfailIf (inner && (version <? innerAppsEnabledVersion)
               && (bool_decide (TxnField.field fs = TxnField.GroupIndex) || bool_decide (TxnField.field fs = TxnField.TxID)))
        (Errorf "illegal field for inner transaction");
  sv ← (if bool_decide (TxnField.field fs = TxnField.TxID) then
          txid ← getTxID (stad_tx stxn) groupIndex; mret (svDigest txid)
        else tlift (txnFieldValue stxn (TxnField.field fs) arrayFieldIdx groupIndex));
  tlift (declared (TxnField.ftype fs) sv).

Definition fetchField (field : Z) (expectArray : bool) : outcome TxnField.spec :=
  match txnFieldSpecByField field with
  | None => Err (Errorf "invalid txn field")
  | Some fs =>
      if version <? TxnField.version fs then Err (Errorf "invalid txn field")
      else if negb (Bool.eqb expectArray (TxnField.array fs)) then
        Err (Errorf (if expectArray then "unsupported array field" else "invalid txn field"))
      else Ok fs
  end.

Inductive txnSource : Type := srcGroup | srcInner | srcInnerGroup.
#[export] Instance txnSource_eq_dec : EqDecision txnSource.
Proof. solve_decision. Defined.

Definition getLastInner (inners : list SignedTxnWithAD) : list SignedTxnWithAD := drop (length inners - 1) inners.

(** The last transactions with the given group, in reverse. *)
Fixpoint sameGroup (gid : Digest) (l : list SignedTxnWithAD) : list SignedTxnWithAD :=
  match l with
  | [] => []
  | txn :: rest => if hdr_Group (tx_Header (stad_tx txn)) =? gid then txn :: sameGroup gid rest else []
  end.

Definition getLastInnerGroup (inners : list SignedTxnWithAD) : list SignedTxnWithAD :=
  match reverse inners with
  | [] => []
  | lst :: _ =>
      let gid := hdr_Group (tx_Header (stad_tx lst)) in
      if gid =? 0 then [lst] else reverse (sameGroup gid (reverse inners))
  end.

Definition innersOf (st : evalState) : outcome (list SignedTxnWithAD) :=
  txn ← ownTxn st;
  Ok (map (fun p => mkSignedTxnWithAD p.1 p.2) (ed_InnerTxns (ad_EvalDelta (stad_ApplyData txn)))).

(** All the variants of [txn]: transaction [gi] of the source, its field, and the
    index in an array field. *)
Definition opTxnImpl (gi : Z) (src : txnSource) (field ai : Z) (expectArray : bool) : prog stackValue :=
  fs ← tlift (fetchField field expectArray);
  group ← tread (fun st =>
    match src with
    | srcGroup =>
        if TxnField.effects fs && (cx_GroupIndex cx <=? gi) then
          Err (Errorf (if en_mode E =? runModeSignature then "txn not allowed in current mode"
                       else "txn effects can only be read from past txns"))
        else Ok (ep_TxnGroup st.2)
    | srcInner => inners ← innersOf st; Ok (getLastInner inners)
    | srcInnerGroup => inners ← innersOf st; Ok (getLastInnerGroup inners)
    end);
  tx ← tlift (element group gi (Errorf "txn index"));
  txnFieldToStack tx fs ai gi (negb (bool_decide (src = srcGroup))).

(** ** Global fields *)

Definition getLatestTimestamp : prog Z :=
  ts ← tcall CLatestTimestamp;
  _ ← tfailIf (ts <? 0) (Errorf "latest timestamp < 0");
  mret ts.

Definition getCreatorAddress : prog Address :=
  r ← task (CAppParams (cx_appID cx));
  match r with
  | inl (_, creator) => mret creator
  | inr _ => Fail (Errorf "No params for current app")
  end.

Section global_field.
Import GlobalField.
Definition globalFieldToValue (m : machine) (fs : GlobalField.spec) : prog stackValue :=
  sv ← match field fs with
       | MinTxnFee => st ← tlook; mret (svUint (proto_MinTxnFee (ep_Proto st.2)))
       | GlobalField.MinBalance => st ← tlook; mret (svUint (proto_MinBalance (ep_Proto st.2)))
       | MaxTxnLife => st ← tlook; mret (svUint (proto_MaxTxnLife (ep_Proto st.2)))
       | ZeroAddress => mret (svDigest 0)
       | GroupSize => st ← tlook; mret (svUint (llen (ep_TxnGroup st.2)))
       | LogicSigVersion => st ← tlook; mret (svUint (proto_LogicSigVersion (ep_Proto st.2)))
       | GlobalField.Round => rnd ← tcall CRound; mret (svUint rnd)
       | LatestTimestamp => ts ← getLatestTimestamp; mret (svUint ts)
       | CurrentApplicationID => mret (svUint (cx_appID cx))
       | CurrentApplicationAddress => mret (svDigest (getApplicationAddress (cx_appID cx)))
       | CreatorAddress => creator ← getCreatorAddress; mret (svDigest creator)
       | GroupID => txn ← tread ownTxn; mret (svDigest (hdr_Group (tx_Header (stad_tx txn))))
       | OpcodeBudget => budget ← tread (remainingBudget m); mret (svUint budget)
       | CallerApplicationID =>
           mret match cx_callers cx with caller :: _ => svUint caller | [] => SUint 0 end
       | CallerApplicationAddress =>
           mret (svDigest match cx_callers cx with caller :: _ => getApplicationAddress caller | [] => 0 end)
       end;
  tlift (declared (ftype fs) sv).
End global_field.

End machine.
