(* ===== verification/AvmOps.v ===== *)
(** [src/data/transactions/logic/eval.go]: the opcodes that do more than compute on
    the stack: constants and branches, scratch space, transactions and the ledger,
    application storage, logs and inner transactions.  (Parsing of constant blocks
    is in assembler.go.) *)
From S2P Require Import Prelude Config Basics Transactions Bookkeeping StateDelta CompactCert Cow.
From S2P Require Import Balances CowBalances Apply AvmValue LogicParams LogicLedger LogicEval AvmFields AvmMachine.
#[local] Open Scope string_scope.
#[local] Open Scope list_scope.
#[local] Open Scope Z_scope.

#[export] Instance Eta_KeyregTxnFields : Eta KeyregTxnFields := fun r =>
  mkKeyregTxnFields (kr_VotePK r) (kr_SelectionPK r) (kr_StateProofPK r) (kr_VoteFirst r) (kr_VoteLast r)
    (kr_VoteKeyDilution r) (kr_Nonparticipation r).
#[export] Instance Eta_PaymentTxnFields : Eta PaymentTxnFields := fun r =>
  mkPaymentTxnFields (pay_Receiver r) (pay_Amount r) (pay_CloseRemainderTo r).
#[export] Instance Eta_AssetConfigTxnFields : Eta AssetConfigTxnFields := fun r =>
  mkAssetConfigTxnFields (ac_ConfigAsset r) (ac_AssetParams r).
#[export] Instance Eta_AssetTransferTxnFields : Eta AssetTransferTxnFields := fun r =>
  mkAssetTransferTxnFields (ax_XferAsset r) (ax_AssetAmount r) (ax_AssetSender r) (ax_AssetReceiver r) (ax_AssetCloseTo r).
#[export] Instance Eta_AssetFreezeTxnFields : Eta AssetFreezeTxnFields := fun r =>
  mkAssetFreezeTxnFields (af_FreezeAccount r) (af_FreezeAsset r) (af_AssetFrozen r).
#[export] Instance Eta_StateSchema : Eta StateSchema := fun r => mkStateSchema (NumUint r) (NumByteSlice r).
#[export] Instance Eta_ApplicationCallTxnFields : Eta ApplicationCallTxnFields := fun r =>
  mkApplicationCallTxnFields (apc_ApplicationID r) (apc_OnCompletion r) (apc_ApplicationArgs r) (apc_Accounts r)
    (apc_ForeignApps r) (apc_ForeignAssets r) (apc_LocalStateSchema r) (apc_GlobalStateSchema r)
    (apc_ApprovalProgram r) (apc_ClearStateProgram r) (apc_ExtraProgramPages r).

(** ** Reading the program *)

(** [binary.Uvarint(program[pos:])]. *)
Definition uvarintAt (program : string) (pos : Z) : option (Z * Z) :=
  Uvarint_from (drop (Z.to_nat pos) (String.list_ascii_of_string program)) 0 0 0.

Fixpoint parse_ints (program : string) (n : nat) (pos : Z) : outcome (list Z * Z) :=
  match n with
  | O => Ok ([], pos)
  | S n' =>
      if slen program <=? pos then Err (Errorf "intcblock ran past end of program")
      else match uvarintAt program pos with
           | None => Err (Errorf "could not decode int const")
           | Some (v, bytesUsed) =>
               '(rest, next) ← parse_ints program n' (pos + bytesUsed); Ok (v :: rest, next)
           end
  end.

Definition parseIntcblock (program : string) (pc : Z) : outcome (list Z * Z) :=
  match uvarintAt program (pc + 1) with
  | None => Err (Errorf "could not decode intcblock size")
  | Some (numInts, bytesUsed) =>
      if slen program <? numInts then Err (Errorf "intcblock with too many items")
      else parse_ints program (Z.to_nat numInts) (pc + 1 + bytesUsed)
  end.

Fixpoint parse_byteses (program : string) (n : nat) (pos : Z) : outcome (list string * Z) :=
  match n with
  | O => Ok ([], pos)
  | S n' =>
      if slen program <=? pos then Err (Errorf "bytecblock ran past end of program")
      else match uvarintAt program pos with
           | None => Err (Errorf "could not decode []byte const")
           | Some (itemLen, bytesUsed) =>
               let pos := pos + bytesUsed in
               let end_ := wrap64 (pos + itemLen) in
               if (slen program <=? pos) || (slen program <? end_) || (end_ <? pos)
               then Err (Errorf "bytecblock ran past end of program")
               else '(rest, next) ← parse_byteses program n' end_; Ok (slice program pos end_ :: rest, next)
           end
  end.

Definition parseBytecBlock (program : string) (pc : Z) : outcome (list string * Z) :=
  match uvarintAt program (pc + 1) with
  | None => Err (Errorf "could not decode bytecblock size")
  | Some (numItems, bytesUsed) =>
      if slen program <? numItems then Err (Errorf "bytecblock with too many items")
      else parse_byteses program (Z.to_nat numItems) (pc + 1 + bytesUsed)
  end.

(** The value of [pushint] and of [pushbytes], with the position after it. *)
Definition parsePushInt (program : string) (pc : Z) : outcome (Z * Z) :=
  match uvarintAt program (pc + 1) with
  | None => Err (Errorf "could not decode int")
  | Some (val, bytesUsed) => Ok (val, pc + 1 + bytesUsed)
  end.

Definition parsePushBytes (program : string) (pc : Z) : outcome (string * Z) :=
  match uvarintAt program (pc + 1) with
  | None => Err (Errorf "could not decode length")
  | Some (length, bytesUsed) =>
      let pos := pc + 1 + bytesUsed in
      let end_ := wrap64 (pos + length) in
      if (slen program <? end_) || (end_ <? pos) then Err (Errorf "pushbytes too long")
      else Ok (slice program pos end_, end_)
  end.

(** The target of a branch: a signed 16-bit offset from the next instruction. *)
Definition branchTarget (program : string) (version pc : Z) : outcome Z :=
  hi ← byteAt program (pc + 1);
  lo ← byteAt program (pc + 2);
  let word := Z.lor (Z.shiftl hi 8) lo in
  let offset := if word <? 32768 then word else word - 65536 in
  _ ← failIf ((offset <? 0) && (version <? backBranchEnabledVersion)) (Errorf "negative branch offset");
  let target := pc + 3 + offset in
  let branchTooFar := if 2 <=? version then (slen program <? target) || (target <? 0)
                      else (slen program <=? target) || (target <? 0) in
  _ ← failIf branchTooFar (Errorf "branch target beyond end of program");
  Ok target.

Section ops.
  Context {L : LogicHashes} {C : AvmCrypto} (E : evalEnv).
#[local] Notation cx := (en_cx E).
#[local] Notation code := (en_program E).
Definition op : Type := machine -> prog machine.

(** ** Opcodes on the stack, with their immediate bytes *)

Definition onStack (f : stackOp) : op := fun m => st ← tlift (f (mc_stack m)); mret (setStack st m).
Definition onStack1 (f : Z -> stackOp) : op := fun m => a ← tlift (imm E m 1); onStack (f a) m.
Definition onStack2 (f : Z -> Z -> stackOp) : op := fun m =>
  a ← tlift (imm E m 1); b ← tlift (imm E m 2); onStack (f a b) m.

(** ** Control *)

Definition opReturn : op := fun m =>
  match mc_stack m with
  | sv :: _ => mret (setStack [sv] m <| mc_nextpc := slen code |>)
  | [] => tlift Panic
  end.

Definition opB : op := fun m => target ← tlift (branchTarget code (en_version E) (mc_pc m)); mret (m <| mc_nextpc := target |>).

(** Pop a condition and branch if it holds. *)
Definition opBranchIf (test : Z -> bool) : op := fun m =>
  match mc_stack m with
  | SUint c :: st =>
      let m := setStack st m <| mc_nextpc := mc_pc m + 3 |> in
      if test c then opB m else mret m
  | _ => tlift Panic
  end.
Definition opBnz : op := opBranchIf (fun c => negb (c =? 0)).
Definition opBz : op := opBranchIf (fun c => c =? 0).

Definition opCallSub : op := fun m => opB (m <| mc_callstack := (mc_pc m + 3) :: mc_callstack m |>).

Definition opRetSub : op := fun m =>
  match mc_callstack m with
  | [] => Fail (Errorf "retsub with empty callstack")
  | target :: rest => mret (m <| mc_callstack := rest |> <| mc_nextpc := target |>)
  end.

(** ** Constants *)

Definition opIntConstBlock : op := fun m =>
  '(intc, nextpc) ← tlift (parseIntcblock code (mc_pc m)); mret (m <| mc_intc := intc |> <| mc_nextpc := nextpc |>).
Definition opIntConstN (n : Z) : op := fun m =>
  c ← tlift (element (mc_intc m) n (Errorf "intc beyond constants")); mret (push (svUint c) m).
Definition opIntConstLoad : op := fun m => n ← tlift (imm E m 1); opIntConstN n m.
Definition opPushInt : op := fun m =>
  '(val, nextpc) ← tlift (parsePushInt code (mc_pc m)); mret (push (svUint val) m <| mc_nextpc := nextpc |>).

Definition opByteConstBlock : op := fun m =>
  '(bytec, nextpc) ← tlift (parseBytecBlock code (mc_pc m)); mret (m <| mc_bytec := bytec |> <| mc_nextpc := nextpc |>).
Definition opByteConstN (n : Z) : op := fun m =>
  c ← tlift (element (mc_bytec m) n (Errorf "bytec beyond constants")); mret (push (SBytes c) m).
Definition opByteConstLoad : op := fun m => n ← tlift (imm E m 1); opByteConstN n m.
Definition opPushBytes : op := fun m =>
  '(val, nextpc) ← tlift (parsePushBytes code (mc_pc m)); mret (push (SBytes val) m <| mc_nextpc := nextpc |>).

Definition opArgN (n : Z) : op := fun m =>
  arg ← tlift (element (en_args E) n (Errorf "cannot load arg")); mret (push (SBytes arg) m).
Definition opArg : op := fun m => n ← tlift (imm E m 1); opArgN n m.

(** Pop an integer. *)
Definition popUint (m : machine) : prog (Z * machine) :=
  match mc_stack m with SUint u :: st => mret (u, setStack st m) | _ => tlift Panic end.
Definition popBytes (m : machine) : prog (string * machine) :=
  match mc_stack m with SBytes b :: st => mret (b, setStack st m) | _ => tlift Panic end.
Definition popAny (m : machine) : prog (stackValue * machine) :=
  match mc_stack m with sv :: st => mret (sv, setStack st m) | [] => tlift Panic end.

Definition opArgs : op := fun m => '(n, m) ← popUint m; opArgN n m.

(** ** Hashes and signatures *)

Definition opSHA256 : stackOp := onBytes (fun b => Ok [SBytes (cr_Sum256 b)]).
Definition opKeccak256 : stackOp := onBytes (fun b => Ok [SBytes (cr_Keccak256 b)]).
Definition opSHA512_256 : stackOp := onBytes (fun b => Ok [SBytes (cr_Sum512_256 b)]).

Definition opEd25519verify : op := fun m =>
  '(pk, m) ← popBytes m;
  '(sig, m) ← popBytes m;
  '(data, m) ← popBytes m;
  _ ← tfailIf (negb (slen pk =? 32)) (Errorf "invalid public key");
  _ ← tfailIf (negb (slen sig =? 64)) (Errorf "invalid signature");
  st ← tlook;
  mret (push (svBool (cr_Verify pk (cr_HashProgram code) data sig (proto_EnableBatchVerification (ep_Proto st.2)))) m).

(** The only curve is number 0, [Secp256k1], since version 5. *)
Definition ecdsaCurve (m : machine) : prog unit :=
  curve ← tlift (imm E m 1);
  tfailIf (negb (curve =? 0) || (en_version E <? 5)) (Errorf "invalid curve").

Definition leadingZeros (size : Z) (b : Z) : outcome string :=
  let data := big_bytes b in
  if size <? slen data then Err (Errorf "insufficient buffer size")
  else Ok (of_bytes (repeat 0 (Z.to_nat (size - slen data))) +:+ data).

Definition opEcdsaVerify : op := fun m =>
  _ ← ecdsaCurve m;
  '(pkY, m) ← popBytes m;
  '(pkX, m) ← popBytes m;
  '(sigS, m) ← popBytes m;
  '(sigR, m) ← popBytes m;
  '(msg, m) ← popBytes m;
  mret (push (svBool (cr_VerifySignature (big_of pkX) (big_of pkY) msg (sigR +:+ sigS))) m).

Definition opEcdsaPkDecompress : op := fun m =>
  _ ← ecdsaCurve m;
  '(pubkey, m) ← popBytes m;
  match cr_DecompressPubkey pubkey with
  | None => Fail (Errorf "invalid pubkey")
  | Some (x, y) =>
      x ← tlift (leadingZeros 32 x);
      y ← tlift (leadingZeros 32 y);
      mret (push (SBytes y) (push (SBytes x) m))
  end.

Definition opEcdsaPkRecover : op := fun m =>
  _ ← ecdsaCurve m;
  '(sigS, m) ← popBytes m;
  '(sigR, m) ← popBytes m;
  '(recid, m) ← popUint m;
  '(msg, m) ← popBytes m;
  _ ← tfailIf (3 <? recid) (Errorf "invalid recovery id");
  pk ← tlift (wrapErr (Errorf "pubkey recover failed") (cr_RecoverPubkey msg (sigR +:+ sigS +:+ of_bytes [recid])));
  match cr_Unmarshal pk with
  | None => Fail (Errorf "pubkey unmarshal failed")
  | Some (x, y) =>
      x ← tlift (leadingZeros 32 x);
      y ← tlift (leadingZeros 32 y);
      mret (push (SBytes y) (push (SBytes x) m))
  end.

(** ** Scratch space *)

Definition loadScratch (scratch : scratchSpace) (n : Z) : stackValue := default (SUint 0) (scratch !! n).

(** An integer of another program's scratch space is a 64-bit word too. *)
Definition word (sv : stackValue) : stackValue := match sv with SUint u => svUint u | SBytes b => SBytes b end.

(** Scratch space is kept for later members of the group. *)
Definition storeScratch (n : Z) (sv : stackValue) (m : machine) : prog machine :=
  let scratch := <[n := sv]> (mc_scratch m) in
  _ ← tstore scratch; mret (m <| mc_scratch := scratch |>).

Definition opLoad : op := fun m => n ← tlift (imm E m 1); mret (push (loadScratch (mc_scratch m) n) m).
Definition opLoads : op := fun m =>
  '(n, m) ← popUint m;
  _ ← tfailIf (256 <=? n) (Errorf "invalid Scratch index");
  mret (push (loadScratch (mc_scratch m) n) m).
Definition opStore : op := fun m => n ← tlift (imm E m 1); '(sv, m) ← popAny m; storeScratch n sv m.
Definition opStores : op := fun m =>
  '(sv, m) ← popAny m;
  '(n, m) ← popUint m;
  _ ← tfailIf (256 <=? n) (Errorf "invalid Scratch index");
  storeScratch n sv m.

Definition opGloadImpl (gi scratchIdx : Z) : prog stackValue := tread (fun st =>
  txn ← element (ep_TxnGroup st.2) gi (Errorf "lookup TxnGroup");
  _ ← failIf (negb (isAppCall txn)) (Errorf "can't use on non-app call txn");
  _ ← failIf (gi =? cx_GroupIndex cx) (Errorf "can't use on self, use load instead");
  _ ← failIf (cx_GroupIndex cx <? gi) (Errorf "can't get future scratch space");
  match ep_pastScratch st.2 !! gi with
  | Some scratch => Ok (word (loadScratch scratch scratchIdx))
  | None => Panic
  end).

Definition opGload : op := fun m =>
  gi ← tlift (imm E m 1); scratchIdx ← tlift (imm E m 2);
  sv ← opGloadImpl gi scratchIdx; mret (push sv m).
Definition opGloads : op := fun m =>
  '(gi, m') ← popUint m; scratchIdx ← tlift (imm E m 1);
  sv ← opGloadImpl gi scratchIdx; mret (push sv m').
Definition opGloadss : op := fun m =>
  '(scratchIdx, m) ← popUint m;
  '(gi, m) ← popUint m;
  _ ← tread (fun st => failIf (llen (ep_TxnGroup st.2) <=? gi) (Errorf "lookup TxnGroup"));
  _ ← tfailIf (256 <=? scratchIdx) (Errorf "gloadss scratch index >= 256");
  sv ← opGloadImpl gi scratchIdx; mret (push sv m).

(** ** Fields of transactions *)

Definition opTxn : op := fun m =>
  field ← tlift (imm E m 1);
  sv ← opTxnImpl E (cx_GroupIndex cx) srcGroup field 0 false; mret (push sv m).
Definition opTxna : op := fun m =>
  field ← tlift (imm E m 1); ai ← tlift (imm E m 2);
  sv ← opTxnImpl E (cx_GroupIndex cx) srcGroup field ai true; mret (push sv m).
Definition opTxnas : op := fun m =>
  field ← tlift (imm E m 1); '(ai, m) ← popUint m;
  sv ← opTxnImpl E (cx_GroupIndex cx) srcGroup field ai true; mret (push sv m).
Definition opGtxn : op := fun m =>
  gi ← tlift (imm E m 1); field ← tlift (imm E m 2);
  sv ← opTxnImpl E gi srcGroup field 0 false; mret (push sv m).
Definition opGtxna : op := fun m =>
  gi ← tlift (imm E m 1); field ← tlift (imm E m 2); ai ← tlift (imm E m 3);
  sv ← opTxnImpl E gi srcGroup field ai true; mret (push sv m).
Definition opGtxnas : op := fun m =>
  gi ← tlift (imm E m 1); field ← tlift (imm E m 2); '(ai, m) ← popUint m;
  sv ← opTxnImpl E gi srcGroup field ai true; mret (push sv m).
Definition opGtxns : op := fun m =>
  field ← tlift (imm E m 1); '(gi, m) ← popUint m;
  sv ← opTxnImpl E gi srcGroup field 0 false; mret (push sv m).
Definition opGtxnsa : op := fun m =>
  field ← tlift (imm E m 1); ai ← tlift (imm E m 2); '(gi, m) ← popUint m;
  sv ← opTxnImpl E gi srcGroup field ai true; mret (push sv m).
Definition opGtxnsas : op := fun m =>
  field ← tlift (imm E m 1); '(ai, m) ← popUint m; '(gi, m) ← popUint m;
  sv ← opTxnImpl E gi srcGroup field ai true; mret (push sv m).
Definition opItxn : op := fun m =>
  field ← tlift (imm E m 1);
  sv ← opTxnImpl E 0 srcInner field 0 false; mret (push sv m).
Definition opItxna : op := fun m =>
  field ← tlift (imm E m 1); ai ← tlift (imm E m 2);
  sv ← opTxnImpl E 0 srcInner field ai true; mret (push sv m).
Definition opItxnas : op := fun m =>
  field ← tlift (imm E m 1); '(ai, m) ← popUint m;
  sv ← opTxnImpl E 0 srcInner field ai true; mret (push sv m).
Definition opGitxn : op := fun m =>
  gi ← tlift (imm E m 1); field ← tlift (imm E m 2);
  sv ← opTxnImpl E gi srcInnerGroup field 0 false; mret (push sv m).
Definition opGitxna : op := fun m =>
  gi ← tlift (imm E m 1); field ← tlift (imm E m 2); ai ← tlift (imm E m 3);
  sv ← opTxnImpl E gi srcInnerGroup field ai true; mret (push sv m).
Definition opGitxnas : op := fun m =>
  gi ← tlift (imm E m 1); field ← tlift (imm E m 2); '(ai, m) ← popUint m;
  sv ← opTxnImpl E gi srcInnerGroup field ai true; mret (push sv m).

(** The application or asset an earlier member of the group created. *)
Definition opGaidImpl (gi : Z) : prog stackValue := tread (fun st =>
  txn ← element (ep_TxnGroup st.2) gi (Errorf "lookup TxnGroup");
  _ ← failIf (cx_GroupIndex cx <? gi) (Errorf "can't get creatable ID of txn ahead of the current one");
  _ ← failIf (gi =? cx_GroupIndex cx) (Errorf "is only for accessing creatable IDs of previous txns");
  _ ← failIf (negb (isAppCall txn || bool_decide (tx_Type (stad_tx txn) = AssetConfigTx)))
        (Errorf "can't use on txn that is not an app call nor an asset config txn");
  let ad := stad_ApplyData txn in
  if negb (ad_ConfigAsset ad =? 0) then Ok (svUint (ad_ConfigAsset ad))
  else if negb (ad_ApplicationID ad =? 0) then Ok (svUint (ad_ApplicationID ad))
  else Err (Errorf "index did not create anything")).
Definition opGaid : op := fun m => gi ← tlift (imm E m 1); sv ← opGaidImpl gi; mret (push sv m).
Definition opGaids : op := fun m => '(gi, m) ← popUint m; sv ← opGaidImpl gi; mret (push sv m).

Definition opGlobal : op := fun m =>
  globalField ← tlift (imm E m 1);
  match globalFieldSpecByField globalField with
  | None => Fail (Errorf "invalid global field")
  | Some fs =>
      _ ← tfailIf (en_version E <? GlobalField.version fs) (Errorf "invalid global field");
      _ ← tfailIf (Z.land (en_mode E) (GlobalField.mode fs) =? 0) (Errorf "global not allowed in current mode");
      sv ← globalFieldToValue E m fs; mret (push sv m)
  end.

(** ** The ledger *)

Definition accountData (sv : stackValue) : prog AccountData :=
  '(addr, _) ← tread (fun st => accountReference E st sv);
  tcall (CAccountData addr).

Definition opBalance : op := fun m =>
  '(sv, m) ← popAny m;
  account ← accountData sv;
  mret (push (svUint (acct_MicroNovas account)) m).

Definition opMinBalance : op := fun m =>
  '(sv, m) ← popAny m;
  account ← accountData sv;
  st ← tlook;
  mret (push (svUint (MinBalance (ep_Proto st.2) account)) m).

Definition opAppOptedIn : op := fun m =>
  '(ref, m) ← popUint m;
  '(account, m) ← popAny m;
  '(addr, _) ← tread (fun st => accountReference E st account);
  app ← tread (fun st => appReference E st ref false);
  optedIn ← tcall (COptedIn addr app);
  mret (push (svBool optedIn) m).

(** A value of application storage, zero when there is none. *)
Definition stored (r : TealValue * bool) : prog (stackValue * bool) :=
  let '(tv, ok) := r in
  if (ok : bool) then sv ← tlift (stackValueFromTealValue tv); mret (sv, true) else mret (SUint 0, false).

Definition opAppLocalGetImpl (appID : Z) (key : string) (acct : stackValue) : prog (stackValue * bool) :=
  '(addr, accountIdx) ← tread (fun st => accountReference E st acct);
  app ← tread (fun st => appReference E st appID false);
  r ← tcall (CGetLocal addr app key accountIdx);
  stored r.

Definition opAppLocalGet : op := fun m =>
  '(key, m) ← popBytes m;
  '(acct, m) ← popAny m;
  '(result, _) ← opAppLocalGetImpl 0 key acct;
  mret (push result m).

Definition opAppLocalGetEx : op := fun m =>
  '(key, m) ← popBytes m;
  '(appID, m) ← popUint m;
  '(acct, m) ← popAny m;
  '(result, ok) ← opAppLocalGetImpl appID key acct;
  mret (push (svBool ok) (push result m)).

Definition opAppGetGlobalStateImpl (appIndex : Z) (key : string) : prog (stackValue * bool) :=
  app ← tread (fun st => appReference E st appIndex true);
  r ← tcall (CGetGlobal app key);
  stored r.

Definition opAppGlobalGet : op := fun m =>
  '(key, m) ← popBytes m;
  '(result, _) ← opAppGetGlobalStateImpl 0 key;
  mret (push result m).

Definition opAppGlobalGetEx : op := fun m =>
  '(key, m) ← popBytes m;
  '(appIndex, m) ← popUint m;
  '(result, ok) ← opAppGetGlobalStateImpl appIndex key;
  mret (push (svBool ok) (push result m)).

(** Change the record of what the program did. *)
Definition record (f : EvalDelta -> EvalDelta) : prog unit :=
  txn ← tread (ownTxn E);
  tlog (f (ad_EvalDelta (stad_ApplyData txn))).
Definition recordLocal (accountIdx : Z) (key : string) (vd : ValueDelta) : prog unit :=
  record (fun ed =>
    ed <| ed_LocalDeltas := <[accountIdx := <[key := vd]> (default ∅ (ed_LocalDeltas ed !! accountIdx))]> (ed_LocalDeltas ed) |>).
Definition recordGlobal (key : string) (vd : ValueDelta) : prog unit :=
  record (fun ed => ed <| ed_GlobalDelta := <[key := vd]> (ed_GlobalDelta ed) |>).

(** The value to write is new: there is none, or another one. *)
Definition changes (tv : TealValue) (r : TealValue * bool) : bool := negb r.2 || negb (bool_decide (tv = r.1)).

Definition opAppLocalPut : op := fun m =>
  '(sv, m) ← popAny m;
  '(key, m) ← popBytes m;
  '(account, m) ← popAny m;
  '(addr, accountIdx) ← tread (fun st => mutableAccountReference E st account);
  r ← tcall (CGetLocal addr (cx_appID cx) key accountIdx);
  let tv := toTealValue sv in
  _ ← (if changes tv r then recordLocal accountIdx key (ToValueDelta tv) else mret tt);
  _ ← tcall (CSetLocal addr (cx_appID cx) key tv accountIdx);
  mret m.

Definition opAppGlobalPut : op := fun m =>
  '(sv, m) ← popAny m;
  '(key, m) ← popBytes m;
  r ← tcall (CGetGlobal (cx_appID cx) key);
  let tv := toTealValue sv in
  _ ← (if changes tv r then recordGlobal key (ToValueDelta tv) else mret tt);
  _ ← tcall (CSetGlobal (cx_appID cx) key tv);
  mret m.

(** A failed read is no value to delete. *)
Definition present (r : TealValue * bool + error) : bool := match r with inl (_, ok) => ok | inr _ => false end.

Definition opAppLocalDel : op := fun m =>
  '(key, m) ← popBytes m;
  '(account, m) ← popAny m;
  '(addr, accountIdx) ← tread (fun st => mutableAccountReference E st account);
  r ← task (CGetLocal addr (cx_appID cx) key accountIdx);
  _ ← (if present r then recordLocal accountIdx key (mkValueDelta DeleteAction "" 0) else mret tt);
  _ ← tcall (CDelLocal addr (cx_appID cx) key accountIdx);
  mret m.

Definition opAppGlobalDel : op := fun m =>
  '(key, m) ← popBytes m;
  r ← task (CGetGlobal (cx_appID cx) key);
  _ ← (if present r then recordGlobal key (mkValueDelta DeleteAction "" 0) else mret tt);
  _ ← tcall (CDelGlobal (cx_appID cx) key);
  mret m.

Definition opAssetHoldingGet : op := fun m =>
  holdingField ← tlift (imm E m 1);
  '(ref, m) ← popUint m;
  '(account, m) ← popAny m;
  match assetHoldingFieldSpecByField holdingField with
  | None => Fail (Errorf "invalid asset_holding_get field")
  | Some fs =>
      _ ← tfailIf (en_version E <? AssetHoldingField.version fs) (Errorf "invalid asset_holding_get field");
      '(addr, _) ← tread (fun st => accountReference E st account);
      asset ← tread (fun st => asaReference E st ref false);
      r ← task (CAssetHolding addr asset);
      match r with
      | inl holding => value ← tlift (assetHoldingToValue holding fs); mret (push (SUint 1) (push value m))
      | inr _ => mret (push (SUint 0) (push (SUint 0) m))
      end
  end.

Definition opAssetParamsGet : op := fun m =>
  paramField ← tlift (imm E m 1);
  '(ref, m) ← popUint m;
  match assetParamsFieldSpecByField paramField with
  | None => Fail (Errorf "invalid asset_params_get field")
  | Some fs =>
      _ ← tfailIf (en_version E <? AssetParamsField.version fs) (Errorf "invalid asset_params_get field");
      asset ← tread (fun st => asaReference E st ref true);
      r ← task (CAssetParams asset);
      match r with
      | inl (params, creator) =>
          value ← tlift (assetParamsToValue params creator fs); mret (push (SUint 1) (push value m))
      | inr _ => mret (push (SUint 0) (push (SUint 0) m))
      end
  end.

Definition opAppParamsGet : op := fun m =>
  paramField ← tlift (imm E m 1);
  '(ref, m) ← popUint m;
  match appParamsFieldSpecByField paramField with
  | None => Fail (Errorf "invalid app_params_get field")
  | Some fs =>
      _ ← tfailIf (en_version E <? AppParamsField.version fs) (Errorf "invalid app_params_get field");
      app ← tread (fun st => appReference E st ref true);
      r ← task (CAppParams app);
      match r with
      | inl (params, creator) =>
          value ← match AppParamsField.field fs with
                  | AppParamsField.AppCreator => mret (svDigest creator)
                  | AppParamsField.AppAddress => mret (svDigest (lg_appAddress app))
                  | _ => tlift (appParamsToValue params fs)
                  end;
          mret (push (SUint 1) (push value m))
      | inr _ => mret (push (SUint 0) (push (SUint 0) m))
      end
  end.

Definition opAcctParamsGet : op := fun m =>
  paramField ← tlift (imm E m 1);
  '(sv, m) ← popAny m;
  '(addr, _) ← tread (fun st => accountReference E st sv);
  match acctParamsFieldSpecByField paramField with
  | None => Fail (Errorf "invalid acct_params_get field")
  | Some fs =>
      _ ← tfailIf (en_version E <? AcctParamsField.version fs) (Errorf "invalid acct_params_get field");
      account ← tcall (CAccountData addr);
      st ← tlook;
      let value := match AcctParamsField.field fs with
                   | AcctParamsField.AcctBalance => svUint (acct_MicroNovas account)
                   | AcctParamsField.AcctMinBalance => svUint (MinBalance (ep_Proto st.2) account)
                   | AcctParamsField.AcctAuthAddr => svDigest (acct_AuthAddr account)
                   end in
      mret (push (svBool (0 <? acct_MicroNovas account)) (push value m))
  end.

Definition opLog : op := fun m =>
  txn ← tread (ownTxn E);
  _ ← tfailIf (MaxLogCalls <=? llen (ed_Logs (ad_EvalDelta (stad_ApplyData txn)))) (Errorf "too many log calls in program");
  '(log, m) ← popBytes m;
  let logSize := mc_logSize m + slen log in
  _ ← tfailIf (MaxLogSize <? logSize) (Errorf "program logs too large");
  _ ← record (fun ed => ed <| ed_Logs := ed_Logs ed ++ [log] |>);
  mret (m <| mc_logSize := logSize |>).

(** ** Inner transactions *)

Definition txBegin : op := fun m =>
  subtxns ← tread (opTxBegin cx (mc_subtxns m)); mret (m <| mc_subtxns := subtxns |>).
Definition txNext : op := fun m =>
  subtxns ← tread (opTxNext cx (mc_subtxns m)); mret (m <| mc_subtxns := subtxns |>).

Definition txSubmit : op := fun m => _ ← tsubmit (mc_subtxns m); mret (m <| mc_subtxns := [] |>).

Definition innerTypeAllowed (ty : TxType) : bool :=
  match innerTxnTypes ty with Some ver => ver <=? en_version E | None => false end.

(** A byte field of a fixed size, as a number. *)
Definition fixedBytes (size : Z) (sv : stackValue) : outcome Z :=
  if negb (slen (sv_Bytes sv) =? size) then Err (Errorf "must be of fixed size") else Ok (big_of (sv_Bytes sv)).

Definition bytesUpTo (size : Z) (sv : stackValue) : outcome string :=
  if size <? slen (sv_Bytes sv) then Err (Errorf "may not exceed size") else Ok (sv_Bytes sv).

(** Append to an array field with at most [max] elements. *)
Definition appendUpTo {A} (max : Z) (e : error) (l : list A) (x : A) : outcome (list A) :=
  if max <=? llen l then Err e else Ok (l ++ [x]).

Definition totalLength (l : list string) : Z := fold_left (fun n arg => n + slen arg) l 0.

Section txn_field.
Import TxnField.

(** Set a field of the header, of the part a type of transaction has. *)
Definition setHeader {A} (set : A -> Header -> Header) (tx : Transaction) (r : outcome A) : outcome Transaction :=
  v ← r; Ok (tx <| tx_Header := set v (tx_Header tx) |>).
Definition setKeyreg {A} (set : A -> KeyregTxnFields -> KeyregTxnFields) (tx : Transaction) (r : outcome A) : outcome Transaction :=
  v ← r; Ok (tx <| tx_Keyreg := set v (tx_Keyreg tx) |>).
Definition setPayment {A} (set : A -> PaymentTxnFields -> PaymentTxnFields) (tx : Transaction) (r : outcome A) : outcome Transaction :=
  v ← r; Ok (tx <| tx_Payment := set v (tx_Payment tx) |>).
Definition setAssetTransfer {A} (set : A -> AssetTransferTxnFields -> AssetTransferTxnFields) (tx : Transaction) (r : outcome A)
    : outcome Transaction :=
  v ← r; Ok (tx <| tx_AssetTransfer := set v (tx_AssetTransfer tx) |>).
Definition setAssetParams {A} (set : A -> AssetParams -> AssetParams) (tx : Transaction) (r : outcome A) : outcome Transaction :=
  v ← r;
  Ok (tx <| tx_AssetConfig := tx_AssetConfig tx <| ac_AssetParams := set v (ac_AssetParams (tx_AssetConfig tx)) |> |>).
Definition setAssetFreeze {A} (set : A -> AssetFreezeTxnFields -> AssetFreezeTxnFields) (tx : Transaction) (r : outcome A)
    : outcome Transaction :=
  v ← r; Ok (tx <| tx_AssetFreeze := set v (tx_AssetFreeze tx) |>).
Definition setApplicationCall {A} (set : A -> ApplicationCallTxnFields -> ApplicationCallTxnFields) (tx : Transaction)
    (r : outcome A) : outcome Transaction :=
  v ← r; Ok (tx <| tx_ApplicationCall := set v (tx_ApplicationCall tx) |>).

Definition stackIntoTxnField (st : evalState) (sv : stackValue) (f : t) (tx : Transaction) : outcome Transaction :=
  let p := ep_Proto st.2 in
  let ac := tx_ApplicationCall tx in
  let account := availableAccount E st sv in
  let maxProgram := proto_MaxAppProgramLen p * (1 + proto_MaxExtraAppProgramPages p) in
  match f with
  | Type_ =>
      match sv with
      | SUint _ => Err (Errorf "Type arg not a byte array")
      | SBytes name =>
          match innerTypeByName name with
          | Some ty => if innerTypeAllowed ty then Ok (tx <| tx_Type := ty |>)
                       else Err (Errorf "is not a valid Type for itxn_field")
          | None => Err (Errorf "is not a valid Type for itxn_field")
          end
      end
  | TypeEnum =>
      i ← sv_uint sv;
      if negb (i =? 0) && (i <? llen TxnTypeNames) then
        ty ← index_or_panic TxnTypeNames i;
        if innerTypeAllowed ty then Ok (tx <| tx_Type := ty |>) else Err (Errorf "is not a valid Type for itxn_field")
      else Err (Errorf "is not a valid TypeEnum")
  | Sender => setHeader (fun v h => h <| hdr_Sender := v |>) tx account
  | Fee => setHeader (fun v h => h <| hdr_Fee := v |>) tx (sv_uint sv)
  | Note => setHeader (fun v h => h <| hdr_Note := v |>) tx (bytesUpTo (proto_MaxTxnNoteBytes p) sv)
  | RekeyTo => setHeader (fun v h => h <| hdr_RekeyTo := v |>) tx (sv_address sv)
  | VotePK => setKeyreg (fun v k => k <| kr_VotePK := v |>) tx (fixedBytes 32 sv)
  | SelectionPK => setKeyreg (fun v k => k <| kr_SelectionPK := v |>) tx (fixedBytes 32 sv)
  | StateProofPK => setKeyreg (fun v k => k <| kr_StateProofPK := v |>) tx (fixedBytes 64 sv)
  | VoteFirst => setKeyreg (fun v k => k <| kr_VoteFirst := v |>) tx (sv_uint sv)
  | VoteLast => setKeyreg (fun v k => k <| kr_VoteLast := v |>) tx (sv_uint sv)
  | VoteKeyDilution => setKeyreg (fun v k => k <| kr_VoteKeyDilution := v |>) tx (sv_uint sv)
  | Nonparticipation => setKeyreg (fun v k => k <| kr_Nonparticipation := v |>) tx (sv_bool sv)
  | Receiver => setPayment (fun v y => y <| pay_Receiver := v |>) tx account
  | Amount => setPayment (fun v y => y <| pay_Amount := v |>) tx (sv_uint sv)
  | CloseRemainderTo => setPayment (fun v y => y <| pay_CloseRemainderTo := v |>) tx account
  | XferAsset => setAssetTransfer (fun v a => a <| ax_XferAsset := v |>) tx (availableAsset E st sv)
  | AssetAmount => setAssetTransfer (fun v a => a <| ax_AssetAmount := v |>) tx (sv_uint sv)
  | AssetSender => setAssetTransfer (fun v a => a <| ax_AssetSender := v |>) tx account
  | AssetReceiver => setAssetTransfer (fun v a => a <| ax_AssetReceiver := v |>) tx account
  | AssetCloseTo => setAssetTransfer (fun v a => a <| ax_AssetCloseTo := v |>) tx account
  | ConfigAsset =>
      v ← availableAsset E st sv; Ok (tx <| tx_AssetConfig := tx_AssetConfig tx <| ac_ConfigAsset := v |> |>)
  | ConfigAssetTotal => setAssetParams (fun v a => a <| ap_Total := v |>) tx (sv_uint sv)
  | ConfigAssetDecimals =>
      setAssetParams (fun v a => a <| ap_Decimals := v |>) tx
        (decimals ← sv_uint sv;
         if wrap64 (proto_MaxAssetDecimals p) <? decimals then Err (Errorf "too many decimals") else Ok (wrap32 decimals))
  | ConfigAssetDefaultFrozen => setAssetParams (fun v a => a <| ap_DefaultFrozen := v |>) tx (sv_bool sv)
  | ConfigAssetUnitName => setAssetParams (fun v a => a <| ap_UnitName := v |>) tx (sv_string (proto_MaxAssetUnitNameBytes p) sv)
  | ConfigAssetName => setAssetParams (fun v a => a <| ap_AssetName := v |>) tx (sv_string (proto_MaxAssetNameBytes p) sv)
  | ConfigAssetURL => setAssetParams (fun v a => a <| ap_URL := v |>) tx (sv_string (proto_MaxAssetURLBytes p) sv)
  | ConfigAssetMetadataHash => setAssetParams (fun v a => a <| ap_MetadataHash := v |>) tx (fixedBytes 32 sv)
  | ConfigAssetManager => setAssetParams (fun v a => a <| ap_Manager := v |>) tx (sv_address sv)
  | ConfigAssetReserve => setAssetParams (fun v a => a <| ap_Reserve := v |>) tx (sv_address sv)
  | ConfigAssetFreeze => setAssetParams (fun v a => a <| ap_Freeze := v |>) tx (sv_address sv)
  | ConfigAssetClawback => setAssetParams (fun v a => a <| ap_Clawback := v |>) tx (sv_address sv)
  | FreezeAsset => setAssetFreeze (fun v a => a <| af_FreezeAsset := v |>) tx (availableAsset E st sv)
  | FreezeAssetAccount => setAssetFreeze (fun v a => a <| af_FreezeAccount := v |>) tx account
  | FreezeAssetFrozen => setAssetFreeze (fun v a => a <| af_AssetFrozen := v |>) tx (sv_bool sv)
  | ApplicationID => setApplicationCall (fun v a => a <| apc_ApplicationID := v |>) tx (availableApp E st sv)
  | OnCompletion => setApplicationCall (fun v a => a <| apc_OnCompletion := v |>) tx (uintMaxed DeleteApplicationOC sv)
  | ApplicationArgs =>
      match sv with
      | SUint _ => Err (Errorf "ApplicationArg is not a byte array")
      | SBytes arg =>
          if proto_MaxAppTotalArgLen p <? slen arg + totalLength (apc_ApplicationArgs ac)
          then Err (Errorf "total application args length too long")
          else setApplicationCall (fun v a => a <| apc_ApplicationArgs := v |>) tx
                 (appendUpTo (proto_MaxAppArgs p) (Errorf "too many application args") (apc_ApplicationArgs ac) arg)
      end
  | Accounts =>
      setApplicationCall (fun v a => a <| apc_Accounts := v |>) tx
        (addr ← account; appendUpTo (proto_MaxAppTxnAccounts p) (Errorf "too many foreign accounts") (apc_Accounts ac) addr)
  | ApprovalProgram => setApplicationCall (fun v a => a <| apc_ApprovalProgram := v |>) tx (bytesUpTo maxProgram sv)
  | ClearStateProgram => setApplicationCall (fun v a => a <| apc_ClearStateProgram := v |>) tx (bytesUpTo maxProgram sv)
  | Assets =>
      setApplicationCall (fun v a => a <| apc_ForeignAssets := v |>) tx
        (aid ← availableAsset E st sv;
         appendUpTo (proto_MaxAppTxnForeignAssets p) (Errorf "too many foreign assets") (apc_ForeignAssets ac) aid)
  | Applications =>
      setApplicationCall (fun v a => a <| apc_ForeignApps := v |>) tx
        (aid ← availableApp E st sv;
         appendUpTo (proto_MaxAppTxnForeignApps p) (Errorf "too many foreign apps") (apc_ForeignApps ac) aid)
  | GlobalNumUint =>
      setApplicationCall (fun v a => a <| apc_GlobalStateSchema := apc_GlobalStateSchema a <| NumUint := v |> |>) tx
        (uintMaxed (proto_MaxGlobalSchemaEntries p) sv)
  | GlobalNumByteSlice =>
      setApplicationCall (fun v a => a <| apc_GlobalStateSchema := apc_GlobalStateSchema a <| NumByteSlice := v |> |>) tx
        (uintMaxed (proto_MaxGlobalSchemaEntries p) sv)
  | LocalNumUint =>
      setApplicationCall (fun v a => a <| apc_LocalStateSchema := apc_LocalStateSchema a <| NumUint := v |> |>) tx
        (uintMaxed (proto_MaxLocalSchemaEntries p) sv)
  | LocalNumByteSlice =>
      setApplicationCall (fun v a => a <| apc_LocalStateSchema := apc_LocalStateSchema a <| NumByteSlice := v |> |>) tx
        (uintMaxed (proto_MaxLocalSchemaEntries p) sv)
  | ExtraProgramPages =>
      setApplicationCall (fun v a => a <| apc_ExtraProgramPages := v |>) tx
        (epp ← uintMaxed (wrap64 (proto_MaxExtraAppProgramPages p)) sv; Ok (wrap32 epp))
  | _ => Err (Errorf "invalid itxn_field")
  end.
End txn_field.

(** Set a field of the last transaction of the group being built. *)
Definition opTxField : op := fun m =>
  match list.last (mc_subtxns m) with
  | None => Fail (Errorf "itxn_field without itxn_begin")
  | Some sub =>
      field ← tlift (imm E m 1);
      match txnFieldSpecByField field with
      | None => Fail (Errorf "invalid itxn_field")
      | Some fs =>
          _ ← tfailIf ((TxnField.itxVersion fs =? 0) || (en_version E <? TxnField.itxVersion fs)) (Errorf "invalid itxn_field");
          '(sv, m) ← popAny m;
          tx ← tread (fun st => stackIntoTxnField st sv (TxnField.field fs) (stad_tx sub));
          let sub := mkSignedTxnWithAD (stad_SignedTxn sub <| stx_Txn := tx |>) (stad_ApplyData sub) in
          mret (m <| mc_subtxns := take (length (mc_subtxns m) - 1) (mc_subtxns m) ++ [sub] |>)
      end
  end.

End ops.
