(* ===== verification/AvmLoop.v ===== *)
(** [src/data/transactions/logic/opcodes.go] and the interpreter loop of eval.go: the
    table of opcodes, [step], [eval], the static check of programs ([check]) and the
    evaluation of logic signatures.

    The table is [OpSpecs] of the source, row by row; [base64_decode], which belongs
    to a version that cannot be run yet, is left out.  The loop takes fuel:
    [evalFuel] is the budget the program can ever have, and every instruction costs
    at least one unit of it. *)
From S2P Require Import Prelude Config Basics Transactions Bookkeeping StateDelta CompactCert Cow.
From S2P Require Import Balances CowBalances Apply AvmValue LogicParams LogicLedger LogicEval AvmFields AvmMachine AvmOps.
#[local] Open Scope string_scope.
#[local] Open Scope list_scope.
#[local] Open Scope Z_scope.

(** ** Static checks of instructions *)

(** The position, where instructions began, and where branches seen so far go. *)
Record checkState : Type := mkcheckState {
  ck_pc : Z;
  ck_instructionStarts : gset Z;
  ck_branchTargets : gset Z }.
#[export] Instance Eta_checkState : Eta checkState := fun r =>
  mkcheckState (ck_pc r) (ck_instructionStarts r) (ck_branchTargets r).

(** A check of the instruction at the current position: the state with its branch
    noted, and the position of the next instruction. *)
Definition opCheckFunc : Type := string -> Z -> checkState -> outcome (checkState * Z).

Definition checkBranch : opCheckFunc := fun program version ck =>
  let nextpc := ck_pc ck + 3 in
  target ← branchTarget program version (ck_pc ck);
  _ ← failIf ((target <? nextpc) && negb (bool_decide (target ∈ ck_instructionStarts ck)))
        (Errorf "back branch target is not an aligned instruction");
  Ok (ck <| ck_branchTargets := {[target]} ∪ ck_branchTargets ck |>, nextpc).

Definition checkIntConstBlock : opCheckFunc := fun program _ ck =>
  '(_, nextpc) ← parseIntcblock program (ck_pc ck); Ok (ck, nextpc).
Definition checkByteConstBlock : opCheckFunc := fun program _ ck =>
  '(_, nextpc) ← parseBytecBlock program (ck_pc ck); Ok (ck, nextpc).
Definition checkPushInt : opCheckFunc := fun program _ ck =>
  '(_, nextpc) ← parsePushInt program (ck_pc ck); Ok (ck, nextpc).
Definition checkPushBytes : opCheckFunc := fun program _ ck =>
  '(_, nextpc) ← parsePushBytes program (ck_pc ck); Ok (ck, nextpc).

(** ** The table of opcodes *)

Record opDetails : Type := mkopDetails { od_Cost : Z; od_Size : Z; od_checkFunc : option opCheckFunc }.

Definition opDefault : opDetails := mkopDetails 1 1 None.
Definition opBranch : opDetails := mkopDetails 1 3 (Some checkBranch).
Definition costly (cost : Z) : opDetails := mkopDetails cost 1 None.
Definition immediates (n : Z) : opDetails := mkopDetails 1 (1 + n) None.
Definition varies (checker : opCheckFunc) : opDetails := mkopDetails 1 0 (Some checker).
Definition costlyImm (cost n : Z) : opDetails := mkopDetails cost (1 + n) None.

Record OpSpec : Type := mkOpSpec {
  os_Opcode : Z;
  os_Name : string;
  os_op : evalEnv -> op;
  os_Args : list StackType;
  os_Returns : list StackType;
  os_Version : Z;
  os_Modes : Z;
  os_Details : opDetails }.

Section table.
  Context {L : LogicHashes} {C : AvmCrypto}.
#[local] Notation B := StackBytes.
#[local] Notation U := StackUint64.
#[local] Notation A := StackAny.

(** An opcode that only computes on the stack. *)
Definition pure (f : stackOp) (E : evalEnv) : op := onStack f.

Definition OpSpecs : list OpSpec := [
  mkOpSpec 0 "err" (pure opErr) [] [] 1 modeAny opDefault;
  mkOpSpec 1 "sha256" (pure opSHA256) [B] [B] 1 modeAny (costly 7);
  mkOpSpec 2 "keccak256" (pure opKeccak256) [B] [B] 1 modeAny (costly 26);
  mkOpSpec 3 "sha512_256" (pure opSHA512_256) [B] [B] 1 modeAny (costly 9);
  mkOpSpec 1 "sha256" (pure opSHA256) [B] [B] 2 modeAny (costly 35);
  mkOpSpec 2 "keccak256" (pure opKeccak256) [B] [B] 2 modeAny (costly 130);
  mkOpSpec 3 "sha512_256" (pure opSHA512_256) [B] [B] 2 modeAny (costly 45);
  mkOpSpec 4 "ed25519verify" opEd25519verify [B; B; B] [U] 1 runModeSignature (costly 1900);
  mkOpSpec 4 "ed25519verify" opEd25519verify [B; B; B] [U] 5 modeAny (costly 1900);
  mkOpSpec 5 "ecdsa_verify" opEcdsaVerify [B; B; B; B; B] [U] 5 modeAny (costlyImm 1700 1);
  mkOpSpec 6 "ecdsa_pk_decompress" opEcdsaPkDecompress [B] [B; B] 5 modeAny (costlyImm 650 1);
  mkOpSpec 7 "ecdsa_pk_recover" opEcdsaPkRecover [B; U; B; B] [B; B] 5 modeAny (costlyImm 2000 1);
  mkOpSpec 8 "+" (pure opPlus) [U; U] [U] 1 modeAny opDefault;
  mkOpSpec 9 "-" (pure opMinus) [U; U] [U] 1 modeAny opDefault;
  mkOpSpec 10 "/" (pure opDiv) [U; U] [U] 1 modeAny opDefault;
  mkOpSpec 11 "*" (pure opMul) [U; U] [U] 1 modeAny opDefault;
  mkOpSpec 12 "<" (pure opLt) [U; U] [U] 1 modeAny opDefault;
  mkOpSpec 13 ">" (pure opGt) [U; U] [U] 1 modeAny opDefault;
  mkOpSpec 14 "<=" (pure opLe) [U; U] [U] 1 modeAny opDefault;
  mkOpSpec 15 ">=" (pure opGe) [U; U] [U] 1 modeAny opDefault;
  mkOpSpec 16 "&&" (pure opAnd) [U; U] [U] 1 modeAny opDefault;
  mkOpSpec 17 "||" (pure opOr) [U; U] [U] 1 modeAny opDefault;
  mkOpSpec 18 "==" (pure opEq) [A; A] [U] 1 modeAny (immediates 0);
  mkOpSpec 19 "!=" (pure opNeq) [A; A] [U] 1 modeAny (immediates 0);
  mkOpSpec 20 "!" (pure opNot) [U] [U] 1 modeAny opDefault;
  mkOpSpec 21 "len" (pure opLen) [B] [U] 1 modeAny opDefault;
  mkOpSpec 22 "itob" (pure opItob) [U] [B] 1 modeAny opDefault;
  mkOpSpec 23 "btoi" (pure opBtoi) [B] [U] 1 modeAny opDefault;
  mkOpSpec 24 "%" (pure opModulo) [U; U] [U] 1 modeAny opDefault;
  mkOpSpec 25 "|" (pure opBitOr) [U; U] [U] 1 modeAny opDefault;
  mkOpSpec 26 "&" (pure opBitAnd) [U; U] [U] 1 modeAny opDefault;
  mkOpSpec 27 "^" (pure opBitXor) [U; U] [U] 1 modeAny opDefault;
  mkOpSpec 28 "~" (pure opBitNot) [U] [U] 1 modeAny opDefault;
  mkOpSpec 29 "mulw" (pure opMulw) [U; U] [U; U] 1 modeAny opDefault;
  mkOpSpec 30 "addw" (pure opAddw) [U; U] [U; U] 2 modeAny opDefault;
  mkOpSpec 31 "divmodw" (pure opDivModw) [U; U; U; U] [U; U; U; U] 4 modeAny (costly 20);
  mkOpSpec 32 "intcblock" opIntConstBlock [] [] 1 modeAny (varies checkIntConstBlock);
  mkOpSpec 33 "intc" opIntConstLoad [] [U] 1 modeAny (immediates 1);
  mkOpSpec 34 "intc_0" (fun _ => opIntConstN 0) [] [U] 1 modeAny opDefault;
  mkOpSpec 35 "intc_1" (fun _ => opIntConstN 1) [] [U] 1 modeAny opDefault;
  mkOpSpec 36 "intc_2" (fun _ => opIntConstN 2) [] [U] 1 modeAny opDefault;
  mkOpSpec 37 "intc_3" (fun _ => opIntConstN 3) [] [U] 1 modeAny opDefault;
  mkOpSpec 38 "bytecblock" opByteConstBlock [] [] 1 modeAny (varies checkByteConstBlock);
  mkOpSpec 39 "bytec" opByteConstLoad [] [B] 1 modeAny (immediates 1);
  mkOpSpec 40 "bytec_0" (fun _ => opByteConstN 0) [] [B] 1 modeAny opDefault;
  mkOpSpec 41 "bytec_1" (fun _ => opByteConstN 1) [] [B] 1 modeAny opDefault;
  mkOpSpec 42 "bytec_2" (fun _ => opByteConstN 2) [] [B] 1 modeAny opDefault;
  mkOpSpec 43 "bytec_3" (fun _ => opByteConstN 3) [] [B] 1 modeAny opDefault;
  mkOpSpec 44 "arg" opArg [] [B] 1 runModeSignature (immediates 1);
  mkOpSpec 45 "arg_0" (fun E => opArgN E 0) [] [B] 1 runModeSignature opDefault;
  mkOpSpec 46 "arg_1" (fun E => opArgN E 1) [] [B] 1 runModeSignature opDefault;
  mkOpSpec 47 "arg_2" (fun E => opArgN E 2) [] [B] 1 runModeSignature opDefault;
  mkOpSpec 48 "arg_3" (fun E => opArgN E 3) [] [B] 1 runModeSignature opDefault;
  mkOpSpec 49 "txn" opTxn [] [A] 1 modeAny (immediates 1);
  mkOpSpec 49 "txn" opTxn [] [A] 2 modeAny (immediates 1);
  mkOpSpec 50 "global" opGlobal [] [A] 1 modeAny (immediates 1);
  mkOpSpec 51 "gtxn" opGtxn [] [A] 1 modeAny (immediates 2);
  mkOpSpec 51 "gtxn" opGtxn [] [A] 2 modeAny (immediates 2);
  mkOpSpec 52 "load" opLoad [] [A] 1 modeAny (immediates 1);
  mkOpSpec 53 "store" opStore [A] [] 1 modeAny (immediates 1);
  mkOpSpec 54 "txna" opTxna [] [A] 2 modeAny (immediates 2);
  mkOpSpec 55 "gtxna" opGtxna [] [A] 2 modeAny (immediates 3);
  mkOpSpec 56 "gtxns" opGtxns [U] [A] 3 modeAny (immediates 1);
  mkOpSpec 57 "gtxnsa" opGtxnsa [U] [A] 3 modeAny (immediates 2);
  mkOpSpec 58 "gload" opGload [] [A] 4 runModeApplication (immediates 2);
  mkOpSpec 59 "gloads" opGloads [U] [A] 4 runModeApplication (immediates 1);
  mkOpSpec 60 "gaid" opGaid [] [U] 4 runModeApplication (immediates 1);
  mkOpSpec 61 "gaids" opGaids [U] [U] 4 runModeApplication opDefault;
  mkOpSpec 62 "loads" (fun _ => opLoads) [U] [A] 5 modeAny opDefault;
  mkOpSpec 63 "stores" (fun _ => opStores) [U; A] [] 5 modeAny opDefault;
  mkOpSpec 64 "bnz" opBnz [U] [] 1 modeAny opBranch;
  mkOpSpec 65 "bz" opBz [U] [] 2 modeAny opBranch;
  mkOpSpec 66 "b" opB [] [] 2 modeAny opBranch;
  mkOpSpec 67 "return" opReturn [U] [] 2 modeAny opDefault;
  mkOpSpec 68 "assert" (pure opAssert) [U] [] 3 modeAny opDefault;
  mkOpSpec 72 "pop" (pure opPop) [A] [] 1 modeAny opDefault;
  mkOpSpec 73 "dup" (pure opDup) [A] [A; A] 1 modeAny (immediates 0);
  mkOpSpec 74 "dup2" (pure opDup2) [A; A] [A; A; A; A] 2 modeAny (immediates 0);
  mkOpSpec 75 "dig" (fun E => onStack1 E opDig) [A] [A; A] 3 modeAny (immediates 1);
  mkOpSpec 76 "swap" (pure opSwap) [A; A] [A; A] 3 modeAny (immediates 0);
  mkOpSpec 77 "select" (pure opSelect) [A; A; U] [A] 3 modeAny (immediates 0);
  mkOpSpec 78 "cover" (fun E => onStack1 E opCover) [A] [A] 5 modeAny (immediates 1);
  mkOpSpec 79 "uncover" (fun E => onStack1 E opUncover) [A] [A] 5 modeAny (immediates 1);
  mkOpSpec 80 "concat" (pure opConcat) [B; B] [B] 2 modeAny opDefault;
  mkOpSpec 81 "substring" (fun E => onStack2 E opSubstring) [B] [B] 2 modeAny (immediates 2);
  mkOpSpec 82 "substring3" (pure opSubstring3) [B; U; U] [B] 2 modeAny opDefault;
  mkOpSpec 83 "getbit" (pure opGetBit) [A; U] [U] 3 modeAny opDefault;
  mkOpSpec 84 "setbit" (pure opSetBit) [A; U; U] [A] 3 modeAny (immediates 0);
  mkOpSpec 85 "getbyte" (pure opGetByte) [B; U] [U] 3 modeAny opDefault;
  mkOpSpec 86 "setbyte" (pure opSetByte) [B; U; U] [B] 3 modeAny opDefault;
  mkOpSpec 87 "extract" (fun E => onStack2 E opExtract) [B] [B] 5 modeAny (immediates 2);
  mkOpSpec 88 "extract3" (pure opExtract3) [B; U; U] [B] 5 modeAny opDefault;
  mkOpSpec 89 "extract_uint16" (pure opExtract16Bits) [B; U] [U] 5 modeAny opDefault;
  mkOpSpec 90 "extract_uint32" (pure opExtract32Bits) [B; U] [U] 5 modeAny opDefault;
  mkOpSpec 91 "extract_uint64" (pure opExtract64Bits) [B; U] [U] 5 modeAny opDefault;
  mkOpSpec 96 "balance" opBalance [U] [U] 2 runModeApplication opDefault;
  mkOpSpec 96 "balance" opBalance [A] [U] directRefEnabledVersion runModeApplication opDefault;
  mkOpSpec 97 "app_opted_in" opAppOptedIn [U; U] [U] 2 runModeApplication opDefault;
  mkOpSpec 97 "app_opted_in" opAppOptedIn [A; U] [U] directRefEnabledVersion runModeApplication opDefault;
  mkOpSpec 98 "app_local_get" opAppLocalGet [U; B] [A] 2 runModeApplication opDefault;
  mkOpSpec 98 "app_local_get" opAppLocalGet [A; B] [A] directRefEnabledVersion runModeApplication opDefault;
  mkOpSpec 99 "app_local_get_ex" opAppLocalGetEx [U; U; B] [A; U] 2 runModeApplication opDefault;
  mkOpSpec 99 "app_local_get_ex" opAppLocalGetEx [A; U; B] [A; U] directRefEnabledVersion runModeApplication opDefault;
  mkOpSpec 100 "app_global_get" opAppGlobalGet [B] [A] 2 runModeApplication opDefault;
  mkOpSpec 101 "app_global_get_ex" opAppGlobalGetEx [U; B] [A; U] 2 runModeApplication opDefault;
  mkOpSpec 102 "app_local_put" opAppLocalPut [U; B; A] [] 2 runModeApplication opDefault;
  mkOpSpec 102 "app_local_put" opAppLocalPut [A; B; A] [] directRefEnabledVersion runModeApplication opDefault;
  mkOpSpec 103 "app_global_put" opAppGlobalPut [B; A] [] 2 runModeApplication opDefault;
  mkOpSpec 104 "app_local_del" opAppLocalDel [U; B] [] 2 runModeApplication opDefault;
  mkOpSpec 104 "app_local_del" opAppLocalDel [A; B] [] directRefEnabledVersion runModeApplication opDefault;
  mkOpSpec 105 "app_global_del" opAppGlobalDel [B] [] 2 runModeApplication opDefault;
  mkOpSpec 112 "asset_holding_get" opAssetHoldingGet [U; U] [A; U] 2 runModeApplication (immediates 1);
  mkOpSpec 112 "asset_holding_get" opAssetHoldingGet [A; U] [A; U] directRefEnabledVersion runModeApplication (immediates 1);
  mkOpSpec 113 "asset_params_get" opAssetParamsGet [U] [A; U] 2 runModeApplication (immediates 1);
  mkOpSpec 114 "app_params_get" opAppParamsGet [U] [A; U] 5 runModeApplication (immediates 1);
  mkOpSpec 115 "acct_params_get" opAcctParamsGet [A] [A; U] 6 runModeApplication (immediates 1);
  mkOpSpec 120 "min_balance" opMinBalance [U] [U] 3 runModeApplication opDefault;
  mkOpSpec 120 "min_balance" opMinBalance [A] [U] directRefEnabledVersion runModeApplication opDefault;
  mkOpSpec 128 "pushbytes" opPushBytes [] [B] 3 modeAny (varies checkPushBytes);
  mkOpSpec 129 "pushint" opPushInt [] [U] 3 modeAny (varies checkPushInt);
  mkOpSpec 136 "callsub" opCallSub [] [] 4 modeAny opBranch;
  mkOpSpec 137 "retsub" (fun _ => opRetSub) [] [] 4 modeAny opDefault;
  mkOpSpec 144 "shl" (pure opShiftLeft) [U; U] [U] 4 modeAny opDefault;
  mkOpSpec 145 "shr" (pure opShiftRight) [U; U] [U] 4 modeAny opDefault;
  mkOpSpec 146 "sqrt" (pure opSqrt) [U] [U] 4 modeAny (costly 4);
  mkOpSpec 147 "bitlen" (pure opBitLen) [A] [U] 4 modeAny opDefault;
  mkOpSpec 148 "exp" (pure opExp) [U; U] [U] 4 modeAny opDefault;
  mkOpSpec 149 "expw" (pure opExpw) [U; U] [U; U] 4 modeAny (costly 10);
  mkOpSpec 150 "bsqrt" (pure opBytesSqrt) [B] [B] 6 modeAny (costly 40);
  mkOpSpec 151 "divw" (pure opDivw) [U; U; U] [U] 6 modeAny opDefault;
  mkOpSpec 160 "b+" (pure opBytesPlus) [B; B] [B] 4 modeAny (costly 10);
  mkOpSpec 161 "b-" (pure opBytesMinus) [B; B] [B] 4 modeAny (costly 10);
  mkOpSpec 162 "b/" (pure opBytesDiv) [B; B] [B] 4 modeAny (costly 20);
  mkOpSpec 163 "b*" (pure opBytesMul) [B; B] [B] 4 modeAny (costly 20);
  mkOpSpec 164 "b<" (pure opBytesLt) [B; B] [U] 4 modeAny opDefault;
  mkOpSpec 165 "b>" (pure opBytesGt) [B; B] [U] 4 modeAny opDefault;
  mkOpSpec 166 "b<=" (pure opBytesLe) [B; B] [U] 4 modeAny opDefault;
  mkOpSpec 167 "b>=" (pure opBytesGe) [B; B] [U] 4 modeAny opDefault;
  mkOpSpec 168 "b==" (pure opBytesEq) [B; B] [U] 4 modeAny opDefault;
  mkOpSpec 169 "b!=" (pure opBytesNeq) [B; B] [U] 4 modeAny opDefault;
  mkOpSpec 170 "b%" (pure opBytesModulo) [B; B] [B] 4 modeAny (costly 20);
  mkOpSpec 171 "b|" (pure opBytesBitOr) [B; B] [B] 4 modeAny (costly 6);
  mkOpSpec 172 "b&" (pure opBytesBitAnd) [B; B] [B] 4 modeAny (costly 6);
  mkOpSpec 173 "b^" (pure opBytesBitXor) [B; B] [B] 4 modeAny (costly 6);
  mkOpSpec 174 "b~" (pure opBytesBitNot) [B] [B] 4 modeAny (costly 4);
  mkOpSpec 175 "bzero" (pure opBytesZero) [U] [B] 4 modeAny opDefault;
  mkOpSpec 176 "log" opLog [B] [] 5 runModeApplication opDefault;
  mkOpSpec 177 "itxn_begin" txBegin [] [] 5 runModeApplication opDefault;
  mkOpSpec 178 "itxn_field" opTxField [A] [] 5 runModeApplication (immediates 1);
  mkOpSpec 179 "itxn_submit" (fun _ => txSubmit) [] [] 5 runModeApplication opDefault;
  mkOpSpec 180 "itxn" opItxn [] [A] 5 runModeApplication (immediates 1);
  mkOpSpec 181 "itxna" opItxna [] [A] 5 runModeApplication (immediates 2);
  mkOpSpec 182 "itxn_next" txNext [] [] 6 runModeApplication opDefault;
  mkOpSpec 183 "gitxn" opGitxn [] [A] 6 runModeApplication (immediates 2);
  mkOpSpec 184 "gitxna" opGitxna [] [A] 6 runModeApplication (immediates 3);
  mkOpSpec 192 "txnas" opTxnas [U] [A] 5 modeAny (immediates 1);
  mkOpSpec 193 "gtxnas" opGtxnas [U] [A] 5 modeAny (immediates 2);
  mkOpSpec 194 "gtxnsas" opGtxnsas [U; U] [A] 5 modeAny (immediates 1);
  mkOpSpec 195 "args" opArgs [U] [B] 5 runModeSignature opDefault;
  mkOpSpec 196 "gloadss" opGloadss [U; U] [A] 6 runModeApplication opDefault;
  mkOpSpec 197 "itxnas" opItxnas [U] [A] 6 runModeApplication (immediates 1);
  mkOpSpec 198 "gitxnas" opGitxnas [U] [A] 6 runModeApplication (immediates 2)].

(** The rows of one version; the last one wins. *)
Definition introduced (version opcode : Z) : option OpSpec :=
  list.last (List.filter (fun spec => (os_Version spec =? version) && (os_Opcode spec =? opcode)) OpSpecs).

(** The table of a version is the table before it with the rows of the version. *)
Fixpoint opsByVersion (version : nat) (opcode : Z) : option OpSpec :=
  match version with
  | O => None
  | S v => match introduced (Z.of_nat version) opcode with Some spec => Some spec | None => opsByVersion v opcode end
  end.

(** Version 0 is another name of version 1. *)
Definition opsByOpcode (version opcode : Z) : option OpSpec := opsByVersion (Z.to_nat (Z.max 1 version)) opcode.

End table.

(** ** The loop *)

Section loop.
  Context {L : LogicHashes} {C : AvmCrypto} (E : evalEnv).
#[local] Notation code := (en_program E).

(** The arguments of an opcode are the top of the stack, the last one on top. *)
Definition argsOk (args : list StackType) (st : stack) : bool :=
  forallb (fun p => opCompat p.1 (argType p.2)) (zip args (reverse (take (length args) st))).

Definition resultsOk (returns : list StackType) (st : stack) : outcome unit :=
  _ ← failIf (negb (argsOk returns st)) (Errorf "produced another type than intended");
  failIf (existsb (fun sv => MaxStringSize <? slen (sv_Bytes sv)) (take (length returns) st))
    (Errorf "produced a too big byte-array").

(** The shared budget after an instruction has been charged. *)
Definition charged (cost : Z) (st : evalState) : evalState :=
  (st.1 <| sh_PooledApplicationBudget := (fun b => b - cost) <$> sh_PooledApplicationBudget st.1 |>, st.2).

Definition step (m : machine) : prog machine :=
  opcode ← tlift (byteAt code (mc_pc m));
  match opsByOpcode (en_version E) opcode with
  | None => Fail (Errorf "illegal opcode")
  | Some spec =>
      _ ← tfailIf (Z.land (en_mode E) (os_Modes spec) =? 0) (Errorf "not allowed in current mode");
      _ ← tfailIf (llen (mc_stack m) <? llen (os_Args spec)) (Errorf "stack underflow");
      _ ← tfailIf (negb (argsOk (os_Args spec) (mc_stack m))) (Errorf "wanted another type of argument");
      let deets := os_Details spec in
      _ ← tfailIf (negb (od_Size deets =? 0) && (slen code <? mc_pc m + od_Size deets))
            (Errorf "program ends short of immediate values");
      let m := m <| mc_cost := mc_cost m + od_Cost deets |> in
      budget ← tread (fun st => remainingBudget E m (charged (od_Cost deets) st));
      _ ← tfailIf (budget <? 0) (Errorf "dynamic cost budget exceeded");
      _ ← tcharge (od_Cost deets);
      let preheight := llen (mc_stack m) in
      m ← os_op spec E m;
      let postheight := llen (mc_stack m) in
      _ ← tfailIf (negb (bool_decide (os_Name spec = "return"))
                   && negb (postheight - preheight =? llen (os_Returns spec) - llen (os_Args spec)))
            (Errorf "changed stack height improperly");
      _ ← tlift (resultsOk (os_Returns spec) (mc_stack m));
      _ ← tfailIf (MaxStackDepth <? postheight) (Errorf "stack overflow");
      mret (if negb (mc_nextpc m =? 0) then m <| mc_pc := mc_nextpc m |> <| mc_nextpc := 0 |>
            else m <| mc_pc := mc_pc m + od_Size deets |>)
  end.

(** The end of a program: one integer on the stack. *)
Definition finish (m : machine) : program :=
  match mc_stack m with
  | [SUint u] => Finish (negb (u =? 0))
  | [SBytes _] => Fail (Errorf "stack finished with bytes not int")
  | _ => Fail (Errorf "stack len instead of 1")
  end.

Fixpoint run (fuel : nat) (m : machine) : program :=
  if mc_pc m <? slen code then
    match fuel with
    | O => Fail outOfFuel
    | S fuel' => m' ← step m; run fuel' m'
    end
  else finish m.

Definition initial (pc : Z) : machine := mkmachine [] [] pc 0 [] [] ∅ [] 0 0.

(** The budget of the program, with what all the inner calls still allowed bring, and
    one more for the instruction that exceeds it. *)
Definition evalFuel (m : machine) (st : evalState) : nat :=
  match remainingBudget E m st with
  | Ok b => S (Z.to_nat (b + proto_MaxAppProgramCost (ep_Proto st.2) * Z.max 0 (default 0 (sh_pooledAllowedInners st.1))))
  | _ => 1
  end.

Definition execute : program :=
  match ProgramVersion code with
  | Ok (_, vlen) => Look (fun st => run (evalFuel (initial vlen) st) (initial vlen))
  | _ => Crash
  end.

End loop.

(** ** The static check of a program *)

Section check.
  Context {L : LogicHashes} {C : AvmCrypto}.

(** No branch goes between two positions. *)
Definition skipped (from to : Z) (targets : gset Z) : bool :=
  existsb (fun pc => (from <? pc) && (pc <? to)) (elements targets).

Definition checkStep (program : string) (version mode : Z) (ck : checkState) : outcome (Z * checkState) :=
  let ck := ck <| ck_instructionStarts := {[ck_pc ck]} ∪ ck_instructionStarts ck |> in
  opcode ← byteAt program (ck_pc ck);
  match opsByOpcode version opcode with
  | None => Err (Errorf "illegal opcode")
  | Some spec =>
      _ ← failIf (Z.land mode (os_Modes spec) =? 0) (Errorf "not allowed in current mode");
      let deets := os_Details spec in
      _ ← failIf (negb (od_Size deets =? 0) && (slen program <? ck_pc ck + od_Size deets))
            (Errorf "program ends short of immediate values");
      let prevpc := ck_pc ck in
      ck ← match od_checkFunc deets with
           | Some checker =>
               '(ck, nextpc) ← checker program version ck;
               Ok (ck <| ck_pc := if negb (nextpc =? 0) then nextpc else prevpc + od_Size deets |>)
           | None => Ok (ck <| ck_pc := prevpc + od_Size deets |>)
           end;
      _ ← failIf (skipped prevpc (ck_pc ck) (ck_branchTargets ck)) (Errorf "branch target is not an aligned instruction");
      Ok (od_Cost deets, ck)
  end.

(** Every step goes forward, so the length of the program is fuel enough. *)
Fixpoint check_loop (fuel : nat) (program : string) (version mode maxCost staticCost : Z) (ck : checkState) : outcome unit :=
  if ck_pc ck <? slen program then
    match fuel with
    | O => Err outOfFuel
    | S fuel' =>
        '(stepCost, ck') ← checkStep program version mode ck;
        let staticCost := staticCost + stepCost in
        _ ← failIf (maxCost <? staticCost) (Errorf "static cost budget exceeded");
        _ ← failIf (ck_pc ck' <=? ck_pc ck) (Errorf "pc did not advance");
        check_loop fuel' program version mode maxCost staticCost ck'
    end
  else Ok tt.

(** The budget before the program has a transaction. *)
Definition checkBudget (mode : Z) (st : evalState) : Z :=
  let p := ep_Proto st.2 in
  if mode =? runModeSignature then proto_LogicSigMaxCost p
  else match sh_PooledApplicationBudget st.1 with Some b => b | None => proto_MaxAppProgramCost p end.

(** A panic is recovered. *)
Definition check (program : string) (mode : Z) (st : evalState) : outcome unit :=
  match
    _ ← failIf (proto_LogicSigVersion (ep_Proto st.2) =? 0) (Errorf "LogicSig not supported");
    version ← versionCheck program st.2;
    '(_, vlen) ← ProgramVersion program;
    let maxCost := if backBranchEnabledVersion <=? version then MaxInt32 else checkBudget mode st in
    check_loop (S (String.length program)) program version mode maxCost 0 (mkcheckState vlen ∅ ∅)
  with
  | Panic => Err (Errorf "panic in TEAL Check")
  | r => r
  end.

Definition CheckContract (program : string) (st : evalState) : outcome unit := check program runModeApplication st.
Definition CheckSignature (gi : Z) (st : evalState) : outcome unit :=
  txn ← txnAt st.2 gi;
  check (default "" (ls_Logic (stx_Lsig (stad_SignedTxn txn)))) runModeSignature st.

(** ** Logic signatures *)

(** A program that runs without a ledger. *)
Fixpoint runSignature (p : program) (st : evalState) : outcome bool * evalState :=
  match p with
  | Finish pass => (Ok pass, st)
  | Fail e => (Err e, st)
  | Crash => (Err (Errorf "panic in TEAL Eval"), st)
  | Look k => runSignature (k st) st
  | Charge cost k => runSignature k (charged cost st)
  | Store scratch k => runSignature k st
  | CacheID gi txid k => runSignature k (st.1, st.2 <| ep_txidCache := <[gi := txid]> (ep_txidCache st.2) |>)
  | Ask _ _ | Log _ _ _ _ | Submit _ _ => (Err (Errorf "ledger not available"), st)
  end.

Definition EvalSignature (gi : Z) (st : evalState) : outcome bool * evalState :=
  match
    txn ← txnAt st.2 gi;
    let lsig := stx_Lsig (stad_SignedTxn txn) in
    _ ← failIf (proto_LogicSigVersion (ep_Proto st.2) =? 0) (Errorf "LogicSig not supported");
    _ ← failIf (EvalMaxArgs <? llen (ls_Args lsig)) (Errorf "LogicSig has too many arguments");
    version ← versionCheck (default "" (ls_Logic lsig)) st.2;
    Ok (lsig, version)
  with
  | Ok (lsig, version) =>
      runSignature (execute (mkevalEnv (default "" (ls_Logic lsig)) version runModeSignature
                               (map (default "") (ls_Args lsig)) (mkcontext gi 0 []))) st
  | Err e => (Err e, st)
  | Panic => (Panic, st)
  end.

(** ** Applications *)

(** The evaluation of the source: its opcodes and its static check. *)
Definition avm : LogicEnv := {|
  lg_hashes := L;
  lg_CheckContract := CheckContract;
  lg_interpret := fun code version cx => execute (mkevalEnv code version runModeApplication [] cx) |}.

End check.
