(* ===== verification/AvmMath.v ===== *)
(** The arithmetic opcodes of [AvmValue] against the integers: bytes and numbers,
    square roots, powers, wide arithmetic, arithmetic on byte strings. *)
From S2P Require Import Prelude Config Basics Transactions AvmValue.
#[local] Open Scope string_scope.
#[local] Open Scope list_scope.
#[local] Open Scope Z_scope.

(** ** Words *)

Lemma lor_shiftl x n d : 0 <= n -> 0 <= d < 2 ^ n -> Z.lor (Z.shiftl x n) d = x * 2 ^ n + d.
Proof.
  intros Hn Hd. rewrite <- Z.shiftl_mul_pow2 by done.
  enough (Z.land (Z.shiftl x n) d = 0) as Hl by (rewrite <- Z.lxor_lor by done; symmetry; by apply Z.add_nocarry_lxor).
  apply Z.bits_inj'. intros i Hi. rewrite Z.land_spec, Z.bits_0, Z.shiftl_spec by done.
  destruct (Z.lt_ge_cases i n) as [Hlt|Hge]; [by rewrite Z.testbit_neg_r by lia|].
  enough (Z.testbit d i = false) as -> by apply andb_false_r.
  destruct (Z.eq_dec d 0) as [->|]; [apply Z.bits_0|]. apply Z.bits_above_log2; [lia|].
  enough (Z.log2 d < n) by lia. apply Z.log2_lt_pow2; lia.
Qed.

Lemma bit_len_spec z n : 0 <= z -> 0 <= n -> bit_len z <= n <-> z < 2 ^ n.
Proof.
  intros Hz Hn. unfold bit_len. destruct (Z.eqb_spec z 0) as [->|Hnz].
  - split; intros; [apply Z.pow_pos_nonneg; lia|lia].
  - rewrite (Z.log2_lt_pow2 z n) by lia. lia.
Qed.

Lemma bit_len_nonneg z : 0 <= bit_len z.
Proof. unfold bit_len. case_match; [done|]. pose proof (Z.log2_nonneg z). lia. Qed.

(** ** Bytes *)

Definition is_byte (b : Z) : Prop := 0 <= b < 256.

Lemma bytes_of_bytes l : Forall is_byte l -> bytes_of (of_bytes l) = l.
Proof.
  intros Hl. unfold bytes_of, of_bytes. rewrite String.list_ascii_of_string_of_list_ascii, map_map.
  rewrite <- (map_id l) at 2. apply map_ext_Forall. eapply Forall_impl; [exact Hl|]. intros b Hb. unfold is_byte in Hb.
  rewrite Ascii.N_ascii_embedding by lia. lia.
Qed.

Lemma of_bytes_of s : of_bytes (bytes_of s) = s.
Proof.
  unfold bytes_of, of_bytes. rewrite map_map. erewrite map_ext; [rewrite map_id; apply String.string_of_list_ascii_of_string|].
  intros c. rewrite N2Z.id. apply Ascii.ascii_N_embedding.
Qed.

Lemma bytes_of_range s : Forall is_byte (bytes_of s).
Proof.
  unfold bytes_of. rewrite Forall_fmap. apply Forall_true. intros c. unfold is_byte. cbn.
  pose proof (Ascii.N_ascii_bounded c). lia.
Qed.

Lemma length_bytes_of s : length (bytes_of s) = String.length s.
Proof. unfold bytes_of. rewrite length_map. induction s; cbn; auto. Qed.
Lemma length_of_bytes l : String.length (of_bytes l) = length l.
Proof. unfold of_bytes. induction l; cbn; auto. Qed.
Lemma slen_of_bytes l : slen (of_bytes l) = llen l.
Proof. unfold slen, llen. by rewrite length_of_bytes. Qed.
Lemma llen_bytes_of s : llen (bytes_of s) = slen s.
Proof. unfold slen, llen. by rewrite length_bytes_of. Qed.
Lemma llen_nonneg {A} (l : list A) : 0 <= llen l.
Proof. unfold llen. lia. Qed.

(** ** Big-endian numbers *)

Lemma be_value_snoc l b : be_value (l ++ [b]) = be_value l * 256 + b.
Proof. unfold be_value. by rewrite fold_left_app. Qed.

Lemma be_value_range l : Forall is_byte l -> 0 <= be_value l < 256 ^ llen l.
Proof.
  unfold llen. induction l as [|b l IH] using rev_ind; [by cbn|]. intros [Hl [Hb _]%Forall_cons]%Forall_app.
  specialize (IH Hl). rewrite be_value_snoc, length_app, Nat2Z.inj_add, Z.pow_add_r by (cbn; lia). unfold is_byte in Hb. cbn [length]. lia.
Qed.

Lemma be_bytes_length n : forall z, length (be_bytes n z) = n.
Proof. induction n as [|n IH]; intros z; cbn; [done|]. rewrite length_app, IH. cbn. lia. Qed.

Lemma be_bytes_range n : forall z, Forall is_byte (be_bytes n z).
Proof.
  induction n as [|n IH]; intros z; cbn; [constructor|]. apply Forall_app. split; [apply IH|]. constructor; [|constructor].
  apply Z.mod_pos_bound. lia.
Qed.

Lemma be_value_bytes n : forall z, 0 <= z < 256 ^ Z.of_nat n -> be_value (be_bytes n z) = z.
Proof.
  induction n as [|n IH]; intros z Hz; [change (256 ^ Z.of_nat 0) with 1 in Hz; cbn; lia|]. cbn [be_bytes]. rewrite be_value_snoc, IH.
  - symmetry. rewrite Z.mul_comm. apply Z.div_mod. lia.
  - rewrite Nat2Z.inj_succ, Z.pow_succ_r in Hz by lia. split; [apply Z.div_pos; lia|]. apply Z.div_lt_upper_bound; lia.
Qed.

Lemma be_bytes_value l : Forall is_byte l -> be_bytes (length l) (be_value l) = l.
Proof.
  induction l as [|b l IH] using rev_ind; [done|]. intros [Hl [Hb _]%Forall_cons]%Forall_app. unfold is_byte in Hb.
  rewrite be_value_snoc, length_app, Nat.add_1_r. cbn [be_bytes].
  rewrite Z.div_add_l, Z.div_small, Z.add_0_r, IH by done. f_equal. by rewrite Z.add_comm, Z.mod_add, Z.mod_small by done.
Qed.

Lemma big_of_range s : 0 <= big_of s < 256 ^ slen s.
Proof. rewrite <- llen_bytes_of. apply be_value_range, bytes_of_range. Qed.

Lemma big_of_bytes z : 0 <= z -> big_of (big_bytes z) = z.
Proof.
  intros Hz. unfold big_of, big_bytes. rewrite bytes_of_bytes by apply be_bytes_range. apply be_value_bytes. split; [done|].
  pose proof (bit_len_nonneg z). rewrite Z2Nat.id by (apply Z.div_pos; lia).
  assert (0 <= (bit_len z + 7) / 8) by (apply Z.div_pos; lia).
  change 256 with (2 ^ 8). rewrite <- Z.pow_mul_r by lia. apply bit_len_spec; [done|lia|].
  pose proof (Z.div_mod (bit_len z + 7) 8). pose proof (Z.mod_pos_bound (bit_len z + 7) 8). lia.
Qed.

(** [big_bytes] is the shortest string for a number. *)
Lemma big_bytes_shortest s : slen (big_bytes (big_of s)) <= slen s.
Proof.
  unfold big_bytes. rewrite slen_of_bytes. unfold llen. rewrite be_bytes_length. pose proof (bit_len_nonneg (big_of s)).
  rewrite Z2Nat.id by (apply Z.div_pos; lia). pose proof (big_of_range s) as [Hz Hlt].
  assert (bit_len (big_of s) <= 8 * slen s) as Hb.
  { apply bit_len_spec; [done|unfold slen; lia|]. rewrite Z.pow_mul_r by (unfold slen; lia). exact Hlt. }
  enough ((bit_len (big_of s) + 7) / 8 < slen s + 1) by lia. apply Z.div_lt_upper_bound; lia.
Qed.

Lemma be_bytes_of s : of_bytes (be_bytes (String.length s) (big_of s)) = s.
Proof. unfold big_of. rewrite <- length_bytes_of, be_bytes_value by apply bytes_of_range. apply of_bytes_of. Qed.

(** [convertBytesToInt] is the value of the bytes. *)
Lemma convertBytesToInt_spec x : slen x <= 8 -> convertBytesToInt x = big_of x.
Proof.
  unfold convertBytesToInt, big_of, be_value. rewrite <- llen_bytes_of. pose proof (bytes_of_range x) as Hr. revert Hr.
  generalize (bytes_of x) as l. unfold llen. intros l. induction l as [|b l IH] using rev_ind; [done|].
  intros [Hl [Hb _]%Forall_cons]%Forall_app Hlen. rewrite length_app in Hlen. cbn in Hlen. rewrite !fold_left_app. cbn [fold_left].
  rewrite IH by (try done; lia). change (fold_left _ l 0) with (be_value l). pose proof (be_value_range l Hl) as Hv. unfold is_byte in Hb.
  change (Z.land b 255) with (Z.land b (Z.ones 8)). rewrite Z.land_ones, (Z.mod_small b) by lia.
  assert (256 ^ llen l <= 256 ^ 7) as Hp by (apply Z.pow_le_mono_r; unfold llen; lia). change (256 ^ 7) with 72057594037927936 in Hp.
  rewrite wrap64_small; [rewrite lor_shiftl by lia; lia|]. rewrite Z.shiftl_mul_pow2 by lia. change (2 ^ 8) with 256. word.
Qed.

(** ** Square roots *)

(** [P] is what was read of the number, [rem] what its root leaves of it. *)
Lemma sqrt_loop_spec n : forall P low, (n <= 32)%nat -> 0 <= P < 4 ^ (32 - Z.of_nat n) -> 0 <= low < 4 ^ Z.of_nat n ->
  sqrt_loop n (low * 4 ^ (32 - Z.of_nat n)) (P - Z.sqrt P * Z.sqrt P) (2 * Z.sqrt P) = 2 * Z.sqrt (P * 4 ^ Z.of_nat n + low).
Proof.
  induction n as [|n IH]; intros P low Hn HP Hlow.
  { cbn [sqrt_loop]. change (4 ^ Z.of_nat 0) with 1 in *. do 2 f_equal. lia. }
  set (r := Z.sqrt P). pose proof (Z.sqrt_spec P ltac:(lia)) as Hr. fold r in Hr. cbn in Hr.
  assert (4 ^ (32 - Z.of_nat (S n)) * 4 = 4 ^ (32 - Z.of_nat n)) as Hk.
  { rewrite Z.mul_comm, <- Z.pow_succ_r by lia. f_equal. lia. }
  rewrite Nat2Z.inj_succ, Z.pow_succ_r in * by lia. set (q := 4 ^ Z.of_nat n) in *. set (k := 4 ^ (32 - Z.succ (Z.of_nat n))) in *.
  assert (0 < q) by (apply Z.pow_pos_nonneg; lia). assert (0 < k) by (apply Z.pow_pos_nonneg; lia).
  assert (q * (k * 4) = two64) as Hqk.
  { rewrite Hk. unfold q. rewrite <- Z.pow_add_r by lia. by replace (Z.of_nat n + _) with 32 by lia. }
  pose proof (Z.div_mod low q ltac:(lia)) as Hdm. pose proof (Z.mod_pos_bound low q ltac:(lia)) as Hm.
  set (d := low / q) in *. set (low' := low mod q) in *.
  assert (0 <= d < 4) as Hd by (unfold d; split; [apply Z.div_pos; lia|apply Z.div_lt_upper_bound; lia]).
  assert (4 <= two64 / 4) as H64 by (by vm_compute).
  assert (k <= 4611686018427387904) as Hk62.
  { unfold k. change 4611686018427387904 with (4 ^ 31). apply Z.pow_le_mono_r; lia. }
  assert (r < 2147483648) as Hr31 by (unfold two64 in *; nia).
  cbn [sqrt_loop]. rewrite (Z.shiftl_mul_pow2 (2 * r)), (Z.shiftl_mul_pow2 (low * k)), (Z.shiftr_div_pow2 (low * k)) by lia.
  change (2 ^ 1) with 2. change (2 ^ 2) with 4.
  assert ((low * k) / 2 ^ 62 = d) as ->.
  { assert (2 ^ 62 = q * k) as -> by (change (2 ^ 62) with 4611686018427387904; unfold two64 in Hqk; lia). apply Z.div_mul_cancel_r; lia. }
  assert (wrap64 (low * k * 4) = low' * (k * 4)) as ->.
  { unfold wrap64. rewrite Hdm. replace ((q * d + low') * k * 4) with (low' * (k * 4) + d * (q * (k * 4))) by ring.
    rewrite Hqk, Z.mod_add by (by vm_compute). apply Z.mod_small. rewrite <- Hqk. nia. }
  rewrite (wrap64_small (2 * r * 2)) by word. rewrite (wrap64_small (Z.shiftl _ 2)) by (rewrite Z.shiftl_mul_pow2 by lia; change (2 ^ 2) with 4; unfold is_u64, two64; nia).
  rewrite lor_shiftl by lia. change (2 ^ 2) with 4. rewrite Hk.
  assert (P * (4 * q) + low = (4 * P + d) * q + low') as -> by lia.
  replace (Z.succ (Z.of_nat n)) with (Z.of_nat n + 1) in * by lia.
  assert (0 <= 4 * P + d < k * 4) as HP' by lia. rewrite Hk in HP'.
  destruct (Z.ltb_spec (2 * r * 2) ((P - r * r) * 4 + d)) as [Hlt|Hge].
  - assert (Z.sqrt (4 * P + d) = 2 * r + 1) as Hs by (apply Z.sqrt_unique; lia).
    rewrite <- IH by (try lia; done). rewrite Hs. f_equal.
    + assert (Z.lor (2 * r * 2) 1 = 4 * r + 1) as -> by (replace (2 * r * 2) with (Z.shiftl (2 * r) 1) by (rewrite Z.shiftl_mul_pow2; lia); rewrite lor_shiftl; lia).
      rewrite wrap64_small; [lia|]. unfold is_u64, two64. nia.
    + rewrite wrap64_small by word. lia.
  - assert (Z.sqrt (4 * P + d) = 2 * r) as Hs by (apply Z.sqrt_unique; lia).
    rewrite <- IH by (try lia; done). rewrite Hs. f_equal; lia.
Qed.

Lemma opSqrt_spec a st : is_u64 a -> opSqrt (SUint a :: st) = Ok (SUint (Z.sqrt a) :: st).
Proof.
  intros Ha. unfold opSqrt, onUint. pose proof (sqrt_loop_spec 32 0 a ltac:(lia) ltac:(done)) as Hs. cbn [mbind outcome_bind app].
  do 3 f_equal. change (32 - Z.of_nat 32) with 0 in Hs. change (4 ^ 0) with 1 in Hs. rewrite Z.mul_1_r, Z.add_0_l in Hs.
  change (0 - Z.sqrt 0 * Z.sqrt 0) with 0 in Hs. change (2 * Z.sqrt 0) with 0 in Hs.
  rewrite Hs by (change (4 ^ Z.of_nat 32) with two64; exact Ha). rewrite Z.shiftr_div_pow2 by lia. change (2 ^ 1) with 2. rewrite Z.mul_comm. by apply Z.div_mul.
Qed.

(** ** Powers *)

Lemma pow_large b e w : 2 <= b -> 0 <= w <= e -> 2 ^ w <= b ^ e.
Proof.
  intros Hb He. transitivity (2 ^ e); [apply Z.pow_le_mono_r; lia|]. apply Z.pow_le_mono_l. lia.
Qed.

Lemma exp_loop_spec base n : 2 <= base -> forall k, 0 <= k -> is_u64 (base ^ k) ->
  exp_loop n (base ^ k) base =
  if base ^ (k + Z.of_nat n) <? two64 then Ok (base ^ (k + Z.of_nat n)) else Err (Errorf "exp overflow").
Proof.
  intros Hb. induction n as [|n IH]; intros k Hk Hu; cbn [exp_loop].
  { rewrite Z.add_0_r. destruct (Z.ltb_spec (base ^ k) two64); [done|]. unfold is_u64 in Hu. lia. }
  assert (base ^ k * base = base ^ (k + 1)) as Hs by (by rewrite Z.add_1_r, Z.pow_succ_r, Z.mul_comm).
  assert (0 < base ^ k) as Hpos by (apply Z.pow_pos_nonneg; lia).
  destruct (Z.ltb_spec (base ^ (k + 1)) two64) as [Hfit|Hover].
  - rewrite Hs, wrap64_small by (unfold is_u64; nia). rewrite <- Hs at 1. rewrite Z.mul_comm, Z.div_mul, Z.eqb_refl by lia. cbn [negb].
    rewrite IH by (unfold is_u64; nia || lia). by replace (k + 1 + Z.of_nat n) with (k + Z.of_nat (S n)) by lia.
  - pose proof (wrap64_range (base ^ k * base)) as [_ Hw]. destruct (Z.eqb_spec (wrap64 (base ^ k * base) / base ^ k) base) as [E|_].
    { pose proof (Z.mul_div_le (wrap64 (base ^ k * base)) (base ^ k) Hpos). rewrite E in *. lia. }
    cbn [negb]. destruct (Z.ltb_spec (base ^ (k + Z.of_nat (S n))) two64) as [Hlt|]; [|done].
    assert (base ^ (k + 1) <= base ^ (k + Z.of_nat (S n))) by (apply Z.pow_le_mono_r; lia). lia.
Qed.

Lemma opExpImpl_spec base exp : is_u64 base -> is_u64 exp -> ~ (base = 0 /\ exp = 0) ->
  opExpImpl base exp = if base ^ exp <? two64 then Ok (base ^ exp) else Err (Errorf "exp overflow").
Proof.
  intros Hb He Hz. unfold opExpImpl.
  destruct (Z.eqb_spec exp 0) as [->|He0]; destruct (Z.eqb_spec base 0) as [->|Hb0]; cbn [andb orb]; [lia|done|by rewrite Z.pow_0_l by word|].
  destruct (Z.eqb_spec base 1) as [->|Hb1]; [by rewrite Z.pow_1_l by word|].
  destruct (Z.leb_spec 64 exp) as [H64|H64].
  - destruct (Z.ltb_spec (base ^ exp) two64) as [Hlt|]; [|done].
    pose proof (pow_large base exp 64) as Hp. change (2 ^ 64) with two64 in Hp. word.
  - replace (base ^ exp) with (base ^ (1 + Z.of_nat (Z.to_nat (exp - 1)))) by (f_equal; word). rewrite <- (Z.pow_1_r base) at 1.
    apply exp_loop_spec; [word|lia|]; by rewrite Z.pow_1_r.
Qed.

Lemma expw_loop_spec base n : 2 <= base -> forall k, 0 <= k -> base ^ k < 2 ^ 128 ->
  expw_loop n (base ^ k) base =
  if base ^ (k + Z.of_nat n) <? 2 ^ 128 then Ok (base ^ (k + Z.of_nat n)) else Err (Errorf "expw overflow").
Proof.
  intros Hb. induction n as [|n IH]; intros k Hk Hu; cbn [expw_loop].
  { rewrite Z.add_0_r. by destruct (Z.ltb_spec (base ^ k) (2 ^ 128)); [|lia]. }
  assert (base ^ k * base = base ^ (k + 1)) as -> by (by rewrite Z.add_1_r, Z.pow_succ_r, Z.mul_comm).
  assert (0 < base ^ (k + 1)) as Hpos by (apply Z.pow_pos_nonneg; lia).
  pose proof (bit_len_spec (base ^ (k + 1)) 128 ltac:(lia) ltac:(lia)) as Hbl.
  destruct (Z.ltb_spec 128 (bit_len (base ^ (k + 1)))) as [Hover|Hfit].
  - destruct (Z.ltb_spec (base ^ (k + Z.of_nat (S n))) (2 ^ 128)) as [Hlt|]; [|done].
    assert (base ^ (k + 1) <= base ^ (k + Z.of_nat (S n))) by (apply Z.pow_le_mono_r; lia). lia.
  - rewrite IH by lia. by replace (k + 1 + Z.of_nat n) with (k + Z.of_nat (S n)) by lia.
Qed.

Lemma opExpwImpl_spec base exp : is_u64 base -> is_u64 exp -> ~ (base = 0 /\ exp = 0) ->
  opExpwImpl base exp = if base ^ exp <? 2 ^ 128 then Ok (base ^ exp) else Err (Errorf "expw overflow").
Proof.
  intros Hb He Hz. unfold opExpwImpl.
  destruct (Z.eqb_spec exp 0) as [->|He0]; destruct (Z.eqb_spec base 0) as [->|Hb0]; cbn [andb orb]; [lia|done|by rewrite Z.pow_0_l by word|].
  destruct (Z.eqb_spec base 1) as [->|Hb1]; [by rewrite Z.pow_1_l by word|].
  destruct (Z.leb_spec 128 exp) as [H64|H64].
  - destruct (Z.ltb_spec (base ^ exp) (2 ^ 128)) as [Hlt|]; [|done]. pose proof (pow_large base exp 128). word.
  - replace (base ^ exp) with (base ^ (1 + Z.of_nat (Z.to_nat (exp - 1)))) by (f_equal; word). rewrite <- (Z.pow_1_r base) at 1.
    apply expw_loop_spec; [word|lia|]. rewrite Z.pow_1_r. unfold is_u64, two64 in Hb. lia.
Qed.

(** ** The arithmetic opcodes *)

(** A result that fits into one word, or an error; and a result of two words. *)
Definition fits (e : error) (z : Z) (st : stack) : outcome stack := if z <? two64 then Ok (SUint z :: st) else Err e.
Definition wide (z : Z) (st : stack) : outcome stack := Ok (SUint (z mod two64) :: SUint (z / two64) :: st).

Lemma opPlus_spec a b st : is_u64 a -> is_u64 b -> opPlus (SUint b :: SUint a :: st) = fits (Errorf "+ overflowed") (a + b) st.
Proof.
  intros Ha Hb. unfold opPlus, onUints, Add64, fits. destruct (Z.ltb_spec (a + b) two64) as [Hlt|Hge].
  - by rewrite Z.div_small, wrap64_small by word.
  - rewrite (proj2 (Z.ltb_lt 0 _)); [done|]. apply Z.div_str_pos. word.
Qed.

Lemma opMul_spec a b st : is_u64 a -> is_u64 b -> opMul (SUint b :: SUint a :: st) = fits (Errorf "* overflowed") (a * b) st.
Proof.
  intros Ha Hb. unfold opMul, onUints, Mul64, fits. destruct (Z.ltb_spec (a * b) two64) as [Hlt|Hge].
  - rewrite Z.div_small, wrap64_small by (unfold is_u64 in *; nia). done.
  - rewrite (proj2 (Z.ltb_lt 0 _)); [done|]. apply Z.div_str_pos. word.
Qed.

Lemma opDivw_spec hi lo y st : is_u64 hi -> is_u64 lo -> is_u64 y -> y <> 0 ->
  opDivw (SUint y :: SUint lo :: SUint hi :: st) = fits (Errorf "divw overflow") ((hi * two64 + lo) / y) st.
Proof.
  intros Hhi Hlo Hy Hnz. unfold opDivw, fits. rewrite (proj2 (Z.eqb_neq y 0)) by done.
  destruct (Z.leb_spec y hi) as [Hle|Hlt]; destruct (Z.ltb_spec ((hi * two64 + lo) / y) two64) as [Hf|Hf]; try done; exfalso.
  - apply Z.div_lt_upper_bound in Hf || idtac. assert (two64 <= (hi * two64 + lo) / y); [|lia].
    apply Z.div_le_lower_bound; word.
  - assert ((hi * two64 + lo) / y < two64); [|lia]. apply Z.div_lt_upper_bound; word.
Qed.

Lemma uint128_spec hi lo : uint128 hi lo = hi * two64 + lo.
Proof. unfold uint128. by rewrite Z.shiftl_mul_pow2. Qed.

Lemma words_of z : 0 <= z < two64 * two64 -> wrap64 (Z.shiftr z 64) = z / two64 /\ wrap64 z = z mod two64.
Proof.
  intros Hz. split; [|done]. rewrite Z.shiftr_div_pow2 by done. change (2 ^ 64) with two64. apply wrap64_small.
  split; [apply Z.div_pos; word|]. apply Z.div_lt_upper_bound; word.
Qed.

Lemma opDivModw_spec hiNum loNum hiDen loDen st : is_u64 hiNum -> is_u64 loNum -> is_u64 hiDen -> is_u64 loDen ->
  let num := hiNum * two64 + loNum in let den := hiDen * two64 + loDen in
  opDivModw (SUint loDen :: SUint hiDen :: SUint loNum :: SUint hiNum :: st) =
  if den =? 0 then Err (Errorf "/ 0") else q ← wide (num / den) st; wide (num mod den) q.
Proof.
  intros H1 H2 H3 H4 num den. unfold opDivModw, opDivModwImpl. rewrite !uint128_spec. fold num den.
  assert (0 <= num < two64 * two64) as Hnum by (unfold num; word). assert (0 <= den < two64 * two64) as Hden by (unfold den; word).
  destruct (Z.eqb_spec den 0) as [E|E].
  - destruct (Z.eqb_spec loDen 0), (Z.eqb_spec hiDen 0); cbn; try done; exfalso; unfold den in E; word.
  - assert (((loDen =? 0) && (hiDen =? 0)) = false) as ->.
    { destruct (Z.eqb_spec loDen 0) as [->|], (Z.eqb_spec hiDen 0) as [->|]; try done. }
    rewrite (surjective_pairing (Z.quotrem num den)). change (Z.quotrem num den).1 with (Z.quot num den). change (Z.quotrem num den).2 with (Z.rem num den).
    rewrite Z.quot_div_nonneg, Z.rem_mod_nonneg by lia.
    pose proof (Z.mod_pos_bound num den ltac:(lia)). pose proof (Z.div_pos num den ltac:(lia) ltac:(lia)).
    assert (num / den <= num) by (apply Z.div_le_upper_bound; nia).
    destruct (words_of (num / den)) as [-> ->]; [lia|]. by destruct (words_of (num mod den)) as [-> ->]; [lia|].
Qed.

(** C28 (functional): arithmetic on 64-bit words is exact or an error, never a value
    that has wrapped around.  [+], [*], [divw] and [exp] give the result of the
    integers when it fits into a word and fail otherwise; [addw], [mulw] and [expw]
    give it as two words (a power of more than 128 bits fails); [divmodw] divides
    128-bit numbers; [sqrt], computed two bits at a time, is the integer square
    root.  Only [0^0] and division by zero have no result. *)
Theorem word_math_exact a b c d st : is_u64 a -> is_u64 b -> is_u64 c -> is_u64 d ->
  opPlus (SUint b :: SUint a :: st) = fits (Errorf "+ overflowed") (a + b) st /\
  opMul (SUint b :: SUint a :: st) = fits (Errorf "* overflowed") (a * b) st /\
  opAddw (SUint b :: SUint a :: st) = wide (a + b) st /\
  opMulw (SUint b :: SUint a :: st) = wide (a * b) st /\
  opSqrt (SUint a :: st) = Ok (SUint (Z.sqrt a) :: st) /\
  opExp (SUint b :: SUint a :: st) =
    (if (a =? 0) && (b =? 0) then Err (Errorf "0^0 is undefined") else fits (Errorf "exp overflow") (a ^ b) st) /\
  opExpw (SUint b :: SUint a :: st) =
    (if (a =? 0) && (b =? 0) then Err (Errorf "0^0 is undefined")
     else if a ^ b <? 2 ^ 128 then wide (a ^ b) st else Err (Errorf "expw overflow")) /\
  opDivw (SUint c :: SUint b :: SUint a :: st) =
    (if c =? 0 then Err (Errorf "divw 0") else fits (Errorf "divw overflow") ((a * two64 + b) / c) st) /\
  opDivModw (SUint d :: SUint c :: SUint b :: SUint a :: st) =
    (if c * two64 + d =? 0 then Err (Errorf "/ 0")
     else q ← wide ((a * two64 + b) / (c * two64 + d)) st; wide ((a * two64 + b) mod (c * two64 + d)) q).
Proof.
  intros Ha Hb Hc Hd. assert (((a =? 0) && (b =? 0)) = true \/ ~ (a = 0 /\ b = 0)) as Hz.
  { destruct (Z.eqb_spec a 0), (Z.eqb_spec b 0); auto; lia. }
  assert (((a =? 0) && (b =? 0)) = true -> opExpImpl a b = Err (Errorf "0^0 is undefined") /\ opExpwImpl a b = Err (Errorf "0^0 is undefined")) as Hzz.
  { unfold opExpImpl, opExpwImpl. rewrite (andb_comm (b =? 0)). by intros ->. }
  split_and!; [by apply opPlus_spec|by apply opMul_spec|done|done|by apply opSqrt_spec| | | |by apply opDivModw_spec].
  - unfold opExp, onUints. destruct Hz as [Hz|Hz]; [by rewrite Hz, (proj1 (Hzz Hz))|].
    rewrite opExpImpl_spec by done. unfold fits. destruct (Z.eqb_spec a 0), (Z.eqb_spec b 0); try (exfalso; tauto); by destruct (_ <? _).
  - unfold opExpw, onUints. destruct Hz as [Hz|Hz]; [by rewrite Hz, (proj2 (Hzz Hz))|].
    rewrite opExpwImpl_spec by done. assert (((a =? 0) && (b =? 0)) = false) as ->.
    { destruct (Z.eqb_spec a 0), (Z.eqb_spec b 0); try done; exfalso; tauto. }
    destruct (Z.ltb_spec (a ^ b) (2 ^ 128)) as [Hlt|]; [|done]. cbn [mbind outcome_bind app]. unfold wide.
    assert (0 <= a ^ b) by (apply Z.pow_nonneg; word). by destruct (words_of (a ^ b)) as [-> ->].
  - destruct (Z.eqb_spec c 0) as [->|Hnz]; [done|]. by apply opDivw_spec.
Qed.

Lemma word_math_exact_witness :
  opSqrt [SUint 18446744073709551615] = Ok [SUint 4294967295] /\
  opExp [SUint 40; SUint 3] = Ok [SUint 12157665459056928801] /\ opExp [SUint 41; SUint 3] = Err (Errorf "exp overflow").
Proof.
  split_and!.
  - destruct (word_math_exact 18446744073709551615 0 0 0 []) as (_ & _ & _ & _ & -> & _); [word..|]. by vm_compute.
  - destruct (word_math_exact 3 40 0 0 []) as (_ & _ & _ & _ & _ & -> & _); [word..|]. by vm_compute.
  - destruct (word_math_exact 3 41 0 0 []) as (_ & _ & _ & _ & _ & -> & _); [word..|]. by vm_compute.
Defined.

(** *** Arithmetic on byte strings *)

Lemma bit_len_zero z : 0 <= z -> (bit_len z =? 0) = (z =? 0).
Proof.
  intros Hz. unfold bit_len. destruct (Z.eqb_spec z 0) as [->|Hnz]; [done|]. apply Z.eqb_neq. pose proof (Z.log2_nonneg z). lia.
Qed.

(** The shortest byte string for a number. *)
Definition number (z : Z) (st : stack) : outcome stack := Ok (SBytes (big_bytes z) :: st).

Lemma opBytesBinOp_spec op x y st : slen x <= MaxByteMathSize -> slen y <= MaxByteMathSize ->
  opBytesBinOp op (SBytes y :: SBytes x :: st) =
  r ← op (big_of x) (big_of y); if r <? 0 then Err (Errorf "byte math would have negative result") else number r st.
Proof.
  intros Hx Hy. unfold opBytesBinOp, onBytess, bytesTooLarge. rewrite !(proj2 (Z.ltb_ge MaxByteMathSize _)) by lia. cbn [orb].
  destruct (op _ _) as [r| |]; [|done..]. cbn [mbind outcome_bind]. by destruct (r <? 0).
Qed.

(** C29 (functional): arithmetic on byte strings is arithmetic on the numbers they
    denote.  On strings of at most 64 bytes, sums, products, differences, quotients,
    remainders and square roots are the shortest strings for the exact results; a
    negative difference and a division by zero fail; comparisons compare the
    numbers, however many leading zeros the strings have. *)
Theorem byte_math_exact x y st : slen x <= MaxByteMathSize -> slen y <= MaxByteMathSize ->
  let X := big_of x in let Y := big_of y in
  opBytesPlus (SBytes y :: SBytes x :: st) = number (X + Y) st /\
  opBytesMul (SBytes y :: SBytes x :: st) = number (X * Y) st /\
  opBytesMinus (SBytes y :: SBytes x :: st) =
    (if X <? Y then Err (Errorf "byte math would have negative result") else number (X - Y) st) /\
  opBytesDiv (SBytes y :: SBytes x :: st) = (if Y =? 0 then Err (Errorf "division by zero") else number (X / Y) st) /\
  opBytesModulo (SBytes y :: SBytes x :: st) = (if Y =? 0 then Err (Errorf "modulo by zero") else number (X mod Y) st) /\
  opBytesSqrt (SBytes x :: st) = number (Z.sqrt X) st /\
  opBytesLt (SBytes y :: SBytes x :: st) = Ok (svBool (X <? Y) :: st) /\
  opBytesGe (SBytes y :: SBytes x :: st) = Ok (svBool (Y <=? X) :: st) /\
  opBytesEq (SBytes y :: SBytes x :: st) = Ok (svBool (X =? Y) :: st) /\
  (forall r, 0 <= r -> big_of (big_bytes r) = r) /\ slen (big_bytes X) <= slen x.
Proof.
  intros Hx Hy X Y. pose proof (big_of_range x) as [HX _]. pose proof (big_of_range y) as [HY _]. fold X in HX. fold Y in HY.
  assert (bytesTooLarge x y = false) as Hl by (unfold bytesTooLarge; by rewrite !(proj2 (Z.ltb_ge MaxByteMathSize _)) by lia).
  unfold opBytesPlus, opBytesMul, opBytesMinus, opBytesDiv, opBytesModulo. rewrite !opBytesBinOp_spec by done. fold X Y.
  cbn [mbind outcome_bind]. rewrite !bit_len_zero by done. split_and!.
  - by rewrite (proj2 (Z.ltb_ge (X + Y) 0)) by lia.
  - by rewrite (proj2 (Z.ltb_ge (X * Y) 0)) by nia.
  - destruct (Z.ltb_spec (X - Y) 0), (Z.ltb_spec X Y); try done; lia.
  - destruct (Z.eqb_spec Y 0); [done|]. cbn [mbind outcome_bind]. rewrite (proj2 (Z.ltb_ge (X / Y) 0)); [done|]. apply Z.div_pos; lia.
  - destruct (Z.eqb_spec Y 0); [done|]. cbn [mbind outcome_bind]. rewrite (proj2 (Z.ltb_ge (X mod Y) 0)); [done|]. apply Z.mod_pos_bound; lia.
  - unfold opBytesSqrt, onBytes. by rewrite (proj2 (Z.ltb_ge MaxByteMathSize _)) by lia.
  - unfold opBytesLt, opBytesCmp, onBytess. by rewrite Hl.
  - unfold opBytesGe, opBytesLt, opBytesCmp, onBytess. rewrite Hl. fold X Y. cbn [mbind outcome_bind app opNot onUint svBool].
    destruct (Z.ltb_spec X Y), (Z.leb_spec Y X); try done; lia.
  - unfold opBytesEq, opBytesCmp, onBytess. by rewrite Hl.
  - apply big_of_bytes.
  - apply big_bytes_shortest.
Qed.

Lemma byte_math_exact_witness :
  opBytesMinus [SBytes (of_bytes [0; 1; 0]); SBytes (of_bytes [2; 1])] = number 257 [].
Proof.
  destruct (byte_math_exact (of_bytes [2; 1]) (of_bytes [0; 1; 0]) []) as (_ & _ & -> & _); [by vm_compute..|]. by vm_compute.
Defined.

(** ** Conversions *)

Lemma slice_all x : slice x 0 (slen x) = x.
Proof.
  unfold slice, slen. rewrite Z.sub_0_r, Nat2Z.id. change (Z.to_nat 0) with O. induction x as [|c x IH]; cbn; [done|]. by f_equal.
Qed.

Lemma opExtractImpl_all x n : n = slen x -> n <= 8 -> opExtractImpl x (swrap64 0) n = Ok x.
Proof.
  intros -> Hn. assert (0 <= slen x) by (unfold slen; lia). unfold opExtractImpl. change (swrap64 0) with 0. rewrite Z.add_0_l.
  assert (swrap64 (slen x) = slen x) as ->. { unfold swrap64. rewrite Z.mod_small by word. lia. }
  rewrite Z.ltb_irrefl, !(proj2 (Z.ltb_ge _ _)) by lia. cbn [orb]. by rewrite slice_all.
Qed.

(** Converting a number to bytes and back gives the number, and every
    string of eight bytes is the conversion of the number it denotes; [btoi] reads
    shorter strings as big-endian numbers as well, and [extract_uint64] reads what
    [itob] wrote. *)
Theorem itob_btoi_roundtrip a x st : is_u64 a -> slen x <= 8 ->
  (st' ← opItob (SUint a :: st); opBtoi st') = Ok (SUint a :: st) /\
  (st' ← opItob (SUint a :: st); opExtract64Bits (SUint 0 :: st')) = Ok (SUint a :: st) /\
  opBtoi (SBytes x :: st) = Ok (SUint (big_of x) :: st) /\
  (slen x = 8 -> (st' ← opBtoi (SBytes x :: st); opItob st') = Ok (SBytes x :: st)).
Proof.
  intros Ha Hx. assert (slen (of_bytes (be_bytes 8 a)) = 8) as H8 by (rewrite slen_of_bytes; unfold llen; by rewrite be_bytes_length).
  assert (convertBytesToInt (of_bytes (be_bytes 8 a)) = a) as Hc.
  { rewrite convertBytesToInt_spec by lia. unfold big_of. rewrite bytes_of_bytes by apply be_bytes_range. by apply be_value_bytes. }
  unfold opItob, onUint, opBtoi, onBytes. cbn [mbind outcome_bind app]. split_and!.
  - rewrite H8. change (8 <? 8) with false. cbn [mbind outcome_bind app]. by rewrite Hc.
  - unfold opExtract64Bits, opExtractNBytes. rewrite opExtractImpl_all by (done || lia). cbn [mbind outcome_bind app]. by rewrite Hc.
  - rewrite (proj2 (Z.ltb_ge 8 _)) by lia. cbn [mbind outcome_bind app]. by rewrite convertBytesToInt_spec.
  - intros Hx8. rewrite (proj2 (Z.ltb_ge 8 _)) by lia. cbn [mbind outcome_bind app]. rewrite convertBytesToInt_spec by done. unfold slen in Hx8.
    replace 8%nat with (String.length x) by lia. by rewrite be_bytes_of.
Qed.

Lemma itob_btoi_roundtrip_witness :
  (st' ← opItob [SUint 18446744073709551614]; opBtoi st') = Ok [SUint 18446744073709551614] /\
  opBtoi [SBytes (of_bytes [1; 2])] = Ok [SUint 258].
Proof.
  destruct (itob_btoi_roundtrip 18446744073709551614 (of_bytes [1; 2]) []) as (-> & _ & -> & _); [by vm_compute..|]. by vm_compute.
Defined.

(** ** Bits *)

(** Bit [i] of a value: of a word from the least significant one, of a byte string
    from the most significant bit of its first byte. *)
Definition bit_at (sv : stackValue) (i : Z) : option bool :=
  match sv with
  | SUint u => if i <? 64 then Some (Z.testbit u i) else None
  | SBytes x => (fun b => Z.testbit b (7 - i mod 8)) <$> bytes_of x !! Z.to_nat (i / 8)
  end.

Lemma get_bit v k : 0 <= k -> Z.shiftr (Z.land v (Z.shiftl 1 k)) k = boolToUint (Z.testbit v k).
Proof.
  intros Hk. apply Z.bits_inj'. intros i Hi. rewrite Z.shiftr_spec, Z.land_spec, Z.shiftl_spec by lia.
  replace (i + k - k) with i by lia. destruct (Z.eq_dec i 0) as [->|Hn].
  - rewrite Z.add_0_l, andb_comm. by destruct (Z.testbit v k).
  - rewrite <- (Z.pow_0_r 2) at 1. rewrite Z.pow2_bits_false, andb_false_r by lia.
    destruct (Z.testbit v k); cbn; [|by rewrite Z.bits_0]. rewrite <- (Z.pow_0_r 2). by rewrite Z.pow2_bits_false by lia.
Qed.

Lemma set_bit v k b j : 0 <= k -> 0 <= j ->
  Z.testbit (if (b : bool) then Z.lor v (Z.shiftl 1 k) else Z.ldiff v (Z.shiftl 1 k)) j = if j =? k then b else Z.testbit v j.
Proof.
  intros Hk Hj. rewrite Z.shiftl_1_l. assert (Z.testbit (2 ^ k) j = (j =? k)) as Hp.
  { destruct (Z.eqb_spec j k) as [->|]; [by apply Z.pow2_bits_true|apply Z.pow2_bits_false; lia]. }
  destruct b; [rewrite Z.lor_spec|rewrite Z.ldiff_spec]; rewrite Hp; destruct (j =? k); cbn;
    by rewrite ?orb_true_r, ?orb_false_r, ?andb_false_r, ?andb_true_r.
Qed.

Lemma mask_shift i : Z.shiftr 128 (i mod 8) = Z.shiftl 1 (7 - i mod 8).
Proof.
  pose proof (Z.mod_pos_bound i 8 ltac:(lia)) as Hm. generalize dependent (i mod 8). intros r Hm.
  assert (r = 0 \/ r = 1 \/ r = 2 \/ r = 3 \/ r = 4 \/ r = 5 \/ r = 6 \/ r = 7) as Hc by lia.
  by destruct Hc as [->|[->|[->|[->|[->|[->|[->| ->]]]]]]].
Qed.

Lemma byteAt_lookup x i : 0 <= i -> byteAt x i = match bytes_of x !! Z.to_nat i with Some b => Ok b | None => Panic end.
Proof. intros Hi. unfold byteAt. by rewrite (proj2 (Z.ltb_ge i 0)). Qed.

Lemma byte_lookup x i : 0 <= i -> (slen x <=? i) = match bytes_of x !! Z.to_nat i with Some _ => false | None => true end.
Proof.
  intros Hi. rewrite <- llen_bytes_of. unfold llen. destruct (bytes_of x !! _) eqn:E.
  - apply lookup_lt_Some in E. apply Z.leb_gt. lia.
  - apply lookup_ge_None in E. apply Z.leb_le. lia.
Qed.

Lemma opGetBit_spec sv i st : 0 <= i ->
  match bit_at sv i with
  | Some b => opGetBit (SUint i :: sv :: st) = Ok (svBool b :: st)
  | None => exists e, opGetBit (SUint i :: sv :: st) = Err e
  end.
Proof.
  intros Hi. destruct sv as [u|x]; cbn [bit_at opGetBit].
  - destruct (Z.ltb_spec i 64), (Z.ltb_spec 63 i); try lia; [by rewrite get_bit|by eexists].
  - pose proof (Z.div_pos i 8 ltac:(lia) ltac:(lia)) as Hd. rewrite byte_lookup, byteAt_lookup by done.
    destruct (bytes_of x !! _) as [v|]; cbn [fmap option_fmap option_map]; [|by eexists]. cbn [mbind outcome_bind].
    rewrite mask_shift, get_bit; [done|]. pose proof (Z.mod_pos_bound i 8). lia.
Qed.

Lemma byte_bits v : 0 <= v -> (forall j, 8 <= j -> Z.testbit v j = false) -> is_byte v.
Proof.
  intros Hv Hb. split; [done|]. destruct (Z.eq_dec v 0) as [->|]; [lia|]. change 256 with (2 ^ 8). apply Z.log2_lt_pow2; [lia|].
  destruct (Z.lt_ge_cases (Z.log2 v) 8) as [|Hge]; [done|]. specialize (Hb _ Hge). by rewrite Z.bit_log2 in Hb by lia.
Qed.

Lemma bits_byte v j : is_byte v -> 8 <= j -> Z.testbit v j = false.
Proof.
  intros Hv Hj. unfold is_byte in Hv. destruct (Z.eq_dec v 0) as [->|]; [apply Z.bits_0|]. apply Z.bits_above_log2; [lia|].
  enough (Z.log2 v < 8) by lia. apply Z.log2_lt_pow2; lia.
Qed.

Lemma set_bit_byte v k (b : bool) : is_byte v -> 0 <= k < 8 ->
  is_byte (if b then Z.lor v (Z.shiftl 1 k) else Z.ldiff v (Z.shiftl 1 k)).
Proof.
  intros Hv Hk. apply byte_bits.
  - unfold is_byte in Hv. destruct b; [apply Z.lor_nonneg|apply Z.ldiff_nonneg; lia]. rewrite Z.shiftl_1_l. split; [lia|]. apply Z.pow_nonneg. lia.
  - intros j Hj. rewrite set_bit by lia. rewrite (proj2 (Z.eqb_neq j k)) by lia. by apply bits_byte.
Qed.

(** Setting a bit of a word or of a byte string changes that bit and
    no other, and reading a bit gives the one last set; an index past the end of the
    value fails. *)
Theorem setbit_getbit sv i j (b : bool) st : 0 <= i -> 0 <= j ->
  match bit_at sv i with
  | None => exists e, opSetBit (svBool b :: SUint i :: sv :: st) = Err e
  | Some _ => exists sv', opSetBit (svBool b :: SUint i :: sv :: st) = Ok (sv' :: st) /\
      argType sv' = argType sv /\ slen (sv_Bytes sv') = slen (sv_Bytes sv) /\
      (forall v, bit_at sv j = Some v -> opGetBit (SUint j :: sv' :: st) = Ok (svBool (if j =? i then b else v) :: st))
  end.
Proof.
  intros Hi Hj. set (v' := fun v k => if b then Z.lor v (Z.shiftl 1 k) else Z.ldiff v (Z.shiftl 1 k)).
  assert (forall sv', (forall v, bit_at sv j = Some v -> bit_at sv' j = Some (if j =? i then b else v)) ->
    forall v, bit_at sv j = Some v -> opGetBit (SUint j :: sv' :: st) = Ok (svBool (if j =? i then b else v) :: st)) as Hget.
  { intros sv' Hb v Hv. pose proof (opGetBit_spec sv' j st Hj) as Hg. by rewrite (Hb v Hv) in Hg. }
  assert (svBool b = SUint (boolToUint b) /\ (1 <? boolToUint b) = false /\ (boolToUint b =? 1) = b) as (-> & Hle & Heq) by (by destruct b).
  destruct sv as [u|x]; cbn [opSetBit]; rewrite Hle, ?Heq.
  - cbn [bit_at]. destruct (Z.ltb_spec i 64), (Z.ltb_spec 63 i); try lia; [|by eexists]. exists (SUint (v' u i)). split_and!; try (by destruct b).
    apply Hget. cbn [bit_at]. intros v. destruct (j <? 64); [|done]. intros [= <-]. unfold v'. by rewrite set_bit.
  - pose proof (Z.div_pos i 8 ltac:(lia) ltac:(lia)) as Hd. pose proof (Z.div_pos j 8 ltac:(lia) ltac:(lia)) as Hdj.
    pose proof (Z.mod_pos_bound i 8 ltac:(lia)) as Hm. pose proof (Z.mod_pos_bound j 8 ltac:(lia)) as Hmj.
    rewrite byte_lookup, byteAt_lookup by done. cbn [bit_at].
    destruct (bytes_of x !! _) as [w|] eqn:Ew; cbn [fmap option_fmap option_map]; [|by eexists]. cbn [mbind outcome_bind]. rewrite mask_shift.
    assert (is_byte (v' w (7 - i mod 8))) as Hbyte.
    { apply set_bit_byte; [|lia]. eapply Forall_lookup_1; [apply bytes_of_range|exact Ew]. }
    assert (Forall is_byte (<[Z.to_nat (i / 8) := v' w (7 - i mod 8)]> (bytes_of x))) as Hall by (by apply Forall_insert; [apply bytes_of_range|]).
    exists (SBytes (setByteAt x (i / 8) (v' w (7 - i mod 8)))). split_and!; [done|done| |].
    + cbn [sv_Bytes]. unfold setByteAt. rewrite slen_of_bytes. unfold llen. rewrite length_insert. by rewrite length_bytes_of.
    + apply Hget. cbn [bit_at]. unfold setByteAt. rewrite bytes_of_bytes by done. intros v Hv.
      apply fmap_Some in Hv as (wj & Hwj & ->). destruct (Z.eq_dec (j / 8) (i / 8)) as [E|E].
      * rewrite E in *. rewrite Ew in Hwj. injection Hwj as <-. rewrite list_lookup_insert_eq by (by eapply lookup_lt_Some).
        cbn. unfold v'. rewrite set_bit by lia. f_equal. pose proof (Z.div_mod i 8). pose proof (Z.div_mod j 8).
        destruct (Z.eqb_spec (7 - j mod 8) (7 - i mod 8)), (Z.eqb_spec j i); try done; lia.
      * rewrite list_lookup_insert_ne, Hwj by lia. cbn. destruct (Z.eqb_spec j i) as [->|]; done.
Qed.

Lemma setbit_getbit_witness : exists sv', opSetBit [SUint 1; SUint 9; SBytes (of_bytes [5; 0])] = Ok [sv'] /\
  opGetBit [SUint 9; sv'] = Ok [SUint 1] /\ sv' = SBytes (of_bytes [5; 64]).
Proof.
  pose proof (setbit_getbit (SBytes (of_bytes [5; 0])) 9 9 true []) as H. 
  destruct H as (sv' & Hs & _ & _ & Hg); [lia|lia|]. exists sv'. split_and!; [exact Hs| |].
  - by rewrite (Hg false).
  - vm_compute in Hs. by injection Hs as <-.
Defined.
