(* ===== verification/AvmTyped.v ===== *)
(** Types of the machine: whatever a program does, the values on its stack and in its
    scratch space are 64-bit words and strings of bounded length, the stack has a
    bounded depth, and the transactions it submits have 64-bit fields.  Every opcode
    keeps this, by a logic for the trees programs are. *)
From S2P Require Import Prelude Config Basics Transactions Bookkeeping StateDelta CompactCert Cow.
From S2P Require Import CowFacts CowStorage Balances CowBalances Apply ApplyFacts ApplyCorrect Eval EvalFacts EvalMoney.
From S2P Require Import Conserve AvmValue LogicParams LogicLedger LogicEval LogicFacts LogicMoney LogicCorrect.
From S2P Require Import AvmFields AvmMachine AvmOps AvmLoop AvmMath.
#[local] Open Scope string_scope.
#[local] Open Scope list_scope.
#[local] Open Scope Z_scope.

(** ** What holds at the ends of a tree *)

Section safe.
(** What holds of the groups submitted on the way; charges are positive. *)
  Context (PS : list SignedTxnWithAD -> Prop).

Fixpoint safe {A} (Q : A -> Prop) (p : prog A) : Prop :=
  match p with
  | Finish a => Q a
  | Fail _ | Crash => True
  | Ask _ k => forall r, safe Q (k r)
  | Look k => forall st, safe Q (k st)
  | Store _ k | CacheID _ _ k | Log _ _ _ k => safe Q k
  | Charge cost k => 0 < cost /\ safe Q k
  | Submit subtxns k => PS subtxns /\ safe Q k
  end.

(** [leads p a]: some answers take [p] to its end [a]. *)
Inductive leads {A} : prog A -> A -> Prop :=
| leads_Finish a : leads (Finish a) a
| leads_Ask c k r a : leads (k r) a -> leads (Ask c k) a
| leads_Look k st a : leads (k st) a -> leads (Look k) a
| leads_Charge cost k a : leads k a -> leads (Charge cost k) a
| leads_Store scratch k a : leads k a -> leads (Store scratch k) a
| leads_CacheID gi txid k a : leads k a -> leads (CacheID gi txid k) a
| leads_Log g l logs k a : leads k a -> leads (Log g l logs k) a
| leads_Submit subtxns k a : leads k a -> leads (Submit subtxns k) a.

Lemma safe_leads {A} (Q : A -> Prop) p a : safe Q p -> leads p a -> Q a.
Proof. intros Hs Hl. revert Hs. induction Hl; cbn; firstorder. Qed.

(** One way down a tree: every look shows [st], and the ledger has no answers. *)
Fixpoint drive {A} (st : evalState) (p : prog A) : option A :=
  match p with
  | Finish a => Some a
  | Fail _ | Crash | Ask _ _ => None
  | Look k => drive st (k st)
  | Charge _ k | Store _ k | CacheID _ _ k | Log _ _ _ k | Submit _ k => drive st k
  end.
Lemma drive_leads {A} st (p : prog A) a : drive st p = Some a -> leads p a.
Proof. induction p; cbn; intros Hd; try discriminate; try (econstructor; by eauto). injection Hd as <-. constructor. Qed.

Lemma safe_mono {A} (Q Q' : A -> Prop) p : (forall a, Q a -> Q' a) -> safe Q p -> safe Q' p.
Proof. intros HQ. induction p; cbn; auto; intros [? ?]; auto. Qed.

Lemma safe_bind {A B} (p : prog A) (f : A -> prog B) Q : safe (fun a => safe Q (f a)) p -> safe Q (p ≫= f).
Proof. unfold mbind. induction p; cbn; auto; intros [? ?]; auto. Qed.

Lemma safe_ret {A} (a : A) (Q : A -> Prop) : Q a -> safe Q (mret a).
Proof. done. Qed.
Lemma safe_tlift {A} (r : outcome A) (Q : A -> Prop) : (forall a, r = Ok a -> Q a) -> safe Q (tlift r).
Proof. destruct r; cbn; auto. Qed.
Lemma safe_tread {A} (f : evalState -> outcome A) (Q : A -> Prop) : (forall st a, f st = Ok a -> Q a) -> safe Q (tread f).
Proof. intros HQ st. apply safe_tlift. eauto. Qed.
Lemma safe_tfailIf b e (Q : unit -> Prop) : (b = false -> Q tt) -> safe Q (tfailIf b e).
Proof. intros HQ. apply safe_tlift. intros [] Hb%failIf_Ok. by apply HQ. Qed.
Lemma safe_tcall c (Q : answer c -> Prop) : (forall a, Q a) -> safe Q (tcall c).
Proof. intros HQ [a|e]; cbn; auto. Qed.
Lemma safe_task c (Q : answer c + error -> Prop) : (forall r, Q r) -> safe Q (task c).
Proof. intros HQ r. apply HQ. Qed.
Lemma safe_tlook (Q : evalState -> Prop) : (forall st, Q st) -> safe Q tlook.
Proof. intros HQ st. apply HQ. Qed.
End safe.

(** ** Running a tree *)

Section run_trees.
  Context {L : LogicEnv} (B : roundCowParent) (ec : list AppIndex -> Z -> AppIndex -> string -> M (cowStack * evalState) (bool * EvalDelta)).
  Context (cx : context).
#[local] Notation runs := (runProgram B ec cx).

Lemma runProgram_bind {A D} (prg : prog A) (k : A -> prog D) : forall s, runs (prg ≫= k) s = (runs prg ≫= (fun a => runs (k a))) s.
Proof.
  unfold mbind at 1. induction prg as [a|e| |c f IH|f IH|cost f IH|scratch f IH|gi txid f IH|g l logs f IH|subtxns f IH]; intros s; cbn [prog_bind runProgram]; [done..| | | | | | |];
    unfold mbind, M_bind in *; match goal with |- context [match ?m s with _ => _ end] => destruct (m s) as [[]] end; try done; apply IH.
Qed.

Lemma run_bind {A D} (prg : prog A) (k : A -> prog D) s a s' : runs prg s = (Ok a, s') -> runs (prg ≫= k) s = runs (k a) s'.
Proof. intros Hr. rewrite runProgram_bind. unfold mbind, M_bind. by rewrite Hr. Qed.
Lemma runs_tlift {A} (r : outcome A) s : runs (tlift r) s = (r, s).
Proof. by destruct r. Qed.
Lemma runs_tread {A} (f : evalState -> outcome A) s : runs (tread f) s = (f s.2, s).
Proof. apply runs_tlift. Qed.
Lemma run_tlift {A} (r : outcome A) a s s' : runs (tlift r) s = (Ok a, s') -> r = Ok a /\ s' = s.
Proof. rewrite runs_tlift. by intros [= -> <-]. Qed.
Lemma run_tread {A} (f : evalState -> outcome A) a s s' : runs (tread f) s = (Ok a, s') -> f s.2 = Ok a /\ s' = s.
Proof. rewrite runs_tread. by intros [= -> <-]. Qed.

(** What holds at the ends of a tree holds of its result. *)
Lemma safe_run {A} PS (Q : A -> Prop) (prg : prog A) : safe PS Q prg -> forall s a s', runs prg s = (Ok a, s') -> Q a.
Proof.
  induction prg as [a|e| |c f IH|f IH|cost f IH|scratch f IH|gi txid f IH|g l logs f IH|subtxns f IH]; cbn [safe runProgram]; intros Hs s a' s' Hr.
  1: by injection Hr as <- _.
  1-2: discriminate Hr.
  all: apply bind_Ok in Hr as (x & s1 & _ & Hr); try destruct Hs as [_ Hs]; by eapply IH.
Qed.
End run_trees.

Create HintDb avm.

(** Walk down a tree; the leaves are left to the caller. *)
Ltac tree_step :=
  lazymatch goal with
  | |- safe _ _ (_ ≫= _) => apply safe_bind
  | |- safe _ _ (mret _) => apply safe_ret
  | |- safe _ _ (Finish _) => apply safe_ret
  | |- safe _ _ (Fail _) => exact I
  | |- safe _ _ Crash => exact I
  | |- safe _ _ (tlift _) => apply safe_tlift; intros ? ?
  | |- safe _ _ (tread _) => apply safe_tread; intros ? ? ?
  | |- safe _ _ (tfailIf _ _) => apply safe_tfailIf; intros ?
  | |- safe _ _ (tcall _) => apply safe_tcall; intros ?
  | |- safe _ _ (task _) => apply safe_task; intros ?
  | |- safe _ _ tlook => apply safe_tlook; intros ?
  | |- safe _ _ (tstore _) => cbn [tstore safe]
  | |- safe _ _ (tlog _) => cbn [tlog safe]
  | |- safe _ _ (tcharge _) => split
  | |- safe _ _ (tcacheID _ _) => cbn [tcacheID safe]
  | |- safe _ _ (match ?x with _ => _ end) => destruct x
  | |- safe _ _ (let _ := _ in _) => cbv zeta
  | |- forall _, _ => intros ?
  end; cbv beta.

(** ** Values *)

Definition word_ok (sv : stackValue) : Prop := match sv with SUint u => is_u64 u | SBytes _ => True end.
Definition value_ok (sv : stackValue) : Prop := word_ok sv /\ slen (sv_Bytes sv) <= MaxStringSize.

Lemma svUint_ok x : word_ok (svUint x).
Proof. apply wrap64_range. Qed.
Lemma svBool_ok b : word_ok (svBool b).
Proof. destruct b; cbn; word. Qed.
Lemma svBool_value b : value_ok (svBool b).
Proof. split; [apply svBool_ok|done]. Qed.
Lemma zero_ok : value_ok (SUint 0).
Proof. split; cbn; [word|done]. Qed.
Lemma one_ok : word_ok (SUint 1).
Proof. cbn. word. Qed.
Lemma value_word sv : value_ok sv -> word_ok sv.
Proof. by intros []. Qed.
#[export] Hint Resolve svUint_ok svBool_ok svBool_value zero_ok one_ok value_word : avm.

Lemma declared_Ok ft sv sv' : declared ft sv = Ok sv' -> sv' = sv.
Proof. unfold declared. destruct (typecheck _ _); [|done]. by intros [= <-]. Qed.

(** Every field of a transaction reads as a value. *)
Lemma txnFieldValue_ok stxn f ai gi sv : txnFieldValue stxn f ai gi = Ok sv -> word_ok sv.
Proof.
  destruct f; cbn [txnFieldValue]; cbv zeta; intros H; try discriminate; try (injection H as <-; first [apply svUint_ok | apply svBool_ok | exact I]).
  all: try (case_match; [injection H as <-; first [apply svUint_ok | exact I]|]).
  all: apply outcome_bind_Ok in H as (x & _ & [= <-]); first [apply svUint_ok | exact I].
Qed.

Lemma assetHoldingToValue_ok holding fs sv : assetHoldingToValue holding fs = Ok sv -> word_ok sv.
Proof. intros ->%declared_Ok. case_match; auto with avm. Qed.
Lemma assetParamsToValue_ok params creator fs sv : assetParamsToValue params creator fs = Ok sv -> word_ok sv.
Proof. intros ->%declared_Ok. case_match; solve [auto with avm | exact I]. Qed.
Lemma appParamsToValue_ok params fs sv : appParamsToValue params fs = Ok sv -> word_ok sv.
Proof.
  unfold appParamsToValue. intros (x & Hx & ->%declared_Ok)%outcome_bind_Ok.
  case_match; try discriminate; injection Hx as <-; try apply svUint_ok; unfold svProgram; case_match; [cbn; word|exact I|cbn; word|exact I].
Qed.
Lemma stackValueFromTealValue_ok tv sv : stackValueFromTealValue tv = Ok sv -> word_ok sv.
Proof. unfold stackValueFromTealValue. repeat case_match; intros [= <-]; [exact I|apply svUint_ok]. Qed.
#[export] Hint Resolve txnFieldValue_ok assetHoldingToValue_ok assetParamsToValue_ok appParamsToValue_ok stackValueFromTealValue_ok : avm.

(** ** Opcodes on the stack *)

(** The values an opcode leaves: words, and strings whose length the loop checks for
    the [n] results on top. *)
Definition results (n : nat) (st : stack) : Prop := Forall word_ok st /\ Forall value_ok (drop n st).

Lemma results_ok n st : Forall value_ok st -> results n st.
Proof. intros Hst. split; [|by apply Forall_drop]. eapply Forall_impl; [exact Hst|]. auto with avm. Qed.
Lemma results_push n sv st : word_ok sv -> results n st -> results (S n) (sv :: st).
Proof. intros Hsv [H1 H2]. split; [by constructor|done]. Qed.
Lemma results_app n r st : Forall word_ok r -> (length r <= n)%nat -> Forall value_ok st -> results n (r ++ st).
Proof.
  revert n. induction r as [|sv r IH]; intros n Hr Hn Hst; [by apply results_ok|]. apply Forall_cons in Hr as [Hsv Hr].
  destruct n as [|n]; cbn [length] in Hn; [lia|]. apply results_push; [done|]. apply IH; auto with lia.
Qed.

Definition stack_op (n : nat) (f : stackOp) : Prop := forall st st', Forall value_ok st -> f st = Ok st' -> results n st'.
(** An opcode whose results need no check. *)
Definition keep_op (f : stackOp) : Prop := forall st st', Forall value_ok st -> f st = Ok st' -> Forall value_ok st'.

Lemma keep_stack_op n f : keep_op f -> stack_op n f.
Proof. intros Hf st st' Hst H. apply results_ok. by eapply Hf. Qed.
Lemma keep_seq f g : keep_op f -> keep_op g -> keep_op (fun st => st ← f st; g st).
Proof. intros Hf Hg st st' Hst (st1 & H1 & H2)%outcome_bind_Ok. eauto. Qed.

Notation values_ok r := (Forall value_ok r) (only parsing).

(** Split an assumption on a stack of values. *)
Ltac split_values :=
  repeat match goal with
  | H : Forall value_ok (_ :: _) |- _ => apply Forall_cons in H as [? ?]
  | H : value_ok (SUint _) |- _ => destruct H as [H _]; cbn [word_ok] in H
  | H : value_ok (SBytes _) |- _ => destruct H as [_ H]; cbn [sv_Bytes] in H
  end.

Ltac values := repeat match goal with |- Forall _ (_ :: _) => apply List.Forall_cons | |- Forall _ [] => constructor end; auto with avm.

Section shapes.
  Context (n : nat).
Lemma onUint_ok f : (forall a r, is_u64 a -> f a = Ok r -> Forall word_ok r /\ (length r <= n)%nat) -> stack_op n (onUint f).
Proof.
  intros Hf [|[a|b] st] st' Hst H; try discriminate. split_values. cbn in H. apply outcome_bind_Ok in H as (r & Hr & [= <-]).
  destruct (Hf a r) as [? ?]; auto using results_app.
Qed.
Lemma onUints_ok f : (forall a b r, is_u64 a -> is_u64 b -> f a b = Ok r -> Forall word_ok r /\ (length r <= n)%nat) -> stack_op n (onUints f).
Proof.
  intros Hf [|[b|?] [|[a|?] st]] st' Hst H; try discriminate. split_values. cbn in H. apply outcome_bind_Ok in H as (r & Hr & [= <-]).
  destruct (Hf a b r) as [? ?]; auto using results_app.
Qed.
Lemma onBytes_ok f : (forall a r, slen a <= MaxStringSize -> f a = Ok r -> Forall word_ok r /\ (length r <= n)%nat) -> stack_op n (onBytes f).
Proof.
  intros Hf [|[?|a] st] st' Hst H; try discriminate. split_values. cbn in H. apply outcome_bind_Ok in H as (r & Hr & [= <-]).
  destruct (Hf a r) as [? ?]; auto using results_app.
Qed.
Lemma onBytess_ok f : (forall a b r, f a b = Ok r -> Forall word_ok r /\ (length r <= n)%nat) -> stack_op n (onBytess f).
Proof.
  intros Hf [|[?|b] [|[?|a] st]] st' Hst H; try discriminate. split_values. cbn in H. apply outcome_bind_Ok in H as (r & Hr & [= <-]).
  destruct (Hf a b r) as [? ?]; auto using results_app.
Qed.
End shapes.

Lemma onUints_keep f : (forall a b r, f a b = Ok r -> values_ok r) -> keep_op (onUints f).
Proof.
  intros Hf [|[b|?] [|[a|?] st]] st' Hst H; try discriminate. split_values. cbn in H. apply outcome_bind_Ok in H as (r & Hr & [= <-]).
  apply Forall_app. eauto.
Qed.
Lemma onBytess_keep f : (forall a b r, f a b = Ok r -> values_ok r) -> keep_op (onBytess f).
Proof.
  intros Hf [|[?|b] [|[?|a] st]] st' Hst H; try discriminate. split_values. cbn in H. apply outcome_bind_Ok in H as (r & Hr & [= <-]).
  apply Forall_app. eauto.
Qed.

(** *** Moving values *)

Lemma opErr_ok : stack_op 0 opErr.
Proof. by intros st st' _ [=]. Qed.
Lemma opAssert_ok : stack_op 0 opAssert.
Proof. apply onUint_ok. intros a r _. case_match; [|done]. intros [= <-]. split; [constructor|cbn; lia]. Qed.
Lemma opSwap_keep : keep_op opSwap.
Proof. intros [|b [|a st]] st' Hst [= <-]. split_values. values. Qed.
Lemma opSelect_ok : stack_op 1 opSelect.
Proof. intros [|[c|s] [|y [|x st]]] st' Hst [= <-]. split_values. apply results_ok. case_match; values. Qed.
Lemma opPop_ok : stack_op 0 opPop.
Proof. intros [|a st] st' Hst [= <-]. split_values. by apply results_ok. Qed.
Lemma opDup_ok : stack_op 2 opDup.
Proof. intros [|a st] st' Hst [= <-]. split_values. apply results_ok. values. Qed.
Lemma opDup2_ok : stack_op 4 opDup2.
Proof. intros [|b [|a st]] st' Hst [= <-]. split_values. apply results_ok. values. Qed.
Lemma opDig_ok depth : stack_op 2 (opDig depth).
Proof.
  intros st st' Hst H. unfold opDig in H. destruct (st !! _) as [sv|] eqn:E; [|done]. injection H as <-. apply results_ok. constructor; [|done].
  by eapply Forall_lookup_1.
Qed.
Lemma opCover_ok depth : stack_op 1 (opCover depth).
Proof.
  intros st st' Hst H. unfold opCover in H. case_match; [done|]. destruct st as [|sv st]; [done|]. injection H as <-. split_values.
  apply results_ok, Forall_app. split; [by apply Forall_take|]. constructor; [done|]. by apply Forall_drop.
Qed.
Lemma opUncover_ok depth : stack_op 1 (opUncover depth).
Proof.
  intros st st' Hst H. unfold opUncover in H. destruct (st !! _) as [sv|] eqn:E; [|done]. injection H as <-. apply results_ok. constructor.
  - by eapply Forall_lookup_1.
  - apply Forall_app. split; [by apply Forall_take|by apply Forall_drop].
Qed.

(** *** Words *)

Lemma bits_u64 x : 0 <= x -> (forall i, 64 <= i -> Z.testbit x i = false) -> is_u64 x.
Proof.
  intros Hx Hb. split; [done|]. destruct (Z.eq_dec x 0) as [->|]; [word|]. change two64 with (2 ^ 64). apply Z.log2_lt_pow2; [lia|].
  destruct (Z.lt_ge_cases (Z.log2 x) 64) as [|Hge]; [done|]. specialize (Hb _ Hge). by rewrite Z.bit_log2 in Hb by lia.
Qed.
Lemma u64_bits x i : is_u64 x -> 64 <= i -> Z.testbit x i = false.
Proof.
  intros Hx Hi. destruct (Z.eq_dec x 0) as [->|]; [apply Z.bits_0|]. unfold is_u64 in Hx. apply Z.bits_above_log2; [lia|].
  enough (Z.log2 x < 64) by lia. apply Z.log2_lt_pow2; [lia|]. exact (proj2 Hx).
Qed.
Lemma lor_u64 a b : is_u64 a -> is_u64 b -> is_u64 (Z.lor a b).
Proof.
  intros Ha Hb. apply bits_u64; [apply Z.lor_nonneg; word|]. intros i Hi. by rewrite Z.lor_spec, (u64_bits a), (u64_bits b).
Qed.
Lemma land_u64 a b : is_u64 a -> 0 <= b -> is_u64 (Z.land a b).
Proof. intros Ha Hb. apply bits_u64; [apply Z.land_nonneg; word|]. intros i Hi. by rewrite Z.land_spec, (u64_bits a). Qed.
Lemma lxor_u64 a b : is_u64 a -> is_u64 b -> is_u64 (Z.lxor a b).
Proof.
  intros Ha Hb. apply bits_u64; [apply Z.lxor_nonneg; word|]. intros i Hi. by rewrite Z.lxor_spec, (u64_bits a), (u64_bits b).
Qed.
Lemma ldiff_u64 a b : is_u64 a -> is_u64 (Z.ldiff a b).
Proof. intros Ha. apply bits_u64; [apply Z.ldiff_nonneg; word|]. intros i Hi. by rewrite Z.ldiff_spec, (u64_bits a). Qed.
Lemma shiftr_u64 a n : 0 <= n -> is_u64 a -> is_u64 (Z.shiftr a n).
Proof.
  intros Hn Ha. rewrite Z.shiftr_div_pow2 by done. apply div_u64; [done|]. by apply Z.pow_pos_nonneg.
Qed.
Lemma div_le_u64 a b : is_u64 a -> 0 <= b -> is_u64 (a / b).
Proof. intros Ha Hb. destruct (Z.eq_dec b 0) as [->|]; [by rewrite Zdiv_0_r; word|]. apply div_u64; [done|lia]. Qed.
Lemma slen_u64 s : slen s <= MaxStringSize -> is_u64 (slen s).
Proof. unfold slen, MaxStringSize. intros. word. Qed.
Lemma bit_len_u64 a : is_u64 a -> is_u64 (bit_len a).
Proof.
  intros Ha. pose proof (bit_len_nonneg a). enough (bit_len a <= 64) by word. apply bit_len_spec; [word|lia|]. exact (proj2 Ha).
Qed.
Lemma bytes_bit_len_range l : Forall is_byte l -> 0 <= bytes_bit_len l <= 8 * llen l.
Proof.
  unfold llen. induction l as [|b l IH]; intros Hl; cbn [bytes_bit_len length]; [lia|]. apply Forall_cons in Hl as [Hb Hl].
  specialize (IH Hl). case_match; [|lia]. pose proof (bit_len_nonneg b). unfold is_byte in Hb.
  assert (bit_len b <= 8) by (apply bit_len_spec; lia). unfold llen. lia.
Qed.
Lemma convert_u64 x : is_u64 (convertBytesToInt x).
Proof.
  unfold convertBytesToInt. assert (is_u64 0) as H0 by word. revert H0. generalize 0 as out. induction (bytes_of x) as [|b l IH]; intros out Hout; cbn [fold_left]; [done|].
  apply IH, lor_u64; [apply wrap64_range|]. change 255 with (Z.ones 8). rewrite Z.land_ones by lia.
  pose proof (Z.mod_pos_bound b (2 ^ 8) ltac:(lia)). change (2 ^ 8) with 256 in *. word.
Qed.
#[local] Hint Resolve wrap64_range lor_u64 lxor_u64 ldiff_u64 div_le_u64 slen_u64 bit_len_u64 convert_u64 : words.

Ltac words_ok := split; [values; cbn [word_ok]; auto with words|cbn; lia].

(** The cases of an opcode on words or strings. *)
Ltac by_words := intros; cbv beta zeta iota in *; repeat (case_match; try discriminate); simplify_eq; words_ok.

Lemma opPlus_ok : stack_op 1 opPlus.
Proof. apply onUints_ok. unfold Add64. by_words. Qed.
Lemma opAddw_ok : stack_op 2 opAddw.
Proof. apply onUints_ok. unfold Add64. intros a b r Ha Hb [= <-]. words_ok. split; [apply Z.div_pos; word|apply Z.div_lt_upper_bound; word]. Qed.
Lemma opDivModw_ok : stack_op 4 opDivModw.
Proof.
  intros [|[a|s1] [|[b|s2] [|[c|s3] [|[d|s4] st]]]] st' Hst H; try discriminate. split_values. cbn [opDivModw] in H. case_match; [done|].
  destruct (opDivModwImpl d c b a) as [[[x y] z] w] eqn:E. injection H as <-. unfold opDivModwImpl in E.
  destruct (Z.quotrem _ _). injection E as <- <- <- <-. by repeat (apply results_push; [apply wrap64_range|]); apply results_ok.
Qed.
Lemma opMinus_ok : stack_op 1 opMinus.
Proof. apply onUints_ok. by_words. word. Qed.
Lemma opDiv_ok : stack_op 1 opDiv.
Proof. apply onUints_ok. by_words. Qed.
Lemma opModulo_ok : stack_op 1 opModulo.
Proof. apply onUints_ok. intros a b r Ha Hb. destruct (Z.eqb_spec b 0); [done|]. intros [= <-]. words_ok. pose proof (Z.mod_pos_bound a b). word. Qed.
Lemma opMul_ok : stack_op 1 opMul.
Proof. apply onUints_ok. unfold Mul64. by_words. Qed.
Lemma opMulw_ok : stack_op 2 opMulw.
Proof.
  apply onUints_ok. unfold Mul64. intros a b r Ha Hb [= <-]. words_ok. unfold is_u64 in *.
  split; [apply Z.div_pos; nia|apply Z.div_lt_upper_bound; nia].
Qed.
Lemma opDivw_ok : stack_op 1 opDivw.
Proof.
  intros [|[y|s1] [|[lo|s2] [|[hi|s3] st]]] st' Hst H; try discriminate. split_values. cbn [opDivw] in H.
  destruct (Z.eqb_spec y 0); [done|]. destruct (Z.leb_spec y hi); [done|]. injection H as <-. apply results_push; [|by apply results_ok].
  cbn. split; [apply Z.div_pos; word|apply Z.div_lt_upper_bound; word].
Qed.
Lemma opNot_keep : keep_op opNot.
Proof. intros [|[a|s1] st] st' Hst [= <-]. split_values. values. Qed.
Lemma opLt_keep : keep_op opLt.
Proof. apply onUints_keep. intros a b r [= <-]. values. Qed.
Lemma opAnd_keep : keep_op opAnd.
Proof. apply onUints_keep. intros a b r [= <-]. values. Qed.
Lemma opOr_keep : keep_op opOr.
Proof. apply onUints_keep. intros a b r [= <-]. values. Qed.
Lemma opEq_keep : keep_op opEq.
Proof. intros [|[b|b] [|[a|a] st]] st' Hst [= <-]; split_values; values. Qed.
Lemma opGt_keep : keep_op opGt.
Proof. apply keep_seq; [apply opSwap_keep|apply opLt_keep]. Qed.
Lemma opLe_keep : keep_op opLe.
Proof. apply keep_seq; [apply opGt_keep|apply opNot_keep]. Qed.
Lemma opGe_keep : keep_op opGe.
Proof. apply keep_seq; [apply opLt_keep|apply opNot_keep]. Qed.
Lemma opNeq_keep : keep_op opNeq.
Proof. apply keep_seq; [apply opEq_keep|apply opNot_keep]. Qed.
Lemma opLen_ok : stack_op 1 opLen.
Proof. apply onBytes_ok. by_words. Qed.
Lemma opItob_ok : stack_op 1 opItob.
Proof. apply onUint_ok. by_words. Qed.
Lemma opBtoi_ok : stack_op 1 opBtoi.
Proof. apply onBytes_ok. by_words. Qed.
Lemma opBitOr_ok : stack_op 1 opBitOr.
Proof. apply onUints_ok. by_words. Qed.
Lemma opBitAnd_ok : stack_op 1 opBitAnd.
Proof. apply onUints_ok. by_words. apply land_u64; word. Qed.
Lemma opBitXor_ok : stack_op 1 opBitXor.
Proof. apply onUints_ok. by_words. Qed.
Lemma opBitNot_ok : stack_op 1 opBitNot.
Proof. apply onUint_ok. by_words. apply lxor_u64; word. Qed.
Lemma opShiftLeft_ok : stack_op 1 opShiftLeft.
Proof. apply onUints_ok. by_words. Qed.
Lemma opShiftRight_ok : stack_op 1 opShiftRight.
Proof. apply onUints_ok. by_words. apply shiftr_u64; word. Qed.
Lemma opSqrt_ok : stack_op 1 opSqrt.
Proof.
  intros [|[a|s1] st] st' Hst H; try discriminate. split_values. rewrite opSqrt_spec in H by done. injection H as <-.
  apply results_push; [|by apply results_ok]. cbn. pose proof (Z.sqrt_nonneg a). pose proof (Z.sqrt_le_lin a). word.
Qed.
Lemma opBitLen_ok : stack_op 1 opBitLen.
Proof.
  intros [|[a|b] st] st' Hst [= <-]; split_values; apply results_push; try by apply results_ok; cbn.
  - by apply bit_len_u64.
  - cbn. pose proof (bytes_bit_len_range (bytes_of b) (bytes_of_range b)) as Hr. rewrite llen_bytes_of in Hr. unfold MaxStringSize in *. word.
Qed.
Lemma opExp_ok : stack_op 1 opExp.
Proof.
  apply onUints_ok. intros a b r Ha Hb (v & Hv & [= <-])%outcome_bind_Ok. words_ok.
  destruct (decide (a = 0 /\ b = 0)) as [[-> ->]|Hz]; [done|]. rewrite opExpImpl_spec in Hv by done.
  destruct (Z.ltb_spec (a ^ b) two64); [|done]. injection Hv as <-. split; [apply Z.pow_nonneg; word|done].
Qed.
Lemma opExpw_ok : stack_op 2 opExpw.
Proof. apply onUints_ok. intros a b r Ha Hb (v & Hv & [= <-])%outcome_bind_Ok. words_ok. Qed.

(** *** Byte strings *)

Lemma bytes_result n (x : string) : (1 <= n)%nat -> Forall word_ok [SBytes x] /\ (length [SBytes x] <= n)%nat.
Proof. intros Hn. split; [by repeat constructor|cbn; lia]. Qed.
#[local] Hint Resolve bytes_result : avm.

Lemma opBytesBinOp_ok op : stack_op 1 (opBytesBinOp op).
Proof.
  apply onBytess_ok. intros a b r H. case_match; [done|]. apply outcome_bind_Ok in H as (x & _ & H). case_match; [done|].
  injection H as <-. auto with avm.
Qed.
Lemma opBytesSqrt_ok : stack_op 1 opBytesSqrt.
Proof. apply onBytes_ok. intros a r _ H. case_match; [done|]. injection H as <-. auto with avm. Qed.
Lemma opBytesCmp_keep test : keep_op (opBytesCmp test).
Proof. apply onBytess_keep. intros a b r H. case_match; [done|]. injection H as <-. values. Qed.
Lemma opBytesGt_keep : keep_op opBytesGt.
Proof. apply keep_seq; [apply opSwap_keep|apply opBytesCmp_keep]. Qed.
Lemma opBytesLe_keep : keep_op opBytesLe.
Proof. apply keep_seq; [apply opBytesGt_keep|apply opNot_keep]. Qed.
Lemma opBytesGe_keep : keep_op opBytesGe.
Proof. apply keep_seq; [apply opBytesCmp_keep|apply opNot_keep]. Qed.
Lemma opBytesNeq_keep : keep_op opBytesNeq.
Proof. apply keep_seq; [apply opBytesCmp_keep|apply opNot_keep]. Qed.
Lemma opBytesLogic_ok f : stack_op 1 (opBytesLogic f).
Proof. apply onBytess_ok. intros a b r H. destruct (opBytesBinaryLogicPrep _ _). injection H as <-. auto with avm. Qed.
Lemma opBytesBitNot_ok : stack_op 1 opBytesBitNot.
Proof. apply onBytes_ok. intros a r _ [= <-]. auto with avm. Qed.
Lemma opBytesZero_ok : stack_op 1 opBytesZero.
Proof. apply onUint_ok. intros a r _ H. case_match; [done|]. injection H as <-. auto with avm. Qed.
Lemma opConcat_ok : stack_op 1 opConcat.
Proof. apply onBytess_ok. intros a b r [= <-]. auto with avm. Qed.
Lemma opSubstring_ok s e : stack_op 1 (opSubstring s e).
Proof. apply onBytes_ok. intros a r _ (x & _ & [= <-])%outcome_bind_Ok. auto with avm. Qed.
Lemma opExtract_ok s e : stack_op 1 (opExtract s e).
Proof. apply onBytes_ok. intros a r _ (x & _ & [= <-])%outcome_bind_Ok. auto with avm. Qed.
Lemma opSubstring3_ok : stack_op 1 opSubstring3.
Proof.
  intros [|[e|s1] [|[s|s2] [|[s3|x] st]]] st' Hst H; try discriminate. split_values. cbn [opSubstring3] in H. case_match; [done|].
  apply outcome_bind_Ok in H as (o & _ & [= <-]). apply results_push; [exact I|by apply results_ok].
Qed.
Lemma opExtract3_ok : stack_op 1 opExtract3.
Proof.
  intros [|[e|s1] [|[s|s2] [|[s3|x] st]]] st' Hst H; try discriminate. split_values. cbn [opExtract3] in H. case_match; [done|].
  apply outcome_bind_Ok in H as (o & _ & [= <-]). apply results_push; [exact I|by apply results_ok].
Qed.
Lemma opExtractNBytes_ok n : stack_op 1 (opExtractNBytes n).
Proof.
  intros [|[s|s1] [|[s2|x] st]] st' Hst H; try discriminate. split_values. cbn [opExtractNBytes] in H.
  apply outcome_bind_Ok in H as (o & _ & [= <-]). apply results_push; [apply convert_u64|by apply results_ok].
Qed.
Lemma byteAt_u64 x i v : byteAt x i = Ok v -> is_byte v.
Proof.
  unfold byteAt. destruct (i <? 0); [done|]. destruct (bytes_of x !! _) eqn:E; [|done]. intros [= <-].
  eapply Forall_lookup_1; [apply bytes_of_range|exact E].
Qed.
Lemma opGetBit_ok : stack_op 1 opGetBit.
Proof.
  intros [|[i|s1] [|sv st]] st' Hst H; try discriminate. apply Forall_cons in Hst as [Hi [Hsv Hst]%Forall_cons].
  destruct Hi as [Hi _]. cbn in Hi. pose proof (opGetBit_spec sv i st ltac:(word)) as Hg. destruct (bit_at sv i); [|destruct Hg; congruence].
  rewrite H in Hg. injection Hg as ->. apply results_push; [apply svBool_ok|by apply results_ok].
Qed.
Lemma opSetBit_ok : stack_op 1 opSetBit.
Proof.
  intros [|[b|s1] [|[i|s2] [|sv st]]] st' Hst H; try discriminate. apply Forall_cons in Hst as [Hb [Hi [Hsv Hst]%Forall_cons]%Forall_cons].
  cbn [opSetBit] in H. case_match; [done|]. destruct sv as [u|x]; cbn in H.
  - destruct (Z.ltb_spec 63 i); [done|]. injection H as <-. apply results_push; [|by apply results_ok]. destruct Hi as [Hi _]. cbn in Hi.
    destruct Hsv as [Hu _]. cbn in *. case_match; [|by apply ldiff_u64]. apply lor_u64; [done|]. rewrite Z.shiftl_1_l.
    split; [apply Z.pow_nonneg; lia|]. change two64 with (2 ^ 64). apply Z.pow_lt_mono_r; word.
  - case_match; [done|]. apply outcome_bind_Ok in H as (v & _ & [= <-]). apply results_push; [exact I|by apply results_ok].
Qed.
Lemma opGetByte_ok : stack_op 1 opGetByte.
Proof.
  intros [|[i|s1] [|[s2|x] st]] st' Hst H; try discriminate. split_values. cbn [opGetByte] in H. case_match; [done|].
  apply outcome_bind_Ok in H as (v & Hv%byteAt_u64 & [= <-]). unfold is_byte in Hv. apply results_push; [cbn; word|by apply results_ok].
Qed.
Lemma opSetByte_ok : stack_op 1 opSetByte.
Proof.
  intros [|[v|s1] [|[i|s2] [|[s3|x] st]]] st' Hst H; try discriminate. split_values. cbn [opSetByte] in H. case_match; [done|]. case_match; [done|].
  injection H as <-. apply results_push; [exact I|by apply results_ok].
Qed.

(** ** Machines *)

Section machines.
  Context {L : LogicHashes} {C : AvmCrypto} (E : evalEnv).

(** An inner transaction: its fields are words, and it calls an application only if
    the version of the program allows that. *)
Definition inner_ok (txn : SignedTxnWithAD) : Prop :=
  txn_typed (stad_tx txn) /\ (tx_Type (stad_tx txn) = ApplicationCallTx -> innerAppsEnabledVersion <= en_version E).
Definition group_ok (l : list SignedTxnWithAD) : Prop := Forall inner_ok l.

Definition rest_ok (m : machine) : Prop :=
  map_Forall (fun _ => value_ok) (mc_scratch m) /\ group_ok (mc_subtxns m) /\ 0 <= mc_logSize m <= MaxLogSize.
Definition machine_ok (m : machine) : Prop := Forall value_ok (mc_stack m) /\ rest_ok m.

(** After an opcode with [n] results. *)
Definition done_ok (n : nat) (m : machine) : Prop := results n (mc_stack m) /\ rest_ok m.
Definition op_ok (n : nat) (f : op) : Prop := forall m, machine_ok m -> safe group_ok (done_ok n) (f m).

Lemma done_push n sv m : word_ok sv -> done_ok n m -> done_ok (S n) (push sv m).
Proof. intros Hsv [H1 H2]. split; [by apply results_push|done]. Qed.
Lemma done_same n m : machine_ok m -> done_ok n m.
Proof. intros [H1 H2]. split; [by apply results_ok|done]. Qed.
Lemma done_bytes n b m : done_ok n m -> done_ok (S n) (push (SBytes b) m).
Proof. by apply done_push. Qed.

Lemma machine_scratch m n sv : machine_ok m -> value_ok sv ->
  machine_ok (m <| mc_scratch := <[n := sv]> (mc_scratch m) |>).
Proof. intros (H1 & H2 & H3) Hsv. split; [done|]. split; [by apply map_Forall_insert_2|done]. Qed.

Lemma load_ok m n : machine_ok m -> value_ok (loadScratch (mc_scratch m) n).
Proof. intros (_ & H & _). unfold loadScratch. destruct (mc_scratch m !! n) eqn:El; cbn; [by eapply H|apply zero_ok]. Qed.

Lemma safe_popUint PS m (Q : Z * machine -> Prop) : machine_ok m -> (forall u m', is_u64 u -> machine_ok m' -> Q (u, m')) ->
  safe PS Q (popUint m).
Proof.
  intros [Hst Hr] HQ. unfold popUint. destruct (mc_stack m) as [|[u|b] st]; try done. cbn. apply Forall_cons in Hst as [[Hu _] Hst].
  apply HQ; [done|]. by split.
Qed.
Lemma safe_popBytes PS m (Q : string * machine -> Prop) : machine_ok m -> (forall b m', slen b <= MaxStringSize -> machine_ok m' -> Q (b, m')) ->
  safe PS Q (popBytes m).
Proof.
  intros [Hst Hr] HQ. unfold popBytes. destruct (mc_stack m) as [|[u|b] st]; try done. cbn. apply Forall_cons in Hst as [[_ Hu] Hst].
  apply HQ; [done|]. by split.
Qed.
Lemma safe_popAny PS m (Q : stackValue * machine -> Prop) : machine_ok m -> (forall sv m', value_ok sv -> machine_ok m' -> Q (sv, m')) ->
  safe PS Q (popAny m).
Proof.
  intros [Hst Hr] HQ. unfold popAny. destruct (mc_stack m) as [|sv st]; try done. cbn. apply Forall_cons in Hst as [Hsv Hst].
  apply HQ; [done|]. by split.
Qed.

(** Trees that give a value. *)
Definition gives (p : prog stackValue) : Prop := safe group_ok word_ok p.

Lemma getTxID_any PS txn gi : safe PS (fun _ => True) (getTxID txn gi).
Proof. unfold getTxID. tree_step. tree_step. by tree_step. Qed.

Lemma txnFieldToStack_ok stxn fs ai gi inner : gives (txnFieldToStack E stxn fs ai gi inner).
Proof.
  unfold gives, txnFieldToStack. do 3 (tree_step; tree_step). tree_step. eapply (safe_mono _ word_ok).
  { intros sv Hsv. tree_step. by erewrite declared_Ok. }
  case_match; [|apply safe_tlift; eauto with avm]. tree_step. eapply safe_mono; [|apply getTxID_any]. by intros txid _.
Qed.

Lemma opTxnImpl_ok gi src field ai ea : gives (opTxnImpl E gi src field ai ea).
Proof. unfold gives, opTxnImpl. do 3 (tree_step; tree_step). apply txnFieldToStack_ok. Qed.

Lemma globalFieldToValue_ok m fs : gives (globalFieldToValue E m fs).
Proof.
  unfold gives, globalFieldToValue. tree_step. eapply (safe_mono _ word_ok).
  { intros sv Hsv. tree_step. by erewrite declared_Ok. }
  unfold getLatestTimestamp, getCreatorAddress. destruct (GlobalField.field fs); repeat tree_step; try solve [auto with avm | exact I].
  case_match; auto with avm.
Qed.

Lemma opGloadImpl_ok gi i : gives (opGloadImpl E gi i).
Proof.
  apply safe_tread. intros st sv H. do 4 (apply outcome_bind_Ok in H as (? & _ & H)). case_match; [|done]. injection H as <-.
  unfold word. case_match; [apply svUint_ok|exact I].
Qed.

Lemma opGaidImpl_ok gi : gives (opGaidImpl E gi).
Proof.
  apply safe_tread. intros st sv H. do 4 (apply outcome_bind_Ok in H as (? & _ & H)). cbv zeta in H.
  repeat (case_match; try discriminate); simplify_eq; auto with avm.
Qed.

Lemma stored_ok r : safe group_ok (fun p => word_ok p.1) (stored r).
Proof. unfold stored. destruct r as [tv []]; repeat tree_step; cbn; eauto with avm. word. Qed.

Lemma opAppLocalGetImpl_ok appID key acct : safe group_ok (fun p => word_ok p.1) (opAppLocalGetImpl E appID key acct).
Proof. unfold opAppLocalGetImpl. repeat (lazymatch goal with |- safe _ _ (stored _) => fail | _ => tree_step end). apply stored_ok. Qed.
Lemma opAppGetGlobalStateImpl_ok appID key : safe group_ok (fun p => word_ok p.1) (opAppGetGlobalStateImpl E appID key).
Proof. unfold opAppGetGlobalStateImpl. repeat (lazymatch goal with |- safe _ _ (stored _) => fail | _ => tree_step end). apply stored_ok. Qed.

Lemma record_any f (Q : unit -> Prop) : Q tt -> safe group_ok Q (record E f).
Proof. intros HQ. unfold record. by repeat tree_step. Qed.

End machines.
