(* ===== verification/AvmOpsTyped.v ===== *)
(** Every row of the table of opcodes keeps the types of the machine, hence so does a
    step of the interpreter; the transactions a program submits are typed, so the
    evaluation of applications by the interpreter conserves money. *)
From S2P Require Import Prelude Config Basics Transactions Bookkeeping StateDelta CompactCert Cow.
From S2P Require Import CowFacts CowStorage Balances CowBalances Apply ApplyFacts ApplyCorrect Eval EvalFacts EvalMoney.
From S2P Require Import Conserve AvmValue LogicParams LogicLedger LogicEval LogicFacts LogicMoney LogicCorrect.
From S2P Require Import AvmFields AvmMachine AvmOps AvmLoop AvmMath AvmTyped.
#[local] Open Scope string_scope.
#[local] Open Scope list_scope.
#[local] Open Scope Z_scope.

Section ops_typed.
  Context {L : LogicHashes} {C : AvmCrypto} (E : evalEnv).
#[local] Notation machine_ok := (machine_ok E).
#[local] Notation done_ok := (done_ok E).
#[local] Notation op_ok := (op_ok E).

(** ** Leaves *)

Lemma done_nextpc n m pc : done_ok n m -> done_ok n (m <| mc_nextpc := pc |>).
Proof. done. Qed.
Lemma machine_nextpc m pc : machine_ok m -> machine_ok (m <| mc_nextpc := pc |>).
Proof. done. Qed.
Lemma machine_callstack m cs : machine_ok m -> machine_ok (m <| mc_callstack := cs |>).
Proof. done. Qed.
Lemma machine_intc m c : machine_ok m -> machine_ok (m <| mc_intc := c |>).
Proof. done. Qed.
Lemma machine_bytec m c : machine_ok m -> machine_ok (m <| mc_bytec := c |>).
Proof. done. Qed.
Lemma machine_subtxns m l : machine_ok m -> group_ok E l -> machine_ok (m <| mc_subtxns := l |>).
Proof. intros (H1 & H2 & H3 & H4) Hl. by split_and!. Qed.
Lemma machine_logSize m n : machine_ok m -> 0 <= n <= MaxLogSize -> machine_ok (m <| mc_logSize := n |>).
Proof. intros (H1 & H2 & H3 & H4) Hn. by split_and!. Qed.
Lemma machine_stack m st : machine_ok m -> Forall value_ok st -> machine_ok (setStack st m).
Proof. intros (H1 & H2) Hn. by split. Qed.

Ltac leaf :=
  repeat first
    [ apply done_nextpc | apply done_push; [solve [auto with avm | exact I | assumption | eauto with avm]|]
    | (apply done_same; repeat first [assumption | apply machine_nextpc | apply machine_callstack | apply machine_intc | apply machine_bytec]) ].

Ltac op_walk :=
  repeat first
    [ progress cbv beta iota
    | eapply safe_popUint; [eassumption|intros ? ? ? ?]
    | eapply safe_popBytes; [eassumption|intros ? ? ? ?]
    | eapply safe_popAny; [eassumption|intros ? ? ? ?]
    | (apply record_any)
    | (lazymatch goal with
       | |- safe _ _ (opTxnImpl _ _ _ _ _ _) => eapply safe_mono; [|apply opTxnImpl_ok]; intros ? ?
       | |- safe _ _ (globalFieldToValue _ _ _) => eapply safe_mono; [|apply globalFieldToValue_ok]; intros ? ?
       | |- safe _ _ (opGloadImpl _ _ _) => eapply safe_mono; [|apply opGloadImpl_ok]; intros ? ?
       | |- safe _ _ (opGaidImpl _ _) => eapply safe_mono; [|apply opGaidImpl_ok]; intros ? ?
       | |- safe _ _ (opAppLocalGetImpl _ _ _ _) => eapply safe_mono; [|apply opAppLocalGetImpl_ok]; intros [? ?] ?
       | |- safe _ _ (opAppGetGlobalStateImpl _ _ _) => eapply safe_mono; [|apply opAppGetGlobalStateImpl_ok]; intros [? ?] ?
       end)
    | tree_step ].

(** ** The opcodes of [AvmValue] *)

Lemma onStack_ok n f : stack_op n f -> op_ok n (onStack f).
Proof. intros Hf m [Hst Hr]. unfold onStack. op_walk. split; [by eapply Hf|done]. Qed.
Lemma onStack1_ok n f : (forall a, stack_op n (f a)) -> op_ok n (onStack1 E f).
Proof. intros Hf m Hm. unfold onStack1. tree_step. tree_step. by apply onStack_ok. Qed.
Lemma onStack2_ok n f : (forall a b, stack_op n (f a b)) -> op_ok n (onStack2 E f).
Proof. intros Hf m Hm. unfold onStack2. do 4 tree_step. by apply onStack_ok. Qed.

Lemma hash_ok (h : string -> string) : stack_op 1 (onBytes (fun b => Ok [SBytes (h b)])).
Proof. apply onBytes_ok. intros a r _ [= <-]. split; [values; exact I|cbn; lia]. Qed.

(** ** Control, constants, scratch space *)

Lemma opReturn_ok : op_ok 0 (opReturn E).
Proof.
  intros m (Hst & Hr). unfold opReturn. destruct (mc_stack m) as [|sv st]; [done|]. apply Forall_cons in Hst as [Hsv _].
  apply safe_ret. split; [|done]. change (results 0 [sv]). apply results_ok. values.
Qed.
Lemma opB_ok : op_ok 0 (opB E).
Proof. intros m Hm. unfold opB. op_walk. leaf. Qed.
Lemma opBranchIf_ok test : op_ok 0 (opBranchIf E test).
Proof.
  intros m (Hst & Hr). unfold opBranchIf. destruct (mc_stack m) as [|[c|b] st]; try done. apply Forall_cons in Hst as [_ Hst]. cbv zeta.
  assert (machine_ok (setStack st m <| mc_nextpc := mc_pc m + 3 |>)) as Hm by (by split). case_match; [by apply opB_ok|]. op_walk. leaf.
Qed.
Lemma opCallSub_ok : op_ok 0 (opCallSub E).
Proof. intros m Hm. unfold opCallSub. by apply opB_ok. Qed.
Lemma opRetSub_ok : op_ok 0 opRetSub.
Proof. intros m Hm. unfold opRetSub. op_walk. leaf. Qed.
Lemma opIntConstBlock_ok : op_ok 0 (opIntConstBlock E).
Proof. intros m Hm. unfold opIntConstBlock. op_walk. leaf. Qed.
Lemma opIntConstN_ok n : op_ok 1 (opIntConstN n).
Proof. intros m Hm. unfold opIntConstN. op_walk. leaf. Qed.
Lemma opIntConstLoad_ok : op_ok 1 (opIntConstLoad E).
Proof. intros m Hm. unfold opIntConstLoad. do 2 tree_step. by apply opIntConstN_ok. Qed.
Lemma opPushInt_ok : op_ok 1 (opPushInt E).
Proof. intros m Hm. unfold opPushInt. op_walk. leaf. Qed.
Lemma opByteConstBlock_ok : op_ok 0 (opByteConstBlock E).
Proof. intros m Hm. unfold opByteConstBlock. op_walk. leaf. Qed.
Lemma opByteConstN_ok n : op_ok 1 (opByteConstN n).
Proof. intros m Hm. unfold opByteConstN. op_walk. leaf. Qed.
Lemma opByteConstLoad_ok : op_ok 1 (opByteConstLoad E).
Proof. intros m Hm. unfold opByteConstLoad. do 2 tree_step. by apply opByteConstN_ok. Qed.
Lemma opPushBytes_ok : op_ok 1 (opPushBytes E).
Proof. intros m Hm. unfold opPushBytes. op_walk. leaf. Qed.
Lemma opArgN_ok n : op_ok 1 (opArgN E n).
Proof. intros m Hm. unfold opArgN. op_walk. leaf. Qed.
Lemma opArg_ok : op_ok 1 (opArg E).
Proof. intros m Hm. unfold opArg. do 2 tree_step. by apply opArgN_ok. Qed.
Lemma opArgs_ok : op_ok 1 (opArgs E).
Proof. intros m Hm. unfold opArgs. tree_step. eapply safe_popUint; [done|]. intros u m' _ Hm'. by apply opArgN_ok. Qed.

Lemma storeScratch_ok n sv m k : machine_ok m -> value_ok sv -> safe (group_ok E) (done_ok k) (storeScratch n sv m).
Proof. intros Hm Hsv. unfold storeScratch. op_walk. by apply done_same, machine_scratch. Qed.
Lemma opLoad_ok : op_ok 1 (opLoad E).
Proof. intros m Hm. unfold opLoad. op_walk. apply done_push; [by eapply value_word, load_ok|leaf]. Qed.
Lemma opLoads_ok : op_ok 1 opLoads.
Proof. intros m Hm. unfold opLoads. op_walk. apply done_push; [by eapply value_word, load_ok|leaf]. Qed.
Lemma opStore_ok : op_ok 0 (opStore E).
Proof.
  intros m Hm. unfold opStore. do 3 tree_step. eapply safe_popAny; [done|]. intros sv m' Hsv Hm'. by apply storeScratch_ok.
Qed.
Lemma opStores_ok : op_ok 0 opStores.
Proof.
  intros m Hm. unfold opStores. tree_step. eapply safe_popAny; [done|]. intros sv m' Hsv Hm'. tree_step. eapply safe_popUint; [done|].
  intros n m'' Hn Hm''. do 2 tree_step. by apply storeScratch_ok.
Qed.
Lemma opGload_ok : op_ok 1 (opGload E).
Proof. intros m Hm. unfold opGload. op_walk. leaf. Qed.
Lemma opGloads_ok : op_ok 1 (opGloads E).
Proof. intros m Hm. unfold opGloads. op_walk. leaf. Qed.
Lemma opGloadss_ok : op_ok 1 (opGloadss E).
Proof. intros m Hm. unfold opGloadss. op_walk. leaf. Qed.

(** ** Transactions, global fields, signatures and the ledger *)

Lemma opTxn_ok : op_ok 1 (opTxn E).
Proof. intros m Hm. unfold opTxn. op_walk; leaf. Qed.
Lemma opTxna_ok : op_ok 1 (opTxna E).
Proof. intros m Hm. unfold opTxna. op_walk; leaf. Qed.
Lemma opTxnas_ok : op_ok 1 (opTxnas E).
Proof. intros m Hm. unfold opTxnas. op_walk; leaf. Qed.
Lemma opGtxn_ok : op_ok 1 (opGtxn E).
Proof. intros m Hm. unfold opGtxn. op_walk; leaf. Qed.
Lemma opGtxna_ok : op_ok 1 (opGtxna E).
Proof. intros m Hm. unfold opGtxna. op_walk; leaf. Qed.
Lemma opGtxnas_ok : op_ok 1 (opGtxnas E).
Proof. intros m Hm. unfold opGtxnas. op_walk; leaf. Qed.
Lemma opGtxns_ok : op_ok 1 (opGtxns E).
Proof. intros m Hm. unfold opGtxns. op_walk; leaf. Qed.
Lemma opGtxnsa_ok : op_ok 1 (opGtxnsa E).
Proof. intros m Hm. unfold opGtxnsa. op_walk; leaf. Qed.
Lemma opGtxnsas_ok : op_ok 1 (opGtxnsas E).
Proof. intros m Hm. unfold opGtxnsas. op_walk; leaf. Qed.
Lemma opItxn_ok : op_ok 1 (opItxn E).
Proof. intros m Hm. unfold opItxn. op_walk; leaf. Qed.
Lemma opItxna_ok : op_ok 1 (opItxna E).
Proof. intros m Hm. unfold opItxna. op_walk; leaf. Qed.
Lemma opItxnas_ok : op_ok 1 (opItxnas E).
Proof. intros m Hm. unfold opItxnas. op_walk; leaf. Qed.
Lemma opGitxn_ok : op_ok 1 (opGitxn E).
Proof. intros m Hm. unfold opGitxn. op_walk; leaf. Qed.
Lemma opGitxna_ok : op_ok 1 (opGitxna E).
Proof. intros m Hm. unfold opGitxna. op_walk; leaf. Qed.
Lemma opGitxnas_ok : op_ok 1 (opGitxnas E).
Proof. intros m Hm. unfold opGitxnas. op_walk; leaf. Qed.
Lemma opGaid_ok : op_ok 1 (opGaid E).
Proof. intros m Hm. unfold opGaid. op_walk; leaf. Qed.
Lemma opGaids_ok : op_ok 1 (opGaids E).
Proof. intros m Hm. unfold opGaids. op_walk; leaf. Qed.
Lemma opGlobal_ok : op_ok 1 (opGlobal E).
Proof. intros m Hm. unfold opGlobal. op_walk; leaf. Qed.
Lemma opEd25519verify_ok : op_ok 1 (opEd25519verify E).
Proof. intros m Hm. unfold opEd25519verify. op_walk; leaf. Qed.
Lemma opBalance_ok : op_ok 1 (opBalance E).
Proof. intros m Hm. unfold opBalance, accountData. op_walk; leaf. Qed.
Lemma opMinBalance_ok : op_ok 1 (opMinBalance E).
Proof. intros m Hm. unfold opMinBalance, accountData. op_walk; leaf. Qed.
Lemma opAppOptedIn_ok : op_ok 1 (opAppOptedIn E).
Proof. intros m Hm. unfold opAppOptedIn. op_walk; leaf. Qed.
Lemma opAppLocalGet_ok : op_ok 1 (opAppLocalGet E).
Proof. intros m Hm. unfold opAppLocalGet. op_walk; leaf. Qed.
Lemma opAppGlobalGet_ok : op_ok 1 (opAppGlobalGet E).
Proof. intros m Hm. unfold opAppGlobalGet. op_walk; leaf. Qed.
Lemma opAppLocalGetEx_ok : op_ok 2 (opAppLocalGetEx E).
Proof. intros m Hm. unfold opAppLocalGetEx. op_walk; leaf. Qed.
Lemma opAppGlobalGetEx_ok : op_ok 2 (opAppGlobalGetEx E).
Proof. intros m Hm. unfold opAppGlobalGetEx. op_walk; leaf. Qed.
Lemma opAssetHoldingGet_ok : op_ok 2 (opAssetHoldingGet E).
Proof. intros m Hm. unfold opAssetHoldingGet. op_walk; leaf. Qed.
Lemma opAssetParamsGet_ok : op_ok 2 (opAssetParamsGet E).
Proof. intros m Hm. unfold opAssetParamsGet. op_walk; leaf. Qed.
Lemma opAppParamsGet_ok : op_ok 2 (opAppParamsGet E).
Proof. intros m Hm. unfold opAppParamsGet. op_walk; leaf. Qed.
Lemma opAcctParamsGet_ok : op_ok 2 (opAcctParamsGet E).
Proof. intros m Hm. unfold opAcctParamsGet. op_walk. destruct (AcctParamsField.field _); leaf. Qed.
Lemma opAppLocalPut_ok : op_ok 0 (opAppLocalPut E).
Proof. intros m Hm. unfold opAppLocalPut, recordLocal, recordGlobal. op_walk; leaf. Qed.
Lemma opAppGlobalPut_ok : op_ok 0 (opAppGlobalPut E).
Proof. intros m Hm. unfold opAppGlobalPut, recordLocal, recordGlobal. op_walk; leaf. Qed.
Lemma opAppLocalDel_ok : op_ok 0 (opAppLocalDel E).
Proof. intros m Hm. unfold opAppLocalDel, recordLocal, recordGlobal. op_walk; leaf. Qed.
Lemma opAppGlobalDel_ok : op_ok 0 (opAppGlobalDel E).
Proof. intros m Hm. unfold opAppGlobalDel, recordLocal, recordGlobal. op_walk; leaf. Qed.

Lemma ecdsaCurve_any m (Q : unit -> Prop) : Q tt -> safe (group_ok E) Q (ecdsaCurve E m).
Proof. intros HQ. unfold ecdsaCurve. do 2 tree_step. by tree_step. Qed.
Lemma opEcdsaVerify_ok : op_ok 1 (opEcdsaVerify E).
Proof. intros m Hm. unfold opEcdsaVerify. tree_step. apply ecdsaCurve_any. op_walk. leaf. Qed.
Lemma opEcdsaPkDecompress_ok : op_ok 2 (opEcdsaPkDecompress E).
Proof. intros m Hm. unfold opEcdsaPkDecompress. tree_step. apply ecdsaCurve_any. op_walk. leaf. Qed.
Lemma opEcdsaPkRecover_ok : op_ok 2 (opEcdsaPkRecover E).
Proof. intros m Hm. unfold opEcdsaPkRecover. tree_step. apply ecdsaCurve_any. op_walk. leaf. Qed.

Lemma opLog_ok : op_ok 0 (opLog E).
Proof.
  intros m Hm. unfold opLog. do 4 tree_step. tree_step. eapply safe_popBytes; [done|]. intros log m' _ Hm'. cbv iota beta.
  do 3 tree_step. apply record_any. tree_step.
  apply done_same, machine_logSize; [done|]. destruct Hm' as (_ & _ & _ & Hl). split; [unfold slen; lia|by apply Z.ltb_ge].
Qed.

(** ** Inner transactions *)

Lemma SubSaturate_u64 a b : is_u64 (SubSaturate a b).
Proof. unfold SubSaturate, OSub. cbn. case_match; [word|apply wrap64_range]. Qed.

Lemma addInnerTxn_ok subtxns st l : group_ok E subtxns -> addInnerTxn (en_cx E) subtxns st = Ok l -> group_ok E l.
Proof.
  intros Hg H. unfold addInnerTxn in H. destruct st as [sh ep]. cbv zeta in H. apply outcome_bind_Ok in H as (? & _ & H).
  apply outcome_bind_Ok in H as (? & _ & H). apply outcome_bind_Ok in H as (? & _ & [= <-]). apply Forall_app. split; [done|].
  constructor; [|constructor]. split; [|done]. split_and!; cbn; try word. case_match; [apply SubSaturate_u64|word].
Qed.
Lemma txBegin_ok : op_ok 0 (txBegin E).
Proof.
  intros m Hm. unfold txBegin. tree_step. tree_step. tree_step. apply done_same, machine_subtxns; [done|].
  match goal with H : opTxBegin _ _ _ = _ |- _ => do 3 (apply outcome_bind_Ok in H as (? & _ & H)); eapply addInnerTxn_ok; [|exact H] end. apply Hm.
Qed.
Lemma txNext_ok : op_ok 0 (txNext E).
Proof.
  intros m Hm. unfold txNext. tree_step. tree_step. tree_step. apply done_same, machine_subtxns; [done|].
  match goal with H : opTxNext _ _ _ = _ |- _ => apply outcome_bind_Ok in H as (? & _ & H); eapply addInnerTxn_ok; [|exact H] end. apply Hm.
Qed.
Lemma txSubmit_ok : op_ok 0 txSubmit.
Proof.
  intros m Hm. unfold txSubmit, tsubmit. tree_step. split; [apply Hm|]. apply safe_ret, done_same, machine_subtxns; [done|constructor].
Qed.

Definition tx_ok (tx : Transaction) : Prop :=
  txn_typed tx /\ (tx_Type tx = ApplicationCallTx -> innerAppsEnabledVersion <= en_version E).

Lemma sv_uint_u64 sv u : word_ok sv -> sv_uint sv = Ok u -> is_u64 u.
Proof. destruct sv; cbn; [|done]. by intros ? [= <-]. Qed.

(** The setters of the parts whose fields are all free. *)
Ltac same_fields H := apply outcome_bind_Ok in H as (? & _ & [= <-]); assumption.
Ltac sets_word Hsv Ht H :=
  apply outcome_bind_Ok in H as (? & Hu%(sv_uint_u64 _ _ Hsv) & [= <-]); destruct Ht as ((? & ? & ? & ?) & ?);
  refine (conj (conj _ (conj _ (conj _ _))) _); assumption.

Lemma innerType_ok ty tx tx' : (if innerTypeAllowed E ty then Ok (tx <| tx_Type := ty |>) else Err (Errorf "is not a valid Type for itxn_field")) = Ok tx' ->
  tx_ok tx -> tx_ok tx'.
Proof.
  destruct (innerTypeAllowed E ty) eqn:Ea; [|done]. intros [= <-] [Ht _]. split; [exact Ht|]. cbn. intros ->. unfold innerTypeAllowed in Ea. cbn in Ea.
  by apply Z.leb_le in Ea.
Qed.

Lemma stackIntoTxnField_ok st sv f tx tx' : word_ok sv -> stackIntoTxnField E st sv f tx = Ok tx' -> tx_ok tx -> tx_ok tx'.
Proof.
  intros Hsv H Ht. destruct f; cbn [stackIntoTxnField] in H; cbv zeta in H; try discriminate H;
    unfold setHeader, setKeyreg, setPayment, setAssetTransfer, setAssetParams, setAssetFreeze, setApplicationCall in H;
    try solve [same_fields H | sets_word Hsv Ht H].
  - destruct sv; [done|]. destruct (innerTypeByName _); [|done]. by eapply innerType_ok.
  - apply outcome_bind_Ok in H as (i & _ & H). case_match; [|done]. apply outcome_bind_Ok in H as (ty & _ & H). by eapply innerType_ok.
  - destruct sv; [done|]. case_match; [done|]. same_fields H.
Qed.

Lemma opTxField_ok : op_ok 0 (opTxField E).
Proof.
  intros m Hm. unfold opTxField. destruct (list.last (mc_subtxns m)) as [sub|] eqn:El; [|done]. do 2 tree_step.
  destruct (txnFieldSpecByField _) as [fs|]; [|done]. do 3 tree_step. eapply safe_popAny; [done|]. intros sv m' Hsv Hm'. cbv iota beta.
  do 3 tree_step. apply done_same, machine_subtxns; [done|]. apply Forall_app. destruct Hm' as (_ & _ & Hg & _). split; [by apply Forall_take|].
  constructor; [|constructor]. destruct Hm as (_ & _ & Hg' & _). apply last_Some_elem_of in El. unfold group_ok in Hg'. rewrite Forall_forall in Hg'. specialize (Hg' _ El).
  eapply stackIntoTxnField_ok; [by apply value_word|eassumption|exact Hg'].
Qed.

End ops_typed.

(** ** The table *)

Create HintDb opcodes.
#[local] Hint Resolve hash_ok keep_stack_op onStack_ok onStack1_ok onStack2_ok
  opErr_ok opAssert_ok opSelect_ok opPop_ok opDup_ok opDup2_ok opDig_ok opCover_ok opUncover_ok opPlus_ok opAddw_ok
  opDivModw_ok opMinus_ok opDiv_ok opModulo_ok opMul_ok opMulw_ok opDivw_ok opLen_ok opItob_ok opBtoi_ok opBitOr_ok
  opBitAnd_ok opBitXor_ok opBitNot_ok opShiftLeft_ok opShiftRight_ok opSqrt_ok opBitLen_ok opExp_ok opExpw_ok
  opBytesBinOp_ok opBytesSqrt_ok opBytesLogic_ok opBytesBitNot_ok opBytesZero_ok opConcat_ok opSubstring_ok
  opExtract_ok opSubstring3_ok opExtract3_ok opExtractNBytes_ok opGetBit_ok opSetBit_ok opGetByte_ok opSetByte_ok
  opSwap_keep opNot_keep opLt_keep opAnd_keep opOr_keep opEq_keep opGt_keep opLe_keep opGe_keep opNeq_keep
  opBytesCmp_keep opBytesGt_keep opBytesLe_keep opBytesGe_keep opBytesNeq_keep
  opReturn_ok opB_ok opBranchIf_ok opCallSub_ok opRetSub_ok opIntConstBlock_ok opIntConstN_ok opIntConstLoad_ok
  opPushInt_ok opByteConstBlock_ok opByteConstN_ok opByteConstLoad_ok opPushBytes_ok opArgN_ok opArg_ok opArgs_ok
  opLoad_ok opLoads_ok opStore_ok opStores_ok opGload_ok opGloads_ok opGloadss_ok opTxn_ok opTxna_ok opTxnas_ok
  opGtxn_ok opGtxna_ok opGtxnas_ok opGtxns_ok opGtxnsa_ok opGtxnsas_ok opItxn_ok opItxna_ok opItxnas_ok opGitxn_ok
  opGitxna_ok opGitxnas_ok opGaid_ok opGaids_ok opGlobal_ok opEd25519verify_ok opBalance_ok opMinBalance_ok
  opAppOptedIn_ok opAppLocalGet_ok opAppGlobalGet_ok opAppLocalGetEx_ok opAppGlobalGetEx_ok opAssetHoldingGet_ok
  opAssetParamsGet_ok opAppParamsGet_ok opAcctParamsGet_ok opAppLocalPut_ok opAppGlobalPut_ok opAppLocalDel_ok
  opAppGlobalDel_ok opEcdsaVerify_ok opEcdsaPkDecompress_ok opEcdsaPkRecover_ok opLog_ok txBegin_ok txNext_ok
  txSubmit_ok opTxField_ok : opcodes.
#[local] Hint Unfold pure opSHA256 opKeccak256 opSHA512_256 opBnz opBz opExtract16Bits opExtract32Bits opExtract64Bits
  opBytesPlus opBytesMinus opBytesDiv opBytesMul opBytesModulo opBytesLt opBytesEq opBytesBitOr opBytesBitAnd opBytesBitXor : opcodes.

Section table_typed.
  Context {L : LogicHashes} {C : AvmCrypto}.

Definition row_ok (spec : OpSpec) : Prop := forall E, op_ok E (length (os_Returns spec)) (os_op spec E).

Lemma OpSpecs_typed : Forall row_ok OpSpecs.
Proof.
  unfold OpSpecs.
  repeat first [apply List.Forall_nil | apply List.Forall_cons; [unfold row_ok; intros E; cbn [os_Returns os_op length]; autounfold with opcodes; auto with opcodes|]].
Qed.

Lemma last_filter {A} (f : A -> bool) l x : list.last (List.filter f l) = Some x -> x ∈ l.
Proof. intros [H _]%last_Some_elem_of%list_elem_of_In%List.filter_In. by apply list_elem_of_In. Qed.

Lemma introduced_row version opcode spec : introduced version opcode = Some spec -> spec ∈ OpSpecs.
Proof. apply last_filter. Qed.

Lemma opsByVersion_row version opcode spec : opsByVersion version opcode = Some spec -> spec ∈ OpSpecs.
Proof.
  induction version as [|v IH]; [discriminate|]. cbn [opsByVersion]. generalize (introduced_row (Z.of_nat (S v)) opcode).
  destruct (introduced (Z.of_nat (S v)) opcode) as [spec'|]; [|intros _; exact IH]. intros Hi [= <-]. by apply Hi.
Qed.

Lemma opsByOpcode_row version opcode spec : opsByOpcode version opcode = Some spec -> spec ∈ OpSpecs.
Proof. apply opsByVersion_row. Qed.

Lemma op_typed version opcode spec E : opsByOpcode version opcode = Some spec -> op_ok E (length (os_Returns spec)) (os_op spec E).
Proof. intros Hs%opsByOpcode_row. pose proof OpSpecs_typed as Ht. rewrite Forall_forall in Ht. by apply (Ht _ Hs). Qed.

Lemma OpSpecs_cost : Forall (fun spec => 0 < od_Cost (os_Details spec)) OpSpecs.
Proof. unfold OpSpecs. repeat first [apply List.Forall_nil | apply List.Forall_cons; [reflexivity|]]. Qed.

Lemma op_cost version opcode spec : opsByOpcode version opcode = Some spec -> 0 < od_Cost (os_Details spec).
Proof. intros Hs%opsByOpcode_row. pose proof OpSpecs_cost as Ht. rewrite Forall_forall in Ht. by apply (Ht _ Hs). Qed.

(** ** The loop *)

Section loop_typed.
  Context (E : evalEnv).

(** The invariant of the loop. *)
Definition typed (m : machine) : Prop := machine_ok E m /\ llen (mc_stack m) <= MaxStackDepth.

Lemma resultsOk_values n returns st : length returns = n -> resultsOk returns st = Ok tt -> results n st -> Forall value_ok st.
Proof.
  intros <- H [Hw Hd]. apply outcome_bind_Ok in H as (? & _ & H%failIf_Ok). rewrite <- (take_drop (length returns) st). apply Forall_app. split; [|done].
  apply Forall_forall. intros sv Hsv. split.
  - rewrite Forall_forall in Hw. apply Hw. by eapply elem_of_take in Hsv as (i & Hi%list_elem_of_lookup_2 & _).
  - destruct (Z.le_gt_cases (slen (sv_Bytes sv)) MaxStringSize) as [|Hgt]; [done|].
    assert (existsb (fun sv => MaxStringSize <? slen (sv_Bytes sv)) (take (length returns) st) = true) as Hx; [|congruence].
    apply existsb_exists. exists sv. split; [by apply list_elem_of_In|by apply Z.ltb_lt].
Qed.

(** The machine after an opcode, at its next instruction. *)
Definition advanced (spec : OpSpec) (m : machine) : machine :=
  if negb (mc_nextpc m =? 0) then m <| mc_pc := mc_nextpc m |> <| mc_nextpc := 0 |>
  else m <| mc_pc := mc_pc m + od_Size (os_Details spec) |>.

(** What a step does, but for its opcode. *)
Lemma step_safe PS Q m :
  (forall opcode spec, byteAt (en_program E) (mc_pc m) = Ok opcode -> opsByOpcode (en_version E) opcode = Some spec ->
     safe PS (fun m' => resultsOk (os_Returns spec) (mc_stack m') = Ok tt -> llen (mc_stack m') <= MaxStackDepth -> Q (advanced spec m'))
       (os_op spec E (m <| mc_cost := mc_cost m + od_Cost (os_Details spec) |>))) ->
  safe PS Q (step E m).
Proof.
  intros Hop. unfold step. do 2 tree_step. destruct (opsByOpcode _ _) as [spec|] eqn:Es; [|done].
  do 8 tree_step. cbv zeta. do 5 tree_step. tree_step; [by eapply op_cost|]. do 2 tree_step.
  eapply safe_mono; [|by eapply Hop]. cbv beta zeta. intros m' HQ. do 6 tree_step. tree_step.
  match goal with H : resultsOk _ _ = Ok ?u |- _ => destruct u; apply HQ; [exact H|by apply Z.ltb_ge] end.
Qed.

Lemma advanced_typed spec m : machine_ok E m -> llen (mc_stack m) <= MaxStackDepth -> typed (advanced spec m).
Proof. intros Hm Hd. unfold advanced. by case_match. Qed.

Lemma step_typed m : typed m -> safe (group_ok E) typed (step E m).
Proof.
  intros [Hm _]. apply step_safe. intros opcode spec _ Hs. eapply safe_mono; [|by eapply op_typed]. intros m' [Hr Hrest] Hres Hd.
  apply advanced_typed; [|done]. split; [by eapply resultsOk_values|done].
Qed.

Lemma run_typed fuel : forall m, typed m -> safe (group_ok E) (fun _ => True) (run E fuel m).
Proof.
  induction fuel as [|fuel IH]; intros m Hm; cbn [run]; (case_match; [|unfold finish; by repeat case_match]); [done|].
  apply safe_bind. eapply safe_mono; [|by apply step_typed]. exact IH.
Qed.

Lemma initial_typed pc : typed (initial pc).
Proof. split; [|done]. split; [constructor|]. split_and!; try done. constructor. Qed.

Lemma execute_typed : safe (group_ok E) (fun _ => True) (execute E).
Proof. unfold execute. destruct (ProgramVersion _) as [[v vlen]| |]; [|done..]. intros st. apply run_typed, initial_typed. Qed.

(** The machines a program passes through, whatever it is told. *)
Inductive reachable : machine -> Prop :=
| reach_initial version vlen : ProgramVersion (en_program E) = Ok (version, vlen) -> reachable (initial vlen)
| reach_step m m' : reachable m -> mc_pc m < slen (en_program E) -> leads (step E m) m' -> reachable m'.

(** C5 (type): whatever a program does and whatever the ledger answers, the machine
    that runs it keeps its types.  Every value on the stack and in the scratch space
    is a 64-bit word or a string of at most 4096 bytes, the stack holds at most 1000
    values, the logs stay within their limit, and the inner transactions being built
    have 64-bit fields and call applications only if the version of the program
    allows that. *)
Theorem machine_typed m : reachable m ->
  Forall (fun sv => match sv with SUint u => is_u64 u | SBytes b => slen b <= MaxStringSize end) (mc_stack m) /\
  llen (mc_stack m) <= MaxStackDepth /\
  (forall i sv, mc_scratch m !! i = Some sv -> match sv with SUint u => is_u64 u | SBytes b => slen b <= MaxStringSize end) /\
  0 <= mc_logSize m <= MaxLogSize /\
  Forall (fun sub => txn_typed (stad_tx sub) /\
    (tx_Type (stad_tx sub) = ApplicationCallTx -> innerAppsEnabledVersion <= en_version E)) (mc_subtxns m).
Proof.
  intros Hr. assert (typed m) as [(Hst & Hsc & Hg & Hl) Hd].
  { induction Hr as [version vlen Hv|m m' Hr IH Hpc Hl]; [apply initial_typed|]. eapply safe_leads; [by apply step_typed|exact Hl]. }
  assert (forall sv, value_ok sv -> match sv with SUint u => is_u64 u | SBytes b => slen b <= MaxStringSize end) as Hv by (by intros [u|b] []).
  refine (conj _ (conj Hd (conj _ (conj Hl Hg)))).
  - eapply Forall_impl; [exact Hst|exact Hv].
  - intros i sv Hi. apply Hv, (Hsc i _ Hi).
Qed.
End loop_typed.

End table_typed.

#[local] Instance free_crypto : AvmCrypto := {
  cr_Sum256 := id; cr_Keccak256 := id; cr_Sum512_256 := id; cr_HashProgram := slen;
  cr_Verify := fun _ _ _ _ _ => true; cr_VerifySignature := fun _ _ _ _ => true; cr_DecompressPubkey := fun _ => None;
  cr_RecoverPubkey := fun _ _ => Err (Errorf "no key"); cr_Unmarshal := fun _ => None }.

(** [pushint 18446744073709551615] *)
Definition push_max : evalEnv :=
  mkevalEnv (of_bytes [6; 129; 255; 255; 255; 255; 255; 255; 255; 255; 255; 1]) 6 runModeApplication [] (mkcontext 0 30 []).
Definition call_params : evalState :=
  NewEvalParams [bazaar_txn ApplicationCallTx 8 2000 PaymentTxnFields_zero (call_of 30 NoOpOC)] v31 (mkSpecialAddresses 1 2).

Lemma machine_typed_witness : exists m, mc_stack m = [SUint 18446744073709551615] /\ Forall (fun sv => match sv with SUint u => is_u64 u | SBytes b => slen b <= MaxStringSize end) (mc_stack m).
Proof.
  destruct (drive call_params (step (L := bazaar_hashes) push_max (initial 1))) as [m|] eqn:Ed; [|vm_compute in Ed; discriminate].
  exists m. split; [vm_compute in Ed; by injection Ed as <-|].
  destruct (machine_typed (L := bazaar_hashes) push_max m) as [Hst _]; [|exact Hst].
  eapply reach_step; [by eapply (reach_initial _ 6)|by vm_compute|]. by eapply drive_leads.
Defined.
