(* ===== verification/AvmCorrect.v ===== *)
(** The block evaluator with the interpreter of the source. *)
From S2P Require Import Prelude Config Basics Transactions Bookkeeping StateDelta CompactCert Cow.
From S2P Require Import CowFacts CowStorage Balances CowBalances Apply ApplyFacts ApplyCorrect Eval EvalFacts EvalMoney.
From S2P Require Import Conserve AvmValue LogicParams LogicLedger LogicEval LogicFacts LogicMoney LogicCorrect.
From S2P Require Import AvmFields AvmMachine AvmOps AvmLoop AvmMath AvmTyped AvmOpsTyped.
#[local] Open Scope string_scope.
#[local] Open Scope list_scope.
#[local] Open Scope Z_scope.

(** ** The interpreter submits typed transactions *)

Lemma safe_program_typed {A} PS (Q : A -> Prop) p : (forall l, PS l -> group_typed l) -> safe PS Q p -> program_typed p.
Proof. intros HPS. induction p; cbn; try done; try (intros ? ?; by auto); try (intros [? ?]; by auto); try by auto. Qed.

#[export] Instance avm_typed `{LogicHashes} `{AvmCrypto} : TypedEnv avm.
Proof.
  intros code version cx. eapply safe_program_typed; [|apply execute_typed]. intros l Hl. eapply Forall_impl; [exact Hl|]. by intros txn [Ht _].
Qed.

(** C2 (safety): a transaction group conserves money, whatever programs its
    applications run.  When a group is accepted, only finitely many accounts
    changed, and the money of any list of accounts that includes them, pending
    rewards counted, is what it was before the group: fees, payments, closing of
    accounts, rekeying, key registrations, assets, application calls, and every
    inner transaction a program builds opcode by opcode and submits, to any depth,
    only move it.  The account records also stay well formed.  Nothing is assumed of
    the programs; the hashes and signatures are arbitrary functions. *)
Theorem transactionGroup_conserves_money (L : LogicHashes) (C : AvmCrypto) H Verify ev txgroup ev' :
  cow_inv (ev_base ev) (ev_state ev) -> group_typed txgroup ->
  transactionGroup (logicInterpreter (L := avm)) H Verify txgroup ev = (Ok tt, ev') ->
  ev_base ev' = ev_base ev /\ cow_inv (ev_base ev') (ev_state ev') /\
  exists touched : gset Address,
    (forall a, a ∉ touched -> par_lookup (ev_view ev') a = par_lookup (ev_view ev) a) /\
    (forall l, NoDup l -> (forall a, a ∈ touched -> a ∈ l) ->
       sumZ (stack_money (ev_base ev) (ev_state ev')) l = sumZ (stack_money (ev_base ev) (ev_state ev)) l).
Proof. apply typed_group_conserves_money, avm_typed. Qed.

(** ** A ledger with two programs *)

(** Application 30 pays 100000 to the sender of the transaction and calls 31 in one
    group of inner transactions; 31 logs a word:
    [itxn_begin; pushint 1; itxn_field TypeEnum; txn Sender; itxn_field Receiver;
     pushint 100000; itxn_field Amount; itxn_next; pushint 6; itxn_field TypeEnum;
     pushint 31; itxn_field ApplicationID; itxn_submit; pushint 1] and
    [pushbytes 'word'; log; pushint 1]. *)
Definition pay_and_call : string := of_bytes
  [6; 177; 129; 1; 178; 16; 49; 0; 178; 7; 129; 160; 141; 6; 178; 8; 182; 129; 6; 178; 16; 129; 31; 178; 24; 179; 129; 1].
Definition log_word : string := of_bytes [6; 128; 4; 119; 111; 114; 100; 176; 129; 1].
Definition fair_app (code : string) : AppParams := mkAppParams code six ∅ StateSchema_zero StateSchema_zero 0.
Definition fair_accounts : gmap Z AccountData :=
  {[ 5 := MakeAccountData Offline 30000000 <| acct_AppParams := {[ 30 := fair_app pay_and_call; 31 := fair_app log_word ]} |>;
     8 := MakeAccountData Offline 2000000; 1030 := MakeAccountData Offline 2000000 ]}.
Definition fair_ledger : LedgerForCowBase :=
  mkLedgerForCowBase (fun _ => Ok sample_header) (fun _ _ _ _ _ _ => Ok tt)
    (fun r addr => Ok (default AccountData_zero (fair_accounts !! addr), r))
    (fun _ cidx ctype => Ok (if (30 <=? cidx) && (cidx <? 32) && bool_decide (ctype = AppCreatable) then (5, true) else (0, false))).
Definition fair_base : roundCowParent := base_parent (makeRoundCowBase fair_ledger 1000 10 0 v31).
Definition fair_ev : BlockEvaluator :=
  mkBlockEvaluator fair_base market_stack true true sample_header v31 77 (mkBlock sample_header []) 0
    (mkSpecialAddresses 1 2) false (mkLedgerForEvaluator fair_ledger 77 (Ok (1000, AccountTotals_zero)) (fun _ => Ok None))
    1000000 [].
Definition fair_call : list SignedTxnWithAD :=
  [bazaar_txn ApplicationCallTx 8 3000 PaymentTxnFields_zero
     (mkApplicationCallTxnFields 30 NoOpOC [] [] [31] [] StateSchema_zero StateSchema_zero "" "" 0)].

Lemma fair_inv : cow_inv fair_base market_stack.
Proof.
  split_and!.
  - split; [|done]. split; [apply accts_zero_wf|]. intros addr aapp lsd.
    unfold getStorageDelta. cbn. rewrite lookup_empty. discriminate.
  - vm_compute. reflexivity.
  - vm_compute. split; congruence.
  - intros a d Hd. change (Ok (default AccountData_zero (fair_accounts !! a)) = Ok d) in Hd. injection Hd as <-.
    assert (map_Forall (fun _ d => record_wf d) fair_accounts) as Hall.
    { unfold fair_accounts. repeat apply map_Forall_insert_2; [..|apply map_Forall_empty];
        (split; [vm_compute; repeat split; congruence|]); apply map_Forall_empty. }
    destruct (fair_accounts !! a) as [d|] eqn:E; [by apply (Hall a)|].
    split; [vm_compute; repeat split; congruence|]. apply map_Forall_empty.
Qed.

#[local] Existing Instance bazaar_hashes.
#[local] Existing Instance free_crypto.

Lemma transactionGroup_conserves_money_witness :
  exists ev', transactionGroup (logicInterpreter (L := avm)) demo_hashes no_certs fair_call fair_ev = (Ok tt, ev') /\
    (d ← par_lookup (ev_view ev') 1030; Ok (acct_MicroNovas d)) = Ok 1900000 /\ cow_inv fair_base (ev_state ev').
Proof.
  assert ((fun p => (p.1, d ← par_lookup (ev_view p.2) 1030; Ok (acct_MicroNovas d)))
            (transactionGroup (logicInterpreter (L := avm)) demo_hashes no_certs fair_call fair_ev)
          = (Ok tt, Ok 1900000)) as Hr by (vm_compute; reflexivity).
  destruct (transactionGroup _ _ _ _ _) as [r ev'] eqn:E. injection Hr as -> Hm. exists ev'. split_and!; [done|done|].
  destruct (transactionGroup_conserves_money _ _ demo_hashes no_certs fair_ev fair_call ev' fair_inv) as (Hb & Hi & _); [|exact E|].
  - repeat constructor; vm_compute; congruence.
  - by rewrite Hb in Hi.
Defined.
