(* ===== verification/AvmCheck.v ===== *)
(** The static check of programs is sound: it goes through the instructions of a
    program once, from its first to its last byte, and a program that passes never
    leaves the instructions the check has seen. *)
From S2P Require Import Prelude Config Basics Transactions Bookkeeping StateDelta CompactCert Cow.
From S2P Require Import CowFacts CowStorage Balances CowBalances Apply ApplyFacts ApplyCorrect Eval EvalFacts EvalMoney.
From S2P Require Import Conserve AvmValue LogicParams LogicLedger LogicEval LogicFacts LogicMoney LogicCorrect.
From S2P Require Import AvmFields AvmMachine AvmOps AvmLoop AvmMath AvmTyped AvmOpsTyped.
#[local] Open Scope string_scope.
#[local] Open Scope list_scope.
#[local] Open Scope Z_scope.

(** ** Where an opcode goes *)

Notation any_group := (fun _ => True).

(** Two machines at the same place. *)
Definition same_flow (m m' : machine) : Prop :=
  mc_pc m' = mc_pc m /\ mc_cost m' = mc_cost m /\ mc_nextpc m' = mc_nextpc m /\ mc_callstack m' = mc_callstack m.

Lemma same_push m m' sv : same_flow m m' -> same_flow m (push sv m').
Proof. done. Qed.
Lemma same_setStack m m' st : same_flow m m' -> same_flow m (setStack st m').
Proof. done. Qed.

Definition straight (f : op) : Prop := forall m, safe any_group (same_flow m) (f m).

Section flow.
  Context {L : LogicHashes} {C : AvmCrypto} (E : evalEnv).

Lemma flow_popUint m0 m (Q : Z * machine -> Prop) : same_flow m0 m -> (forall u m', same_flow m0 m' -> Q (u, m')) ->
  safe any_group Q (popUint m).
Proof. intros Hm HQ. unfold popUint. destruct (mc_stack m) as [|[]]; try done. by apply HQ. Qed.
Lemma flow_popBytes m0 m (Q : string * machine -> Prop) : same_flow m0 m -> (forall u m', same_flow m0 m' -> Q (u, m')) ->
  safe any_group Q (popBytes m).
Proof. intros Hm HQ. unfold popBytes. destruct (mc_stack m) as [|[]]; try done. by apply HQ. Qed.
Lemma flow_popAny m0 m (Q : stackValue * machine -> Prop) : same_flow m0 m -> (forall u m', same_flow m0 m' -> Q (u, m')) ->
  safe any_group Q (popAny m).
Proof. intros Hm HQ. unfold popAny. destruct (mc_stack m) as [|]; try done. by apply HQ. Qed.

(** A tree may give anything. *)
Definition free {A} (p : prog A) : Prop := safe any_group (fun _ => True) p.
Lemma free_bind {A B} (p : prog A) (f : A -> prog B) Q : free p -> (forall a, safe any_group Q (f a)) -> safe any_group Q (p ≫= f).
Proof. intros Hp Hf. apply safe_bind. eapply safe_mono; [|exact Hp]. intros a _. apply Hf. Qed.
Lemma safe_free {A} PS (Q : A -> Prop) p : safe PS Q p -> free p.
Proof. unfold free. induction p; cbn; try done; try (intros ? ?; by auto); try (intros [? ?]; by auto); by auto. Qed.

Lemma free_opTxnImpl gi src field ai ea : free (opTxnImpl E gi src field ai ea).
Proof. eapply safe_free, opTxnImpl_ok. Qed.
Lemma free_globalFieldToValue m fs : free (globalFieldToValue E m fs).
Proof. eapply safe_free, globalFieldToValue_ok. Qed.
Lemma free_opGloadImpl gi i : free (opGloadImpl E gi i).
Proof. eapply safe_free, opGloadImpl_ok. Qed.
Lemma free_opGaidImpl gi : free (opGaidImpl E gi).
Proof. eapply safe_free, opGaidImpl_ok. Qed.
Lemma free_opAppLocalGetImpl appID key acct : free (opAppLocalGetImpl E appID key acct).
Proof. eapply safe_free, opAppLocalGetImpl_ok. Qed.
Lemma free_opAppGetGlobalStateImpl appID key : free (opAppGetGlobalStateImpl E appID key).
Proof. eapply safe_free, opAppGetGlobalStateImpl_ok. Qed.
Lemma free_record f : free (record E f).
Proof. exact (safe_free _ _ _ (record_any E f (fun _ => True) I)). Qed.
Lemma free_ecdsaCurve m : free (ecdsaCurve E m).
Proof. exact (safe_free _ _ _ (ecdsaCurve_any E m (fun _ => True) I)). Qed.
Lemma free_tsubmit l : free (tsubmit l).
Proof. done. Qed.
End flow.

Ltac flow_walk :=
  repeat first
    [ progress cbv beta iota
    | lazymatch goal with |- safe _ (same_flow _) (mret _) => apply safe_ret; repeat first [apply same_push | apply same_setStack]; first [done | assumption] end
    | (eapply flow_popUint; [eassumption|intros ? ? ?])
    | (eapply flow_popBytes; [eassumption|intros ? ? ?])
    | (eapply flow_popAny; [eassumption|intros ? ? ?])
    | (apply free_bind; [first [apply free_opTxnImpl | apply free_globalFieldToValue | apply free_opGloadImpl | apply free_opGaidImpl
          | apply free_opAppLocalGetImpl | apply free_opAppGetGlobalStateImpl | apply free_record | apply free_ecdsaCurve | lazymatch goal with |- free (tsubmit _) => apply free_tsubmit end]|intros ?])
    | (lazymatch goal with |- safe _ _ (record _ _) => eapply safe_mono; [|apply free_record]; intros ? _ end)
    | tree_step ].

Section straight.
  Context {L : LogicHashes} {C : AvmCrypto} (E : evalEnv).
Lemma straight_onStack f : straight (onStack f).
Proof. intros m. unfold onStack. flow_walk. Qed.
Lemma straight_onStack1 f : straight (onStack1 E f).
Proof. intros m. unfold onStack1. do 2 tree_step. apply straight_onStack. Qed.
Lemma straight_onStack2 f : straight (onStack2 E f).
Proof. intros m. unfold onStack2. do 4 tree_step. apply straight_onStack. Qed.
#[local] Tactic Notation "straight" := let m := fresh "m" in intros m; assert (same_flow m m) by done.
Lemma straight_opTxn : straight (opTxn E).
Proof. straight. unfold opTxn. flow_walk. Qed.
Lemma straight_opTxna : straight (opTxna E).
Proof. straight. unfold opTxna. flow_walk. Qed.
Lemma straight_opTxnas : straight (opTxnas E).
Proof. straight. unfold opTxnas. flow_walk. Qed.
Lemma straight_opGtxn : straight (opGtxn E).
Proof. straight. unfold opGtxn. flow_walk. Qed.
Lemma straight_opGtxna : straight (opGtxna E).
Proof. straight. unfold opGtxna. flow_walk. Qed.
Lemma straight_opGtxnas : straight (opGtxnas E).
Proof. straight. unfold opGtxnas. flow_walk. Qed.
Lemma straight_opGtxns : straight (opGtxns E).
Proof. straight. unfold opGtxns. flow_walk. Qed.
Lemma straight_opGtxnsa : straight (opGtxnsa E).
Proof. straight. unfold opGtxnsa. flow_walk. Qed.
Lemma straight_opGtxnsas : straight (opGtxnsas E).
Proof. straight. unfold opGtxnsas. flow_walk. Qed.
Lemma straight_opItxn : straight (opItxn E).
Proof. straight. unfold opItxn. flow_walk. Qed.
Lemma straight_opItxna : straight (opItxna E).
Proof. straight. unfold opItxna. flow_walk. Qed.
Lemma straight_opItxnas : straight (opItxnas E).
Proof. straight. unfold opItxnas. flow_walk. Qed.
Lemma straight_opGitxn : straight (opGitxn E).
Proof. straight. unfold opGitxn. flow_walk. Qed.
Lemma straight_opGitxna : straight (opGitxna E).
Proof. straight. unfold opGitxna. flow_walk. Qed.
Lemma straight_opGitxnas : straight (opGitxnas E).
Proof. straight. unfold opGitxnas. flow_walk. Qed.
Lemma straight_opGaid : straight (opGaid E).
Proof. straight. unfold opGaid. flow_walk. Qed.
Lemma straight_opGaids : straight (opGaids E).
Proof. straight. unfold opGaids. flow_walk. Qed.
Lemma straight_opGlobal : straight (opGlobal E).
Proof. straight. unfold opGlobal. flow_walk. Qed.
Lemma straight_opEd25519verify : straight (opEd25519verify E).
Proof. straight. unfold opEd25519verify. flow_walk. Qed.
Lemma straight_opEcdsaVerify : straight (opEcdsaVerify E).
Proof. straight. unfold opEcdsaVerify. flow_walk. Qed.
Lemma straight_opEcdsaPkDecompress : straight (opEcdsaPkDecompress E).
Proof. straight. unfold opEcdsaPkDecompress. flow_walk. Qed.
Lemma straight_opEcdsaPkRecover : straight (opEcdsaPkRecover E).
Proof. straight. unfold opEcdsaPkRecover. flow_walk. Qed.
Lemma straight_opBalance : straight (opBalance E).
Proof. straight. unfold opBalance, accountData. flow_walk. Qed.
Lemma straight_opMinBalance : straight (opMinBalance E).
Proof. straight. unfold opMinBalance, accountData. flow_walk. Qed.
Lemma straight_opAppOptedIn : straight (opAppOptedIn E).
Proof. straight. unfold opAppOptedIn. flow_walk. Qed.
Lemma straight_opAppLocalGet : straight (opAppLocalGet E).
Proof. straight. unfold opAppLocalGet. flow_walk. Qed.
Lemma straight_opAppGlobalGet : straight (opAppGlobalGet E).
Proof. straight. unfold opAppGlobalGet. flow_walk. Qed.
Lemma straight_opAppLocalGetEx : straight (opAppLocalGetEx E).
Proof. straight. unfold opAppLocalGetEx. flow_walk. Qed.
Lemma straight_opAppGlobalGetEx : straight (opAppGlobalGetEx E).
Proof. straight. unfold opAppGlobalGetEx. flow_walk. Qed.
Lemma straight_opAssetHoldingGet : straight (opAssetHoldingGet E).
Proof. straight. unfold opAssetHoldingGet. flow_walk. Qed.
Lemma straight_opAssetParamsGet : straight (opAssetParamsGet E).
Proof. straight. unfold opAssetParamsGet. flow_walk. Qed.
Lemma straight_opAppParamsGet : straight (opAppParamsGet E).
Proof. straight. unfold opAppParamsGet. flow_walk. Qed.
Lemma straight_opAcctParamsGet : straight (opAcctParamsGet E).
Proof. straight. unfold opAcctParamsGet. flow_walk. Qed.
Lemma straight_opAppLocalPut : straight (opAppLocalPut E).
Proof. straight. unfold opAppLocalPut, recordLocal. flow_walk. Qed.
Lemma straight_opAppGlobalPut : straight (opAppGlobalPut E).
Proof. straight. unfold opAppGlobalPut, recordGlobal. flow_walk. Qed.
Lemma straight_opAppLocalDel : straight (opAppLocalDel E).
Proof. straight. unfold opAppLocalDel, recordLocal. flow_walk. Qed.
Lemma straight_opAppGlobalDel : straight (opAppGlobalDel E).
Proof. straight. unfold opAppGlobalDel, recordGlobal. flow_walk. Qed.
Lemma straight_opLog : straight (opLog E).
Proof. straight. unfold opLog. flow_walk. Qed.
Lemma straight_opArg : straight (opArg E).
Proof. straight. unfold opArg, opArgN. flow_walk. Qed.
Lemma straight_opArgs : straight (opArgs E).
Proof. straight. unfold opArgs, opArgN. flow_walk. Qed.
Lemma straight_opIntConstLoad : straight (opIntConstLoad E).
Proof. straight. unfold opIntConstLoad, opIntConstN. flow_walk. Qed.
Lemma straight_opByteConstLoad : straight (opByteConstLoad E).
Proof. straight. unfold opByteConstLoad, opByteConstN. flow_walk. Qed.
Lemma straight_opLoad : straight (opLoad E).
Proof. straight. unfold opLoad. flow_walk. Qed.
Lemma straight_opStore : straight (opStore E).
Proof. straight. unfold opStore, storeScratch. flow_walk. Qed.
Lemma straight_opGload : straight (opGload E).
Proof. straight. unfold opGload. flow_walk. Qed.
Lemma straight_opGloads : straight (opGloads E).
Proof. straight. unfold opGloads. flow_walk. Qed.
Lemma straight_opGloadss : straight (opGloadss E).
Proof. straight. unfold opGloadss. flow_walk. Qed.
Lemma straight_txBegin : straight (txBegin E).
Proof. straight. unfold txBegin. flow_walk. Qed.
Lemma straight_txNext : straight (txNext E).
Proof. straight. unfold txNext. flow_walk. Qed.
Lemma straight_opTxField : straight (opTxField E).
Proof. straight. unfold opTxField. flow_walk. Qed.
Lemma straight_opArgN n : straight (opArgN E n).
Proof. straight. unfold opArgN. flow_walk. Qed.
Lemma straight_opIntConstN n : straight (opIntConstN n).
Proof. straight. unfold opIntConstN. flow_walk. Qed.
Lemma straight_opByteConstN n : straight (opByteConstN n).
Proof. straight. unfold opByteConstN. flow_walk. Qed.
Lemma straight_opLoads : straight opLoads.
Proof. straight. unfold opLoads. flow_walk. Qed.
Lemma straight_opStores : straight opStores.
Proof. straight. unfold opStores, storeScratch. flow_walk. Qed.
Lemma straight_txSubmit : straight txSubmit.
Proof. straight. unfold txSubmit. flow_walk. Qed.
End straight.

(** ** Where the instructions are *)

(** The next instruction as the check finds it, by the kind of the opcode: a fixed
    size, a branch, or a block of constants the opcode has to decode. *)
Inductive next_of (program : string) (version : Z) (spec : OpSpec) (pc : Z) : Z -> Prop :=
| next_size : od_checkFunc (os_Details spec) = None -> 0 < od_Size (os_Details spec) ->
    next_of program version spec pc (pc + od_Size (os_Details spec))
| next_branch target : od_checkFunc (os_Details spec) = Some checkBranch -> od_Size (os_Details spec) = 3 ->
    branchTarget program version pc = Ok target -> next_of program version spec pc (pc + 3)
| next_block check next : od_checkFunc (os_Details spec) = Some check -> od_Size (os_Details spec) = 0 ->
    (forall ck, ck_pc ck = pc -> check program version ck = Ok (ck, next)) -> next_of program version spec pc next.

(** What an opcode does to the flow of control. *)
Inductive goes (E : evalEnv) (spec : OpSpec) (m m' : machine) : Prop :=
| goes_on : od_checkFunc (os_Details spec) = None -> 0 < od_Size (os_Details spec) ->
    mc_nextpc m' = mc_nextpc m -> mc_callstack m' = mc_callstack m -> goes E spec m m'
| goes_end : mc_nextpc m' = slen (en_program E) -> mc_callstack m' = mc_callstack m -> goes E spec m m'
| goes_back : mc_callstack m = mc_nextpc m' :: mc_callstack m' -> goes E spec m m'
| goes_branch : od_checkFunc (os_Details spec) = Some checkBranch -> od_Size (os_Details spec) = 3 ->
    mc_nextpc m' = mc_pc m + 3 \/ branchTarget (en_program E) (en_version E) (mc_pc m) = Ok (mc_nextpc m') ->
    mc_callstack m' = mc_callstack m \/ mc_callstack m' = (mc_pc m + 3) :: mc_callstack m -> goes E spec m m'
| goes_block check : od_checkFunc (os_Details spec) = Some check -> od_Size (os_Details spec) = 0 ->
    (forall ck, ck_pc ck = mc_pc m -> check (en_program E) (en_version E) ck = Ok (ck, mc_nextpc m')) ->
    mc_callstack m' = mc_callstack m -> goes E spec m m'.

Definition row_goes `{LogicHashes} `{AvmCrypto} (spec : OpSpec) : Prop := forall E m,
  safe any_group (fun m' => mc_pc m' = mc_pc m /\ mc_cost m' = mc_cost m /\ goes E spec m m') (os_op spec E m).

Section rows.
  Context {L : LogicHashes} {C : AvmCrypto}.

Lemma straight_row opcode name f args rets version modes cost size :
  (0 < size) -> (forall E, straight (f E)) -> row_goes (mkOpSpec opcode name f args rets version modes (mkopDetails cost size None)).
Proof.
  intros Hs Hf E m. cbn [os_op]. eapply safe_mono; [|apply Hf]. intros m' (Hpc & Hc & Hn & Hcs). split_and!; [done..|]. by apply goes_on.
Qed.

Lemma branch_row opcode name f args rets version modes cost :
  (forall E m, safe any_group (fun m' => mc_pc m' = mc_pc m /\ mc_cost m' = mc_cost m /\
     (mc_nextpc m' = mc_pc m + 3 \/ branchTarget (en_program E) (en_version E) (mc_pc m) = Ok (mc_nextpc m')) /\
     (mc_callstack m' = mc_callstack m \/ mc_callstack m' = (mc_pc m + 3) :: mc_callstack m)) (f E m)) ->
  row_goes (mkOpSpec opcode name f args rets version modes (mkopDetails cost 3 (Some checkBranch))).
Proof. intros Hf E m. cbn [os_op]. eapply safe_mono; [|apply Hf]. intros m' (Hpc & Hc & Hn & Hcs). split_and!; [done..|]. by apply goes_branch. Qed.

Lemma block_row opcode name f args rets version modes cost check :
  (forall E m, safe any_group (fun m' => mc_pc m' = mc_pc m /\ mc_cost m' = mc_cost m /\ mc_callstack m' = mc_callstack m /\
     forall ck, ck_pc ck = mc_pc m -> check (en_program E) (en_version E) ck = Ok (ck, mc_nextpc m')) (f E m)) ->
  row_goes (mkOpSpec opcode name f args rets version modes (mkopDetails cost 0 (Some check))).
Proof. intros Hf E m. cbn [os_op]. eapply safe_mono; [|apply Hf]. intros m' (Hpc & Hc & Hcs & Hn). split_and!; [done..|]. by eapply goes_block. Qed.

Lemma opBranchIf_goes test E m : safe any_group (fun m' => mc_pc m' = mc_pc m /\ mc_cost m' = mc_cost m /\
     (mc_nextpc m' = mc_pc m + 3 \/ branchTarget (en_program E) (en_version E) (mc_pc m) = Ok (mc_nextpc m')) /\
     (mc_callstack m' = mc_callstack m \/ mc_callstack m' = (mc_pc m + 3) :: mc_callstack m)) (opBranchIf E test m).
Proof.
  unfold opBranchIf. destruct (mc_stack m) as [|[c|b] st]; try done. cbv zeta. case_match; [|apply safe_ret; split_and!; auto].
  unfold opB. do 3 tree_step. split_and!; auto.
Qed.

(** The rows of the table, by the shape of the opcode. *)
Ltac solve_row :=
  first
    [ apply straight_row; [reflexivity|intros E; cbv beta;
        first [apply straight_onStack | apply straight_onStack1 | apply straight_onStack2 | solve [auto with straights]]]
    | apply branch_row; first [apply opBranchIf_goes | intros E m; unfold opCallSub, opB; do 3 tree_step; split_and!; auto]
    | apply block_row; intros E m; cbv beta; unfold opIntConstBlock, opByteConstBlock, opPushBytes, opPushInt; tree_step; apply safe_tlift;
        let Hp := fresh in intros [] Hp; apply safe_ret; split_and!; [done..|]; intros ck Hck;
        unfold checkIntConstBlock, checkByteConstBlock, checkPushBytes, checkPushInt; by rewrite Hck, Hp ].

Create HintDb straights.
#[local] Hint Resolve straight_opTxn straight_opTxna straight_opTxnas straight_opGtxn straight_opGtxna
  straight_opGtxnas straight_opGtxns straight_opGtxnsa straight_opGtxnsas straight_opItxn straight_opItxna
  straight_opItxnas straight_opGitxn straight_opGitxna straight_opGitxnas straight_opGaid straight_opGaids
  straight_opGlobal straight_opEd25519verify straight_opEcdsaVerify straight_opEcdsaPkDecompress
  straight_opEcdsaPkRecover straight_opBalance straight_opMinBalance straight_opAppOptedIn straight_opAppLocalGet
  straight_opAppGlobalGet straight_opAppLocalGetEx straight_opAppGlobalGetEx straight_opAssetHoldingGet
  straight_opAssetParamsGet straight_opAppParamsGet straight_opAcctParamsGet straight_opAppLocalPut
  straight_opAppGlobalPut straight_opAppLocalDel straight_opAppGlobalDel straight_opLog straight_opArg
  straight_opArgs straight_opIntConstLoad straight_opByteConstLoad straight_opLoad straight_opStore straight_opGload
  straight_opGloads straight_opGloadss straight_txBegin straight_txNext straight_opTxField straight_opArgN
  straight_opIntConstN straight_opByteConstN straight_opLoads straight_opStores straight_txSubmit : straights.

Lemma opReturn_goes opcode name args rets version modes d : row_goes (mkOpSpec opcode name opReturn args rets version modes d).
Proof.
  intros E m. cbn [os_op]. unfold opReturn. destruct (mc_stack m) as [|sv st]; [done|]. apply safe_ret. split_and!; [done..|]. by apply goes_end.
Qed.
Lemma opRetSub_goes opcode name args rets version modes d : row_goes (mkOpSpec opcode name (fun _ => opRetSub) args rets version modes d).
Proof.
  intros E m. cbn [os_op]. unfold opRetSub. destruct (mc_callstack m) as [|target rest] eqn:Ec; [done|]. apply safe_ret. split_and!; [done..|].
  apply goes_back. by rewrite Ec.
Qed.

Lemma OpSpecs_go : Forall row_goes OpSpecs.
Proof.
  unfold OpSpecs, opDefault, opBranch, costly, immediates, varies, costlyImm.
  repeat first [apply List.Forall_nil | apply List.Forall_cons; [first [apply opReturn_goes | apply opRetSub_goes | solve_row]|]].
Qed.
End rows.

(** ** Decoding stays inside the program *)

Lemma Uvarint_from_length bytes : forall i shift x v n, Uvarint_from bytes i shift x = Some (v, n) -> i < n <= i + llen bytes.
Proof.
  unfold llen. induction bytes as [|c bytes IH]; intros i shift x v n; cbn [Uvarint_from length]; [done|].
  case_match; [|intros Hu%IH; lia]. case_match; [done|]. intros [= _ <-]. lia.
Qed.

Lemma uvarintAt_inside program pos v n : 0 <= pos -> uvarintAt program pos = Some (v, n) -> 0 < n /\ pos + n <= slen program.
Proof.
  intros Hp Hu%Uvarint_from_length. unfold llen in Hu. rewrite length_drop in Hu.
  assert (length (String.list_ascii_of_string program) = String.length program) as Hl by (clear; induction program; cbn; auto).
  unfold slen. rewrite Hl in Hu. lia.
Qed.

Lemma parse_ints_inside program n : forall pos l next, 0 <= pos <= slen program -> parse_ints program n pos = Ok (l, next) -> pos <= next <= slen program.
Proof.
  induction n as [|n IH]; intros pos l next Hp; cbn [parse_ints]; [intros [= _ <-]; lia|]. case_match; [done|].
  destruct (uvarintAt program pos) as [[v u]|] eqn:Eu; [|done]. apply uvarintAt_inside in Eu; [|lia].
  intros ([rest next'] & Hr & [= _ <-])%outcome_bind_Ok. apply IH in Hr; lia.
Qed.

Lemma parse_byteses_inside program n : forall pos l next, 0 <= pos <= slen program -> parse_byteses program n pos = Ok (l, next) -> pos <= next <= slen program.
Proof.
  induction n as [|n IH]; intros pos l next Hp; cbn [parse_byteses]; [intros [= _ <-]; lia|]. case_match; [done|].
  destruct (uvarintAt program pos) as [[v u]|] eqn:Eu; [|done]. apply uvarintAt_inside in Eu; [|lia]. cbv zeta.
  destruct ((_ || _) || _) eqn:Eb; [done|]. apply orb_false_iff in Eb as [[_ E1%Z.ltb_ge]%orb_false_iff E2%Z.ltb_ge].
  intros ([rest next'] & Hr & [= _ <-])%outcome_bind_Ok. apply IH in Hr; lia.
Qed.

(** A check of a block of constants: it depends on the position only. *)
Definition block_check (check : opCheckFunc) : Prop := forall program version ck ck' next,
  0 <= ck_pc ck -> check program version ck = Ok (ck', next) ->
  ck_pc ck < next <= slen program /\ ck' = ck /\ forall ck2, ck_pc ck2 = ck_pc ck -> check program version ck2 = Ok (ck2, next).

Lemma parser_check {A} (parse : string -> Z -> outcome (A * Z)) :
  (forall program pc a next, 0 <= pc -> parse program pc = Ok (a, next) -> pc < next <= slen program) ->
  block_check (fun program _ ck => '(_, nextpc) ← parse program (ck_pc ck); Ok (ck, nextpc)).
Proof.
  intros Hp program version ck ck' next Hpc ([a n] & Ha & [= <- <-])%outcome_bind_Ok. split_and!; try done; try by apply Hp in Ha; lia.
  intros ck2 ->. by rewrite Ha.
Qed.

Lemma checkIntConstBlock_block : block_check checkIntConstBlock.
Proof.
  apply (parser_check parseIntcblock). intros program pc a next Hpc. unfold parseIntcblock.
  destruct (uvarintAt program (pc + 1)) as [[k u]|] eqn:Eu; [|done]. apply uvarintAt_inside in Eu; [|lia]. case_match; [done|].
  intros Hp%parse_ints_inside; lia.
Qed.
Lemma checkByteConstBlock_block : block_check checkByteConstBlock.
Proof.
  apply (parser_check parseBytecBlock). intros program pc a next Hpc. unfold parseBytecBlock.
  destruct (uvarintAt program (pc + 1)) as [[k u]|] eqn:Eu; [|done]. apply uvarintAt_inside in Eu; [|lia]. case_match; [done|].
  intros Hp%parse_byteses_inside; lia.
Qed.
Lemma checkPushInt_block : block_check checkPushInt.
Proof.
  apply (parser_check parsePushInt). intros program pc a next Hpc. unfold parsePushInt.
  destruct (uvarintAt program (pc + 1)) as [[k u]|] eqn:Eu; [|done]. apply uvarintAt_inside in Eu; [|lia]. intros [= _ <-]. lia.
Qed.
Lemma checkPushBytes_block : block_check checkPushBytes.
Proof.
  apply (parser_check parsePushBytes). intros program pc a next Hpc. unfold parsePushBytes.
  destruct (uvarintAt program (pc + 1)) as [[k u]|] eqn:Eu; [|done]. apply uvarintAt_inside in Eu; [|lia]. cbv zeta.
  destruct (_ || _) eqn:Eb; [done|]. apply orb_false_iff in Eb as [E1%Z.ltb_ge E2%Z.ltb_ge]. intros [= _ <-]. lia.
Qed.

Definition row_checked (spec : OpSpec) : Prop :=
  (od_checkFunc (os_Details spec) = None /\ 0 < od_Size (os_Details spec)) \/
  (od_checkFunc (os_Details spec) = Some checkBranch /\ od_Size (os_Details spec) = 3) \/
  (exists check, od_checkFunc (os_Details spec) = Some check /\ od_Size (os_Details spec) = 0 /\ block_check check).

Section checked.
  Context {L : LogicHashes} {C : AvmCrypto}.

Lemma OpSpecs_checked : Forall row_checked OpSpecs.
Proof.
  unfold OpSpecs.
  repeat first [ apply List.Forall_nil | apply List.Forall_cons; [first
    [ left; split; reflexivity | right; left; split; reflexivity
    | right; right; eexists; split_and!; [reflexivity|reflexivity|];
      first [apply checkIntConstBlock_block | apply checkByteConstBlock_block | apply checkPushInt_block | apply checkPushBytes_block] ]|] ].
Qed.

Lemma op_goes version opcode spec : opsByOpcode version opcode = Some spec -> row_goes spec /\ row_checked spec.
Proof.
  intros Hs%opsByOpcode_row. split.
  - pose proof OpSpecs_go as Hg. rewrite Forall_forall in Hg. by apply Hg.
  - pose proof OpSpecs_checked as Hc. rewrite Forall_forall in Hc. by apply Hc.
Qed.

(** ** The check *)

Section invariant.
  Context (program : string) (version mode : Z).

(** An instruction at [pc] that the program may run, and the position after it. *)
Definition instruction (pc next : Z) (spec : OpSpec) : Prop :=
  (exists opcode, byteAt program pc = Ok opcode /\ opsByOpcode version opcode = Some spec) /\
  Z.land mode (os_Modes spec) <> 0 /\ 0 < pc < next /\ next <= slen program /\ next_of program version spec pc next.

(** What the check knows of the instructions before its position. *)
Record swept (ck : checkState) : Prop := {
  sw_pc : 0 < ck_pc ck <= slen program;
  sw_start pc : pc ∈ ck_instructionStarts ck -> exists next spec, instruction pc next spec /\
    next <= ck_pc ck /\ (next ∈ ck_instructionStarts ck \/ next = ck_pc ck) /\
    (forall pc', pc' ∈ ck_instructionStarts ck -> ~ (pc < pc' < next)) /\
    (od_checkFunc (os_Details spec) = Some checkBranch ->
       exists target, branchTarget program version pc = Ok target /\ target ∈ ck_branchTargets ck);
  sw_target t : t ∈ ck_branchTargets ck -> t <= slen program /\ (t ∈ ck_instructionStarts ck \/ ck_pc ck <= t) }.

Lemma branchTarget_inside pc target : branchTarget program version pc = Ok target -> 0 <= target <= slen program.
Proof.
  unfold branchTarget. intros (hi & _ & H)%outcome_bind_Ok. apply outcome_bind_Ok in H as (lo & _ & H). cbv zeta in H.
  apply outcome_bind_Ok in H as (? & _ & H). apply outcome_bind_Ok in H as (? & Hf%failIf_Ok & [= <-]).
  case_match; apply orb_false_iff in Hf as [H1 H2%Z.ltb_ge]; [apply Z.ltb_ge in H1|apply Z.leb_gt in H1]; lia.
Qed.

(** The check of one more instruction. *)
Lemma swept_extend pc next starts targets targets' spec :
  swept (mkcheckState pc starts targets) -> instruction pc next spec -> targets ⊆ targets' ->
  (forall t, t ∈ targets' -> t ∈ targets \/ (t <= slen program /\ (t ∈ {[pc]} ∪ starts \/ next <= t))) ->
  (forall t, t ∈ targets' -> ~ (pc < t < next)) ->
  (od_checkFunc (os_Details spec) = Some checkBranch -> exists target, branchTarget program version pc = Ok target /\ target ∈ targets') ->
  swept (mkcheckState next ({[pc]} ∪ starts) targets').
Proof.
  intros [Hpc Hst Htg] Hi Hsub Hnew Hskip Hbr. cbn in *. pose proof Hi as (_ & _ & Hlt & Hle & _). split; cbn.
  - lia.
  - intros q [->%elem_of_singleton|Hq]%elem_of_union.
    + exists next, spec. split_and!; [done|lia|by right| |done]. intros q' [->%elem_of_singleton|Hq']%elem_of_union; [lia|].
      destruct (Hst q' Hq') as (n & s & (_ & _ & ? & _) & ? & _). lia.
    + destruct (Hst q Hq) as (n & s & Hin & Hn & Hnx & Hov & Hb). exists n, s. split_and!; [done|lia| | |].
      * destruct Hnx as [?| ->]; left; set_solver.
      * intros q' [->%elem_of_singleton|Hq']%elem_of_union; [lia|by apply Hov].
      * intros Hc. destruct (Hb Hc) as (target & Ht & Hin'). exists target. split; [done|set_solver].
  - intros t Ht. pose proof (Hskip t Ht) as Hs. destruct (Hnew t Ht) as [Hold|[Hl [Hs'|Hs']]]; [|by auto..].
    destruct (Htg t Hold) as [Hl [Hin|Hge]]; split; try done; [left; set_solver|].
    destruct (Z.eq_dec t pc) as [->|]; [left; set_solver|right; lia].
Qed.

Lemma skipped_spec from to targets : skipped from to targets = false -> forall t, t ∈ targets -> ~ (from < t < to).
Proof.
  intros Hs t Ht [H1 H2]. enough (skipped from to targets = true) by congruence. apply existsb_exists. exists t.
  split; [by apply list_elem_of_In, elem_of_elements|]. by rewrite !(proj2 (Z.ltb_lt _ _)).
Qed.

Lemma checkStep_swept ck cost ck' : swept ck -> checkStep program version mode ck = Ok (cost, ck') -> ck_pc ck < ck_pc ck' ->
  swept ck' /\ ck_instructionStarts ck' = {[ck_pc ck]} ∪ ck_instructionStarts ck.
Proof.
  destruct ck as [pc starts targets]. intros Hsw H Hadv. pose proof (sw_pc _ Hsw) as Hpc. cbn in Hpc. unfold checkStep in H. cbn in H.
  apply outcome_bind_Ok in H as (opcode & Hop & H). destruct (opsByOpcode version opcode) as [spec|] eqn:Es; [|done].
  apply outcome_bind_Ok in H as (? & Hm%failIf_Ok%Z.eqb_neq & H). cbv zeta in H. apply outcome_bind_Ok in H as (? & Hsz%failIf_Ok & H).
  apply outcome_bind_Ok in H as (ck1 & Hck & H). apply outcome_bind_Ok in H as (? & Hsk%failIf_Ok & [= _ <-]).
  pose proof (skipped_spec _ _ _ Hsk) as Hskip. destruct (op_goes version opcode spec Es) as [_ [[Hc Hs]|[[Hc Hs]|(chk & Hc & Hs & Hb)]]]; rewrite Hc in Hck.
  - injection Hck as <-. cbn in *. split; [|done]. rewrite (proj2 (Z.eqb_neq _ 0)) in Hsz by lia. apply Z.ltb_ge in Hsz.
    eapply swept_extend; [done| |done|by auto|done|by rewrite Hc]. split_and!; try done; try lia; [by exists opcode|by apply next_size].
  - apply outcome_bind_Ok in Hck as ([ck2 n] & Hb & [= <-]). unfold checkBranch in Hb. cbn in Hb.
    apply outcome_bind_Ok in Hb as (target & Ht & Hb). apply outcome_bind_Ok in Hb as (? & Hal%failIf_Ok & [= <- <-]). cbn in *.
    rewrite (proj2 (Z.eqb_neq (pc + 3) 0)) in * by lia. cbn in *. split; [|done]. rewrite Hs in Hsz. apply Z.ltb_ge in Hsz.
    eapply swept_extend; [done| |set_solver| |done|].
    + split_and!; try done; try lia; [by exists opcode|by eapply next_branch].
    + intros t [->%elem_of_singleton|?]%elem_of_union; [right|by left]. split; [by eapply branchTarget_inside|].
      apply andb_false_iff in Hal as [Hf%Z.ltb_ge|Ha]; [by right|left]. apply negb_false_iff, bool_decide_eq_true in Ha. exact Ha.
    + intros _. exists target. split; [done|set_solver].
  - apply outcome_bind_Ok in Hck as ([ck2 n] & Hn & [= <-]). pose proof (fun H => Hb _ _ _ _ _ H Hn) as Hb'.
    destruct Hb' as (Hr & -> & Hall); [cbn; lia|]. cbn in *.
    rewrite (proj2 (Z.eqb_neq n 0)) in * by lia. cbn in *. split; [|done]. eapply swept_extend; [done| |done|by auto|done|].
    + split_and!; try done; try lia; [by exists opcode|by eapply next_block].
    + rewrite Hc. intros [= ->]. exfalso. specialize (Hall (mkcheckState pc ∅ ∅) eq_refl). unfold checkBranch in Hall. cbn in Hall.
      apply outcome_bind_Ok in Hall as (target & _ & Hall). apply outcome_bind_Ok in Hall as (? & _ & Hall). 
      apply (f_equal (fun r => match r with Ok (c, _) => ck_branchTargets c | _ => ∅ end)) in Hall. cbn in Hall.
      assert (target ∈ (∅ : gset Z)) as Hin by (rewrite <- Hall; set_solver). set_solver.
Qed.

Lemma check_loop_swept maxCost fuel : forall cost ck, swept ck -> check_loop fuel program version mode maxCost cost ck = Ok tt ->
  exists ck', swept ck' /\ ck_pc ck' = slen program /\ ck_instructionStarts ck ⊆ ck_instructionStarts ck' /\
    (ck_pc ck ∈ ck_instructionStarts ck' \/ ck_pc ck = slen program).
Proof.
  induction fuel as [|fuel IH]; intros cost ck Hsw; cbn [check_loop]; (destruct (Z.ltb_spec (ck_pc ck) (slen program)) as [Hlt|Hge];
    [|intros _; exists ck; pose proof (sw_pc _ Hsw); split_and!; try done; [lia|right; lia]]); [done|].
  intros ([c ck1] & Hst & H)%outcome_bind_Ok. cbv zeta in H. apply outcome_bind_Ok in H as (? & _ & H).
  apply outcome_bind_Ok in H as (? & Ha%failIf_Ok%Z.leb_gt & H). destruct (checkStep_swept _ _ _ Hsw Hst Ha) as [Hsw1 Hs1].
  destruct (IH _ _ Hsw1 H) as (ck' & Hsw' & Hpc & Hsub & _). exists ck'. split_and!; [done|done|set_solver|left; set_solver].
Qed.

End invariant.

(** ** Programs that passed the check *)

Section running.
  Context (E : evalEnv) (ck : checkState) (Hsw : swept (en_program E) (en_version E) (en_mode E) ck).
  Context (Hend : ck_pc ck = slen (en_program E)).
#[local] Notation code := (en_program E).
#[local] Notation starts := (ck_instructionStarts ck).

Definition seen (pc : Z) : Prop := pc ∈ starts \/ pc = slen code.
Definition placed (m : machine) : Prop := seen (mc_pc m) /\ mc_nextpc m = 0 /\ Forall seen (mc_callstack m).

Lemma seen_target t : t ∈ ck_branchTargets ck -> seen t.
Proof. intros Ht. destruct (sw_target _ _ _ _ Hsw t Ht) as [Hl [Hin|Hge]]; [by left|right]. lia. Qed.

Lemma seen_positive pc : seen pc -> 0 < pc.
Proof.
  intros [Hin| ->]; [|rewrite <- Hend; apply (sw_pc _ _ _ _ Hsw)]. destruct (sw_start _ _ _ _ Hsw pc Hin) as (n & s & (_ & _ & ? & _) & _). lia.
Qed.

(** Where control is after an opcode at an instruction the check has seen. *)
Lemma goes_seen spec next m m' : mc_pc m ∈ starts -> Forall seen (mc_callstack m) -> mc_nextpc m = 0 -> mc_pc m' = mc_pc m ->
  next_of code (en_version E) spec (mc_pc m) next -> seen next ->
  (od_checkFunc (os_Details spec) = Some checkBranch ->
     exists target, branchTarget code (en_version E) (mc_pc m) = Ok target /\ target ∈ ck_branchTargets ck) ->
  goes E spec m m' -> placed (advanced spec m').
Proof.
  intros Hpc Hcs Hn0 Hpc' Hnext Hseen Hbr Hg. unfold placed, advanced.
  assert (forall next', mc_nextpc m' = next' -> seen next' -> Forall seen (mc_callstack m') -> placed (advanced spec m')) as Hjump.
  { intros n <- Hs Hc. unfold placed, advanced. pose proof (seen_positive _ Hs). rewrite (proj2 (Z.eqb_neq _ 0)) by lia. by cbn. }
  assert (next = mc_pc m + od_Size (os_Details spec) -> mc_nextpc m' = 0 -> Forall seen (mc_callstack m') -> placed (advanced spec m')) as Hon.
  { intros -> Hz Hc. unfold placed, advanced. rewrite Hz. cbn. rewrite Hpc'. split_and!; done. }
  destruct Hg as [Hc Hs Hn Hcs'|Hn Hcs'|Hcs'|Hc Hs Ht Hcs'|chk Hc Hs Hck Hcs'].
  - apply Hon; [|congruence|by rewrite Hcs']. inversion Hnext; subst; congruence || done.
  - eapply Hjump; [exact Hn|by right|by rewrite Hcs'].
  - rewrite Hcs' in Hcs. apply Forall_cons in Hcs as [Ht Hr]. by eapply Hjump.
  - assert (next = mc_pc m + 3) as -> by (inversion Hnext; subst; try congruence; lia).
    assert (Forall seen (mc_callstack m')) as Hall by (destruct Hcs' as [-> | ->]; [done|by constructor]).
    destruct Ht as [Ht|Ht]; [by eapply Hjump|]. destruct (Z.eq_dec (mc_nextpc m') 0) as [Hz|Hz].
    + apply Hon; [by rewrite Hs|done|done].
    + destruct (Hbr Hc) as (target & Ht' & Hin). rewrite Ht in Ht'. injection Ht' as <-. eapply Hjump; [done|by apply seen_target|done].
  - eapply Hjump; [|exact Hseen|by rewrite Hcs']. inversion Hnext as [Hc'|t Hc'|chk' n Hc' Hs' Hall]; subst; try congruence.
    assert (chk' = chk) as -> by congruence. specialize (Hck (mkcheckState (mc_pc m) ∅ ∅) eq_refl). specialize (Hall (mkcheckState (mc_pc m) ∅ ∅) eq_refl). congruence.
Qed.

Lemma step_placed m : placed m -> mc_pc m < slen code -> safe any_group placed (step E m).
Proof.
  intros ([Hin| ->] & Hn & Hcs) Hlt; [|lia]. apply step_safe. intros opcode spec Hop Hs.
  destruct (sw_start _ _ _ _ Hsw _ Hin) as (next & spec' & ((opcode' & Hop' & Hs') & _ & _ & _ & Hnext) & _ & Hnx & _ & Hbr).
  rewrite Hop in Hop'. injection Hop' as <-. rewrite Hs in Hs'. injection Hs' as <-.
  eapply safe_mono; [|apply (proj1 (op_goes _ _ _ Hs))]. intros m' (Hpc & _ & Hg) _ _.
  eapply (goes_seen spec next (m <| mc_cost := mc_cost m + od_Cost (os_Details spec) |>)); [exact Hin|exact Hcs|exact Hn|exact Hpc|exact Hnext| |exact Hbr|exact Hg]. destruct Hnx as [?| ->]; [by left|by right].
Qed.
End running.

(** C3 (safety): the static check of programs is sound.  A program that passes it, and
    is then run in the same mode and with the same version, never leaves the
    instructions the check went through: these lie one after the other and do not
    overlap, each is a legal opcode of the version and of the mode with all its
    immediate bytes inside the program, and the target of every branch is one of them
    or the end of the program.  So no branch, back branch or subroutine call or
    return, wherever the values of the run take it, lands inside an instruction or
    on an opcode the check has not seen. *)
Theorem check_control_flow E st vlen :
  ProgramVersion (en_program E) = Ok (en_version E, vlen) -> check (en_program E) (en_mode E) st = Ok tt ->
  exists starts : gset Z,
    (forall pc, pc ∈ starts -> exists next spec, instruction (en_program E) (en_version E) (en_mode E) pc next spec /\
       (next ∈ starts \/ next = slen (en_program E)) /\ (forall pc', pc' ∈ starts -> ~ (pc < pc' < next)) /\
       (od_checkFunc (os_Details spec) = Some checkBranch -> exists target,
          branchTarget (en_program E) (en_version E) pc = Ok target /\ (target ∈ starts \/ target = slen (en_program E)))) /\
    (forall m, reachable E m -> mc_pc m ∈ starts \/ mc_pc m = slen (en_program E)).
Proof.
  intros Hv Hc. unfold check in Hc. destruct (failIf _ _ ≫= _) as [u| |] eqn:El; [destruct u|done..]. clear Hc.
  apply outcome_bind_Ok in El as (? & _ & El). apply outcome_bind_Ok in El as (version & Hvc & El).
  apply outcome_bind_Ok in El as ([v vl] & Hv' & El). rewrite Hv in Hv'. injection Hv' as <- <-.
  assert (version = en_version E) as ->.
  { unfold versionCheck in Hvc. apply outcome_bind_Ok in Hvc as ([w n] & Hw & Hvc). rewrite Hv in Hw. injection Hw as <- <-.
    do 3 (apply outcome_bind_Ok in Hvc as (? & _ & Hvc)). by injection Hvc as <-. }
  assert (0 < vlen <= slen (en_program E)) as Hvl.
  { unfold ProgramVersion in Hv. destruct (slen (en_program E) =? 0); [done|]. change (Uvarint_from _ 0 0 0) with (uvarintAt (en_program E) 0) in Hv.
    destruct (uvarintAt _ _) as [[a b]|] eqn:Eu; [|done]. injection Hv as -> ->. apply uvarintAt_inside in Eu; lia. }
  eapply check_loop_swept in El as (ck & Hsw & Hpc & _ & Hst).
  2: { split; cbn; [lia|set_solver|set_solver]. }
  cbn in Hst. exists (ck_instructionStarts ck). split.
  - intros pc Hin. destruct (sw_start _ _ _ _ Hsw pc Hin) as (next & spec & Hi & _ & Hn & Hov & Hb). rewrite Hpc in Hn. exists next, spec.
    split_and!; try done. intros Hcb. destruct (Hb Hcb) as (t & Ht & Hin'). exists t. split; [done|]. by eapply seen_target.
  - intros m Hr. enough (placed E ck m) as Hp by apply Hp. induction Hr as [version vlen' Hv'|m m' Hr IH Hlt Hl].
    + rewrite Hv in Hv'. injection Hv' as <- <-. split_and!; [exact Hst|done|constructor].
    + eapply safe_leads; [by eapply step_placed|exact Hl].
Qed.
End checked.

(** [pushint 10; L: pushint 1; -; dup; bnz L; !] *)
Definition count_down : evalEnv :=
  mkevalEnv (of_bytes [6; 129; 10; 129; 1; 9; 73; 64; 255; 249; 20]) 6 runModeSignature [] (mkcontext 0 0 []).
#[local] Existing Instance bazaar_hashes.
#[local] Existing Instance free_crypto.

Lemma check_control_flow_witness :
  check (en_program count_down) runModeSignature call_params = Ok tt /\
  exists starts : gset Z, 1 ∈ starts /\ forall m, reachable count_down m -> mc_pc m ∈ starts \/ mc_pc m = 11.
Proof.
  assert (check (en_program count_down) runModeSignature call_params = Ok tt) as Hc by (by vm_compute). split; [done|].
  destruct (check_control_flow count_down call_params 1) as (starts & _ & Hr); [by vm_compute|exact Hc|]. exists starts. split; [|exact Hr].
  destruct (Hr (initial 1)) as [Hin|He]; [by eapply (reach_initial _ 6)|exact Hin|vm_compute in He; discriminate].
Defined.

(** Every step of the check goes forward: the length of the program is fuel enough. *)
Lemma check_loop_fuel `{LogicHashes} `{AvmCrypto} program version mode maxCost n k : forall cost ck,
  slen program - ck_pc ck < Z.of_nat n ->
  check_loop (n + k) program version mode maxCost cost ck = check_loop n program version mode maxCost cost ck.
Proof.
  induction n as [|n IH]; intros cost ck Hn; cbn [check_loop Nat.add].
  { destruct k; cbn [check_loop]; by destruct (Z.ltb_spec (ck_pc ck) (slen program)); [lia|]. }
  destruct (ck_pc ck <? slen program); [|done]. destruct (checkStep _ _ _ _) as [[c ck']| |]; [|done..]. cbn [mbind outcome_bind]. cbv zeta.
  unfold failIf. destruct (maxCost <? _); [done|]. cbn [mbind outcome_bind].
  destruct (Z.leb_spec (ck_pc ck') (ck_pc ck)); [done|]. apply IH. lia.
Qed.
