(* ===== verification/AvmFuel.v ===== *)
(** Programs terminate: every instruction costs at least one unit of a budget that is
    finite, inner transactions included.  The pooled budget grows only by the inner
    application calls, whose number is pooled and limited, so the budget together with
    what all the calls still allowed would bring never grows. *)
From S2P Require Import Prelude Config Basics Transactions Bookkeeping StateDelta CompactCert Cow.
From S2P Require Import CowFacts CowStorage Balances CowBalances Apply ApplyFacts ApplyCorrect Eval EvalFacts EvalMoney.
From S2P Require Import Conserve AvmValue LogicParams LogicLedger LogicEval LogicFacts LogicMoney LogicCorrect LogicDepth.
From S2P Require Import AvmFields AvmMachine AvmOps AvmLoop AvmMath AvmTyped AvmOpsTyped AvmCheck.
#[local] Open Scope string_scope.
#[local] Open Scope list_scope.
#[local] Open Scope Z_scope.

(** Rules under which budgets are finite: if the budget is pooled, inner transactions
    are too, or the version that allows inner calls is not there yet. *)
Definition pooled_ok (p : ConsensusParams) : Prop :=
  0 <= proto_MaxAppProgramCost p /\
  (proto_EnableAppCostPooling p = true ->
     proto_EnableInnerTransactionPooling p = true \/ proto_LogicSigVersion p < innerAppsEnabledVersion).

(** Every version of the protocol has such rules. *)
Lemma protocols_pooled : Forall (fun np => pooled_ok np.2) protocols.
Proof.
  apply (Forall_impl (fun np : string * ConsensusParams =>
    ((0 <=? proto_MaxAppProgramCost np.2) &&
     (negb (proto_EnableAppCostPooling np.2) || proto_EnableInnerTransactionPooling np.2 || (proto_LogicSigVersion np.2 <? 6))) = true)).
  - apply Forall_forall. intros np Hnp.
    assert (forallb (fun np : string * ConsensusParams => (0 <=? proto_MaxAppProgramCost np.2) &&
      (negb (proto_EnableAppCostPooling np.2) || proto_EnableInnerTransactionPooling np.2 || (proto_LogicSigVersion np.2 <? 6))) protocols = true) as Hall
      by (by vm_compute). rewrite forallb_forall in Hall. by apply Hall, list_elem_of_In.
  - intros [n p] [H1%Z.leb_le H2]%andb_true_iff. split; [done|]. cbn in *. intros He. rewrite He in H2. cbn in H2.
    apply orb_true_iff in H2 as [->|H2%Z.ltb_lt]; [by left|by right].
Qed.

Lemma default_Some {A} (d x : A) : default d (Some x) = x.
Proof. done. Qed.

Section budgets.
  Context (p : ConsensusParams).

(** The inner transactions still allowed, and the pooled budget with what they bring. *)
Definition allowed (sh : Shared) : Z := Z.max 0 (default 0 (sh_pooledAllowedInners sh)).
Definition pool (sh : Shared) : Z := default 0 (sh_PooledApplicationBudget sh) + proto_MaxAppProgramCost p * allowed sh.

(** The number of inner transactions is pooled if the rules say so. *)
Definition counted (sh : Shared) : Prop :=
  proto_EnableInnerTransactionPooling p = true -> is_Some (sh_pooledAllowedInners sh).

(** Budgets do not grow. *)
Definition within (sh sh' : Shared) : Prop :=
  counted sh' /\ pool sh' <= pool sh /\ allowed sh' <= allowed sh /\
  (sh_PooledApplicationBudget sh' = None <-> sh_PooledApplicationBudget sh = None).
#[local] Notation state := (cowStack * evalState)%type.
Definition spent (s s' : state) : Prop :=
  same_txns s.2.2 s'.2.2 /\ (ep_Proto s.2.2 = p -> counted s.2.1 -> within s.2.1 s'.2.1).

Lemma within_pools sh sh' : same_pools sh sh' -> counted sh -> within sh sh'.
Proof. intros [H1 H2] Hc. unfold within, counted, pool, allowed. rewrite H1, H2. split_and!; [done|lia|lia|done]. Qed.

Lemma within_trans sh1 sh2 sh3 : within sh1 sh2 -> within sh2 sh3 -> within sh1 sh3.
Proof. intros (H1 & H2 & H3 & H4) (H5 & H6 & H7 & H8). split_and!; [done|lia|lia|]. by rewrite H8. Qed.

Lemma spent_refl s : spent s s.
Proof. split; [done|]. intros _ Hc. by apply within_pools. Qed.
Lemma spent_trans x y z : spent x y -> spent y z -> spent x z.
Proof.
  intros [Ht1 H1] [Ht2 H2]. pose proof Ht1 as (T1 & T2 & T3). pose proof Ht2 as (T4 & T5 & T6). split; [split_and!; congruence|].
  intros Hp Hc. specialize (H1 Hp Hc). eapply within_trans; [exact H1|]. apply H2; [congruence|apply H1].
Qed.
Lemma spent_params s v : same_txns s.2.2 v.2 -> same_pools s.2.1 v.1 -> spent s (s.1, v).
Proof. intros Ht Hp. split; [done|]. intros _. by apply within_pools. Qed.

Lemma keeps_spent_cow {A} (m : M cowStack A) : keeps spent (onCow m).
Proof. intros s. split; [done|]. intros _. by apply within_pools. Qed.

Lemma steady_spent B : steady B spent.
Proof.
  split.
  - apply spent_refl.
  - apply spent_trans.
  - intros A m _. apply keeps_spent_cow.
  - apply spent_params.
  - intros ec Hec. split; intros; try apply keeps_spent_cow. intros [s v]. cbn. unfold StatefulEval.
    pose proof (Hec gi i prog (child 1 s, v)) as Ht. destruct (ec gi i prog (child 1 s, v)) as [r [calf v']].
    destruct r as [[[] ed]|e|]; try done.
    destruct (if proto_LogicSigVersion _ <? 6 then _ else _); try done. by destruct (commitToParent calf).
Qed.

(** ** Submitting an inner group *)

(** A group whose calls, if any, are counted. *)
Definition callable (l : list SignedTxnWithAD) : Prop :=
  proto_EnableAppCostPooling p = true -> List.filter isAppCall l <> [] -> proto_EnableInnerTransactionPooling p = true.

Lemma keeps_same {A} (m : M cowStack A) : keeps (fun s s' : state => s'.2 = s.2) (onCow m).
Proof. done. Qed.

Context {L : LogicEnv} (B : roundCowParent).

Lemma checkSubtxns_same cx l : keeps (fun s s' : state => s'.2 = s.2) (mforeach (checkSubtxn B cx) l).
Proof.
  assert (forall x y z : state, y.2 = x.2 -> z.2 = y.2 -> z.2 = x.2) as Htr by congruence.
  induction l as [|sub l IH]; cbn [mforeach]; [by apply keeps_ret'|]. apply keeps_bind; [exact Htr| |by intros _].
  unfold checkSubtxn, authorizedSender, checkInnerCall. cbv zeta.
  repeat first [ (by apply keeps_ret') | (by apply keeps_gets) | (by apply keeps_throwIf) | (by apply keeps_lift') | apply keeps_same
               | lazymatch goal with |- keeps _ (_ ≫= _) => apply keeps_bind; [exact Htr| |intros ?] end | case_match ].
Qed.

Lemma filter_calls_length l : llen (List.filter isAppCall l) <= llen l.
Proof. unfold llen. pose proof (List.filter_length_le isAppCall l). lia. Qed.

Lemma filter_withGroup g l : length (List.filter isAppCall (map (withGroup g) l)) = length (List.filter isAppCall l).
Proof. induction l as [|sub l IH]; [done|]. cbn. change (isAppCall (withGroup g sub)) with (isAppCall sub). case_match; cbn; by rewrite IH. Qed.

Lemma groupSubtxns_calls cx subtxns ep subtxns' : groupSubtxns cx subtxns ep = Ok subtxns' ->
  llen subtxns' = llen subtxns /\ llen (List.filter isAppCall subtxns') = llen (List.filter isAppCall subtxns).
Proof.
  unfold groupSubtxns. case_match; [|by intros [= <-]]. intros (txn & _ & [= <-])%outcome_bind_Ok. unfold llen.
  by rewrite length_map, filter_withGroup.
Qed.

(** The budget an inner group brings is paid for by the transactions it uses up. *)
Lemma addBudget_within sh subtxns budget : counted sh -> callable subtxns -> 0 <= proto_MaxAppProgramCost p ->
  (forall n, proto_EnableInnerTransactionPooling p = true -> sh_pooledAllowedInners sh = Some n -> llen subtxns <= n) ->
  addBudget p subtxns (sh_PooledApplicationBudget sh) = Ok budget ->
  within sh (sh <| sh_pooledAllowedInners := (fun n => n - llen subtxns) <$> sh_pooledAllowedInners sh |>
                <| sh_PooledApplicationBudget := budget |>).
Proof.
  intros Hc Hcall HP Hn Hb. pose proof (filter_calls_length subtxns) as Hf. pose proof (llen_nonneg subtxns) as Hl0.
  pose proof (llen_nonneg (List.filter isAppCall subtxns)) as Hf0. unfold within, counted, pool, allowed. cbn.
  assert (Z.max 0 (default 0 ((fun n => n - llen subtxns) <$> sh_pooledAllowedInners sh)) <= Z.max 0 (default 0 (sh_pooledAllowedInners sh))) as Hmax
    by (destruct (sh_pooledAllowedInners sh); cbn; lia).
  assert (counted (sh <| sh_pooledAllowedInners := (fun n => n - llen subtxns) <$> sh_pooledAllowedInners sh |>)) as Hc'
    by (intros He; cbn; by apply fmap_is_Some, Hc).
  pose proof (Z.mul_le_mono_nonneg_l _ _ _ HP Hmax) as Hmul.
  unfold addBudget in Hb. destruct (proto_EnableAppCostPooling p) eqn:Ea; [|injection Hb as <-; split_and!; [done|lia|done|done]].
  destruct (sh_PooledApplicationBudget sh) as [b|] eqn:Eb; [|case_match; [done|]; injection Hb as <-; split_and!; [done|cbn; lia|done|done]].
  injection Hb as <-. split_and!; [done| |done|done]. rewrite !default_Some. destruct (List.filter isAppCall subtxns) as [|c l] eqn:Ef; [change (llen []) with 0; lia|].
  assert (proto_EnableInnerTransactionPooling p = true) as Hi by (apply Hcall; [done|by rewrite Ef]). destruct (Hc Hi) as [n En]. specialize (Hn n Hi En).
  rewrite En. cbn [fmap option_fmap option_map]. rewrite !default_Some, !Z.max_r by lia.
  assert (proto_MaxAppProgramCost p * (llen (c :: l) + (n - llen subtxns)) <= proto_MaxAppProgramCost p * n); [apply Z.mul_le_mono_nonneg_l|]; lia.
Qed.

Section submissions.
  Context (HP : 0 <= proto_MaxAppProgramCost p).
  Context (ec : list AppIndex -> Z -> AppIndex -> string -> M state (bool * EvalDelta)).
  Context (Hec : forall callers gi i code, keeps spent (ec callers gi i code)).

Lemma spent_bind {A C} (m : M state A) (k : A -> M state C) s :
  spent s (m s).2 -> (forall a s1, m s = (Ok a, s1) -> spent s1 (k a s1).2) -> spent s ((m ≫= k) s).2.
Proof.
  intros Hm Hk. unfold mbind, M_bind. destruct (m s) as [[a| |] s1] eqn:Em; [|done..]. eapply spent_trans; [exact Hm|by apply Hk].
Qed.
Lemma spent_read {A C} (f : state -> outcome A) (k : A -> M state C) s :
  (forall a, f s = Ok a -> spent s (k a s).2) -> spent s (((fun s => (f s, s)) ≫= k) s).2.
Proof. intros Hk. apply spent_bind; [apply spent_refl|]. intros a s1 [= Ha <-]. by apply Hk. Qed.

(** Running the inner group, together with counting its members. *)
Lemma runInner_spent cx subtxns s : callable subtxns ->
  (forall n, ep_Proto s.2.2 = p -> proto_EnableInnerTransactionPooling p = true -> sh_pooledAllowedInners s.2.1 = Some n -> llen subtxns <= n) ->
  spent s ((_ ← onShared (fun sh => sh <| sh_pooledAllowedInners := (fun n => n - llen subtxns) <$> sh_pooledAllowedInners sh |>);
            runInner B ec cx subtxns) s).2.
Proof.
  destruct s as [cow [sh ep]]. intros Hcall Hn. unfold mbind at 1, M_bind at 1, onShared, modify. cbn [fst snd].
  set (sh1 := sh <| sh_pooledAllowedInners := _ |>). unfold runInner. cbn [fst snd].
  assert (counted sh -> counted sh1) as Hc1 by (intros Hc He; cbn; by apply fmap_is_Some, Hc).
  assert (counted sh -> within sh sh1) as Hw1.
  { intros Hc. unfold within, pool, allowed. cbn. assert (0 <= llen subtxns) by apply llen_nonneg.
    assert (Z.max 0 (default 0 ((fun n => n - llen subtxns) <$> sh_pooledAllowedInners sh)) <= Z.max 0 (default 0 (sh_pooledAllowedInners sh))) as Hmax
      by (destruct (sh_pooledAllowedInners sh); cbn; lia).
    pose proof (Z.mul_le_mono_nonneg_l _ _ _ HP Hmax) as Hmul. split_and!; [by apply Hc1|lia|done|done]. }
  destruct (txnAt _ _ ≫= _) as [inner| |] eqn:Ei; [|split; [done|intros _; exact Hw1]..].
  apply outcome_bind_Ok in Ei as (txn & _ & Ei). unfold NewInnerEvalParams in Ei. apply outcome_bind_Ok in Ei as (b & Hb & [= <-]).
  match goal with |- context [performAll _ _ _ _ _ (cow, ?i)] => set (inner := i) end.
  pose proof (keeps_performAll B spent (steady_spent B) ec Hec (cx_appID cx :: cx_callers cx) (length subtxns) 0 (cow, inner)) as Hs.
  destruct (performAll _ _ _ _ _ _) as [r [cow' [sh' ep']]]. split; [done|]. cbn [fst snd]. intros Hp Hc. destruct Hs as [_ Hs]. cbn in Hs, Hp. rewrite Hp in Hb.
  assert (within sh inner.1) as Hw.
  { eapply addBudget_within; try done. intros n He En. by apply (Hn n Hp). }
  eapply within_trans; [exact Hw|]. apply Hs; [done|]. apply Hw.
Qed.

Lemma opTxSubmit_spent cx subtxns : callable subtxns -> keeps spent (opTxSubmit B ec cx subtxns).
Proof.
  intros Hcall s. unfold opTxSubmit. apply spent_read. intros remaining Hr. apply spent_bind; [apply spent_refl|]. intros pp s1 [= <- <-].
  apply spent_bind; [apply spent_refl|]. intros u1 s1 Ht. apply throwIf_Ok in Ht as [Ht ->]. apply orb_false_iff in Ht as [Hle%Z.ltb_ge _].
  apply spent_bind; [apply spent_refl|]. intros u2 s1 Ht. apply throwIf_Ok in Ht as [_ ->].
  apply spent_read. intros credit _. apply spent_bind; [by apply spent_params|]. intros u3 s1 [= _ <-].
  apply spent_bind; [apply (keeps_mforeach B spent (steady_spent B)), (keeps_checkSubtxn B spent (steady_spent B))|]. intros u4 s2 Hck.
  pose proof (checkSubtxns_same cx subtxns (s.1, (s.2.1 <| sh_FeeCredit := credit |>, s.2.2))) as Hs2. rewrite Hck in Hs2. cbn in Hs2.
  apply spent_read. intros subtxns' Hg. destruct (groupSubtxns_calls _ _ _ _ Hg) as [Hl Hf].
  assert (callable subtxns') as Hcall'.
  { intros He Hne. apply Hcall; [done|]. intros Hn. rewrite Hn in Hf. unfold llen in Hf. destruct (List.filter isAppCall subtxns'); [done|cbn in Hf; lia]. }
  rewrite <- Hl in *.
  enough (spent s2 ((ran ← (_ ← onShared (fun sh => sh <| sh_pooledAllowedInners := (fun n => n - llen subtxns') <$> sh_pooledAllowedInners sh |>);
                           runInner B ec cx subtxns');
                     onDelta cx (fun ed => ed <| ed_InnerTxns :=
                       ed_InnerTxns ed ++ map (fun txn => (stad_SignedTxn txn, stad_ApplyData txn)) ran |>)) s2).2) as Hfin.
  { unfold mbind, M_bind, onShared, modify in Hfin |- *. cbn in Hfin |- *. exact Hfin. }
  apply spent_bind; [|intros ran s3 _; apply (keeps_onDelta B spent (steady_spent B))].
  apply runInner_spent; [done|]. intros n Hp He En. destruct s2 as [cow2 st2]. cbn in Hs2. subst st2. cbn in Hp, En. unfold remainingInners in Hr. destruct s as [cow [sh ep]]. cbn in Hr, En, Hp.
  rewrite En, Hp, He in Hr. injection Hr as <-. lia.
Qed.

Lemma runProgram_spent {A} cx (Q : A -> Prop) (prg : prog A) : safe callable Q prg -> keeps spent (runProgram B ec cx prg).
Proof.
  induction prg as [a|e| |c k IH|k IH|cost k IH|scratch k IH|gi txid k IH|g l logs k IH|subtxns k IH]; cbn [safe runProgram]; intros Hs s.
  - apply spent_refl.
  - apply spent_refl.
  - apply spent_refl.
  - apply spent_bind; [apply keeps_attempt, keeps_spent_cow|]. intros r s1 _. by apply IH.
  - apply spent_bind; [apply spent_refl|]. intros st s1 _. by apply IH.
  - destruct Hs as [Hcost Hs]. apply spent_bind; [|intros u s1 _; by apply IH]. split; [done|]. intros _ Hc. cbn. unfold within, pool, allowed. cbn.
    split_and!; [done| |done|]; destruct (sh_PooledApplicationBudget s.2.1); cbn; try done; lia.
  - apply spent_bind; [apply (keeps_setScratch B spent (steady_spent B))|]. intros r s1 _. by apply IH.
  - apply spent_bind; [apply (keeps_cacheID B spent (steady_spent B))|]. intros r s1 _. by apply IH.
  - apply spent_bind; [apply (keeps_onDelta B spent (steady_spent B))|]. intros r s1 _. by apply IH.
  - destruct Hs as [Hcall Hs]. apply spent_bind; [by apply opTxSubmit_spent|]. intros r s1 _. by apply IH.
Qed.
End submissions.
End budgets.

(** ** Exhaustion *)

(** The loop of the interpreter, with another answer when the fuel is used up. *)
Fixpoint run_or {L : LogicHashes} {C : AvmCrypto} (E : evalEnv) (exhausted : program) (fuel : nat) (m : machine) : program :=
  if mc_pc m <? slen (en_program E) then
    match fuel with
    | O => exhausted
    | S fuel' => m' ← step E m; run_or E exhausted fuel' m'
    end
  else finish m.

(** ** Logic signatures *)

Section signatures.
  Context {L : LogicHashes} {C : AvmCrypto}.

(** [runSignature] for any tree. *)
Fixpoint runs_alone {A} (prg : prog A) (st : evalState) : outcome A * evalState :=
  match prg with
  | Finish a => (Ok a, st)
  | Fail e => (Err e, st)
  | Crash => (Err (Errorf "panic in TEAL Eval"), st)
  | Look k => runs_alone (k st) st
  | Charge cost k => runs_alone k (charged cost st)
  | Store scratch k => runs_alone k st
  | CacheID gi txid k => runs_alone k (st.1, st.2 <| ep_txidCache := <[gi := txid]> (ep_txidCache st.2) |>)
  | Ask _ _ | Log _ _ _ _ | Submit _ _ => (Err (Errorf "ledger not available"), st)
  end.

Lemma runs_alone_signature (prg : program) : forall st, runSignature prg st = runs_alone prg st.
Proof. induction prg; intros st; cbn; auto. Qed.

Lemma runs_alone_bind {A D} (prg : prog A) (k : A -> prog D) : forall st, runs_alone (prg ≫= k) st =
  match runs_alone prg st with (Ok a, st') => runs_alone (k a) st' | (Err e, st') => (Err e, st') | (Panic, st') => (Panic, st') end.
Proof. unfold mbind. induction prg; intros st; cbn [prog_bind runs_alone]; auto. Qed.

Lemma runs_alone_leads {A} (prg : prog A) : forall st a st', runs_alone prg st = (Ok a, st') -> leads prg a /\ ep_Proto st'.2 = ep_Proto st.2.
Proof.
  induction prg as [a|e| |c f IH|f IH|cost f IH|scratch f IH|gi txid f IH|g l logs f IH|subtxns f IH]; intros st x st' Hr; cbn [runs_alone] in Hr; try done.
  1: injection Hr as <- <-; split; [constructor|done].
  all: apply IH in Hr as [Hl Hp]; split; [by econstructor|exact Hp].
Qed.

Lemma runs_alone_bind_Ok {A D} (prg : prog A) (k : A -> prog D) st d st' : runs_alone (prg ≫= k) st = (Ok d, st') ->
  exists a st1, runs_alone prg st = (Ok a, st1) /\ runs_alone (k a) st1 = (Ok d, st').
Proof. rewrite runs_alone_bind. destruct (runs_alone prg st) as [[a| |] st1]; [|done..]. eauto. Qed.
Lemma alone_tlift {A} (r : outcome A) a st st' : runs_alone (tlift r) st = (Ok a, st') -> r = Ok a /\ st' = st.
Proof. destruct r; cbn; try done. by intros [= <- <-]. Qed.
Lemma alone_tread {A} (f : evalState -> outcome A) a st st' : runs_alone (tread f) st = (Ok a, st') -> f st = Ok a /\ st' = st.
Proof. unfold tread, tlook. cbn. apply alone_tlift. Qed.

(** Every instruction of a logic signature is paid for. *)
Lemma signature_step E m st m' st' : en_mode E = runModeSignature -> runs_alone (step E m) st = (Ok m', st') ->
  mc_cost m < mc_cost m' <= proto_LogicSigMaxCost (ep_Proto st.2) /\ ep_Proto st'.2 = ep_Proto st.2.
Proof.
  intros Hmode Hr. split; [|by apply runs_alone_leads in Hr as [_ ?]]. unfold step in Hr.
  apply runs_alone_bind_Ok in Hr as (opcode & s1 & [Hop ->]%alone_tlift & Hr). destruct (opsByOpcode _ _) as [spec|] eqn:Es; [|done].
  do 3 (apply runs_alone_bind_Ok in Hr as (? & s1 & [_ ->]%alone_tlift & Hr)). cbv zeta in Hr. apply runs_alone_bind_Ok in Hr as (? & s1 & [_ ->]%alone_tlift & Hr).
  apply runs_alone_bind_Ok in Hr as (b & s1 & [Hb ->]%alone_tread & Hr). apply runs_alone_bind_Ok in Hr as (? & s1 & [Hge%failIf_Ok%Z.ltb_ge ->]%alone_tlift & Hr).
  apply runs_alone_bind_Ok in Hr as (? & s1 & _ & Hr). apply runs_alone_bind_Ok in Hr as (m2 & s2 & [Hl _]%runs_alone_leads & Hr).
  do 3 (apply runs_alone_bind_Ok in Hr as (? & s3 & [_ ->]%alone_tlift & Hr)). injection Hr as <- _.
  pose proof (op_cost _ _ _ Es) as Hpos. pose proof (safe_leads _ _ _ _ (proj1 (op_goes _ _ _ Es) E _) Hl) as (_ & Hcost & _). cbn in Hcost.
  unfold remainingBudget, charged in Hb. rewrite Hmode in Hb. cbn in Hb. injection Hb as <-. case_match; cbn; lia.
Qed.

Lemma signature_fuel E x n k : en_mode E = runModeSignature -> forall m st, (1 <= n)%nat ->
  proto_LogicSigMaxCost (ep_Proto st.2) - mc_cost m < Z.of_nat n -> runs_alone (run_or E x (n + k) m) st = runs_alone (run E n m) st.
Proof.
  intros Hmode. induction n as [|n IH]; intros m st Hn Hlt; [lia|]. cbn [Nat.add run run_or]. case_match; [|done]. rewrite !runs_alone_bind.
  destruct (runs_alone (step E m) st) as [[m'| |] st'] eqn:Er; [|done..]. destruct (signature_step E m st m' st' Hmode Er) as [Hc Hp].
  apply IH; [lia|]. rewrite Hp. lia.
Qed.
End signatures.

(** ** The evaluations of the interpreter *)

Lemma group_ok_callable p E l : pooled_ok p -> en_version E <= proto_LogicSigVersion p -> group_ok E l -> callable p l.
Proof.
  intros [_ Hp] Hv Hl He Hne. destruct (Hp He) as [Hi|Hlt]; [done|]. exfalso. apply Hne. clear Hne.
  induction Hl as [|txn l [_ Ht] Hl IH]; [done|]. cbn. rewrite IH. unfold isAppCall. case_bool_decide as Hty; [|done].
  specialize (Ht Hty). lia.
Qed.

Lemma safe_groups {A} (PS PS' : list SignedTxnWithAD -> Prop) (Q : A -> Prop) prg :
  (forall l, PS l -> PS' l) -> safe PS Q prg -> safe PS' Q prg.
Proof. intros HPS. induction prg; cbn; try done; try (intros ? ?; by auto); try (intros [? ?]; by auto); by auto. Qed.

Section interpreter.
  Context {L : LogicHashes} {C : AvmCrypto} (B : roundCowParent) (p : ConsensusParams) (Hp : pooled_ok p).
#[local] Instance the_avm : LogicEnv := avm.
#[local] Notation state := (cowStack * evalState)%type.
#[local] Notation spent := (spent p).

Lemma versionCheck_bound code ep version : versionCheck code ep = Ok version -> version <= proto_LogicSigVersion (ep_Proto ep).
Proof.
  unfold versionCheck. intros ([v n] & _ & H)%outcome_bind_Ok. apply outcome_bind_Ok in H as (? & _ & H).
  apply outcome_bind_Ok in H as (? & Hv%failIf_Ok%Z.ltb_ge & H). by apply outcome_bind_Ok in H as (? & _ & [= <-]).
Qed.

Lemma recovered_spent {A} (m : M state A) s : spent s (m s).2 -> spent s (recovered m s).2.
Proof. unfold recovered. by destruct (m s) as [[]]. Qed.

Section evaluations.
  Context (ec : list AppIndex -> Z -> AppIndex -> string -> M state (bool * EvalDelta)).
  Context (Hec : forall callers gi i code, keeps spent (ec callers gi i code)).

Lemma eval_spent cx code s : ep_Proto s.2.2 = p -> spent s (eval B ec cx code s).2.
Proof.
  intros Hs. apply recovered_spent. apply (spent_bind p); [apply spent_refl|]. intros ep s1 [= <- <-].
  apply (spent_bind p); [apply spent_refl|]. intros txn s1 [= _ <-].
  apply (spent_bind p); [apply spent_refl|]. intros u1 s1 Ht. apply throwIf_Ok in Ht as [_ ->].
  apply (spent_bind p); [apply spent_refl|]. intros u2 s1 Ht. apply throwIf_Ok in Ht as [_ ->].
  apply (spent_bind p); [apply spent_refl|]. intros version s1 [= Hv <-]. apply versionCheck_bound in Hv.
  assert (version <= proto_LogicSigVersion p) as Hv' by (rewrite <- Hs; exact Hv).
  apply (spent_bind p); [apply (keeps_onDelta B spent (steady_spent p B))|]. intros u3 s1 _.
  apply (runProgram_spent p B (proj1 Hp) ec Hec cx (fun _ => True)). eapply safe_groups; [|apply execute_typed].
  intros l Hl. eapply group_ok_callable; [exact Hp| |exact Hl]. exact Hv'.
Qed.

Lemma evalContract1_spent callers gi aid code : keeps spent (evalContract1 B ec callers gi aid code).
Proof.
  intros s. unfold evalContract1. apply (spent_bind p); [apply spent_refl|]. intros u1 s1 Ht. apply throwIf_Ok in Ht as [_ ->].
  apply (spent_bind p); [apply spent_refl|]. intros ep s1 [= <- <-]. apply (spent_bind p); [apply spent_refl|]. intros txn s1 [= _ <-].
  apply (spent_bind p); [apply spent_refl|]. intros budget s1 [= _ <-].
  apply (spent_bind p); [apply spent_refl|]. intros u2 s1 Ht. apply throwIf_Ok in Ht as [_ ->].
  apply (spent_bind p); [apply (keeps_setScratch B spent (steady_spent p B))|]. intros u3 s1 [= _ <-].
  apply (spent_bind p); [|intros pass s2 _; apply (spent_bind p); [apply spent_refl|]; intros ep s3 [= _ <-];
    apply (spent_bind p); [apply spent_refl|]; intros txn' s3 [= _ <-]; apply spent_refl].
  split; [apply (keeps_eval B txns_step (stable_txns_step B) ec); intros cs g i c s'; exact (proj1 (Hec cs g i c s'))|].
  intros Hs Hc. by apply eval_spent.
Qed.
End evaluations.

Lemma EvalContract_spent fuel : forall callers gi aid code, keeps spent (EvalContract B fuel callers gi aid code).
Proof.
  induction fuel as [|fuel IH]; intros callers gi aid code; cbn [EvalContract]; [intros s; apply spent_refl|]. by apply evalContract1_spent.
Qed.

(** ** The loop *)

Section loop.
  Context (depth : nat) (E : evalEnv) (Hv : en_version E <= proto_LogicSigVersion p).
#[local] Notation ec := (EvalContract B depth).
#[local] Notation runs := (runProgram B ec (en_cx E)).

(** The budget of a program with what the inner calls still allowed bring. *)
Definition left_over (m : machine) (st : evalState) : Z :=
  match remainingBudget E m st with Ok b => b + proto_MaxAppProgramCost p * allowed st.1 | _ => 0 end.

Lemma step_run m (s : state) m' (s' : state) : typed E m -> runs (step E m) s = (Ok m', s') -> exists cost b, 0 < cost /\
  remainingBudget E (m <| mc_cost := mc_cost m + cost |>) (charged cost s.2) = Ok b /\ 0 <= b /\
  spent (s.1, charged cost s.2) s' /\ mc_cost m' = mc_cost m + cost /\ typed E m'.
Proof.
  intros Hm Hr. pose proof (safe_run B ec (en_cx E) _ _ _ (step_typed E m Hm) _ _ _ Hr) as Ht. unfold step in Hr.
  rewrite runProgram_bind in Hr. apply bind_Ok in Hr as (opcode & s1 & [Hop ->]%(run_tlift B ec) & Hr).
  destruct (opsByOpcode _ _) as [spec|] eqn:Es; [|discriminate Hr]. do 3 (rewrite runProgram_bind in Hr; apply bind_Ok in Hr as (? & s1 & [_ ->]%(run_tlift B ec) & Hr)).
  cbv zeta in Hr. rewrite runProgram_bind in Hr; apply bind_Ok in Hr as (? & s1 & [_ ->]%(run_tlift B ec) & Hr).
  rewrite runProgram_bind in Hr. apply bind_Ok in Hr as (b & s1 & [Hb ->]%(run_tread B ec) & Hr).
  rewrite runProgram_bind in Hr. apply bind_Ok in Hr as (? & s1 & [Hge%failIf_Ok%Z.ltb_ge ->]%(run_tlift B ec) & Hr).
  rewrite runProgram_bind in Hr. apply bind_Ok in Hr as (? & s1 & Hch & Hr). unfold tcharge in Hch. cbn in Hch. injection Hch as _ <-.
  rewrite runProgram_bind in Hr. apply bind_Ok in Hr as (m2 & s2 & Hrun & Hr).
  do 3 (rewrite runProgram_bind in Hr; apply bind_Ok in Hr as (? & s1 & [_ ->]%(run_tlift B ec) & Hr)). injection Hr as Hm' <-.
  exists (od_Cost (os_Details spec)), b. split_and!; [by eapply op_cost|exact Hb|done| | |exact Ht].
  - assert (machine_ok E (m <| mc_cost := mc_cost m + od_Cost (os_Details spec) |>)) as Hm1 by exact (proj1 Hm).
    pose proof (op_typed _ _ _ E Es _ Hm1) as Hsafe.
    eapply safe_groups in Hsafe; [|intros l Hl; by eapply group_ok_callable].
    pose proof (runProgram_spent p B (proj1 Hp) ec (EvalContract_spent depth) (en_cx E) _ _ Hsafe) as Hk.
    specialize (Hk (s.1, charged (od_Cost (os_Details spec)) s.2)). 
    replace s2 with (runs (os_op spec E (m <| mc_cost := mc_cost m + od_Cost (os_Details spec) |>)) (s.1, charged (od_Cost (os_Details spec)) s.2)).2; [exact Hk|].
    exact (f_equal snd Hrun).
  - pose proof (safe_run B ec (en_cx E) _ _ _ (proj1 (op_goes _ _ _ Es) E _) _ _ _ Hrun) as (_ & Hcost & _). rewrite <- Hm'. by case_match.
Qed.

Lemma txnAt_same ep ep' gi txn : same_txns ep ep' -> txnAt ep gi = Ok txn ->
  exists txn', txnAt ep' gi = Ok txn' /\ stad_SignedTxn txn' = stad_SignedTxn txn.
Proof.
  intros (Hm & _) Ht. unfold txnAt in *. destruct (ep_TxnGroup ep !! Z.to_nat gi) as [x|] eqn:Ex; [|done]. injection Ht as <-.
  apply (f_equal (fun l => l !! Z.to_nat gi)) in Hm. rewrite !list_lookup_fmap, Ex in Hm. destruct (ep_TxnGroup ep' !! Z.to_nat gi) as [y|] eqn:Ey; [|done].
  injection Hm as Hm. by exists y.
Qed.

Lemma isClearState_same txn txn' : stad_SignedTxn txn' = stad_SignedTxn txn -> isClearState p txn' = isClearState p txn.
Proof. intros Ht. unfold isClearState, stad_tx. by rewrite Ht. Qed.

(** What is left shrinks with every instruction, and is positive before it. *)
Lemma left_over_step m (s : state) m' (s' : state) : ep_Proto s.2.2 = p -> counted p s.2.1 -> typed E m -> runs (step E m) s = (Ok m', s') ->
  1 <= left_over m s.2 /\ left_over m' s'.2 <= left_over m s.2 - 1 /\ ep_Proto s'.2.2 = p /\ counted p s'.2.1 /\ typed E m'.
Proof.
  destruct s as [cow [sh ep]], s' as [cow' [sh' ep']]. cbn [fst snd]. intros Hep Hc Hm Hr.
  destruct (step_run _ _ _ _ Hm Hr) as (c & b & Hpos & Hb & Hge & [Ht Hw] & Hcost & Hm'). cbn in Ht, Hw. specialize (Hw Hep Hc).
  pose proof Hw as (Hc' & Hpool & Hal & Hnone). pose proof Ht as (_ & Hep' & _). rewrite Hep in Hep'.
  unfold pool, allowed in Hpool, Hal. cbn in Hpool, Hal, Hnone. pose proof (Z.mul_le_mono_nonneg_l _ _ _ (proj1 Hp) Hal) as Hmul.
  assert (0 <= proto_MaxAppProgramCost p * Z.max 0 (default 0 (sh_pooledAllowedInners sh))) as Hnn by (apply Z.mul_nonneg_nonneg; [apply Hp|lia]).
  split; [|split; [|done]]; revert Hb; unfold left_over, remainingBudget, charged, allowed; cbn; rewrite ?Hep, ?Hep', ?Hcost;
    (case_match; [intros [= <-]; lia|]); unfold ownTxn; cbn; (destruct (txnAt ep (cx_GroupIndex (en_cx E))) as [txn| |] eqn:Etxn; [|done..]); cbn;
    try (destruct (txnAt_same _ _ _ _ Ht Etxn) as (txn' & -> & Htx); cbn; rewrite (isClearState_same _ _ Htx));
    (case_match; [intros [= <-]; lia|]); destruct (sh_PooledApplicationBudget sh) as [b0|] eqn:Eb; cbn in *; intros [= <-]; try lia.
  - destruct (sh_PooledApplicationBudget sh') as [b'|] eqn:Eb'; [cbn in *; lia|]. destruct Hnone as [Hno _]. by specialize (Hno eq_refl).
  - destruct (sh_PooledApplicationBudget sh') as [b'|] eqn:Eb'; [|cbn in *; lia]. destruct Hnone as [_ Hno]. by specialize (Hno eq_refl).
Qed.

(** Enough fuel is as good as more, and is not used up. *)
Lemma run_fuel x n k : forall m (s : state), ep_Proto s.2.2 = p -> counted p s.2.1 -> typed E m -> (1 <= n)%nat -> left_over m s.2 < Z.of_nat n ->
  runs (run_or E x (n + k) m) s = runs (run E n m) s.
Proof.
  induction n as [|n IH]; intros m s Hep Hc Hm Hn Hlt; [lia|]. cbn [Nat.add run run_or]. case_match; [|done]. rewrite !runProgram_bind.
  unfold mbind, M_bind. destruct (runs (step E m) s) as [[m'| |] s'] eqn:Er; [|done..].
  destruct (left_over_step _ _ _ _ Hep Hc Hm Er) as (H1 & H2 & Hep' & Hc' & Hm'). apply IH; try done; lia.
Qed.
End loop.


End interpreter.

(** [L: b L], forever. *)
Definition spin : string := of_bytes [6; 66; 255; 253].
#[local] Existing Instance bazaar_hashes.
#[local] Existing Instance free_crypto.
#[local] Instance spin_env : LogicEnv := avm.

