(* ===== verification/AvmInner.v ===== *)
(** Two defects of inner transactions: the IDs that programs read of them, and a type
    that can be chosen but not run. *)
From S2P Require Import Prelude Config Basics Transactions Bookkeeping StateDelta CompactCert Cow.
From S2P Require Import CowFacts CowStorage Balances CowBalances Apply ApplyFacts ApplyCorrect Eval EvalFacts EvalMoney.
From S2P Require Import Conserve AvmValue LogicParams LogicLedger LogicEval LogicFacts LogicMoney LogicCorrect LogicDepth.
From S2P Require Import AvmFields AvmMachine AvmOps AvmLoop AvmMath AvmTyped AvmOpsTyped AvmCheck AvmFuel.
#[local] Open Scope string_scope.
#[local] Open Scope list_scope.
#[local] Open Scope Z_scope.

(** ** The IDs of inner transactions *)

Section txids.
  Context {L : LogicEnv} (B : roundCowParent) (ec : list AppIndex -> Z -> AppIndex -> string -> M (cowStack * evalState) (bool * EvalDelta)).
  Context (E : evalEnv).
#[local] Notation runs := (runProgram B ec (en_cx E)).

(** The number of the field [TxID]. *)
Definition TxID_field : Z := 23.

(** The state with the ID of transaction 0 remembered. *)
Definition remembers (txid : Digest) (s : cowStack * evalState) : cowStack * evalState :=
  (s.1, (s.2.1, s.2.2 <| ep_txidCache := <[0 := txid]> (ep_txidCache s.2.2) |>)).

Lemma getTxID_run tx s : runs (getTxID tx 0) s =
  match ep_txidCache s.2.2 !! 0 with
  | Some txid => (Ok txid, s)
  | None => let txid := match ep_caller s.2.2 with Some (parent, offset) => lg_InnerID tx parent (offset + 0) | None => lg_ID tx end in
            (Ok txid, remembers txid s)
  end.
Proof.
  unfold getTxID. rewrite (run_bind B ec _ tlook _ s s.2 s) by done. destruct (ep_txidCache s.2.2 !! 0) as [txid|]; [done|]. cbv zeta.
  by destruct (ep_caller s.2.2) as [[parent offset]|].
Qed.

(** Reading the ID of a transaction, past the guards. *)
Lemma txnFieldToStack_TxID_run stxn fs ai inner s txid s' : txnFieldSpecByField TxID_field = Some fs -> innerAppsEnabledVersion <= en_version E ->
  runs (getTxID (stad_tx stxn) 0) s = (Ok txid, s') -> runs (txnFieldToStack E stxn fs ai 0 inner) s = (Ok (svDigest txid), s').
Proof.
  intros [= <-] Hv Hid. unfold txnFieldToStack. cbn [TxnField.effects TxnField.field TxnField.ftype andb].
  rewrite (run_bind B ec _ _ _ s tt s) by done. rewrite (run_bind B ec _ _ _ s tt s) by done.
  rewrite (run_bind B ec _ _ _ s tt s) by (rewrite (proj2 (Z.ltb_ge _ _)) by done; by rewrite andb_false_r).
  rewrite bool_decide_eq_true_2 by done. rewrite (run_bind B ec _ _ _ s (svDigest txid) s'); [done|]. by rewrite (run_bind B ec _ _ _ s txid s').
Qed.

Lemma opTxnImpl_TxID_run src group stxn rest s txid s' : innerAppsEnabledVersion <= en_version E ->
  match src with
  | srcGroup => Ok (ep_TxnGroup s.2.2)
  | srcInner => inners ← innersOf E s.2; Ok (getLastInner inners)
  | srcInnerGroup => inners ← innersOf E s.2; Ok (getLastInnerGroup inners)
  end = Ok group -> group = stxn :: rest ->
  runs (getTxID (stad_tx stxn) 0) s = (Ok txid, s') -> runs (opTxnImpl E 0 src TxID_field 0 false) s = (Ok (svDigest txid), s').
Proof.
  intros Hv Hg -> Hid. unfold opTxnImpl.
  assert (exists fs, txnFieldSpecByField TxID_field = Some fs /\ fetchField E TxID_field false = Ok fs /\ TxnField.effects fs = false) as (fs & Hfs & Hf & He).
  { assert ((en_version E <? 0) = false) as H0 by (apply Z.ltb_ge; unfold innerAppsEnabledVersion, ExtraProgramChecksVersion in Hv; lia).
    exists (TxnField.mkspec TxnField.TxID StackBytes false 0 0 false). split; [reflexivity|]. split; [|reflexivity]. unfold fetchField.
    change (txnFieldSpecByField TxID_field) with (Some (TxnField.mkspec TxnField.TxID StackBytes false 0 0 false)).
    cbn [TxnField.version TxnField.array]. by rewrite H0. }
  rewrite (run_bind B ec _ _ _ s fs s) by (rewrite runs_tlift; by rewrite Hf).
  rewrite (run_bind B ec _ _ _ s (stxn :: rest) s) by (rewrite runs_tread; rewrite He; cbn [andb]; f_equal; exact Hg).
  rewrite (run_bind B ec _ _ _ s stxn s) by (rewrite runs_tlift; f_equal; unfold element, llen; cbn; by rewrite (proj2 (Z.leb_gt _ _)) by lia).
  by eapply txnFieldToStack_TxID_run.
Qed.

Lemma getLastInner_snoc (l : list SignedTxnWithAD) x : getLastInner (l ++ [x]) = [x].
Proof. unfold getLastInner. rewrite length_app, Nat.add_sub. by rewrite drop_app_length. Qed.

(** What a program reads as the ID of its inner transaction is not that ID.
    In a program that no other program called, [itxn TxID] gives the ID the inner
    transaction would have at the top of a block ([lg_ID]), not the one it has below
    its caller ([lg_InnerID]); and if the ID of transaction 0 of the group was read
    before, which [getTxID] remembers by its index, [itxn TxID] gives that
    transaction's ID instead, whatever the inner transaction is. *)
Theorem itxn_TxID_wrong own rest inner inners (s : cowStack * evalState) :
  innerAppsEnabledVersion <= en_version E -> ep_caller s.2.2 = None -> ep_txidCache s.2.2 !! 0 = None ->
  ep_TxnGroup s.2.2 = own :: rest -> innersOf E s.2 = Ok (inners ++ [inner]) ->
  (runs (opTxnImpl E 0 srcInner TxID_field 0 false) s).1 = Ok (svDigest (lg_ID (stad_tx inner))) /\
  (runs (_ ← opTxnImpl E 0 srcGroup TxID_field 0 false; opTxnImpl E 0 srcInner TxID_field 0 false) s).1 =
    Ok (svDigest (lg_ID (stad_tx own))).
Proof.
  intros Hv Hcl Hca Hg Hi. split.
  - erewrite opTxnImpl_TxID_run; [reflexivity|done|exact (f_equal (fun r => l ← r; Ok (getLastInner l)) Hi)|by rewrite getLastInner_snoc|]. rewrite getTxID_run, Hca, Hcl. reflexivity.
  - erewrite run_bind; [|eapply opTxnImpl_TxID_run; [done|exact (f_equal Ok Hg)|reflexivity|]; rewrite getTxID_run, Hca, Hcl; reflexivity].
    erewrite opTxnImpl_TxID_run; [reflexivity|done|exact (f_equal (fun r => l ← r; Ok (getLastInner l)) Hi)|by rewrite getLastInner_snoc|].
    rewrite getTxID_run. cbn. by rewrite lookup_insert_eq.
Qed.
End txids.

(** ** A type that can be chosen but not run *)

Section addressprint.
  Context {L : LogicEnv} (B : roundCowParent).
#[local] Notation state := (cowStack * evalState)%type.
  Context (ec : list AppIndex -> Z -> AppIndex -> string -> M state (bool * EvalDelta)).
  Context (Hec : forall callers gi i code, keeps txns_step (ec callers gi i code)).

Lemma Perform_addressprint callers gi txn (s : state) : txnAt s.2.2 gi = Ok txn -> tx_Type (stad_tx txn) = AddressPrintTx ->
  forall u s', Perform B (ec callers) lg_CheckContract gi s <> (Ok u, s').
Proof.
  intros Ht Hty u s' Hr. unfold Perform in Hr.
  apply bind_Ok in Hr as (ep & s0 & [= <- <-] & Hr). apply bind_Ok in Hr as (txn' & s0 & Hl & Hr). apply lift_Ok in Hl as [Hl ->].
  assert (txn' = txn) as -> by (injection (eq_trans (eq_sym Hl) Ht); congruence). cbv zeta in Hr.
  apply bind_Ok in Hr as ([sr rr] & s1 & _ & Hr). apply bind_Ok in Hr as (? & s2 & _ & Hr). apply bind_Ok in Hr as (? & s3 & _ & Hr).
  apply bind_Ok in Hr as (? & s4 & Hp & _). unfold performType in Hp. rewrite Hty in Hp. discriminate Hp.
Qed.

Lemma performAll_addressprint callers n : forall gi (s : state) i txn, 0 <= gi -> (i < n)%nat ->
  ep_TxnGroup s.2.2 !! (Z.to_nat gi + i)%nat = Some txn -> tx_Type (stad_tx txn) = AddressPrintTx ->
  forall u s', performAll B ec callers gi n s <> (Ok u, s').
Proof.
  induction n as [|n IH]; intros gi s i txn Hgi Hi Hl Hty u s' Hr; [lia|]. cbn [performAll] in Hr.
  apply bind_Ok in Hr as (? & s1 & Hp & Hr). destruct i as [|i].
  { eapply Perform_addressprint; [|exact Hty|exact Hp]. unfold txnAt. by rewrite Nat.add_0_r in Hl; rewrite Hl. }
  pose proof (keeps_Perform B txns_step (st_steady B _ (stable_txns_step B)) (ec callers) (Hec callers) lg_CheckContract gi s) as Hk.
  rewrite Hp in Hk. cbn in Hk. apply bind_Ok in Hr as (? & s2 & Hrec & Hr). destruct s1 as [cow [sh ep]].
  cbn in Hrec. destruct (txnAt ep gi) as [txn'| |]; [|discriminate..]. injection Hrec as <- <-.
  assert (map stad_SignedTxn (ep_TxnGroup (setAD gi (stad_ApplyData txn') ep)) = map stad_SignedTxn (ep_TxnGroup s.2.2)) as Hsame.
  { destruct Hk as (H1 & _). destruct (setAD_txns gi (stad_ApplyData txn') ep) as (H4 & _). exact (eq_trans H4 H1). }
  apply (f_equal (fun l => l !! (Z.to_nat gi + S i)%nat)) in Hsame. rewrite !list_lookup_fmap, Hl in Hsame.
  destruct (ep_TxnGroup (setAD gi (stad_ApplyData txn') ep) !! (Z.to_nat gi + S i)%nat) as [txn2|] eqn:El; [|done]. injection Hsame as Hst.
  eapply (IH (gi + 1) _ i txn2); [lia|lia| | |exact Hr].
  - replace (Z.to_nat (gi + 1) + i)%nat with (Z.to_nat gi + S i)%nat by lia. exact El.
  - unfold stad_tx in *. by rewrite Hst.
Qed.

Lemma groupSubtxns_lookup cx subtxns ep subtxns' i sub : groupSubtxns cx subtxns ep = Ok subtxns' -> subtxns !! i = Some sub ->
  exists sub', subtxns' !! i = Some sub' /\ tx_Type (stad_tx sub') = tx_Type (stad_tx sub).
Proof.
  unfold groupSubtxns. case_match; [|intros [= <-] Hl; by exists sub]. intros (txn & _ & [= <-])%outcome_bind_Ok Hl.
  rewrite list_lookup_fmap, Hl. by eexists.
Qed.

Lemma submit_addressprint cx subtxns sub (s : state) : sub ∈ subtxns -> tx_Type (stad_tx sub) = AddressPrintTx ->
  forall u s', opTxSubmit B ec cx subtxns s <> (Ok u, s').
Proof.
  intros Hin Hty u s' Hr. apply list_elem_of_lookup_1 in Hin as [i Hi]. unfold opTxSubmit in Hr.
  do 7 (apply bind_Ok in Hr as (? & ? & _ & Hr)). apply bind_Ok in Hr as (subtxns' & s1 & [= Hg <-] & Hr).
  destruct (groupSubtxns_lookup _ _ _ _ _ _ Hg Hi) as (sub' & Hi' & Hty'). apply bind_Ok in Hr as (? & s2 & _ & Hr).
  apply bind_Ok in Hr as (ran & s3 & Hrun & _). unfold runInner in Hrun. destruct (txnAt _ _ ≫= _) as [inner| |] eqn:Ei; [|discriminate..].
  apply outcome_bind_Ok in Ei as (txn & _ & Ei). unfold NewInnerEvalParams in Ei. destruct s2 as [cow [sh ep]]. apply outcome_bind_Ok in Ei as (b & _ & [= <-]).
  match type of Hrun with context [performAll ?a ?b ?c ?d ?n ?st] => destruct (performAll a b c d n st) as [r [cow' [sh' ep']]] eqn:Ep end.
  destruct r as [[]| |]; [|discriminate..]. eapply (performAll_addressprint _ _ _ _ i sub'); [| | | |exact Ep]; [lia|by eapply lookup_lt_Some|exact Hi'|congruence].
Qed.
End addressprint.

(** A program can choose the type [addrprint] for an inner transaction,
    by its number or by its name, since version 5, but no group with such a member
    can ever be submitted: [Perform] has no case for it (its case is commented out),
    so [itxn_submit] fails whatever the fields and the balances are. *)
Theorem inner_addressprint_unusable (L : LogicHashes) (C : AvmCrypto) E st tx B depth cx subtxns sub s :
  5 <= en_version E ->
  stackIntoTxnField E st (SUint 7) TxnField.TypeEnum tx = Ok (tx <| tx_Type := AddressPrintTx |>) /\
  stackIntoTxnField E st (SBytes "addrprint") TxnField.Type_ tx = Ok (tx <| tx_Type := AddressPrintTx |>) /\
  (sub ∈ subtxns -> tx_Type (stad_tx sub) = AddressPrintTx -> forall u s',
     opTxSubmit (L := avm) B (EvalContract (L := avm) B depth) cx subtxns s <> (Ok u, s')).
Proof.
  intros Hv. assert (innerTypeAllowed E AddressPrintTx = true) as Ha by (by apply Z.leb_le). split_and!.
  - cbn [stackIntoTxnField]. cbv zeta. cbn [sv_uint mbind outcome_bind].
    change (negb (7 =? 0) && (7 <? llen TxnTypeNames)) with true. cbv iota. change (index_or_panic TxnTypeNames 7) with (Ok AddressPrintTx).
    cbn [mbind outcome_bind]. by rewrite Ha.
  - cbn [stackIntoTxnField]. cbv zeta. change (innerTypeByName "addrprint") with (Some AddressPrintTx). cbv iota. by rewrite Ha.
  - intros Hin Hty. apply submit_addressprint with sub; [|done|done]. intros. apply EvalContract_txns.
Qed.

#[local] Existing Instance bazaar_hashes.
#[local] Existing Instance free_crypto.
#[local] Instance inner_env : LogicEnv := avm.

Lemma inner_addressprint_unusable_witness :
  let inner ty := bazaar_txn ty 1030 0 PaymentTxnFields_zero (call_of 0 NoOpOC) in
  stackIntoTxnField push_max call_params (SUint 7) TxnField.TypeEnum (stad_tx (inner UnknownTx)) = Ok (stad_tx (inner AddressPrintTx)) /\
  forall s', opTxSubmit bazaar (EvalContract bazaar 9) (mkcontext 0 30 []) [inner AddressPrintTx] (market_stack, call_params) <> (Ok tt, s').
Proof.
  intros inner.
  destruct (inner_addressprint_unusable bazaar_hashes free_crypto push_max call_params (stad_tx (inner UnknownTx))
    bazaar 9 (mkcontext 0 30 []) [inner AddressPrintTx] (inner AddressPrintTx) (market_stack, call_params)) as (-> & _ & Hs); [by vm_compute|].
  split; [reflexivity|]. apply (Hs ltac:(by left) ltac:(reflexivity)).
Defined.

(** Application 30 has paid once. *)
Definition paid_once : evalState :=
  (call_params.1, call_params.2 <| ep_TxnGroup :=
     map (fun txn => mkSignedTxnWithAD (stad_SignedTxn txn)
            (ApplyData_zero <| ad_EvalDelta := mkEvalDelta ∅ ∅ []
               [(stad_SignedTxn (bazaar_txn PaymentTx 1030 7 PaymentTxnFields_zero ApplicationCallTxnFields_zero), ApplyData_zero)] |>))
       (ep_TxnGroup call_params.2) |>).

Lemma itxn_TxID_wrong_witness :
  (runProgram bazaar (EvalContract bazaar 9) (en_cx push_max)
     (_ ← opTxnImpl push_max 0 srcGroup TxID_field 0 false; opTxnImpl push_max 0 srcInner TxID_field 0 false) (market_stack, paid_once)).1 =
  Ok (svDigest 2000).
Proof.
  destruct (itxn_TxID_wrong bazaar (EvalContract bazaar 9) push_max (mkSignedTxnWithAD (stad_SignedTxn (bazaar_txn ApplicationCallTx 8 2000 PaymentTxnFields_zero (call_of 30 NoOpOC)))
            (ApplyData_zero <| ad_EvalDelta := mkEvalDelta ∅ ∅ []
               [(stad_SignedTxn (bazaar_txn PaymentTx 1030 7 PaymentTxnFields_zero ApplicationCallTxnFields_zero), ApplyData_zero)] |>)) []
     (mkSignedTxnWithAD (stad_SignedTxn (bazaar_txn PaymentTx 1030 7 PaymentTxnFields_zero ApplicationCallTxnFields_zero)) ApplyData_zero) []
     (market_stack, paid_once)) as [_ Ht]; [by vm_compute|reflexivity..|]. exact Ht.
Defined.
