(* ===== verification/Multisig.v ===== *)
(** [src/crypto/multisig.go] and [src/crypto/batchverifier.go]: signatures that
    several keys make together, and the queue signatures wait in until they are
    verified at once.  The comparisons of [logicsig.go] are here too.

    What is signed is a type [Hashable]; hashing, signing and the verification of one
    signature or of a batch are the class [SigCrypto].  The three slices of a
    [BatchVerifier] always grow together and are one list here; its capacity is left
    out. *)
From S2P Require Import Prelude Config Basics Transactions AvmValue.
#[local] Open Scope string_scope.
#[local] Open Scope list_scope.
#[local] Open Scope Z_scope.

(** ** Comparisons *)

Definition subsigs (msig : MultisigSig) : list MultisigSubsig := default [] (ms_Subsigs msig).

Definition MultisigSig_Blank (msig : MultisigSig) : bool :=
  (ms_Version msig =? 0) && (ms_Threshold msig =? 0) && bool_decide (ms_Subsigs msig = None).

Definition MultisigSig_Equal (msig other : MultisigSig) : bool :=
  (ms_Version msig =? ms_Version other) && (ms_Threshold msig =? ms_Threshold other) &&
  bool_decide (subsigs msig = subsigs other).

Definition MultisigPreimageFromPKs (version threshold : Z) (pks : list Address) : MultisigSig :=
  mkMultisigSig version threshold (Some (map (fun pk => mkMultisigSubsig pk 0) pks)).
Definition Preimage (msig : MultisigSig) : Z * Z * list Address :=
  (ms_Version msig, ms_Threshold msig, map mss_Key (subsigs msig)).

Definition LogicSig_Blank (lsig : LogicSig) : bool := slen (default "" (ls_Logic lsig)) =? 0.
Definition LogicSig_Len (lsig : LogicSig) : Z :=
  fold_left (fun len arg => len + slen (default "" arg)) (ls_Args lsig) (slen (default "" (ls_Logic lsig))).

(** A nil slice is equal to a nil slice only. *)
Definition safeSliceCheck (a b : option string) : bool := bool_decide (a = b).
Definition LogicSig_Equal (lsig b : LogicSig) : bool :=
  (ls_Sig lsig =? ls_Sig b) && MultisigSig_Equal (ls_Msig lsig) (ls_Msig b) &&
  safeSliceCheck (ls_Logic lsig) (ls_Logic b) &&
  bool_decide (length (ls_Args lsig) = length (ls_Args b)) &&
  forallb (fun '(x, y) => safeSliceCheck x y) (zip (ls_Args lsig) (ls_Args b)).

(** ** The errors *)

Definition errUnknownVersion : error := Errorf "unknown version".
Definition errInvalidVersion : error := Errorf "Invalid version".
Definition errInvalidAddress : error := Errorf "Invalid address".
Definition errInvalidThreshold : error := Errorf "Invalid threshold".
Definition errInvalidNumberOfSignature : error := Errorf "Invalid number of signatures".
Definition errKeyNotExist : error := Errorf "Key does not exist".
Definition errKeysNotMatch : error := Errorf "Public key lists do not match".
Definition errInvalidDuplicates : error := Errorf "Invalid duplicates".
Definition errInvalidNumberOfSig : error := Errorf "invalid number of signatures to add".
Definition ErrBatchVerificationFailed : error := Errorf "At least one signature didn't pass verification".
Definition ErrZeroTransactionInBatch : error := Errorf "Could not validate empty signature set".

Definition maxMultisig : Z := 255.
Definition wrap8 (x : Z) : Z := x mod 256.

(** A key pair; the secret part is a number as well. *)
Record SignatureSecrets : Type := mkSignatureSecrets { ss_SignatureVerifier : Address; ss_SK : Z }.

(** [sc_Verify key message signature compatible] checks one signature, in the way the
    batch does it when [compatible]; [sc_batch] checks a batch. *)
Class SigCrypto (Hashable : Type) : Type := {
  sc_Hash : string -> Digest;
  sc_Sign : Z -> Hashable -> Z;
  sc_Verify : Address -> Hashable -> Z -> bool -> bool;
  sc_batch : list (Hashable * Address * Z) -> bool }.

Section batch.
  Context {Hashable : Type} {C : SigCrypto Hashable}.

(** ** The batch *)

Record BatchVerifier : Type := mkBatchVerifier {
  bv_enqueued : list (Hashable * Address * Z); bv_useBatchVerification : bool }.

Definition MakeBatchVerifier (enableBatchVerification : bool) : BatchVerifier := mkBatchVerifier [] enableBatchVerification.

Definition EnqueueSignature (sigVerifier : Address) (message : Hashable) (sig : Z) (b : BatchVerifier) : BatchVerifier :=
  mkBatchVerifier (bv_enqueued b ++ [(message, sigVerifier, sig)]) (bv_useBatchVerification b).

Definition GetNumberOfEnqueuedSignatures (b : BatchVerifier) : Z := llen (bv_enqueued b).

Fixpoint verifyOneByOne (l : list (Hashable * Address * Z)) : outcome unit :=
  match l with
  | [] => Ok tt
  | (message, verifier, sig) :: rest =>
      if negb (sc_Verify verifier message sig false) then Err ErrBatchVerificationFailed else verifyOneByOne rest
  end.

Definition BatchVerifier_Verify (b : BatchVerifier) : outcome unit :=
  if GetNumberOfEnqueuedSignatures b =? 0 then Err ErrZeroTransactionInBatch
  else if bv_useBatchVerification b then
    if sc_batch (bv_enqueued b) then Ok tt else Err ErrBatchVerificationFailed
  else verifyOneByOne (bv_enqueued b).

(** Callers verify a batch unless nothing was enqueued. *)
Definition verifyEnqueued (b : BatchVerifier) : outcome unit :=
  if GetNumberOfEnqueuedSignatures b =? 0 then Ok tt else BatchVerifier_Verify b.

(** ** Addresses *)

Definition multiSigString : string := "MultisigAddr".

Definition MultisigAddrGen (version threshold : Z) (pk : list Address) : outcome Digest :=
  _ ← failIf (negb (version =? 1)) errUnknownVersion;
  _ ← failIf ((threshold =? 0) || (llen pk =? 0) || (llen pk <? threshold)) errInvalidThreshold;
  let buffer := String.append multiSigString (of_bytes [version; threshold]) in
  Ok (sc_Hash (fold_left (fun buffer pki => String.append buffer (digest_bytes pki)) pk buffer)).

Definition MultisigAddrGenWithSubsigs (version threshold : Z) (l : list MultisigSubsig) : outcome Digest :=
  _ ← failIf (negb (version =? 1)) errUnknownVersion;
  _ ← failIf ((threshold =? 0) || (llen l =? 0) || (llen l <? threshold)) errInvalidThreshold;
  let buffer := String.append multiSigString (of_bytes [version; threshold]) in
  Ok (sc_Hash (fold_left (fun buffer s => String.append buffer (digest_bytes (mss_Key s))) l buffer)).

(** ** Signing and combining *)

Definition MultisigSign (msg : Hashable) (addr : Digest) (version threshold : Z) (pk : list Address) (sk : SignatureSecrets)
    : outcome MultisigSig :=
  _ ← failIf (negb (version =? 1)) errUnknownVersion;
  addrnew ← MultisigAddrGen version threshold pk;
  _ ← failIf (negb (addr =? addrnew)) errInvalidAddress;
  _ ← failIf (negb (existsb (Z.eqb (ss_SignatureVerifier sk)) pk)) errKeyNotExist;
  Ok (mkMultisigSig version threshold (Some (map (fun key =>
        mkMultisigSubsig key (if ss_SignatureVerifier sk =? key then sc_Sign (ss_SK sk) msg else 0)) pk))).

(** The signatures of one list, where it has them, on top of those of another. *)
Definition overlay (l u : list MultisigSubsig) : list MultisigSubsig :=
  map (fun '(s, t) => mkMultisigSubsig (mss_Key s) (if negb (mss_Sig t =? 0) then mss_Sig t else mss_Sig s)) (zip l u).

Definition sameShape (m u : MultisigSig) (eLength : error) : outcome unit :=
  _ ← failIf (negb (ms_Threshold m =? ms_Threshold u)) errInvalidThreshold;
  _ ← failIf (negb (ms_Version m =? ms_Version u)) errInvalidVersion;
  _ ← failIf (negb (llen (subsigs m) =? llen (subsigs u))) eLength;
  failIf (negb (bool_decide (map mss_Key (subsigs m) = map mss_Key (subsigs u)))) errKeysNotMatch.

Fixpoint allSameShape (m : MultisigSig) (eLength : error) (l : list MultisigSig) : outcome unit :=
  match l with [] => Ok tt | u :: l' => _ ← sameShape m u eLength; allSameShape m eLength l' end.

Definition MultisigAssemble (unisig : list MultisigSig) : outcome MultisigSig :=
  match unisig with
  | first :: rest =>
      _ ← failIf (llen unisig <? 2) (Errorf "invalid number of signatures to assemble");
      _ ← allSameShape first errInvalidNumberOfSignature rest;
      let blank := map (fun s => mkMultisigSubsig (mss_Key s) 0) (subsigs first) in
      Ok (mkMultisigSig (ms_Version first) (ms_Threshold first)
            (Some (fold_left (fun l u => overlay l (subsigs u)) unisig blank)))
  | [] => Err (Errorf "invalid number of signatures to assemble")
  end.

(** Add the signatures of [u] that [l] lacks; one that differs from the one there is an
    error, which leaves what was added before it. *)
Fixpoint addSigs (l u : list MultisigSubsig) : bool * list MultisigSubsig :=
  match l, u with
  | s :: l', t :: u' =>
      if mss_Sig t =? 0 then let '(ok, r) := addSigs l' u' in (ok, s :: r)
      else if mss_Sig s =? 0 then let '(ok, r) := addSigs l' u' in (ok, mkMultisigSubsig (mss_Key s) (mss_Sig t) :: r)
      else if negb (mss_Sig s =? mss_Sig t) then (false, l)
      else let '(ok, r) := addSigs l' u' in (ok, s :: r)
  | _, _ => (true, l)
  end.

Fixpoint addAll (unisig : list MultisigSig) : M MultisigSig unit :=
  match unisig with
  | [] => mret tt
  | u :: rest => fun msig =>
      let '(ok, l) := addSigs (subsigs msig) (subsigs u) in
      let msig := mkMultisigSig (ms_Version msig) (ms_Threshold msig) (match ms_Subsigs msig with Some _ => Some l | None => None end) in
      if ok then addAll rest msig else (Err errInvalidDuplicates, msig)
  end.

(** The pointer [msig] is the state; its callers never pass nil. *)
Definition MultisigAdd (unisig : list MultisigSig) : M MultisigSig unit :=
  _ ← throwIf (llen unisig <? 1) errInvalidNumberOfSig;
  msig ← gets id;
  _ ← lift (allSameShape msig errKeysNotMatch unisig);
  addAll unisig.

Fixpoint mergeSigs (l1 l2 : list MultisigSubsig) : outcome (list MultisigSubsig) :=
  match l1, l2 with
  | s1 :: l1', s2 :: l2' =>
      sig ← (if mss_Sig s1 =? 0 then Ok (mss_Sig s2)
             else if (mss_Sig s2 =? 0) || (mss_Sig s2 =? mss_Sig s1) then Ok (mss_Sig s1)
             else Err errInvalidDuplicates);
      rest ← mergeSigs l1' l2';
      Ok (mkMultisigSubsig (mss_Key s1) sig :: rest)
  | _, _ => Ok []
  end.

Definition MultisigMerge (msig1 msig2 : MultisigSig) : outcome MultisigSig :=
  _ ← failIf (negb (ms_Threshold msig1 =? ms_Threshold msig2) || negb (ms_Version msig1 =? ms_Version msig2) ||
              negb (llen (subsigs msig1) =? llen (subsigs msig2))) errInvalidThreshold;
  _ ← failIf (negb (bool_decide (map mss_Key (subsigs msig1) = map mss_Key (subsigs msig2)))) errKeysNotMatch;
  l ← mergeSigs (subsigs msig1) (subsigs msig2);
  Ok (mkMultisigSig (ms_Version msig1) (ms_Threshold msig1) (Some l)).

(** ** Verification *)

Definition signed (s : MultisigSubsig) : bool := negb (mss_Sig s =? 0).

(** The number of signatures, counted in a byte. *)
Definition signedCount (l : list MultisigSubsig) : Z :=
  fold_left (fun counter s => if signed s then wrap8 (counter + 1) else counter) l 0.

Definition enqueueSubsigs (msg : Hashable) (l : list MultisigSubsig) (b : BatchVerifier) : BatchVerifier :=
  fold_left (fun b s => if signed s then EnqueueSignature (mss_Key s) msg (mss_Sig s) b else b) l b.

Definition MultisigBatchVerify (msg : Hashable) (addr : Digest) (sig : MultisigSig) : M BatchVerifier bool :=
  let l := subsigs sig in
  _ ← throwIf (match l with [] => true | s :: _ => bool_decide (s = mkMultisigSubsig 0 0) end) errInvalidNumberOfSignature;
  addrnew ← lift (MultisigAddrGenWithSubsigs (ms_Version sig) (ms_Threshold sig) l);
  _ ← throwIf (negb (addr =? addrnew)) errInvalidAddress;
  _ ← throwIf (maxMultisig <? llen l) errInvalidNumberOfSignature;
  _ ← throwIf (llen l <? ms_Threshold sig) errInvalidNumberOfSignature;
  _ ← throwIf (signedCount l <? ms_Threshold sig) errInvalidNumberOfSignature;
  _ ← modify (enqueueSubsigs msg l);
  _ ← throwIf (llen (List.filter signed l) <? ms_Threshold sig) errInvalidNumberOfSignature;
  mret true.

Definition MultisigVerify (msg : Hashable) (addr : Digest) (sig : MultisigSig) : outcome bool :=
  match MultisigBatchVerify msg addr sig (MakeBatchVerifier true) with
  | (Ok true, b) => _ ← verifyEnqueued b; Ok true
  | (Ok false, _) => Ok false
  | (Err e, _) => Err e
  | (Panic, _) => Panic
  end.

End batch.
Arguments BatchVerifier : clear implicits.
