(* ===== verification/MultisigFacts.v ===== *)
(** Multisignatures against the signatures they consist of: what a verified one proves,
    and that the signatures of enough keys, put together, verify. *)
From S2P Require Import Prelude Config Basics Transactions AvmValue Multisig.
#[local] Open Scope string_scope.
#[local] Open Scope list_scope.
#[local] Open Scope Z_scope.

(** Guards of a computation that succeeds, one after the other. *)
Lemma throwIf_then {S B} c e (k : unit -> M S B) s x s' :
  (throwIf c e ≫= k) s = (Ok x, s') <-> c = false /\ k tt s = (Ok x, s').
Proof. unfold throwIf, lift, failIf, mbind, M_bind. destruct c; naive_solver. Qed.
Lemma lift_then {S X B} (r : outcome X) (k : X -> M S B) s x s' :
  (lift r ≫= k) s = (Ok x, s') <-> exists y, r = Ok y /\ k y s = (Ok x, s').
Proof. unfold lift, mbind, M_bind. destruct r; naive_solver. Qed.
Lemma modify_then {S B} f (k : unit -> M S B) s x s' : (modify f ≫= k) s = (Ok x, s') <-> k tt (f s) = (Ok x, s').
Proof. done. Qed.

Section facts.
  Context {Hashable : Type} {C : SigCrypto Hashable}.
  (** A batch passes exactly when every signature in it is valid. *)
  Context (batch_exact : forall l, sc_batch l = true <-> Forall (fun '(m, k, s) => sc_Verify k m s true = true) l).

(** A signature is valid; [compat] says whether it is checked as batches do. *)
Definition valid (compat : bool) (e : Hashable * Address * Z) : Prop :=
  let '(m, k, s) := e in sc_Verify k m s compat = true.

Definition enqueue (l : list (Hashable * Address * Z)) (b : BatchVerifier Hashable) : BatchVerifier Hashable :=
  mkBatchVerifier (bv_enqueued b ++ l) (bv_useBatchVerification b).

Lemma enqueue_nil b : enqueue [] b = b.
Proof. destruct b. unfold enqueue. cbn. by rewrite app_nil_r. Qed.
Lemma enqueue_app l1 l2 b : enqueue l2 (enqueue l1 b) = enqueue (l1 ++ l2) b.
Proof. unfold enqueue. cbn. by rewrite app_assoc. Qed.
Lemma EnqueueSignature_one k m s b : EnqueueSignature k m s b = enqueue [(m, k, s)] b.
Proof. done. Qed.

Lemma verifyOneByOne_spec l : verifyOneByOne l = Ok tt <-> Forall (valid false) l.
Proof.
  induction l as [|[[m k] s] l IH]; cbn [verifyOneByOne]; [by split|]. rewrite Forall_cons, <- IH. unfold valid.
  destruct (sc_Verify _ _ _ _); cbn [negb]; naive_solver.
Qed.

Lemma verifyEnqueued_spec b : verifyEnqueued b = Ok tt <-> Forall (valid (bv_useBatchVerification b)) (bv_enqueued b).
Proof.
  unfold verifyEnqueued, BatchVerifier_Verify, GetNumberOfEnqueuedSignatures. destruct (Z.eqb_spec (llen (bv_enqueued b)) 0) as [E|E].
  - assert (bv_enqueued b = []) as -> by (apply nil_length_inv; unfold llen in E; lia). by split.
  - destruct (bv_useBatchVerification b); [|apply verifyOneByOne_spec].
    unfold valid. rewrite <- (batch_exact (bv_enqueued b)). destruct (sc_batch _); naive_solver.
Qed.

(** The outcomes of a batch. *)
Lemma verifyEnqueued_cases b : verifyEnqueued b = Ok tt \/ verifyEnqueued b = Err ErrBatchVerificationFailed.
Proof.
  unfold verifyEnqueued, BatchVerifier_Verify. destruct (_ =? 0) eqn:E; [by left|]. destruct (bv_useBatchVerification b); [destruct (sc_batch _); auto|].
  induction (bv_enqueued b) as [|[[m k] s] l IH]; cbn [verifyOneByOne]; [by left|]. destruct (sc_Verify _ _ _ _); cbn [negb]; [|by right].
  clear E. exact IH.
Qed.

(** ** What a multisignature needs *)

(** The signatures that are present. *)
Definition required (msg : Hashable) (msig : MultisigSig) : list (Hashable * Address * Z) :=
  map (fun s => (msg, mss_Key s, mss_Sig s)) (List.filter signed (subsigs msig)).

(** A multisignature of the account [addr], which is the hash of its keys and its
    threshold, with at least that many signatures. *)
Record multisig_of (addr : Digest) (msig : MultisigSig) : Prop := {
  mo_keys : match subsigs msig with [] => False | s :: _ => s <> mkMultisigSubsig 0 0 end;
  mo_address : MultisigAddrGenWithSubsigs (ms_Version msig) (ms_Threshold msig) (subsigs msig) = Ok addr;
  mo_size : llen (subsigs msig) <= maxMultisig;
  mo_enough : ms_Threshold msig <= llen (List.filter signed (subsigs msig)) }.

Lemma signedCount_from l : forall c, 0 <= c -> c + llen l <= 255 ->
  fold_left (fun counter s => if signed s then wrap8 (counter + 1) else counter) l c = c + llen (List.filter signed l).
Proof.
  unfold llen. induction l as [|s l IH]; intros c Hc Hl; cbn [fold_left List.filter length] in *; [lia|].
  destruct (signed s); cbn [length]; [|rewrite IH; lia].
  assert (wrap8 (c + 1) = c + 1) as -> by (apply Z.mod_small; lia). rewrite IH; lia.
Qed.
Lemma signedCount_exact l : llen l <= maxMultisig -> signedCount l = llen (List.filter signed l).
Proof. unfold maxMultisig. intros. unfold signedCount. rewrite signedCount_from; lia. Qed.

Lemma enqueueSubsigs_spec msg l : forall b, enqueueSubsigs msg l b = enqueue (map (fun s => (msg, mss_Key s, mss_Sig s)) (List.filter signed l)) b.
Proof.
  unfold enqueueSubsigs. induction l as [|s l IH]; intros b; cbn [fold_left List.filter map]; [by rewrite enqueue_nil|].
  destruct (signed s); rewrite IH; [|done]. rewrite EnqueueSignature_one, enqueue_app. done.
Qed.

Lemma MultisigBatchVerify_spec msg addr msig b b' :
  MultisigBatchVerify msg addr msig b = (Ok true, b') <-> multisig_of addr msig /\ b' = enqueue (required msg msig) b.
Proof.
  unfold MultisigBatchVerify. cbv zeta. rewrite throwIf_then, lift_then. setoid_rewrite throwIf_then. setoid_rewrite throwIf_then.
  setoid_rewrite throwIf_then. setoid_rewrite throwIf_then. setoid_rewrite modify_then. setoid_rewrite throwIf_then.
  rewrite enqueueSubsigs_spec. fold (required msg msig). unfold mret, M_ret. split.
  - intros (Hk & addr' & Ha & Hadd & Hs & Ht & Hc & He & [= <-]). apply negb_false_iff, Z.eqb_eq in Hadd as <-.
    apply Z.ltb_ge in Hs, He. split; [|done]. constructor; [|done..]. destruct (subsigs msig); [done|]. by apply bool_decide_eq_false in Hk.
  - intros [[Hk Ha Hs He] ->]. split; [destruct (subsigs msig); [done|by apply bool_decide_eq_false]|]. exists addr. rewrite signedCount_exact by done.
    assert (llen (List.filter signed (subsigs msig)) <= llen (subsigs msig)) by (unfold llen; apply Nat2Z.inj_le, List.filter_length_le).
    rewrite Z.eqb_refl, !(proj2 (Z.ltb_ge _ _)) by lia. done.
Qed.

Lemma MultisigBatchVerify_result msg addr msig b :
  match (MultisigBatchVerify msg addr msig b).1 with Ok ok => ok = true | Err _ => True | Panic => False end.
Proof.
  pose proof (fun r b' Hr => wp_run (MultisigBatchVerify msg addr msig)
    (fun r _ => match r with Ok ok => ok = true | Err _ => True | Panic => False end) b r b' Hr) as Hw.
  destruct (MultisigBatchVerify msg addr msig b) as [r b'] eqn:E. apply (Hw r b' eq_refl). clear.
  unfold MultisigBatchVerify. cbv zeta.
  wp_step; [done|]. unfold MultisigAddrGenWithSubsigs. destruct (negb _); [done|]. cbn [mbind outcome_bind failIf].
  destruct (_ || _); [done|]. cbn [mbind outcome_bind failIf]. wp_step. cbn [andThen]. do 4 (wp_step; [done|]). wp_step. by wp_step.
Qed.

(** A verified multisignature proves that at least as many of the signatures it names
    are valid as its threshold says, under keys that the address commits to. *)
Definition multi_signed (compat : bool) (addr : Digest) (msg : Hashable) (msig : MultisigSig) : Prop :=
  multisig_of addr msig /\ Forall (valid compat) (required msg msig).

Lemma MultisigVerify_spec msg addr msig : MultisigVerify msg addr msig = Ok true <-> multi_signed true addr msg msig.
Proof.
  unfold MultisigVerify, multi_signed. pose proof (MultisigBatchVerify_result msg addr msig (MakeBatchVerifier true)) as Hr.
  pose proof (MultisigBatchVerify_spec msg addr msig (MakeBatchVerifier true)) as Hs.
  destruct (MultisigBatchVerify _ _ _ _) as [[[]|e|] b]; cbn in Hr; [|done| |done].
  - destruct (proj1 (Hs b) eq_refl) as [Hm ->]. pose proof (verifyEnqueued_spec (enqueue (required msg msig) (MakeBatchVerifier true))) as Hv.
    cbn [enqueue MakeBatchVerifier bv_enqueued bv_useBatchVerification app] in Hv. rewrite <- Hv. unfold enqueue, MakeBatchVerifier. cbn [bv_enqueued bv_useBatchVerification app].
    destruct (verifyEnqueued _) as [[]| |]; cbn; naive_solver.
  - split; [done|]. intros [Hm _]. pose proof (proj2 (Hs _) (conj Hm eq_refl)) as H. discriminate H.
Qed.

(** ** Signing and combining *)

(** A key pair: what its secret part signs, its public part accepts, and the signature
    is not the empty one. *)
Definition key_pair (msg : Hashable) (sk : SignatureSecrets) : Prop :=
  sc_Verify (ss_SignatureVerifier sk) msg (sc_Sign (ss_SK sk) msg) true = true /\ sc_Sign (ss_SK sk) msg <> 0.

(** The slots of the keys [pks], signed by the holders of those in [sks]. *)
Definition slots (msg : Hashable) (pks : list Address) (sks : list SignatureSecrets) (l : list MultisigSubsig) : Prop :=
  map mss_Key l = pks /\
  Forall (fun s => if existsb (fun sk => ss_SignatureVerifier sk =? mss_Key s) sks
                   then exists sk, sk ∈ sks /\ ss_SignatureVerifier sk = mss_Key s /\ mss_Sig s = sc_Sign (ss_SK sk) msg
                   else mss_Sig s = 0) l.

Lemma MultisigSign_slots msg addr version threshold pks sk msig :
  MultisigSign msg addr version threshold pks sk = Ok msig ->
  ms_Version msig = version /\ ms_Threshold msig = threshold /\ slots msg pks [sk] (subsigs msig) /\
  MultisigAddrGen version threshold pks = Ok addr.
Proof.
  unfold MultisigSign. intros Hs. apply outcome_bind_Ok in Hs as (? & _ & Hs). apply outcome_bind_Ok in Hs as (a & Ha & Hs).
  apply outcome_bind_Ok in Hs as (? & He & Hs). apply failIf_Ok, negb_false_iff, Z.eqb_eq in He as <-.
  apply outcome_bind_Ok in Hs as (? & _ & [= <-]). split_and!; [done..| |done]. unfold slots. cbv [subsigs ms_Subsigs default from_option id]. split.
  - rewrite map_map. cbn. apply map_id.
  - apply Forall_forall. intros s Hin. apply list_elem_of_In, in_map_iff in Hin as (k & <- & _). cbn. rewrite orb_false_r.
    destruct (Z.eqb_spec (ss_SignatureVerifier sk) k); [|done]. exists sk. set_solver.
Qed.

Lemma slots_overlay msg pks sks sk l u : key_pair msg sk -> slots msg pks sks l -> slots msg pks [sk] u -> slots msg pks (sks ++ [sk]) (overlay l u).
Proof.
  intros [_ Hne] [Hl Fl] [Hu Fu]. unfold overlay. subst pks. unfold slots. revert u Hu Fu. induction l as [|s l IH]; intros [|t u] Hu Fu; try done.
  injection Hu as Hk Hu. inversion Fl as [|? ? Hs Fl']; subst. inversion Fu as [|? ? Ht Fu']; subst. destruct (IH Fl' u Hu Fu') as [H1 H2]. split.
  - cbn. f_equal. exact H1.
  - cbn [zip_with map]. constructor; [|exact H2]. cbn [mss_Key mss_Sig]. rewrite existsb_app. cbn [existsb] in Ht |- *. rewrite orb_false_r in Ht |- *. rewrite Hk in Ht.
    destruct (Z.eqb_spec (ss_SignatureVerifier sk) (mss_Key s)) as [E|E].
    + rewrite orb_true_r. destruct Ht as (sk' & Hin & _ & Hsig). apply list_elem_of_singleton in Hin as ->.
      exists sk. rewrite Hsig. destruct (Z.eqb_spec (sc_Sign (ss_SK sk) msg) 0) as [E0|]; [done|]. cbn. set_solver.
    + rewrite orb_false_r, Ht. cbn. destruct (existsb _ sks); [|done]. destruct Hs as (sk' & ? & ? & ?). exists sk'. set_solver.
Qed.

Lemma slots_blank msg pks l : map mss_Key l = pks -> slots msg pks [] (map (fun s => mkMultisigSubsig (mss_Key s) 0) l).
Proof.
  intros <-. split; [by rewrite map_map|]. apply Forall_forall. intros s Hin. by apply list_elem_of_In, in_map_iff in Hin as (? & <- & _).
Qed.

Lemma slots_assembled msg pks us sks : Forall2 (fun u sk => slots msg pks [sk] (subsigs u) /\ key_pair msg sk) us sks ->
  forall sks0 l, slots msg pks sks0 l -> slots msg pks (sks0 ++ sks) (fold_left (fun l u => overlay l (subsigs u)) us l).
Proof.
  induction 1 as [|u sk us sks [Hu Hk] _ IH]; intros sks0 l Hl; cbn [fold_left]; [by rewrite app_nil_r|].
  replace (sks0 ++ sk :: sks) with ((sks0 ++ [sk]) ++ sks) by (by rewrite <- app_assoc). apply IH. by apply slots_overlay.
Qed.

(** Slots whose keys are covered verify. *)
Lemma slots_signed msg pks sks l version threshold addr :
  Forall (key_pair msg) sks -> slots msg pks sks l -> MultisigAddrGen version threshold pks = Ok addr -> llen pks <= maxMultisig ->
  match pks with [] => False | k :: _ => k <> 0 end ->
  threshold <= llen (List.filter (fun k => existsb (fun sk => ss_SignatureVerifier sk =? k) sks) pks) ->
  multi_signed true addr msg (mkMultisigSig version threshold (Some l)).
Proof.
  intros Hk [<- Fl] Ha Hlen Hh Ht.
  assert (List.filter signed l = List.filter (fun s => existsb (fun sk => ss_SignatureVerifier sk =? mss_Key s) sks) l) as Hf.
  { apply List.filter_ext_in. intros s Hin. rewrite Forall_forall in Fl. specialize (Fl s (proj2 (list_elem_of_In _ _) Hin)). unfold signed.
    destruct (existsb _ _); [|by rewrite Fl]. destruct Fl as (sk & Hsk & _ & ->). rewrite Forall_forall in Hk. apply negb_true_iff, Z.eqb_neq, Hk, Hsk. }
  unfold llen in *. rewrite length_map in Hlen.
  split; [constructor; cbv [subsigs ms_Subsigs ms_Version ms_Threshold default from_option id]|].
  - destruct l as [|s l]; [done|]. intros ->. by apply Hh.
  - rewrite <- Ha. unfold MultisigAddrGen, MultisigAddrGenWithSubsigs, llen. rewrite !length_map. do 2 (destruct (failIf _ _); cbn [mbind outcome_bind]; [|done..]).
    do 2 f_equal. clear. generalize (multiSigString +:+ of_bytes [version; threshold]). induction l as [|s l IH]; intros buf; cbn [map fold_left]; [done|apply IH].
  - done.
  - unfold llen. rewrite Hf. clear -Ht. etrans; [exact Ht|]. clear. apply Nat2Z.inj_le, Nat.eq_le_incl.
    induction l as [|s l IH]; cbn [map List.filter]; [done|]. destruct (existsb _ _); cbn [length]; by rewrite IH.
  - unfold required. cbv [subsigs ms_Subsigs default from_option id]. apply Forall_forall. intros e He. apply list_elem_of_In, in_map_iff in He as (s & <- & Hin).
    rewrite Hf in Hin. apply filter_In in Hin as [Hin Hex]. rewrite Forall_forall in Fl. specialize (Fl s (proj2 (list_elem_of_In _ _) Hin)). rewrite Hex in Fl.
    destruct Fl as (sk & Hsk & <- & ->). rewrite Forall_forall in Hk. by destruct (Hk sk Hsk).
Qed.

(** The signatures that enough holders of keys make one by one
    ([MultisigSign]), put together ([MultisigAssemble]), are a multisignature of the
    account that verifies ([MultisigVerify]): when at least two of them signed and their
    keys fill at least as many slots of the account as its threshold says. *)
Theorem sign_assemble_verify msg addr version threshold pks sks us :
  Forall2 (fun u sk => MultisigSign msg addr version threshold pks sk = Ok u) us sks -> Forall (key_pair msg) sks ->
  2 <= llen sks -> llen pks <= maxMultisig -> match pks with [] => False | k :: _ => k <> 0 end ->
  threshold <= llen (List.filter (fun k => existsb (fun sk => ss_SignatureVerifier sk =? k) sks) pks) ->
  exists msig, MultisigAssemble us = Ok msig /\ MultisigVerify msg addr msig = Ok true.
Proof.
  intros Hus Hk Hl Hlen Hh Ht.
  assert (forall u sk, (fun u sk => MultisigSign msg addr version threshold pks sk = Ok u) u sk ->
    ms_Version u = version /\ ms_Threshold u = threshold /\ slots msg pks [sk] (subsigs u)) as Hsig.
  { intros u sk Hu. by apply MultisigSign_slots in Hu as (? & ? & ? & _). }
  assert (Forall2 (fun u sk => slots msg pks [sk] (subsigs u) /\ key_pair msg sk) us sks) as Hsl.
  { clear -Hus Hk Hsig. induction Hus as [|u sk us sks Hu _ IH]; inversion Hk; subst; constructor; [|by apply IH]. split; [by apply Hsig|done]. }
  assert (Forall (fun u => ms_Version u = version /\ ms_Threshold u = threshold /\ map mss_Key (subsigs u) = pks) us) as Hshape.
  { clear -Hus Hsig. induction Hus as [|u sk us sks Hu _ IH]; constructor; [|done]. destruct (Hsig u sk Hu) as (? & ? & [? _]). done. }
  destruct us as [|u us]; [inversion Hus; subst; unfold llen in Hl; cbn in Hl; lia|].
  inversion Hus as [|? sk ? sks' Hu Hus']; subst. inversion Hshape as [|? ? (Hv & Hth & Hkeys) Hshape']; subst.
  assert (allSameShape u errInvalidNumberOfSignature us = Ok tt) as Hall.
  { clear -Hshape'. induction Hshape' as [|w us (Hv' & Ht' & Hk') _ IH]; cbn [allSameShape]; [done|].
    unfold sameShape. rewrite Hv', Ht', !Z.eqb_refl, Hk', bool_decide_eq_true_2 by done.
    assert (llen (subsigs u) = llen (subsigs w)) as ->. { unfold llen. by rewrite <- (length_map mss_Key (subsigs w)), Hk', length_map. }
    rewrite Z.eqb_refl. exact IH. }
  unfold MultisigAssemble. replace (llen (u :: us) <? 2) with false.
  2: { symmetry. apply Z.ltb_ge. unfold llen in *. apply Forall2_length in Hus'. cbn in *. lia. }
  cbn [failIf mbind outcome_bind]. rewrite Hall. cbn [mbind outcome_bind]. eexists. split; [reflexivity|]. apply MultisigVerify_spec.
  destruct (MultisigSign_slots _ _ _ _ _ _ _ Hu) as (_ & _ & _ & Haddr).
  eapply slots_signed; [exact Hk| |exact Haddr|done|done|exact Ht].
  eapply (slots_assembled msg (map mss_Key (subsigs u)) (u :: us) (sk :: sks') Hsl []). by apply slots_blank.
Qed.

End facts.

(** Keys 11, 12 and 13; two of them are needed. *)
Lemma sign_assemble_verify_witness :
  let C : SigCrypto unit := {| sc_Hash := slen; sc_Sign := fun sk _ => sk + 1; sc_Verify := fun k _ s _ => s =? k + 1;
                               sc_batch := forallb (fun '(_, k, s) => s =? k + 1) |} in
  exists u v msig, MultisigSign (C := C) tt 110 1 2 [11; 12; 13] (mkSignatureSecrets 11 11) = Ok u /\
    MultisigSign (C := C) tt 110 1 2 [11; 12; 13] (mkSignatureSecrets 13 13) = Ok v /\
    MultisigAssemble [u; v] = Ok msig /\ MultisigVerify (C := C) tt 110 msig = Ok true.
Proof.
  intros C. eexists _, _.
  destruct (sign_assemble_verify (C := C) ltac:(intros l; cbn; rewrite forallb_forall, Forall_forall; setoid_rewrite list_elem_of_In;
      split; intros H [[m k] s] Hin; by apply (H (m, k, s)))
    tt 110 1 2 [11; 12; 13] [mkSignatureSecrets 11 11; mkSignatureSecrets 13 13]
    [mkMultisigSig 1 2 (Some [mkMultisigSubsig 11 12; mkMultisigSubsig 12 0; mkMultisigSubsig 13 0]);
     mkMultisigSig 1 2 (Some [mkMultisigSubsig 11 0; mkMultisigSubsig 12 0; mkMultisigSubsig 13 14])]) as (msig & Ha & Hv).
  - repeat constructor; by vm_compute.
  - repeat constructor; by vm_compute.
  - by vm_compute.
  - by vm_compute.
  - done.
  - by vm_compute.
  - exists msig. split; [by vm_compute|]. split; [by vm_compute|]. split; [exact Ha|exact Hv].
Defined.
