(* ===== verification/VerifyCache.v ===== *)
(** [src/data/transactions/verify/verifiedTxnCache.go]: the transactions whose
    signatures were verified lately, by ID, in three buckets that are recycled in turn
    and a map of pinned ones; and the context a group is verified in ([GroupContext] of
    txn.go).

    Every operation holds the lock of the cache, so it is one step.  Entries are never
    nil: the context of a group is nil only when the group is empty, and then there is
    nothing to enter.  The mocked caches are left out. *)
From S2P Require Import Prelude Config Basics Transactions Bookkeeping LogicParams AvmValue LogicEval Multisig.
#[local] Open Scope string_scope.
#[local] Open Scope list_scope.
#[local] Open Scope Z_scope.

#[export] Instance SpecialAddresses_eq_dec : EqDecision SpecialAddresses.
Proof. solve_decision. Defined.

(** ** The context of a group *)

Record GroupContext : Type := mkGroupContext {
  gc_specAddrs : SpecialAddresses;
  gc_consensusVersion : string;
  gc_consensusParams : ConsensusParams;
  gc_minTealVersion : Z;
  gc_signedGroupTxns : list SignedTxn }.

Definition PrepareGroupContext (group : list SignedTxn) (contextHdr : BlockHeader) : outcome (option GroupContext) :=
  if llen group =? 0 then Ok None
  else match Consensus !! bh_CurrentProtocol contextHdr with
       | None => Err (Errorf "protocol not supported")
       | Some consensusParams =>
           Ok (Some (mkGroupContext
             (mkSpecialAddresses (rs_FeeSink (bh_RewardsState contextHdr)) (rs_RewardsPool (bh_RewardsState contextHdr)))
             (bh_CurrentProtocol contextHdr) consensusParams
             (ComputeMinTealVersion (WrapSignedTxnsWithAD group) false) group))
       end.

(** [Equal] against the parts of a context that a lookup knows. *)
Definition GroupContext_Equal (g : GroupContext) (specAddrs : SpecialAddresses) (consensusVersion : string) (minTealVersion : Z) : bool :=
  bool_decide (gc_specAddrs g = specAddrs) && bool_decide (gc_consensusVersion g = consensusVersion) &&
  (gc_minTealVersion g =? minTealVersion).

(** ** The cache *)

Record verifiedTransactionCache : Type := mkCache {
  vc_entriesPerBucket : Z;
  vc_buckets : list (gmap Digest GroupContext);
  vc_pinned : gmap Digest GroupContext;
  vc_base : nat }.
#[export] Instance Eta_cache : Eta verifiedTransactionCache := fun r =>
  mkCache (vc_entriesPerBucket r) (vc_buckets r) (vc_pinned r) (vc_base r).

Definition maxPinnedEntries : Z := 500000.
Definition errTooManyPinnedEntries : error := Errorf "Too many pinned entries".
Definition errMissingPinnedEntry : error := Errorf "Missing pinned entry".

Definition MakeVerifiedTransactionCache (cacheSize : Z) : verifiedTransactionCache :=
  mkCache (Z.quot (cacheSize + 1) 2) [∅; ∅; ∅] ∅ 0.

(** The buckets from [base] backwards, around zero. *)
Definition bucketOrder (base n : nat) : list nat := map (fun k => (base + n - k) `mod` n)%nat (seq 0 n).

Fixpoint findIn (v : verifiedTransactionCache) (order : list nat) (id : Digest) : option (nat * GroupContext) :=
  match order with
  | [] => None
  | idx :: rest =>
      match vc_buckets v !! idx ≫= lookup id with
      | Some ctx => Some (idx, ctx)
      | None => findIn v rest id
      end
  end.
Definition findBucket (v : verifiedTransactionCache) (base : nat) (id : Digest) : option (nat * GroupContext) :=
  findIn v (bucketOrder base (length (vc_buckets v))) id.

Section cache.
  Context {L : LogicHashes}.

Definition SignedTxn_ID (s : SignedTxn) : Digest := lg_ID (stx_Txn s).

Definition add (txgroup : list SignedTxn) (groupCtx : GroupContext) (v : verifiedTransactionCache) : verifiedTransactionCache :=
  let size := match vc_buckets v !! vc_base v with Some b => Z.of_nat (size b) | None => 0 end in
  let v :=
    if vc_entriesPerBucket v <? size + llen txgroup then
      let base := ((vc_base v + 1) `mod` length (vc_buckets v))%nat in
      v <| vc_base := base |> <| vc_buckets := <[base := ∅]> (vc_buckets v) |>
    else v in
  v <| vc_buckets := alter (fun bucket => fold_left (fun b txn => <[SignedTxn_ID txn := groupCtx]> b) txgroup bucket)
                       (vc_base v) (vc_buckets v) |>.

Definition Add := add.

Definition AddPayset (groups : list (list SignedTxn * GroupContext)) (v : verifiedTransactionCache) : verifiedTransactionCache :=
  fold_left (fun v '(txgroup, ctx) => add txgroup ctx v) groups v.

(** The entry of a transaction, with the bucket to begin the next search at. *)
Definition findEntry (v : verifiedTransactionCache) (baseBucket : nat) (id : Digest) : option (GroupContext * nat) :=
  match vc_pinned v !! id with
  | Some ctx => Some (ctx, baseBucket)
  | None => match findBucket v baseBucket id with Some (idx, ctx) => Some (ctx, idx) | None => None end
  end.

Definition sameSignatures (s txn : SignedTxn) : bool :=
  (stx_Sig s =? stx_Sig txn) && MultisigSig_Equal (stx_Msig s) (stx_Msig txn) &&
  LogicSig_Equal (stx_Lsig s) (stx_Lsig txn) && (stx_AuthAddr s =? stx_AuthAddr txn).

(** How many transactions of a group, from the one at [txnIdx] on, are verified; the
    entry is indexed with the position in the group that is looked up, a panic if the
    cached group is shorter. *)
Fixpoint verifiedTxns (v : verifiedTransactionCache) (specAddrs : SpecialAddresses) (proto : string) (minTealVersion : Z)
    (baseBucket : nat) (txnIdx : Z) (txns : list SignedTxn) : outcome Z :=
  match txns with
  | [] => Ok 0
  | txn :: rest =>
      match findEntry v baseBucket (lg_ID (stx_Txn txn)) with
      | None => Ok 0
      | Some (entryGroup, baseBucket) =>
          if negb (GroupContext_Equal entryGroup specAddrs proto minTealVersion) then Ok 0
          else
            s ← index_or_panic (gc_signedGroupTxns entryGroup) txnIdx;
            if negb (sameSignatures s txn) then Ok 0
            else n ← verifiedTxns v specAddrs proto minTealVersion baseBucket (txnIdx + 1) rest; Ok (1 + n)
      end
  end.

Definition groupVerified (v : verifiedTransactionCache) (specAddrs : SpecialAddresses) (proto : string) (group : list SignedTxn) : outcome bool :=
  n ← verifiedTxns v specAddrs proto (ComputeMinTealVersion (WrapSignedTxnsWithAD group) false) (vc_base v) 0 group;
  Ok (negb (negb (n =? llen group) || (n =? 0))).

Fixpoint GetUnverifiedTranscationGroups (v : verifiedTransactionCache) (txnGroups : list (list SignedTxn))
    (specAddrs : SpecialAddresses) (proto : string) : outcome (list (list SignedTxn)) :=
  match txnGroups with
  | [] => Ok []
  | group :: rest =>
      verified ← groupVerified v specAddrs proto group;
      unverified ← GetUnverifiedTranscationGroups v rest specAddrs proto;
      Ok (if (verified : bool) then unverified else group :: unverified)
  end.

(** The entry of a pinned ID, wherever it is now. *)
Definition entryOf (v : verifiedTransactionCache) (id : Digest) : option GroupContext :=
  match vc_pinned v !! id with
  | Some ctx => Some ctx
  | None => snd <$> findBucket v (vc_base v) id
  end.

(** The keys of the map of pinned transactions are a list; their order is of no
    importance. *)
Definition UpdatePinned (pinnedTxns : list Digest) : M verifiedTransactionCache unit := fun v =>
  let pinned : gmap Digest GroupContext :=
    fold_left (fun p id => match entryOf v id with Some ctx => <[id := ctx]> p | None => p end) pinnedTxns ∅ in
  (failIf (existsb (fun id => bool_decide (entryOf v id = None)) pinnedTxns) errMissingPinnedEntry, v <| vc_pinned := pinned |>).

(** Move the entries of a group to the pinned ones; the result tells whether one was
    missing. *)
Fixpoint pinAll (baseBucket : nat) (txgroup : list SignedTxn) (v : verifiedTransactionCache) : bool * verifiedTransactionCache :=
  match txgroup with
  | [] => (false, v)
  | txn :: rest =>
      let txID := SignedTxn_ID txn in
      match vc_pinned v !! txID with
      | Some _ => pinAll baseBucket rest v
      | None =>
          match findBucket v baseBucket txID with
          | Some (idx, ctx) =>
              pinAll idx rest (v <| vc_pinned := <[txID := ctx]> (vc_pinned v) |>
                                 <| vc_buckets := alter (delete txID) idx (vc_buckets v) |>)
          | None => let '(_, v) := pinAll baseBucket rest v in (true, v)
          end
      end
  end.

Definition Pin (txgroup : list SignedTxn) : M verifiedTransactionCache unit := fun v =>
  if maxPinnedEntries <? Z.of_nat (size (vc_pinned v)) + llen txgroup then (Err errTooManyPinnedEntries, v)
  else let '(missing, v) := pinAll (vc_base v) txgroup v in (failIf missing errMissingPinnedEntry, v).

End cache.
