(* ===== verification/Verify.v ===== *)
(** [src/data/transactions/verify/txn.go]: the checks of a transaction that need no
    ledger, above all that it is signed: by a key, by a multisignature, or by a program
    that approves it and was itself signed or is the account.

    [PaysetGroups] cuts the groups of a block into worksets and lets a pool of workers
    verify them; here are the worksets and what a worker does with one, the scheduling
    is in [VerifyPayset].  Counters of metrics are left out. *)
From S2P Require Import Prelude Config Basics Transactions Bookkeeping LogicParams AvmValue LogicEval.
From S2P Require Import AvmFields AvmMachine AvmOps AvmLoop Multisig VerifyCache.
#[local] Open Scope string_scope.
#[local] Open Scope list_scope.
#[local] Open Scope Z_scope.

(** What is signed: a transaction or a program. *)
Inductive signable : Type := TxnToSign (tx : Transaction) | ProgramToSign (program : string).

Section verify.
  Context {L : LogicHashes} {A : AvmCrypto} {C : SigCrypto signable}.
#[local] Notation verifier := (BatchVerifier signable).

(** ** Logic signatures *)

(** The parameters programs of logic signatures are evaluated with: a group, without
    budgets or a ledger. *)
Definition signatureParams (g : GroupContext) : evalState :=
  (mkShared 0 None None resources_zero,
   mkEvalParams (gc_consensusParams g) (WrapSignedTxnsWithAD (gc_signedGroupTxns g)) ∅ (gc_minTealVersion g)
     (mkSpecialAddresses 0 0) ∅ None).

(** [MultisigBatchVerify] where only its first result is looked at. *)
Definition multisigOk (msg : signable) (addr : Digest) (msig : MultisigSig) (e : error) : M verifier unit := fun b =>
  match MultisigBatchVerify msg addr msig b with
  | (Ok true, b') => (Ok tt, b')
  | (Panic, b') => (Panic, b')
  | (_, b') => (Err e, b')
  end.

Definition LogicSigSanityCheckBatchVerify (txn : SignedTxn) (groupIndex : Z) (g : GroupContext) : M verifier unit :=
  let lsig := stx_Lsig txn in
  let logic := default "" (ls_Logic lsig) in
  let p := gc_consensusParams g in
  _ ← throwIf (proto_LogicSigVersion p =? 0) (Errorf "LogicSig not enabled");
  _ ← throwIf (slen logic =? 0) (Errorf "LogicSig.Logic empty");
  '(version, _) ← lift (match Uvarint_from (String.list_ascii_of_string logic) 0 0 0 with
                        | Some vl => Ok vl
                        | None => Err (Errorf "LogicSig.Logic bad version")
                        end);
  _ ← throwIf (proto_LogicSigVersion p <? version) (Errorf "LogicSig.Logic version too new");
  _ ← throwIf (proto_LogicSigMaxSize p <? LogicSig_Len lsig) (Errorf "LogicSig.Logic too long");
  _ ← throwIf (groupIndex <? 0) (Errorf "Negative groupIndex");
  _ ← lift (CheckSignature groupIndex (signatureParams g));
  let hasSig := negb (ls_Sig lsig =? 0) in
  let hasMsig := negb (MultisigSig_Blank (ls_Msig lsig)) in
  if negb hasSig && negb hasMsig then
    throwIf (negb (Authorizer txn =? cr_HashProgram logic)) (Errorf "LogicNot signed and not a Logic-only account")
  else if hasSig && hasMsig then throw (Errorf "LogicSig should only have one of Sig or Msig but has more than one")
  else if negb hasMsig then modify (EnqueueSignature (Authorizer txn) (ProgramToSign logic) (ls_Sig lsig))
  else multisigOk (ProgramToSign logic) (Authorizer txn) (ls_Msig lsig) (Errorf "logic multisig validation failed").

Definition LogicSigSanityCheck (txn : SignedTxn) (groupIndex : Z) (g : GroupContext) : outcome unit :=
  match LogicSigSanityCheckBatchVerify txn groupIndex g
          (MakeBatchVerifier (proto_EnableBatchVerification (gc_consensusParams g))) with
  | (Ok _, b) => verifyEnqueued b
  | (Err e, _) => Err e
  | (Panic, _) => Panic
  end.

(** The signature of the program is verified at once, not with the batch. *)
Definition logicSigBatchVerify (txn : SignedTxn) (groupIndex : Z) (g : GroupContext) : outcome unit :=
  _ ← LogicSigSanityCheck txn groupIndex g;
  _ ← failIf (groupIndex <? 0) (Errorf "Negative groupIndex");
  pass ← wrapErr (Errorf "rejected by logic") (EvalSignature groupIndex (signatureParams g)).1;
  failIf (negb pass) (Errorf "rejected by logic").

(** ** Transactions *)

Definition stxnVerifyCore (s : SignedTxn) (txnIdx : Z) (g : GroupContext) : M verifier unit :=
  let hasSig := negb (stx_Sig s =? 0) in
  let hasMsig := negb (MultisigSig_Blank (stx_Msig s)) in
  let hasLogicSig := negb (LogicSig_Blank (stx_Lsig s)) in
  let numSigs := boolToUint hasSig + boolToUint hasMsig + boolToUint hasLogicSig in
  if numSigs =? 0 then
    throwIf (negb ((hdr_Sender (tx_Header (stx_Txn s)) =? lg_CompactCertSender) &&
                   bool_decide (tx_Type (stx_Txn s) = CompactCertTx))) (Errorf "signedtxn has no sig")
  else if 1 <? numSigs then throw (Errorf "signedtxn should only have one of Sig or Msig or LogicSig")
  else if hasSig then modify (EnqueueSignature (Authorizer s) (TxnToSign (stx_Txn s)) (stx_Sig s))
  else if hasMsig then
    multisigOk (TxnToSign (stx_Txn s)) (Authorizer s) (stx_Msig s) (Errorf "multisig validation failed")
  else lift (logicSigBatchVerify s txnIdx g).

Definition TxnBatchVerify (s : SignedTxn) (txnIdx : Z) (g : GroupContext) : M verifier unit :=
  _ ← throwIf (negb (proto_SupportRekeying (gc_consensusParams g)) && negb (stx_AuthAddr s =? 0))
        (Errorf "nonempty AuthAddr but rekeying not supported");
  _ ← lift (WellFormed lg_CompactCertSender (stx_Txn s) (gc_specAddrs g) (gc_consensusParams g));
  stxnVerifyCore s txnIdx g.

Definition Txn (s : SignedTxn) (txnIdx : Z) (g : GroupContext) : outcome unit :=
  match TxnBatchVerify s txnIdx g (MakeBatchVerifier (proto_EnableBatchVerification (gc_consensusParams g))) with
  | (Ok _, b) => verifyEnqueued b
  | (Err e, _) => Err e
  | (Panic, _) => Panic
  end.

(** ** Groups *)

(** The members of a group from the one at [i] on, with the number of those that pay a
    fee and what they pay, so far. *)
Fixpoint verifyMembers (g : GroupContext) (i : Z) (stxs : list SignedTxn) (minFeeCount feesPaid : Z) : M verifier (Z * Z) :=
  match stxs with
  | [] => mret (minFeeCount, feesPaid)
  | stxn :: rest => fun b =>
      match TxnBatchVerify stxn i g b with
      | (Ok _, b) =>
          verifyMembers g (i + 1) rest
            (if bool_decide (tx_Type (stx_Txn stxn) = CompactCertTx) then minFeeCount else wrap64 (minFeeCount + 1))
            (AddSaturate feesPaid (hdr_Fee (tx_Header (stx_Txn stxn)))) b
      | (Err _, b) => (Err (Errorf "transaction invalid"), b)
      | (Panic, b) => (Panic, b)
      end
  end.

(** The checks of [TxnGroupBatchVerify]; the context of an empty group is nil and its
    parameters are a nil dereference. *)
Definition groupChecks (stxs : list SignedTxn) (contextHdr : BlockHeader) : M verifier GroupContext :=
  groupCtx ← lift (PrepareGroupContext stxs contextHdr);
  match groupCtx with
  | None => lift Panic
  | Some g =>
      '(minFeeCount, feesPaid) ← verifyMembers g 0 stxs 0 0;
      let '(feeNeeded, overflow) := OMul (proto_MinTxnFee (gc_consensusParams g)) minFeeCount in
      _ ← throwIf overflow (Errorf "txgroup fee requirement overflow");
      _ ← throwIf (feesPaid <? feeNeeded) (Errorf "txgroup had less fees than the minimum");
      mret g
  end.

(** A group that passes the checks is entered in the cache, which may be nil. *)
Definition TxnGroupBatchVerify (stxs : list SignedTxn) (contextHdr : BlockHeader)
    : M (verifier * option verifiedTransactionCache) GroupContext := fun '(b, cache) =>
  match groupChecks stxs contextHdr b with
  | (Ok g, b) => (Ok g, (b, Add stxs g <$> cache))
  | (Err e, b) => (Err e, (b, cache))
  | (Panic, b) => (Panic, (b, cache))
  end.

(** [config.Consensus[version].EnableBatchVerification], false for an unknown version. *)
Definition useBatchVerification (version : string) : bool :=
  match Consensus !! version with Some p => proto_EnableBatchVerification p | None => false end.

(** The signatures that were enqueued are verified after the group was entered in the
    cache. *)
Definition TxnGroup (stxs : list SignedTxn) (contextHdr : BlockHeader) : M (option verifiedTransactionCache) GroupContext := fun cache =>
  match TxnGroupBatchVerify stxs contextHdr
          (MakeBatchVerifier (useBatchVerification (bh_CurrentProtocol contextHdr)), cache) with
  | (Ok g, (b, cache)) => (_ ← verifyEnqueued b; Ok g, cache)
  | (Err e, (_, cache)) => (Err e, cache)
  | (Panic, (_, cache)) => (Panic, cache)
  end.

(** ** Worksets *)

Definition txnPerWorksetThreshold : Z := 32.
Definition concurrentWorksets : Z := 16.

(** The groups of the next workset, of those from the current position on: groups are
    taken while they fit; one that is too large is a workset of its own. *)
Fixpoint nextFrom (txnCounter : Z) (first : bool) (payset : list (list SignedTxn)) : list (list SignedTxn) :=
  match payset with
  | [] => []
  | group :: rest =>
      if txnPerWorksetThreshold <? txnCounter + llen group then if first then [group] else []
      else group :: nextFrom (txnCounter + llen group) false rest
  end.

(** The groups that are left; [idx] of the source counts those that are not. *)
Definition worksetBuilder : Type := list (list SignedTxn).
Definition worksetBuilder_next (w : worksetBuilder) : list (list SignedTxn) * worksetBuilder :=
  let txnGroups := nextFrom 0 true w in (txnGroups, drop (length txnGroups) w).
Definition completed (w : worksetBuilder) : bool := bool_decide (w = []).

(** What a worker does with a workset, before it enters the groups in the cache. *)
Fixpoint verifyGroups (txnGroups : list (list SignedTxn)) (blkHeader : BlockHeader) : M verifier (list (list SignedTxn * GroupContext)) :=
  match txnGroups with
  | [] => mret []
  | signTxnsGrp :: rest =>
      groupCtx ← groupChecks signTxnsGrp blkHeader;
      groupCtxs ← verifyGroups rest blkHeader;
      mret ((signTxnsGrp, groupCtx) :: groupCtxs)
  end.

Definition verifyWorkset (txnGroups : list (list SignedTxn)) (blkHeader : BlockHeader) : outcome (list (list SignedTxn * GroupContext)) :=
  match verifyGroups txnGroups blkHeader (MakeBatchVerifier (useBatchVerification (bh_CurrentProtocol blkHeader))) with
  | (Ok groups, b) => _ ← verifyEnqueued b; Ok groups
  | (Err e, _) => Err e
  | (Panic, _) => Panic
  end.

End verify.
