(* ===== verification/VerifyPayset.v ===== *)
(** [PaysetGroups] of [src/data/transactions/verify/txn.go]: the verification of the
    groups of a block by concurrent workers.

    A run is a sequence of steps of the loop, of the workers and of the caller, who may
    cancel it, in any order.  The channel [worksets] is the number of its tokens; the
    channel [worksDoneCh] is the list of results that wait in it.  A worker looks at the
    cancellation once, before it begins.  The pool runs every task it accepted; it
    refuses tasks when it is shut down.  Workers that are still busy when the loop has
    returned are not followed further. *)
From S2P Require Import Prelude Config Basics Transactions Bookkeeping LogicParams AvmValue LogicEval.
From S2P Require Import AvmFields AvmMachine AvmOps AvmLoop AvmMath Multisig VerifyCache Verify.
#[local] Open Scope string_scope.
#[local] Open Scope list_scope.
#[local] Open Scope Z_scope.

Definition workset : Type := list (list SignedTxn).

Definition errCanceled : error := Errorf "context canceled".

Record paysetState : Type := mkpaysetState {
  ps_builder : worksetBuilder;
  ps_nextWorkset : workset;
  ps_processing : Z;
  ps_worksets : Z;
  ps_running : list workset;
  ps_worksDoneCh : list (outcome unit);
  ps_canceled : bool;
  ps_cache : verifiedTransactionCache }.
#[export] Instance Eta_paysetState : Eta paysetState := fun r =>
  mkpaysetState (ps_builder r) (ps_nextWorkset r) (ps_processing r) (ps_worksets r) (ps_running r) (ps_worksDoneCh r)
    (ps_canceled r) (ps_cache r).

(** A worker that panics takes the process with it. *)
Inductive paysetRun : Type :=
| Looping (ps : paysetState)
| Returned (err : outcome unit) (cache : verifiedTransactionCache)
| Crashed.

Section payset.
  Context {L : LogicHashes} {A : AvmCrypto} {C : SigCrypto signable}.
  Context (blkHeader : BlockHeader).

Definition startPayset (payset : list (list SignedTxn)) (cache : verifiedTransactionCache) : paysetRun :=
  if llen payset =? 0 then Returned (Ok tt) cache
  else Looping (mkpaysetState payset [] 0 0 [] [] false cache).

(** The loop is past its head: there is a workset, or there are no more. *)
Definition selecting (ps : paysetState) : bool :=
  negb (bool_decide (ps_nextWorkset ps = [])) || completed (ps_builder ps).

(** The loop takes a result from the channel. *)
Definition received (res : outcome unit) (ps : paysetState) : paysetRun :=
  let ps := ps <| ps_processing := ps_processing ps - 1 |> <| ps_worksets := ps_worksets ps - 1 |> in
  match res with
  | Err e => Returned (Err e) (ps_cache ps)
  | _ => if (ps_processing ps =? 0) && completed (ps_builder ps) && bool_decide (ps_nextWorkset ps = [])
         then Returned (Ok tt) (ps_cache ps) else Looping ps
  end.

Inductive paysetStep : paysetRun -> paysetRun -> Prop :=
| stepNext ps txnGroups builder : ps_nextWorkset ps = [] -> completed (ps_builder ps) = false ->
    worksetBuilder_next (ps_builder ps) = (txnGroups, builder) ->
    paysetStep (Looping ps) (Looping (ps <| ps_nextWorkset := txnGroups |> <| ps_builder := builder |>))
| stepCanceled ps : selecting ps = true -> ps_canceled ps = true ->
    paysetStep (Looping ps) (Returned (Err errCanceled) (ps_cache ps))
| stepEnqueue ps : selecting ps = true -> ps_worksets ps < concurrentWorksets -> ps_nextWorkset ps <> [] ->
    paysetStep (Looping ps)
      (Looping (ps <| ps_worksets := ps_worksets ps + 1 |> <| ps_processing := ps_processing ps + 1 |>
                   <| ps_running := ps_nextWorkset ps :: ps_running ps |> <| ps_nextWorkset := [] |>))
| stepRefused ps : selecting ps = true -> ps_worksets ps < concurrentWorksets -> ps_nextWorkset ps <> [] ->
    paysetStep (Looping ps) (Returned (Err errCanceled) (ps_cache ps))
| stepIdle ps : selecting ps = true -> ps_worksets ps < concurrentWorksets -> ps_nextWorkset ps = [] ->
    paysetStep (Looping ps) (Looping (ps <| ps_worksets := ps_worksets ps + 1 |>))
| stepReceive ps res rest : selecting ps = true -> ps_worksDoneCh ps = res :: rest -> 0 < ps_worksets ps ->
    paysetStep (Looping ps) (received res (ps <| ps_worksDoneCh := rest |>))
| stepWorkOk ps before w after groups : ps_running ps = before ++ w :: after ->
    llen (ps_worksDoneCh ps) < concurrentWorksets -> verifyWorkset w blkHeader = Ok groups ->
    paysetStep (Looping ps)
      (Looping (ps <| ps_running := before ++ after |> <| ps_worksDoneCh := ps_worksDoneCh ps ++ [Ok tt] |>
                   <| ps_cache := AddPayset groups (ps_cache ps) |>))
| stepWorkErr ps before w after e : ps_running ps = before ++ w :: after ->
    llen (ps_worksDoneCh ps) < concurrentWorksets ->
    verifyWorkset w blkHeader = Err e \/ (ps_canceled ps = true /\ e = errCanceled) ->
    paysetStep (Looping ps)
      (Looping (ps <| ps_running := before ++ after |> <| ps_worksDoneCh := ps_worksDoneCh ps ++ [Err e] |>))
| stepWorkPanic ps w : w ∈ ps_running ps -> verifyWorkset w blkHeader = Panic -> paysetStep (Looping ps) Crashed
| stepCancel ps : ps_canceled ps = false -> paysetStep (Looping ps) (Looping (ps <| ps_canceled := true |>)).

(** Runs, with the number of their steps. *)
Inductive paysetSteps : nat -> paysetRun -> paysetRun -> Prop :=
| runs_refl r : paysetSteps 0 r r
| runs_step n r1 r2 r3 : paysetSteps n r1 r2 -> paysetStep r2 r3 -> paysetSteps (S n) r1 r3.

(** ** The worksets *)

Lemma nextFrom_prefix payset : forall counter first, exists rest, payset = nextFrom counter first payset ++ rest.
Proof.
  induction payset as [|g payset IH]; intros counter first; cbn [nextFrom]; [by exists []|].
  destruct (_ <? _); [destruct first; by eexists|]. destruct (IH (counter + llen g) false) as [rest Hr].
  exists rest. cbn. by f_equal.
Qed.

Lemma next_split w gs w' : worksetBuilder_next w = (gs, w') -> w = gs ++ w'.
Proof.
  unfold worksetBuilder_next. intros [= <- <-]. destruct (nextFrom_prefix w 0 true) as [rest Hr].
  rewrite Hr at 1. f_equal. rewrite Hr at 2. by rewrite drop_app_length.
Qed.

Lemma next_nonempty w gs w' : w <> [] -> worksetBuilder_next w = (gs, w') -> gs <> [].
Proof. destruct w as [|g w]; [done|]. intros _ [= <- _]. cbn [nextFrom]. by destruct (_ <? _). Qed.

(** ** The invariant of the loop *)

Section invariant.
  Context (payset : list (list SignedTxn)) (cache0 : verifiedTransactionCache).

(** A group that is verified. *)
Definition passed (group : list SignedTxn) : Prop :=
  exists w groups, (forall g, g ∈ w -> g ∈ payset) /\ group ∈ w /\ verifyWorkset w blkHeader = Ok groups.

(** Where an error can come from. *)
Definition blamed (e : error) : Prop := e = errCanceled \/ exists w, (forall g, g ∈ w -> g ∈ payset) /\ verifyWorkset w blkHeader = Err e.

(** A group is still to be verified, is verified, or an error waits to be reported. *)
Definition located (ps : paysetState) (group : list SignedTxn) : Prop :=
  group ∈ ps_builder ps \/ group ∈ ps_nextWorkset ps \/ (exists w, w ∈ ps_running ps /\ group ∈ w) \/
  (exists e, Err e ∈ ps_worksDoneCh ps) \/ passed group.

Record loop_inv (ps : paysetState) : Prop := {
  li_processing : ps_processing ps = llen (ps_running ps) + llen (ps_worksDoneCh ps);
  li_tokens : ps_processing ps <= ps_worksets ps <= concurrentWorksets;
  li_idle : ps_processing ps < ps_worksets ps -> ps_builder ps = [] /\ ps_nextWorkset ps = [];
  li_busy : ps_builder ps <> [] \/ ps_nextWorkset ps <> [] \/ 0 < ps_processing ps;
  li_located : forall group, group ∈ payset -> located ps group;
  li_here : forall group, (group ∈ ps_builder ps \/ group ∈ ps_nextWorkset ps \/ exists w, w ∈ ps_running ps /\ group ∈ w) -> group ∈ payset;
  li_blamed : forall e, Err e ∈ ps_worksDoneCh ps -> blamed e;
  li_results : Panic ∉ ps_worksDoneCh ps }.

Definition run_inv (r : paysetRun) : Prop :=
  match r with
  | Looping ps => loop_inv ps
  | Returned (Ok _) _ => forall group, group ∈ payset -> passed group
  | Returned (Err e) _ => blamed e
  | Returned Panic _ => False
  | Crashed => exists w, (forall g, g ∈ w -> g ∈ payset) /\ verifyWorkset w blkHeader = Panic
  end.

Lemma selecting_next ps : selecting ps = true -> ps_nextWorkset ps = [] -> ps_builder ps = [].
Proof.
  unfold selecting, completed. intros Hs Hn. rewrite Hn in Hs. cbn in Hs. by apply bool_decide_eq_true in Hs.
Qed.

Lemma received_inv ps res rest : loop_inv ps -> selecting ps = true -> ps_worksDoneCh ps = res :: rest ->
  run_inv (received res (ps <| ps_worksDoneCh := rest |>)).
Proof.
  intros [Hp Ht Hi Hb Hl Hh Hbl Hr] Hs Hd. rewrite Hd in *. destruct res as [[]|e|]; cbn [received run_inv].
  2: { apply Hbl. by left. }
  2: { destruct Hr. by left. }
  assert (forall g, g ∈ payset -> located (ps <| ps_worksDoneCh := rest |>) g) as Hloc.
  { intros g Hg. destruct (Hl g Hg) as [H|[H|[H|[[e He]|H]]]]; unfold located; cbn; auto 6.
    rewrite Hd in He. apply elem_of_cons in He as [[=]|He]. eauto 8. }
  unfold received. cbn. rewrite Hp in *. unfold llen in *. cbn [length] in *.
  destruct (_ && _) eqn:E.
  - repeat apply andb_true_iff in E as [E ?]. apply Z.eqb_eq in E. rewrite ?bool_decide_eq_true in *. unfold completed in *. rewrite ?bool_decide_eq_true in *.
    assert (ps_running ps = [] /\ rest = []) as [Hrun ->].
    { split; apply nil_length_inv; lia. }
    intros g Hg. destruct (Hloc g Hg) as [H1|[H1|[(w & H1 & _)|[[e H1]|H1]]]]; [..|done]; cbn in H1.
    + replace (ps_builder ps) with (@nil (list SignedTxn)) in H1 by done. by apply elem_of_nil in H1.
    + replace (ps_nextWorkset ps) with (@nil (list SignedTxn)) in H1 by done. by apply elem_of_nil in H1.
    + rewrite Hrun in H1. by apply elem_of_nil in H1.
    + by apply elem_of_nil in H1.
  - constructor; cbn; unfold llen; try done; try lia.
    + intros. apply Hi. lia.
    + apply andb_false_iff in E as [E|E]; [apply andb_false_iff in E as [E|E]|].
      * apply Z.eqb_neq in E. right. right. lia.
      * left. by apply bool_decide_eq_false in E.
      * right. left. by apply bool_decide_eq_false in E.
    + intros e He. apply Hbl. by right.
    + intros He. apply Hr. by right.
Qed.

(** A worker that finishes with a result: its groups are verified, or an error waits. *)
Lemma worked_inv ps before w after res cache : loop_inv ps -> ps_running ps = before ++ w :: after ->
  (forall g, g ∈ w -> passed g \/ exists e, res = Err e) -> (forall e, res = Err e -> blamed e) -> res <> Panic ->
  loop_inv (ps <| ps_running := before ++ after |> <| ps_worksDoneCh := ps_worksDoneCh ps ++ [res] |> <| ps_cache := cache |>).
Proof.
  intros [Hp Ht Hi Hb Hl Hh Hbl Hr] Hw Hg He Hn. constructor; cbn; try done.
  - rewrite Hp, Hw. unfold llen. rewrite !length_app. cbn. lia.
  - intros g Hin. destruct (Hl g Hin) as [H|[H|[(w' & H & Hgw)|[[e H]|H]]]]; unfold located; cbn; auto 6.
    + rewrite Hw in H. apply elem_of_app in H as [H|H]; [right; right; left; exists w'; set_solver|].
      apply elem_of_cons in H as [->|H]; [|right; right; left; exists w'; set_solver].
      destruct (Hg g Hgw) as [H|[e H]]; [auto 6|]. do 3 right. left. exists e. rewrite H. set_solver.
    + do 3 right. left. exists e. set_solver.
  - intros g Hin. apply Hh. destruct Hin as [|[|(w' & H & ?)]]; auto. right. right. exists w'. rewrite Hw. set_solver.
  - intros e H. apply elem_of_app in H as [H|H]; [by apply Hbl|]. apply list_elem_of_singleton in H. by apply He.
  - intros H. apply elem_of_app in H as [H|H]; [done|]. apply list_elem_of_singleton in H. by apply Hn.
Qed.

Lemma running_here ps before w after : loop_inv ps -> ps_running ps = before ++ w :: after -> forall g, g ∈ w -> g ∈ payset.
Proof. intros Hinv Hw g Hg. apply (li_here _ Hinv). right. right. exists w. rewrite Hw. set_solver. Qed.

Lemma step_inv r r' : paysetStep r r' -> run_inv r -> run_inv r'.
Proof.
  destruct 1 as [ps gs bld Hn Hc Hx|ps Hs Hc|ps Hs Ht Hn|ps Hs Ht Hn|ps Hs Ht Hn|ps res rest Hs Hd Ht|ps bef w aft groups Hw Hd Hv|ps bef w aft e Hw Hd Hv|ps w Hw Hv|ps Hc]; cbn [run_inv]; intros Hinv.
  - pose proof (next_split _ _ _ Hx) as Hsp. apply bool_decide_eq_false in Hc. pose proof (next_nonempty _ _ _ Hc Hx) as Hne. destruct Hinv as [Hp Htk Hi Hb Hl Hh Hbl Hr].
    constructor; cbn; try done.
    + intros H. destruct (Hi H) as [? _]. done.
    + auto.
    + intros g Hg. destruct (Hl g Hg) as [H|[H|H]]; unfold located; cbn; [|rewrite Hn in H; set_solver|auto].
      rewrite Hsp in H. apply elem_of_app in H as [|]; auto.
    + intros g H. apply Hh. rewrite Hsp. set_solver.
  - by left.
  - destruct Hinv as [Hp Htk Hi Hb Hl Hh Hbl Hr]. constructor; cbn; try done; try lia.
    + rewrite Hp. unfold llen. cbn. lia.
    + intros H. destruct (decide (ps_processing ps < ps_worksets ps)) as [Hlt|]; [|lia]. by destruct (Hi Hlt).
    + right. right. unfold llen in Hp. lia.
    + intros g Hg. destruct (Hl g Hg) as [H|[H|[(w & H & Hw)|H]]]; unfold located; cbn; auto.
      * right. right. left. exists (ps_nextWorkset ps). set_solver.
      * right. right. left. exists w. set_solver.
    + intros g [H|[H|(w & H & Hg)]]; apply Hh; [auto|set_solver|]. apply elem_of_cons in H as [->|H]; eauto.
  - by left.
  - pose proof (selecting_next _ Hs Hn) as Hbd. destruct Hinv as [Hp Htk Hi Hb Hl Hh Hbl Hr]. constructor; cbn; try done; lia.
  - eapply received_inv; done.
  - eapply worked_inv; try done. intros g Hg. left. exists w, groups. split_and!; [by eapply running_here|done..].
  - replace (ps <| ps_running := bef ++ aft |> <| ps_worksDoneCh := ps_worksDoneCh ps ++ [Err e] |>) with
      (ps <| ps_running := bef ++ aft |> <| ps_worksDoneCh := ps_worksDoneCh ps ++ [Err e] |> <| ps_cache := ps_cache ps |>) by done.
    eapply worked_inv; try done; [eauto|]. intros e' [= <-]. destruct Hv as [Hv|[_ ->]]; [|by left]. right. exists w. split; [|done]. by eapply running_here.
  - exists w. split; [|done]. apply list_elem_of_split in Hw as (l1 & l2 & Hw). by eapply running_here.
  - destruct Hinv as [Hp Htk Hi Hb Hl Hh Hbl Hr]. by constructor.
Qed.

Lemma start_inv : run_inv (startPayset payset cache0).
Proof.
  unfold startPayset. destruct (Z.eqb_spec (llen payset) 0) as [E|E]; cbn [run_inv].
  - destruct payset; [set_solver|]. unfold llen in E. cbn in E. lia.
  - constructor; cbn; unfold llen; cbn; unfold concurrentWorksets; try lia; try set_solver.
    intros g Hg. by left.
Qed.

Lemma steps_inv n r : paysetSteps n (startPayset payset cache0) r -> run_inv r.
Proof.
  remember (startPayset payset cache0) as r0 eqn:E0. induction 1; subst; [apply start_inv|]. eapply step_inv; [done|auto].
Qed.

(** ** Progress and termination *)

(** The steps a run can still take. *)
Definition stepsLeft (r : paysetRun) : Z :=
  match r with
  | Looping ps => 62 * llen (ps_builder ps) + 61 * llen (ps_nextWorkset ps) + 40 * llen (ps_running ps)
                  + 20 * llen (ps_worksDoneCh ps) + (concurrentWorksets - ps_worksets ps) + (if ps_canceled ps then 0 else 1) + 1
  | _ => 0
  end.

Lemma step_decreases r r' : paysetStep r r' -> run_inv r -> 0 <= stepsLeft r' < stepsLeft r.
Proof.
  intros Hst Hinv. assert (run_inv r') as Hinv' by (by eapply step_inv).
  assert (forall q, run_inv q -> 0 <= stepsLeft q) as Hnn.
  { intros [ps| |]; cbn [run_inv stepsLeft]; [|lia..]. intros Hq. pose proof (li_tokens _ Hq).
    pose proof (llen_nonneg (ps_builder ps)). pose proof (llen_nonneg (ps_nextWorkset ps)). pose proof (llen_nonneg (ps_running ps)).
    pose proof (llen_nonneg (ps_worksDoneCh ps)). destruct (ps_canceled ps); lia. }
  split; [by apply Hnn|].
  assert (forall ps, run_inv (Looping ps) -> 0 < stepsLeft (Looping ps)) as Hpos.
  { intros ps Hq. pose proof (li_tokens _ Hq). cbn [stepsLeft].
    pose proof (llen_nonneg (ps_builder ps)). pose proof (llen_nonneg (ps_nextWorkset ps)). pose proof (llen_nonneg (ps_running ps)).
    pose proof (llen_nonneg (ps_worksDoneCh ps)). destruct (ps_canceled ps); lia. }
  destruct Hst as [ps gs bld Hn Hc Hx|ps Hs Hc|ps Hs Ht Hn|ps Hs Ht Hn|ps Hs Ht Hn|ps res rest Hs Hd Ht|ps bef w aft groups Hw Hd Hv|ps bef w aft e Hw Hd Hv|ps w Hw Hv|ps Hc];
    try (cbn [stepsLeft]; by apply Hpos).
  - pose proof (next_split _ _ _ Hx) as Hsp. apply bool_decide_eq_false in Hc. pose proof (next_nonempty _ _ _ Hc Hx) as Hne.
    cbn. rewrite Hn, Hsp. unfold llen. rewrite length_app. destruct gs; [done|]. cbn [length]. lia.
  - cbn. unfold llen. cbn [length]. destruct (ps_nextWorkset ps); [done|]. cbn [length]. lia.
  - cbn. lia.
  - unfold received. cbn. assert (0 < stepsLeft (Looping ps)) as H0 by (by apply Hpos).
    destruct res as [[]|e|]; [destruct (_ && _)| |destruct (_ && _)]; try (by apply Hpos); cbn [stepsLeft]; rewrite Hd; unfold llen; cbn; lia.
  - cbn. rewrite Hw. unfold llen. rewrite !length_app. cbn. lia.
  - cbn. rewrite Hw. unfold llen. rewrite !length_app. cbn. lia.
  - cbn. rewrite Hc. lia.
Qed.

Lemma step_exists ps : loop_inv ps -> exists r, paysetStep (Looping ps) r.
Proof.
  intros Hinv. pose proof Hinv as [Hp Ht Hi Hb _ _ _ _]. pose proof (llen_nonneg (ps_running ps)) as H1. pose proof (llen_nonneg (ps_worksDoneCh ps)) as H2.
  destruct (selecting ps) eqn:Hs.
  2: { unfold selecting in Hs. apply orb_false_iff in Hs as [Hn Hc]. apply negb_false_iff, bool_decide_eq_true in Hn.
       destruct (worksetBuilder_next (ps_builder ps)) as [gs b] eqn:E. eexists. by eapply stepNext. }
  destruct (ps_running ps) as [|w rest] eqn:Er.
  - destruct (ps_worksDoneCh ps) as [|res rest] eqn:Ed.
    + unfold llen in Hp. cbn in Hp. destruct (ps_nextWorkset ps) as [|g gs] eqn:En.
      { pose proof (selecting_next _ Hs En). destruct Hb as [|[|]]; [done..|lia]. }
      assert (ps_worksets ps < concurrentWorksets).
      { destruct (decide (ps_processing ps < ps_worksets ps)) as [Hlt|]; [by destruct (Hi Hlt)|]. unfold concurrentWorksets. lia. }
      eexists. apply stepEnqueue; [done|done|by rewrite En].
    + eexists. eapply stepReceive; [done|done|]. unfold llen in *. cbn in *. lia.
  - unfold llen in *. cbn [length] in *.
    assert (llen (ps_worksDoneCh ps) < concurrentWorksets) as Hlt by (unfold llen; lia).
    destruct (verifyWorkset w blkHeader) as [gs|e|] eqn:Ev.
    + eexists. by eapply (stepWorkOk ps [] w rest).
    + eexists. eapply (stepWorkErr ps [] w rest); [done|done|by left].
    + eexists. eapply stepWorkPanic; [|exact Ev]. rewrite Er. by left.
Qed.

Lemma steps_bounded n r : paysetSteps n (startPayset payset cache0) r -> Z.of_nat n + stepsLeft r <= stepsLeft (startPayset payset cache0).
Proof.
  remember (startPayset payset cache0) as r0 eqn:E0. induction 1 as [|n r1 r2 r3 Hr IH Hst]; [lia|]. subst.
  assert (run_inv r2) as Hi by (by eapply steps_inv). pose proof (step_decreases _ _ Hst Hi). specialize (IH eq_refl). lia.
Qed.
End invariant.
End payset.
