(* ===== verification/VerifyFacts.v ===== *)
(** What the verification of a group accepts: exactly the groups whose members are well
    formed, authorised and pay the fees; and what the worksets of a block prove. *)
From S2P Require Import Prelude Config Basics Transactions Bookkeeping LogicParams AvmValue LogicEval.
From S2P Require Import AvmFields AvmMachine AvmOps AvmLoop AvmMath Multisig MultisigFacts VerifyCache Verify VerifyPayset.
#[local] Open Scope string_scope.
#[local] Open Scope list_scope.
#[local] Open Scope Z_scope.

Section facts.
  Context {L : LogicHashes} {A : AvmCrypto} {C : SigCrypto signable}.
  Context (batch_exact : forall l, sc_batch l = true <-> Forall (fun '(m, k, s) => sc_Verify k m s true = true) l).
#[local] Notation verifier := (BatchVerifier signable).

(** ** Authorisation *)

Definition compat (g : GroupContext) : bool := proto_EnableBatchVerification (gc_consensusParams g).

(** The program of a logic signature is fit to be run, approves the transaction at [i]
    of the group, and speaks for the account: it is the account, or the account signed
    it. *)
Definition logic_signed (g : GroupContext) (i : Z) (s : SignedTxn) : Prop :=
  let lsig := stx_Lsig s in
  let logic := default "" (ls_Logic lsig) in
  let p := gc_consensusParams g in
  proto_LogicSigVersion p <> 0 /\
  (exists version vlen, Uvarint_from (String.list_ascii_of_string logic) 0 0 0 = Some (version, vlen) /\ version <= proto_LogicSigVersion p) /\
  LogicSig_Len lsig <= proto_LogicSigMaxSize p /\ 0 <= i /\
  CheckSignature i (signatureParams g) = Ok tt /\
  (EvalSignature i (signatureParams g)).1 = Ok true /\
  match negb (ls_Sig lsig =? 0), negb (MultisigSig_Blank (ls_Msig lsig)) with
  | false, false => Authorizer s = cr_HashProgram logic
  | true, false => valid (compat g) (ProgramToSign logic, Authorizer s, ls_Sig lsig)
  | false, true => multi_signed (compat g) (Authorizer s) (ProgramToSign logic) (ls_Msig lsig)
  | true, true => False
  end.

(** The transaction at [i] of the group carries exactly one kind of signature, and it
    authorises the transaction; only the transaction that reports a compact certificate
    carries none. *)
Definition authorised (g : GroupContext) (i : Z) (s : SignedTxn) : Prop :=
  match negb (stx_Sig s =? 0), negb (MultisigSig_Blank (stx_Msig s)), negb (LogicSig_Blank (stx_Lsig s)) with
  | false, false, false => hdr_Sender (tx_Header (stx_Txn s)) = lg_CompactCertSender /\ tx_Type (stx_Txn s) = CompactCertTx
  | true, false, false => valid (compat g) (TxnToSign (stx_Txn s), Authorizer s, stx_Sig s)
  | false, true, false => multi_signed (compat g) (Authorizer s) (TxnToSign (stx_Txn s)) (stx_Msig s)
  | false, false, true => logic_signed g i s
  | _, _, _ => False
  end.

(** A member of a group that passes. *)
Definition member_ok (g : GroupContext) (i : Z) (s : SignedTxn) : Prop :=
  (proto_SupportRekeying (gc_consensusParams g) = false -> stx_AuthAddr s = 0) /\
  WellFormed lg_CompactCertSender (stx_Txn s) (gc_specAddrs g) (gc_consensusParams g) = Ok tt /\
  authorised g i s.

(** ** Single transactions *)

(** A step of the verification accepts what [P] describes, once the signatures [l] are
    valid, which it leaves to the batch. *)
Definition accepts (m : M verifier unit) (P : list (signable * Address * Z) -> Prop) : Prop :=
  forall b b', m b = (Ok tt, b') <-> exists l, P l /\ b' = enqueue l b.

Lemma accepts_throwIf c e : accepts (throwIf c e) (fun l => l = [] /\ c = false).
Proof.
  intros b b'. unfold throwIf, lift, failIf. destruct c; split.
  - done.
  - by intros (l & [_ ?] & _).
  - intros [= <-]. exists []. by rewrite enqueue_nil.
  - intros (l & [-> _] & ->). by rewrite enqueue_nil.
Qed.

Lemma accepts_lift r : accepts (lift r) (fun l => l = [] /\ r = Ok tt).
Proof.
  intros b b'. unfold lift. destruct r as [[]|e|]; split; try done.
  - intros [= <-]. exists []. by rewrite enqueue_nil.
  - intros (l & [-> _] & ->). by rewrite enqueue_nil.
  - by intros (l & [_ ?] & _).
  - by intros (l & [_ ?] & _).
Qed.

Lemma accepts_enqueue k m s : accepts (modify (EnqueueSignature k m s)) (fun l => l = [(m, k, s)]).
Proof.
  intros b b'. unfold modify. split; [intros [= <-]; by eexists|]. by intros (l & -> & ->).
Qed.

Lemma accepts_throw e : accepts (throw e) (fun _ => False).
Proof. intros b b'. split; [done|]. by intros (l & [] & _). Qed.

Lemma accepts_multisig msg addr msig e : accepts (multisigOk msg addr msig e) (fun l => multisig_of addr msig /\ l = required msg msig).
Proof.
  intros b b'. unfold multisigOk. pose proof (MultisigBatchVerify_result msg addr msig b) as Hr. pose proof (MultisigBatchVerify_spec msg addr msig b) as Hs.
  destruct (MultisigBatchVerify _ _ _ _) as [[[]|e'|] b2]; cbn in Hr; try done.
  - destruct (proj1 (Hs b2) eq_refl) as [Hm ->]. split; [intros [= <-]; eauto|]. by intros (l & [_ ->] & ->).
  - split; [done|]. intros (l & [Hm ->] & ->). pose proof (proj2 (Hs _) (conj Hm eq_refl)) as H. discriminate H.
Qed.

(** The signatures a program needs. *)
Definition logicRequired (s : SignedTxn) : list (signable * Address * Z) :=
  let lsig := stx_Lsig s in
  let logic := default "" (ls_Logic lsig) in
  match negb (ls_Sig lsig =? 0), negb (MultisigSig_Blank (ls_Msig lsig)) with
  | true, false => [(ProgramToSign logic, Authorizer s, ls_Sig lsig)]
  | false, true => required (ProgramToSign logic) (ls_Msig lsig)
  | _, _ => []
  end.

Lemma accepts_guard c e m P : accepts m P -> accepts (throwIf c e ≫= fun _ => m) (fun l => c = false /\ P l).
Proof.
  intros Hm b b'. rewrite throwIf_then, (Hm b b'). split; [intros (Hc & l & HP & ->); eauto|]. intros (l & [Hc HP] & ->). eauto.
Qed.

Lemma accepts_call {X} (r : outcome X) k P : (forall y, accepts (k y) (P y)) ->
  accepts (lift r ≫= k) (fun l => exists y, r = Ok y /\ P y l).
Proof.
  intros Hk b b'. rewrite lift_then. split.
  - intros (y & Hr & Hm). apply Hk in Hm as (l & HP & ->). eauto.
  - intros (l & (y & Hr & HP) & ->). exists y. split; [done|]. apply Hk. eauto.
Qed.

Lemma accepts_ext m P Q : accepts m P -> (forall l, P l <-> Q l) -> accepts m Q.
Proof. intros Hm He b b'. rewrite (Hm b b'). by setoid_rewrite He. Qed.

(** The checks of a program, its signature apart. *)
Definition logic_sane (g : GroupContext) (i : Z) (s : SignedTxn) : Prop :=
  let lsig := stx_Lsig s in
  let logic := default "" (ls_Logic lsig) in
  let p := gc_consensusParams g in
  proto_LogicSigVersion p <> 0 /\ slen logic <> 0 /\
  (exists version vlen, Uvarint_from (String.list_ascii_of_string logic) 0 0 0 = Some (version, vlen) /\ version <= proto_LogicSigVersion p) /\
  LogicSig_Len lsig <= proto_LogicSigMaxSize p /\ 0 <= i /\ CheckSignature i (signatureParams g) = Ok tt.

Lemma sanity_accepts s i g : accepts (LogicSigSanityCheckBatchVerify s i g) (fun l =>
  logic_sane g i s /\ l = logicRequired s /\
  match negb (ls_Sig (stx_Lsig s) =? 0), negb (MultisigSig_Blank (ls_Msig (stx_Lsig s))) with
  | false, false => Authorizer s = cr_HashProgram (default "" (ls_Logic (stx_Lsig s)))
  | true, false => True
  | false, true => multisig_of (Authorizer s) (ls_Msig (stx_Lsig s))
  | true, true => False
  end).
Proof.
  unfold LogicSigSanityCheckBatchVerify, logic_sane, logicRequired. cbv zeta.
  set (logic := default "" (ls_Logic (stx_Lsig s))). set (p := gc_consensusParams g).
  set (tail := fun l => l = logicRequired s /\
      match negb (ls_Sig (stx_Lsig s) =? 0), negb (MultisigSig_Blank (ls_Msig (stx_Lsig s))) with
      | false, false => Authorizer s = cr_HashProgram logic
      | true, false => True
      | false, true => multisig_of (Authorizer s) (ls_Msig (stx_Lsig s))
      | true, true => False
      end).
  eapply accepts_ext.
  - do 2 apply accepts_guard. apply (accepts_call _ _ (fun '(version, _) l => (proto_LogicSigVersion p <? version) = false /\
      (proto_LogicSigMaxSize p <? LogicSig_Len (stx_Lsig s)) = false /\ (i <? 0) = false /\
      exists u, CheckSignature i (signatureParams g) = Ok u /\ tail l)).
    intros [version vlen]. do 3 apply accepts_guard. apply (accepts_call _ _ (fun _ => tail)). intros _. subst tail.
    unfold logicRequired. fold logic. destruct (negb (ls_Sig _ =? 0)), (negb (MultisigSig_Blank _)); cbn [negb andb].
    + eapply accepts_ext; [apply accepts_throw|]. naive_solver.
    + eapply accepts_ext; [apply accepts_enqueue|]. naive_solver.
    + eapply accepts_ext; [apply accepts_multisig|]. naive_solver.
    + eapply accepts_ext; [apply accepts_throwIf|]. intros l. cbv beta. by rewrite negb_false_iff, Z.eqb_eq.
  - intros l. subst tail. unfold logicRequired. fold logic. cbv beta. rewrite !Z.eqb_neq. split.
    + intros (Hv & Hl & [version vlen] & Hu & Hnew & Hlen & Hi & [] & Hc & Hrest). destruct (Uvarint_from _ _ _ _) as [[v n]|] eqn:Eu; [|done].
      injection Hu as -> ->. apply Z.ltb_ge in Hnew, Hlen, Hi. split; [|exact Hrest]. split_and!; eauto.
    + intros ((Hv & Hl & (version & vlen & Hu & Hnew) & Hlen & Hi & Hc) & Hrest). split_and!; [done..|]. exists (version, vlen). rewrite Hu.
      apply Z.ltb_ge in Hnew, Hlen, Hi. split_and!; eauto.
Qed.

Lemma run_accepts m P u : accepts m P ->
  (match m (MakeBatchVerifier u) with (Ok _, b) => verifyEnqueued b | (Err e, _) => Err e | (Panic, _) => Panic end) = Ok tt <->
  exists l, P l /\ Forall (valid u) l.
Proof.
  intros Hm. pose proof (Hm (MakeBatchVerifier u)) as Hs. destruct (m (MakeBatchVerifier u)) as [[[]|e|] b].
  - destruct (proj1 (Hs b) eq_refl) as (l & HP & Hb).
    assert (forall l', P l' -> l' = l) as Huniq.
    { intros l' HP'. pose proof (proj2 (Hs (enqueue l' (MakeBatchVerifier u))) (ex_intro _ l' (conj HP' eq_refl))) as He.
      rewrite Hb in He. by injection He. }
    rewrite (verifyEnqueued_spec batch_exact). subst b. cbn [enqueue MakeBatchVerifier bv_enqueued bv_useBatchVerification app]. split; [eauto|].
    intros (l' & HP' & Hv). by rewrite <- (Huniq l' HP').
  - split; [done|]. intros (l & HP & _). pose proof (proj2 (Hs _) (ex_intro _ l (conj HP eq_refl))) as H. discriminate H.
  - split; [done|]. intros (l & HP & _). pose proof (proj2 (Hs _) (ex_intro _ l (conj HP eq_refl))) as H. discriminate H.
Qed.

Lemma logicSig_spec s i g : logicSigBatchVerify s i g = Ok tt <-> slen (default "" (ls_Logic (stx_Lsig s))) <> 0 /\ logic_signed g i s.
Proof.
  pose proof (run_accepts _ _ (compat g) (sanity_accepts s i g)) as Hs. fold (LogicSigSanityCheck s i g) in Hs.
  assert (logicSigBatchVerify s i g = Ok tt <-> LogicSigSanityCheck s i g = Ok tt /\ 0 <= i /\ (EvalSignature i (signatureParams g)).1 = Ok true) as ->.
  { unfold logicSigBatchVerify. destruct (LogicSigSanityCheck s i g) as [[]| |]; cbn [mbind outcome_bind]; [|naive_solver..].
    unfold failIf. destruct (Z.ltb_spec i 0); cbn [mbind outcome_bind]; [naive_solver lia|].
    destruct (EvalSignature _ _).1 as [[]| |]; cbn; naive_solver. }
  rewrite Hs. clear Hs. unfold logic_signed, logic_sane, logicRequired, multi_signed. cbv zeta. split.
  - intros ((l & ((H1 & H2 & H3 & H4 & H5 & H6) & -> & Hm) & Hv) & _ & Hp). split; [done|]. split_and!; try done.
    destruct (negb _), (negb _); try done. by inversion Hv.
  - intros (H2 & H1 & H3 & H4 & H5 & H6 & Hp & Hm). split; [|done].
    eexists. split; [split_and!; [done..|reflexivity|]|]; destruct (negb _), (negb _); try done; try apply Hm. by constructor.
Qed.

(** The signatures of a transaction that wait for the batch. *)
Definition txnRequired (s : SignedTxn) : list (signable * Address * Z) :=
  if negb (stx_Sig s =? 0) then [(TxnToSign (stx_Txn s), Authorizer s, stx_Sig s)]
  else if negb (MultisigSig_Blank (stx_Msig s)) then required (TxnToSign (stx_Txn s)) (stx_Msig s) else [].

(** What a transaction needs besides valid signatures in the batch. *)
Definition signature_shape (g : GroupContext) (i : Z) (s : SignedTxn) : Prop :=
  match negb (stx_Sig s =? 0), negb (MultisigSig_Blank (stx_Msig s)), negb (LogicSig_Blank (stx_Lsig s)) with
  | false, false, false => hdr_Sender (tx_Header (stx_Txn s)) = lg_CompactCertSender /\ tx_Type (stx_Txn s) = CompactCertTx
  | true, false, false => True
  | false, true, false => multisig_of (Authorizer s) (stx_Msig s)
  | false, false, true => logic_signed g i s
  | _, _, _ => False
  end.

Lemma authorised_shape g i s : authorised g i s <-> signature_shape g i s /\ Forall (valid (compat g)) (txnRequired s).
Proof.
  unfold authorised, signature_shape, txnRequired, multi_signed.
  destruct (negb (stx_Sig s =? 0)), (negb (MultisigSig_Blank (stx_Msig s))), (negb (LogicSig_Blank (stx_Lsig s))); rewrite ?Forall_singleton, ?Forall_nil; tauto.
Qed.

Lemma core_accepts s i g : accepts (stxnVerifyCore s i g) (fun l => signature_shape g i s /\ l = txnRequired s).
Proof.
  unfold stxnVerifyCore, signature_shape, txnRequired. cbv zeta.
  destruct (negb (stx_Sig s =? 0)), (negb (MultisigSig_Blank (stx_Msig s))), (LogicSig_Blank (stx_Lsig s)) eqn:El; cbn [boolToUint negb Z.add Z.eqb Z.ltb Z.compare Pos.add Pos.succ Pos.compare Pos.compare_cont];
    try (eapply accepts_ext; [apply accepts_throw|]; naive_solver).
  - eapply accepts_ext; [apply accepts_enqueue|]. naive_solver.
  - eapply accepts_ext; [apply accepts_multisig|]. naive_solver.
  - eapply accepts_ext; [apply accepts_throwIf|]. intros l. cbv beta. rewrite negb_false_iff, andb_true_iff, Z.eqb_eq, bool_decide_eq_true. tauto.
  - eapply accepts_ext; [apply accepts_lift|]. intros l. cbv beta. rewrite logicSig_spec. unfold LogicSig_Blank in El. apply Z.eqb_neq in El. tauto.
Qed.

(** A member, its signatures apart. *)
Definition member_shape (g : GroupContext) (i : Z) (s : SignedTxn) : Prop :=
  (proto_SupportRekeying (gc_consensusParams g) = false -> stx_AuthAddr s = 0) /\
  WellFormed lg_CompactCertSender (stx_Txn s) (gc_specAddrs g) (gc_consensusParams g) = Ok tt /\ signature_shape g i s.

Lemma member_accepts s i g : accepts (TxnBatchVerify s i g) (fun l => member_shape g i s /\ l = txnRequired s).
Proof.
  unfold TxnBatchVerify, member_shape. eapply accepts_ext.
  - apply accepts_guard. apply (accepts_call _ _ (fun _ l => signature_shape g i s /\ l = txnRequired s)). intros _. apply core_accepts.
  - intros l. cbv beta. rewrite andb_false_iff, !negb_false_iff, Z.eqb_eq. split.
    + intros (Hr & [] & Hw & Hc & ->). split_and!; try done. destruct Hr as [->|]; [done|auto].
    + intros ((Hr & Hw & Hc) & ->). split; [|by exists tt]. destruct (proto_SupportRekeying _); [by left|right; auto].
Qed.

Lemma Txn_spec s i g : Txn s i g = Ok tt <-> member_ok g i s.
Proof.
  unfold Txn. rewrite (run_accepts _ _ _ (member_accepts s i g)). unfold member_ok, member_shape. rewrite authorised_shape. fold (compat g). naive_solver.
Qed.

(** ** Groups *)

Definition paysFee (s : SignedTxn) : bool := negb (bool_decide (tx_Type (stx_Txn s) = CompactCertTx)).
Definition stx_Fee (s : SignedTxn) : Z := hdr_Fee (tx_Header (stx_Txn s)).

Definition members_shape (g : GroupContext) (i : Z) (stxs : list SignedTxn) : Prop :=
  forall k s, stxs !! k = Some s -> member_shape g (i + Z.of_nat k) s.

Lemma members_shape_cons g i s stxs : members_shape g i (s :: stxs) <-> member_shape g i s /\ members_shape g (i + 1) stxs.
Proof.
  unfold members_shape. split.
  - intros H. split; [rewrite <- (Z.add_0_r i); by apply (H 0%nat)|]. intros k s' Hk. replace (i + 1 + Z.of_nat k) with (i + Z.of_nat (S k)) by lia. by apply H.
  - intros [H0 H] [|k] s' Hk; cbn in Hk; [injection Hk as <-; by rewrite Z.add_0_r|]. replace (i + Z.of_nat (S k)) with (i + 1 + Z.of_nat k) by lia. by apply H.
Qed.

Lemma verifyMembers_spec g stxs : Forall (fun s => is_u64 (stx_Fee s)) stxs -> forall i c f b r b', 0 <= c -> 0 <= f -> c + llen stxs < two64 ->
  verifyMembers g i stxs c (clamp f) b = (Ok r, b') <->
  members_shape g i stxs /\ b' = enqueue (concat (map txnRequired stxs)) b /\
  r = (c + llen (List.filter paysFee stxs), clamp (f + sumZ stx_Fee stxs)).
Proof.
  induction 1 as [|s stxs Hs _ IH]; intros i c f b r b' Hc Hf Hl.
  { cbn. rewrite enqueue_nil, !Z.add_0_r. unfold members_shape, mret, M_ret. split; [intros [= <- <-]; split_and!; try done; intros k s Hk; by rewrite lookup_nil in Hk|].
    by intros (_ & -> & ->). }
  assert (llen (s :: stxs) = 1 + llen stxs) as Hll by (unfold llen; cbn [length]; lia).
  rewrite members_shape_cons. cbn [verifyMembers map concat]. rewrite <- enqueue_app.
  pose proof (member_accepts s i g b) as Hm.
  change (hdr_Fee (tx_Header (stx_Txn s))) with (stx_Fee s).
  assert (AddSaturate (clamp f) (stx_Fee s) = clamp (f + stx_Fee s)) as ->.
  { rewrite <- (clamp_id (stx_Fee s)) at 1 by done. apply AddSaturate_clamp; [done|]. unfold is_u64 in Hs. lia. }
  set (c' := if bool_decide _ then c else _).
  assert (c' = c + llen (List.filter paysFee [s])) as ->.
  { subst c'. unfold paysFee. cbn [List.filter]. destruct (bool_decide _); cbn [negb]; unfold llen at 1; cbn [length]; [lia|]. apply wrap64_small. unfold is_u64. pose proof (llen_nonneg stxs). lia. }
  assert (0 <= llen (List.filter paysFee [s]) <= 1) as Hone by (cbn [List.filter]; destruct (paysFee s); unfold llen; cbn [length]; lia).
  destruct (TxnBatchVerify s i g b) as [[[]|e|] b1].
  - destruct (proj1 (Hm b1) eq_refl) as (l & [Hsh ->] & ->).
    assert (is_u64 (stx_Fee s)) as [] by done.
    rewrite IH by lia.
    replace (c + llen (List.filter paysFee [s]) + llen (List.filter paysFee stxs)) with (c + llen (List.filter paysFee (s :: stxs))).
    2: { cbn [List.filter]. destruct (paysFee s); unfold llen; cbn [length]; lia. }
    cbn [sumZ]. rewrite <- Z.add_assoc. change (stx_Fee s + sumZ stx_Fee stxs) with (sumZ stx_Fee (s :: stxs)). tauto.
  - split; [done|]. intros ([Hsh _] & _). pose proof (proj2 (Hm _) (ex_intro _ _ (conj (conj Hsh eq_refl) eq_refl))) as H. discriminate H.
  - split; [done|]. intros ([Hsh _] & _). pose proof (proj2 (Hm _) (ex_intro _ _ (conj (conj Hsh eq_refl) eq_refl))) as H. discriminate H.
Qed.

(** The fees of a group: every member that pays one pays for one transaction; they may
    share. *)
Definition fees_ok (p : ConsensusParams) (stxs : list SignedTxn) : Prop :=
  proto_MinTxnFee p * llen (List.filter paysFee stxs) <= clamp (sumZ stx_Fee stxs).

Lemma min_fees_u64 v p : Consensus !! v = Some p -> is_u64 (proto_MinTxnFee p).
Proof.
  intros Hp. assert (map_checkb (fun _ p => (0 <=? proto_MinTxnFee p) && (proto_MinTxnFee p <? two64)) Consensus = true) as Hc by (by vm_compute).
  eapply map_checkb_lookup in Hc; [|exact Hp]. unfold is_u64. lia.
Qed.

(** Groups as they come from the wire: fees are words. *)
Definition fees_typed (stxs : list SignedTxn) : Prop := Forall (fun s => is_u64 (stx_Fee s)) stxs /\ llen stxs < two64.

Definition group_shape (stxs : list SignedTxn) (hdr : BlockHeader) (g : GroupContext) : Prop :=
  PrepareGroupContext stxs hdr = Ok (Some g) /\ members_shape g 0 stxs /\ fees_ok (gc_consensusParams g) stxs.

Lemma prepared stxs hdr g : PrepareGroupContext stxs hdr = Ok (Some g) ->
  stxs <> [] /\ Consensus !! bh_CurrentProtocol hdr = Some (gc_consensusParams g) /\ gc_signedGroupTxns g = stxs /\
  gc_specAddrs g = mkSpecialAddresses (rs_FeeSink (bh_RewardsState hdr)) (rs_RewardsPool (bh_RewardsState hdr)) /\
  gc_consensusVersion g = bh_CurrentProtocol hdr /\ gc_minTealVersion g = ComputeMinTealVersion (WrapSignedTxnsWithAD stxs) false.
Proof.
  unfold PrepareGroupContext. destruct (Z.eqb_spec (llen stxs) 0) as [|Hl]; [done|]. destruct (Consensus !! _) as [p|]; [|done].
  intros [= <-]. cbn. split_and!; try done. by intros ->.
Qed.

Lemma prepared_compat stxs hdr g : PrepareGroupContext stxs hdr = Ok (Some g) -> useBatchVerification (bh_CurrentProtocol hdr) = compat g.
Proof. intros (_ & Hp & _)%prepared. unfold useBatchVerification. by rewrite Hp. Qed.

Lemma prepared_fee stxs hdr g : PrepareGroupContext stxs hdr = Ok (Some g) -> is_u64 (proto_MinTxnFee (gc_consensusParams g)).
Proof. intros (_ & Hp & _)%prepared. exact (min_fees_u64 _ _ Hp). Qed.

Lemma verifyMembers_all g stxs b r b' : fees_typed stxs -> verifyMembers g 0 stxs 0 0 b = (Ok r, b') <->
  members_shape g 0 stxs /\ b' = enqueue (concat (map txnRequired stxs)) b /\ r = (llen (List.filter paysFee stxs), clamp (sumZ stx_Fee stxs)).
Proof. intros [Ht Hl]. exact (verifyMembers_spec g stxs Ht 0 0 0 b r b' (Z.le_refl 0) (Z.le_refl 0) Hl). Qed.

(** The fee that is needed, when it does not overflow, against the fees that are paid. *)
Lemma fees_checked p stxs (g : GroupContext) (b b' : verifier) r : is_u64 (proto_MinTxnFee p) -> fees_typed stxs ->
  (let '(feeNeeded, overflow) := OMul (proto_MinTxnFee p) (llen (List.filter paysFee stxs)) in
   _ ← throwIf overflow (Errorf "txgroup fee requirement overflow");
   _ ← throwIf (clamp (sumZ stx_Fee stxs) <? feeNeeded) (Errorf "txgroup had less fees than the minimum");
   (mret g : M verifier GroupContext)) b = (Ok r, b') <-> fees_ok p stxs /\ r = g /\ b' = b.
Proof.
  intros Hp [_ Hl]. pose proof (List.filter_length_le paysFee stxs) as Hle.
  rewrite OMul_spec; [|done|unfold is_u64, llen in *; lia]. unfold fees_ok. set (need := proto_MinTxnFee p * _). set (paid := clamp _).
  assert (paid < two64) by (subst paid; unfold clamp; word).
  destruct (Z.ltb_spec need two64); rewrite !throwIf_then; [rewrite Z.ltb_ge|]; unfold mret, M_ret; [naive_solver|]. split; [by intros []|]. lia.
Qed.

Lemma groupChecks_spec stxs hdr b g b' : fees_typed stxs ->
  groupChecks stxs hdr b = (Ok g, b') <-> group_shape stxs hdr g /\ b' = enqueue (concat (map txnRequired stxs)) b.
Proof.
  intros Ht. unfold groupChecks, group_shape. rewrite lift_then. split.
  - intros ([g'|] & Hp & Hr); [|done]. apply bind_Ok in Hr as ([c f] & b1 & Hm & Hr).
    apply verifyMembers_all in Hm as (Hsh & -> & [= -> ->]); [|done]. cbv beta iota in Hr.
    apply fees_checked in Hr as (Hf & -> & ->); [done| |done]. by eapply prepared_fee.
  - intros ((Hp & Hsh & Hf) & ->). exists (Some g). split; [exact Hp|]. apply bind_Ok. eexists _, _. split; [by apply verifyMembers_all|].
    cbv beta iota. apply fees_checked; [by eapply prepared_fee|done|done].
Qed.

(** A group that passes: known rules, every member well formed and authorised, fees
    paid. *)
Definition group_valid (stxs : list SignedTxn) (hdr : BlockHeader) (g : GroupContext) : Prop :=
  PrepareGroupContext stxs hdr = Ok (Some g) /\
  (forall k s, stxs !! k = Some s -> member_ok g (Z.of_nat k) s) /\
  fees_ok (gc_consensusParams g) stxs.

Lemma group_valid_shape stxs hdr g : group_valid stxs hdr g <->
  group_shape stxs hdr g /\ Forall (valid (compat g)) (concat (map txnRequired stxs)).
Proof.
  unfold group_valid, group_shape, members_shape, member_shape, member_ok. split.
  - intros (Hp & Hm & Hf). split; [split_and!; try done|].
    + intros k s Hk. apply Hm in Hk as (? & ? & Ha). apply authorised_shape in Ha as [? _]. done.
    + apply Forall_concat, Forall_map, Forall_forall. intros s Hin. apply list_elem_of_lookup in Hin as [k Hk].
      apply Hm in Hk as (? & ? & Ha). by apply authorised_shape in Ha as [_ ?].
  - intros ((Hp & Hm & Hf) & Hv). split_and!; try done. intros k s Hk. pose proof Hk as Hk'. apply Hm in Hk as (? & ? & Ha). split_and!; try done.
    apply authorised_shape. split; [done|]. rewrite Forall_concat, Forall_map, Forall_forall in Hv. apply Hv. by eapply list_elem_of_lookup_2.
Qed.

Lemma TxnGroup_spec stxs hdr cache g : fees_typed stxs -> (TxnGroup stxs hdr cache).1 = Ok g <-> group_valid stxs hdr g.
Proof.
  intros Ht. rewrite group_valid_shape. unfold TxnGroup, TxnGroupBatchVerify.
  pose proof (fun b => groupChecks_spec stxs hdr b) as Hs. set (b0 := MakeBatchVerifier _). specialize (Hs b0).
  destruct (groupChecks stxs hdr b0) as [[g'|e|] b'] eqn:E.
  - destruct (proj1 (Hs g' b' Ht) eq_refl) as [Hsh ->]. cbn [fst].
    assert (verifyEnqueued (enqueue (concat (map txnRequired stxs)) b0) = Ok tt <-> Forall (valid (compat g')) (concat (map txnRequired stxs))) as Hv.
    { rewrite (verifyEnqueued_spec batch_exact). subst b0. cbn. by rewrite (prepared_compat _ _ _ (proj1 Hsh)). }
    split.
    + intros Hr. apply outcome_bind_Ok in Hr as ([] & Hr & [= <-]). split; [done|]. by apply Hv.
    + intros [Hsh' Hv']. assert (g' = g) as ->. { destruct Hsh as [Hp _], Hsh' as [Hp' _]. congruence. } rewrite (proj2 Hv Hv'). done.
  - cbn. split; [done|]. intros [Hsh _]. pose proof (proj2 (Hs g _ Ht) (conj Hsh eq_refl)) as H. discriminate H.
  - cbn. split; [done|]. intros [Hsh _]. pose proof (proj2 (Hs g _ Ht) (conj Hsh eq_refl)) as H. discriminate H.
Qed.

(** ** Worksets *)

Definition groupsRequired (gs : list (list SignedTxn)) : list (signable * Address * Z) := concat (map (fun stxs => concat (map txnRequired stxs)) gs).

Lemma verifyGroups_spec hdr gs : Forall fees_typed gs -> forall b r b',
  verifyGroups gs hdr b = (Ok r, b') <->
  Forall2 (fun stxs sg => sg.1 = stxs /\ group_shape stxs hdr sg.2) gs r /\ b' = enqueue (groupsRequired gs) b.
Proof.
  induction 1 as [|stxs gs Ht _ IH]; intros b r b'; cbn [verifyGroups].
  { unfold mret, M_ret, groupsRequired. cbn. rewrite enqueue_nil. split; [intros [= <- <-]; split; constructor|]. intros [H ->]. by inversion H. }
  unfold groupsRequired. cbn [map concat]. fold (groupsRequired gs). rewrite <- enqueue_app. split.
  - intros Hr. apply bind_Ok in Hr as (g & b1 & Hg & Hr). apply groupChecks_spec in Hg as [Hg ->]; [|done].
    apply bind_Ok in Hr as (rest & b2 & Hrest & [= <- <-]). apply IH in Hrest as [Hrest ->]. split; [|done]. by constructor.
  - intros [Hr ->]. inversion Hr as [|? [stxs' g] ? rest Hg Hrest]; subst. destruct Hg as [E Hg]; cbn in E, Hg; subst stxs'. apply bind_Ok. eexists _, _. split; [by apply groupChecks_spec|].
    apply bind_Ok. eexists _, _. split; [by apply IH|done].
Qed.

Lemma verifyWorkset_spec hdr gs r : Forall fees_typed gs ->
  verifyWorkset gs hdr = Ok r <-> Forall2 (fun stxs sg => sg.1 = stxs /\ group_valid stxs hdr sg.2) gs r.
Proof.
  intros Ht. unfold verifyWorkset. set (b0 := MakeBatchVerifier _). pose proof (verifyGroups_spec hdr gs Ht b0) as Hs.
  assert (forall r, Forall2 (fun stxs sg => sg.1 = stxs /\ group_shape stxs hdr sg.2) gs r ->
    Forall (valid (useBatchVerification (bh_CurrentProtocol hdr))) (groupsRequired gs) <-> Forall2 (fun stxs sg => sg.1 = stxs /\ group_valid stxs hdr sg.2) gs r) as Hv.
  { clear. intros r Hr. unfold groupsRequired. rewrite Forall_concat, Forall_map. induction Hr as [|stxs sg gs r [E Hg] _ IH]; [by split; constructor|].
    rewrite Forall_cons, Forall2_cons, IH, group_valid_shape. rewrite (prepared_compat _ _ _ (proj1 Hg)). tauto. }
  assert (forall r, Forall2 (fun stxs sg => sg.1 = stxs /\ group_valid stxs hdr sg.2) gs r ->
    Forall2 (fun stxs sg => sg.1 = stxs /\ group_shape stxs hdr sg.2) gs r) as Hsh.
  { intros r' Hr. eapply Forall2_impl; [exact Hr|]. intros stxs sg [E Hg]. split; [done|]. by apply group_valid_shape in Hg as [? _]. }
  destruct (verifyGroups gs hdr b0) as [[r'|e|] b'].
  - destruct (proj1 (Hs r' b') eq_refl) as [Hr' ->].
    assert (verifyEnqueued (enqueue (groupsRequired gs) b0) = Ok tt <-> Forall2 (fun stxs sg => sg.1 = stxs /\ group_valid stxs hdr sg.2) gs r') as He.
    { rewrite (verifyEnqueued_spec batch_exact). rewrite <- Hv by done. done. }
    split.
    + intros Hr. apply outcome_bind_Ok in Hr as ([] & Hok & [= <-]). by apply He.
    + intros Hr. pose proof (proj2 (Hs r _) (conj (Hsh r Hr) eq_refl)) as [= <-]. by rewrite (proj2 He Hr).
  - split; [done|]. intros Hr. pose proof (proj2 (Hs r _) (conj (Hsh r Hr) eq_refl)) as H. discriminate H.
  - split; [done|]. intros Hr. pose proof (proj2 (Hs r _) (conj (Hsh r Hr) eq_refl)) as H. discriminate H.
Qed.

Lemma passed_valid hdr payset group : Forall fees_typed payset -> passed hdr payset group -> exists g, group_valid group hdr g.
Proof.
  intros Ht (w & groups & Hw & Hin & Hv). rewrite Forall_forall in Ht. apply verifyWorkset_spec in Hv; [|apply Forall_forall; auto].
  apply list_elem_of_lookup in Hin as [k Hk]. destruct (Forall2_lookup_l _ _ _ _ _ Hv Hk) as (sg & _ & _ & Hg). by eexists.
Qed.

End facts.
