(* ===== verification/VerifyCacheFacts.v ===== *)
(** The cache of verified transactions: what its operations keep of its entries, and
    what a lookup finds of a group that was just entered. *)
From S2P Require Import Prelude Config Basics Transactions Bookkeeping LogicParams AvmValue LogicEval AvmMath Multisig VerifyCache.
#[local] Open Scope string_scope.
#[local] Open Scope list_scope.
#[local] Open Scope Z_scope.

(** The current bucket exists. *)
Definition cache_wf (v : verifiedTransactionCache) : Prop := (vc_base v < length (vc_buckets v))%nat.

(** Every entry satisfies [P]. *)
Definition entries (P : Digest -> GroupContext -> Prop) (v : verifiedTransactionCache) : Prop :=
  Forall (map_Forall P) (vc_buckets v) /\ map_Forall P (vc_pinned v).

Lemma new_cache_wf n : cache_wf (MakeVerifiedTransactionCache n).
Proof. unfold cache_wf. cbn. lia. Qed.

Lemma new_cache_entries P n : entries P (MakeVerifiedTransactionCache n).
Proof. split; cbn; repeat constructor; apply map_Forall_empty. Qed.

Lemma findIn_entry P v order id idx ctx : entries P v -> findIn v order id = Some (idx, ctx) -> P id ctx.
Proof.
  intros [Hb _]. induction order as [|k order IH]; cbn [findIn]; [done|]. destruct (vc_buckets v !! k) as [b|] eqn:Ek; cbn [mbind option_bind]; [|done].
  destruct (b !! id) as [c|] eqn:Eid; [|done]. intros [= <- <-]. eapply Forall_lookup_1 in Hb; [|exact Ek]. by apply Hb.
Qed.

Section facts.
  Context {L : LogicHashes}.

(** ** Entries *)

Lemma fold_entries (P : Digest -> GroupContext -> Prop) ctx txgroup : (forall s, s ∈ txgroup -> P (SignedTxn_ID s) ctx) -> forall b : gmap Digest GroupContext,
  map_Forall P b -> map_Forall P (fold_left (fun b txn => <[SignedTxn_ID txn := ctx]> b) txgroup b).
Proof.
  induction txgroup as [|s txgroup IH]; intros Hs b Hb; cbn [fold_left]; [done|]. apply IH; [set_solver|]. apply map_Forall_insert_2; [apply Hs; by left|done].
Qed.

Lemma add_entries P ctx txgroup v : (forall s, s ∈ txgroup -> P (SignedTxn_ID s) ctx) -> entries P v -> entries P (add txgroup ctx v).
Proof.
  intros Hs [Hb Hp]. unfold add. set (v1 := if _ <? _ then _ else _).
  assert (entries P v1) as [Hb1 Hp1].
  { subst v1. destruct (_ <? _); [|done]. split; cbn; [|done]. apply Forall_insert; [done|]. apply map_Forall_empty. }
  split; cbn; [|done]. apply Forall_alter; [done|]. intros b Hin Hb'. by apply fold_entries.
Qed.

Lemma AddPayset_entries P groups v : Forall (fun '(stxs, ctx) => forall s, s ∈ stxs -> P (SignedTxn_ID s) ctx) groups -> entries P v -> entries P (AddPayset groups v).
Proof.
  intros Hg. revert v. induction Hg as [|[stxs ctx] groups Hs _ IH]; intros v Hv; cbn [AddPayset fold_left]; [done|]. apply IH. by apply add_entries.
Qed.

Lemma UpdatePinned_entries P ids v : entries P v -> entries P (UpdatePinned ids v).2.
Proof.
  intros Hv. pose proof Hv as [Hb Hp]. unfold UpdatePinned. cbn. split; cbn; [done|].
  assert (forall p : gmap Digest GroupContext, map_Forall P p ->
    map_Forall P (fold_left (fun p id => match entryOf v id with Some ctx => <[id := ctx]> p | None => p end) ids p)) as Hf; [|apply Hf, map_Forall_empty].
  induction ids as [|id ids IH]; intros p Hpp; cbn [fold_left]; [done|]. apply IH. destruct (entryOf v id) as [ctx|] eqn:E; [|done].
  apply map_Forall_insert_2; [|done]. unfold entryOf in E. destruct (vc_pinned v !! id) as [c|] eqn:Ep; [injection E as <-; by apply Hp|].
  destruct (findBucket v _ id) as [[idx c]|] eqn:Ef; [|done]. injection E as <-. by eapply findIn_entry.
Qed.

Lemma pinAll_entries P txgroup : forall base v, entries P v -> entries P (pinAll base txgroup v).2.
Proof.
  induction txgroup as [|s txgroup IH]; intros base v Hv; cbn [pinAll]; [done|]. destruct (vc_pinned v !! _); [by apply IH|].
  destruct (findBucket v base _) as [[idx ctx]|] eqn:Ef.
  - apply IH. split; cbn; [|apply map_Forall_insert_2; [by eapply findIn_entry|apply Hv]].
    apply Forall_alter; [apply Hv|]. intros b _ Hb. by apply map_Forall_delete.
  - destruct (pinAll base txgroup v) as [m v'] eqn:E. cbn. replace v' with (pinAll base txgroup v).2 by (by rewrite E). by apply IH.
Qed.

Lemma Pin_entries P txgroup v : entries P v -> entries P (Pin txgroup v).2.
Proof.
  intros Hv. unfold Pin. destruct (_ <? _); [done|]. pose proof (pinAll_entries P txgroup (vc_base v) v Hv) as H. by destruct (pinAll _ _ v).
Qed.

(** ** Lookups *)

Lemma findEntry_entry P v base id ctx b : entries P v -> findEntry v base id = Some (ctx, b) -> P id ctx.
Proof.
  intros Hv. unfold findEntry. destruct (vc_pinned v !! id) as [c|] eqn:Ep; [intros [= <- <-]; by apply Hv|].
  destruct (findBucket v base id) as [[idx c]|] eqn:Ef; [|done]. intros [= <- <-]. by eapply findIn_entry.
Qed.

(** What a lookup that counts every transaction has compared. *)
Lemma verifiedTxns_sound P v spec proto mt txns : entries P v -> forall base i, 0 <= i ->
  verifiedTxns v spec proto mt base i txns = Ok (llen txns) ->
  forall k txn, txns !! k = Some txn -> exists ctx s,
    P (SignedTxn_ID txn) ctx /\ GroupContext_Equal ctx spec proto mt = true /\
    gc_signedGroupTxns ctx !! (Z.to_nat i + k)%nat = Some s /\ sameSignatures s txn = true.
Proof.
  intros Hv. induction txns as [|txn txns IH]; intros base i Hi Hr k txn' Hk; [done|]. cbn [verifiedTxns] in Hr.
  assert (llen (txn :: txns) = 1 + llen txns) as Hl by (unfold llen; cbn [length]; lia). pose proof (llen_nonneg txns).
  destruct (findEntry v base _) as [[ctx b]|] eqn:Ef; [|injection Hr; lia].
  destruct (GroupContext_Equal _ _ _ _) eqn:Eq; cbn [negb] in Hr; [|injection Hr; lia].
  unfold index_or_panic in Hr. destruct (gc_signedGroupTxns ctx !! Z.to_nat i) as [s|] eqn:Es; cbn [mbind outcome_bind] in Hr; [|done].
  destruct (sameSignatures s txn) eqn:Ess; cbn [negb] in Hr; [|injection Hr; lia]. apply outcome_bind_Ok in Hr as (n & Hr & Hn). injection Hn as Hn.
  replace n with (llen txns) in Hr by lia. destruct k as [|k]; cbn in Hk.
  - injection Hk as <-. exists ctx, s. rewrite Nat.add_0_r. split_and!; try done. by eapply findEntry_entry.
  - destruct (IH b (i + 1) ltac:(lia) Hr k txn' Hk) as (ctx' & s' & H1 & H2 & H3 & H4). exists ctx', s'. split_and!; try done.
    rewrite <- H3. f_equal. lia.
Qed.

Lemma groupVerified_sound P v spec proto group : entries P v -> groupVerified v spec proto group = Ok true ->
  group <> [] /\ forall k txn, group !! k = Some txn -> exists ctx s,
    P (SignedTxn_ID txn) ctx /\ GroupContext_Equal ctx spec proto (ComputeMinTealVersion (WrapSignedTxnsWithAD group) false) = true /\
    gc_signedGroupTxns ctx !! k = Some s /\ sameSignatures s txn = true.
Proof.
  intros Hv Hr. unfold groupVerified in Hr. apply outcome_bind_Ok in Hr as (n & Hn & Hr). injection Hr as Hr.
  apply negb_true_iff, orb_false_iff in Hr as [H1 H2]. apply negb_false_iff, Z.eqb_eq in H1 as ->. apply Z.eqb_neq in H2.
  split; [by intros ->|]. exact (verifiedTxns_sound P v spec proto _ group Hv _ 0 (Z.le_refl 0) Hn).
Qed.

(** An empty cache verifies nothing. *)
Lemma new_cache_verifies n spec proto groups : GetUnverifiedTranscationGroups (MakeVerifiedTransactionCache n) groups spec proto = Ok groups.
Proof.
  induction groups as [|group groups IH]; cbn [GetUnverifiedTranscationGroups]; [done|]. rewrite IH. unfold groupVerified.
  destruct group as [|txn group]; cbn; [done|]. unfold findEntry. cbn. rewrite lookup_empty. cbn. by destruct (llen _).
Qed.

(** ** A group that was just entered *)

(** The buckets are searched from the current one on. *)
Lemma findBucket_base v base id b ctx : vc_buckets v !! base = Some b -> b !! id = Some ctx -> findBucket v base id = Some (base, ctx).
Proof.
  intros Hb Hid. pose proof (lookup_lt_Some _ _ _ Hb) as Hlt. unfold findBucket, bucketOrder. destruct (length (vc_buckets v)) as [|n] eqn:En; [lia|].
  cbn [seq map findIn]. replace ((base + S n - 0) `mod` S n)%nat with base.
  2: { rewrite Nat.sub_0_r. replace (base + S n)%nat with (base + 1 * S n)%nat by lia. rewrite Nat.Div0.mod_add. symmetry. by apply Nat.mod_small. }
  by rewrite Hb; cbn; rewrite Hid.
Qed.

Lemma fold_found ctx txgroup id : (exists s, s ∈ txgroup /\ SignedTxn_ID s = id) -> forall b : gmap Digest GroupContext,
  fold_left (fun b txn => <[SignedTxn_ID txn := ctx]> b) txgroup b !! id = Some ctx.
Proof.
  assert (forall l (b : gmap Digest GroupContext), b !! id = Some ctx -> fold_left (fun b txn => <[SignedTxn_ID txn := ctx]> b) l b !! id = Some ctx) as Hkeep.
  { induction l as [|s l IH]; intros b Hb; cbn [fold_left]; [done|]. apply IH. destruct (decide (SignedTxn_ID s = id)) as [->|]; [by rewrite lookup_insert_eq|by rewrite lookup_insert_ne]. }
  induction txgroup as [|s txgroup IH]; intros (s' & Hin & Hid) b; [set_solver|]. cbn [fold_left].
  apply elem_of_cons in Hin as [->|Hin]; [apply Hkeep; rewrite Hid; by rewrite lookup_insert_eq|]. apply IH. by exists s'.
Qed.

Lemma added_found stxs ctx v s : cache_wf v -> s ∈ stxs -> vc_pinned v !! SignedTxn_ID s = None ->
  findEntry (add stxs ctx v) (vc_base (add stxs ctx v)) (SignedTxn_ID s) = Some (ctx, vc_base (add stxs ctx v)).
Proof.
  intros Hwf Hin Hp. unfold add. set (v1 := if _ <? _ then _ else _).
  assert (cache_wf v1 /\ vc_pinned v1 = vc_pinned v) as [Hwf1 Hp1].
  { subst v1. destruct (_ <? _); [|done]. split; [|done]. unfold cache_wf in *. cbn. rewrite length_insert. apply Nat.mod_upper_bound. lia. }
  destruct (lookup_lt_is_Some_2 (vc_buckets v1) (vc_base v1) Hwf1) as [b Hb]. set (v2 := set_field _ v1).
  assert (vc_buckets v2 !! vc_base v1 = Some (fold_left (fun b txn => <[SignedTxn_ID txn := ctx]> b) stxs b)) as Hb2.
  { subst v2. cbn. by rewrite list_lookup_alter_eq, Hb. }
  change (vc_base v2) with (vc_base v1). unfold findEntry. change (vc_pinned v2) with (vc_pinned v1). rewrite Hp1, Hp.
  erewrite findBucket_base; [done|exact Hb2|]. apply fold_found. by exists s.
Qed.

(** Transactions whose entry is [ctx] and whose signatures are those at their positions
    are counted, then come the others. *)
Lemma verifiedTxns_app v ctx base spec proto mt l1 l2 : GroupContext_Equal ctx spec proto mt = true ->
  (forall s, s ∈ l1 -> findEntry v base (SignedTxn_ID s) = Some (ctx, base)) -> forall i, 0 <= i ->
  (forall k txn, l1 !! k = Some txn -> exists s, gc_signedGroupTxns ctx !! (Z.to_nat i + k)%nat = Some s /\ sameSignatures s txn = true) ->
  verifiedTxns v spec proto mt base i (l1 ++ l2) = n ← verifiedTxns v spec proto mt base (i + llen l1) l2; Ok (llen l1 + n).
Proof.
  intros Heq. induction l1 as [|txn l1 IH]; intros Hf i Hi Hs.
  { cbn [app]. unfold llen at 1. cbn [length]. rewrite Z.add_0_r. by destruct (verifiedTxns _ _ _ _ _ _ _). }
  cbn [app verifiedTxns]. change (lg_ID (stx_Txn txn)) with (SignedTxn_ID txn). rewrite Hf by (by left). rewrite Heq. cbn [negb].
  destruct (Hs 0%nat txn eq_refl) as (s & Hsk & Hss). rewrite Nat.add_0_r in Hsk. unfold index_or_panic. rewrite Hsk. cbn [mbind outcome_bind]. rewrite Hss. cbn [negb].
  rewrite IH; [|set_solver|lia|].
  - assert (llen (txn :: l1) = 1 + llen l1) as -> by (unfold llen; cbn [length]; lia). rewrite Z.add_assoc.
    destruct (verifiedTxns _ _ _ _ _ _ l2); cbn [mbind outcome_bind]; [|done..]. f_equal. lia.
  - intros k t Hk. destruct (Hs (S k) t Hk) as (s' & ? & ?). exists s'. split; [|done]. replace (Z.to_nat (i + 1) + k)%nat with (Z.to_nat i + S k)%nat by lia. done.
Qed.

Lemma sameSignatures_refl s : sameSignatures s s = true.
Proof.
  unfold sameSignatures, LogicSig_Equal, MultisigSig_Equal, safeSliceCheck. rewrite !Z.eqb_refl, !bool_decide_eq_true_2 by done. cbn [andb].
  rewrite andb_true_r. induction (ls_Args (stx_Lsig s)) as [|a l IH]; cbn [zip_with forallb]; [done|]. by rewrite bool_decide_eq_true_2, IH.
Qed.

(** The version programs must have depends on the transactions only, not on their order
    or their signatures. *)
Definition needsVersion (s : SignedTxn) : bool :=
  negb (hdr_RekeyTo (tx_Header (stx_Txn s)) =? 0) || bool_decide (tx_Type (stx_Txn s) = ApplicationCallTx).

Lemma ComputeMinTealVersion_exact stxs : ComputeMinTealVersion (WrapSignedTxnsWithAD stxs) false = if existsb needsVersion stxs then 2 else 0.
Proof.
  unfold ComputeMinTealVersion, WrapSignedTxnsWithAD. set (f := fun (_ : Z) (_ : SignedTxnWithAD) => _).
  assert (forall v s, v = 0 \/ v = 2 -> f v (mkSignedTxnWithAD s ApplyData_zero) = if needsVersion s then 2 else v) as Hf.
  { intros v s Hv. unfold f, needsVersion, isAppCall, stad_tx, rekeyingEnabledVersion, appsEnabledVersion. cbn [stad_SignedTxn].
    by destruct (negb _), (bool_decide _), Hv as [-> | ->]. }
  assert (forall l v, v = 0 \/ v = 2 -> fold_left f (map (fun tx => mkSignedTxnWithAD tx ApplyData_zero) l) v = if existsb needsVersion l then 2 else v) as Hl; [|by rewrite Hl by auto].
  induction l as [|s l IH]; intros v Hv; cbn [map fold_left existsb]; [done|]. rewrite Hf by done.
  rewrite IH by (destruct (needsVersion s); auto). by destruct (needsVersion s), (existsb _ l).
Qed.

End facts.
