(* ===== verification/VerifyCorrect.v ===== *)
(** The verification of signatures: what it accepts, that it always ends, what the block
    evaluator may conclude from it, and three defects of the cache of verified
    transactions. *)
From S2P Require Import Prelude Config Basics Transactions Bookkeeping StateDelta CompactCert Cow.
From S2P Require Import CowFacts CowStorage Balances CowBalances Apply ApplyFacts ApplyCorrect Eval EvalFacts EvalMoney.
From S2P Require Import Conserve AvmValue LogicParams LogicLedger LogicEval LogicFacts LogicMoney LogicCorrect.
From S2P Require Import AvmFields AvmMachine AvmOps AvmLoop AvmMath AvmTyped AvmOpsTyped.
From S2P Require Import Multisig MultisigFacts VerifyCache Verify VerifyPayset VerifyFacts VerifyCacheFacts.
#[local] Open Scope string_scope.
#[local] Open Scope list_scope.
#[local] Open Scope Z_scope.

(** ** A small cryptography for examples *)

#[local] Existing Instance bazaar_hashes.
#[local] Existing Instance free_crypto.

(** The signature of a key is the number after it. *)
#[local] Instance toy_crypto : SigCrypto signable := {|
  sc_Hash := slen;
  sc_Sign := fun sk _ => sk + 1;
  sc_Verify := fun k _ s _ => s =? k + 1;
  sc_batch := forallb (fun '(_, k, s) => s =? k + 1) |}.

Lemma toy_exact (l : list (signable * Address * Z)) : sc_batch l = true <-> Forall (fun '(m, k, s) => sc_Verify k m s true = true) l.
Proof.
  cbn [sc_batch sc_Verify toy_crypto]. rewrite forallb_forall, Forall_forall. setoid_rewrite list_elem_of_In.
  split; intros H [[m k] s] Hin; by apply (H (m, k, s)).
Qed.

(** A payment whose ID is its fee. *)
Definition toy_pay (sender fee sig auth : Z) : SignedTxn :=
  mkSignedTxn sig MultisigSig_zero LogicSig_zero
    (stad_tx (bazaar_txn PaymentTx sender fee (mkPaymentTxnFields 6 10 0) ApplicationCallTxnFields_zero)) auth.
Definition toy_cache : verifiedTransactionCache := MakeVerifiedTransactionCache 100.
Definition toy_specials : SpecialAddresses := mkSpecialAddresses 1 2.

Section correct.
  Context {L : LogicHashes} {A : AvmCrypto} {C : SigCrypto signable}.
  Context (batch_exact : forall l, sc_batch l = true <-> Forall (fun '(m, k, s) => sc_Verify k m s true = true) l).

(** C6 (equivalence): [TxnGroup] accepts exactly the groups it should.  A group passes if
    and only if the protocol of the header is known and the group is not empty, every
    member is well formed, uses a rekeyed address only where the protocol has them, and
    is authorised, and the members together pay the minimum fee of each.  Authorised
    means: exactly one kind of signature, which is a valid signature of the transaction
    by the authorising address, or enough valid signatures under keys that hash to it,
    or a program that passes the static check, approves the transaction, and is the
    account or signed by it; only the report of a compact certificate needs none. *)
Theorem TxnGroup_exact stxs hdr cache g : fees_typed stxs ->
  (TxnGroup stxs hdr cache).1 = Ok g <->
  (PrepareGroupContext stxs hdr = Ok (Some g) /\
   (forall k s, stxs !! k = Some s ->
      (proto_SupportRekeying (gc_consensusParams g) = false -> stx_AuthAddr s = 0) /\
      WellFormed lg_CompactCertSender (stx_Txn s) (gc_specAddrs g) (gc_consensusParams g) = Ok tt /\
      authorised g (Z.of_nat k) s) /\
   fees_ok (gc_consensusParams g) stxs).
Proof. apply (TxnGroup_spec batch_exact). Qed.

(** C8 (liveness): [PaysetGroups] always returns.  In whatever order the loop, the
    workers and the cancellation take turns, a run that has not returned can go on, no
    run takes more than 62 steps for each group and 18 more, and at most 16 worksets are
    with the workers at any time. *)
Theorem PaysetGroups_returns payset cache hdr n r : paysetSteps hdr n (startPayset payset cache) r ->
  Z.of_nat n <= 62 * llen payset + 18 /\
  match r with
  | Looping ps => (exists r', paysetStep hdr r r') /\ llen (ps_running ps) <= concurrentWorksets
  | _ => True
  end.
Proof.
  intros Hr. pose proof (steps_inv _ _ _ _ _ Hr) as Hi. pose proof (steps_bounded _ _ _ _ _ Hr) as Hb. split.
  - assert (0 <= stepsLeft r) as H0.
    { destruct r as [ps| |]; cbn [stepsLeft run_inv] in *; [|lia..]. pose proof (li_tokens _ _ _ Hi). pose proof (llen_nonneg (ps_builder ps)).
      pose proof (llen_nonneg (ps_nextWorkset ps)). pose proof (llen_nonneg (ps_running ps)). pose proof (llen_nonneg (ps_worksDoneCh ps)). destruct (ps_canceled ps); lia. }
    assert (stepsLeft (startPayset payset cache) <= 62 * llen payset + 18); [|lia].
    unfold startPayset. pose proof (llen_nonneg payset). destruct (_ =? 0); cbn [stepsLeft]; [lia|]. cbn. unfold concurrentWorksets, llen. cbn [length]. lia.
  - destruct r as [ps| |]; [|done..]. cbn [run_inv] in Hi. split; [by eapply step_exists|].
    pose proof (li_tokens _ _ _ Hi). pose proof (li_processing _ _ _ Hi). pose proof (llen_nonneg (ps_worksDoneCh ps)). lia.
Qed.

(** The verification of a block's groups, as the validator runs it: those the cache does
    not know go to [PaysetGroups]. *)
Definition signaturesChecked (v : verifiedTransactionCache) (groups : list (list SignedTxn)) (hdr : BlockHeader)
    (err : outcome unit) (v' : verifiedTransactionCache) : Prop :=
  exists unverified n,
    GetUnverifiedTranscationGroups v groups
      (mkSpecialAddresses (rs_FeeSink (bh_RewardsState hdr)) (rs_RewardsPool (bh_RewardsState hdr))) (bh_CurrentProtocol hdr) = Ok unverified /\
    paysetSteps hdr n (startPayset unverified v) (Returned err v').

Lemma checked_new_cache size groups hdr err v' : signaturesChecked (MakeVerifiedTransactionCache size) groups hdr err v' -> Forall fees_typed groups ->
  match err with
  | Ok _ => forall group, group ∈ groups -> exists g, group_valid group hdr g
  | Err e => e = errCanceled \/ ~ (forall group, group ∈ groups -> exists g, group_valid group hdr g)
  | Panic => False
  end.
Proof.
  intros (unv & n & Hu & Hr) Ht. rewrite new_cache_verifies in Hu. injection Hu as <-. apply steps_inv in Hr. cbn [run_inv] in Hr.
  destruct err as [u|e|]; [|destruct Hr as [|(w & Hw & Hv)]; [by left|right]|done].
  - intros group Hg. eapply passed_valid; [exact batch_exact|exact Ht|by apply Hr].
  - intros Hall. assert (Forall fees_typed w) as Htw by (rewrite Forall_forall in *; auto).
    assert (exists r, Forall2 (fun stxs sg => sg.1 = stxs /\ group_valid stxs hdr sg.2) w r) as [r Hf].
    { assert (forall g, g ∈ w -> exists c, group_valid g hdr c) as Hw' by auto. clear -Hw'. induction w as [|g w IH]; [by exists []|].
      destruct IH as [r Hr]; [intros; apply Hw'; by right|]. destruct (Hw' g) as [c Hc]; [by left|]. exists ((g, c) :: r). by constructor. }
    apply (verifyWorkset_spec batch_exact) in Hf; [|done]. congruence.
Qed.

(** C7 (safety): a block that [Eval] validates is signed.  When the cache of verified
    transactions starts empty and [Eval] accepts a block with validation, every group of
    the block passes the verification: its members are well formed, each is authorised
    by a key, by a multisignature or by a program, and the fees are paid.  This holds for
    every scheduling of the workers that verify the groups. *)
Theorem Eval_signed I H Verify shrink verifyPayset size l blk voters delta groups :
  (forall gs hdr, verifyPayset gs hdr = Ok tt -> exists v', signaturesChecked (MakeVerifiedTransactionCache size) gs hdr (Ok tt) v') ->
  DecodePaysetGroups blk = Ok groups -> Forall fees_typed (map (map stad_SignedTxn) groups) ->
  Eval I H Verify shrink verifyPayset l blk true voters = Ok delta ->
  forall group, group ∈ groups -> exists g, group_valid (map stad_SignedTxn group) (blk_Header blk) g.
Proof.
  intros Hvp Hd Ht He group Hg. unfold Eval in He. apply outcome_bind_Ok in He as (ev & _ & He). cbv zeta in He.
  apply outcome_bind_Ok in He as (groups' & Hd' & He). assert (groups' = groups) as -> by congruence.
  apply outcome_bind_Ok in He as (? & _ & He). destruct (_ ≫= _) as [[?|?|] ?]; [|done..].
  apply outcome_bind_Ok in He as ([] & Hv & _). unfold evalTxValidator in Hv. cbv zeta in Hv. apply outcome_bind_Ok in Hv as (? & _ & Hv).
  destruct (Hvp _ _ Hv) as [v' Hc]. pose proof (checked_new_cache _ _ _ _ _ Hc Ht) as Hall. cbn in Hall. apply Hall. by apply list_elem_of_fmap_2.
Qed.

(** ** The cache *)

(** An entry is vouched for: the context is that of a group that passes, and the group
    has a member with that ID. *)
Definition vouched (id : Digest) (ctx : GroupContext) : Prop :=
  (exists hdr, group_valid (gc_signedGroupTxns ctx) hdr ctx) /\ exists s, s ∈ gc_signedGroupTxns ctx /\ SignedTxn_ID s = id.

Lemma workset_vouched w hdr groups : Forall fees_typed w -> verifyWorkset w hdr = Ok groups ->
  Forall (fun '(stxs, ctx) => forall s, s ∈ stxs -> vouched (SignedTxn_ID s) ctx) groups.
Proof.
  intros Ht Hv. apply (verifyWorkset_spec batch_exact) in Hv; [|done]. clear Ht. induction Hv as [|stxs [stxs' ctx] w groups [E Hg] _ IH]; constructor; [|done].
  cbn in E, Hg. subst stxs'. intros s Hs. pose proof (prepared _ _ _ (proj1 Hg)) as (_ & _ & Hsig & _). split; [exists hdr; by rewrite Hsig|]. exists s. by rewrite Hsig.
Qed.

Lemma payset_vouched payset v hdr n r : Forall fees_typed payset -> entries vouched v -> paysetSteps hdr n (startPayset payset v) r ->
  match r with Looping ps => entries vouched (ps_cache ps) | Returned _ v' => entries vouched v' | Crashed => True end.
Proof.
  intros Ht Hv Hr. remember (startPayset payset v) as r0 eqn:E0. induction Hr as [|n r1 r2 r3 Hr IH Hst]; subst.
  { unfold startPayset. by destruct (_ =? 0). }
  specialize (IH eq_refl). pose proof (steps_inv _ _ _ _ _ Hr) as Hi.
  destruct Hst as [ps gs bld Hn Hc Hx|ps Hs Hc|ps Hs Htk Hn|ps Hs Htk Hn|ps Hs Htk Hn|ps res rest Hs Hd Htk|ps bef w aft groups Hw Hd Hvw|ps bef w aft e Hw Hd Hvw|ps w Hw Hvw|ps Hc]; try done.
  - unfold received. destruct res; cbn; [destruct (_ && _)| |destruct (_ && _)]; done.
  - cbn. apply AddPayset_entries; [|done]. eapply workset_vouched; [|exact Hvw]. rewrite Forall_forall in *. intros g Hg. apply Ht. cbn in Hi. by eapply running_here.
Qed.

(** C9 (invariant): a cache that only [PaysetGroups] fills holds only groups that passed
    the verification; pinning keeps this, at every moment of every run.  When such a
    cache reports a group as verified, each of its transactions is a member of some
    group that passed under the same addresses and protocol, and carries the signatures
    of the transaction that stood at the same position of that group. *)
Theorem cache_vouched payset v hdr n err v' ids txgroup specAddrs proto group :
  Forall fees_typed payset -> entries vouched v -> paysetSteps hdr n (startPayset payset v) (Returned err v') ->
  entries vouched (MakeVerifiedTransactionCache 0) /\ entries vouched (UpdatePinned ids v').2 /\ entries vouched (Pin txgroup v').2 /\
  (groupVerified v' specAddrs proto group = Ok true -> forall k txn, group !! k = Some txn ->
     exists ctx s, vouched (SignedTxn_ID txn) ctx /\ gc_specAddrs ctx = specAddrs /\ gc_consensusVersion ctx = proto /\
       gc_signedGroupTxns ctx !! k = Some s /\ sameSignatures s txn = true).
Proof.
  intros Ht Hv Hr. pose proof (payset_vouched _ _ _ _ _ Ht Hv Hr) as Hv'. cbn in Hv'. split_and!.
  - apply new_cache_entries.
  - by apply UpdatePinned_entries.
  - by apply Pin_entries.
  - intros Hg k txn Hk. apply (groupVerified_sound vouched) in Hg as [_ Hg]; [|done]. destruct (Hg k txn Hk) as (ctx & s & H1 & H2 & H3 & H4). exists ctx, s.
    unfold GroupContext_Equal in H2. apply andb_true_iff in H2 as [[H2 H2']%andb_true_iff _]. apply bool_decide_eq_true in H2, H2'. done.
Qed.

(** ** Defects of the cache *)

(** The context a group is entered with is what a lookup of it computes. *)
Lemma prepared_equal stxs hdr g mt : PrepareGroupContext stxs hdr = Ok (Some g) -> mt = ComputeMinTealVersion (WrapSignedTxnsWithAD stxs) false ->
  GroupContext_Equal g (mkSpecialAddresses (rs_FeeSink (bh_RewardsState hdr)) (rs_RewardsPool (bh_RewardsState hdr))) (bh_CurrentProtocol hdr) mt = true.
Proof.
  intros (_ & _ & _ & Hsp & Hv & Hm)%prepared ->. unfold GroupContext_Equal. rewrite Hsp, Hv, Hm, Z.eqb_refl, !bool_decide_eq_true_2 by done. done.
Qed.

(** The part of a lookup that finds transactions of the group just entered. *)
Lemma added_lookup stxs hdr g v l1 l2 mt : let v' := add stxs g v in
  PrepareGroupContext stxs hdr = Ok (Some g) -> cache_wf v -> (forall s, s ∈ stxs -> vc_pinned v !! SignedTxn_ID s = None) ->
  mt = ComputeMinTealVersion (WrapSignedTxnsWithAD stxs) false ->
  (forall s, s ∈ l1 -> exists s', s' ∈ stxs /\ SignedTxn_ID s' = SignedTxn_ID s) ->
  (forall k txn, l1 !! k = Some txn -> exists s, stxs !! k = Some s /\ sameSignatures s txn = true) ->
  verifiedTxns v' (mkSpecialAddresses (rs_FeeSink (bh_RewardsState hdr)) (rs_RewardsPool (bh_RewardsState hdr))) (bh_CurrentProtocol hdr) mt
    (vc_base v') 0 (l1 ++ l2) =
  n ← verifiedTxns v' (mkSpecialAddresses (rs_FeeSink (bh_RewardsState hdr)) (rs_RewardsPool (bh_RewardsState hdr))) (bh_CurrentProtocol hdr) mt
        (vc_base v') (llen l1) l2; Ok (llen l1 + n).
Proof.
  intros v' Hp Hwf Hpin Hmt Hid Hsig. pose proof (prepared _ _ _ Hp) as (_ & _ & Hst & _).
  rewrite (verifiedTxns_app v' g); [done|by eapply prepared_equal| |lia|].
  - intros s Hs. destruct (Hid s Hs) as (s' & Hin & <-). apply added_found; auto.
  - intros k txn Hk. rewrite Hst. by apply Hsig.
Qed.

Lemma added_verified stxs hdr g v l : let v' := add stxs g v in
  PrepareGroupContext stxs hdr = Ok (Some g) -> cache_wf v -> (forall s, s ∈ stxs -> vc_pinned v !! SignedTxn_ID s = None) ->
  ComputeMinTealVersion (WrapSignedTxnsWithAD l) false = ComputeMinTealVersion (WrapSignedTxnsWithAD stxs) false ->
  (forall s, s ∈ l -> exists s', s' ∈ stxs /\ SignedTxn_ID s' = SignedTxn_ID s) ->
  (forall k txn, l !! k = Some txn -> exists s, stxs !! k = Some s /\ sameSignatures s txn = true) ->
  verifiedTxns v' (mkSpecialAddresses (rs_FeeSink (bh_RewardsState hdr)) (rs_RewardsPool (bh_RewardsState hdr))) (bh_CurrentProtocol hdr)
    (ComputeMinTealVersion (WrapSignedTxnsWithAD l) false) (vc_base v') 0 l = Ok (llen l).
Proof.
  intros v' Hp Hwf Hpin Hmt Hid Hsig. pose proof (added_lookup stxs hdr g v l [] _ Hp Hwf Hpin Hmt Hid Hsig) as Hl. cbn [verifiedTxns mbind outcome_bind] in Hl.
  rewrite app_nil_r, Z.add_0_r in Hl. exact Hl.
Qed.

Lemma groupVerified_all v spec proto group : group <> [] ->
  verifiedTxns v spec proto (ComputeMinTealVersion (WrapSignedTxnsWithAD group) false) (vc_base v) 0 group = Ok (llen group) ->
  groupVerified v spec proto group = Ok true.
Proof.
  intros Hne Hr. unfold groupVerified. rewrite Hr. cbn [mbind outcome_bind]. rewrite Z.eqb_refl. cbn. destruct group; [done|]. unfold llen. cbn [length].
  by rewrite (proj2 (Z.eqb_neq _ _)) by lia.
Qed.

(** A member that fails is reported as such. *)
Lemma verifyMembers_error g stxs : forall i c f b e b', verifyMembers g i stxs c f b = (Err e, b') -> e = Errorf "transaction invalid".
Proof.
  induction stxs as [|s stxs IH]; intros i c f b e b'; cbn [verifyMembers]; [done|].
  destruct (TxnBatchVerify s i g b) as [[|e'|] b1]; [apply IH|by intros [= <- _]|done].
Qed.

(** What is left of a run of [TxnGroup] when the members passed. *)
Lemma TxnGroup_added stxs hdr v r cache' : TxnGroup stxs hdr (Some v) = (r, cache') -> (exists g, r = Ok g) \/ r = Err ErrBatchVerificationFailed ->
  exists g, PrepareGroupContext stxs hdr = Ok (Some g) /\ cache' = Some (add stxs g v).
Proof.
  unfold TxnGroup, TxnGroupBatchVerify. destruct (groupChecks stxs hdr _) as [[g|e|] b] eqn:E; cbn.
  - intros [= <- <-] _. exists g. split; [|done]. unfold groupChecks in E. apply lift_then in E as ([g'|] & Hp & E); [|done].
    apply bind_Ok in E as ([c f] & b1 & _ & E). destruct (OMul _ _) as [need over]. rewrite !throwIf_then in E. destruct E as (_ & _ & [= <- _]). done.
  - intros [= <- <-] [[? [=]]|[= ->]]. unfold groupChecks in E. exfalso.
    unfold PrepareGroupContext in E. destruct (_ =? 0); [done|]. destruct (Consensus !! _) as [p|]; [|done]. unfold mbind, M_bind, lift in E.
    match type of E with context [verifyMembers ?g 0 stxs 0 0 ?b] => pose proof (verifyMembers_error g stxs 0 0 0 b) as Hm; destruct (verifyMembers g 0 stxs 0 0 b) as [[[c f]|e|] b1] end; [|specialize (Hm _ _ eq_refl); by injection E as ->|done].
    destruct (OMul _ _) as [need over]. destruct over; [done|]. unfold throwIf, lift, failIf in E. by destruct (_ <? _).
  - intros [= <- <-] [[? [=]]|[=]].
Qed.

Lemma verified_checked v group hdr :
  groupVerified v (mkSpecialAddresses (rs_FeeSink (bh_RewardsState hdr)) (rs_RewardsPool (bh_RewardsState hdr))) (bh_CurrentProtocol hdr) group = Ok true ->
  signaturesChecked v [group] hdr (Ok tt) v.
Proof. intros Hg. exists [], 0%nat. cbn [GetUnverifiedTranscationGroups]. rewrite Hg. split; [done|]. constructor. Qed.


Lemma existsb_perm {T} (f : T -> bool) l l' : l ≡ₚ l' -> existsb f l = existsb f l'.
Proof.
  induction 1 as [|x l1 l2 _ IH|x y l|l1 l2 l3 _ IH1 _ IH2]; cbn [existsb]; [done|by rewrite IH| |congruence]. by destruct (f x), (f y).
Qed.

(** Signatures are compared by position, not by transaction.  After a group was
    verified and entered in the cache, every rearrangement of its transactions passes as
    verified, if only the signatures stay where they were: each transaction is then
    accepted with the signatures of another. *)
Theorem cached_signatures_rearranged stxs stxs' hdr v g v' :
  cache_wf v -> (forall s, s ∈ stxs -> vc_pinned v !! SignedTxn_ID s = None) ->
  TxnGroup stxs hdr (Some v) = (Ok g, Some v') ->
  map stx_Txn stxs' ≡ₚ map stx_Txn stxs ->
  (forall k s s', stxs !! k = Some s -> stxs' !! k = Some s' -> sameSignatures s s' = true) ->
  signaturesChecked v' [stxs'] hdr (Ok tt) v'.
Proof.
  intros Hwf Hpin Hr Hperm Hsig. destruct (TxnGroup_added _ _ _ _ _ Hr) as (g' & Hp & [= ->]); [eauto|].
  pose proof (prepared _ _ _ Hp) as (Hne & _). assert (length stxs' = length stxs) as Hlen. { apply Permutation_length in Hperm. by rewrite !length_map in Hperm. }
  apply verified_checked, groupVerified_all; [destruct stxs, stxs'; done|].
  apply added_verified; [done..| | |].
  - rewrite !ComputeMinTealVersion_exact. assert (forall l, existsb needsVersion l = existsb (fun tx => negb (hdr_RekeyTo (tx_Header tx) =? 0) || bool_decide (tx_Type tx = ApplicationCallTx)) (map stx_Txn l)) as He.
    { induction l as [|s l IH]; [done|]. cbn [map existsb]. by rewrite IH. }
    rewrite !He. by rewrite (existsb_perm _ _ _ Hperm).
  - intros s Hs. assert (stx_Txn s ∈ map stx_Txn stxs) as Hin. { rewrite <- Hperm. by apply list_elem_of_fmap_2. }
    apply list_elem_of_fmap in Hin as (s' & E & Hin). exists s'. split; [done|]. unfold SignedTxn_ID. by rewrite E.
  - intros k txn Hk. destruct (lookup_lt_is_Some_2 stxs k) as [s Hs]; [rewrite <- Hlen; by eapply lookup_lt_Some|]. exists s. eauto.
Qed.

(** A lookup can take the node down.  The cached group is indexed with the
    position in the group that is looked up: a block that repeats a member of a cached
    group behind it makes the lookup panic, before the group itself is checked. *)
Theorem cache_lookup_panics stxs s hdr v g v' groups :
  cache_wf v -> (forall s, s ∈ stxs -> vc_pinned v !! SignedTxn_ID s = None) -> s ∈ stxs ->
  TxnGroup stxs hdr (Some v) = (Ok g, Some v') ->
  GetUnverifiedTranscationGroups v' ((stxs ++ [s]) :: groups)
    (mkSpecialAddresses (rs_FeeSink (bh_RewardsState hdr)) (rs_RewardsPool (bh_RewardsState hdr))) (bh_CurrentProtocol hdr) = Panic.
Proof.
  intros Hwf Hpin Hin Hr. destruct (TxnGroup_added _ _ _ _ _ Hr) as (g' & Hp & [= ->]); [eauto|]. pose proof (prepared _ _ _ Hp) as (Hne & _ & Hst & _).
  cbn [GetUnverifiedTranscationGroups]. unfold groupVerified. set (mt := ComputeMinTealVersion _ _).
  assert (mt = ComputeMinTealVersion (WrapSignedTxnsWithAD stxs) false) as Hmt.
  { subst mt. rewrite !ComputeMinTealVersion_exact, existsb_app. cbn [existsb]. rewrite orb_false_r. destruct (existsb needsVersion stxs) eqn:E; [done|].
    destruct (needsVersion s) eqn:Es; [|done]. assert (existsb needsVersion stxs = true) by (apply existsb_exists; exists s; split; [by apply list_elem_of_In|done]). congruence. }
  erewrite added_lookup; [|exact Hp|done|done|done|eauto|].
  - cbn [verifiedTxns]. change (lg_ID (stx_Txn s)) with (SignedTxn_ID s). rewrite added_found by auto. rewrite (prepared_equal stxs) by done. cbn [negb].
    unfold index_or_panic, llen. rewrite Nat2Z.id, Hst, (lookup_ge_None_2 stxs) by done. done.
  - intros k txn Hk. exists txn. split; [done|]. apply sameSignatures_refl.
Qed.

End correct.

(** ** Examples *)

Lemma toy_typed l : forallb (fun s => (0 <=? stx_Fee s) && (stx_Fee s <? two64)) l = true -> (length l < 100)%nat -> fees_typed l.
Proof.
  intros Hl Hn. split; [|unfold llen, two64; lia]. apply Forall_forall. intros s Hs. rewrite forallb_forall in Hl.
  specialize (Hl s (proj1 (list_elem_of_In _ _) Hs)). unfold is_u64. lia.
Qed.

Lemma TxnGroup_exact_witness :
  exists g, (TxnGroup [toy_pay 8 1000 9 0; toy_pay 50 1001 51 0] sample_header None).1 = Ok g /\ authorised g 0 (toy_pay 8 1000 9 0) /\ authorised g 1 (toy_pay 50 1001 51 0).
Proof.
  assert (isOk (TxnGroup [toy_pay 8 1000 9 0; toy_pay 50 1001 51 0] sample_header None).1 = true) as Hok by (by vm_compute).
  destruct (TxnGroup [toy_pay 8 1000 9 0; toy_pay 50 1001 51 0] sample_header None).1 as [g| |] eqn:E; [|done..]. exists g. split; [done|].
  apply (TxnGroup_exact toy_exact) in E as (_ & Hm & _); [|apply toy_typed; [by vm_compute|cbn; lia]].
  split; [apply (Hm 0%nat); reflexivity|apply (Hm 1%nat); reflexivity].
Defined.

(** A run of a workset on its own. *)
Lemma single_run `{LogicHashes} `{AvmCrypto} `{SigCrypto signable} group hdr v groups : llen group <= txnPerWorksetThreshold -> verifyWorkset [group] hdr = Ok groups ->
  paysetSteps hdr 4 (startPayset [group] v) (Returned (Ok tt) (AddPayset groups v)).
Proof.
  intros Hl Hv. unfold startPayset. cbn [llen length Z.of_nat Pos.of_succ_nat Z.eqb].
  set (p0 := mkpaysetState [group] [] 0 0 [] [] false v).
  set (p1 := mkpaysetState [] [group] 0 0 [] [] false v). set (p2 := mkpaysetState [] [] 1 1 [[group]] [] false v).
  set (p3 := mkpaysetState [] [] 1 1 [] [Ok tt] false (AddPayset groups v)).
  assert (paysetStep hdr (Looping p0) (Looping p1)) as S1.
  { apply (stepNext hdr p0 [group] []); [done|done|]. unfold worksetBuilder_next, p0. cbn [ps_builder nextFrom]. rewrite Z.add_0_l, (proj2 (Z.ltb_ge _ _)) by done. done. }
  assert (paysetStep hdr (Looping p1) (Looping p2)) as S2 by (by apply (stepEnqueue hdr p1)).
  assert (paysetStep hdr (Looping p2) (Looping p3)) as S3 by (by apply (stepWorkOk hdr p2 [] [group] [] groups)).
  assert (paysetStep hdr (Looping p3) (Returned (Ok tt) (AddPayset groups v))) as S4 by (by apply (stepReceive hdr p3 (Ok tt) [])).
  eauto using paysetSteps.
Qed.

Lemma PaysetGroups_returns_witness : exists r, paysetStep sample_header (startPayset [[toy_pay 8 1000 9 0]] toy_cache) r.
Proof.
  destruct (PaysetGroups_returns [[toy_pay 8 1000 9 0]] toy_cache sample_header 0 (startPayset [[toy_pay 8 1000 9 0]] toy_cache)) as [_ Hr]; [constructor|].
  exact (proj1 Hr).
Defined.

(** A ledger, and a block with one payment that was made on it. *)
Definition toy_ledger : LedgerForEvaluator :=
  mkLedgerForEvaluator (le_base pool_ledger) 77
    (Ok (1000, mkAccountTotals (mkAlgoCount 1000000000 1000) (mkAlgoCount 0 0) (mkAlgoCount 1000000000 1000) 20)) (fun _ => Ok None).
Definition toy_block : outcome Block :=
  blk ← MakeBlock (h_Header demo_hashes) (h_CommitFlat demo_hashes) (h_TxnMerkleRoot demo_hashes) 1600000003 pool_header;
  ev ← StartEvaluator demo_hashes toy_ledger (blk_Header blk) (mkEvaluatorOptions 0 true true 0 None);
  '(blk, _) ← ((_ ← TransactionGroup demo_vm demo_hashes no_certs [mkSignedTxnWithAD (toy_pay 8 1000 9 0) ApplyData_zero];
                GenerateBlock demo_hashes (fun _ => false)) ev).1;
  Ok blk.

(** Verification of payments that come one by one. *)
Definition one_by_one `{LogicHashes} `{AvmCrypto} `{SigCrypto signable} (gs : list (list SignedTxn)) (hdr : BlockHeader) : outcome unit :=
  match gs with
  | [[s]] => _ ← verifyWorkset [[s]] hdr; Ok tt
  | _ => Err errCanceled
  end.

Lemma one_by_one_runs `{LogicHashes} `{AvmCrypto} `{SigCrypto signable} size gs hdr : one_by_one gs hdr = Ok tt ->
  exists v', signaturesChecked (MakeVerifiedTransactionCache size) gs hdr (Ok tt) v'.
Proof.
  unfold one_by_one. destruct gs as [|[|s []] []]; try discriminate. intros Hv. apply outcome_bind_Ok in Hv as (r & Hv & _).
  exists (AddPayset r (MakeVerifiedTransactionCache size)), [[s]], 4%nat. split; [apply new_cache_verifies|]. apply single_run; [unfold llen, txnPerWorksetThreshold; cbn [length]; lia|exact Hv].
Qed.

Lemma Eval_signed_witness : exists blk delta, toy_block = Ok blk /\
  Eval demo_vm demo_hashes no_certs (fun _ => false) one_by_one toy_ledger blk true [] = Ok delta /\
  exists g, group_valid [toy_pay 8 1000 9 0] (blk_Header blk) g.
Proof.
  assert (match toy_block with
          | Ok blk => isOk (Eval demo_vm demo_hashes no_certs (fun _ => false) one_by_one toy_ledger blk true []) &&
              match DecodePaysetGroups blk with
              | Ok groups => bool_decide (map (map stad_SignedTxn) groups = [[toy_pay 8 1000 9 0]])
              | _ => false
              end
          | _ => false
          end = true) as Hok by (by vm_compute).
  destruct toy_block as [blk| |] eqn:Eb; [|done..]. apply andb_true_iff in Hok as [He Hd].
  destruct (Eval demo_vm demo_hashes no_certs (fun _ => false) one_by_one toy_ledger blk true []) as [delta| |] eqn:Ee; [|done..].
  destruct (DecodePaysetGroups blk) as [groups| |] eqn:Ed; [|done..]. apply bool_decide_eq_true in Hd. clear He.
  exists blk, delta. split; [reflexivity|]. split; [exact Ee|].
  destruct groups as [|group []]; [done| |done]. assert (map stad_SignedTxn group = [toy_pay 8 1000 9 0]) as Hg by (exact (f_equal (fun l => default [] (head l)) Hd)). rewrite <- Hg.
  eapply (Eval_signed toy_exact demo_vm demo_hashes no_certs (fun _ => false) one_by_one 100 toy_ledger blk [] delta [group]); [|exact Ed| |exact Ee|by left].
  - intros gs hdr. apply one_by_one_runs.
  - rewrite Hd. constructor; [|constructor]. apply toy_typed; [by vm_compute|cbn; lia].
Defined.

Lemma cache_vouched_witness : exists groups, verifyWorkset [[toy_pay 8 1000 9 0]] sample_header = Ok groups /\
  entries vouched (Pin [toy_pay 8 1000 9 0] (AddPayset groups toy_cache)).2.
Proof.
  assert (isOk (verifyWorkset [[toy_pay 8 1000 9 0]] sample_header) = true) as Hok by (by vm_compute).
  destruct (verifyWorkset [[toy_pay 8 1000 9 0]] sample_header) as [groups| |] eqn:E; [|done..]. exists groups. split; [done|].
  destruct (cache_vouched toy_exact [[toy_pay 8 1000 9 0]] toy_cache sample_header 4 (Ok tt) (AddPayset groups toy_cache) [] [toy_pay 8 1000 9 0] toy_specials "" [])
    as (_ & _ & H & _); [| | |exact H].
  - constructor; [|constructor]. apply toy_typed; [by vm_compute|cbn; lia].
  - apply new_cache_entries.
  - apply single_run; [unfold llen, txnPerWorksetThreshold; cbn [length]; lia|exact E].
Defined.


(** Account 50 pays with its own key, and claims to pay for 8 with its key 60; with the
    transactions exchanged, 8 pays with the signature of 50. *)
Lemma cached_signatures_rearranged_witness : exists v',
  signaturesChecked v' [[toy_pay 8 1001 51 0; toy_pay 50 1000 61 60]] sample_header (Ok tt) v' /\
  (TxnGroup [toy_pay 8 1001 51 0; toy_pay 50 1000 61 60] sample_header None).1 = Err ErrBatchVerificationFailed.
Proof.
  assert (isOk (TxnGroup [toy_pay 50 1000 51 0; toy_pay 8 1001 61 60] sample_header (Some toy_cache)).1 = true) as Hr by (by vm_compute).
  destruct (TxnGroup [toy_pay 50 1000 51 0; toy_pay 8 1001 61 60] sample_header (Some toy_cache)) as [[g| |] cache'] eqn:E; [|done..].
  destruct (TxnGroup_added _ _ _ _ _ E) as (g' & _ & ->); [eauto|]. eexists. split; [|by vm_compute].
  eapply (cached_signatures_rearranged _ [toy_pay 8 1001 51 0; toy_pay 50 1000 61 60] _ _ _ _ (new_cache_wf 100)); [|exact E| |].
  - done.
  - apply Permutation_swap.
  - intros [|[|[]]] s s'; cbn; intros [= <-] [= <-]; reflexivity.
Defined.

Lemma cache_lookup_panics_witness : exists v',
  GetUnverifiedTranscationGroups v' [[toy_pay 50 1000 51 0; toy_pay 8 1001 9 0; toy_pay 50 1000 51 0]] toy_specials (bh_CurrentProtocol sample_header) = Panic.
Proof.
  assert (isOk (TxnGroup [toy_pay 50 1000 51 0; toy_pay 8 1001 9 0] sample_header (Some toy_cache)).1 = true) as Hr by (by vm_compute).
  destruct (TxnGroup [toy_pay 50 1000 51 0; toy_pay 8 1001 9 0] sample_header (Some toy_cache)) as [[g| |] cache'] eqn:E; [|done..].
  destruct (TxnGroup_added _ _ _ _ _ E) as (g' & _ & ->); [eauto|]. eexists.
  eapply (cache_lookup_panics [toy_pay 50 1000 51 0; toy_pay 8 1001 9 0] (toy_pay 50 1000 51 0) sample_header _ _ _ [] (new_cache_wf 100)); [done|by left|exact E].
Defined.
