(* ===== verification/AgVote.v ===== *)
(** [src/agreement/]: the data of the agreement protocol and its verification:
    steps and thresholds ([types.go]), proposal values ([proposal.go]), committee
    membership ([selector.go], [src/data/committee/credential.go]), votes
    ([vote.go]), bundles ([bundle.go]) and certificates ([certificate.go]).

    The one-time signatures, the VRF, the hashes and the sortition function (a C++
    library) are parameters ([VoteCrypto]); the ledger is read through
    [LedgerReader].  Verification of the votes of a bundle runs in a pool of
    workers; its result is modelled in the order of the bundle. *)
From S2P Require Import Prelude Config Basics Transactions Bookkeeping.
#[local] Open Scope string_scope.
#[local] Open Scope list_scope.
#[local] Open Scope Z_scope.

(** ** Steps (types.go) *)

Notation period := Z (only parsing).
Notation step := Z (only parsing).

Definition propose : step := 0.
Definition soft : step := 1.
Definition cert : step := 2.
Definition next : step := 3.
Definition late : step := 253.
Definition redo : step := 254.
Definition down : step := 255.

(** [config.Protocol], in nanoseconds. *)
Definition SmallLambda : Z := 2000000000.
Definition BigLambda : Z := 15000000000.
Definition deadlineTimeout : Z := BigLambda + SmallLambda.
Definition partitionStep : step := next + 3.
Definition recoveryExtraTimeout : Z := SmallLambda.

Definition ConsensusVersion_params (v : string) : ConsensusParams :=
  default ConsensusParams_zero (Consensus !! v).

Definition FilterTimeout (p : period) (v : string) : Z :=
  if p =? 0 then proto_AgreementFilterTimeoutPeriod0 (ConsensusVersion_params v)
  else proto_AgreementFilterTimeout (ConsensusVersion_params v).

Definition DeadlineTimeout : Z := deadlineTimeout.

(** The loop of [nextVoteRanges] with [n] iterations left, on [int64]. *)
Fixpoint doubleRanges (n : nat) (extra lower upper : Z) : Z * Z :=
  match n with
  | O => (lower, upper)
  | S n =>
      let extra := swrap64 (extra * 2) in
      let lower := upper in
      let upper := swrap64 (lower + extra) in
      doubleRanges n extra lower upper
  end.

Definition nextVoteRanges (s : step) : Z * Z :=
  let extra := recoveryExtraTimeout in
  let lower := deadlineTimeout in
  let upper := swrap64 (lower + extra) in
  doubleRanges (Z.to_nat (s - next)) extra lower upper.

Definition reachesQuorum (s : step) (proto : ConsensusParams) (weight : Z) : bool :=
  if s =? propose then false
  else if s =? soft then proto_SoftCommitteeThreshold proto <=? weight
  else if s =? cert then proto_CertCommitteeThreshold proto <=? weight
  else if s =? late then proto_LateCommitteeThreshold proto <=? weight
  else if s =? redo then proto_RedoCommitteeThreshold proto <=? weight
  else if s =? down then proto_DownCommitteeThreshold proto <=? weight
  else proto_NextCommitteeThreshold proto <=? weight.

Definition threshold (s : step) (proto : ConsensusParams) : Z :=
  if s =? propose then 0
  else if s =? soft then proto_SoftCommitteeThreshold proto
  else if s =? cert then proto_CertCommitteeThreshold proto
  else if s =? late then proto_LateCommitteeThreshold proto
  else if s =? redo then proto_RedoCommitteeThreshold proto
  else if s =? down then proto_DownCommitteeThreshold proto
  else proto_NextCommitteeThreshold proto.

Definition committeeSize (s : step) (proto : ConsensusParams) : Z :=
  if s =? propose then proto_NumProposers proto
  else if s =? soft then proto_SoftCommitteeSize proto
  else if s =? cert then proto_CertCommitteeSize proto
  else if s =? late then proto_LateCommitteeSize proto
  else if s =? redo then proto_RedoCommitteeSize proto
  else if s =? down then proto_DownCommitteeSize proto
  else proto_NextCommitteeSize proto.

(** ** Proposal values and votes *)

Record proposalValue : Type := mkProposalValue {
  pv_OriginalPeriod : period;
  pv_OriginalProposer : Address;
  pv_BlockDigest : Digest;
  pv_EncodingDigest : Digest }.
#[export] Instance proposalValue_eq_dec : EqDecision proposalValue.
Proof. solve_decision. Defined.
#[export] Instance proposalValue_countable : Countable proposalValue.
Proof.
  refine (inj_countable' (fun p => (pv_OriginalPeriod p, pv_OriginalProposer p, pv_BlockDigest p, pv_EncodingDigest p))
            (fun '(a, b, c, d) => mkProposalValue a b c d) _).
  by intros [].
Defined.

Definition bottom : proposalValue := mkProposalValue 0 0 0 0.

Record hashableCredential : Type := mkHashableCredential {
  hc_RawOut : Z; hc_Member : Address; hc_Iter : Z }.
#[export] Instance hashableCredential_eq_dec : EqDecision hashableCredential.
Proof. solve_decision. Defined.

(** An unauthenticated credential is its VRF proof. *)
Notation UnauthenticatedCredential := Z (only parsing).
Notation OneTimeSignature := Z (only parsing).
Notation Seed := Z (only parsing).

Record Credential : Type := mkCredential {
  cr_Weight : Z;
  cr_VrfOut : Digest;
  cr_DomainSeparationEnabled : bool;
  cr_Hashable : hashableCredential;
  cr_UnauthenticatedCredential : UnauthenticatedCredential }.
#[export] Instance Credential_eq_dec : EqDecision Credential.
Proof. solve_decision. Defined.

Record rawVote : Type := mkRawVote {
  rv_Sender : Address;
  rv_Round : Round;
  rv_Period : period;
  rv_Step : step;
  rv_Proposal : proposalValue }.
#[export] Instance rawVote_eq_dec : EqDecision rawVote.
Proof. solve_decision. Defined.

Record unauthenticatedVote : Type := mkUnauthenticatedVote {
  uv_R : rawVote; uv_Cred : UnauthenticatedCredential; uv_Sig : OneTimeSignature }.

Record vote : Type := mkVote { v_R : rawVote; v_Cred : Credential; v_Sig : OneTimeSignature }.
#[export] Instance vote_eq_dec : EqDecision vote.
Proof. solve_decision. Defined.

Record unauthenticatedEquivocationVote : Type := mkUnauthenticatedEquivocationVote {
  uev_Sender : Address;
  uev_Round : Round;
  uev_Period : period;
  uev_Step : step;
  uev_Cred : UnauthenticatedCredential;
  uev_Proposals : proposalValue * proposalValue;
  uev_Sigs : OneTimeSignature * OneTimeSignature }.

Record equivocationVote : Type := mkEquivocationVote {
  ev_Sender : Address;
  ev_Round : Round;
  ev_Period : period;
  ev_Step : step;
  ev_Cred : Credential;
  ev_Proposals : proposalValue * proposalValue;
  ev_Sigs : OneTimeSignature * OneTimeSignature }.

(** The methods [u], [v0] and [v1]. *)
Definition vote_u (v : vote) : unauthenticatedVote :=
  mkUnauthenticatedVote (v_R v) (cr_UnauthenticatedCredential (v_Cred v)) (v_Sig v).
Definition pair_v0 (pair : equivocationVote) : vote :=
  mkVote (mkRawVote (ev_Sender pair) (ev_Round pair) (ev_Period pair) (ev_Step pair) (ev_Proposals pair).1)
    (ev_Cred pair) (ev_Sigs pair).1.
Definition pair_v1 (pair : equivocationVote) : vote :=
  mkVote (mkRawVote (ev_Sender pair) (ev_Round pair) (ev_Period pair) (ev_Step pair) (ev_Proposals pair).2)
    (ev_Cred pair) (ev_Sigs pair).2.

(** Abbreviations for the fields of a vote the machines read. *)
Definition v_Sender (v : vote) : Address := rv_Sender (v_R v).
Definition v_Proposal (v : vote) : proposalValue := rv_Proposal (v_R v).
Definition v_Step (v : vote) : step := rv_Step (v_R v).
Definition v_Weight (v : vote) : Z := cr_Weight (v_Cred v).
Definition ev_Weight (e : equivocationVote) : Z := cr_Weight (ev_Cred e).

(** ** Committee membership (selector.go, committee/) *)

Record selector : Type := mkSelector {
  sel_Seed : Seed; sel_Round : Round; sel_Period : period; sel_Step : step }.

Record Membership : Type := mkMembership {
  mem_Record : OnlineAccountData_t;
  mem_Addr : Address;
  mem_Selector : selector;
  mem_TotalMoney : Z }.

Record LedgerReader : Type := mkLedgerReader {
  lr_Seed : Round -> outcome Seed;
  lr_LookupAgreement : Round -> Address -> outcome OnlineAccountData_t;
  lr_Circulation : Round -> outcome Z;
  lr_LookupDigest : Round -> outcome Digest;
  lr_ConsensusParams : Round -> outcome ConsensusParams }.

(** What the code calls of package crypto and of the sortition library. *)
Record VoteCrypto : Type := mkVoteCrypto {
  vc_VerifyVote : Z -> OneTimeSignatureIdentifier -> rawVote -> OneTimeSignature -> bool -> bool;
  vc_VerifyVrf : Z -> UnauthenticatedCredential -> selector -> bool * Z;
  vc_HashCredential : hashableCredential -> Digest;
  vc_HashVrfOut : Z -> Address -> Digest;
  vc_HashIter : Digest -> Digest -> Digest;
  vc_Select : Z -> Z -> Z -> Digest -> Z }.

Definition ParamsRound (rnd : Round) : Round := Round_SubSaturate rnd 2.
Definition balanceRound (r : Round) (cparams : ConsensusParams) : Round :=
  Round_SubSaturate r (wrap64 (2 * proto_SeedRefreshInterval cparams * proto_SeedLookback cparams)).
Definition seedRound (r : Round) (cparams : ConsensusParams) : Round :=
  Round_SubSaturate r (proto_SeedLookback cparams).

Definition membership (l : LedgerReader) (addr : Address) (r : Round) (p : period) (s : step)
    : outcome Membership :=
  cparams ← lr_ConsensusParams l (ParamsRound r);
  record ← wrapErr (Errorf "Failed to obtain balance record") (lr_LookupAgreement l (balanceRound r cparams) addr);
  total ← wrapErr (Errorf "Failed to obtain total circulation") (lr_Circulation l (balanceRound r cparams));
  seed ← wrapErr (Errorf "Failed to obtain seed") (lr_Seed l (seedRound r cparams));
  Ok (mkMembership record addr (mkSelector seed r p s) total).

Section crypto.
  Context (C : VoteCrypto).

(** The committee size is compared with the total money as a float; the sizes
    are far below 2^53, where the comparison is that of the integers. *)
Definition Credential_Verify (cred : UnauthenticatedCredential) (proto : ConsensusParams) (m : Membership)
    : outcome Credential :=
  let '(ok, vrfOut) := vc_VerifyVrf C (oad_SelectionID (mem_Record m)) cred (mem_Selector m) in
  let hashable := mkHashableCredential vrfOut (mem_Addr m) 0 in
  let separate := proto_CredentialDomainSeparationEnabled proto in
  let h := if separate then vc_HashCredential C hashable else vc_HashVrfOut C vrfOut (mem_Addr m) in
  _ ← failIf (negb ok) (Errorf "UnauthenticatedCredential.Verify: could not verify VRF Proof");
  let userMoney := VotingStake (mem_Record m) in
  let expectedSelection := committeeSize (sel_Step (mem_Selector m)) proto in
  if mem_TotalMoney m <? userMoney then Panic
  else if (mem_TotalMoney m =? 0) || (expectedSelection =? 0) || (mem_TotalMoney m <? expectedSelection) then Panic
  else
    let weight := if negb (userMoney =? 0)
                  then vc_Select C userMoney (mem_TotalMoney m) expectedSelection h else 0 in
    _ ← failIf (weight =? 0) (Errorf "UnauthenticatedCredential.Verify: credential has weight 0");
    Ok (mkCredential weight h separate (if separate then hashable else mkHashableCredential 0 0 0) cred).

(** The hash of the [i]-th simulated selection, and the lowest of the first
    [n]. *)
Definition outputHash (cred : Credential) (i : Z) : Z :=
  if cr_DomainSeparationEnabled cred
  then vc_HashCredential C (mkHashableCredential (hc_RawOut (cr_Hashable cred)) (hc_Member (cr_Hashable cred)) i)
  else vc_HashIter C (cr_VrfOut cred) (Z.shiftl i 192).

Fixpoint lowestOutput_upto (cred : Credential) (n : nat) : Z :=
  match n with
  | O => 0
  | S O => outputHash cred 1
  | S n' =>
      let lowest := lowestOutput_upto cred n' in
      let temp := outputHash cred (Z.of_nat n) in
      if temp <? lowest then temp else lowest
  end.

Definition lowestOutput (cred : Credential) : Z := lowestOutput_upto cred (Z.to_nat (cr_Weight cred)).

Definition Less (cred otherCred : Credential) : bool := lowestOutput cred <? lowestOutput otherCred.

(** ** Verifying votes (vote.go) *)

Definition rawVoteOk (rv : rawVote) : outcome unit :=
  let pv := rv_Proposal rv in
  _ ← failIf ((rv_Step rv =? propose) && (rv_Period rv =? pv_OriginalPeriod pv) &&
              negb (rv_Sender rv =? pv_OriginalProposer pv))
        (Errorf "unauthenticatedVote.verify: proposal-vote sender mismatches with proposal-value");
  _ ← failIf ((rv_Step rv =? propose) && (rv_Period rv <? pv_OriginalPeriod pv))
        (Errorf "unauthenticatedVote.verify: proposal-vote claims to repropose block from future period");
  failIf (((rv_Step rv =? propose) || (rv_Step rv =? soft) || (rv_Step rv =? cert)) && bool_decide (pv = bottom))
    (Errorf "unauthenticatedVote.verify: votes from this step cannot validate bottom").

Definition vote_verify (l : LedgerReader) (uv : unauthenticatedVote) : outcome vote :=
  let rv := uv_R uv in
  m ← wrapErr (Errorf "unauthenticatedVote.verify: could not get membership parameters")
        (membership l (rv_Sender rv) (rv_Round rv) (rv_Period rv) (rv_Step rv));
  _ ← rawVoteOk rv;
  proto ← wrapErr (Errorf "unauthenticatedVote.verify: could not get consensus params")
            (lr_ConsensusParams l (ParamsRound (rv_Round rv)));
  let record := mem_Record m in
  _ ← failIf (rv_Round rv <? oad_VoteFirstValid record)
        (Errorf "unauthenticatedVote.verify: vote before VoteFirstValid");
  _ ← failIf (negb (oad_VoteLastValid record =? 0) && (oad_VoteLastValid record <? rv_Round rv))
        (Errorf "unauthenticatedVote.verify: vote after VoteLastValid");
  ephID ← OneTimeIDForRound (rv_Round rv) (KeyDilution proto record);
  _ ← failIf (negb (vc_VerifyVote C (oad_VoteID record) ephID rv (uv_Sig uv) (proto_EnableBatchVerification proto)))
        (Errorf "unauthenticatedVote.verify: could not verify FS signature");
  cred ← wrapErr (Errorf "unauthenticatedVote.verify: sender was not selected")
           (Credential_Verify (uv_Cred uv) proto m);
  Ok (mkVote rv cred (uv_Sig uv)).

Definition pair_verify (l : LedgerReader) (pair : unauthenticatedEquivocationVote) : outcome equivocationVote :=
  let '(p0, p1) := uev_Proposals pair in
  _ ← failIf (bool_decide (p0 = p1)) (Errorf "isEquivocationPair: not an equivocation pair: identical vote");
  let raw := mkRawVote (uev_Sender pair) (uev_Round pair) (uev_Period pair) (uev_Step pair) in
  v0 ← wrapErr (Errorf "unauthenticatedEquivocationVote.verify: failed to verify pair 0")
         (vote_verify l (mkUnauthenticatedVote (raw p0) (uev_Cred pair) (uev_Sigs pair).1));
  _ ← wrapErr (Errorf "unauthenticatedEquivocationVote.verify: failed to verify pair 1")
        (vote_verify l (mkUnauthenticatedVote (raw p1) (uev_Cred pair) (uev_Sigs pair).2));
  Ok (mkEquivocationVote (uev_Sender pair) (uev_Round pair) (uev_Period pair) (uev_Step pair) (v_Cred v0)
        (uev_Proposals pair) (uev_Sigs pair)).

End crypto.

(** ** Bundles (bundle.go) *)

Record voteAuthenticator : Type := mkVoteAuthenticator {
  va_Sender : Address; va_Cred : UnauthenticatedCredential; va_Sig : OneTimeSignature }.
#[export] Instance voteAuthenticator_eq_dec : EqDecision voteAuthenticator.
Proof. solve_decision. Defined.

Record equivocationVoteAuthenticator : Type := mkEquivocationVoteAuthenticator {
  eva_Sender : Address;
  eva_Cred : UnauthenticatedCredential;
  eva_Sigs : OneTimeSignature * OneTimeSignature;
  eva_Proposals : proposalValue * proposalValue }.
#[export] Instance equivocationVoteAuthenticator_eq_dec : EqDecision equivocationVoteAuthenticator.
Proof. solve_decision. Defined.

Record unauthenticatedBundle : Type := mkUnauthenticatedBundle {
  ub_Round : Round;
  ub_Period : period;
  ub_Step : step;
  ub_Proposal : proposalValue;
  ub_Votes : list voteAuthenticator;
  ub_EquivocationVotes : list equivocationVoteAuthenticator }.
#[export] Instance unauthenticatedBundle_eq_dec : EqDecision unauthenticatedBundle.
Proof. solve_decision. Defined.

Definition unauthenticatedBundle_zero : unauthenticatedBundle := mkUnauthenticatedBundle 0 0 0 bottom [] [].

Record bundle : Type := mkBundle {
  b_U : unauthenticatedBundle; b_Votes : list vote; b_EquivocationVotes : list equivocationVote }.

Definition authenticator_of (v : vote) : voteAuthenticator :=
  mkVoteAuthenticator (v_Sender v) (cr_UnauthenticatedCredential (v_Cred v)) (v_Sig v).
Definition pair_authenticator_of (e : equivocationVote) : equivocationVoteAuthenticator :=
  mkEquivocationVoteAuthenticator (ev_Sender e) (cr_UnauthenticatedCredential (ev_Cred e)) (ev_Sigs e) (ev_Proposals e).

(** The longest prefix taken while the packed weight is short of a quorum, with
    the weight packed after it. *)
Fixpoint pack {A} (weight : A -> Z) (proto : ConsensusParams) (s : step) (packed : Z) (l : list A) : list A * Z :=
  match l with
  | [] => ([], packed)
  | a :: l' =>
      if reachesQuorum s proto packed then ([], packed)
      else let '(taken, packed) := pack weight proto s (wrap64 (packed + weight a)) l' in (a :: taken, packed)
  end.

Definition makeBundle (proto : ConsensusParams) (targetProposal : proposalValue) (votes : list vote)
    (equivocationVotes : list equivocationVote) : outcome unauthenticatedBundle :=
  match votes with
  | [] => Panic
  | v0 :: _ =>
      if negb (forallb (fun v => bool_decide (v_Proposal v = targetProposal)) votes) then Panic
      else
        let s := v_Step v0 in
        let '(certVotes, packedSoFar) := pack v_Weight proto s 0 votes in
        let '(certEquiVotes, packedSoFar) := pack ev_Weight proto s packedSoFar equivocationVotes in
        if negb (reachesQuorum s proto packedSoFar) then Panic
        else Ok (mkUnauthenticatedBundle (rv_Round (v_R v0)) (rv_Period (v_R v0)) s targetProposal
                   (map authenticator_of certVotes) (map pair_authenticator_of certEquiVotes))
  end.

(** The votes a bundle claims. *)
Definition claimed_vote (b : unauthenticatedBundle) (a : voteAuthenticator) : unauthenticatedVote :=
  mkUnauthenticatedVote (mkRawVote (va_Sender a) (ub_Round b) (ub_Period b) (ub_Step b) (ub_Proposal b))
    (va_Cred a) (va_Sig a).
Definition claimed_pair (b : unauthenticatedBundle) (a : equivocationVoteAuthenticator)
    : unauthenticatedEquivocationVote :=
  mkUnauthenticatedEquivocationVote (eva_Sender a) (ub_Round b) (ub_Period b) (ub_Step b) (eva_Cred a)
    (eva_Proposals a) (eva_Sigs a).

(** Run a verification over a list, stopping at the first failure. *)
Fixpoint verify_each {A B} (f : A -> outcome B) (l : list A) : outcome (list B) :=
  match l with
  | [] => Ok []
  | a :: l' => b ← f a; bs ← verify_each f l'; Ok (b :: bs)
  end.

(** Is some sender of the list in [voters] or twice in the list? *)
Fixpoint has_dup (voters : gset Address) (senders : list Address) : bool :=
  match senders with
  | [] => false
  | a :: rest => bool_decide (a ∈ voters) || has_dup ({[ a ]} ∪ voters) rest
  end.

Section verify.
  Context (C : VoteCrypto).

(** [verifyAsync] and the future it returns.  A pair that fails to verify is
    reported as the empty pair, so both failures have the message of a vote. *)
Definition bundle_verify (l : LedgerReader) (b : unauthenticatedBundle) : outcome bundle :=
  _ ← failIf (ub_Step b =? propose) (Errorf "unauthenticatedBundle.verify: b.Step = propose");
  proto ← wrapErr (Errorf "unauthenticatedBundle.verify: could not get consensus params")
            (lr_ConsensusParams l (ParamsRound (ub_Round b)));
  let numVotes := llen (ub_Votes b) in
  let numEquivocationVotes := llen (ub_EquivocationVotes b) in
  let limit := threshold (ub_Step b) proto in
  _ ← failIf ((limit <? numVotes) || (limit <? numEquivocationVotes) ||
              (limit <? wrap64 (numVotes + numEquivocationVotes)))
        (Errorf "unauthenticatedBundle.verify: bundle too large");
  _ ← failIf (has_dup ∅ (map va_Sender (ub_Votes b)))
        (Errorf "unauthenticatedBundle.verify: vote was duplicated in bundle");
  _ ← failIf (has_dup (list_to_set (map va_Sender (ub_Votes b))) (map eva_Sender (ub_EquivocationVotes b)))
        (Errorf "unauthenticatedBundle.verify: equivocating vote pair was duplicated in bundle");
  votes ← wrapErr (Errorf "unauthenticatedBundle.verify: vote was invalid in bundle")
            (verify_each (fun a => vote_verify C l (claimed_vote b a)) (ub_Votes b));
  eqVotes ← wrapErr (Errorf "unauthenticatedBundle.verify: vote was invalid in bundle")
              (verify_each (fun a => pair_verify C l (claimed_pair b a)) (ub_EquivocationVotes b));
  let weight := foldl (fun w v => wrap64 (w + v_Weight v)) 0 votes in
  let weight := foldl (fun w e => wrap64 (w + ev_Weight e)) weight eqVotes in
  _ ← failIf (negb (reachesQuorum (ub_Step b) proto weight)) (Errorf "bundle: did not see enough votes");
  Ok (mkBundle b votes eqVotes).

(** The method [Certificate]: a cert bundle for a value. *)
Definition bundle_Certificate (b : unauthenticatedBundle) : outcome unauthenticatedBundle :=
  if negb (ub_Step b =? cert) then Panic
  else if bool_decide (ub_Proposal b = bottom) then Panic
  else Ok b.

(** [digest] is the hash of a block's header. *)
Definition claimsToAuthenticate (digest : BlockHeader -> Digest) (c : unauthenticatedBundle) (e : Block)
    : outcome unit :=
  _ ← failIf (negb (ub_Round c =? bh_Round (blk_Header e)))
        (Errorf "certificate claims to validate the wrong round");
  failIf (negb (pv_BlockDigest (ub_Proposal c) =? digest (blk_Header e)))
    (Errorf "certificate claims to validate the wrong hash").

Definition Authenticate (digest : BlockHeader -> Digest) (c : unauthenticatedBundle) (e : Block) (l : LedgerReader)
    : outcome unit :=
  _ ← failIf (negb (ub_Step c =? cert)) (Errorf "certificate step is not Cert");
  _ ← claimsToAuthenticate digest c e;
  _ ← bundle_verify l c;
  Ok tt.

End verify.
