(* ===== verification/AgTracker.v ===== *)
(** [src/agreement/voteTracker.go], [voteTrackerContract.go] and the threshold
    events of [events.go]: counting the votes of one step.

    A tracker receives the verified votes of a (round, period, step), counts their
    weight by value, counts a sender seen voting for two values for every value,
    and reports the first value that reaches the step's threshold together with a
    bundle of votes that proves it.  [stepRouter] is the tracker with the contract
    its [checkedListener] enforces. *)
From S2P Require Import Prelude Config Basics Transactions AgVote.
#[local] Open Scope string_scope.
#[local] Open Scope list_scope.
#[local] Open Scope Z_scope.

(** ** Threshold events (events.go) *)

Inductive thresholdType : Type := noThreshold | softThreshold | certThreshold | nextThreshold.
#[export] Instance thresholdType_eq_dec : EqDecision thresholdType.
Proof. solve_decision. Defined.

Record thresholdEvent : Type := mkThresholdEvent {
  te_T : thresholdType;
  te_Round : Round;
  te_Period : period;
  te_Step : step;
  te_Proposal : proposalValue;
  te_Bundle : unauthenticatedBundle;
  te_Proto : string }.
#[export] Instance thresholdEvent_eq_dec : EqDecision thresholdEvent.
Proof. solve_decision. Defined.

Definition thresholdEvent_zero : thresholdEvent :=
  mkThresholdEvent noThreshold 0 0 0 bottom unauthenticatedBundle_zero "".

(** ** The tracker (voteTracker.go) *)

Record proposalVoteCounter : Type := mkProposalVoteCounter { pvc_Count : Z; pvc_Votes : gmap Address vote }.
Definition proposalVoteCounter_zero : proposalVoteCounter := mkProposalVoteCounter 0 ∅.

Record voteTracker : Type := mkVoteTracker {
  vt_Voters : gmap Address vote;
  vt_Counts : gmap proposalValue proposalVoteCounter;
  vt_Equivocators : gmap Address equivocationVote;
  vt_EquivocatorsCount : Z }.
#[export] Instance Eta_voteTracker : Eta voteTracker := fun r =>
  mkVoteTracker (vt_Voters r) (vt_Counts r) (vt_Equivocators r) (vt_EquivocatorsCount r).

Definition voteTracker_zero : voteTracker := mkVoteTracker ∅ ∅ ∅ 0.

(** The entry of a value, the zero counter if there is none. *)
Definition counterOf (t : voteTracker) (p : proposalValue) : proposalVoteCounter :=
  default proposalVoteCounter_zero (vt_Counts t !! p).

Definition count (t : voteTracker) (p : proposalValue) : Z :=
  wrap64 (pvc_Count (counterOf t p) + vt_EquivocatorsCount t).

(** The values over the threshold; two of them are a panic. *)
Definition overThreshold (t : voteTracker) (proto : ConsensusParams) (s : step) : outcome (option proposalValue) :=
  match filter (fun p => reachesQuorum s proto (count t p) = true) (map fst (map_to_list (vt_Counts t))) with
  | [] => Ok None
  | [p] => Ok (Some p)
  | _ => Panic
  end.

(** [sort.SliceStable] for a strict order. *)
Fixpoint insert_by {A} (less : A -> A -> bool) (a : A) (l : list A) : list A :=
  match l with
  | [] => [a]
  | b :: l' => if less b a then b :: insert_by less a l' else a :: l
  end.
Definition SliceStable {A} (less : A -> A -> bool) (l : list A) : list A := foldr (insert_by less) [] l.

Definition heavier (w1 : Z) (a1 : Address) (w2 : Z) (a2 : Address) : bool :=
  (w2 <? w1) || ((w1 =? w2) && (a2 <? a1)).

(** An empty slice is indexed, and the process panics, when there are no votes or
    the first cut takes none. *)
Definition genBundle (t : voteTracker) (proto : ConsensusParams) (proposalVotes : proposalVoteCounter)
    : outcome unauthenticatedBundle :=
  let votes := SliceStable (fun v1 v2 => heavier (v_Weight v1) (v_Sender v1) (v_Weight v2) (v_Sender v2))
                 (map snd (map_to_list (pvc_Votes proposalVotes))) in
  let equiPairs := SliceStable (fun e1 e2 => heavier (ev_Weight e1) (ev_Sender e1) (ev_Weight e2) (ev_Sender e2))
                     (map snd (map_to_list (vt_Equivocators t))) in
  match votes with
  | [] => Panic
  | v0 :: _ =>
      let '(votes, weight) := pack v_Weight proto (v_Step v0) 0 votes in
      match votes with
      | [] => Panic
      | v0 :: _ =>
          let '(equiPairs, _) := pack ev_Weight proto (v_Step v0) weight equiPairs in
          makeBundle proto (v_Proposal v0) votes equiPairs
      end
  end.

(** The first vote of a sender is counted for its value. *)
Definition countVote (v : vote) (t : voteTracker) : voteTracker :=
  let c := counterOf t (v_Proposal v) in
  t <| vt_Voters := <[v_Sender v := v]> (vt_Voters t) |>
    <| vt_Counts := <[v_Proposal v := mkProposalVoteCounter (wrap64 (pvc_Count c + v_Weight v))
                                        (<[v_Sender v := v]> (pvc_Votes c))]> (vt_Counts t) |>.

(** A second vote for another value makes an equivocator of the sender. *)
Definition equivocate (oldVote v : vote) (t : voteTracker) : voteTracker :=
  let c := counterOf t (v_Proposal oldVote) in
  let counts :=
    if pvc_Count c <=? v_Weight oldVote then delete (v_Proposal oldVote) (vt_Counts t)
    else <[v_Proposal oldVote := mkProposalVoteCounter (wrap64 (pvc_Count c - v_Weight oldVote))
                                   (delete (v_Sender v) (pvc_Votes c))]> (vt_Counts t) in
  let ev := mkEquivocationVote (v_Sender oldVote) (rv_Round (v_R oldVote)) (rv_Period (v_R oldVote)) (v_Step oldVote)
              (v_Cred oldVote) (v_Proposal oldVote, v_Proposal v) (v_Sig oldVote, v_Sig v) in
  mkVoteTracker (delete (v_Sender v) (vt_Voters t)) counts (<[v_Sender v := ev]> (vt_Equivocators t))
    (vt_EquivocatorsCount t).

Definition thresholdKind (s : step) : thresholdType :=
  if s =? soft then softThreshold else if s =? cert then certThreshold else nextThreshold.

(** What is reported after the vote was counted. *)
Definition report (v : vote) (protoV : string) (overBefore : option proposalValue) : M voteTracker thresholdEvent :=
  let proto := ConsensusVersion_params protoV in
  t ← gets id;
  overAfter ← lift (overThreshold t proto (v_Step v));
  match overBefore, overAfter with
  | None, Some prop =>
      b ← lift (genBundle t proto (counterOf t prop));
      mret (mkThresholdEvent (thresholdKind (v_Step v)) (rv_Round (v_R v)) (rv_Period (v_R v)) (v_Step v) prop b protoV)
  | _, _ => mret thresholdEvent_zero
  end.

Definition handle_voteAccepted (v : vote) (protoV : string) : M voteTracker thresholdEvent :=
  let proto := ConsensusVersion_params protoV in
  t ← gets id;
  match vt_Equivocators t !! v_Sender v with
  | Some _ => mret thresholdEvent_zero
  | None =>
      overBefore ← lift (overThreshold t proto (v_Step v));
      match vt_Voters t !! v_Sender v with
      | None =>
          _ ← modify (countVote v);
          report v protoV overBefore
      | Some oldVote =>
          if bool_decide (v_Proposal oldVote = v_Proposal v) then mret thresholdEvent_zero
          else
            _ ← modify (fun t => t <| vt_EquivocatorsCount := wrap64 (vt_EquivocatorsCount t + v_Weight v) |>);
            t ← gets id;
            _ ← (if reachesQuorum (v_Step v) proto (vt_EquivocatorsCount t) then lift Panic else mret tt);
            _ ← modify (equivocate oldVote v);
            t ← gets id;
            if bool_decide (vt_Voters t = ∅) then mret thresholdEvent_zero
            else report v protoV overBefore
      end
  end.

(** The request is answered with [true] when the vote is filtered. *)
Definition handle_voteFilterRequest (rv : rawVote) (t : voteTracker) : bool :=
  match vt_Equivocators t !! rv_Sender rv with
  | Some _ => true
  | None =>
      match vt_Voters t !! rv_Sender rv with
      | Some v => bool_decide (rv_Proposal rv = v_Proposal v)
      | None => false
      end
  end.

Definition handle_dumpVotesRequest (t : voteTracker) : list unauthenticatedVote :=
  map (fun '(_, v) => vote_u v) (map_to_list (vt_Voters t)) ++
  (map_to_list (vt_Equivocators t) ≫= fun '(_, ev) => [vote_u (pair_v0 ev); vote_u (pair_v1 ev)]).

(** ** The contract (voteTrackerContract.go, listener.go) *)

Record voteTrackerContract : Type := mkVoteTrackerContract {
  vtc_Step : step; vtc_StepOk : bool; vtc_Emitted : bool }.
#[export] Instance Eta_voteTrackerContract : Eta voteTrackerContract := fun r =>
  mkVoteTrackerContract (vtc_Step r) (vtc_StepOk r) (vtc_Emitted r).

Record stepRouter : Type := mkStepRouter { VoteTracker : voteTracker; VoteTrackerContract : voteTrackerContract }.
#[export] Instance Eta_stepRouter : Eta stepRouter := fun r => mkStepRouter (VoteTracker r) (VoteTrackerContract r).

Definition stepRouter_zero : stepRouter := mkStepRouter voteTracker_zero (mkVoteTrackerContract 0 false false).

(** The precondition, with the contract it leaves; false is a violation. *)
Definition vtc_pre (v : vote) (c : voteTrackerContract) : bool * voteTrackerContract :=
  let c' := if vtc_StepOk c then c else c <| vtc_StepOk := true |> <| vtc_Step := v_Step v |> in
  (negb (v_Step v =? propose) && (vtc_Step c' =? v_Step v), c').

Definition isThreshold (e : thresholdEvent) : bool := negb (bool_decide (te_T e = noThreshold)).

Definition vtc_post (v : vote) (out : thresholdEvent) (c : voteTrackerContract) : bool * voteTrackerContract :=
  let kindOk :=
    match te_T out with
    | noThreshold => true
    | softThreshold => v_Step v =? soft
    | certThreshold => v_Step v =? cert
    | nextThreshold => cert <? v_Step v
    end in
  let onceOk := negb (isThreshold out && vtc_Emitted c) in
  let valueOk :=
    match te_T out with
    | softThreshold | certThreshold => negb (bool_decide (te_Proposal out = bottom))
    | _ => true
    end in
  let emptyBundle := bool_decide (ub_Votes (te_Bundle out) = []) in
  let bundleOk := Bool.eqb (negb (isThreshold out)) emptyBundle in
  let bottomOk := negb (isThreshold out && bool_decide (te_Proposal out = bottom) && (te_Step out <? next)) in
  (kindOk && onceOk && valueOk && bundleOk && bottomOk,
   if isThreshold out then c <| vtc_Emitted := true |> else c).

(** [checkedListener.handle]: a violated condition panics. *)
Definition checked_voteAccepted (v : vote) (protoV : string) : M stepRouter thresholdEvent := fun r =>
  let '(preOk, c) := vtc_pre v (VoteTrackerContract r) in
  if negb preOk then (Panic, r <| VoteTrackerContract := c |>)
  else
    match handle_voteAccepted v protoV (VoteTracker r) with
    | (Ok out, t) =>
        let '(postOk, c) := vtc_post v out c in
        (if postOk then Ok out else Panic, mkStepRouter t c)
    | (Err e, t) => (Err e, mkStepRouter t c)
    | (Panic, t) => (Panic, mkStepRouter t c)
    end.
