(* ===== verification/AgTrackerFacts.v ===== *)
(** The invariant of a vote tracker: its counters are the tally of the votes it
    has seen.  The lemmas follow it through counting a vote, recording an
    equivocation, finding the value over the threshold, packing its bundle and
    checking the contract, and end with a sequence of votes handled from the
    empty tracker. *)
From S2P Require Import Prelude Config Basics Transactions AgVote AgTracker.
#[local] Open Scope string_scope.
#[local] Open Scope list_scope.
#[local] Open Scope Z_scope.

(** ** Sums over the committee *)

Lemma sumZ_le {A} (f g : A -> Z) l : (forall a, a ∈ l -> f a <= g a) -> sumZ f l <= sumZ g l.
Proof.
  induction l as [|x l IH]; cbn; intros H; [lia|].
  specialize (IH ltac:(set_solver)). specialize (H x ltac:(set_solver)). lia.
Qed.

Lemma sumZ_plus {A} (f g : A -> Z) l : sumZ (fun a => f a + g a) l = sumZ f l + sumZ g l.
Proof. induction l; cbn; lia. Qed.

Lemma sumZ_map {A B} (f : B -> Z) (g : A -> B) l : sumZ f (map g l) = sumZ (fun a => f (g a)) l.
Proof. induction l; cbn; lia. Qed.

Lemma reachesQuorum_threshold s proto x : s <> propose -> reachesQuorum s proto x = (threshold s proto <=? x).
Proof. intros Hs. unfold reachesQuorum, threshold. rewrite (proj2 (Z.eqb_neq _ _) Hs). by repeat case_match. Qed.

(** ** What the votes say *)

(** The values a sender voted for, and whether it counts for a value: a sender of
    two values counts for every one. *)
Definition values (l : list vote) (a : Address) : gset proposalValue :=
  list_to_set (map v_Proposal (filter (fun v => v_Sender v = a) l)).
Definition equivocates (l : list vote) (a : Address) : bool := bool_decide (1 < size (values l a))%nat.
Definition supports (l : list vote) (a : Address) (p : proposalValue) : bool :=
  bool_decide (p ∈ values l a) || equivocates l a.

Lemma elem_of_values l a p : p ∈ values l a <-> exists v, v ∈ l /\ v_Sender v = a /\ v_Proposal v = p.
Proof.
  unfold values. rewrite elem_of_list_to_set, list_elem_of_fmap. setoid_rewrite list_elem_of_filter. naive_solver.
Qed.

Lemma values_snoc l v a :
  values (l ++ [v]) a = if decide (v_Sender v = a) then {[ v_Proposal v ]} ∪ values l a else values l a.
Proof.
  apply set_eq. intros p. rewrite elem_of_values. setoid_rewrite elem_of_app. setoid_rewrite list_elem_of_singleton.
  destruct (decide (v_Sender v = a)) as [Hs|Hs];
    [rewrite elem_of_union, elem_of_singleton|]; rewrite elem_of_values; naive_solver.
Qed.

Lemma equivocates_iff l a : equivocates l a = true <->
  exists p q, p <> q /\ p ∈ values l a /\ q ∈ values l a.
Proof.
  unfold equivocates. rewrite bool_decide_eq_true. split.
  - intros Hsz. destruct (size_pos_elem_of (values l a)) as [p Hp]; [lia|].
    destruct (size_pos_elem_of (values l a ∖ {[ p ]})) as [q Hq].
    + rewrite size_difference by set_solver. rewrite size_singleton. lia.
    + exists p, q. set_solver.
  - intros (p & q & Hne & Hp & Hq). apply (Nat.lt_le_trans _ (size ({[ p; q ]} : gset proposalValue))).
    + rewrite size_union by set_solver. rewrite !size_singleton. lia.
    + apply subseteq_size. set_solver.
Qed.

Lemma sumZ_ge_len {A} (f : A -> Z) l : (forall a, a ∈ l -> 0 < f a) -> llen l <= sumZ f l.
Proof.
  unfold llen. induction l as [|x l IH]; intros H; cbn [length sumZ]; [done|].
  specialize (IH ltac:(set_solver)). specialize (H x ltac:(set_solver)). rewrite Nat2Z.inj_succ. lia.
Qed.

Lemma insert_by_perm {A} (less : A -> A -> bool) a l : insert_by less a l ≡ₚ a :: l.
Proof. induction l as [|b l IH]; cbn; [done|]. destruct (less b a); [|done]. rewrite IH. constructor. Qed.

Lemma SliceStable_perm {A} (less : A -> A -> bool) l : SliceStable less l ≡ₚ l.
Proof. induction l as [|a l IH]; cbn; [done|]. by rewrite insert_by_perm, IH. Qed.

(** A list in the order of packing has the values of its map, one per key. *)
Lemma sorted_values {V} (less : V -> V -> bool) (sender : V -> Address) (m : gmap Address V) taken rest :
  (forall a v, m !! a = Some v -> sender v = a) ->
  SliceStable less (map snd (map_to_list m)) = taken ++ rest ->
  (forall v, v ∈ taken -> m !! sender v = Some v) /\ NoDup (map sender taken).
Proof.
  intros Hkey Heq. pose proof (SliceStable_perm less (map snd (map_to_list m))) as Hp. rewrite Heq in Hp.
  assert (forall v, v ∈ map snd (map_to_list m) -> m !! sender v = Some v) as Hin.
  { intros v. rewrite list_elem_of_fmap. intros ([a v'] & -> & Hin). apply elem_of_map_to_list in Hin. cbn.
    by rewrite (Hkey a v'). }
  split.
  - intros v Hv. apply Hin. rewrite <- Hp. set_solver.
  - assert (map sender (map snd (map_to_list m)) = map fst (map_to_list m)) as Hm.
    { rewrite map_map. apply map_ext_in. intros [a v] Hin'. cbn. apply Hkey, elem_of_map_to_list.
      by apply list_elem_of_In. }
    pose proof (NoDup_fst_map_to_list m) as Hnd. change (NoDup (map fst (map_to_list m))) in Hnd.
    rewrite <- Hm, <- Hp, map_app in Hnd. by apply NoDup_app in Hnd as [Hnd _].
Qed.

Section committee.
  (** The committee of a step: its members, without repetition, and their
      weights. *)
  Context (members : list Address) (w : Address -> Z).

Definition weigh (f : Address -> bool) : Z := sumZ (fun a => if f a then w a else 0) members.

(** The total weight that counts for a value, and the weight of the senders of
    two values. *)
Definition tally (l : list vote) (p : proposalValue) : Z := weigh (fun a => supports l a p).
Definition equivocation (l : list vote) : Z := weigh (equivocates l).
Definition totalWeight : Z := sumZ w members.

Record committee_ok : Prop := {
  co_NoDup : NoDup members;
  co_pos a : a ∈ members -> 0 < w a;
  co_total : totalWeight < two64 }.

(** A vote of the step by a member, with the member's weight. *)
Definition vote_of (r : Round) (p : period) (s : step) (v : vote) : Prop :=
  rv_Round (v_R v) = r /\ rv_Period (v_R v) = p /\ v_Step v = s /\
  v_Sender v ∈ members /\ v_Weight v = w (v_Sender v).

Lemma weigh_none f : (forall a, f a = false) -> weigh f = 0.
Proof. intros Hf. unfold weigh. induction members as [|a l IH]; cbn; [done|]. by rewrite Hf, IH. Qed.

Section sums.
  Context (Hc : committee_ok).

Lemma weigh_le (f g : Address -> bool) : (forall a, a ∈ members -> f a = true -> g a = true) -> weigh f <= weigh g.
Proof.
  intros H. apply sumZ_le. intros a Ha. pose proof (co_pos Hc a Ha). destruct (f a) eqn:E; [by rewrite H|].
  destruct (g a); lia.
Qed.

Lemma weigh_total f : 0 <= weigh f <= totalWeight.
Proof.
  split.
  - apply sumZ_nonneg. intros a Ha. pose proof (co_pos Hc a Ha). destruct (f a); lia.
  - apply sumZ_le. intros a Ha. pose proof (co_pos Hc a Ha). destruct (f a); lia.
Qed.

Lemma weigh_ext f g : (forall a, a ∈ members -> f a = g a) -> weigh f = weigh g.
Proof. intros H. apply sumZ_ext. intros a Ha. by rewrite H. Qed.

(** Changing the answer for one member. *)
Lemma weigh_change f g a : a ∈ members -> (forall b, b <> a -> g b = f b) -> f a = false -> g a = true ->
  weigh g = weigh f + w a.
Proof.
  intros Ha Hfg Hf Hg. unfold weigh.
  rewrite (sumZ_update (fun b => if f b then w b else 0) (fun b => if g b then w b else 0) members a).
  - rewrite Hf, Hg. lia.
  - apply (co_NoDup Hc).
  - done.
  - intros b Hb. by rewrite Hfg.
Qed.

(** The weight of the values of a map keyed by members. *)
Lemma weigh_map {V} (f : V -> Z) (m : gmap Address V) :
  (forall a v, m !! a = Some v -> a ∈ members /\ f v = w a) ->
  sumZ f (map snd (map_to_list m)) = weigh (fun a => bool_decide (is_Some (m !! a))).
Proof.
  induction m as [|a v m Ha IH] using map_ind; intros H.
  - rewrite map_to_list_empty, weigh_none; [done|]. intros a. apply bool_decide_eq_false. rewrite lookup_empty.
    by intros [].
  - rewrite map_to_list_insert by done. cbn. rewrite IH.
    + destruct (H a v) as [Hm Hf]; [by rewrite lookup_insert_eq|]. rewrite Hf. rewrite Z.add_comm. symmetry.
      apply weigh_change; [done| | |].
      * intros b Hb. by rewrite lookup_insert_ne.
      * apply bool_decide_eq_false. rewrite Ha. by intros [].
      * apply bool_decide_eq_true. rewrite lookup_insert_eq. eauto.
    + intros b v' Hb. apply H. rewrite lookup_insert_ne; [done|]. intros ->. congruence.
Qed.
End sums.

(** ** The invariant of a tracker *)

Definition voters_for (t : voteTracker) (p : proposalValue) : gmap Address vote :=
  filter (fun kv => v_Proposal kv.2 = p) (vt_Voters t).
Definition voted_for (t : voteTracker) (p : proposalValue) (a : Address) : bool :=
  bool_decide (is_Some (voters_for t p !! a)).
Definition is_equivocator (t : voteTracker) (a : Address) : bool :=
  bool_decide (is_Some (vt_Equivocators t !! a)).

(** The pair recorded for a sender of two votes of the history. *)
Definition pair_from (l : list vote) (a : Address) (e : equivocationVote) : Prop :=
  exists v1 v2, v1 ∈ l /\ v2 ∈ l /\ v_Sender v1 = a /\ v_Sender v2 = a /\ v_Proposal v1 <> v_Proposal v2 /\
    e = mkEquivocationVote a (rv_Round (v_R v1)) (rv_Period (v_R v1)) (v_Step v1) (v_Cred v1)
          (v_Proposal v1, v_Proposal v2) (v_Sig v1, v_Sig v2).

(** [t] is the tracker of the votes [l]. *)
Record tracks (l : list vote) (t : voteTracker) : Prop := {
  tr_voter a v : vt_Voters t !! a = Some v -> v ∈ l /\ v_Sender v = a /\ values l a = {[ v_Proposal v ]};
  tr_equivocator a e : vt_Equivocators t !! a = Some e -> pair_from l a e;
  tr_silent a : vt_Voters t !! a = None -> vt_Equivocators t !! a = None -> values l a = ∅;
  tr_counts p : vt_Counts t !! p =
    if decide (voters_for t p = ∅) then None
    else Some (mkProposalVoteCounter (weigh (voted_for t p)) (voters_for t p));
  tr_eqcount : vt_EquivocatorsCount t = weigh (is_equivocator t) }.

Lemma tracks_zero : tracks [] voteTracker_zero.
Proof.
  split; cbn.
  - intros a v. by rewrite lookup_empty.
  - intros a e. by rewrite lookup_empty.
  - done.
  - intros p. rewrite lookup_empty, decide_True; [done|]. apply map_filter_empty.
  - rewrite weigh_none; [done|]. intros a. apply bool_decide_eq_false. cbn. rewrite lookup_empty. by intros [].
Qed.

Lemma pair_equivocates l a e : pair_from l a e -> equivocates l a = true.
Proof.
  intros (v1 & v2 & H1 & H2 & S1 & S2 & Hne & _). apply equivocates_iff. exists (v_Proposal v1), (v_Proposal v2).
  rewrite !elem_of_values. naive_solver.
Qed.

Lemma voters_for_lookup t p a v :
  voters_for t p !! a = Some v <-> vt_Voters t !! a = Some v /\ v_Proposal v = p.
Proof. apply map_lookup_filter_Some. Qed.

Lemma voter_not_equivocator l t a v : tracks l t -> vt_Voters t !! a = Some v -> vt_Equivocators t !! a = None.
Proof.
  intros Ht Hv. destruct (vt_Equivocators t !! a) as [e|] eqn:E; [|done]. exfalso.
  apply (tr_equivocator l t Ht) in E. apply pair_equivocates in E. apply (tr_voter l t Ht) in Hv as (_ & _ & Hv).
  unfold equivocates in E. rewrite Hv, size_singleton in E. done.
Qed.

(** The tracker's verdict on a sender is the history's. *)
Lemma tracks_supports l t p a : tracks l t -> supports l a p = voted_for t p a || is_equivocator t a.
Proof.
  intros Ht. unfold supports, is_equivocator, voted_for.
  destruct (vt_Equivocators t !! a) as [e|] eqn:E.
  { rewrite (pair_equivocates l a e) by by apply (tr_equivocator l t Ht).
    rewrite (bool_decide_true (is_Some (Some e))) by eauto. by rewrite !orb_true_r. }
  rewrite (bool_decide_false (is_Some None)) by by intros []. rewrite orb_false_r.
  destruct (vt_Voters t !! a) as [v|] eqn:Ev.
  - destruct (tr_voter l t Ht a v Ev) as (_ & _ & Hval). unfold equivocates. rewrite Hval, size_singleton.
    rewrite (bool_decide_false (1 < 1)%nat) by lia. rewrite orb_false_r. apply bool_decide_ext.
    rewrite elem_of_singleton. split.
    + intros ->. exists v. by apply voters_for_lookup.
    + intros [v' Hv']. apply voters_for_lookup in Hv' as [Hv' <-]. congruence.
  - unfold equivocates. rewrite (tr_silent l t Ht a Ev E), size_empty.
    rewrite (bool_decide_false (1 < 0)%nat) by lia. rewrite orb_false_r. apply bool_decide_ext.
    split; [set_solver|]. intros [v' Hv']. apply voters_for_lookup in Hv' as [Hv' _]. congruence.
Qed.

Section exact.
  Context (Hc : committee_ok).

Lemma counterOf_count l t p : tracks l t -> pvc_Count (counterOf t p) = weigh (voted_for t p).
Proof.
  intros Ht. unfold counterOf. rewrite (tr_counts l t Ht). destruct (decide _) as [He|]; [|done]. cbn.
  rewrite weigh_none; [done|]. intros a. unfold voted_for. rewrite He, lookup_empty.
  apply bool_decide_eq_false. by intros [].
Qed.

Lemma tally_split l t p : tracks l t -> tally l p = weigh (voted_for t p) + weigh (is_equivocator t).
Proof.
  intros Ht. unfold weigh at 1 2, tally, weigh. rewrite <- sumZ_plus. apply sumZ_ext. intros a _.
  rewrite (tracks_supports l t p a Ht). unfold voted_for, is_equivocator.
  destruct (voters_for t p !! a) as [v|] eqn:E.
  - apply voters_for_lookup in E as [E _]. rewrite (voter_not_equivocator l t a v) by done.
    rewrite (bool_decide_true (is_Some (Some v))) by eauto.
    rewrite (bool_decide_false (is_Some None)) by by intros []. cbn. lia.
  - rewrite (bool_decide_false (is_Some None)) by by intros []. cbn. lia.
Qed.

(** The counter of a value is its tally. *)
Lemma tracks_count l t p : tracks l t -> count t p = tally l p.
Proof.
  intros Ht. unfold count. rewrite (counterOf_count l t p Ht), (tr_eqcount l t Ht), <- (tally_split l t p Ht).
  apply wrap64_small. destruct (weigh_total Hc (fun a => supports l a p)). split; [done|].
  eapply Z.le_lt_trans; [done|]. apply Hc.
Qed.
End exact.

Lemma tracks_equivocates l t a : tracks l t -> equivocates l a = is_equivocator t a.
Proof.
  intros Ht. unfold is_equivocator. destruct (vt_Equivocators t !! a) as [e|] eqn:E.
  { rewrite (pair_equivocates l a e) by by apply (tr_equivocator l t Ht). by rewrite bool_decide_true by eauto. }
  rewrite (bool_decide_false (is_Some None)) by by intros []. unfold equivocates. apply bool_decide_eq_false.
  destruct (vt_Voters t !! a) as [v|] eqn:Ev.
  - destruct (tr_voter l t Ht a v Ev) as (_ & _ & ->). rewrite size_singleton. lia.
  - rewrite (tr_silent l t Ht a Ev E), size_empty. lia.
Qed.

Lemma tracks_equivocation l t : tracks l t -> equivocation l = vt_EquivocatorsCount t.
Proof.
  intros Ht. rewrite (tr_eqcount l t Ht). apply weigh_ext. intros a _. by apply tracks_equivocates.
Qed.

(** ** Counting a vote keeps the invariant *)

Section steps.
  Context (Hc : committee_ok) (rnd : Round) (per : period) (s : step).

Lemma weigh_elem f a : a ∈ members -> f a = true -> w a <= weigh f.
Proof.
  intros Ha Hf. unfold weigh. pose proof (sumZ_le_elem (fun b => if f b then w b else 0) members a) as H. cbn in H.
  rewrite Hf in H. apply H; [|done]. intros b Hb. pose proof (co_pos Hc b Hb). destruct (f b); lia.
Qed.

Lemma weigh_u64 f : is_u64 (weigh f).
Proof. destruct (weigh_total Hc f). pose proof (co_total Hc). split; lia. Qed.

Lemma pair_from_snoc l v a e : pair_from l a e -> pair_from (l ++ [v]) a e.
Proof. intros (v1 & v2 & H1 & H2 & H). exists v1, v2. rewrite !elem_of_app. naive_solver. Qed.

(** A vote that adds nothing: of an equivocator, or repeated. *)
Lemma tracks_ignored l t v : tracks l t ->
  is_Some (vt_Equivocators t !! v_Sender v) \/ (exists old, vt_Voters t !! v_Sender v = Some old /\ v_Proposal old = v_Proposal v) ->
  tracks (l ++ [v]) t.
Proof.
  intros Ht Hv. split.
  - intros a u Hu. destruct (tr_voter l t Ht a u Hu) as (Hin & Hs & Hval).
    split_and!; [by apply elem_of_app; left|done|]. rewrite values_snoc.
    destruct (decide (v_Sender v = a)) as [<-|]; [|done]. rewrite Hval.
    destruct Hv as [[e He]|(old & Hold & Hp)]; [by rewrite (voter_not_equivocator l t _ u Ht Hu) in He|].
    rewrite Hu in Hold. injection Hold as <-. set_solver.
  - intros a e He. by apply pair_from_snoc, (tr_equivocator l t Ht).
  - intros a Ha Ha'. rewrite values_snoc. destruct (decide (v_Sender v = a)) as [<-|]; [|by apply (tr_silent l t Ht)].
    destruct Hv as [[e He]|(old & Hold & _)]; congruence.
  - apply (tr_counts l t Ht).
  - apply (tr_eqcount l t Ht).
Qed.

Lemma voters_for_count t v p : vt_Voters t !! v_Sender v = None ->
  voters_for (countVote v t) p =
    if decide (v_Proposal v = p) then <[v_Sender v := v]> (voters_for t p) else voters_for t p.
Proof.
  intros Hn. unfold voters_for, countVote. cbn. destruct (decide (v_Proposal v = p)) as [Hp|Hp].
  - by rewrite map_filter_insert_True.
  - rewrite map_filter_insert_False by done. by rewrite delete_id.
Qed.

Lemma tracks_countVote l t v : tracks l t -> v_Sender v ∈ members -> v_Weight v = w (v_Sender v) ->
  vt_Voters t !! v_Sender v = None -> vt_Equivocators t !! v_Sender v = None -> tracks (l ++ [v]) (countVote v t).
Proof.
  intros Ht Hm Hw Hn He. pose proof (voters_for_count t v) as Hf. split.
  - intros a u. cbn. destruct (decide (v_Sender v = a)) as [<-|Hne].
    + rewrite lookup_insert_eq. intros [= <-]. split_and!; [set_solver|done|].
      rewrite values_snoc, decide_True, (tr_silent l t Ht) by done. set_solver.
    + rewrite lookup_insert_ne by done. intros Hu. destruct (tr_voter l t Ht a u Hu) as (Hin & Hs & Hval).
      split_and!; [set_solver|done|]. by rewrite values_snoc, decide_False.
  - intros a e Ha. by apply pair_from_snoc, (tr_equivocator l t Ht).
  - intros a. cbn. destruct (decide (v_Sender v = a)) as [<-|Hne]; [by rewrite lookup_insert_eq|].
    rewrite lookup_insert_ne by done. intros. rewrite values_snoc, decide_False by done. by apply (tr_silent l t Ht).
  - intros p. rewrite Hf by done. cbn [vt_Counts countVote].
    assert (voters_for t p !! v_Sender v = None) as Hnf.
    { destruct (voters_for t p !! v_Sender v) eqn:E; [|done]. apply voters_for_lookup in E as [? _]. congruence. }
    unfold countVote. cbn. destruct (decide (v_Proposal v = p)) as [<-|Hp].
    + rewrite lookup_insert_eq, decide_False by apply insert_non_empty. f_equal.
      assert (weigh (voted_for (countVote v t) (v_Proposal v)) = weigh (voted_for t (v_Proposal v)) + w (v_Sender v)) as Hwt.
      { apply weigh_change; [done|done| | |]; unfold voted_for; rewrite ?Hf, ?decide_True by done.
        - intros b Hb. by rewrite lookup_insert_ne.
        - apply bool_decide_eq_false. rewrite Hnf. by intros [].
        - apply bool_decide_eq_true. rewrite lookup_insert_eq. eauto. }
      rewrite (counterOf_count l t _ Ht), Hw, <- Hwt, (wrap64_small _ (weigh_u64 _)). f_equal.
      unfold counterOf. rewrite (tr_counts l t Ht). destruct (decide _) as [E|]; cbn; [by rewrite E|done].
    + rewrite lookup_insert_ne, (tr_counts l t Ht) by done. case_decide; [done|]. do 2 f_equal.
      apply weigh_ext. intros a _. unfold voted_for. by rewrite Hf, decide_False.
  - apply (tr_eqcount l t Ht).
Qed.

(** The tracker after a second vote of [v]'s sender. *)
Definition equivocated (old v : vote) (t : voteTracker) : voteTracker :=
  equivocate old v (t <| vt_EquivocatorsCount := wrap64 (vt_EquivocatorsCount t + v_Weight v) |>).

Lemma voters_for_equivocated t old v p :
  voters_for (equivocated old v t) p = delete (v_Sender v) (voters_for t p).
Proof. unfold voters_for. cbn. by rewrite map_filter_delete. Qed.

Lemma voted_for_equivocated t old v p : vt_Voters t !! v_Sender v = Some old -> p <> v_Proposal old ->
  voters_for (equivocated old v t) p = voters_for t p.
Proof.
  intros Hold Hp. rewrite voters_for_equivocated. apply delete_id.
  destruct (voters_for t p !! v_Sender v) eqn:E; [|done]. apply voters_for_lookup in E as [? ?]. congruence.
Qed.

Lemma weigh_equivocated t old v : v_Sender v ∈ members -> vt_Voters t !! v_Sender v = Some old ->
  weigh (voted_for t (v_Proposal old)) = weigh (voted_for (equivocated old v t) (v_Proposal old)) + w (v_Sender v).
Proof.
  intros Hm Hold. apply (weigh_change Hc _ _ (v_Sender v)); [done| | |]; unfold voted_for; rewrite ?voters_for_equivocated.
  - intros b Hb. by rewrite ?voters_for_equivocated, lookup_delete_ne.
  - apply bool_decide_eq_false. rewrite lookup_delete_eq. by intros [].
  - apply bool_decide_eq_true. exists old. by apply voters_for_lookup.
Qed.

Lemma weigh_dom (m : gmap Address vote) : (forall a, is_Some (m !! a) -> a ∈ members) ->
  weigh (fun a => bool_decide (is_Some (m !! a))) <= 0 <-> m = ∅.
Proof.
  intros Hm. split.
  - intros Hle. apply map_empty. intros a. destruct (m !! a) as [u|] eqn:E; [exfalso|done].
    specialize (Hm a ltac:(by rewrite E)). pose proof (co_pos Hc a Hm).
    pose proof (weigh_elem (fun a => bool_decide (is_Some (m !! a))) a Hm) as H0. cbn in H0.
    rewrite E, (bool_decide_true (is_Some (Some u))) in H0 by eauto. specialize (H0 eq_refl). lia.
  - intros ->. rewrite weigh_none; [done|]. intros a. rewrite lookup_empty. apply bool_decide_eq_false. by intros [].
Qed.

Lemma voters_for_members l t p a : tracks l t -> Forall (vote_of rnd per s) l ->
  is_Some (voters_for t p !! a) -> a ∈ members.
Proof.
  intros Ht Hl [u Hu]. apply voters_for_lookup in Hu as [Hu _]. apply (tr_voter l t Ht) in Hu as (Hin & <- & _).
  rewrite Forall_forall in Hl. apply (Hl u Hin).
Qed.

Lemma weigh_equivocator t old v : v_Sender v ∈ members -> vt_Equivocators t !! v_Sender v = None ->
  weigh (is_equivocator (equivocated old v t)) = weigh (is_equivocator t) + w (v_Sender v).
Proof.
  intros Hm Hn. apply weigh_change; [done|done| | |]; unfold is_equivocator; cbn.
  - intros b Hb. by rewrite lookup_insert_ne.
  - apply bool_decide_eq_false. rewrite Hn. by intros [].
  - apply bool_decide_eq_true. rewrite lookup_insert_eq. eauto.
Qed.

Lemma equivocated_counts l t old v p : tracks l t -> Forall (vote_of rnd per s) l -> vote_of rnd per s v ->
  vt_Voters t !! v_Sender v = Some old ->
  vt_Counts (equivocated old v t) !! p =
    if decide (voters_for (equivocated old v t) p = ∅) then None
    else Some (mkProposalVoteCounter (weigh (voted_for (equivocated old v t) p)) (voters_for (equivocated old v t) p)).
Proof.
  intros Ht Hl Hv Hold. destruct Hv as (_ & _ & _ & Hm & Hw).
  destruct (tr_voter l t Ht _ old Hold) as (Hin & Hs & _).
  assert (forall a, is_Some (voters_for (equivocated old v t) (v_Proposal old) !! a) -> a ∈ members) as Hmem.
  { intros a [u Hu]. rewrite voters_for_equivocated in Hu. apply lookup_delete_Some in Hu as [_ Hu].
    by apply (voters_for_members l t (v_Proposal old)). }
  rewrite Forall_forall in Hl. destruct (Hl old Hin) as (_ & _ & _ & _ & Hwo). rewrite Hs in Hwo.
  pose proof (weigh_equivocated t old v Hm Hold) as Hwt.
  destruct (decide (p = v_Proposal old)) as [->|Hp].
  - assert (vt_Counts t !! v_Proposal old = Some (mkProposalVoteCounter (weigh (voted_for t (v_Proposal old)))
              (voters_for t (v_Proposal old)))) as Hc0.
    { rewrite (tr_counts l t Ht), decide_False; [done|]. intros He.
      assert (voters_for t (v_Proposal old) !! v_Sender v = Some old) as E by by apply voters_for_lookup.
      rewrite He, lookup_empty in E. done. }
    unfold equivocated at 1, equivocate. unfold counterOf. cbn. rewrite Hc0. cbn. rewrite Hwo, Hwt.
    rewrite (voters_for_equivocated t old v (v_Proposal old)). destruct (Z.leb_spec (weigh (voted_for (equivocated old v t) (v_Proposal old)) + w (v_Sender v)) (w (v_Sender v))) as [Hle|Hgt].
    + rewrite lookup_delete_eq, decide_True; [done|]. rewrite <- (voters_for_equivocated t old v).
      apply weigh_dom; [by apply Hmem|]. change (weigh (voted_for (equivocated old v t) (v_Proposal old)) <= 0). lia.
    + rewrite lookup_insert_eq, decide_False.
      * do 2 f_equal. rewrite wrap64_small; [lia|]. rewrite Z.add_simpl_r. apply weigh_u64.
      * rewrite <- (voters_for_equivocated t old v). intros He. apply weigh_dom in He; [|by apply Hmem].
        change (weigh (voted_for (equivocated old v t) (v_Proposal old)) <= 0) in He. lia.
  - assert (vt_Counts (equivocated old v t) !! p = vt_Counts t !! p) as ->.
    { cbn. destruct (_ <=? _); [by rewrite lookup_delete_ne|by rewrite lookup_insert_ne]. }
    rewrite (tr_counts l t Ht), (voted_for_equivocated t old v p) by done. case_decide; [done|]. do 2 f_equal.
    apply weigh_ext. intros a _. unfold voted_for. by rewrite (voted_for_equivocated t old v p).
Qed.

Lemma tracks_equivocated l t old v : tracks l t -> Forall (vote_of rnd per s) l -> vote_of rnd per s v ->
  vt_Voters t !! v_Sender v = Some old -> v_Proposal old <> v_Proposal v -> tracks (l ++ [v]) (equivocated old v t).
Proof.
  intros Ht Hl Hv Hold Hne. pose proof Hv as (_ & _ & _ & Hm & Hw).
  destruct (tr_voter l t Ht _ old Hold) as (Hin & Hs & Hval).
  pose proof (voter_not_equivocator l t _ old Ht Hold) as Hn. split.
  - intros a u. cbn. rewrite lookup_delete_Some. intros [Ha Hu].
    destruct (tr_voter l t Ht a u Hu) as (Hin' & Hs' & Hval'). split_and!; [set_solver|done|].
    by rewrite values_snoc, decide_False.
  - intros a e. cbn. destruct (decide (v_Sender v = a)) as [<-|Ha].
    + rewrite lookup_insert_eq. intros [= <-]. exists old, v. rewrite Hs. split_and!; set_solver.
    + rewrite lookup_insert_ne by done. intros He. by apply pair_from_snoc, (tr_equivocator l t Ht).
  - intros a. cbn. destruct (decide (v_Sender v = a)) as [<-|Ha]; [by rewrite lookup_insert_eq|].
    rewrite lookup_insert_ne, lookup_delete_ne by done. intros. rewrite values_snoc, decide_False by done.
    by apply (tr_silent l t Ht).
  - intros p. by apply (equivocated_counts l).
  - rewrite weigh_equivocator by done. cbn. rewrite (tr_eqcount l t Ht), Hw. apply wrap64_small.
    rewrite <- (weigh_equivocator t old v) by done. apply weigh_u64.
Qed.

(** The state the handler leaves. *)
Definition after (v : vote) (t : voteTracker) : voteTracker :=
  match vt_Equivocators t !! v_Sender v, vt_Voters t !! v_Sender v with
  | Some _, _ => t
  | None, None => countVote v t
  | None, Some old => if bool_decide (v_Proposal old = v_Proposal v) then t else equivocated old v t
  end.

Lemma tracks_after l t v : tracks l t -> Forall (vote_of rnd per s) l -> vote_of rnd per s v ->
  tracks (l ++ [v]) (after v t).
Proof.
  intros Ht Hl Hv. unfold after. destruct (vt_Equivocators t !! v_Sender v) eqn:E.
  { apply tracks_ignored; [done|]. left. by rewrite E. }
  destruct (vt_Voters t !! v_Sender v) as [old|] eqn:Ev.
  - case_bool_decide; [|by apply tracks_equivocated]. apply tracks_ignored; [done|]. right. eauto.
  - destruct Hv as (_ & _ & _ & Hm & Hw). by apply tracks_countVote.
Qed.
End steps.

(** ** Thresholds *)

Section thresholds.
  Context (Hc : committee_ok) (rnd : Round) (per : period) (s : step) (protoV : string).

Definition quorum : Z := threshold s (ConsensusVersion_params protoV).
Definition over (l : list vote) (p : proposalValue) : Prop := quorum <= tally l p.

(** The weight of the double voters leaves room for one value only. *)
Definition few (l : list vote) : Prop := totalWeight + equivocation l < 2 * quorum.

  Context (Hs : s <> propose).

Lemma few_equivocation l : few l -> 0 <= equivocation l < quorum.
Proof. unfold few. intros H. pose proof (weigh_total Hc (equivocates l)). unfold equivocation in *. lia. Qed.

Lemma supports_mono l v a p : supports l a p = true -> supports (l ++ [v]) a p = true.
Proof.
  unfold supports. rewrite !orb_true_iff, !bool_decide_eq_true, !equivocates_iff, values_snoc.
  case_decide; [|done]. set_solver.
Qed.

Lemma equivocates_mono l v a : equivocates l a = true -> equivocates (l ++ [v]) a = true.
Proof. rewrite !equivocates_iff, values_snoc. case_decide; [|done]. set_solver. Qed.

Lemma tally_mono l v p : tally l p <= tally (l ++ [v]) p.
Proof. apply weigh_le; [done|]. intros a _. apply supports_mono. Qed.

Lemma few_mono l v : few (l ++ [v]) -> few l.
Proof.
  unfold few. enough (equivocation l <= equivocation (l ++ [v])) by lia.
  apply weigh_le; [done|]. intros a _. apply equivocates_mono.
Qed.

(** Two values share their equivocators only. *)
Lemma over_unique l p q : few l -> over l p -> over l q -> p = q.
Proof.
  unfold over. intros Hf Hp Hq. destruct (decide (p = q)) as [|Hne]; [done|exfalso].
  assert (tally l p + tally l q <= totalWeight + equivocation l); [|unfold few in Hf; lia].
  unfold tally, equivocation, totalWeight, weigh. rewrite <- !sumZ_plus. apply sumZ_le. intros a Ha.
  pose proof (co_pos Hc a Ha). unfold supports. destruct (equivocates l a) eqn:E; [rewrite !orb_true_r; lia|].
  rewrite !orb_false_r. case_bool_decide as H1; case_bool_decide as H2; try lia.
  exfalso. enough (equivocates l a = true) by congruence. apply equivocates_iff. eauto.
Qed.

(** A value over the threshold has a voter that is not an equivocator. *)
Lemma over_entry l t p : tracks l t -> few l -> over l p -> voters_for t p <> ∅.
Proof.
  intros Ht Hf Hp He. destruct (few_equivocation l Hf) as [_ Hlt]. unfold over in Hp.
  rewrite (tally_split l t p Ht), <- (tr_eqcount l t Ht), <- (tracks_equivocation l t Ht) in Hp.
  rewrite <- (counterOf_count l t p Ht) in Hp. unfold counterOf in Hp. rewrite (tr_counts l t Ht), decide_True in Hp by done.
  cbn in Hp. lia.
Qed.

Lemma reachesQuorum_count l t p : tracks l t ->
  reachesQuorum s (ConsensusVersion_params protoV) (count t p) = true <-> over l p.
Proof.
  intros Ht. rewrite reachesQuorum_threshold by done. rewrite (tracks_count Hc l t p Ht). unfold over, quorum. lia.
Qed.

Lemma overThreshold_elem l t p : tracks l t -> few l ->
  p ∈ filter (fun p => reachesQuorum s (ConsensusVersion_params protoV) (count t p) = true)
        (map fst (map_to_list (vt_Counts t))) <-> over l p.
Proof.
  intros Ht Hf. rewrite list_elem_of_filter, (reachesQuorum_count l t p Ht). split; [by intros []|]. intros Hp. split; [done|].
  apply list_elem_of_fmap. exists (p, mkProposalVoteCounter (weigh (voted_for t p)) (voters_for t p)). split; [done|].
  apply elem_of_map_to_list. rewrite (tr_counts l t Ht), decide_False; [done|]. by apply (over_entry l).
Qed.

(** The check of the thresholds does not panic and finds the value over the
    threshold. *)
Lemma overThreshold_spec l t : tracks l t -> few l ->
  exists o, overThreshold t (ConsensusVersion_params protoV) s = Ok o /\ forall p, o = Some p <-> over l p.
Proof.
  intros Ht Hf. unfold overThreshold. set (ps := filter _ _).
  assert (forall p, p ∈ ps <-> over l p) as Hps by (intros p; by apply overThreshold_elem).
  assert (NoDup ps) as Hnd by (apply NoDup_filter; apply NoDup_fst_map_to_list).
  clearbody ps. destruct ps as [|p [|q ps]].
  - exists None. split; [done|]. intros p. rewrite <- Hps. set_solver.
  - exists (Some p). split; [done|]. intros q. rewrite <- Hps. set_solver.
  - exfalso. inversion_clear Hnd as [|? ? Hp _]. apply Hp. rewrite (over_unique l p q); [set_solver|done| |]; apply Hps; set_solver.
Qed.

(** ** Bundles *)

Lemma pack_spec {A} (weight : A -> Z) proto k l : (forall a, a ∈ l -> 0 < weight a) ->
  0 <= k -> k + sumZ weight l < two64 ->
  exists rest, l = (pack weight proto s k l).1 ++ rest /\
    (pack weight proto s k l).2 = k + sumZ weight (pack weight proto s k l).1 /\
    (rest = [] \/ threshold s proto <= (pack weight proto s k l).2) /\
    (llen (pack weight proto s k l).1 <= Z.max 0 (threshold s proto - k)).
Proof.
  revert k. induction l as [|a l IH]; intros k Hpos Hk Hb.
  - exists []. cbn. split_and!; [done|lia|by left|unfold llen; cbn; lia].
  - cbn [pack]. rewrite reachesQuorum_threshold by done. destruct (Z.leb_spec (threshold s proto) k) as [Hq|Hq].
    + exists (a :: l). cbn. split_and!; [done|lia|by right|unfold llen; cbn; lia].
    + cbn in Hb. pose proof (Hpos a ltac:(set_solver)) as Ha.
      assert (0 <= sumZ weight l) as Hs0 by (apply sumZ_nonneg; intros b Hb'; specialize (Hpos b); set_solver by lia).
      rewrite wrap64_small by (split; lia).
      destruct (IH (k + weight a)) as (rest & Hl & Hw & Hr & Hn); [set_solver|lia|lia|].
      destruct (pack weight proto s (k + weight a) l) as [taken packed]. cbn in *. exists rest.
      split_and!; [by rewrite Hl at 1|lia|done|]. unfold llen in *. cbn [length]. lia.
Qed.

Lemma pack_idem {A} (weight : A -> Z) proto k l :
  pack weight proto s k (pack weight proto s k l).1 = pack weight proto s k l.
Proof.
  revert k. induction l as [|a l IH]; intros k; cbn; [done|]. destruct (reachesQuorum s proto k) eqn:E; [done|].
  specialize (IH (wrap64 (k + weight a))). destruct (pack weight proto s (wrap64 (k + weight a)) l) as [taken packed].
  cbn in *. by rewrite E, IH.
Qed.

Lemma sumZ_perm {A} (f : A -> Z) l l' : l ≡ₚ l' -> sumZ f l = sumZ f l'.
Proof. induction 1; cbn; lia. Qed.

(** What is packed for a value over the threshold. *)
Record packed_for (t : voteTracker) (p : proposalValue) (vs : list vote) (es : list equivocationVote) : Prop := {
  pf_votes v : v ∈ vs -> voters_for t p !! v_Sender v = Some v;
  pf_pairs e : e ∈ es -> vt_Equivocators t !! ev_Sender e = Some e;
  pf_NoDup : NoDup (map v_Sender vs ++ map ev_Sender es);
  pf_some : vs <> [];
  pf_weight : quorum <= sumZ v_Weight vs + sumZ ev_Weight es;
  pf_small : sumZ v_Weight vs + sumZ ev_Weight es < two64;
  pf_size : llen vs + llen es <= quorum }.

Lemma pair_from_weight l a e : Forall (vote_of rnd per s) l -> pair_from l a e ->
  ev_Sender e = a /\ a ∈ members /\ ev_Weight e = w a.
Proof.
  intros Hl (v1 & v2 & H1 & H2 & <- & S2 & Hne & ->). cbn. rewrite Forall_forall in Hl.
  destruct (Hl v1 H1) as (_ & _ & _ & Hm & Hw). done.
Qed.

Lemma tracked_votes l t p : tracks l t -> Forall (vote_of rnd per s) l -> forall a v, voters_for t p !! a = Some v ->
  v ∈ l /\ v_Sender v = a /\ v_Proposal v = p /\ vote_of rnd per s v.
Proof.
  intros Ht Hl a v Hv. apply voters_for_lookup in Hv as [Hv Hp]. destruct (tr_voter l t Ht a v Hv) as (Hin & Hs' & _).
  rewrite Forall_forall in Hl. auto.
Qed.

(** The votes and the pairs, in the order of packing. *)
Definition sorted_votes (t : voteTracker) (p : proposalValue) : list vote :=
  SliceStable (fun v1 v2 => heavier (v_Weight v1) (v_Sender v1) (v_Weight v2) (v_Sender v2))
    (map snd (map_to_list (voters_for t p))).
Definition sorted_pairs (t : voteTracker) : list equivocationVote :=
  SliceStable (fun e1 e2 => heavier (ev_Weight e1) (ev_Sender e1) (ev_Weight e2) (ev_Sender e2))
    (map snd (map_to_list (vt_Equivocators t))).

Lemma sorted_weights l t p : tracks l t -> Forall (vote_of rnd per s) l ->
  sumZ v_Weight (sorted_votes t p) = weigh (voted_for t p) /\ sumZ ev_Weight (sorted_pairs t) = weigh (is_equivocator t).
Proof.
  intros Ht Hl. unfold sorted_votes, sorted_pairs. rewrite (sumZ_perm _ _ _ (SliceStable_perm _ _)).
  rewrite (sumZ_perm _ _ _ (SliceStable_perm _ (map snd (map_to_list (vt_Equivocators t))))). split; apply weigh_map; try done.
  - intros a v Hv. destruct (tracked_votes l t p Ht Hl a v Hv) as (_ & <- & _ & (_ & _ & _ & ? & ?)). done.
  - intros a e He. apply (tr_equivocator l t Ht) in He. by destruct (pair_from_weight l a e Hl He) as (_ & ? & ?).
Qed.

Lemma sorted_pos l t p : tracks l t -> Forall (vote_of rnd per s) l ->
  (forall v, v ∈ sorted_votes t p -> 0 < v_Weight v) /\ (forall e, e ∈ sorted_pairs t -> 0 < ev_Weight e).
Proof.
  intros Ht Hl. unfold sorted_votes, sorted_pairs. split.
  - intros v. rewrite (SliceStable_perm _ _). rewrite list_elem_of_fmap. intros ([a v'] & -> & Hin).
    apply elem_of_map_to_list in Hin. destruct (tracked_votes l t p Ht Hl a v' Hin) as (_ & _ & _ & (_ & _ & _ & Hm & Hw)).
    cbn. rewrite Hw. by apply (co_pos Hc).
  - intros e. rewrite (SliceStable_perm _ _). rewrite list_elem_of_fmap. intros ([a e'] & -> & Hin).
    apply elem_of_map_to_list, (tr_equivocator l t Ht), (pair_from_weight l) in Hin as (_ & Hm & Hw); [|done].
    cbn. rewrite Hw. by apply (co_pos Hc).
Qed.

Definition packed_votes (t : voteTracker) (p : proposalValue) : list vote * Z :=
  pack v_Weight (ConsensusVersion_params protoV) s 0 (sorted_votes t p).
Definition packed_pairs (t : voteTracker) (p : proposalValue) : list equivocationVote * Z :=
  pack ev_Weight (ConsensusVersion_params protoV) s (packed_votes t p).2 (sorted_pairs t).

Lemma packed_sums l t p : tracks l t -> few l -> Forall (vote_of rnd per s) l -> over l p ->
  exists rv re, sorted_votes t p = (packed_votes t p).1 ++ rv /\ sorted_pairs t = (packed_pairs t p).1 ++ re /\
    (packed_pairs t p).2 = sumZ v_Weight (packed_votes t p).1 + sumZ ev_Weight (packed_pairs t p).1 /\
    quorum <= (packed_pairs t p).2 < two64 /\ llen (packed_votes t p).1 + llen (packed_pairs t p).1 <= quorum /\
    (packed_votes t p).1 <> [].
Proof.
  intros Ht Hf Hl Hp. destruct (sorted_weights l t p Ht Hl) as [Wv We]. destruct (sorted_pos l t p Ht Hl) as [Pv Pe].
  destruct (few_equivocation l Hf) as [Hq0 Hq]. pose proof (tally_split l t p Ht) as Htl. unfold over in Hp.
  pose proof (weigh_total Hc (fun a => supports l a p)) as Ht0. fold (tally l p) in Ht0. pose proof (co_total Hc) as HT.
  pose proof (weigh_total Hc (voted_for t p)). pose proof (weigh_total Hc (is_equivocator t)).
  rewrite (tracks_equivocation l t Ht), (tr_eqcount l t Ht) in Hq0, Hq.
  destruct (pack_spec v_Weight (ConsensusVersion_params protoV) 0 (sorted_votes t p) Pv) as (rv & Ev & Sv & Qv & Nv); [lia|lia|].
  fold (packed_votes t p) quorum in Ev, Sv, Qv, Nv.
  rewrite Ev in Pv, Wv. rewrite sumZ_app in Wv.
  pose proof (sumZ_ge_len v_Weight (packed_votes t p).1 ltac:(set_solver)) as Lv.
  pose proof (sumZ_ge_len v_Weight rv ltac:(set_solver)) as Lrv. unfold llen in Lv, Lrv.
  destruct (pack_spec ev_Weight (ConsensusVersion_params protoV) (packed_votes t p).2 (sorted_pairs t) Pe)
    as (re & Ee & Se & Qe & Ne); [lia|lia|]. fold (packed_pairs t p) quorum in Ee, Se, Qe, Ne.
  rewrite Ee in Pe, We. rewrite sumZ_app in We.
  pose proof (sumZ_ge_len ev_Weight (packed_pairs t p).1 ltac:(set_solver)) as Le.
  pose proof (sumZ_ge_len ev_Weight re ltac:(set_solver)) as Lre. unfold llen in *.
  exists rv, re. split_and!; [done|done|lia| |lia|lia|].
  - destruct Qe as [->|?]; [|done]. destruct Qv as [->|?]; cbn in *; lia.
  - intros E. rewrite E in *. destruct Qv as [->|?]; cbn in *; lia.
Qed.

Lemma packed_ok l t p : tracks l t -> few l -> Forall (vote_of rnd per s) l -> over l p ->
  packed_for t p (packed_votes t p).1 (packed_pairs t p).1.
Proof.
  intros Ht Hf Hl Hp. destruct (packed_sums l t p Ht Hf Hl Hp) as (rv & re & Ev & Ee & Hs2 & Hq & Hn & Hne).
  destruct (sorted_values _ v_Sender (voters_for t p) (packed_votes t p).1 rv
              (fun a v Hv => proj1 (proj2 (tracked_votes l t p Ht Hl a v Hv))) Ev) as [Kv Dv].
  assert (forall a e, vt_Equivocators t !! a = Some e -> ev_Sender e = a) as Hke.
  { intros a e He. apply (tr_equivocator l t Ht), (pair_from_weight l) in He as (? & _); done. }
  destruct (sorted_values _ ev_Sender (vt_Equivocators t) (packed_pairs t p).1 re Hke Ee) as [Ke De].
  split; [done|done| |done|lia|lia|done]. apply NoDup_app. split_and!; [done| |done].
  intros a Hv He. apply list_elem_of_fmap in Hv as (v & -> & Hv). apply list_elem_of_fmap in He as (e & Hs' & He).
  apply Kv, voters_for_lookup in Hv as [Hv _]. apply Ke in He. rewrite <- Hs' in He.
  by rewrite (voter_not_equivocator l t _ v Ht Hv) in He.
Qed.

(** The bundle of a value over the threshold. *)
Definition packed_bundle (t : voteTracker) (p : proposalValue) : unauthenticatedBundle :=
  mkUnauthenticatedBundle rnd per s p (map authenticator_of (packed_votes t p).1)
    (map pair_authenticator_of (packed_pairs t p).1).

Lemma counterOf_votes l t p : tracks l t -> pvc_Votes (counterOf t p) = voters_for t p.
Proof. intros Ht. unfold counterOf. rewrite (tr_counts l t Ht). by case_decide. Qed.

Lemma genBundle_spec l t p : tracks l t -> few l -> Forall (vote_of rnd per s) l -> over l p ->
  genBundle t (ConsensusVersion_params protoV) (counterOf t p) = Ok (packed_bundle t p).
Proof.
  intros Ht Hf Hl Hp. pose proof (packed_ok l t p Ht Hf Hl Hp) as Hpk.
  destruct (packed_sums l t p Ht Hf Hl Hp) as (rv & re & Ev & Ee & Hs2 & Hq & Hn & Hne).
  assert (forall v, v ∈ (packed_votes t p).1 -> v_Proposal v = p /\ vote_of rnd per s v) as Hin.
  { intros v Hv. apply (pf_votes _ _ _ _ Hpk), (tracked_votes l t p Ht Hl) in Hv. naive_solver. }
  unfold genBundle. rewrite (counterOf_votes l t p Ht). fold (sorted_votes t p) (sorted_pairs t).
  destruct (packed_votes t p).1 as [|v0 vs] eqn:Epv; [done|]. rewrite Ev. cbn [app].
  destruct (Hin v0 ltac:(set_solver)) as (Hp0 & Hr0 & Hper0 & Hs0 & _). rewrite Hs0.
  change (v0 :: vs ++ rv) with ((v0 :: vs) ++ rv). rewrite <- Ev. fold (packed_votes t p).
  rewrite (surjective_pairing (packed_votes t p)) at 1. rewrite Epv. cbn [fst]. rewrite Hs0.
  fold (packed_pairs t p). rewrite (surjective_pairing (packed_pairs t p)) at 1. unfold makeBundle.
  rewrite Hp0, Hs0. replace (forallb _ (v0 :: vs)) with true; cbn [negb].
  2: { symmetry. apply forallb_forall. intros v Hv. apply list_elem_of_In, Hin in Hv as [<- _]. by apply bool_decide_eq_true. }
  rewrite <- Epv. unfold packed_votes at 1. rewrite pack_idem. fold (packed_votes t p).
  rewrite (surjective_pairing (packed_votes t p)) at 1. unfold packed_pairs at 1. rewrite pack_idem. fold (packed_pairs t p).
  rewrite (surjective_pairing (packed_pairs t p)) at 1. rewrite reachesQuorum_threshold by done. fold quorum.
  rewrite (proj2 (Z.leb_le _ _) (proj1 Hq)). cbn [negb]. unfold packed_bundle. by rewrite Hr0, Hper0.
Qed.

(** ** Handling a vote *)

(** What is answered when the votes [l] become the votes [l'], tracked by [t']. *)
Definition answers (l l' : list vote) (t' : voteTracker) (e : thresholdEvent) : Prop :=
  (exists p, over l' p /\ (forall q, ~ over l q) /\
     e = mkThresholdEvent (thresholdKind s) rnd per s p (packed_bundle t' p) protoV) \/
  (e = thresholdEvent_zero /\ ((exists q, over l q) \/ forall q, ~ over l' q)).

Lemma report_spec l l' t' v o : tracks l' t' -> few l' -> Forall (vote_of rnd per s) l' -> vote_of rnd per s v ->
  (forall p, o = Some p <-> over l p) ->
  exists e, report v protoV o t' = (Ok e, t') /\ answers l l' t' e.
Proof.
  intros Ht Hf Hl Hv Ho. destruct Hv as (Hr & Hper & Hst & _).
  unfold report, mbind, M_bind, mret, M_ret, gets, lift, id. cbn zeta. rewrite Hst.
  destruct (overThreshold_spec l' t' Ht Hf) as (o' & -> & Ho').
  destruct o as [q|].
  { eexists. split; [done|]. right. split; [done|]. left. exists q. by apply Ho. }
  assert (forall q, ~ over l q) as Hnone by (intros q Hq; apply Ho in Hq; done).
  destruct o' as [p|].
  - assert (over l' p) as Hp by by apply Ho'. rewrite (genBundle_spec l' t' p) by done.
    eexists. split; [done|]. left. exists p. by rewrite Hr, Hper.
  - eexists. split; [done|]. right. split; [done|]. right. intros q Hq. apply Ho' in Hq. done.
Qed.

(** A vote that changes nothing is answered with nothing. *)
Lemma answers_unchanged l l' t : tracks l t -> tracks l' t -> few l -> answers l l' t thresholdEvent_zero.
Proof.
  intros Ht Ht' Hf. right. split; [done|]. destruct (overThreshold_spec l t Ht Hf) as (o & _ & Ho).
  destruct o as [p|]; [left; exists p; by apply Ho|right]. intros q Hq. unfold over in Hq.
  rewrite (tally_split l' t q Ht'), <- (tally_split l t q Ht) in Hq. apply Ho in Hq. done.
Qed.

Lemma handle_spec l t v : tracks l t -> few (l ++ [v]) -> Forall (vote_of rnd per s) (l ++ [v]) ->
  exists e, handle_voteAccepted v protoV t = (Ok e, after v t) /\ answers l (l ++ [v]) (after v t) e.
Proof.
  intros Ht Hf Hl. pose proof Hl as [Hl0 Hv]%Forall_app. rewrite Forall_singleton in Hv.
  pose proof (few_mono l v Hf) as Hf0. pose proof (tracks_after Hc rnd per s l t v Ht Hl0 Hv) as Ht'.
  destruct (overThreshold_spec l t Ht Hf0) as (o & Eo & Ho).
  unfold handle_voteAccepted, after, mbind, M_bind, mret, M_ret, gets, lift, modify, id in *. cbn zeta.
  destruct (vt_Equivocators t !! v_Sender v) as [e|] eqn:Ee.
  { eexists. split; [done|]. by apply answers_unchanged. }
  pose proof Hv as (_ & _ & Hst & _). rewrite Hst, Eo.
  destruct (vt_Voters t !! v_Sender v) as [old|] eqn:Ev; [|by apply report_spec].
  case_bool_decide as Hsame; [eexists; split; [done|]; by apply answers_unchanged|].
  destruct (few_equivocation _ Hf) as [_ Hq]. rewrite (tracks_equivocation _ _ Ht') in Hq.
  change (vt_EquivocatorsCount (equivocated old v t)) with (wrap64 (vt_EquivocatorsCount t + v_Weight v)) in Hq.
  change (vt_EquivocatorsCount (t <| vt_EquivocatorsCount := ?x |>)) with x.
  rewrite reachesQuorum_threshold by done. fold quorum. rewrite (proj2 (Z.leb_gt _ _) Hq).
  change (equivocate old v _) with (equivocated old v t). case_bool_decide as Hemp; [|by apply report_spec].
  eexists. split; [done|]. right. split; [done|]. right. intros q Hover. apply (over_entry _ _ q Ht' Hf Hover).
  unfold voters_for. by rewrite Hemp, map_filter_empty.
Qed.

(** ** The contract *)

Record router_ok (l : list vote) (r : stepRouter) : Prop := {
  ro_tracks : tracks l (VoteTracker r);
  ro_step : vtc_StepOk (VoteTrackerContract r) = true -> vtc_Step (VoteTrackerContract r) = s;
  ro_emitted : vtc_Emitted (VoteTrackerContract r) = true <-> exists p, over l p }.

  Context (Hpos : 0 <= s).

(** The steps below [next] have no votes for bottom. *)
Definition valued (v : vote) : Prop := s < next -> v_Proposal v <> bottom.

Lemma vtc_pre_ok l r v : router_ok l r -> vote_of rnd per s v ->
  exists c, vtc_pre v (VoteTrackerContract r) = (true, c) /\ vtc_StepOk c = true /\ vtc_Step c = s /\
    vtc_Emitted c = vtc_Emitted (VoteTrackerContract r).
Proof.
  intros Hr (_ & _ & Hst & _). unfold vtc_pre. rewrite Hst, (proj2 (Z.eqb_neq _ _) Hs).
  destruct (vtc_StepOk (VoteTrackerContract r)) eqn:E; cbn [negb andb].
  - rewrite (ro_step _ _ Hr E), Z.eqb_refl. eexists. split; [done|]. by rewrite E, (ro_step _ _ Hr E).
  - cbn. rewrite Z.eqb_refl. eexists. split; done.
Qed.

Lemma over_valued l t p : tracks l t -> few l -> Forall (vote_of rnd per s) l -> Forall valued l ->
  over l p -> s < next -> p <> bottom.
Proof.
  intros Ht Hf Hl Hb Hp Hn. pose proof (over_entry l t p Ht Hf Hp) as Hne.
  apply map_choose in Hne as (a & v & Hv). destruct (tracked_votes l t p Ht Hl a v Hv) as (Hin & _ & <- & _).
  rewrite Forall_forall in Hb. by apply Hb.
Qed.

Lemma packed_bundle_votes l t p : tracks l t -> few l -> Forall (vote_of rnd per s) l -> over l p ->
  ub_Votes (packed_bundle t p) <> [].
Proof.
  intros Ht Hf Hl Hp. pose proof (pf_some _ _ _ _ (packed_ok l t p Ht Hf Hl Hp)) as Hne. cbn.
  by destruct (packed_votes t p).1.
Qed.

Lemma vtc_post_ok l l' t' v e c : tracks l' t' -> few l' -> Forall (vote_of rnd per s) l' -> Forall valued l' ->
  vote_of rnd per s v -> answers l l' t' e -> (forall p, over l p -> over l' p) ->
  (vtc_Emitted c = true <-> exists p, over l p) ->
  exists c', vtc_post v e c = (true, c') /\ vtc_StepOk c' = vtc_StepOk c /\ vtc_Step c' = vtc_Step c /\
    (vtc_Emitted c' = true <-> exists p, over l' p).
Proof.
  intros Ht Hf Hl Hb (_ & _ & Hst & _) He Hmono Hem. destruct He as [(p & Hp & Hno & ->)|(-> & Hno)].
  - pose proof (over_valued l' t' p Ht Hf Hl Hb Hp) as Hval. pose proof (packed_bundle_votes l' t' p Ht Hf Hl Hp) as Hbv.
    assert (vtc_Emitted c = false) as Hem0.
    { destruct (vtc_Emitted c); [|done]. destruct (proj1 Hem eq_refl) as [q Hq]. by destruct (Hno q). }
    unfold vtc_post, isThreshold, thresholdKind. cbn [te_T te_Proposal te_Step te_Bundle]. rewrite Hst, Hem0.
    rewrite (bool_decide_false (ub_Votes _ = [])) by done.
    eexists. split; [|split_and!; [..|split; [eauto|]]]; unfold next, soft, cert, propose in *.
    + f_equal. destruct (Z.eqb_spec s 1); [|destruct (Z.eqb_spec s 2)]; cbn;
        rewrite ?(bool_decide_false (p = bottom)) by (apply Hval; lia); cbn; rewrite ?andb_true_r; try done.
      rewrite (proj2 (Z.ltb_lt 2 s)) by lia. rewrite (proj2 (Z.ltb_ge s 3)) by lia. by rewrite andb_false_r.
    + destruct (s =? 1), (s =? 2); done.
    + destruct (s =? 1), (s =? 2); done.
    + intros _. destruct (s =? 1), (s =? 2); done.
  - unfold vtc_post. cbn. exists c. split_and!; [done|done|done|]. rewrite Hem. split; [naive_solver|].
    intros [p Hp]. destruct Hno as [?|Hno]; [done|]. by destruct (Hno p).
Qed.

(** The tracker with its contract handles a vote of the step. *)
Lemma checked_spec l r v : router_ok l r -> few (l ++ [v]) -> Forall (vote_of rnd per s) (l ++ [v]) ->
  Forall valued (l ++ [v]) ->
  exists e r', checked_voteAccepted v protoV r = (Ok e, r') /\ router_ok (l ++ [v]) r' /\
    answers l (l ++ [v]) (VoteTracker r') e.
Proof.
  intros Hr Hf Hl Hb. pose proof Hl as [Hl0 Hv]%Forall_app. rewrite Forall_singleton in Hv.
  destruct (vtc_pre_ok l r v Hr Hv) as (c & Ec & Hok & Hstep & Hem).
  destruct (handle_spec l (VoteTracker r) v (ro_tracks _ _ Hr) Hf Hl) as (e & Ee & Hans).
  pose proof (tracks_after Hc rnd per s l _ v (ro_tracks _ _ Hr) Hl0 Hv) as Ht'.
  destruct (vtc_post_ok l (l ++ [v]) (after v (VoteTracker r)) v e c) as (c' & Ep & Hok' & Hstep' & Hem'); try done.
  - intros p. unfold over. pose proof (tally_mono l v p). lia.
  - rewrite Hem. apply (ro_emitted _ _ Hr).
  - exists e, (mkStepRouter (after v (VoteTracker r)) c'). unfold checked_voteAccepted. rewrite Ec. cbn [negb].
    rewrite Ee, Ep. split_and!; [done| |done]. split; cbn; [done| |done]. intros _. by rewrite Hstep'.
Qed.
End thresholds.
End committee.

(** ** Runs *)

(** The events of a sequence of votes. *)
Fixpoint accept_all (protoV : string) (l : list vote) : M stepRouter (list thresholdEvent) :=
  match l with
  | [] => mret []
  | v :: l' =>
      e ← checked_voteAccepted v protoV;
      es ← accept_all protoV l';
      mret (e :: es)
  end.

Lemma accept_all_snoc protoV l v r es r' e r'' :
  accept_all protoV l r = (Ok es, r') -> checked_voteAccepted v protoV r' = (Ok e, r'') ->
  accept_all protoV (l ++ [v]) r = (Ok (es ++ [e]), r'').
Proof.
  revert r es. induction l as [|u l IH]; intros r es; cbn [accept_all app].
  - unfold mbind, M_bind, mret, M_ret. intros [= <- <-] ->. done.
  - unfold mbind, M_bind, mret, M_ret. destruct (checked_voteAccepted u protoV r) as [[e0| |] r0]; try done.
    destruct (accept_all protoV l r0) as [[es0| |] r1] eqn:E; try done. intros [= <- <-] Hv.
    by rewrite (IH r0 es0 E Hv).
Qed.

Section runs.
  Context (members : list Address) (w : Address -> Z) (Hc : committee_ok members w).
  Context (rnd : Round) (per : period) (s : step) (protoV : string) (Hs : propose < s).

(** Votes of the step, with few double voters. *)
Definition step_votes (l : list vote) : Prop :=
  Forall (vote_of members w rnd per s) l /\ Forall (valued s) l /\ few members w s protoV l.

Lemma step_votes_prefix l v : step_votes (l ++ [v]) -> step_votes l.
Proof.
  intros (H1 & H2 & H3). apply Forall_app in H1 as [? _]. apply Forall_app in H2 as [? _].
  split; [done|]. split; [done|]. by apply (few_mono members w Hc s protoV ltac:(unfold propose in *; lia) l v).
Qed.

Lemma run_spec l : step_votes l ->
  exists es r, accept_all protoV l stepRouter_zero = (Ok es, r) /\ router_ok members w s protoV l r /\
    length es = length l /\
    forall i e, es !! i = Some e -> exists t', tracks members w (take (S i) l) t' /\
      answers members w rnd per s protoV (take i l) (take (S i) l) t' e.
Proof.
  induction l as [|v l IH] using rev_ind; intros Hl.
  - exists [], stepRouter_zero. split_and!; [done| |done|intros i e; by rewrite lookup_nil].
    split; cbn; [apply tracks_zero|done|]. split; [done|]. intros [p Hp]. exfalso.
    destruct Hl as (_ & _ & Hf). apply few_equivocation in Hf; [|done]. unfold over, tally, equivocation in *.
    rewrite (weigh_ext members w (fun a => supports [] a p) (equivocates [])) in Hp; [lia|]. intros a _. done.
  - destruct (IH (step_votes_prefix l v Hl)) as (es & r & Hrun & Hr & Hlen & Hes).
    destruct Hl as (H1 & H2 & H3).
    destruct (checked_spec members w Hc rnd per s protoV) with (l := l) (r := r) (v := v) as (e & r' & He & Hr' & Hans);
      try done; [unfold propose in *; lia..|].
    exists (es ++ [e]), r'. split_and!; [by eapply accept_all_snoc|done|rewrite !length_app; cbn; lia|].
    intros i e' Hi. apply lookup_snoc_Some in Hi as [[Hlt Hi]|[-> <-]].
    + destruct (Hes i e' Hi) as (t' & Ht' & Ha). exists t'.
      rewrite !take_app_le by lia. done.
    + exists (VoteTracker r'). rewrite Hlen. rewrite take_app_length, take_ge by (rewrite length_app; cbn; lia).
      split; [apply Hr'|done].
Qed.
End runs.
