(* ===== verification/AgSafety.v ===== *)
(** What the vote tracker and the verification of bundles guarantee: the counts
    are those of the set of votes, a threshold is reported once and for the value
    that reached it, the reported bundle verifies, and two bundles for different
    values of one step expose double voters. *)
From S2P Require Import Prelude Config Basics Transactions Bookkeeping AgVote AgTracker AgTrackerFacts.
#[local] Open Scope string_scope.
#[local] Open Scope list_scope.
#[local] Open Scope Z_scope.

(** ** The tracker counts the set of votes *)

Lemma values_set l l' a : (forall v, v ∈ l <-> v ∈ l') -> values l a = values l' a.
Proof. intros H. apply set_eq. intros p. rewrite !elem_of_values. by setoid_rewrite H. Qed.

Lemma equivocates_set l l' a : (forall v, v ∈ l <-> v ∈ l') -> equivocates l a = equivocates l' a.
Proof. intros H. unfold equivocates. by rewrite (values_set l l'). Qed.

Lemma tally_set members w l l' p : (forall v, v ∈ l <-> v ∈ l') -> tally members w l p = tally members w l' p.
Proof.
  intros H. apply weigh_ext. intros a _. unfold supports. by rewrite (values_set l l' a H), (equivocates_set l l' a H).
Qed.

Lemma step_votes_set members w rnd per s protoV l l' : (forall v, v ∈ l <-> v ∈ l') ->
  step_votes members w rnd per s protoV l -> step_votes members w rnd per s protoV l'.
Proof.
  intros H (H1 & H2 & H3). split; [|split].
  - rewrite Forall_forall in *. naive_solver.
  - rewrite Forall_forall in *. naive_solver.
  - unfold few, equivocation in *. erewrite weigh_ext; [exact H3|]. intros a _. symmetry. by apply equivocates_set.
Qed.

(** C13 (refinement): the tracker of a step implements counting: on any sequence of
    votes of the step with few double voters it handles every vote without a panic
    or a contract violation, and the count it keeps for a value is the weight of
    the committee members that voted for it or for two values.  The order and the
    repetition of the votes do not matter. *)
Theorem tracker_counts_votes members w rnd per s protoV l l' :
  committee_ok members w -> propose < s -> step_votes members w rnd per s protoV l ->
  (forall v, v ∈ l <-> v ∈ l') ->
  exists es es' r r',
    accept_all protoV l stepRouter_zero = (Ok es, r) /\ accept_all protoV l' stepRouter_zero = (Ok es', r') /\
    length es = length l /\
    forall p, count (VoteTracker r) p = tally members w l p /\ count (VoteTracker r') p = tally members w l p.
Proof.
  intros Hc Hs Hl Hset. pose proof (step_votes_set _ _ _ _ _ _ l l' Hset Hl) as Hl'.
  destruct (run_spec members w Hc rnd per s protoV Hs l Hl) as (es & r & Hrun & Hr & Hlen & _).
  destruct (run_spec members w Hc rnd per s protoV Hs l' Hl') as (es' & r' & Hrun' & Hr' & _).
  exists es, es', r, r'. split_and!; [done..|]. intros p. rewrite (tally_set members w l l' p Hset) at 2.
  split; apply tracks_count; try done; [apply Hr|apply Hr'].
Qed.

(** A concrete committee, for the witnesses: three members of weight 1000 in the
    soft step of the consensus version "future", where the threshold is 2267. *)
Definition ex_vote (a : Address) (p : proposalValue) : vote :=
  mkVote (mkRawVote a 10 0 soft p) (mkCredential 1000 7 true (mkHashableCredential 0 a 0) (100 + a)) (200 + a).
Definition ex_p : proposalValue := mkProposalValue 0 1 11 12.
Definition ex_q : proposalValue := mkProposalValue 0 2 21 22.
Definition ex_members : list Address := [1; 2; 3].
Definition ex_w (_ : Address) : Z := 1000.
Definition ex_votes : list vote := [ex_vote 1 ex_q; ex_vote 2 ex_p; ex_vote 1 ex_p; ex_vote 3 ex_p].

Lemma ex_committee : committee_ok ex_members ex_w.
Proof. split; [repeat constructor; set_solver|done|done]. Qed.

Lemma ex_step_votes : step_votes ex_members ex_w 10 0 soft "future" ex_votes.
Proof.
  split; [|split].
  - repeat constructor; cbn; set_solver.
  - repeat constructor; by intros _ [=].
  - by vm_compute.
Qed.

Lemma tracker_counts_votes_witness : exists es r,
  accept_all "future" ex_votes stepRouter_zero = (Ok es, r) /\ count (VoteTracker r) ex_p = 3000 /\ count (VoteTracker r) ex_q = 1000.
Proof.
  destruct (tracker_counts_votes ex_members ex_w 10 0 soft "future" ex_votes ex_votes ex_committee
              ltac:(done) ex_step_votes ltac:(done)) as (es & es2 & r & r2 & Hrun & _ & _ & Hct).
  exists es, r. split; [exact Hrun|]. split; [rewrite (proj1 (Hct ex_p))|rewrite (proj1 (Hct ex_q))]; vm_compute; reflexivity.
Defined.

(** ** Thresholds *)

Lemma supports_incl l l' a p : (forall v, v ∈ l -> v ∈ l') -> supports l a p = true -> supports l' a p = true.
Proof.
  intros H. unfold supports. rewrite !orb_true_iff, !bool_decide_eq_true, !equivocates_iff.
  assert (forall q, q ∈ values l a -> q ∈ values l' a) as Hv.
  { intros q. rewrite !elem_of_values. naive_solver. }
  naive_solver.
Qed.

Lemma over_incl members w s protoV l l' p : committee_ok members w -> (forall v, v ∈ l -> v ∈ l') ->
  over members w s protoV l p -> over members w s protoV l' p.
Proof.
  intros Hc H Hp. unfold over in *. etransitivity; [exact Hp|]. apply weigh_le; [done|].
  intros a _. by apply supports_incl.
Qed.

Lemma over_take members w s protoV l i j p : committee_ok members w -> (i <= j)%nat ->
  over members w s protoV (take i l) p -> over members w s protoV (take j l) p.
Proof.
  intros Hc Hij. apply over_incl; [done|]. intros v Hv. replace i with (i `min` j)%nat in Hv by lia.
  rewrite <- take_take in Hv. by eapply elem_of_take in Hv as (? & Hv & _); apply list_elem_of_lookup_2 in Hv.
Qed.

Section once.
  Context (members : list Address) (w : Address -> Z) (Hc : committee_ok members w).
  Context (rnd : Round) (per : period) (s : step) (protoV : string) (Hs : propose < s).

Lemma not_over_nil p : few members w s protoV [] -> ~ over members w s protoV [] p.
Proof.
  intros Hf Hp. apply few_equivocation in Hf; [|done]. unfold over, tally, equivocation in *.
  rewrite (weigh_ext members w (fun a => supports [] a p) (equivocates [])) in Hp; [lia|]. intros a _. done.
Qed.

(** The event of the first prefix over the threshold. *)
Lemma first_over l (es : list thresholdEvent) n p : few members w s protoV [] -> length es = length l ->
  (forall i e, es !! i = Some e -> exists t', tracks members w (take (S i) l) t' /\
      answers members w rnd per s protoV (take i l) (take (S i) l) t' e) ->
  (n <= length l)%nat -> over members w s protoV (take n l) p ->
  exists i e, (i < n)%nat /\ es !! i = Some e /\ isThreshold e = true /\
    over members w s protoV (take (S i) l) (te_Proposal e).
Proof.
  intros Hnil Hlen Hes. revert p. induction n as [|n IH]; intros p Hn Hp.
  - by apply not_over_nil in Hp.
  - destruct (es !! n) as [e|] eqn:E; [|apply lookup_ge_None in E; lia].
    destruct (Hes n e E) as (t' & _ & [(q & Hq & _ & ->)|(-> & [[q Hq]|Hno])]).
    + exists n, (mkThresholdEvent (thresholdKind s) rnd per s q (packed_bundle rnd per s protoV t' q) protoV).
      split_and!; [lia|done| |done]. unfold thresholdKind, isThreshold. cbn. by destruct (s =? soft), (s =? cert).
    + destruct (IH q) as (i & e & Hi & H); [lia|done|]. exists i, e. split; [lia|done].
    + by destruct (Hno p).
Qed.
Lemma few_take l n : few members w s protoV l -> few members w s protoV (take n l).
Proof.
  intros Hf. unfold few in *. enough (equivocation members w (take n l) <= equivocation members w l) by lia.
  apply weigh_le; [done|]. intros a _. rewrite !equivocates_iff. setoid_rewrite elem_of_values.
  assert (forall v, v ∈ take n l -> v ∈ l) by (intros v Hv; rewrite <- (take_drop n l); set_solver). naive_solver.
Qed.

Lemma step_votes_take l n : step_votes members w rnd per s protoV l -> step_votes members w rnd per s protoV (take n l).
Proof.
  intros (H1 & H2 & H3). split; [by apply Forall_take|]. split; [by apply Forall_take|by apply few_take].
Qed.
End once.

(** C14 (safety): along any sequence of votes of a step with few double voters the
    tracker reports a threshold exactly once if some value reaches it and never
    otherwise; it is reported at the vote that makes the value reach it, for that
    value and with the kind of the step. *)
Theorem threshold_once members w rnd per s protoV l :
  committee_ok members w -> propose < s -> step_votes members w rnd per s protoV l ->
  exists es r, accept_all protoV l stepRouter_zero = (Ok es, r) /\
    (forall i e, es !! i = Some e -> isThreshold e = true ->
       over members w s protoV (take (S i) l) (te_Proposal e) /\ (forall p, ~ over members w s protoV (take i l) p) /\
       te_T e = thresholdKind s /\ te_Round e = rnd /\ te_Period e = per /\ te_Step e = s) /\
    (forall i j e e', es !! i = Some e -> es !! j = Some e' -> isThreshold e = true -> isThreshold e' = true -> i = j) /\
    (forall p, over members w s protoV l p -> exists i e, es !! i = Some e /\ isThreshold e = true /\ te_Proposal e = p).
Proof.
  intros Hc Hs Hl. destruct (run_spec members w Hc rnd per s protoV Hs l Hl) as (es & r & Hrun & _ & Hlen & Hes).
  pose proof (few_take members w Hc s protoV Hs l 0 (proj2 (proj2 Hl))) as Hnil.
  assert (forall i e, es !! i = Some e -> isThreshold e = true ->
       over members w s protoV (take (S i) l) (te_Proposal e) /\ (forall p, ~ over members w s protoV (take i l) p) /\
       te_T e = thresholdKind s /\ te_Round e = rnd /\ te_Period e = per /\ te_Step e = s) as Hthr.
  { intros i e Hi He. destruct (Hes i e Hi) as (t' & _ & [(q & Hq & Hno & ->)|(-> & _)]); done. }
  exists es, r. split_and!; [done|done| |].
  - intros i j e e' Hi Hj He He'. destruct (Hthr i e Hi He) as (Hi1 & Hi2 & _). destruct (Hthr j e' Hj He') as (Hj1 & Hj2 & _).
    destruct (Nat.lt_trichotomy i j) as [Hlt|[?|Hlt]]; [|done|]; exfalso.
    + apply (Hj2 (te_Proposal e)). by apply (over_take _ _ _ _ _ (S i)); [|lia|].
    + apply (Hi2 (te_Proposal e')). by apply (over_take _ _ _ _ _ (S j)); [|lia|].
  - intros p Hp. destruct (first_over members w Hc rnd per s protoV l es (length l) p) as (i & e & Hi & He & Ht & Ho); try done.
    { by rewrite take_ge. }
    exists i, e. split_and!; [done|done|]. destruct Hl as (_ & _ & Hf). eapply over_unique; [done|exact Hf| |done].
    rewrite <- (take_ge l (length l)) by lia. by apply (over_take _ _ _ _ _ (S i)); [|lia|].
Qed.

Lemma threshold_once_witness : exists es r, accept_all "future" ex_votes stepRouter_zero = (Ok es, r) /\
  exists i e, es !! i = Some e /\ isThreshold e = true /\ te_Proposal e = ex_p.
Proof.
  destruct (threshold_once ex_members ex_w 10 0 soft "future" ex_votes ex_committee ltac:(done) ex_step_votes)
    as (es & r & Hrun & _ & _ & Hex).
  exists es, r. split; [exact Hrun|]. apply Hex. by vm_compute.
Defined.

(** ** Bundles verify *)

Lemma wrapErr_Ok {A} e (m : outcome A) a : wrapErr e m = Ok a <-> m = Ok a.
Proof. destruct m; cbn; naive_solver. Qed.

(** Run a computation forward along what is known of its parts. *)
Ltac run_ok :=
  repeat (apply outcome_bind_Ok;
          first [exists tt; split; [apply failIf_Ok; first [eassumption|reflexivity]|]
                |eexists; split; [eassumption|]]; cbv beta).

(** The credential of one vote verifies another vote of the sender in the step. *)
Lemma vote_verify_swap C L rv1 rv2 c1 c2 s1 s2 v1 v2 :
  vote_verify C L (mkUnauthenticatedVote rv1 c1 s1) = Ok v1 ->
  vote_verify C L (mkUnauthenticatedVote rv2 c2 s2) = Ok v2 ->
  rv_Sender rv1 = rv_Sender rv2 -> rv_Round rv1 = rv_Round rv2 -> rv_Period rv1 = rv_Period rv2 -> rv_Step rv1 = rv_Step rv2 ->
  vote_verify C L (mkUnauthenticatedVote rv2 c1 s2) = Ok (mkVote rv2 (v_Cred v1) s2).
Proof.
  intros H1 H2 E1 E2 E3 E4. unfold vote_verify in *. cbn [uv_R uv_Cred uv_Sig] in *. rewrite E1, E2, E3, E4 in H1.
  okinv H1. okinv H2. simplify_eq.
  assert (a7 = a) as -> by congruence. assert (a9 = a1) as -> by congruence. run_ok. done.
Qed.

Lemma verify_each_Ok {A B} (f : A -> outcome B) (l : list A) (g : A -> B) :
  (forall a, a ∈ l -> f a = Ok (g a)) -> verify_each f l = Ok (map g l).
Proof. induction l as [|a l IH]; cbn; intros H; [done|]. rewrite H by set_solver. cbn. rewrite IH by set_solver. done. Qed.

Lemma verify_each_map {A B X} (f : A -> outcome B) (g : X -> A) (h : X -> B) l :
  (forall x, x ∈ l -> f (g x) = Ok (h x)) -> verify_each f (map g l) = Ok (map h l).
Proof. induction l as [|a l IH]; cbn; intros H; [done|]. rewrite H by set_solver. cbn. rewrite IH by set_solver. done. Qed.

Lemma has_dup_NoDup voters l : NoDup l -> (forall a, a ∈ l -> a ∉ voters) -> has_dup voters l = false.
Proof.
  intros Hnd. revert voters. induction Hnd as [|a l Ha Hnd IH]; intros voters Hv; cbn; [done|].
  rewrite bool_decide_false by (apply Hv; set_solver). apply IH. set_solver.
Qed.

Lemma foldl_weight {A} (f : A -> Z) l k : 0 <= k -> (forall a, a ∈ l -> 0 <= f a) -> k + sumZ f l < two64 ->
  foldl (fun x a => wrap64 (x + f a)) k l = k + sumZ f l.
Proof.
  revert k. induction l as [|a l IH]; cbn; intros k Hk Hf Hb; [lia|].
  pose proof (Hf a ltac:(set_solver)). pose proof (sumZ_nonneg f l ltac:(set_solver)).
  rewrite wrap64_small by (split; lia). rewrite IH; [lia|lia|set_solver|lia].
Qed.

Section bundles.
  Context (C : VoteCrypto) (L : LedgerReader).
  Context (members : list Address) (w : Address -> Z) (Hc : committee_ok members w).
  Context (rnd : Round) (per : period) (s : step) (protoV : string) (Hs : propose < s).
  Context (l : list vote) (Hver : forall v, v ∈ l -> vote_verify C L (vote_u v) = Ok v).

Lemma claimed_vote_u p v va ea : vote_of members w rnd per s v -> v_Proposal v = p ->
  claimed_vote (mkUnauthenticatedBundle rnd per s p va ea) (authenticator_of v) = vote_u v.
Proof.
  intros (Hr & Hp & Hst & _) Hv. unfold claimed_vote, vote_u, v_Sender, v_Step, v_Proposal in *. cbn.
  destruct v as [[]]. cbn in *. by subst.
Qed.

Lemma pair_verifies p a e va ea : Forall (vote_of members w rnd per s) l -> pair_from l a e ->
  pair_verify C L (claimed_pair (mkUnauthenticatedBundle rnd per s p va ea) (pair_authenticator_of e)) = Ok e.
Proof.
  intros Hl (v1 & v2 & H1 & H2 & S1 & S2 & Hne & ->). rewrite Forall_forall in Hl.
  destruct (Hl v1 H1) as (R1 & P1 & T1 & _). destruct (Hl v2 H2) as (R2 & P2 & T2 & _).
  apply Hver in H1, H2. destruct v1 as [[] cr1 sg1], v2 as [[] cr2 sg2].
  unfold vote_u, v_Sender, v_Step, v_Proposal in *. cbn in *. subst.
  unfold pair_verify. cbn. rewrite (bool_decide_false (_ = _)) by done. cbn [failIf mbind outcome_bind].
  rewrite H1. cbn. erewrite (vote_verify_swap C L); [cbn; reflexivity|exact H1|exact H2|done..].
Qed.

(** Votes and pairs packed by the tracker pass the checks of a bundle. *)
Lemma packed_verifies t p vs es : tracks members w l t -> Forall (vote_of members w rnd per s) l ->
  lr_ConsensusParams L (ParamsRound rnd) = Ok (ConsensusVersion_params protoV) ->
  packed_for s protoV t p vs es ->
  let b := mkUnauthenticatedBundle rnd per s p (map authenticator_of vs) (map pair_authenticator_of es) in
  bundle_verify C L b = Ok (mkBundle b vs es).
Proof.
  intros Ht Hl HL Hpk b. assert (s <> propose) as Hs' by (unfold propose in *; lia).
  assert (forall v, v ∈ vs -> v ∈ l /\ v_Proposal v = p /\ vote_of members w rnd per s v) as Hvs.
  { intros v Hv. apply (pf_votes _ _ _ _ _ _ Hpk), (tracked_votes members w rnd per s l t p Ht Hl) in Hv. naive_solver. }
  assert (forall e, e ∈ es -> pair_from l (ev_Sender e) e) as Hes.
  { intros e He. by apply (pf_pairs _ _ _ _ _ _ Hpk), (tr_equivocator _ _ _ _ Ht) in He. }
  assert (forall v, v ∈ vs -> 0 <= v_Weight v) as Hv0.
  { intros v Hv. destruct (Hvs v Hv) as (_ & _ & (_ & _ & _ & Hm & ->)). pose proof (co_pos _ _ Hc _ Hm). lia. }
  assert (forall e, e ∈ es -> 0 <= ev_Weight e) as He0.
  { intros e He. destruct (pair_from_weight members w rnd per s l _ e Hl (Hes e He)) as (_ & Hm & ->).
    pose proof (co_pos _ _ Hc _ Hm). lia. }
  pose proof (sumZ_nonneg v_Weight vs Hv0). pose proof (pf_small _ _ _ _ _ _ Hpk) as Hsm.
  pose proof (sumZ_nonneg ev_Weight es He0). pose proof (pf_weight _ _ _ _ _ _ Hpk) as Hw.
  pose proof (pf_size _ _ _ _ _ _ Hpk) as Hn. unfold quorum in *.
  unfold bundle_verify. cbn [ub_Step ub_Round ub_Votes ub_EquivocationVotes b]. unfold llen in *. rewrite !length_map.
  apply outcome_bind_Ok. exists tt. split; [by apply failIf_Ok, Z.eqb_neq|].
  apply outcome_bind_Ok. exists (ConsensusVersion_params protoV). split; [by apply wrapErr_Ok|].
  apply outcome_bind_Ok. exists tt. split; [apply failIf_Ok; rewrite wrap64_small by (split; lia); lia|].
  rewrite !map_map. pose proof (pf_NoDup _ _ _ _ _ _ Hpk) as (Nd1 & Nd12 & Nd2)%NoDup_app.
  apply outcome_bind_Ok. exists tt. split; [apply failIf_Ok, has_dup_NoDup; [done|set_solver]|].
  apply outcome_bind_Ok. exists tt. split; [apply failIf_Ok, has_dup_NoDup; [done|]; set_solver|].
  apply outcome_bind_Ok. exists vs. split.
  { apply wrapErr_Ok. rewrite <- (map_id vs) at 2. apply verify_each_map. intros v Hv. destruct (Hvs v Hv) as (Hin & Hp & Hof).
    unfold b. rewrite claimed_vote_u by done. by apply Hver. }
  apply outcome_bind_Ok. exists es. split.
  { apply wrapErr_Ok. rewrite <- (map_id es) at 2. apply verify_each_map. intros e He. unfold b.
    by apply (pair_verifies p (ev_Sender e)); [|apply Hes]. }
  rewrite (foldl_weight v_Weight), (foldl_weight ev_Weight), reachesQuorum_threshold by (done || lia).
  apply outcome_bind_Ok. exists tt. split; [apply failIf_Ok; lia|done].
Qed.
End bundles.

(** C15 (roundtrip): the bundle reported with a threshold verifies: when the votes
    the tracker was given verify against the ledger, every other node that reads
    the same ledger accepts the bundle, with the votes it was packed from, as a
    proof of the reported value. *)
Theorem bundle_proves_threshold C L members w rnd per s protoV l :
  committee_ok members w -> propose < s -> step_votes members w rnd per s protoV l ->
  (forall v, v ∈ l -> vote_verify C L (vote_u v) = Ok v) ->
  lr_ConsensusParams L (ParamsRound rnd) = Ok (ConsensusVersion_params protoV) ->
  exists es r, accept_all protoV l stepRouter_zero = (Ok es, r) /\
    forall e, e ∈ es -> isThreshold e = true ->
      exists b, bundle_verify C L (te_Bundle e) = Ok b /\ b_U b = te_Bundle e /\
        (forall v, v ∈ b_Votes b -> v ∈ l) /\
        (ub_Round (te_Bundle e), ub_Period (te_Bundle e), ub_Step (te_Bundle e), ub_Proposal (te_Bundle e)) =
          (rnd, per, s, te_Proposal e).
Proof.
  intros Hc Hs Hl Hver HL. destruct (run_spec members w Hc rnd per s protoV Hs l Hl) as (es & r & Hrun & _ & Hlen & Hes).
  exists es, r. split; [done|]. intros e He Hthr. apply list_elem_of_lookup in He as [i Hi].
  destruct (Hes i e Hi) as (t' & Ht' & [(p & Hp & _ & ->)|(-> & _)]); [|done]. cbn.
  assert (forall v, v ∈ take (S i) l -> v ∈ l) as Hin.
  { intros v Hv. rewrite <- (take_drop (S i) l). set_solver. }
  assert (step_votes members w rnd per s protoV (take (S i) l)) as (Hl1 & Hl2 & Hl3).
  { by apply (step_votes_take members w Hc rnd per s protoV Hs). }
  pose proof (packed_ok members w Hc rnd per s protoV ltac:(unfold propose in *; lia) _ t' p Ht' Hl3 Hl1 Hp) as Hpk.
  pose proof (packed_verifies C L members w Hc rnd per s protoV Hs (take (S i) l) (fun v Hv => Hver v (Hin v Hv))
                t' p _ _ Ht' Hl1 HL Hpk) as Hv. cbv zeta in Hv. eexists. split; [exact Hv|].
  cbn. split_and!; [done| |done]. intros v Hin'. apply Hin. apply (pf_votes _ _ _ _ _ _ Hpk) in Hin'.
  by apply (tracked_votes members w rnd per s _ t' p Ht' Hl1) in Hin' as [? _].
Qed.

(** ** Conflicting bundles *)

Lemma verify_each_inv {A B} (f : A -> outcome B) l bs : verify_each f l = Ok bs -> Forall2 (fun a b => f a = Ok b) l bs.
Proof.
  revert bs. induction l as [|a l IH]; cbn; intros bs H; okinv H; subst; [constructor|]. constructor; [done|by apply IH].
Qed.

Lemma has_dup_inv voters l : has_dup voters l = false -> NoDup l /\ forall a, a ∈ l -> a ∉ voters.
Proof.
  revert voters. induction l as [|a l IH]; intros voters; cbn; [intros _; split; [constructor|set_solver]|].
  rewrite orb_false_iff, bool_decide_eq_false. intros [Ha Hl]. destruct (IH _ Hl) as [Hnd Hv].
  split; [constructor; set_solver|set_solver].
Qed.

Lemma vote_verify_raw C L uv v : vote_verify C L uv = Ok v -> v_R v = uv_R uv.
Proof. unfold vote_verify. intros H. okinv H. by subst. Qed.

Lemma pair_verify_inv C L pair e : pair_verify C L pair = Ok e ->
  let raw := mkRawVote (uev_Sender pair) (uev_Round pair) (uev_Period pair) (uev_Step pair) in
  (uev_Proposals pair).1 <> (uev_Proposals pair).2 /\
  exists v0 v1, vote_verify C L (mkUnauthenticatedVote (raw (uev_Proposals pair).1) (uev_Cred pair) (uev_Sigs pair).1) = Ok v0 /\
    vote_verify C L (mkUnauthenticatedVote (raw (uev_Proposals pair).2) (uev_Cred pair) (uev_Sigs pair).2) = Ok v1 /\
    ev_Weight e = v_Weight v0.
Proof.
  unfold pair_verify. destruct (uev_Proposals pair) as [p0 p1]. intros H. cbn. okinv H. subst.
  apply bool_decide_eq_false in Ho. split; [done|]. rewrite wrapErr_Ok in *. eauto.
Qed.

Section conflict.
  Context (C : VoteCrypto) (L : LedgerReader) (rnd : Round) (per : period) (s : step).

(** A vote of the step that verifies. *)
Definition voted (a : Address) (p : proposalValue) : Prop :=
  exists uv v, vote_verify C L uv = Ok v /\ uv_R uv = mkRawVote a rnd per s p.
Definition double_voter (a : Address) : Prop := exists p q, p <> q /\ voted a p /\ voted a q.

  Context (members : list Address) (w : Address -> Z) (Hc : committee_ok members w).

(** The votes that verify are the committee's, with its weights. *)
Definition ledger_committee : Prop := forall uv v, vote_verify C L uv = Ok v ->
  rv_Round (uv_R uv) = rnd -> rv_Period (uv_R uv) = per -> rv_Step (uv_R uv) = s ->
  rv_Sender (uv_R uv) ∈ members /\ v_Weight v = w (rv_Sender (uv_R uv)).

Lemma weigh_list l : NoDup l -> (forall a, a ∈ l -> a ∈ members) ->
  sumZ w l = weigh members w (fun a => bool_decide (a ∈ l)).
Proof.
  induction l as [|a l IH]; intros Hnd Hm; cbn.
  - rewrite weigh_none; [done|]. intros a. apply bool_decide_eq_false. set_solver.
  - apply NoDup_cons in Hnd as [Ha Hnd]. rewrite IH by set_solver. rewrite Z.add_comm. symmetry.
    apply (weigh_change members w Hc _ _ a); [set_solver|..].
    + intros b Hb. apply bool_decide_ext. set_solver.
    + by apply bool_decide_eq_false.
    + apply bool_decide_eq_true. set_solver.
Qed.

Definition senders (b : unauthenticatedBundle) : list Address :=
  map va_Sender (ub_Votes b) ++ map eva_Sender (ub_EquivocationVotes b).

(** The senders of a verified bundle. *)
Record proves (b : unauthenticatedBundle) (proto : ConsensusParams) : Prop := {
  bp_NoDup : NoDup (senders b);
  bp_members a : a ∈ senders b -> a ∈ members;
  bp_votes a : a ∈ senders b -> voted a (ub_Proposal b) \/ double_voter a;
  bp_weight : threshold s proto <= sumZ w (senders b) }.

(** What the verification of each part says. *)
Lemma votes_verified b vs : ledger_committee -> ub_Round b = rnd -> ub_Period b = per -> ub_Step b = s ->
  verify_each (fun a => vote_verify C L (claimed_vote b a)) (ub_Votes b) = Ok vs ->
  (forall a, a ∈ map va_Sender (ub_Votes b) -> a ∈ members /\ voted a (ub_Proposal b)) /\
  (forall v, v ∈ vs -> 0 <= v_Weight v) /\
  sumZ v_Weight vs = sumZ w (map va_Sender (ub_Votes b)).
Proof.
  intros HL Hr Hp Hst H%verify_each_inv. induction H as [|a v l vs Hv H IH]; cbn; [split_and!; [set_solver..|done]|].
  destruct IH as (IH1 & IH0 & IH2). destruct (HL _ _ Hv) as [Hm Hw]; [done..|]. cbn in Hm, Hw. pose proof (co_pos _ _ Hc _ Hm).
  split_and!; [|intros x; rewrite elem_of_cons; intros [->|?]; [lia|by apply IH0]|by rewrite IH2, Hw].
  intros x. rewrite elem_of_cons. intros [->|Hx]; [|by apply IH1]. split; [done|]. eexists _, v. split; [exact Hv|]. cbn. congruence.
Qed.

Lemma pairs_verified b es : ledger_committee -> ub_Round b = rnd -> ub_Period b = per -> ub_Step b = s ->
  verify_each (fun a => pair_verify C L (claimed_pair b a)) (ub_EquivocationVotes b) = Ok es ->
  (forall a, a ∈ map eva_Sender (ub_EquivocationVotes b) -> a ∈ members /\ double_voter a) /\
  (forall e, e ∈ es -> 0 <= ev_Weight e) /\
  sumZ ev_Weight es = sumZ w (map eva_Sender (ub_EquivocationVotes b)).
Proof.
  intros HL Hr Hp Hst H%verify_each_inv. induction H as [|a e l es He H IH]; cbn; [split_and!; [set_solver..|done]|].
  destruct IH as (IH1 & IH0 & IH2). apply pair_verify_inv in He as (Hne & v0 & v1 & H0 & H1 & Hw0).
  destruct (HL _ _ H0) as [Hm Hw]; [done..|]. cbn in Hm, Hw, Hne. pose proof (co_pos _ _ Hc _ Hm).
  split_and!; [|intros x; rewrite elem_of_cons; intros [->|?]; [lia|by apply IH0]|by rewrite IH2, Hw0, Hw].
  intros x. rewrite elem_of_cons. intros [->|Hx]; [|by apply IH1]. split; [done|].
  exists (eva_Proposals a).1, (eva_Proposals a).2. split; [done|]. split; [eexists _, v0|eexists _, v1]; (split; [eassumption|cbn; congruence]).
Qed.

Lemma verified_proves b vb proto : ledger_committee -> ub_Round b = rnd -> ub_Period b = per -> ub_Step b = s ->
  lr_ConsensusParams L (ParamsRound rnd) = Ok proto -> bundle_verify C L b = Ok vb -> proves b proto.
Proof.
  intros HL Hr Hp Hst Hproto H. unfold bundle_verify in H. okinv H. apply wrapErr_Ok in Ho0, Ho4, Ho5. subst vb.
  rewrite Hr, Hproto in Ho0. injection Ho0 as <-. rewrite Hst in *.
  destruct (votes_verified b _ HL Hr Hp Hst Ho4) as (Hv & Nv & Wv).
  destruct (pairs_verified b _ HL Hr Hp Hst Ho5) as (He & Ne & We).
  apply has_dup_inv in Ho2 as [Nd1 _], Ho3 as [Nd2 Nd12]. apply Z.eqb_neq in Ho.
  assert (NoDup (senders b)) as Hnd by (apply NoDup_app; split_and!; [done|set_solver|done]).
  assert (forall a, a ∈ senders b -> a ∈ members) as Hm.
  { intros x. unfold senders. rewrite elem_of_app. intros [Ha|Ha]; [by apply Hv|by apply He]. }
  assert (sumZ w (senders b) < two64) as Hsm.
  { rewrite (weigh_list (senders b)) by done. pose proof (weigh_total members w Hc (fun a => bool_decide (a ∈ senders b))).
    pose proof (co_total _ _ Hc). lia. }
  unfold senders in Hsm. rewrite sumZ_app, <- Wv, <- We in Hsm.
  pose proof (sumZ_nonneg _ _ Nv). pose proof (sumZ_nonneg _ _ Ne).
  split; [done|done| |].
  - intros x. unfold senders. rewrite elem_of_app. intros [Ha|Ha]; [left; by apply Hv|right; by apply He].
  - unfold senders. rewrite sumZ_app, <- Wv, <- We.
    rewrite (foldl_weight v_Weight), (foldl_weight ev_Weight), reachesQuorum_threshold in Ho6 by (done || lia). lia.
Qed.

Lemma weigh_both (f g : Address -> bool) :
  weigh members w f + weigh members w g <= totalWeight members w + weigh members w (fun a => f a && g a).
Proof.
  unfold weigh, totalWeight. rewrite <- !sumZ_plus. apply sumZ_le. intros a Ha. pose proof (co_pos _ _ Hc a Ha).
  destruct (f a), (g a); cbn; lia.
Qed.

(** Two proofs of different values. *)
Lemma proofs_conflict proto b1 b2 : proves b1 proto -> proves b2 proto -> ub_Proposal b1 <> ub_Proposal b2 ->
  exists D, NoDup D /\ (forall a, a ∈ D -> a ∈ members /\ double_voter a) /\
    2 * threshold s proto - totalWeight members w <= sumZ w D.
Proof.
  intros Q1 Q2 Hne. set (both := fun a => bool_decide (a ∈ senders b1) && bool_decide (a ∈ senders b2)).
  set (D := filter (fun a => both a = true) members). exists D.
  assert (NoDup D) as HD by (apply NoDup_filter, Hc).
  assert (forall a, a ∈ D <-> a ∈ members /\ a ∈ senders b1 /\ a ∈ senders b2) as Hin.
  { intros a. unfold D, both. rewrite list_elem_of_filter, andb_true_iff, !bool_decide_eq_true. tauto. }
  split_and!; [done| |].
  - intros a Ha. apply Hin in Ha as (Hm & Ha1 & Ha2). split; [done|].
    destruct (bp_votes _ _ Q1 a Ha1) as [V1|?]; [|done]. destruct (bp_votes _ _ Q2 a Ha2) as [V2|?]; [|done].
    exists (ub_Proposal b1), (ub_Proposal b2). done.
  - rewrite (weigh_list D) by (done || intros a [? _]%Hin; done).
    pose proof (bp_weight _ _ Q1) as W1. pose proof (bp_weight _ _ Q2) as W2.
    rewrite weigh_list in W1 by apply Q1. rewrite weigh_list in W2 by apply Q2.
    pose proof (weigh_both (fun a => bool_decide (a ∈ senders b1)) (fun a => bool_decide (a ∈ senders b2))) as Hb.
    rewrite (weigh_ext members w (fun a => bool_decide (a ∈ D)) both); [cbv beta in Hb; fold both in Hb; lia|].
    intros a Ha. unfold both. rewrite <- bool_decide_and. apply bool_decide_ext. rewrite Hin. tauto.
Qed.
End conflict.

(** C12 (safety): two verified bundles of one step for different values expose
    double voters: there are committee members, of total weight at least twice the
    threshold less the weight of the committee, each of which signed votes for two
    values in that step. *)
Theorem conflicting_bundles C L members w rnd per s proto b1 b2 vb1 vb2 :
  committee_ok members w -> ledger_committee C L rnd per s members w ->
  lr_ConsensusParams L (ParamsRound rnd) = Ok proto ->
  (ub_Round b1, ub_Period b1, ub_Step b1) = (rnd, per, s) -> (ub_Round b2, ub_Period b2, ub_Step b2) = (rnd, per, s) ->
  bundle_verify C L b1 = Ok vb1 -> bundle_verify C L b2 = Ok vb2 -> ub_Proposal b1 <> ub_Proposal b2 ->
  exists D, NoDup D /\ (forall a, a ∈ D -> a ∈ members /\ double_voter C L rnd per s a) /\
    2 * threshold s proto - totalWeight members w <= sumZ w D.
Proof.
  intros Hc HL Hproto [= R1 P1 S1] [= R2 P2 S2] H1 H2 Hne.
  pose proof (verified_proves C L rnd per s members w Hc b1 vb1 proto HL R1 P1 S1 Hproto H1) as Q1.
  pose proof (verified_proves C L rnd per s members w Hc b2 vb2 proto HL R2 P2 S2 Hproto H2) as Q2.
  exact (proofs_conflict C L rnd per s members w Hc proto b1 b2 Q1 Q2 Hne).
Qed.

(** A ledger and a signature scheme for the committee of the examples. *)
Definition ex_crypto : VoteCrypto :=
  mkVoteCrypto (fun _ _ rv sig _ => sig =? 200 + rv_Sender rv) (fun _ _ _ => (true, 0)) (fun _ => 7) (fun _ _ => 7)
    (fun _ _ => 7) (fun _ _ _ _ => 1000).
Definition ex_ledger : LedgerReader :=
  mkLedgerReader (fun _ => Ok 0)
    (fun _ a => if bool_decide (a ∈ ex_members) then Ok (mkOnlineAccountData 1000000 1 1 1 0 0) else Err (Errorf "unknown"))
    (fun _ => Ok 3000000) (fun _ => Ok 0) (fun _ => Ok (ConsensusVersion_params "future")).

Lemma ex_verify v : v ∈ ex_votes -> vote_verify ex_crypto ex_ledger (vote_u v) = Ok v.
Proof.
  intros Hv. repeat (apply elem_of_cons in Hv as [->|Hv]; [vm_compute; reflexivity|]). by apply not_elem_of_nil in Hv.
Qed.

Lemma bundle_proves_threshold_witness : exists es r, accept_all "future" ex_votes stepRouter_zero = (Ok es, r) /\
  forall e, e ∈ es -> isThreshold e = true -> isOk (bundle_verify ex_crypto ex_ledger (te_Bundle e)) = true.
Proof.
  destruct (bundle_proves_threshold ex_crypto ex_ledger ex_members ex_w 10 0 soft "future" ex_votes ex_committee
              ltac:(done) ex_step_votes ex_verify eq_refl) as (es & r & Hrun & Hes).
  exists es, r. split; [exact Hrun|]. intros e He Ht. destruct (Hes e He Ht) as (b & -> & _). done.
Defined.

Lemma ex_ledger_committee : ledger_committee ex_crypto ex_ledger 10 0 soft ex_members ex_w.
Proof.
  intros uv v H _ _ _. unfold vote_verify in H. okinv H. apply wrapErr_Ok in Ho, Ho6. subst v. unfold membership in Ho. okinv Ho.
  apply wrapErr_Ok in Ho8. cbn in Ho8. case_bool_decide; [|done]. split; [done|]. subst a.
  unfold Credential_Verify in Ho6. cbn in Ho6. okinv Ho6. injection Ho8 as <-. cbn in Ho6.
  destruct (a9 <? 1000000); [done|]. destruct (_ || _); [done|]. cbn in Ho6. by injection Ho6 as <-.
Qed.

(** The same senders sign two values. *)
Definition ex_bundle (p : proposalValue) : unauthenticatedBundle :=
  mkUnauthenticatedBundle 10 0 soft p (map (fun a => authenticator_of (ex_vote a p)) ex_members) [].

Lemma conflicting_bundles_witness : exists D, NoDup D /\
  (forall a, a ∈ D -> a ∈ ex_members /\ double_voter ex_crypto ex_ledger 10 0 soft a) /\ 1534 <= sumZ ex_w D.
Proof.
  assert (isOk (bundle_verify ex_crypto ex_ledger (ex_bundle ex_p)) = true) as H1 by (vm_compute; reflexivity).
  assert (isOk (bundle_verify ex_crypto ex_ledger (ex_bundle ex_q)) = true) as H2 by (vm_compute; reflexivity).
  destruct (bundle_verify ex_crypto ex_ledger (ex_bundle ex_p)) as [vb1| |] eqn:E1; [|discriminate H1..].
  destruct (bundle_verify ex_crypto ex_ledger (ex_bundle ex_q)) as [vb2| |] eqn:E2; [|discriminate H2..].
  assert (2 * threshold soft (ConsensusVersion_params "future") - totalWeight ex_members ex_w = 1534) as <-
    by (vm_compute; reflexivity).
  exact (conflicting_bundles ex_crypto ex_ledger ex_members ex_w 10 0 soft (ConsensusVersion_params "future")
           (ex_bundle ex_p) (ex_bundle ex_q) vb1 vb2 ex_committee ex_ledger_committee eq_refl eq_refl eq_refl E1 E2
           ltac:(intros [=])).
Defined.
