(* ===== verification/AgDelivery.v ===== *)
(** What a vote tracker holds and reports, whatever votes it is given.

    [Deliveries] says what is known of the votes the machine is given and which
    consensus version the votes of a round come with.  A tracker that is given
    such votes of one round, period and step files them under their values and
    senders, and a threshold it reports carries a bundle of them that reaches the
    quorum ([proven]).  When delivered votes are those that verify against a
    ledger, the bundle verifies against it too ([proven_verifies]). *)
From S2P Require Import Prelude Config Basics Transactions Bookkeeping AgVote AgTracker AgTrackerFacts AgSafety.
#[local] Open Scope string_scope.
#[local] Open Scope list_scope.
#[local] Open Scope Z_scope.

(** ** Runs that may panic but return no error *)

Definition runs {S A} (m : M S A) (Q : A -> S -> Prop) (s : S) : Prop :=
  match m s with
  | (Ok a, s') => Q a s'
  | (Err _, _) => False
  | (Panic, _) => True
  end.
#[global] Arguments runs : simpl never.

Section runs.
  Context {S : Type}.

Lemma runs_bind {A B} (m : M S A) (k : A -> M S B) Q s :
  runs m (fun a s' => runs (k a) Q s') s -> runs (m ≫= k) Q s.
Proof. unfold runs, mbind, M_bind. by destruct (m s) as [[]]. Qed.
Lemma runs_ret {A} (a : A) (Q : A -> S -> Prop) s : Q a s -> runs (mret a) Q s.
Proof. done. Qed.
Lemma runs_gets {A} (f : S -> A) (Q : A -> S -> Prop) s : Q (f s) s -> runs (gets f) Q s.
Proof. done. Qed.
Lemma runs_modify f (Q : unit -> S -> Prop) s : Q tt (f s) -> runs (modify f) Q s.
Proof. done. Qed.
Lemma runs_panic {A} (Q : A -> S -> Prop) s : runs (lift Panic) Q s.
Proof. done. Qed.
Lemma runs_lift {A} (o : outcome A) (Q : A -> S -> Prop) s :
  (forall a, o = Ok a -> Q a s) -> (forall e, o <> Err e) -> runs (lift o) Q s.
Proof. unfold runs, lift. destruct o; naive_solver. Qed.
Lemma runs_mono {A} (m : M S A) (Q Q' : A -> S -> Prop) s :
  runs m Q s -> (forall a s', Q a s' -> Q' a s') -> runs m Q' s.
Proof. unfold runs. destruct (m s) as [[]]; auto. Qed.
Lemma runs_and {A} (m : M S A) (Q Q' : A -> S -> Prop) s :
  runs m Q s -> runs m Q' s -> runs m (fun a s' => Q a s' /\ Q' a s') s.
Proof. unfold runs. by destruct (m s) as [[]]. Qed.
Lemma runs_Ok {A} (m : M S A) (Q : A -> S -> Prop) s a s' : runs m Q s -> m s = (Ok a, s') -> Q a s'.
Proof. unfold runs. intros H E. by rewrite E in H. Qed.
End runs.

Ltac run_step :=
  lazymatch goal with
  | |- runs (_ ≫= _) _ _ => apply runs_bind; run_step
  | |- runs (mret _) _ _ => apply runs_ret; cbv beta
  | |- runs (gets _) _ _ => apply runs_gets; cbv beta
  | |- runs (modify _) _ _ => apply runs_modify; cbv beta
  | |- runs (lift Panic) _ _ => apply runs_panic
  | _ => idtac
  end.

(** ** Trackers *)

Class Deliveries : Type := { delivered : vote -> Prop; versionOf : Round -> string }.

Section trackers.
  Context {D : Deliveries}.

(** A delivered vote of a round, period and step; the successors of its round and
    period are 64-bit. *)
Definition vote_at (r : Round) (p : period) (s : step) (v : vote) : Prop :=
  rv_Round (v_R v) = r /\ rv_Period (v_R v) = p /\ v_Step v = s /\ 0 <= r < MaxUint64 - 1 /\ 0 <= p < MaxUint64 - 1 /\
  delivered v.

(** The evidence of an equivocator: two delivered votes for different values. *)
Definition pair_at (r : Round) (p : period) (s : step) (e : equivocationVote) : Prop :=
  exists v1 v2, vote_at r p s v1 /\ vote_at r p s v2 /\ v_Sender v2 = v_Sender v1 /\ v_Proposal v1 <> v_Proposal v2 /\
    e = mkEquivocationVote (v_Sender v1) (rv_Round (v_R v1)) (rv_Period (v_R v1)) (v_Step v1) (v_Cred v1)
          (v_Proposal v1, v_Proposal v2) (v_Sig v1, v_Sig v2).

Record tracker_wf (r : Round) (p : period) (s : step) (t : voteTracker) : Prop := {
  tw_counts pv c a v : vt_Counts t !! pv = Some c -> pvc_Votes c !! a = Some v ->
    v_Proposal v = pv /\ vt_Voters t !! a = Some v;
  tw_voters a v : vt_Voters t !! a = Some v -> v_Sender v = a /\ vote_at r p s v;
  tw_pairs a e : vt_Equivocators t !! a = Some e -> ev_Sender e = a /\ pair_at r p s e /\ vt_Voters t !! a = None }.

(** A bundle of delivered votes of different senders that reaches the quorum and
    would not without its last vote. *)
Definition proven (r : Round) (p : period) (s : step) (pv : proposalValue) (b : unauthenticatedBundle) : Prop :=
  let proto := ConsensusVersion_params (versionOf r) in
  exists vs es k k', b = mkUnauthenticatedBundle r p s pv (map authenticator_of vs) (map pair_authenticator_of es) /\
    (forall v, v ∈ vs -> v_Proposal v = pv /\ vote_at r p s v) /\ (forall e, e ∈ es -> pair_at r p s e) /\
    NoDup (map v_Sender vs ++ map ev_Sender es) /\
    pack v_Weight proto s 0 vs = (vs, k) /\ pack ev_Weight proto s k es = (es, k') /\ reachesQuorum s proto k' = true.

(** A threshold carries a bundle of its own round, period, step and value. *)
Definition event_wf (r : Round) (e : thresholdEvent) : Prop :=
  isThreshold e = true ->
  te_Round e = r /\ te_T e = thresholdKind (te_Step e) /\ 0 <= r < MaxUint64 - 1 /\ 0 <= te_Period e < MaxUint64 - 1 /\
  ub_Round (te_Bundle e) = te_Round e /\ ub_Period (te_Bundle e) = te_Period e /\ ub_Step (te_Bundle e) = te_Step e /\
  ub_Proposal (te_Bundle e) = te_Proposal e /\ proven r (te_Period e) (te_Step e) (te_Proposal e) (te_Bundle e).

Lemma event_wf_zero r : event_wf r thresholdEvent_zero.
Proof. done. Qed.

Lemma tracker_wf_zero r p s : tracker_wf r p s voteTracker_zero.
Proof.
  split.
  - intros pv c a v H. destruct (lookup_empty_Some pv c H).
  - intros a v H. destruct (lookup_empty_Some a v H).
  - intros a e H. destruct (lookup_empty_Some a e H).
Qed.

Lemma counterOf_elem t p a v : pvc_Votes (counterOf t p) !! a = Some v ->
  exists c, vt_Counts t !! p = Some c /\ pvc_Votes c !! a = Some v.
Proof.
  unfold counterOf. destruct (vt_Counts t !! p) as [c|]; cbn; [eauto|]. intros H. destruct (lookup_empty_Some a v H).
Qed.

Lemma tracker_wf_countVote r p s v t : tracker_wf r p s t -> vote_at r p s v ->
  vt_Voters t !! v_Sender v = None -> vt_Equivocators t !! v_Sender v = None -> tracker_wf r p s (countVote v t).
Proof.
  intros [W1 W2 W3] Hv Hnew Hne. split; cbn.
  - assert (forall pv c a u, vt_Counts t !! pv = Some c -> pvc_Votes c !! a = Some u ->
      v_Proposal u = pv /\ <[v_Sender v := v]> (vt_Voters t) !! a = Some u) as Hold.
    { intros pv c a u Hc Hu. destruct (W1 pv c a u Hc Hu) as [Hp Ha]. split; [done|].
      rewrite lookup_insert_ne; [done|]. intros <-. congruence. }
    intros pv c a u. rewrite lookup_insert_Some. intros [[<- <-]|[_ Hc]]; [|by eapply Hold]. cbn.
    rewrite lookup_insert_Some. intros [[<- <-]|[Ha Hu]]; [by rewrite lookup_insert_eq|].
    apply counterOf_elem in Hu as (c & Hc & Hu). by eapply Hold.
  - intros a u. rewrite lookup_insert_Some. intros [[<- <-]|[_ Hu]]; [done|by apply W2].
  - intros a e He. destruct (W3 a e He) as (E1 & E2 & E3). split_and!; [done..|].
    rewrite lookup_insert_ne; [done|]. intros <-. congruence.
Qed.

Lemma tracker_wf_equivocate r p s old v t : tracker_wf r p s t -> vote_at r p s v ->
  vt_Voters t !! v_Sender v = Some old -> v_Proposal old <> v_Proposal v -> tracker_wf r p s (equivocate old v t).
Proof.
  intros [W1 W2 W3] Hv Hold Hne. destruct (W2 _ _ Hold) as [Hs Ho]. unfold equivocate. split; cbn.
  - assert (forall pv c a u, vt_Counts t !! pv = Some c -> pvc_Votes c !! a = Some u -> a <> v_Sender v ->
      v_Proposal u = pv /\ delete (v_Sender v) (vt_Voters t) !! a = Some u) as Hkeep.
    { intros pv c a u Hc Hu Ha. destruct (W1 pv c a u Hc Hu). split; [done|]. by rewrite lookup_delete_ne. }
    assert (forall pv c a u, vt_Counts t !! pv = Some c -> pvc_Votes c !! a = Some u -> pv <> v_Proposal old -> a <> v_Sender v) as Hother.
    { intros pv c a u Hc Hu Hpv ->. destruct (W1 pv c _ u Hc Hu) as [<- Hu']. congruence. }
    intros pv c a u. destruct (_ <=? _).
    + rewrite lookup_delete_Some. intros [Hpv Hc] Hu. eapply Hkeep; [done..|]. by eapply Hother.
    + rewrite lookup_insert_Some. intros [[<- <-]|[Hpv Hc]]; cbn.
      * rewrite lookup_delete_Some. intros [Ha (c & Hc & Hu)%counterOf_elem]. by eapply Hkeep.
      * intros Hu. eapply Hkeep; [done..|]. by eapply Hother.
  - intros a u. rewrite lookup_delete_Some. intros [_ Hu]. by apply W2.
  - intros a e. rewrite lookup_insert_Some. intros [[<- <-]|[Ha He]].
    + cbn. split; [done|]. split; [|by rewrite lookup_delete_eq]. exists old, v. by split_and!.
    + destruct (W3 a e He) as (E1 & E2 & E3). split_and!; [done..|]. by rewrite lookup_delete_ne.
Qed.

Lemma pack_fst_prefix {A} (weight : A -> Z) proto s k l : exists rest, l = (pack weight proto s k l).1 ++ rest.
Proof.
  revert k. induction l as [|a l IH]; intros k; cbn; [by exists []|]. destruct (reachesQuorum s proto k); [by exists (a :: l)|].
  destruct (IH (wrap64 (k + weight a))) as [rest Hr]. destruct (pack weight proto s (wrap64 (k + weight a)) l) as [taken packed].
  exists rest. cbn in *. by rewrite Hr at 1.
Qed.

(** The bundle of the votes for a value. *)
Lemma genBundle_proven r p s t q c b : tracker_wf r p s t -> vt_Counts t !! q = Some c ->
  genBundle t (ConsensusVersion_params (versionOf r)) c = Ok b -> proven r p s q b.
Proof.
  intros [W1 W2 W3] Hc. unfold genBundle. set (proto := ConsensusVersion_params _).
  set (votes := SliceStable _ (map snd (map_to_list (pvc_Votes c)))).
  set (pairs := SliceStable _ (map snd (map_to_list (vt_Equivocators t)))).
  assert (forall taken rest, votes = taken ++ rest -> (forall v, v ∈ taken -> pvc_Votes c !! v_Sender v = Some v) /\ NoDup (map v_Sender taken)) as Hvotes.
  { intros taken rest E. eapply sorted_values; [|exact E]. intros a v Hv. by apply W2, (W1 q c a v Hc Hv). }
  assert (forall taken rest, pairs = taken ++ rest -> (forall e, e ∈ taken -> vt_Equivocators t !! ev_Sender e = Some e) /\ NoDup (map ev_Sender taken)) as Hpairs.
  { intros taken rest E. eapply sorted_values; [|exact E]. intros a e He. by apply W3. }
  clearbody votes pairs.
  assert (forall v, pvc_Votes c !! v_Sender v = Some v -> v_Proposal v = q /\ vote_at r p s v /\ vt_Voters t !! v_Sender v = Some v) as Hat.
  { intros v Hv. destruct (W1 q c _ v Hc Hv) as [Hp Hv']. split_and!; [done|by apply (W2 (v_Sender v))|done]. }
  destruct votes as [|v0 votes0] eqn:E0; [done|]. rewrite <- E0 in *.
  assert (v_Step v0 = s) as ->.
  { destruct (Hvotes votes [] ltac:(by rewrite app_nil_r)) as [H _]. destruct (Hat v0) as (_ & Hv0 & _); [apply H; rewrite E0; set_solver|apply Hv0]. }
  destruct (pack_fst_prefix v_Weight proto s 0 votes) as [rest Hvs].
  pose proof (pack_idem s v_Weight proto 0 votes) as Hid1. destruct (pack v_Weight proto s 0 votes) as [vs k]. cbn in Hvs, Hid1.
  destruct (Hvotes vs rest Hvs) as [Hvin Hvnd]. destruct vs as [|v1 vs0] eqn:E1; [done|]. rewrite <- E1 in *.
  destruct (Hat v1) as (Hq1 & Hv1 & _); [apply Hvin; rewrite E1; set_solver|].
  assert (v_Step v1 = s) as -> by apply Hv1.
  destruct (pack_fst_prefix ev_Weight proto s k pairs) as [rest' Hes].
  pose proof (pack_idem s ev_Weight proto k pairs) as Hid2. destruct (pack ev_Weight proto s k pairs) as [es k']. cbn in Hes, Hid2.
  destruct (Hpairs es rest' Hes) as [Hein Hend].
  unfold makeBundle. rewrite E1, <- E1. destruct (negb _); [done|]. assert (v_Step v1 = s) as -> by apply Hv1.
  rewrite Hid1, Hid2. destruct (reachesQuorum s proto k') eqn:Eq; [|done]. intros [= <-].
  assert (rv_Round (v_R v1) = r /\ rv_Period (v_R v1) = p) as [-> ->] by (split; apply Hv1).
  exists vs, es, k, k'. rewrite Hq1. split_and!; [done| | | |done..].
  - intros v Hv. destruct (Hat v (Hvin v Hv)) as (? & ? & _). done.
  - intros e He. by apply (W3 (ev_Sender e)), Hein.
  - apply NoDup_app. split_and!; [done| |done]. intros a (v & -> & Hv)%list_elem_of_fmap (e & Ha & He)%list_elem_of_fmap.
    destruct (Hat v (Hvin v Hv)) as (_ & _ & Hvo). destruct (W3 _ e (Hein e He)) as (_ & _ & Hno). rewrite <- Ha in Hno. congruence.
Qed.

Lemma report_wf r p s v o t : tracker_wf r p s t -> vote_at r p s v ->
  runs (report v (versionOf r) o) (fun e t' => t' = t /\ event_wf r e /\
    (isThreshold e = true -> te_Step e = s /\ te_Period e = p)) t.
Proof.
  intros Ht Hv. unfold report. run_step. apply runs_bind, runs_lift.
  2: { intros e. unfold overThreshold. by repeat case_match. }
  intros o' _. destruct o as [q|]; [by run_step|]. destruct o' as [q|]; [|by run_step].
  apply runs_bind, runs_lift.
  2: { intros e He. unfold genBundle, makeBundle in He. repeat case_match; done. }
  intros b Hb. run_step. split; [done|].
  assert (exists c, vt_Counts t !! q = Some c) as [c Hc].
  { unfold counterOf, id in Hb. destruct (vt_Counts t !! q) as [c|]; [by exists c|].
    unfold genBundle in Hb. cbn [default pvc_Votes proposalVoteCounter_zero] in Hb. by rewrite map_to_list_empty in Hb. }
  unfold counterOf, id in Hb. rewrite Hc in Hb. pose proof (genBundle_proven r p s t q c b Ht Hc Hb) as Hp.
  destruct Hv as (V1 & V2 & V3 & V4 & V5 & _). split; [|done]. intros _. cbn. rewrite V1, V2, V3.
  split; [done|]. split; [done|]. split; [done|]. split; [done|].
  split_and!; [..|done]; destruct Hp as (vs & es & k & k' & -> & _); done.
Qed.

Lemma handle_voteAccepted_wf r p s v t : tracker_wf r p s t -> vote_at r p s v ->
  runs (handle_voteAccepted v (versionOf r)) (fun e t' => tracker_wf r p s t' /\ event_wf r e /\
    (isThreshold e = true -> te_Step e = s /\ te_Period e = p)) t.
Proof.
  intros Ht Hv. unfold handle_voteAccepted. run_step. cbn [id]. destruct (vt_Equivocators t !! _) eqn:Ee; [by run_step|].
  apply runs_bind, runs_lift.
  2: { intros e. unfold overThreshold. by repeat case_match. }
  intros o _. destruct (vt_Voters t !! v_Sender v) as [old|] eqn:E.
  - case_bool_decide; [by run_step|]. run_step. run_step. unfold id. apply runs_bind. destruct (reachesQuorum _ _ _); [by run_step|].
    run_step. run_step. run_step. unfold id.
    assert (tracker_wf r p s (equivocate old v (t <| vt_EquivocatorsCount := wrap64 (vt_EquivocatorsCount t + v_Weight v) |>))) as Hw.
    { apply tracker_wf_equivocate; [|done..]. destruct Ht. by split. }
    case_bool_decide; [by run_step|]. eapply runs_mono; [by apply report_wf|]. cbn. by intros e t' (-> & He & Hs).
  - run_step. pose proof (tracker_wf_countVote r p s v t Ht Hv E Ee) as Hw. eapply runs_mono; [by apply report_wf|]. cbn.
    by intros e t' (-> & He & Hs).
Qed.

Lemma checked_voteAccepted_wf r p s v c : tracker_wf r p s (VoteTracker c) -> vote_at r p s v ->
  runs (checked_voteAccepted v (versionOf r)) (fun e c' => tracker_wf r p s (VoteTracker c') /\ event_wf r e /\
    (isThreshold e = true -> te_Step e = s /\ te_Period e = p)) c.
Proof.
  intros Ht Hv. pose proof (handle_voteAccepted_wf r p s v _ Ht Hv) as H.
  unfold runs, checked_voteAccepted in *. destruct (vtc_pre v (VoteTrackerContract c)) as [[] c0]; cbn [negb]; [|exact I].
  destruct (handle_voteAccepted v _ (VoteTracker c)) as [[e| |] t']; [|done..].
  destruct (vtc_post v e c0) as [[] c1]; [exact H|exact I].
Qed.
End trackers.

(** ** Bundles of verified votes *)

(** A list that is packed whole: the sum is exact, and each element was needed. *)
Lemma pack_full {A} (weight : A -> Z) proto s k l k' : s <> propose ->
  (forall a, a ∈ l -> 0 < weight a < two32) -> threshold s proto < two32 -> 0 <= k < 2 * two32 ->
  pack weight proto s k l = (l, k') ->
  k' = k + sumZ weight l /\ k' < 2 * two32 /\ llen l <= Z.max 0 (threshold s proto - k).
Proof.
  intros Hs. revert k. induction l as [|a l IH]; intros k Hl Ht Hk; cbn [pack sumZ].
  { intros [= <-]. unfold llen. cbn. lia. }
  rewrite reachesQuorum_threshold by done. destruct (Z.leb_spec (threshold s proto) k) as [|Hlt]; [done|].
  pose proof (Hl a ltac:(set_solver)) as Ha. rewrite wrap64_small by (unfold is_u64, two64, two32 in *; lia).
  destruct (pack weight proto s (k + weight a) l) as [taken packed] eqn:E. intros [= -> ->].
  destruct (IH (k + weight a)) as (-> & H2 & H3); [set_solver|done|lia|done|]. split_and!; [lia|lia|].
  unfold llen in *. cbn [length]. lia.
Qed.

(** The thresholds of all protocol versions are small. *)
Lemma thresholds_small : map_checkb (fun _ proto => (0 <=? threshold cert proto) && (threshold cert proto <? two32)) Consensus = true.
Proof. vm_cast_no_check (eq_refl true). Qed.

Lemma threshold_small v : 0 <= threshold cert (ConsensusVersion_params v) < two32.
Proof.
  unfold ConsensusVersion_params. destruct (Consensus !! v) as [proto|] eqn:E; [|by compute]. cbn [default].
  pose proof (map_checkb_lookup _ _ v proto thresholds_small E) as H. cbv beta in H.
  apply andb_prop in H as [H1%Z.leb_le H2%Z.ltb_lt]. done.
Qed.

Section verified.
  Context (C : VoteCrypto) (L : LedgerReader) (version : Round -> string).

(** Votes that verify against the ledger, of a weight a committee can have. *)
Definition verified : Deliveries :=
  {| delivered v := vote_verify C L (vote_u v) = Ok v /\ 0 < v_Weight v < two32; versionOf := version |}.

Lemma claimed_vote_at r p s pv v va ea : vote_at (D := verified) r p s v -> v_Proposal v = pv ->
  claimed_vote (mkUnauthenticatedBundle r p s pv va ea) (authenticator_of v) = vote_u v.
Proof.
  intros (Hr & Hp & Hst & _) Hv. unfold claimed_vote, vote_u, v_Sender, v_Step, v_Proposal in *. cbn.
  destruct v as [[]]. cbn in *. by subst.
Qed.

Lemma pair_at_verifies r p s pv e va ea : pair_at (D := verified) r p s e ->
  pair_verify C L (claimed_pair (mkUnauthenticatedBundle r p s pv va ea) (pair_authenticator_of e)) = Ok e /\
  0 < ev_Weight e < two32.
Proof.
  intros (v1 & v2 & (R1 & P1 & T1 & _ & _ & H1 & W1) & (R2 & P2 & T2 & _ & _ & H2 & _) & Hs & Hne & ->).
  destruct v1 as [[] cr1 sg1], v2 as [[] cr2 sg2]. unfold vote_u, v_Sender, v_Step, v_Proposal in *. cbn in *. subst.
  split; [|exact W1]. unfold pair_verify. cbn. rewrite (bool_decide_false (_ = _)) by done. cbn [failIf mbind outcome_bind].
  rewrite H1. cbn. erewrite (vote_verify_swap C L); [cbn; reflexivity|exact H1|exact H2|done..].
Qed.

Lemma proven_verifies r p pv b : proven (D := verified) r p cert pv b ->
  lr_ConsensusParams L (ParamsRound r) = Ok (ConsensusVersion_params (version r)) ->
  exists vb, bundle_verify C L b = Ok vb.
Proof.
  intros (vs & es & k & k' & -> & Hvs & Hes & Hnd & Hk & Hk' & Hq) HL. cbn [versionOf verified] in Hk, Hk', Hq.
  set (proto := ConsensusVersion_params (version r)) in *. pose proof (threshold_small (version r)) as Hthr. fold proto in Hthr.
  assert (cert <> propose) as Hc by done.
  assert (forall v, v ∈ vs -> 0 < v_Weight v < two32) as Wv by (intros v Hv; apply (Hvs v Hv)).
  assert (forall e, e ∈ es -> 0 < ev_Weight e < two32) as We.
  { intros e He. by apply (pair_at_verifies r p cert pv e [] []), Hes. }
  destruct (pack_full v_Weight proto cert 0 vs k Hc Wv (proj2 Hthr) ltac:(done) Hk) as (-> & B1 & N1).
  assert (0 <= sumZ v_Weight vs) as P1 by (apply sumZ_nonneg; intros v Hv; specialize (Wv v Hv); lia).
  destruct (pack_full ev_Weight proto cert _ es k' Hc We (proj2 Hthr) (conj P1 B1) Hk') as (-> & B2 & N2).
  eexists. unfold bundle_verify. cbn [ub_Step ub_Round ub_Votes ub_EquivocationVotes]. unfold llen in *. rewrite !length_map.
  apply outcome_bind_Ok. exists tt. split; [done|].
  apply outcome_bind_Ok. exists proto. split; [by apply wrapErr_Ok|].
  assert (Z.of_nat (length vs) <= sumZ v_Weight vs) as G1.
  { apply (sumZ_ge_len v_Weight). intros v Hv. by apply Wv. }
  apply outcome_bind_Ok. exists tt. split; [apply failIf_Ok; rewrite wrap64_small by (unfold is_u64, two64, two32 in *; lia); lia|].
  rewrite !map_map. apply NoDup_app in Hnd as (Nd1 & Nd12 & Nd2).
  apply outcome_bind_Ok. exists tt. split; [apply failIf_Ok, has_dup_NoDup; [done|set_solver]|].
  apply outcome_bind_Ok. exists tt. split; [apply failIf_Ok, has_dup_NoDup; [done|]; set_solver|].
  apply outcome_bind_Ok. exists vs. split.
  { apply wrapErr_Ok. rewrite <- (map_id vs) at 2. apply verify_each_map. intros v Hv. destruct (Hvs v Hv) as (Hp & Hat).
    rewrite claimed_vote_at by done. apply Hat. }
  apply outcome_bind_Ok. exists es. split.
  { apply wrapErr_Ok. rewrite <- (map_id es) at 2. apply verify_each_map. intros e He. by apply pair_at_verifies, Hes. }
  assert (forall v, v ∈ vs -> 0 <= v_Weight v) as Wv0 by (intros v Hv; specialize (Wv v Hv); lia).
  assert (forall e, e ∈ es -> 0 <= ev_Weight e) as We0 by (intros e He; specialize (We e He); lia).
  assert (2 * two32 < two64) as Hb by done.
  rewrite (foldl_weight v_Weight), (foldl_weight ev_Weight) by (done || lia).
  apply outcome_bind_Ok. exists tt. split; [apply failIf_Ok; by rewrite Z.add_0_l, Hq|done].
Qed.
End verified.
