(* ===== verification/AgProposal.v ===== *)
(** [src/agreement/proposal.go], [proposalTracker.go] with its contract and the
    data of [proposalStore.go]: proposals and their seeds, the search for the
    lowest credential of a period, and the assembly of payloads.

    The hashes of headers, proposals and seeds and the VRF are parameters
    ([ProposalCrypto]); a validated block is represented by its block. *)
From S2P Require Import Prelude Config Basics Transactions Bookkeeping AgVote AgTracker.
#[local] Open Scope string_scope.
#[local] Open Scope list_scope.
#[local] Open Scope Z_scope.

(** ** Proposals (proposal.go) *)

Notation VrfProof := Z (only parsing).
Notation VrfOutput := Z (only parsing).

Record unauthenticatedProposal : Type := mkUnauthenticatedProposal {
  up_Block : Block;
  up_SeedProof : VrfProof;
  up_OriginalPeriod : period;
  up_OriginalProposer : Address }.

(** [pp_ve] is the validated block a proposal may carry. *)
Record proposal : Type := mkProposal { pp_u : unauthenticatedProposal; pp_ve : option Block }.

Definition up_Round (p : unauthenticatedProposal) : Round := bh_Round (blk_Header (up_Block p)).

Definition makeProposal (ve : Block) (pf : VrfProof) (origPer : period) (origProp : Address) : proposal :=
  mkProposal (mkUnauthenticatedProposal ve pf origPer origProp) (Some ve).

Definition proposal_u (p : proposal) : unauthenticatedProposal := pp_u p.

(** What the code calls of package crypto: the digest of a header, the hash of a
    proposal, the hashes of [proposerSeed], of a seed and of [seedInput], the
    output of a VRF proof, its verification under a key, and a prover. *)
Record ProposalCrypto : Type := mkProposalCrypto {
  pc_Digest : BlockHeader -> Digest;
  pc_HashProposal : unauthenticatedProposal -> Digest;
  pc_HashProposerSeed : Address -> VrfOutput -> Digest;
  pc_HashSeed : Seed -> Digest;
  pc_HashSeedInput : Digest -> Digest -> Seed;
  pc_ProofHash : VrfProof -> option VrfOutput;
  pc_VerifySeed : Z -> VrfProof -> Seed -> bool;
  pc_Prove : Z -> Seed -> option VrfProof }.

Section proposals.
  Context (P : ProposalCrypto).

Definition value (p : unauthenticatedProposal) : proposalValue :=
  mkProposalValue (up_OriginalPeriod p) (up_OriginalProposer p) (pc_Digest P (blk_Header (up_Block p)))
    (pc_HashProposal P p).

Definition pp_value (p : proposal) : proposalValue := value (pp_u p).

(** The history mixed into the seed at the start of every refresh interval. *)
Definition seedHistory (l : LedgerReader) (cparams : ConsensusParams) (rnd : Round) : outcome Digest :=
  let interval := wrap64 (proto_SeedLookback cparams * proto_SeedRefreshInterval cparams) in
  if interval =? 0 then Panic
  else if rnd mod interval <? proto_SeedLookback cparams
  then wrapErr (Errorf "could not lookup old entry digest (for seed)")
         (lr_LookupDigest l (Round_SubSaturate rnd interval))
  else Ok 0.

Definition deriveNewSeed (address : Address) (vrf : Z) (rnd : Round) (p : period) (l : LedgerReader)
    : outcome (Seed * VrfProof) :=
  cparams ← wrapErr (Errorf "failed to obtain consensus parameters") (lr_ConsensusParams l (ParamsRound rnd));
  prevSeed ← wrapErr (Errorf "failed read seed") (lr_Seed l (seedRound rnd cparams));
  '(alpha, seedProof) ←
    (if p =? 0 then
       match pc_Prove P vrf prevSeed with
       | None => Err (Errorf "could not make seed proof")
       | Some seedProof =>
           match pc_ProofHash P seedProof with
           | None => Panic
           | Some vrfOut => Ok (pc_HashProposerSeed P address vrfOut, seedProof)
           end
       end
     else Ok (pc_HashSeed P prevSeed, 0));
  history ← seedHistory l cparams rnd;
  Ok (pc_HashSeedInput P alpha history, seedProof).

Definition verifyNewSeed (p : unauthenticatedProposal) (l : LedgerReader) : outcome unit :=
  let rnd := up_Round p in
  cparams ← wrapErr (Errorf "failed to obtain consensus parameters") (lr_ConsensusParams l (ParamsRound rnd));
  proposerRecord ← wrapErr (Errorf "failed to obtain balance record")
                     (lr_LookupAgreement l (balanceRound rnd cparams) (up_OriginalProposer p));
  prevSeed ← wrapErr (Errorf "failed read seed") (lr_Seed l (seedRound rnd cparams));
  alpha ←
    (if up_OriginalPeriod p =? 0 then
       if negb (pc_VerifySeed P (oad_SelectionID proposerRecord) (up_SeedProof p) prevSeed)
       then Err (Errorf "payload seed proof malformed")
       else
         match pc_ProofHash P (up_SeedProof p) with
         | None => Panic
         | Some vrfOut => Ok (pc_HashProposerSeed P (up_OriginalProposer p) vrfOut)
         end
     else Ok (pc_HashSeed P prevSeed));
  history ← seedHistory l cparams rnd;
  failIf (negb (bh_Seed (blk_Header (up_Block p)) =? pc_HashSeedInput P alpha history))
    (Errorf "payload seed malformed").

(** [WithSeed] of a block. *)
Definition WithSeed (b : Block) (s : Seed) : Block := b <| blk_Header := blk_Header b <| bh_Seed := s |> |>.

Definition proposalForBlock (address : Address) (vrf : Z) (ve : Block) (p : period) (l : LedgerReader)
    : outcome (proposal * proposalValue) :=
  '(newSeed, seedProof) ← wrapErr (Errorf "proposalForBlock: could not derive new seed")
                            (deriveNewSeed address vrf (bh_Round (blk_Header ve)) p l);
  let proposal := makeProposal (WithSeed ve newSeed) seedProof p address in
  Ok (proposal, mkProposalValue p address (pc_Digest P (blk_Header (up_Block (pp_u proposal))))
                  (pc_HashProposal P (pp_u proposal))).

(** [Validate] of the block validator is a parameter; it returns the validated
    block. *)
Definition validate (current : Round) (l : LedgerReader) (Validate : Block -> outcome Block)
    (p : unauthenticatedProposal) : outcome proposal :=
  _ ← failIf (negb (up_Round p =? current)) (Errorf "proposed entry from wrong round");
  _ ← wrapErr (Errorf "proposal has bad seed") (verifyNewSeed p l);
  ve ← wrapErr (Errorf "EntryValidator rejected entry") (Validate (up_Block p));
  Ok (makeProposal ve (up_SeedProof p) (up_OriginalPeriod p) (up_OriginalProposer p)).

End proposals.

(** ** The lowest credential of a period (proposalTracker.go) *)

Record proposalSeeker : Type := mkProposalSeeker { ps_Lowest : vote; ps_Filled : bool; ps_Frozen : bool }.
#[export] Instance Eta_proposalSeeker : Eta proposalSeeker := fun r =>
  mkProposalSeeker (ps_Lowest r) (ps_Filled r) (ps_Frozen r).

Definition vote_zero : vote :=
  mkVote (mkRawVote 0 0 0 0 bottom) (mkCredential 0 0 false (mkHashableCredential 0 0 0) 0) 0.
Definition proposalSeeker_zero : proposalSeeker := mkProposalSeeker vote_zero false false.

Record proposalTracker : Type := mkProposalTracker {
  pt_Duplicate : gset Address; pt_Freezer : proposalSeeker; pt_Staging : proposalValue }.
#[export] Instance Eta_proposalTracker : Eta proposalTracker := fun r =>
  mkProposalTracker (pt_Duplicate r) (pt_Freezer r) (pt_Staging r).
Definition proposalTracker_zero : proposalTracker := mkProposalTracker ∅ proposalSeeker_zero bottom.

Record proposalTrackerContract : Type := mkProposalTrackerContract {
  ptc_SawOneVote : bool; ptc_Froze : bool; ptc_SawSoftThreshold : bool; ptc_SawCertThreshold : bool }.
#[export] Instance Eta_proposalTrackerContract : Eta proposalTrackerContract := fun r =>
  mkProposalTrackerContract (ptc_SawOneVote r) (ptc_Froze r) (ptc_SawSoftThreshold r) (ptc_SawCertThreshold r).
Definition proposalTrackerContract_zero : proposalTrackerContract := mkProposalTrackerContract false false false false.

(** The answer to a verified proposal-vote. *)
Inductive voteVerdict : Type := accepted (pv : proposalValue) | filtered (e : error).

Section seeker.
  Context (C : VoteCrypto).

Definition seeker_accept (v : vote) (s : proposalSeeker) : proposalSeeker + error :=
  if ps_Frozen s then inr (Errorf "proposalSeeker.accept: seeker is already frozen")
  else if ps_Filled s && negb (Less C (v_Cred v) (v_Cred (ps_Lowest s)))
  then inr (Errorf "proposalSeeker.accept: credential is not less")
  else inl (s <| ps_Lowest := v |> <| ps_Filled := true |>).

Definition seeker_freeze (s : proposalSeeker) : proposalSeeker := s <| ps_Frozen := true |>.

(** The events of a tracker, as functions of its state. *)
Definition pt_voteFilterRequest (rv : rawVote) (t : proposalTracker) : bool :=
  bool_decide (rv_Sender rv ∈ pt_Duplicate t).

Definition pt_voteVerified (v : vote) (t : proposalTracker) : voteVerdict * proposalTracker :=
  if bool_decide (v_Sender v ∈ pt_Duplicate t)
  then (filtered (Errorf "proposalTracker: filtered vote: sender had already sent a vote"), t)
  else
    let t := t <| pt_Duplicate := {[ v_Sender v ]} ∪ pt_Duplicate t |> in
    if negb (bool_decide (pt_Staging t = bottom))
    then (filtered (Errorf "proposalTracker: value already staged"), t)
    else
      match seeker_accept v (pt_Freezer t) with
      | inr _ => (filtered (Errorf "proposalTracker: filtered vote"), t)
      | inl s => (accepted (v_Proposal v), t <| pt_Freezer := s |>)
      end.

Definition pt_proposalFrozen (t : proposalTracker) : proposalValue * proposalTracker :=
  (v_Proposal (ps_Lowest (pt_Freezer t)), t <| pt_Freezer := seeker_freeze (pt_Freezer t) |>).

(** A soft or cert threshold stages its value, which is the value accepted. *)
Definition pt_threshold (e : thresholdEvent) (t : proposalTracker) : proposalValue * proposalTracker :=
  (te_Proposal e, t <| pt_Staging := te_Proposal e |>).

(** The contract (proposalTrackerContract.go). *)
Definition isAccepted (r : voteVerdict) : bool := match r with accepted _ => true | filtered _ => false end.

Definition ptc_post_voteVerified (v : vote) (out : voteVerdict) (c : proposalTrackerContract)
    : bool * proposalTrackerContract :=
  let closed := ptc_Froze c || ptc_SawSoftThreshold c || ptc_SawCertThreshold c in
  let firstOk :=
    if negb (ptc_SawOneVote c) && negb closed
    then match out with accepted pv => bool_decide (pv = v_Proposal v) | filtered _ => false end
    else true in
  (firstOk && negb (closed && isAccepted out), c <| ptc_SawOneVote := true |>).

Definition ptc_post_proposalFrozen (out : proposalValue) (c : proposalTrackerContract) : bool * proposalTrackerContract :=
  (negb (negb (ptc_SawOneVote c) && negb (bool_decide (out = bottom))), c <| ptc_Froze := true |>).

Definition ptc_pre_softThreshold (e : thresholdEvent) (c : proposalTrackerContract) : bool :=
  negb (ptc_SawSoftThreshold c) && negb (bool_decide (te_Proposal e = bottom)).

End seeker.

(** ** The assembly of payloads (proposalStore.go) *)

Record blockAssembler : Type := mkBlockAssembler {
  ba_Pipeline : option unauthenticatedProposal;
  ba_Payload : option proposal;
  ba_Authenticators : list vote }.
#[export] Instance Eta_blockAssembler : Eta blockAssembler := fun r =>
  mkBlockAssembler (ba_Pipeline r) (ba_Payload r) (ba_Authenticators r).
Definition blockAssembler_zero : blockAssembler := mkBlockAssembler None None [].

(** [Filled] and [Assembled] say whether the optional fields are set. *)
Definition ba_Filled (a : blockAssembler) : bool := bool_decide (is_Some (ba_Pipeline a)).
Definition ba_Assembled (a : blockAssembler) : bool := bool_decide (is_Some (ba_Payload a)).

Definition pipeline (p : unauthenticatedProposal) (a : blockAssembler) : outcome blockAssembler :=
  _ ← failIf (ba_Assembled a) (Errorf "blockAssembler.pipeline: already assembled");
  _ ← failIf (ba_Filled a) (Errorf "blockAssembler.pipeline: already filled");
  Ok (a <| ba_Pipeline := Some p |>).

Definition assembler_bind (p : proposal) (a : blockAssembler) : outcome blockAssembler :=
  _ ← failIf (ba_Assembled a) (Errorf "blockAssembler.pipeline: already assembled");
  Ok (a <| ba_Payload := Some p |>).

Definition authenticator (p : period) (a : blockAssembler) : vote :=
  default vote_zero (list_find (fun v => rv_Period (v_R v) = p) (ba_Authenticators a) ≫= fun '(_, v) => Some v).

Definition assembler_trim (p : period) (a : blockAssembler) : blockAssembler :=
  a <| ba_Authenticators := filter (fun v => p <= rv_Period (v_R v)) (ba_Authenticators a) |>.

Record proposalStore : Type := mkProposalStore {
  st_Relevant : gmap period proposalValue;
  st_Pinned : proposalValue;
  st_Assemblers : gmap proposalValue blockAssembler }.
#[export] Instance Eta_proposalStore : Eta proposalStore := fun r =>
  mkProposalStore (st_Relevant r) (st_Pinned r) (st_Assemblers r).
Definition proposalStore_zero : proposalStore := mkProposalStore ∅ bottom ∅.

Definition assembler (s : proposalStore) (pv : proposalValue) : blockAssembler :=
  default blockAssembler_zero (st_Assemblers s !! pv).

(** Keep the assemblers of the pinned and the relevant values. *)
Definition store_trim (p : period) (s : proposalStore) : proposalStore :=
  let kept := st_Pinned s :: map snd (map_to_list (st_Relevant s)) in
  s <| st_Assemblers := delete bottom (list_to_map (map (fun pv => (pv, assembler_trim p (assembler s pv))) kept)) |>.

(** The greatest period a value is relevant for, 0 when there is none above; a
    pinned value has no period. *)
Definition lastRelevant (pv : proposalValue) (s : proposalStore) : period * bool :=
  if bool_decide (st_Pinned s = pv) then (0, true)
  else (foldr Z.max 0 (map fst (filter (fun kv => kv.2 = pv) (map_to_list (st_Relevant s)))), false).
