(* ===== verification/AgRouter.v ===== *)
(** [src/agreement/router.go], [voteAuxiliary.go] and the handlers of
    [proposalStore.go]: the tree of state machines below the player.

    A round has a proposal store and the freshest threshold seen, a period a
    proposal tracker and the cached next-threshold, a step a vote tracker.
    [dispatch] creates the machine it addresses when it is missing and collects
    old ones; addressing a machine that was collected dereferences nil, which
    panics.  A dispatch to a machine below is a computation on the state of the
    router below ([withRound], [inPeriod], [inStep]); the messages the machines
    exchange are the arguments and results of their handlers.  The contracts of
    the round machines are empty and those of the vote aggregator only restate
    the types of its results. *)
From S2P Require Import Prelude Config Basics Transactions Bookkeeping AgVote AgTracker AgProposal.
#[local] Open Scope string_scope.
#[local] Open Scope list_scope.
#[local] Open Scope Z_scope.

(** ** Messages and the player (message.go, events.go, player.go) *)

(** The type of a message event with the message it carries; the verified message
    is meaningful when verification succeeded. *)
Inductive messageInput : Type :=
| votePresent (uv : unauthenticatedVote)
| voteVerified (uv : unauthenticatedVote) (v : vote)
| payloadPresent (up : unauthenticatedProposal)
| payloadVerified (up : unauthenticatedProposal) (p : proposal)
| bundlePresent (ub : unauthenticatedBundle)
| bundleVerified (ub : unauthenticatedBundle) (b : bundle).

Record ConsensusVersionView : Type := mkConsensusVersionView { cvv_Err : option error; cvv_Version : string }.

Inductive messageEvent : Type := mkMessageEvent {
  me_Input : messageInput;
  me_MessageHandle : option Z;
  me_Err : option error;
  me_TaskIndex : Z;
  me_Tail : option messageEvent;
  me_Cancelled : bool;
  me_Proto : ConsensusVersionView }.

Record proposalTable : Type := mkProposalTable {
  tbl_Pending : gmap Z (option messageEvent); tbl_PendingNext : Z }.

Definition push (e : option messageEvent) (t : proposalTable) : Z * proposalTable :=
  let next := swrap64 (tbl_PendingNext t + 1) in
  (next, mkProposalTable (<[next := e]> (tbl_Pending t)) next).

Definition pop (taskIndex : Z) (t : proposalTable) : option messageEvent * proposalTable :=
  (mjoin (tbl_Pending t !! taskIndex), mkProposalTable (delete taskIndex (tbl_Pending t)) (tbl_PendingNext t)).

Record player : Type := mkPlayer {
  pl_Round : Round;
  pl_Period : period;
  pl_Step : step;
  pl_LastConcluding : step;
  pl_Deadline : Z;
  pl_Napping : bool;
  pl_FastRecoveryDeadline : Z;
  pl_Pending : proposalTable }.
#[export] Instance Eta_player : Eta player := fun r =>
  mkPlayer (pl_Round r) (pl_Period r) (pl_Step r) (pl_LastConcluding r) (pl_Deadline r) (pl_Napping r)
    (pl_FastRecoveryDeadline r) (pl_Pending r).

(** ** Routers (router.go) *)

Record nextThresholdStatus : Type := mkNextThresholdStatus { nts_Bottom : bool; nts_Proposal : proposalValue }.
#[export] Instance Eta_nextThresholdStatus : Eta nextThresholdStatus := fun r =>
  mkNextThresholdStatus (nts_Bottom r) (nts_Proposal r).

Record voteTrackerRound : Type := mkVoteTrackerRound { vtr_Freshest : thresholdEvent; vtr_Ok : bool }.

Record periodRouter : Type := mkPeriodRouter {
  ProposalTracker : proposalTracker;
  ProposalTrackerContract : proposalTrackerContract;
  VoteTrackerPeriod : nextThresholdStatus;
  pr_Children : gmap step stepRouter }.
#[export] Instance Eta_periodRouter : Eta periodRouter := fun r =>
  mkPeriodRouter (ProposalTracker r) (ProposalTrackerContract r) (VoteTrackerPeriod r) (pr_Children r).
Definition periodRouter_zero : periodRouter :=
  mkPeriodRouter proposalTracker_zero proposalTrackerContract_zero (mkNextThresholdStatus false bottom) ∅.

Record roundRouter : Type := mkRoundRouter {
  ProposalStore : proposalStore;
  VoteTrackerRound : voteTrackerRound;
  rr_Children : gmap period periodRouter }.
#[export] Instance Eta_roundRouter : Eta roundRouter := fun r =>
  mkRoundRouter (ProposalStore r) (VoteTrackerRound r) (rr_Children r).
Definition roundRouter_zero : roundRouter :=
  mkRoundRouter proposalStore_zero (mkVoteTrackerRound thresholdEvent_zero false) ∅.

Notation rootRouter := (gmap Round roundRouter) (only parsing).

(** The entry of a key, created when it is missing. *)
Definition ensureChild {V} (zero : V) (k : Z) (m : gmap Z V) : gmap Z V :=
  match m !! k with Some _ => m | None => <[k := zero]> m end.

Definition root_update (state : player) (r : Round) (router : rootRouter) : rootRouter :=
  filter (fun kv => pl_Round state <= kv.1) (ensureChild roundRouter_zero r router).

Definition round_update (state : player) (p : period) (router : roundRouter) : roundRouter :=
  router <| rr_Children :=
    filter (fun kv => pl_Period state <= wrap64 (kv.1 + 1) \/ kv.1 <= 1) (ensureChild periodRouter_zero p (rr_Children router)) |>.

Definition period_update (s : step) (router : periodRouter) : periodRouter :=
  router <| pr_Children := ensureChild stepRouter_zero s (pr_Children router) |>.

Definition inStep {A} (s : step) (m : M stepRouter A) : M periodRouter A := fun router =>
  let router := period_update s router in
  match pr_Children router !! s with
  | None => (Panic, router)
  | Some c => let '(o, c) := m c in (o, router <| pr_Children := <[s := c]> (pr_Children router) |>)
  end.

Definition inPeriod {A} (state : player) (p : period) (s : step) (m : M periodRouter A) : M roundRouter A := fun router =>
  let router := round_update state p router in
  match rr_Children router !! p with
  | None => (Panic, router)
  | Some c => let '(o, c) := m (period_update s c) in (o, router <| rr_Children := <[p := c]> (rr_Children router) |>)
  end.

(** A dispatch to a machine of the round itself. *)
Definition atRound {A} (state : player) (p : period) (m : M roundRouter A) : M roundRouter A := fun router =>
  m (round_update state p router).

Definition withRound {A} (state : player) (r : Round) (m : M roundRouter A) : M rootRouter A := fun router =>
  let router := root_update state r router in
  match router !! r with
  | None => (Panic, router)
  | Some c => let '(o, c) := m c in (o, <[r := c]> router)
  end.

(** ** The vote machines of a period and of a round (voteAuxiliary.go, events.go) *)

Definition fresherThan (e o : thresholdEvent) : outcome bool :=
  match te_T e, te_T o with
  | noThreshold, noThreshold => Ok true
  | noThreshold, _ => Ok false
  | _, noThreshold => Ok true
  | et, ot =>
      if negb (te_Round e =? te_Round o) then Panic
      else
        match et, ot with
        | _, certThreshold => Ok false
        | softThreshold, _ => Ok (te_Period o <? te_Period e)
        | certThreshold, _ => Ok true
        | _, _ =>
            if te_Period o <? te_Period e then Ok true
            else if te_Period e <? te_Period o then Ok false
            else if bool_decide (ot = softThreshold) then Ok true
            else Ok (bool_decide (te_Proposal e = bottom) && negb (bool_decide (te_Proposal o = bottom)))
        end
  end.

Definition vtp_nextThreshold (e : thresholdEvent) : M periodRouter unit :=
  modify (fun router =>
    let c := VoteTrackerPeriod router in
    router <| VoteTrackerPeriod :=
      if bool_decide (te_Proposal e = bottom) then c <| nts_Bottom := true |>
      else c <| nts_Proposal := te_Proposal e |> |>).

Definition vtp_voteAccepted (v : vote) (protoV : string) : M periodRouter thresholdEvent :=
  e ← inStep (v_Step v) (checked_voteAccepted v protoV);
  _ ← (if isThreshold e && (next <=? te_Step e)
       then
         _ ← modify (period_update 0);
         match te_T e with nextThreshold => vtp_nextThreshold e | _ => lift Panic end
       else mret tt);
  mret e.

Definition vtr_threshold (e : thresholdEvent) : M roundRouter thresholdEvent :=
  t ← gets VoteTrackerRound;
  fresher ← lift (fresherThan e (vtr_Freshest t));
  if (fresher : bool)
  then _ ← modify (fun router => router <| VoteTrackerRound := mkVoteTrackerRound e true |>); mret e
  else mret thresholdEvent_zero.

Definition vtr_voteAccepted (state : player) (v : vote) (protoV : string) : M roundRouter thresholdEvent :=
  e ← inPeriod state (rv_Period (v_R v)) 0 (vtp_voteAccepted v protoV);
  if isThreshold e then atRound state 0 (vtr_threshold e) else mret thresholdEvent_zero.

(** ** The proposal store (proposalStore.go) *)

Record proposalAcceptedEvent : Type := mkProposalAcceptedEvent {
  pa_Round : Round; pa_Period : period; pa_Proposal : proposalValue; pa_Payload : option proposal }.
#[export] Instance Eta_proposalAcceptedEvent : Eta proposalAcceptedEvent := fun r =>
  mkProposalAcceptedEvent (pa_Round r) (pa_Period r) (pa_Proposal r) (pa_Payload r).

Record committableEvent : Type := mkCommittableEvent { ce_Proposal : proposalValue; ce_Vote : vote }.

Record payloadPipelinedEvent : Type := mkPayloadPipelinedEvent {
  pe_Round : Round;
  pe_Period : period;
  pe_Pinned : bool;
  pe_Proposal : proposalValue;
  pe_UnauthenticatedPayload : unauthenticatedProposal;
  pe_Vote : vote }.
#[export] Instance Eta_payloadPipelinedEvent : Eta payloadPipelinedEvent := fun r =>
  mkPayloadPipelinedEvent (pe_Round r) (pe_Period r) (pe_Pinned r) (pe_Proposal r) (pe_UnauthenticatedPayload r) (pe_Vote r).

(** A staged or pinned value with its payload, if there is one. *)
Record storedValue : Type := mkStoredValue { sv_Proposal : proposalValue; sv_Payload : option proposal }.

(** Answers of the proposal machines. *)
Inductive proposalVoteResult : Type :=
| proposalAccepted (e : proposalAcceptedEvent)
| proposalVoteFiltered (e : error)
| proposalVoteMalformed (e : error).
Inductive payloadResult : Type :=
| payloadRejected (e : error)
| payloadMalformed (e : error)
| payloadPipelined (e : payloadPipelinedEvent)
| payloadAccepted (v : vote) (pv : proposalValue)
| proposalCommittable (e : committableEvent).
Inductive thresholdResult : Type := stagedAccepted (e : proposalAcceptedEvent) | stagedCommittable (e : committableEvent).

Section store.
  Context (C : VoteCrypto) (P : ProposalCrypto) (state : player).

(** Handlers of the proposal tracker behind its contract. *)
Definition checked_proposalVote (v : vote) : M periodRouter voteVerdict := fun router =>
  let '(out, t) := pt_voteVerified C v (ProposalTracker router) in
  let '(ok, c) := ptc_post_voteVerified v out (ProposalTrackerContract router) in
  (if ok then Ok out else Panic, router <| ProposalTracker := t |> <| ProposalTrackerContract := c |>).

Definition checked_proposalFrozen : M periodRouter proposalValue := fun router =>
  if ptc_Froze (ProposalTrackerContract router) then (Panic, router)
  else
    let '(out, t) := pt_proposalFrozen (ProposalTracker router) in
    let '(ok, c) := ptc_post_proposalFrozen out (ProposalTrackerContract router) in
    (if ok then Ok out else Panic, router <| ProposalTracker := t |> <| ProposalTrackerContract := c |>).

Definition checked_threshold (e : thresholdEvent) : M periodRouter proposalValue := fun router =>
  let c := ProposalTrackerContract router in
  let '(preOk, c') :=
    match te_T e with
    | softThreshold => (ptc_pre_softThreshold e c, c <| ptc_SawSoftThreshold := true |>)
    | certThreshold => (true, c <| ptc_SawCertThreshold := true |>)
    | _ => (false, c)
    end in
  if negb preOk then (Panic, router)
  else
    let '(out, t) := pt_threshold e (ProposalTracker router) in
    (Ok out, router <| ProposalTracker := t |> <| ProposalTrackerContract := c' |>).

Definition setAssembler (pv : proposalValue) (a : blockAssembler) : M roundRouter unit :=
  modify (fun router => router <| ProposalStore :=
    ProposalStore router <| st_Assemblers := <[pv := a]> (st_Assemblers (ProposalStore router)) |> |>).

Definition trimStore : M roundRouter unit :=
  modify (fun router => router <| ProposalStore := store_trim (pl_Period state) (ProposalStore router) |>).

Definition setRelevant (p : period) (pv : proposalValue) : M roundRouter unit :=
  modify (fun router => router <| ProposalStore :=
    ProposalStore router <| st_Relevant := <[p := pv]> (st_Relevant (ProposalStore router)) |> |>).

Definition store_voteVerified (v : vote) : M roundRouter proposalVoteResult :=
  ev ← inPeriod state (rv_Period (v_R v)) 0 (checked_proposalVote v);
  match ev with
  | filtered e => mret (proposalVoteFiltered e)
  | accepted pv =>
      store ← gets ProposalStore;
      let ea := assembler store pv in
      let ea := ea <| ba_Authenticators := ba_Authenticators ea ++ [v] |> in
      _ ← setAssembler pv ea;
      _ ← setRelevant (rv_Period (v_R v)) pv;
      _ ← trimStore;
      mret (proposalAccepted (mkProposalAcceptedEvent (rv_Round (v_R v)) (rv_Period (v_R v)) pv (ba_Payload ea)))
  end.

Definition store_payloadPresent (up : unauthenticatedProposal) : M roundRouter payloadResult :=
  store ← gets ProposalStore;
  let pv := value P up in
  match st_Assemblers store !! pv with
  | None => mret (payloadRejected (Errorf "proposalStore: no accepting blockAssembler found on payloadPresent"))
  | Some ea =>
      match pipeline up ea with
      | Ok ea' =>
          _ ← setAssembler pv ea';
          let '(relevantPeriod, pinned) := lastRelevant pv store in
          mret (payloadPipelined (mkPayloadPipelinedEvent 0 relevantPeriod pinned pv up (authenticator (pl_Period state) ea)))
      | Err e => mret (payloadRejected e)
      | Panic => lift Panic
      end
  end.

(** [readStaging] and [readPinned]. *)
Definition store_readStaging (p : period) : M roundRouter storedValue :=
  pv ← inPeriod state p 0 (gets (fun router => pt_Staging (ProposalTracker router)));
  store ← gets ProposalStore;
  mret (mkStoredValue pv (ba_Payload (assembler store pv))).

Definition store_readPinned : M roundRouter storedValue :=
  store ← gets ProposalStore;
  mret (mkStoredValue (st_Pinned store) (ba_Payload (assembler store (st_Pinned store)))).

(** [stagedValue] asked by the store itself. *)
Definition staged_here (p : period) : M roundRouter storedValue := atRound state p (store_readStaging p).

Definition store_payloadVerified (pp : proposal) : M roundRouter payloadResult :=
  store ← gets ProposalStore;
  let pv := pp_value P pp in
  match st_Assemblers store !! pv with
  | None => mret (payloadRejected (Errorf "proposalStore: no accepting blockAssembler found on payloadVerified"))
  | Some ea =>
      match assembler_bind pp ea with
      | Ok ea' =>
          _ ← setAssembler pv ea';
          a ← staged_here (pl_Period state);
          let authVote := authenticator (pl_Period state) ea in
          if bool_decide (sv_Proposal a = pv) then mret (proposalCommittable (mkCommittableEvent pv authVote))
          else mret (payloadAccepted authVote pv)
      | Err e => mret (payloadRejected e)
      | Panic => lift Panic
      end
  end.

Definition store_newPeriod (target : period) (starting : proposalValue) : M roundRouter unit :=
  staged ← staged_here (pl_Period state);
  _ ← modify (fun router =>
        let store := ProposalStore router in
        let pinned := if negb (bool_decide (starting = bottom)) then starting
                      else if negb (bool_decide (sv_Proposal staged = bottom)) then sv_Proposal staged
                      else st_Pinned store in
        router <| ProposalStore :=
          store <| st_Pinned := pinned |>
                <| st_Relevant := filter (fun kv => ~ wrap64 (kv.1 + 1) < target) (st_Relevant store) |> |>);
  trimStore.

Definition store_newRound : M roundRouter (option payloadPipelinedEvent) :=
  store ← gets ProposalStore;
  match map_to_list (st_Assemblers store) with
  | [] => mret None
  | [(pv, ea)] =>
      match ba_Pipeline ea with
      | None => mret None
      | Some up =>
          let '(relevantPeriod, pinned) := lastRelevant pv store in
          mret (Some (mkPayloadPipelinedEvent 0 relevantPeriod pinned pv up (authenticator (pl_Period state) ea)))
      end
  | _ => lift Panic
  end.

Definition store_threshold (te : thresholdEvent) : M roundRouter thresholdResult :=
  pv ← inPeriod state (te_Period te) 0 (checked_threshold te);
  store ← gets ProposalStore;
  let ea := assembler store pv in
  if ba_Assembled ea then mret (stagedCommittable (mkCommittableEvent pv (authenticator (pl_Period state) ea)))
  else
    _ ← setAssembler pv ea;
    _ ← setRelevant (te_Period te) pv;
    _ ← trimStore;
    mret (stagedAccepted (mkProposalAcceptedEvent (te_Round te) (te_Period te) pv (ba_Payload ea))).

End store.

(** ** Queries of the player (router.go) *)

Definition stagedValue (state : player) (r : Round) (p : period) : M rootRouter storedValue :=
  withRound state r (atRound state p (store_readStaging state p)).

Definition pinnedValue (state : player) (r : Round) : M rootRouter storedValue :=
  withRound state r (atRound state 0 store_readPinned).

Definition freshestBundle (state : player) (r : Round) : M rootRouter voteTrackerRound :=
  withRound state r (atRound state 0 (gets VoteTrackerRound)).

Definition nextStatus (state : player) (r : Round) (p : period) : M rootRouter nextThresholdStatus :=
  withRound state r (inPeriod state p 0 (gets VoteTrackerPeriod)).

Definition dumpVotes (state : player) (r : Round) (p : period) (s : step) : M rootRouter (list unauthenticatedVote) :=
  withRound state r (inPeriod state p s (inStep s (gets (fun router => handle_dumpVotesRequest (VoteTracker router))))).
