(* ===== verification/AgRouterFacts.v ===== *)
(** The invariant of the tree of state machines: every vote tracker holds
    delivered votes of its own round, period and step; the freshest threshold of
    a round carries a bundle that proves it; every assembled payload is
    filed under its value.  The lemmas follow it, together with the staged value
    of a period and the freshest threshold of a round, through the handlers of
    the router. *)
From S2P Require Import Prelude Config Basics Transactions Bookkeeping AgVote AgTracker AgDelivery AgProposal AgRouter.
#[local] Open Scope string_scope.
#[local] Open Scope list_scope.
#[local] Open Scope Z_scope.

(** ** The tree *)

Section wf.
  Context {D : Deliveries} (P : ProposalCrypto).

Definition period_wf (r : Round) (p : period) (c : periodRouter) : Prop :=
  forall s c', pr_Children c !! s = Some c' -> tracker_wf r p s (VoteTracker c').

Definition store_wf (s : proposalStore) : Prop :=
  st_Assemblers s !! bottom = None /\
  forall pv a pp, st_Assemblers s !! pv = Some a -> ba_Payload a = Some pp -> pp_value P pp = pv.

Definition freshest_wf (r : Round) (t : voteTrackerRound) : Prop :=
  event_wf r (vtr_Freshest t) /\ (vtr_Ok t = true -> isThreshold (vtr_Freshest t) = true).

Record round_wf (r : Round) (c : roundRouter) : Prop := {
  rw_store : store_wf (ProposalStore c);
  rw_freshest : freshest_wf r (VoteTrackerRound c);
  rw_periods p c' : rr_Children c !! p = Some c' -> period_wf r p c' }.

Definition root_wf (router : rootRouter) : Prop := forall r c, router !! r = Some c -> round_wf r c.

Lemma round_wf_zero r : round_wf r roundRouter_zero.
Proof.
  split.
  - split; [done|]. intros pv a pp H. destruct (lookup_empty_Some pv a H).
  - done.
  - intros p c' H. destruct (lookup_empty_Some p c' H).
Qed.

Lemma period_wf_zero r p : period_wf r p periodRouter_zero.
Proof. intros s c' H. destruct (lookup_empty_Some s c' H). Qed.

(** Creating a child. *)
Lemma ensureChild_lookup {V} (zero : V) k m k' c :
  ensureChild zero k m !! k' = Some c -> m !! k' = Some c \/ (m !! k' = None /\ k' = k /\ c = zero).
Proof.
  unfold ensureChild. destruct (m !! k) eqn:E; [by left|]. destruct (decide (k = k')) as [<-|Hne].
  - rewrite lookup_insert_eq. intros [= <-]. by right.
  - rewrite lookup_insert_ne by done. by left.
Qed.

Lemma ensureChild_keeps {V} (zero : V) k m k' c : m !! k' = Some c -> ensureChild zero k m !! k' = Some c.
Proof.
  intros H. unfold ensureChild. destruct (m !! k) eqn:E; [done|]. rewrite lookup_insert_ne; [done|]. congruence.
Qed.

(** The staged value of a period. *)
Definition staged_in (c : roundRouter) (p : period) : proposalValue :=
  match rr_Children c !! p with Some c' => pt_Staging (ProposalTracker c') | None => bottom end.

(** What collecting old periods and creating one leaves. *)
Record updated (c c' : roundRouter) : Prop := {
  ud_store : ProposalStore c' = ProposalStore c;
  ud_freshest : VoteTrackerRound c' = VoteTrackerRound c;
  ud_staged p : is_Some (rr_Children c' !! p) -> staged_in c' p = staged_in c p }.

Lemma round_update_updated state p c : updated c (round_update state p c).
Proof.
  split; [done|done|]. intros q [c' Hc']. unfold staged_in. cbn in *. rewrite Hc'.
  apply map_lookup_filter_Some in Hc' as [Hc' _]. apply ensureChild_lookup in Hc' as [->|(-> & -> & ->)]; done.
Qed.

(** The periods a collection keeps. *)
Definition kept (state : player) (p : period) : Prop := pl_Period state <= wrap64 (p + 1) \/ p <= 1.

Lemma round_update_kept state p q c : kept state q -> p = q \/ is_Some (rr_Children c !! q) ->
  is_Some (rr_Children (round_update state p c) !! q).
Proof.
  intros Hk Hq. cbn. assert (is_Some (ensureChild periodRouter_zero p (rr_Children c) !! q)) as [c' Hc'].
  { unfold ensureChild. destruct (rr_Children c !! p) eqn:E; [naive_solver|].
    destruct (decide (p = q)) as [<-|Hne]; [by rewrite lookup_insert_eq|]. rewrite lookup_insert_ne by done. naive_solver. }
  exists c'. by apply map_lookup_filter_Some.
Qed.

Lemma round_update_inv state p q c : is_Some (rr_Children (round_update state p c) !! q) -> kept state q.
Proof. intros [c' Hc']. cbn in Hc'. by apply map_lookup_filter_Some in Hc' as [_ ?]. Qed.

Lemma round_update_wf state p r c : round_wf r c -> round_wf r (round_update state p c).
Proof.
  intros [H1 H2 H3]. split; [done|done|]. intros q c'. cbn. rewrite map_lookup_filter_Some. intros [Hc' _].
  apply ensureChild_lookup in Hc' as [Hc'|(_ & -> & ->)]; [by apply H3|apply period_wf_zero].
Qed.

Lemma period_update_wf r p s c : period_wf r p c -> period_wf r p (period_update s c).
Proof.
  intros H s' c' Hc'. apply ensureChild_lookup in Hc' as [Hc'|(_ & -> & ->)]; [by apply (H s')|].
  apply tracker_wf_zero.
Qed.

(** ** Dispatching *)

Lemma runs_inStep {A} r p s (m : M stepRouter A) (Q : A -> Prop) c : period_wf r p c ->
  (forall c0, tracker_wf r p s (VoteTracker c0) -> runs m (fun a c1 => tracker_wf r p s (VoteTracker c1) /\ Q a) c0) ->
  runs (inStep s m) (fun a c' => period_wf r p c' /\ ProposalTracker c' = ProposalTracker c /\
    ProposalTrackerContract c' = ProposalTrackerContract c /\ VoteTrackerPeriod c' = VoteTrackerPeriod c /\ Q a) c.
Proof.
  intros Hc Hm. pose proof (period_update_wf r p s c Hc) as Hw. unfold runs, inStep in *.
  destruct (pr_Children (period_update s c) !! s) as [c0|] eqn:E; [|done]. specialize (Hm c0 (Hw s c0 E)).
  destruct (m c0) as [[a|e|] c1]; [|done..]. destruct Hm as [Hc1 HQ]. split_and!; [|done..].
  intros s' c'. cbn. destruct (decide (s = s')) as [<-|Hne].
  - rewrite lookup_insert_eq. by intros [= <-].
  - rewrite lookup_insert_ne by done. apply Hw.
Qed.

(** A computation on period [p] leaves the rest of the round alone. *)
Record aside (p : period) (c c' : roundRouter) : Prop := {
  as_store : ProposalStore c' = ProposalStore c;
  as_freshest : VoteTrackerRound c' = VoteTrackerRound c;
  as_staged q : q <> p -> is_Some (rr_Children c' !! q) -> staged_in c' q = staged_in c q }.

Lemma runs_inPeriod {A} state p s (m : M periodRouter A) r (Q : A -> periodRouter -> Prop) c : round_wf r c ->
  (forall c0, period_wf r p c0 -> pt_Staging (ProposalTracker c0) = staged_in c p ->
     runs m (fun a c1 => period_wf r p c1 /\ Q a c1) c0) ->
  runs (inPeriod state p s m) (fun a c' => round_wf r c' /\ aside p c c' /\ kept state p /\
    exists c1, rr_Children c' !! p = Some c1 /\ Q a c1) c.
Proof.
  intros Hc Hm. pose proof (round_update_wf state p r c Hc) as Hw. pose proof (round_update_updated state p c) as Hu.
  unfold runs, inPeriod in *. set (c2 := round_update state p c) in *. destruct (rr_Children c2 !! p) as [c0|] eqn:E; [|done].
  assert (period_wf r p (period_update s c0)) as Hw0 by (apply period_update_wf; by apply (rw_periods _ _ Hw)).
  specialize (Hm (period_update s c0) Hw0). destruct (m (period_update s c0)) as [[a|e|] c1].
  - destruct Hm as [Hc1 HQ].
    { rewrite <- (ud_staged _ _ Hu p) by by rewrite E. unfold staged_in. by rewrite E. }
    split_and!.
    + split; [apply Hw|apply Hw|]. intros q c'. cbn. destruct (decide (p = q)) as [<-|Hne].
      * rewrite lookup_insert_eq. by intros [= <-].
      * rewrite lookup_insert_ne by done. apply Hw.
    + split; [apply Hu|apply Hu|]. intros q Hq Hs. cbn in Hs. rewrite lookup_insert_ne in Hs by done.
      rewrite <- (ud_staged _ _ Hu q Hs). unfold staged_in. cbn. by rewrite lookup_insert_ne.
    + apply (round_update_inv state p p c). fold c2. by rewrite E.
    + exists c1. cbn. by rewrite lookup_insert_eq.
  - destruct Hm. rewrite <- (ud_staged _ _ Hu p) by by rewrite E. unfold staged_in. by rewrite E.
  - done.
Qed.

Lemma runs_atRound {A} state p (m : M roundRouter A) r (Q : A -> roundRouter -> Prop) c : round_wf r c ->
  (forall c0, round_wf r c0 -> updated c c0 -> (kept state p -> is_Some (rr_Children c0 !! p)) -> runs m Q c0) ->
  runs (atRound state p m) Q c.
Proof.
  intros Hc Hm. apply (Hm (round_update state p c)); [by apply round_update_wf|apply round_update_updated|].
  intros Hk. apply round_update_kept; auto.
Qed.

(** No round becomes fresh. *)
Definition no_fresher (router router' : rootRouter) : Prop :=
  forall r c', router' !! r = Some c' -> vtr_Ok (VoteTrackerRound c') = true ->
    exists c, router !! r = Some c /\ VoteTrackerRound c = VoteTrackerRound c'.

Lemma no_fresher_refl router : no_fresher router router.
Proof. intros r c'. eauto. Qed.
Lemma no_fresher_trans a b c : no_fresher a b -> no_fresher b c -> no_fresher a c.
Proof.
  intros Hab Hbc r c' Hc' Hok. destruct (Hbc r c' Hc' Hok) as (c1 & H1 & E1). rewrite <- E1 in Hok.
  destruct (Hab r c1 H1 Hok) as (c2 & H2 & E2). exists c2. by rewrite E2.
Qed.

Lemma root_update_lookup state r router r' c : root_update state r router !! r' = Some c ->
  pl_Round state <= r' /\ (router !! r' = Some c \/ (r' = r /\ c = roundRouter_zero)).
Proof.
  unfold root_update. rewrite map_lookup_filter_Some. intros [H Hr]. split; [done|].
  apply ensureChild_lookup in H as [H|(_ & -> & ->)]; auto.
Qed.

Lemma root_update_wf state r router : root_wf router -> root_wf (root_update state r router).
Proof. intros H r' c [_ [Hc|[-> ->]]]%root_update_lookup; [by apply H|apply round_wf_zero]. Qed.

Lemma root_update_no_fresher state r router : no_fresher router (root_update state r router).
Proof. intros r' c [_ [Hc|[-> ->]]]%root_update_lookup; [eauto|done]. Qed.

Definition roundOf (router : rootRouter) (r : Round) : roundRouter := default roundRouter_zero (router !! r).

Lemma roundOf_wf router r : root_wf router -> round_wf r (roundOf router r).
Proof. intros H. unfold roundOf. destruct (router !! r) eqn:E; [by apply H|apply round_wf_zero]. Qed.

Lemma root_update_roundOf state r router r' c : root_update state r router !! r' = Some c -> c = roundOf router r'.
Proof.
  unfold root_update. rewrite map_lookup_filter_Some. intros [H _]. unfold roundOf.
  by apply ensureChild_lookup in H as [->|(-> & -> & ->)].
Qed.

Lemma runs_withRound {A} state r (m : M roundRouter A) (Q : A -> roundRouter -> Prop) router : root_wf router ->
  runs m (fun a c' => round_wf r c' /\ Q a c') (roundOf router r) ->
  runs (withRound state r m) (fun a router' => root_wf router' /\ pl_Round state <= r /\
    (exists c', router' !! r = Some c' /\ Q a c') /\
    (forall q c', q <> r -> router' !! q = Some c' -> c' = roundOf router q)) router.
Proof.
  intros Hw Hm. pose proof (root_update_wf state r router Hw) as Hw'. unfold runs, withRound in *.
  destruct (root_update state r router !! r) as [c|] eqn:E; [|done].
  pose proof E as [Hr _]%root_update_lookup. apply root_update_roundOf in E as ->.
  destruct (m (roundOf router r)) as [[a|e|] c']; [|done..]. destruct Hm as [Hc' HQ]. split_and!; [|done| |].
  - intros q d. destruct (decide (r = q)) as [<-|Hne]; [rewrite lookup_insert_eq; by intros [= <-]|].
    rewrite lookup_insert_ne by done. apply Hw'.
  - exists c'. by rewrite lookup_insert_eq.
  - intros q d Hq. rewrite lookup_insert_ne by done. apply root_update_roundOf.
Qed.

(** ** Vote machines *)

Lemma vtp_voteAccepted_wf r p s v c : period_wf r p c -> vote_at r p s v ->
  runs (vtp_voteAccepted v (versionOf r)) (fun e c' => period_wf r p c' /\
    pt_Staging (ProposalTracker c') = pt_Staging (ProposalTracker c) /\ event_wf r e) c.
Proof.
  intros Hc Hv. assert (v_Step v = s) as Hs by apply Hv. unfold vtp_voteAccepted. apply runs_bind. rewrite Hs.
  eapply runs_mono; [apply (runs_inStep r p s _ (event_wf r)); [done|]|].
  { intros c0 Hc0. eapply runs_mono; [by apply checked_voteAccepted_wf|]. naive_solver. }
  cbn beta. intros e c' (Hc' & Ept & _ & _ & He). apply runs_bind. destruct (isThreshold e && (next <=? te_Step e)).
  - run_step. pose proof (period_update_wf r p 0 c' Hc') as Hw. destruct (te_T e); [by run_step..|].
    unfold vtp_nextThreshold. run_step. run_step. by rewrite <- Ept.
  - run_step. run_step. by rewrite <- Ept.
Qed.

Lemma fresherThan_not_Err e o err : fresherThan e o <> Err err.
Proof. unfold fresherThan. by repeat case_match. Qed.

Lemma vtr_threshold_wf r e c : round_wf r c -> event_wf r e -> isThreshold e = true ->
  runs (vtr_threshold e) (fun e' c' => round_wf r c' /\ event_wf r e' /\ ProposalStore c' = ProposalStore c /\
    rr_Children c' = rr_Children c) c.
Proof.
  intros Hc He Hthr. unfold vtr_threshold. run_step. apply runs_bind, runs_lift; [|intros err; apply fresherThan_not_Err].
  intros [] _; [|by run_step]. run_step. run_step. split_and!; [|done..]. split; [apply Hc|done|apply Hc].
Qed.

Lemma vtr_voteAccepted_wf state r p s v c : round_wf r c -> vote_at r p s v ->
  runs (vtr_voteAccepted state v (versionOf r)) (fun e c' => round_wf r c' /\ event_wf r e) c.
Proof.
  intros Hc Hv. assert (rv_Period (v_R v) = p) as Hp by apply Hv. unfold vtr_voteAccepted. apply runs_bind. rewrite Hp.
  eapply runs_mono; [apply (runs_inPeriod state p 0 _ r (fun e _ => event_wf r e)); [done|]|].
  { intros c0 Hc0 _. eapply runs_mono; [by eapply vtp_voteAccepted_wf|]. naive_solver. }
  cbn beta. intros e c1 (Hc1 & _ & _ & _ & _ & He). destruct (isThreshold e) eqn:Hthr; [|by run_step].
  apply (runs_atRound state 0 _ r); [done|]. intros c2 Hc2 _ _.
  eapply runs_mono; [by apply (vtr_threshold_wf r)|]. naive_solver.
Qed.

(** ** The proposal store *)

Definition payloads_wf (s : proposalStore) : Prop :=
  forall pv a pp, st_Assemblers s !! pv = Some a -> ba_Payload a = Some pp -> pp_value P pp = pv.

Lemma store_trim_lookup p s pv a : st_Assemblers (store_trim p s) !! pv = Some a ->
  pv <> bottom /\ a = assembler_trim p (assembler s pv).
Proof.
  unfold store_trim. set (kept := st_Pinned s :: _). change (st_Assemblers (_ <| st_Assemblers := ?m |>)) with m.
  rewrite lookup_delete_Some. intros [Hne H]. split; [done|].
  apply elem_of_list_to_map_2, list_elem_of_fmap in H as (pv' & [= -> ->] & _). done.
Qed.

Lemma assembler_payload s pv pp : payloads_wf s -> ba_Payload (assembler s pv) = Some pp -> pp_value P pp = pv.
Proof. intros Hs. unfold assembler. destruct (st_Assemblers s !! pv) eqn:E; [by eapply Hs|done]. Qed.

Lemma store_trim_wf p s : payloads_wf s -> store_wf (store_trim p s).
Proof.
  intros Hs. split.
  - destruct (st_Assemblers (store_trim p s) !! bottom) eqn:E; [|done]. by apply store_trim_lookup in E as [? _].
  - intros pv a pp [_ ->]%store_trim_lookup. by apply assembler_payload.
Qed.

Lemma setAssembler_payloads s pv a : payloads_wf s -> (forall pp, ba_Payload a = Some pp -> pp_value P pp = pv) ->
  payloads_wf (s <| st_Assemblers := <[pv := a]> (st_Assemblers s) |>).
Proof.
  intros Hs Ha pv' a' pp. cbn. destruct (decide (pv = pv')) as [<-|Hne].
  - rewrite lookup_insert_eq. intros [= <-]. apply Ha.
  - rewrite lookup_insert_ne by done. apply Hs.
Qed.

Lemma setAssembler_wf s pv a : store_wf s -> pv <> bottom -> (forall pp, ba_Payload a = Some pp -> pp_value P pp = pv) ->
  store_wf (s <| st_Assemblers := <[pv := a]> (st_Assemblers s) |>).
Proof. intros [H1 H2] Hne Ha. split; [cbn; by rewrite lookup_insert_ne|by apply setAssembler_payloads]. Qed.

Lemma round_wf_store r c st : round_wf r c -> store_wf st -> round_wf r (c <| ProposalStore := st |>).
Proof. intros [H1 H2 H3] Hst. by split. Qed.

(** What a machine of the round leaves: a well-formed round, no new threshold. *)
Definition keeps_round (r : Round) (c c' : roundRouter) : Prop :=
  round_wf r c' /\ VoteTrackerRound c' = VoteTrackerRound c.

Lemma checked_proposalVote_wf C r p v c : period_wf r p c ->
  runs (checked_proposalVote C v) (fun _ c' => period_wf r p c' /\ True) c.
Proof.
  intros Hc. unfold runs, checked_proposalVote. destruct (pt_voteVerified C v _) as [out t].
  destruct (ptc_post_voteVerified v out _) as [[] ct]; [|done]. split; [|done]. exact Hc.
Qed.

Lemma store_voteVerified_wf C state r v c : round_wf r c ->
  runs (store_voteVerified C state v) (fun _ c' => keeps_round r c c') c.
Proof.
  intros Hc. unfold store_voteVerified. apply runs_bind.
  eapply runs_mono; [apply (runs_inPeriod state _ 0 _ r (fun _ _ => True)); [done|]|].
  { intros c0 Hc0 _. by apply checked_proposalVote_wf. }
  cbn beta. intros out c1 (Hc1 & Ha & _ & _). destruct out as [pv|e]; [|run_step; split; [done|apply Ha]].
  run_step. run_step. run_step. run_step. split; [|apply Ha]. cbn.
  apply (round_wf_store r c1); [done|]. apply store_trim_wf.
  pose proof (proj2 (rw_store _ _ Hc1)) as Hp. apply (setAssembler_payloads (ProposalStore c1) pv); [done|].
  intros pp. cbn. by apply assembler_payload.
Qed.

Lemma pipeline_payload up a a' : pipeline up a = Ok a' -> ba_Payload a' = ba_Payload a.
Proof. unfold pipeline. intros H. okinv H. by subst. Qed.

Lemma store_key_bottom s pv a : store_wf s -> st_Assemblers s !! pv = Some a -> pv <> bottom.
Proof. intros [Hb _] H ->. by rewrite Hb in H. Qed.

Lemma store_payloadPresent_wf state r up c : round_wf r c ->
  runs (store_payloadPresent P state up) (fun o c' => keeps_round r c c' /\
    match o with payloadAccepted _ _ | proposalCommittable _ => False | _ => True end) c.
Proof.
  intros Hc. unfold store_payloadPresent. run_step. destruct (st_Assemblers _ !! value P up) as [ea|] eqn:E; [|by run_step].
  destruct (pipeline up ea) as [ea'|err|] eqn:Ep; [|by run_step|by run_step].
  unfold setAssembler. run_step. destruct (lastRelevant _ _). run_step. split; [split; [|done]|done].
  apply (round_wf_store r c); [done|]. apply setAssembler_wf; [apply Hc|by eapply store_key_bottom; [apply Hc|]|].
  intros pp. rewrite (pipeline_payload up ea ea' Ep). by apply (rw_store _ _ Hc).
Qed.

(** Reading a staged value. *)
Definition has_period (c : roundRouter) (p : period) : Prop := is_Some (rr_Children c !! p).

Lemma store_readStaging_wf state r p c : round_wf r c ->
  runs (store_readStaging state p) (fun a c' => keeps_round r c c' /\ ProposalStore c' = ProposalStore c /\
    sv_Proposal a = staged_in c p /\ sv_Payload a = ba_Payload (assembler (ProposalStore c) (sv_Proposal a)) /\
    kept state p /\ has_period c' p /\ staged_in c' p = staged_in c p) c.
Proof.
  intros Hc. unfold store_readStaging. apply runs_bind.
  eapply runs_mono.
  { apply (runs_inPeriod state p 0 _ r (fun pv c1 => pv = staged_in c p /\ pt_Staging (ProposalTracker c1) = staged_in c p) c Hc).
    intros c0 Hc0 Hst. by run_step. }
  cbn beta. intros pv c1 (Hc1 & Ha & Hkp & c2 & Hc2 & -> & Hst). run_step. run_step. cbn.
  split; [split; [done|apply Ha]|]. rewrite (as_store _ _ _ Ha). split_and!; [done..| |].
  - unfold has_period. by rewrite Hc2.
  - unfold staged_in at 1. by rewrite Hc2.
Qed.

Lemma staged_here_wf state r p c : round_wf r c ->
  runs (staged_here state p) (fun a c' => keeps_round r c c' /\ ProposalStore c' = ProposalStore c /\
    has_period c' p /\ staged_in c' p = sv_Proposal a) c.
Proof.
  intros Hc. apply (runs_atRound state p _ r); [done|]. intros c0 Hc0 Hu _.
  eapply runs_mono; [by apply store_readStaging_wf|]. cbn beta. intros a c' ([Hw Hv] & Hst & Ha & _ & _ & Hp & Hst').
  unfold keeps_round. rewrite Hv, Hst, (ud_store _ _ Hu), (ud_freshest _ _ Hu). naive_solver congruence.
Qed.

(** The payload of a value is here. *)
Definition holds_payload (c : roundRouter) (pv : proposalValue) : Prop :=
  is_Some (ba_Payload (assembler (ProposalStore c) pv)).

(** The value a cert vote is issued for: staged in its period, with its payload. *)
Definition certifiable (c : roundRouter) (p : period) (pv : proposalValue) : Prop :=
  pv <> bottom /\ has_period c p /\ staged_in c p = pv /\ holds_payload c pv.

Lemma bind_payload pp a a' : assembler_bind pp a = Ok a' -> ba_Payload a' = Some pp.
Proof. unfold assembler_bind. intros H. okinv H. by subst. Qed.

Lemma store_payloadVerified_wf state r pp c : round_wf r c ->
  runs (store_payloadVerified P state pp) (fun o c' => keeps_round r c c' /\
    match o with
    | proposalCommittable ec => ce_Proposal ec = pp_value P pp /\ certifiable c' (pl_Period state) (pp_value P pp)
    | _ => True
    end) c.
Proof.
  intros Hc. unfold store_payloadVerified. run_step. destruct (st_Assemblers _ !! pp_value P pp) as [ea|] eqn:E; [|by run_step].
  destruct (assembler_bind pp ea) as [ea'|err|] eqn:Ep; [|by run_step|by run_step].
  apply bind_payload in Ep. unfold setAssembler. run_step. apply runs_bind.
  assert (pp_value P pp <> bottom) as Hnb by (eapply store_key_bottom; [apply Hc|done]).
  eapply runs_mono; [apply staged_here_wf; apply (round_wf_store r c); [done|]|].
  { apply setAssembler_wf; [apply Hc|done|]. intros pp'. rewrite Ep. by intros [= <-]. }
  cbn beta. intros a c' ([Hw Hv] & Hst & Hp & Hsv). cbn in Hst, Hv. case_bool_decide as Hs; run_step; (split; [by split|]).
  - split; [done|]. unfold certifiable. split_and!; [done|done|congruence|]. unfold holds_payload, assembler. rewrite Hst. cbn.
    rewrite lookup_insert_eq. cbn. by rewrite Ep.
  - done.
Qed.

Lemma store_newPeriod_wf state r target starting c : round_wf r c ->
  runs (store_newPeriod state target starting) (fun _ c' => keeps_round r c c') c.
Proof.
  intros Hc. unfold store_newPeriod. apply runs_bind. eapply runs_mono; [by apply staged_here_wf|].
  cbn beta. intros a c' ([Hw Hv] & Hst & _). run_step. unfold trimStore. run_step. split; [|done].
  apply (round_wf_store r c'); [done|]. apply store_trim_wf. intros pv ea pp. cbn. apply (rw_store _ _ Hw).
Qed.

Lemma store_newRound_wf state r c : round_wf r c ->
  runs (store_newRound state) (fun _ c' => keeps_round r c c') c.
Proof.
  intros Hc. unfold store_newRound. run_step. destruct (map_to_list _) as [|[pv ea] [|]]; [by run_step| |by run_step].
  destruct (ba_Pipeline ea); [|by run_step]. destruct (lastRelevant _ _). by run_step.
Qed.

Lemma checked_threshold_wf r p e c : period_wf r p c ->
  runs (checked_threshold e) (fun pv c' => period_wf r p c' /\ pv = te_Proposal e /\
    pt_Staging (ProposalTracker c') = te_Proposal e) c.
Proof.
  intros Hc. unfold runs, checked_threshold. destruct (te_T e); cbn; try done. by destruct (negb _).
Qed.

Lemma store_threshold_wf state r e c : round_wf r c ->
  runs (store_threshold state e) (fun o c' => keeps_round r c c' /\ has_period c' (te_Period e) /\
    staged_in c' (te_Period e) = te_Proposal e /\
    match o with
    | stagedCommittable ec => ce_Proposal ec = te_Proposal e /\ certifiable c' (te_Period e) (te_Proposal e)
    | stagedAccepted _ => True
    end) c.
Proof.
  intros Hc. unfold store_threshold. apply runs_bind. eapply runs_mono.
  { apply (runs_inPeriod state (te_Period e) 0 _ r
             (fun pv c1 => pv = te_Proposal e /\ pt_Staging (ProposalTracker c1) = te_Proposal e) c Hc).
    intros c0 Hc0 _. by apply checked_threshold_wf. }
  cbn beta. intros pv c1 (Hc1 & Ha & _ & c2 & Hc2 & -> & Hst). run_step.
  assert (has_period c1 (te_Period e)) as Hhp by (unfold has_period; by rewrite Hc2).
  assert (staged_in c1 (te_Period e) = te_Proposal e) as Hsi by (unfold staged_in; by rewrite Hc2).
  destruct (ba_Assembled _) eqn:Eb.
  - run_step. split; [split; [done|apply Ha]|]. split; [done|]. split; [done|]. split; [done|].
    apply bool_decide_eq_true in Eb. unfold certifiable. split_and!; [|done..]. intros Hb. rewrite Hb in Eb. unfold assembler in Eb.
    rewrite (proj1 (rw_store _ _ Hc1)) in Eb. by destruct Eb.
  - unfold setAssembler, setRelevant, trimStore. run_step. run_step. run_step. run_step.
    split; [split; [|apply Ha]|done]. apply (round_wf_store r c1); [done|]. apply store_trim_wf.
    pose proof (proj2 (rw_store _ _ Hc1)) as Hpw. apply (setAssembler_payloads (ProposalStore c1)); [done|].
    intros pp. by apply assembler_payload.
Qed.
End wf.
