(* ===== verification/AgOrder.v ===== *)
(** The orders the agreement protocol decides by, and the seeds of proposals.

    [fresherThan] is the order of a rank and a round keeps a threshold of the
    highest one; the seeker of a period keeps a vote of the lowest credential and
    is final once frozen; the ranges of the next votes tile the time after the
    deadline; a proposal a node makes passes the verification of its seed. *)
From S2P Require Import Prelude Config Basics Transactions Bookkeeping AgVote AgTracker AgSafety AgProposal AgRouter.
#[local] Open Scope string_scope.
#[local] Open Scope list_scope.
#[local] Open Scope Z_scope.

(** ** Thresholds *)

(** What the comment of [fresherThan] says, as a number: certificates first, then
    later periods, then next over soft, then bottom over other values. *)
Definition rank (e : thresholdEvent) : Z :=
  match te_T e with
  | noThreshold => -1
  | softThreshold => 3 * te_Period e
  | nextThreshold => 3 * te_Period e + (if bool_decide (te_Proposal e = bottom) then 2 else 1)
  | certThreshold => 3 * two64
  end.

(** A threshold of a round. *)
Definition threshold_of (r : Round) (e : thresholdEvent) : Prop :=
  isThreshold e = true /\ te_Round e = r /\ is_u64 (te_Period e).

Lemma fresherThan_rank r e o : threshold_of r e -> threshold_of r o -> fresherThan e o = Ok (rank o <? rank e).
Proof.
  intros (He & Hr & Hp) (Ho & Hr' & Hp'). unfold fresherThan, rank, isThreshold, is_u64 in *. rewrite Hr, Hr', Z.eqb_refl. cbn [negb].
  destruct (te_T e), (te_T o); try done; repeat case_bool_decide; cbn [andb negb];
    repeat match goal with |- context [?a <? ?b] => destruct (Z.ltb_spec a b) end; (done || lia).
Qed.

Lemma fresherThan_zero e : isThreshold e = true -> fresherThan e thresholdEvent_zero = Ok true.
Proof. unfold fresherThan, isThreshold. by destruct (te_T e). Qed.

(** The thresholds of a round, offered one after the other. *)
Fixpoint offer_all (ts : list thresholdEvent) : M roundRouter (list thresholdEvent) :=
  match ts with
  | [] => mret []
  | t :: ts => o ← vtr_threshold t; os ← offer_all ts; mret (o :: os)
  end.

(** The thresholds that beat all before them. *)
Fixpoint records (best : Z) (ts : list thresholdEvent) : list thresholdEvent :=
  match ts with
  | [] => []
  | t :: ts => if best <? rank t then t :: records (rank t) ts else thresholdEvent_zero :: records best ts
  end.

Lemma rank_nonneg r e : threshold_of r e -> 0 <= rank e.
Proof. intros (He & _ & Hp). unfold rank, isThreshold, is_u64, two64 in *. destruct (te_T e); try done; clear He; [lia|case_bool_decide; lia]. Qed.

Lemma vtr_threshold_spec r t c : threshold_of r t ->
  (vtr_Freshest (VoteTrackerRound c) = thresholdEvent_zero \/ threshold_of r (vtr_Freshest (VoteTrackerRound c))) ->
  vtr_threshold t c =
    if rank (vtr_Freshest (VoteTrackerRound c)) <? rank t
    then (Ok t, c <| VoteTrackerRound := mkVoteTrackerRound t true |>)
    else (Ok thresholdEvent_zero, c).
Proof.
  intros Ht Hc. unfold vtr_threshold, mbind, M_bind, gets, lift. destruct Hc as [Hz|Hc].
  - rewrite Hz, fresherThan_zero by apply Ht. pose proof (rank_nonneg r t Ht).
    destruct (Z.ltb_spec (rank thresholdEvent_zero) (rank t)) as [_|Hle]; [done|]. change (rank thresholdEvent_zero) with (-1) in Hle. lia.
  - rewrite (fresherThan_rank r) by done. by destruct (_ <? _).
Qed.

Lemma offer_all_spec r ts c : Forall (threshold_of r) ts ->
  (vtr_Freshest (VoteTrackerRound c) = thresholdEvent_zero \/ threshold_of r (vtr_Freshest (VoteTrackerRound c))) ->
  exists c', offer_all ts c = (Ok (records (rank (vtr_Freshest (VoteTrackerRound c))) ts), c') /\
    rank (vtr_Freshest (VoteTrackerRound c)) <= rank (vtr_Freshest (VoteTrackerRound c')) /\
    (forall t, t ∈ ts -> rank t <= rank (vtr_Freshest (VoteTrackerRound c'))) /\
    (vtr_Freshest (VoteTrackerRound c') = vtr_Freshest (VoteTrackerRound c) \/ vtr_Freshest (VoteTrackerRound c') ∈ ts).
Proof.
  intros Hts. revert c. induction Hts as [|t ts Ht _ IH]; intros c Hc; cbn [offer_all records].
  { exists c. split; [done|]. split; [done|]. split; [set_solver|by left]. }
  unfold mbind, M_bind. rewrite (vtr_threshold_spec r) by done.
  destruct (Z.ltb_spec (rank (vtr_Freshest (VoteTrackerRound c))) (rank t)).
  - destruct (IH (c <| VoteTrackerRound := mkVoteTrackerRound t true |>)) as (c' & -> & H1 & H2 & H3); [by right|]. cbn in *.
    exists c'. split; [done|]. split; [lia|]. split; [|set_solver]. intros u [->|Hu]%elem_of_cons; [done|by apply H2].
  - destruct (IH c Hc) as (c' & -> & H1 & H2 & H3). exists c'. split; [done|]. split; [done|]. split; [|set_solver].
    intros u [->|Hu]%elem_of_cons; [lia|by apply H2].
Qed.

(** The freshest threshold of a round refines a maximum by rank:
    after any thresholds of the round, in any order, it is one of them and of the
    highest rank, and a threshold was reported when it arrived exactly if its rank
    exceeded all before it. *)
Theorem freshest_is_maximal r ts : ts <> [] -> Forall (threshold_of r) ts ->
  exists c', offer_all ts roundRouter_zero = (Ok (records (-1) ts), c') /\
    vtr_Freshest (VoteTrackerRound c') ∈ ts /\
    forall t, t ∈ ts -> rank t <= rank (vtr_Freshest (VoteTrackerRound c')).
Proof.
  intros Hne Hts. destruct (offer_all_spec r ts roundRouter_zero Hts) as (c' & E & _ & H2 & H3); [by left|].
  exists c'. split; [exact E|]. split; [|exact H2]. destruct H3 as [Hz|?]; [|done]. destruct ts as [|t ts]; [done|].
  specialize (H2 t ltac:(set_solver)). apply Forall_cons in Hts as [Ht _]. pose proof (rank_nonneg r t Ht) as Hn.
  rewrite Hz in H2. change (rank (vtr_Freshest (VoteTrackerRound roundRouter_zero))) with (-1) in H2. lia.
Qed.

Definition ex_threshold (k : thresholdType) (p : period) (v : proposalValue) : thresholdEvent :=
  mkThresholdEvent k 10 p 0 v unauthenticatedBundle_zero "future".

Definition ex_offers : list thresholdEvent :=
  [ex_threshold softThreshold 1 ex_p; ex_threshold softThreshold 0 ex_p; ex_threshold nextThreshold 1 ex_p;
   ex_threshold nextThreshold 1 bottom; ex_threshold nextThreshold 1 ex_q].

Lemma freshest_is_maximal_witness :
  map isThreshold (records (-1) ex_offers) = [true; false; true; true; false] /\
  exists c', offer_all ex_offers roundRouter_zero = (Ok (records (-1) ex_offers), c') /\
    forall t, t ∈ ex_offers -> rank t <= rank (vtr_Freshest (VoteTrackerRound c')).
Proof.
  split; [vm_compute; reflexivity|].
  destruct (freshest_is_maximal 10 ex_offers) as (c' & H1 & _ & H2); [discriminate|by repeat constructor|].
  exists c'. split; [exact H1|exact H2].
Defined.

(** ** The lowest credential *)

Section seeker.
  Context (C : VoteCrypto).

(** The proposal-votes of a period, verified one after the other. *)
Definition accept_votes (vs : list vote) (t : proposalTracker) : proposalTracker :=
  fold_left (fun t v => (pt_voteVerified C v t).2) vs t.

Definition output (v : vote) : Z := lowestOutput C (v_Cred v).

(** The seeker after [vs]: its vote is one of them, none has a lower credential. *)
Definition seeks (vs : list vote) (t : proposalTracker) : Prop :=
  pt_Staging t = bottom /\ ps_Frozen (pt_Freezer t) = false /\ pt_Duplicate t = list_to_set (map v_Sender vs) /\
  (ps_Filled (pt_Freezer t) = false <-> vs = []) /\
  (vs <> [] -> ps_Lowest (pt_Freezer t) ∈ vs /\ forall v, v ∈ vs -> output (ps_Lowest (pt_Freezer t)) <= output v).

Lemma voteVerified_seeks vs t v : seeks vs t -> v_Sender v ∉ map v_Sender vs ->
  seeks (vs ++ [v]) (pt_voteVerified C v t).2.
Proof.
  intros (Hst & Hfr & Hd & Hf & Hl) Hv. unfold pt_voteVerified. rewrite bool_decide_eq_false_2.
  2: { rewrite Hd, elem_of_list_to_set. exact Hv. }
  cbn. case_bool_decide as Hs; [|done]. cbn [negb]. unfold seeker_accept. rewrite Hfr.
  assert ({[v_Sender v]} ∪ pt_Duplicate t = list_to_set (map v_Sender (vs ++ [v]))) as Hd'.
  { rewrite Hd, map_app, list_to_set_app_L. cbn. set_solver. }
  assert (vs ++ [v] <> []) as Hne by by destruct vs.
  destruct (ps_Filled (pt_Freezer t)) eqn:Ef; cbn [andb].
  - assert (vs <> []) as Hvs by (intros E; apply Hf in E; congruence). destruct (Hl Hvs) as [H1 H2].
    unfold Less. fold (output v) (output (ps_Lowest (pt_Freezer t))).
    destruct (Z.ltb_spec (output v) (output (ps_Lowest (pt_Freezer t)))); cbn [negb].
    + split_and!; [done..| |]; cbn; [done|]. intros _. split; [set_solver|]. intros u [Hu| ->%list_elem_of_singleton]%elem_of_app; [|done].
      specialize (H2 u Hu). lia.
    + split_and!; [done..| |]; cbn; [by rewrite Ef|]. intros _. split; [set_solver|].
      intros u [Hu| ->%list_elem_of_singleton]%elem_of_app; [by apply H2|done].
  - assert (vs = []) as -> by by apply Hf. split_and!; [done..| |]; cbn; [done|]. intros _. split; [set_solver|].
    by intros u ->%list_elem_of_singleton.
Qed.

Lemma accept_votes_seeks vs : NoDup (map v_Sender vs) -> seeks vs (accept_votes vs proposalTracker_zero).
Proof.
  induction vs as [|v vs IH] using rev_ind; intros Hnd; [done|].
  rewrite map_app in Hnd. apply NoDup_app in Hnd as (Hnd & Hv & _). unfold accept_votes. rewrite fold_left_app.
  apply voteVerified_seeks; [by apply IH|]. intros Hin. apply (Hv (v_Sender v) Hin). cbn. set_solver.
Qed.

Lemma accept_votes_frozen vs t : ps_Frozen (pt_Freezer t) = true -> pt_Freezer (accept_votes vs t) = pt_Freezer t.
Proof.
  revert t. induction vs as [|v vs IH]; intros t Hf; [done|]. cbn [accept_votes fold_left].
  assert (pt_Freezer (pt_voteVerified C v t).2 = pt_Freezer t) as E.
  { unfold pt_voteVerified. case_bool_decide; [done|]. cbn. case_bool_decide; [|done]. unfold seeker_accept. by rewrite Hf. }
  change (pt_Freezer (accept_votes vs (pt_voteVerified C v t).2) = pt_Freezer t). rewrite IH; by rewrite E.
Qed.

(** The value a period freezes is that of a proposal-vote with the
    lowest credential among the votes of distinct senders seen so far, whatever
    their order; votes that come after the freeze do not change it. *)
Theorem frozen_is_lowest vs late_votes : vs <> [] -> NoDup (map v_Sender vs) ->
  let '(pv, t) := pt_proposalFrozen (accept_votes vs proposalTracker_zero) in
  exists v, v ∈ vs /\ v_Proposal v = pv /\ (forall u, u ∈ vs -> lowestOutput C (v_Cred v) <= lowestOutput C (v_Cred u)) /\
    (pt_proposalFrozen (accept_votes late_votes t)).1 = pv.
Proof.
  intros Hne Hnd. destruct (accept_votes_seeks vs Hnd) as (_ & _ & _ & _ & Hl). destruct (Hl Hne) as [H1 H2].
  exists (ps_Lowest (pt_Freezer (accept_votes vs proposalTracker_zero))). split_and!; [done..|].
  unfold pt_proposalFrozen at 1. cbn [fst]. by rewrite accept_votes_frozen.
Qed.
End seeker.

(** Three proposers, whose hashes are their addresses. *)
Definition ex_lottery : VoteCrypto :=
  mkVoteCrypto (fun _ _ _ _ _ => true) (fun _ _ _ => (true, 0)) hc_Member (fun _ a => a) (fun _ _ => 0) (fun _ _ _ _ => 1).
Definition ex_proposer (a : Address) : vote :=
  mkVote (mkRawVote a 10 0 propose (mkProposalValue 0 a 11 12)) (mkCredential 2 7 true (mkHashableCredential 0 a 0) 0) 0.

Lemma frozen_is_lowest_witness :
  (pt_proposalFrozen (accept_votes ex_lottery [ex_proposer 5; ex_proposer 3; ex_proposer 4] proposalTracker_zero)).1 =
    mkProposalValue 0 3 11 12 /\
  let '(pv, t) := pt_proposalFrozen (accept_votes ex_lottery [ex_proposer 5; ex_proposer 3; ex_proposer 4] proposalTracker_zero) in
  (pt_proposalFrozen (accept_votes ex_lottery [ex_proposer 1] t)).1 = pv.
Proof.
  split; [vm_compute; reflexivity|].
  destruct (frozen_is_lowest ex_lottery [ex_proposer 5; ex_proposer 3; ex_proposer 4] [ex_proposer 1]) as (v & _ & _ & _ & H).
  - discriminate.
  - repeat (constructor; [cbn; set_solver|]). constructor.
  - exact H.
Defined.

(** ** The ranges of the next votes *)

Definition rangeStart (n : Z) : Z := deadlineTimeout + recoveryExtraTimeout * (2 ^ n - 1).

Lemma ranges_checked : forallb (fun n : nat => bool_decide (nextVoteRanges (next + Z.of_nat n) = (rangeStart (Z.of_nat n), rangeStart (Z.of_nat n + 1))))
  (seq 0 32) = true.
Proof. by vm_compute. Qed.

Lemma ranges_empty : forallb (fun n : nat => wrap64 ((nextVoteRanges (next + Z.of_nat n)).2 - (nextVoteRanges (next + Z.of_nat n)).1) =? 0)
  (seq 54 196) = true.
Proof. by vm_compute. Qed.

(** The intervals in which the next votes are cast tile the time after
    the deadline: that of the step [n] after [next] starts where the one before it
    ends and is twice as long, exactly and without overflow for the first 32
    steps; on 64 bits the intervals of all steps from the 54th on are empty. *)
Theorem nextVoteRanges_tile n :
  (0 <= n < 32 -> nextVoteRanges (next + n) = (rangeStart n, rangeStart (n + 1)) /\ rangeStart (n + 1) < 9223372036854775808) /\
  (54 <= n < 250 -> wrap64 ((nextVoteRanges (next + n)).2 - (nextVoteRanges (next + n)).1) = 0).
Proof.
  split; intros Hn; replace n with (Z.of_nat (Z.to_nat n)) by lia.
  - pose proof ranges_checked as H. rewrite forallb_forall in H. specialize (H (Z.to_nat n)). split.
    + eapply bool_decide_eq_true_1, H, in_seq. lia.
    + unfold rangeStart, recoveryExtraTimeout, deadlineTimeout, SmallLambda, BigLambda.
      pose proof (Z.pow_le_mono_r 2 (Z.of_nat (Z.to_nat n) + 1) 32 ltac:(lia) ltac:(lia)). change (2 ^ 32) with 4294967296 in *. lia.
  - pose proof ranges_empty as H. rewrite forallb_forall in H. specialize (H (Z.to_nat n)). apply Z.eqb_eq, H, in_seq. lia.
Qed.

(** ** The seed of a proposal *)

Section seed.
  Context (P : ProposalCrypto) (l : LedgerReader) (address : Address) (vrf : Z).

(** A proof made with the secrets of the proposer verifies under the selection key
    its balance record has. *)
Definition key_registered (rnd : Round) : Prop :=
  forall cparams, lr_ConsensusParams l (ParamsRound rnd) = Ok cparams ->
  exists rec, lr_LookupAgreement l (balanceRound rnd cparams) address = Ok rec /\
    forall seed proof, pc_Prove P vrf seed = Some proof -> pc_VerifySeed P (oad_SelectionID rec) proof seed = true.

Lemma derived_seed_verifies rnd p seed proof b : key_registered rnd -> deriveNewSeed P address vrf rnd p l = Ok (seed, proof) ->
  bh_Round (blk_Header b) = rnd -> bh_Seed (blk_Header b) = seed ->
  verifyNewSeed P (mkUnauthenticatedProposal b proof p address) l = Ok tt.
Proof.
  intros Hkey H Hr Hs. unfold deriveNewSeed in H. okinv H. apply wrapErr_Ok in Ho. destruct (Hkey a Ho) as (rec & Hrec & Hvrf).
  unfold verifyNewSeed, up_Round. cbn [up_Block up_OriginalPeriod up_SeedProof up_OriginalProposer]. rewrite Hr, Ho. cbn [wrapErr mbind outcome_bind].
  rewrite Hrec. cbn [wrapErr mbind outcome_bind]. rewrite Ho0. cbn [mbind outcome_bind].
  apply outcome_bind_Ok. exists z. split.
  - destruct (p =? 0); [|naive_solver]. destruct (pc_Prove P vrf a0) as [pr|] eqn:Ep; [|done].
    destruct (pc_ProofHash P pr) as [out|] eqn:Eh; [|done]. injection Ho1 as <- <-. subst proof.
    rewrite (Hvrf _ _ Ep). cbn [negb]. by rewrite Eh.
  - rewrite Ho2. cbn [mbind outcome_bind]. by rewrite Hs, <- H, Z.eqb_refl.
Qed.

(** A node accepts its own proposals: what [proposalForBlock] makes
    of a block names the value of its payload, and [validate] accepts it in its
    round whenever the block validator accepts the block with its seed. *)
Theorem own_proposal_validates ve p pp pv Validate : key_registered (bh_Round (blk_Header ve)) ->
  proposalForBlock P address vrf ve p l = Ok (pp, pv) ->
  Validate (up_Block (pp_u pp)) = Ok (up_Block (pp_u pp)) ->
  pv = pp_value P pp /\ validate P (bh_Round (blk_Header ve)) l Validate (pp_u pp) = Ok pp.
Proof.
  intros Hkey H HV. unfold proposalForBlock in H. okinv H. apply wrapErr_Ok in Ho. subst pp pv. split; [done|].
  unfold validate. change (up_Round (pp_u _)) with (bh_Round (blk_Header ve)). rewrite Z.eqb_refl.
  cbn [negb failIf mbind outcome_bind pp_u makeProposal].
  rewrite (derived_seed_verifies _ _ _ _ (WithSeed ve z) Hkey Ho) by done. cbn [wrapErr mbind outcome_bind].
  cbn [up_Block pp_u makeProposal] in HV |- *. by rewrite HV.
Qed.
End seed.

(** A VRF whose proofs are sums, and a ledger with one proposer. *)
Definition ex_vrf : ProposalCrypto :=
  mkProposalCrypto (fun h => bh_Seed h) (fun p => up_SeedProof p) (fun a o => a + o) (fun s => s) (fun a h => a + h)
    (fun p => Some p) (fun key p seed => p =? key + seed) (fun key seed => Some (key + seed)).
Definition ex_proposed_block : Block :=
  mkBlock (mkBlockHeader 10 0 0 0 0 "novanet" 77 (mkRewardsState 1 2 0 0 0 500000)
             (mkUpgradeState "future" "" 0 0 0) emptyVote 0 ∅ []) [].

Lemma ex_key_registered : key_registered ex_vrf ex_ledger 1 1 10.
Proof.
  intros cparams _. eexists. split; [reflexivity|]. intros seed proof [= <-]. cbn. by rewrite Z.eqb_refl.
Qed.

Lemma own_proposal_validates_witness : exists pp pv,
  proposalForBlock ex_vrf 1 1 ex_proposed_block 0 ex_ledger = Ok (pp, pv) /\
  validate ex_vrf 10 ex_ledger Ok (pp_u pp) = Ok pp.
Proof.
  assert (isOk (proposalForBlock ex_vrf 1 1 ex_proposed_block 0 ex_ledger) = true) as H by (vm_compute; reflexivity).
  destruct (proposalForBlock ex_vrf 1 1 ex_proposed_block 0 ex_ledger) as [[pp pv]| |] eqn:E; [|discriminate H..].
  exists pp, pv. split; [reflexivity|].
  exact (proj2 (own_proposal_validates ex_vrf ex_ledger 1 1 ex_proposed_block 0 pp pv Ok ex_key_registered E eq_refl)).
Defined.
