(* ===== verification/AgPlayer.v ===== *)
(** [src/agreement/voteAggregator.go], [proposalManager.go] with its contract,
    [actions.go] and [player.go]: the top of the agreement state machine.

    The player consumes one event at a time, asks the machines below, changes its
    round, period and step, and emits actions.  Entering a round handles a
    threshold that was pipelined for it, which may enter the next round; the
    recursion carries fuel, and running out of it is the only error the handlers
    return. *)
From S2P Require Import Prelude Config Basics Transactions Bookkeeping AgVote AgTracker AgProposal AgRouter.
#[local] Open Scope string_scope.
#[local] Open Scope list_scope.
#[local] Open Scope Z_scope.

(** ** Freshness (voteAggregator.go, proposalManager.go, events.go) *)

Record freshnessData : Type := mkFreshnessData {
  fd_PlayerRound : Round; fd_PlayerPeriod : period; fd_PlayerStep : step; fd_PlayerLastConcluding : step }.

Definition freshness_of (p : player) : freshnessData :=
  mkFreshnessData (pl_Round p) (pl_Period p) (pl_Step p) (pl_LastConcluding p).

Definition voteStepFresh (mine vote : step) : outcome unit :=
  if vote <=? next then Ok tt
  else if late <=? vote then Ok tt
  else
    _ ← failIf (negb (mine =? 0) && (vote <? wrap64 (mine - 1))) (Errorf "filtered stale vote");
    failIf (wrap64 (mine + 1) <? vote) (Errorf "filtered premature vote").

Definition voteFresh (fd : freshnessData) (rv : rawVote) : outcome unit :=
  let nextRound := wrap64 (fd_PlayerRound fd + 1) in
  _ ← failIf (negb (fd_PlayerRound fd =? rv_Round rv) && negb (nextRound =? rv_Round rv))
        (Errorf "filtered vote from bad round");
  if nextRound =? rv_Round rv then
    _ ← failIf (0 <? rv_Period rv) (Errorf "filtered future vote from bad period");
    voteStepFresh 0 (rv_Step rv)
  else
    let p := fd_PlayerPeriod fd in
    let badPeriod := Err (Errorf "filtered vote from bad period") in
    if rv_Period rv =? wrap64 (p - 1) then
      if negb (p =? 0) then voteStepFresh (fd_PlayerLastConcluding fd) (rv_Step rv) else badPeriod
    else if rv_Period rv =? p then voteStepFresh (fd_PlayerStep fd) (rv_Step rv)
    else if rv_Period rv =? wrap64 (p + 1) then voteStepFresh soft (rv_Step rv)
    else badPeriod.

Definition bundleFresh (fd : freshnessData) (b : unauthenticatedBundle) : outcome unit :=
  _ ← failIf (negb (fd_PlayerRound fd =? ub_Round b)) (Errorf "filtered bundle from different round");
  if ub_Step b =? cert then Ok tt
  else failIf (negb (fd_PlayerPeriod fd =? 0) && (ub_Period b <? wrap64 (fd_PlayerPeriod fd - 1)))
         (Errorf "filtered stale bundle").

Definition proposalFresh (fd : freshnessData) (rv : rawVote) : outcome unit :=
  if rv_Round rv =? fd_PlayerRound fd then
    _ ← failIf (negb (fd_PlayerPeriod fd =? 0) && (rv_Period rv <? wrap64 (fd_PlayerPeriod fd - 1)))
          (Errorf "filtered stale proposal");
    failIf (wrap64 (fd_PlayerPeriod fd + 1) <? rv_Period rv) (Errorf "filtered premature proposal")
  else if rv_Round rv =? wrap64 (fd_PlayerRound fd + 1) then
    failIf (negb (rv_Period rv =? 0)) (Errorf "filtered premature proposal from next round")
  else Err (Errorf "filtered proposal from bad round").

(** ** The vote aggregator (voteAggregator.go) *)

Inductive aggregatorResult : Type :=
| aggNone
| aggFiltered (e : error)
| aggMalformed (e : error)
| aggThreshold (e : thresholdEvent).

Definition orNil (e : option error) : error := default (Errorf "") e.

Section machine.
  Context (C : VoteCrypto) (P : ProposalCrypto).

Definition filterVote (state : player) (fd : freshnessData) (rv : rawVote) : M rootRouter (option error) :=
  match voteFresh fd rv with
  | Err _ => mret (Some (Errorf "voteAggregator: rejected vote due to age"))
  | Panic => lift Panic
  | Ok _ =>
      dup ← withRound state (rv_Round rv) (inPeriod state (rv_Period rv) (rv_Step rv) (inStep (rv_Step rv)
              (gets (fun router => handle_voteFilterRequest rv (VoteTracker router)))));
      mret (if (dup : bool) then Some (Errorf "voteAggregator: rejected vote: sender had already sent a vote") else None)
  end.

Definition deliverVote (state : player) (v : vote) (protoV : string) : M rootRouter thresholdEvent :=
  withRound state (rv_Round (v_R v)) (atRound state (rv_Period (v_R v)) (vtr_voteAccepted state v protoV)).

Definition agg_votePresent (state : player) (e : messageEvent) (uv : unauthenticatedVote) : M rootRouter aggregatorResult :=
  match cvv_Err (me_Proto e) with
  | Some err => mret (aggFiltered err)
  | None =>
      o ← filterVote state (freshness_of state) (uv_R uv);
      mret (match o with Some err => aggFiltered err | None => aggNone end)
  end.

Definition agg_voteVerified (state : player) (e : messageEvent) (v : vote) : M rootRouter aggregatorResult :=
  if me_Cancelled e then mret (aggFiltered (orNil (me_Err e)))
  else if bool_decide (is_Some (cvv_Err (me_Proto e))) then mret (aggFiltered (orNil (me_Err e)))
  else
    match me_Err e with
    | Some err => mret (aggMalformed err)
    | None =>
        o ← filterVote state (freshness_of state) (v_R v);
        match o with
        | Some err => mret (aggFiltered err)
        | None =>
            tE ← deliverVote state v (cvv_Version (me_Proto e));
            if negb (isThreshold tE) then mret aggNone
            else if te_Round tE =? pl_Round state then mret (aggThreshold tE)
            else if te_Round tE =? wrap64 (pl_Round state + 1) then mret aggNone
            else lift Panic
        end
    end.

Definition agg_bundlePresent (state : player) (ub : unauthenticatedBundle) : M rootRouter aggregatorResult :=
  match bundleFresh (freshness_of state) ub with
  | Ok _ => mret aggNone
  | Err _ => mret (aggFiltered (Errorf "voteAggregator: rejected bundle due to age"))
  | Panic => lift Panic
  end.

(** The votes are delivered in order; the last threshold is kept. *)
Fixpoint deliverVotes (state : player) (protoV : string) (votes : list vote) (threshEvent : option thresholdEvent)
    : M rootRouter (option thresholdEvent) :=
  match votes with
  | [] => mret threshEvent
  | v :: votes' =>
      e ← deliverVote state v protoV;
      deliverVotes state protoV votes' (if isThreshold e then Some e else threshEvent)
  end.

Definition bundleVotes (b : bundle) : list vote :=
  b_Votes b ++ (b_EquivocationVotes b ≫= fun pair => [pair_v0 pair; pair_v1 pair]).

Definition agg_bundleVerified (state : player) (e : messageEvent) (b : bundle) : M rootRouter aggregatorResult :=
  if me_Cancelled e then mret (aggFiltered (orNil (me_Err e)))
  else if bool_decide (is_Some (cvv_Err (me_Proto e))) then mret (aggFiltered (orNil (me_Err e)))
  else
    match me_Err e with
    | Some err => mret (aggMalformed err)
    | None =>
        match bundleFresh (freshness_of state) (b_U b) with
        | Panic => lift Panic
        | Err _ => mret (aggFiltered (Errorf "voteAggregator: rejected bundle due to age"))
        | Ok _ =>
            o ← deliverVotes state (cvv_Version (me_Proto e)) (bundleVotes b) None;
            mret (match o with
                  | Some te => aggThreshold te
                  | None => aggFiltered (Errorf "bundle failed to cause a significant state change")
                  end)
        end
    end.

(** ** The proposal manager (proposalManager.go, proposalManagerContract.go) *)

Definition filterProposalVote (state : player) (rv : rawVote) : M rootRouter (option error) :=
  match proposalFresh (freshness_of state) rv with
  | Err _ => mret (Some (Errorf "proposalManager: filtered proposal-vote due to age"))
  | Panic => lift Panic
  | Ok _ =>
      sawVote ← withRound state (rv_Round rv) (inPeriod state (rv_Period rv) 0
                  (gets (fun router => pt_voteFilterRequest rv (ProposalTracker router))));
      mret (if (sawVote : bool) then Some (Errorf "proposalManager: filtered proposal-vote: sender had already sent a vote") else None)
  end.

Definition mgr_voteVerified (state : player) (e : messageEvent) (v : vote) : M rootRouter proposalVoteResult :=
  if me_Cancelled e then mret (proposalVoteFiltered (orNil (me_Err e)))
  else
    match me_Err e with
    | Some err => mret (proposalVoteMalformed err)
    | None =>
        match proposalFresh (freshness_of state) (v_R v) with
        | Panic => lift Panic
        | Err _ => mret (proposalVoteFiltered (Errorf "proposalManager: ignoring proposal-vote due to age"))
        | Ok _ => withRound state (rv_Round (v_R v)) (atRound state (rv_Period (v_R v)) (store_voteVerified C state v))
        end
    end.

Definition atStoreRound (r : Round) (o : payloadResult) : payloadResult :=
  match o with payloadPipelined ep => payloadPipelined (ep <| pe_Round := r |>) | _ => o end.

Definition mgr_payloadPresent (state : player) (up : unauthenticatedProposal) : M rootRouter payloadResult :=
  if pl_Round state =? up_Round up then
    o ← withRound state (pl_Round state) (atRound state (pl_Period state) (store_payloadPresent P state up));
    mret (atStoreRound (pl_Round state) o)
  else
    let r := wrap64 (pl_Round state + 1) in
    o ← withRound state r (atRound state 0 (store_payloadPresent P state up));
    mret (atStoreRound r o).

Definition mgr_payloadVerified (state : player) (e : messageEvent) (pp : proposal) : M rootRouter payloadResult :=
  if me_Cancelled e then mret (payloadRejected (orNil (me_Err e)))
  else
    match me_Err e with
    | Some err => mret (payloadMalformed err)
    | None => withRound state (pl_Round state) (atRound state (pl_Period state) (store_payloadVerified P state pp))
    end.

Definition mgr_newRound (state : player) (target : Round) : M rootRouter (option payloadPipelinedEvent) :=
  withRound state target (atRound state 0 (store_newRound state)).

Definition handleNewPeriod (state : player) (e : thresholdEvent) : M rootRouter unit :=
  let target := if bool_decide (te_T e = nextThreshold) then wrap64 (te_Period e + 1) else te_Period e in
  withRound state (te_Round e) (atRound state 0 (store_newPeriod state target (te_Proposal e))).

(** The contract of the manager: the round, staleness and bottom. *)
Definition managerPre (state : player) (e : thresholdEvent) : bool :=
  (pl_Round state =? te_Round e) &&
  negb (negb (bool_decide (te_T e = certThreshold)) && (te_Period e <? pl_Period state)) &&
  negb (bool_decide (te_T e = softThreshold) && bool_decide (te_Proposal e = bottom)).

(** Thresholds; a next threshold is answered with nothing. *)
Definition mgr_threshold (state : player) (e : thresholdEvent) : M rootRouter (option thresholdResult) :=
  if negb (managerPre state e) then lift Panic
  else
    match te_T e with
    | softThreshold | certThreshold =>
        _ ← (if pl_Period state <? te_Period e then handleNewPeriod state e else mret tt);
        o ← withRound state (te_Round e) (atRound state (te_Period e) (store_threshold state e));
        mret (Some o)
    | nextThreshold => _ ← handleNewPeriod state e; mret None
    | noThreshold => lift Panic
    end.

(** ** Actions (actions.go) *)

Inductive payloadOf : Type :=
| votePayload (uv : unauthenticatedVote)
| bundlePayload (ub : unauthenticatedBundle)
| compoundPayload (p : unauthenticatedProposal) (uv : unauthenticatedVote).

Inductive action : Type :=
| ignoreAction (h : option Z) (e : error)
| disconnectAction (h : option Z) (e : error)
| broadcastAction (m : payloadOf)
| relayAction (h : option Z) (m : payloadOf)
| broadcastVotes (uvs : list unauthenticatedVote)
| verifyVoteAction (h : option Z) (uv : unauthenticatedVote) (r : Round) (p : period) (taskIndex : Z)
| verifyPayloadAction (h : option Z) (up : unauthenticatedProposal) (r : Round) (p : period) (pinned : bool)
| verifyBundleAction (h : option Z) (ub : unauthenticatedBundle) (r : Round) (p : period) (s : step)
| ensureAction (payload : proposal) (certificate : unauthenticatedBundle)
| stageDigestAction (certificate : unauthenticatedBundle)
| rezeroAction (r : Round)
| attest (r : Round) (p : period) (s : step) (pv : proposalValue)
| assemble (r : Round) (p : period)
| repropose (r : Round) (p : period) (pv : proposalValue)
| checkpointAction (r : Round) (p : period) (s : step) (e : option error).

(** ** The player (player.go) *)

Record machine : Type := mkMachine { mc_player : player; mc_router : rootRouter }.
#[export] Instance Eta_machine : Eta machine := fun r => mkMachine (mc_player r) (mc_router r).

(** A dispatch of the player, with its state as the machines see it. *)
Definition dispatch {A} (f : player -> M rootRouter A) : M machine A := fun s =>
  let '(o, r) := f (mc_player s) (mc_router s) in (o, mkMachine (mc_player s) r).

(** A dispatch to a machine of the root, addressed to round [r]. *)
Definition dispatchRoot {A} (r : Round) (f : player -> M rootRouter A) : M machine A := fun s =>
  let '(o, r) := f (mc_player s) (root_update (mc_player s) r (mc_router s)) in (o, mkMachine (mc_player s) r).

Definition pl {A} (f : player -> A) : M machine A := gets (fun s => f (mc_player s)).
Definition setPlayer (f : player -> player) : M machine unit := modify (fun s => mkMachine (f (mc_player s)) (mc_router s)).

Definition partitioned (p : player) : bool := (partitionStep <=? pl_Step p) || (3 <=? pl_Period p).

(** Relay the staged payload of a round and period, or else the pinned one. *)
Definition relayStaged (r : Round) (p : period) : M machine (list action) :=
  staged ← dispatch (fun st => stagedValue st r p);
  match sv_Payload staged with
  | Some payload => mret [broadcastAction (compoundPayload (proposal_u payload) (vote_u vote_zero))]
  | None =>
      pinned ← dispatch (fun st => pinnedValue st r);
      mret (match sv_Payload pinned with
            | Some payload => [broadcastAction (compoundPayload (proposal_u payload) (vote_u vote_zero))]
            | None => []
            end)
  end.

Definition partitionPolicy : M machine (list action) :=
  p ← pl id;
  if negb (partitioned p) then mret []
  else
    fresh ← dispatch (fun st => freshestBundle st (pl_Round st));
    let b := te_Bundle (vtr_Freshest fresh) in
    let a0 := if vtr_Ok fresh then [broadcastAction (bundlePayload b)] else [] in
    a1 ← (if vtr_Ok fresh && negb (bool_decide (ub_Proposal b = bottom)) then relayStaged (ub_Round b) (ub_Period b)
          else if pl_Period p =? 0 then relayStaged (pl_Round p) (pl_Period p)
          else mret []);
    mret (a0 ++ a1).

Definition issueSoftVote : M machine (list action) :=
  p ← pl id;
  frozen ← dispatch (fun st => withRound st (pl_Round st) (inPeriod st (pl_Period st) 0 checked_proposalFrozen));
  status ← dispatch (fun st => nextStatus st (pl_Round st) (wrap64 (pl_Period st - 1)));
  let a := attest (pl_Round p) (pl_Period p) soft in
  _ ← setPlayer (fun p => p <| pl_Deadline := deadlineTimeout |>);
  mret (if (0 <? pl_Period p) && negb (nts_Bottom status) && negb (bool_decide (nts_Proposal status = bottom))
        then [a (nts_Proposal status)]
        else if bool_decide (frozen = bottom) then []
        else if pv_OriginalPeriod frozen <? pl_Period p then
          if negb (bool_decide (nts_Proposal status = bottom)) && bool_decide (nts_Proposal status = frozen)
          then [a frozen] else []
        else [a frozen]).

Definition issueCertVote (e : committableEvent) : M machine action :=
  p ← pl id; mret (attest (pl_Round p) (pl_Period p) cert (ce_Proposal e)).

(** What a next or a fast vote is for: the staged value if its payload is here,
    else the value of the previous period, else bottom. *)
Definition issueNextVote : M machine (list action) :=
  actions ← partitionPolicy;
  p ← pl id;
  answer ← dispatch (fun st => stagedValue st (pl_Round st) (pl_Period st));
  pv ← (if bool_decide (is_Some (sv_Payload answer)) then mret (sv_Proposal answer)
        else
          status ← dispatch (fun st => nextStatus st (pl_Round st) (wrap64 (pl_Period st - 1)));
          mret (if negb (nts_Bottom status) then nts_Proposal status else bottom));
  _ ← setPlayer (fun p => p <| pl_Napping := false |> <| pl_Deadline := (nextVoteRanges (pl_Step p)).2 |>);
  mret (actions ++ [attest (pl_Round p) (pl_Period p) (pl_Step p) pv]).

Definition issueFastVote : M machine (list action) :=
  actions ← partitionPolicy;
  p ← pl id;
  elate ← dispatch (fun st => dumpVotes st (pl_Round st) (pl_Period st) late);
  eredo ← dispatch (fun st => dumpVotes st (pl_Round st) (pl_Period st) redo);
  edown ← dispatch (fun st => dumpVotes st (pl_Round st) (pl_Period st) down);
  answer ← dispatch (fun st => stagedValue st (pl_Round st) (pl_Period st));
  '(s, pv) ← (if bool_decide (is_Some (sv_Payload answer)) then mret (late, sv_Proposal answer)
              else
                status ← dispatch (fun st => nextStatus st (pl_Round st) (wrap64 (pl_Period st - 1)));
                mret (if negb (nts_Bottom status) then (redo, nts_Proposal status) else (down, bottom)));
  let s := if bool_decide (pv = bottom) then down else s in
  mret (actions ++ [broadcastVotes (elate ++ eredo ++ edown); attest (pl_Round p) (pl_Period p) s pv]).

(** The player at the start of a period. *)
Definition toPeriod (proto : string) (target : period) (p : player) : player :=
  p <| pl_LastConcluding := pl_Step p |> <| pl_Period := target |> <| pl_Step := soft |> <| pl_Napping := false |>
    <| pl_FastRecoveryDeadline := 0 |> <| pl_Deadline := FilterTimeout target proto |>.

Definition enterPeriod (source : thresholdEvent) (target : period) : M machine (list action) :=
  actions ← partitionPolicy;
  p ← pl id;
  e ← dispatchRoot (pl_Round p) (fun st => mgr_threshold st source);
  _ ← setPlayer (toPeriod (te_Proto source) target);
  p ← pl id;
  let actions := actions ++ [rezeroAction (pl_Round p)] in
  match e with
  | Some (stagedCommittable ec) => a ← issueCertVote ec; mret (actions ++ [a])
  | _ =>
      mret (match te_T source with
            | nextThreshold =>
                if bool_decide (te_Proposal source = bottom) then actions ++ [assemble (pl_Round p) (pl_Period p)]
                else actions ++ [repropose (pl_Round p) (pl_Period p) (te_Proposal source)]
            | _ => actions
            end)
  end.

(** [enterRound target] is the entry of a round a threshold may cause. *)
Definition handleThreshold_with (enterRound : string -> Round -> M machine (list action)) (e : thresholdEvent)
    : M machine (list action) :=
  p ← pl id;
  match te_T e with
  | certThreshold =>
      _ ← dispatchRoot 0 (fun st => mgr_threshold st e);
      res ← dispatch (fun st => stagedValue st (te_Round e) (te_Period e));
      match sv_Payload res with
      | Some payload =>
          as_ ← enterRound (te_Proto e) (wrap64 (pl_Round p + 1));
          mret (ensureAction payload (te_Bundle e) :: as_)
      | None =>
          as_ ← (if pl_Period p <? te_Period e then enterPeriod e (te_Period e) else mret []);
          mret (stageDigestAction (te_Bundle e) :: as_)
      end
  | softThreshold =>
      if te_Period e <? pl_Period p then mret []
      else if pl_Period p <? te_Period e then enterPeriod e (te_Period e)
      else
        ec ← dispatchRoot (pl_Round p) (fun st => mgr_threshold st e);
        match ec with
        | Some (stagedCommittable ec) =>
            if pl_Step p <=? cert then a ← issueCertVote ec; mret [a] else mret []
        | _ => mret []
        end
  | nextThreshold =>
      if te_Period e <? pl_Period p then mret [] else enterPeriod e (wrap64 (te_Period e + 1))
  | noThreshold => mret []
  end.

(** The player at the start of a round. *)
Definition toRound (proto : string) (target : Round) (p : player) : player :=
  p <| pl_LastConcluding := pl_Step p |> <| pl_Round := target |> <| pl_Period := 0 |> <| pl_Step := soft |>
    <| pl_Napping := false |> <| pl_FastRecoveryDeadline := 0 |> <| pl_Deadline := FilterTimeout 0 proto |>.

(** [proto] is the consensus version the source of the entry carries. *)
Fixpoint enterRound (fuel : nat) (proto : string) (target : Round) : M machine (list action) :=
  match fuel with
  | O => throw (Errorf "out of fuel")
  | S fuel =>
      e ← dispatchRoot target (fun st => mgr_newRound st target);
      _ ← setPlayer (toRound proto target);
      let actions :=
        [rezeroAction target; assemble target 0] ++
        match e with
        | Some ep => [verifyPayloadAction (Some 0) (pe_UnauthenticatedPayload ep) target (pe_Period ep) (pe_Pinned ep)]
        | None => []
        end in
      fresh ← dispatch (fun st => freshestBundle st (pl_Round st));
      a4 ← (if vtr_Ok fresh then handleThreshold_with (enterRound fuel) (vtr_Freshest fresh) else mret []);
      mret (actions ++ a4)
  end.

Definition handleThresholdEvent (fuel : nat) (e : thresholdEvent) : M machine (list action) :=
  handleThreshold_with (enterRound fuel) e.

(** A proposal-vote; [handleTail] processes the payload that waited for it. *)
Definition handleProposalVote (handleTail : messageEvent -> M machine (list action)) (e : messageEvent)
    : M machine (list action) :=
  match me_Input e with
  | votePresent uv =>
      ef ← dispatchRoot 0 (fun st => filterProposalVote st (uv_R uv));
      match ef with
      | Some err =>
          suffix ← (match me_Tail e with Some tail => handleTail tail | None => mret [] end);
          mret (ignoreAction (me_MessageHandle e) err :: suffix)
      | None =>
          table ← pl pl_Pending;
          let '(seq, table) := push (me_Tail e) table in
          _ ← setPlayer (fun p => p <| pl_Pending := table |>);
          mret [verifyVoteAction (me_MessageHandle e) uv (rv_Round (uv_R uv)) (rv_Period (uv_R uv)) seq]
      end
  | voteVerified uv v =>
      ef ← dispatchRoot 0 (fun st => mgr_voteVerified st e v);
      let a :=
        match ef with
        | proposalVoteMalformed err => disconnectAction (me_MessageHandle e) err
        | proposalVoteFiltered err => ignoreAction (me_MessageHandle e) err
        | proposalAccepted ep =>
            match pa_Payload ep with
            | Some payload => broadcastAction (compoundPayload (proposal_u payload) (vote_u v))
            | None => relayAction (me_MessageHandle e) (votePayload (vote_u v))
            end
        end in
      table ← pl pl_Pending;
      let '(tail, table) := pop (me_TaskIndex e) table in
      _ ← setPlayer (fun p => p <| pl_Pending := table |>);
      suffix ← (match tail with Some tail => handleTail tail | None => mret [] end);
      mret (a :: suffix)
  | _ => lift Panic
  end.

(** The payload relayed by its own proposer, which has no message handle. *)
Definition relayOwn (e : messageEvent) (up : unauthenticatedProposal) (ef : payloadResult) : list action :=
  match me_MessageHandle e with
  | Some _ => []
  | None =>
      let uv := match ef with
                | payloadPipelined ep => vote_u (pe_Vote ep)
                | payloadAccepted v _ => vote_u v
                | proposalCommittable ec => vote_u (ce_Vote ec)
                | _ => vote_u vote_zero
                end in
      [relayAction (me_MessageHandle e) (compoundPayload up uv)]
  end.

(** A committed payload: the freshest threshold of the round certifies it. *)
Definition finishRound (fuel : nat) (e : messageEvent) (pp : proposal) : M machine (option (list action)) :=
  fresh ← dispatch (fun st => freshestBundle st (pl_Round st));
  let te := vtr_Freshest fresh in
  if vtr_Ok fresh && bool_decide (te_T te = certThreshold) && bool_decide (te_Proposal te = pp_value P pp) then
    as_ ← enterRound fuel (cvv_Version (me_Proto e)) (wrap64 (ub_Round (te_Bundle te) + 1));
    mret (Some (ensureAction pp (te_Bundle te) :: as_))
  else mret None.

(** A pipelined payload is verified at once when it is of the player's round. *)
Definition handlePipelined (e : messageEvent) (up : unauthenticatedProposal) (p : player) (ep : payloadPipelinedEvent)
    : list action :=
  let ra := relayAction (me_MessageHandle e) (compoundPayload up (vote_u (pe_Vote ep))) in
  if pe_Round ep =? pl_Round p
  then [verifyPayloadAction (me_MessageHandle e) up (pe_Round ep) (pe_Period ep) (pe_Pinned ep); ra]
  else ra :: relayOwn e up (payloadPipelined ep).

(** The manager answers a payload that is present with a rejected or a pipelined
    event only; the committing of a payload needs the verified one. *)
Definition handlePayload (fuel : nat) (e : messageEvent) : M machine (list action) :=
  p ← pl id;
  match me_Input e with
  | payloadPresent up =>
      ef ← dispatchRoot 0 (fun st => mgr_payloadPresent st up);
      mret (match ef with
            | payloadMalformed _ => [ignoreAction (me_MessageHandle e) (Errorf "rejected message since it was invalid")]
            | payloadRejected err => [ignoreAction (me_MessageHandle e) err]
            | payloadPipelined ep => handlePipelined e up p ep
            | _ => relayOwn e up ef
            end)
  | payloadVerified up pp =>
      ef ← dispatchRoot 0 (fun st => mgr_payloadVerified st e pp);
      let actions := relayOwn e up ef in
      match ef with
      | payloadMalformed _ => mret [ignoreAction (me_MessageHandle e) (Errorf "rejected message since it was invalid")]
      | payloadRejected err => mret [ignoreAction (me_MessageHandle e) err]
      | payloadPipelined ep => mret (handlePipelined e up p ep)
      | payloadAccepted _ _ =>
          done ← finishRound fuel e pp;
          mret (match done with Some as_ => actions ++ as_ | None => actions end)
      | proposalCommittable ec =>
          done ← finishRound fuel e pp;
          match done with
          | Some as_ => mret (actions ++ as_)
          | None => if pl_Step p <=? cert then a ← issueCertVote ec; mret (actions ++ [a]) else mret actions
          end
      end
  | _ => lift Panic
  end.

Definition handleVote (fuel : nat) (e : messageEvent) : M machine (list action) :=
  match me_Input e with
  | votePresent uv =>
      ef ← dispatchRoot 0 (fun st => agg_votePresent st e uv);
      match ef with
      | aggMalformed err => mret [disconnectAction (me_MessageHandle e) (Errorf "rejected message since it was invalid")]
      | aggFiltered err => mret [ignoreAction (me_MessageHandle e) err]
      | _ => mret [verifyVoteAction (me_MessageHandle e) uv (rv_Round (uv_R uv)) (rv_Period (uv_R uv)) 0]
      end
  | voteVerified uv v =>
      ef ← dispatchRoot 0 (fun st => agg_voteVerified st e v);
      match ef with
      | aggMalformed err => mret [disconnectAction (me_MessageHandle e) (Errorf "rejected message since it was invalid")]
      | aggFiltered err => mret [ignoreAction (me_MessageHandle e) err]
      | aggNone => mret [relayAction (me_MessageHandle e) (votePayload (vote_u v))]
      | aggThreshold te =>
          a1 ← handleThresholdEvent fuel te;
          mret (relayAction (me_MessageHandle e) (votePayload (vote_u v)) :: a1)
      end
  | _ => lift Panic
  end.

Definition handleBundle (fuel : nat) (e : messageEvent) : M machine (list action) :=
  match me_Input e with
  | bundlePresent ub =>
      ef ← dispatchRoot 0 (fun st => agg_bundlePresent st ub);
      match ef with
      | aggMalformed err => mret [disconnectAction (me_MessageHandle e) (Errorf "rejected message since it was invalid")]
      | aggFiltered err => mret [ignoreAction (me_MessageHandle e) err]
      | _ => mret [verifyBundleAction (me_MessageHandle e) ub (ub_Round ub) (ub_Period ub) (ub_Step ub)]
      end
  | bundleVerified ub b =>
      ef ← dispatchRoot 0 (fun st => agg_bundleVerified st e b);
      match ef with
      | aggMalformed err => mret [disconnectAction (me_MessageHandle e) (Errorf "rejected message since it was invalid")]
      | aggFiltered err => mret [ignoreAction (me_MessageHandle e) err]
      | aggNone => lift Panic
      | aggThreshold te =>
          a1 ← handleThresholdEvent fuel te;
          mret (relayAction (me_MessageHandle e) (bundlePayload (te_Bundle te)) :: a1)
      end
  | _ => lift Panic
  end.

Fixpoint handleMessageEvent (fuel : nat) (e : messageEvent) : M machine (list action) :=
  match fuel with
  | O => throw (Errorf "out of fuel")
  | S fuel' =>
      match me_Input e with
      | votePresent uv | voteVerified uv _ =>
          if rv_Step (uv_R uv) =? propose then handleProposalVote (handleMessageEvent fuel') e
          else handleVote fuel e
      | payloadPresent _ | payloadVerified _ _ => handlePayload fuel e
      | bundlePresent _ | bundleVerified _ _ => handleBundle fuel e
      end
  end.

(** Timeouts; durations are [int64] nanoseconds. *)
Definition randomDelta (entropy range : Z) : outcome Z :=
  if wrap64 range =? 0 then Panic else Ok (swrap64 (entropy mod wrap64 range)).

Definition handleFastTimeout (entropy : Z) (proto : ConsensusVersionView) : M machine (list action) :=
  if bool_decide (is_Some (cvv_Err proto)) then mret []
  else
    p ← pl id;
    let lambda := proto_FastRecoveryLambda (ConsensusVersion_params (cvv_Version proto)) in
    if lambda =? 0 then lift Panic
    else
      let k := Z.quot (swrap64 (swrap64 (pl_FastRecoveryDeadline p + lambda) - 1)) lambda in
      let lower := swrap64 (k * lambda) in
      let upper := swrap64 (swrap64 (k + 1) * lambda) in
      delta ← lift (randomDelta entropy (upper - lower));
      if pl_FastRecoveryDeadline p =? 0 then
        _ ← setPlayer (fun p => p <| pl_FastRecoveryDeadline := swrap64 (swrap64 (lower + delta) + lambda) |>);
        mret []
      else
        _ ← setPlayer (fun p => p <| pl_FastRecoveryDeadline := swrap64 (lower + delta) |>);
        issueFastVote.

Definition handleTimeout (entropy : Z) : M machine (list action) :=
  p ← pl id;
  if pl_Step p =? soft then
    actions ← issueSoftVote;
    _ ← setPlayer (fun p => p <| pl_Step := cert |>);
    mret actions
  else if pl_Step p =? cert then
    _ ← setPlayer (fun p => p <| pl_Step := next |>);
    issueNextVote
  else if pl_Napping p then issueNextVote
  else
    let s := wrap64 (pl_Step p + 1) in
    let '(lower, upper) := nextVoteRanges s in
    delta ← lift (randomDelta entropy (upper - lower));
    _ ← setPlayer (fun p => p <| pl_Step := s |> <| pl_Napping := true |> <| pl_Deadline := swrap64 (lower + delta) |>);
    mret [].

(** The events the service submits. *)
Inductive externalEvent : Type :=
| noEvent
| messageInputEvent (e : messageEvent)
| timeoutEvent (entropy : Z)
| fastTimeoutEvent (entropy : Z) (proto : ConsensusVersionView)
| roundInterruptionEvent (r : Round) (proto : ConsensusVersionView)
| checkpointEvent (r : Round) (p : period) (s : step) (err : option error).

Definition handle (fuel : nat) (e : externalEvent) : M machine (list action) :=
  match e with
  | noEvent => mret []
  | messageInputEvent e => handleMessageEvent fuel e
  | timeoutEvent entropy => handleTimeout entropy
  | fastTimeoutEvent entropy proto => handleFastTimeout entropy proto
  | roundInterruptionEvent r proto => enterRound fuel (cvv_Version proto) r
  | checkpointEvent r p s err => mret [checkpointAction r p s err]
  end.

Definition submitTop (fuel : nat) (e : externalEvent) : M machine (list action) := fun s =>
  handle fuel e (s <| mc_router := root_update (mc_player s) 0 (mc_router s) |>).

(** [mainLoop] of service.go when there is no fresh state to restore: a new round
    starts and a block is assembled. *)
Definition startMachine (nextRound : Round) (nextVersion : string) : machine :=
  mkMachine (mkPlayer nextRound 0 soft 0 (FilterTimeout 0 nextVersion) false 0 (mkProposalTable ∅ 0)) ∅.
Definition startActions (nextRound : Round) : list action := [assemble nextRound 0; rezeroAction 0].

(** The loop itself, on a finite input: one list of actions per event. *)
Fixpoint mainLoop (fuel : nat) (input : list externalEvent) : M machine (list (list action)) :=
  match input with
  | [] => mret []
  | e :: input =>
      a ← submitTop fuel e;
      output ← mainLoop fuel input;
      mret (a :: output)
  end.

End machine.
