(* ===== verification/AgMachineFacts.v ===== *)
(** The machines of the root as the player sees them: what the queries of the
    router, the vote aggregator and the proposal manager answer, and that they
    keep the invariant of the tree and the freshest thresholds. *)
From S2P Require Import Prelude Config Basics Transactions Bookkeeping AgVote AgTracker AgDelivery AgProposal AgRouter AgRouterFacts AgPlayer.
#[local] Open Scope string_scope.
#[local] Open Scope list_scope.
#[local] Open Scope Z_scope.

Section facts.
  Context {D : Deliveries} (C : VoteCrypto) (P : ProposalCrypto).
  Notation root_wf := (root_wf P).
  Notation round_wf := (round_wf P).

(** ** Machines of the root *)

Definition root_keeps (router router' : rootRouter) : Prop := root_wf router' /\ no_fresher router router'.

Lemma root_keeps_trans a b c : root_keeps a b -> root_keeps b c -> root_keeps a c.
Proof. intros [_ H1] [Hw H2]. split; [done|by eapply no_fresher_trans]. Qed.

Lemma root_keeps_update state r router : root_wf router -> root_keeps router (root_update state r router).
Proof. intros H. split; [by apply root_update_wf|apply root_update_no_fresher]. Qed.

Lemma runs_round {A} state r (m : M roundRouter A) (Q : A -> roundRouter -> Prop) router : root_wf router ->
  (forall c, round_wf r c -> c = roundOf router r -> runs m (fun a c' => keeps_round P r c c' /\ Q a c') c) ->
  runs (withRound state r m) (fun a router' => root_keeps router router' /\ pl_Round state <= r /\
    exists c', router' !! r = Some c' /\ Q a c') router.
Proof.
  intros Hw Hm. eapply runs_mono.
  { apply (runs_withRound P state r m (fun a c' => VoteTrackerRound c' = VoteTrackerRound (roundOf router r) /\ Q a c')); [done|].
    eapply runs_mono; [by apply Hm; [apply roundOf_wf|]|]. cbn beta. unfold keeps_round. naive_solver. }
  cbn beta. intros a router' (Hw' & Hr & (c' & Hc' & Hv & HQ) & Hothers). split_and!; [|done|eauto]. split; [done|].
  intros q d Hd Hok. destruct (decide (q = r)) as [->|Hne].
  - rewrite Hd in Hc'. injection Hc' as <-. unfold roundOf in Hv. destruct (router !! r) as [c|]; cbn in Hv; [eauto|].
    by rewrite Hv in Hok.
  - rewrite (Hothers q d Hne Hd) in Hok |- *. unfold roundOf in *. destruct (router !! q) as [c|]; cbn in *; [eauto|done].
Qed.

(** A computation on the round itself. *)
Lemma runs_round_at {A} state r p (m : M roundRouter A) (Q : A -> roundRouter -> Prop) router : root_wf router ->
  (forall c, round_wf r c -> updated (roundOf router r) c -> (kept state p -> has_period c p) ->
     runs m (fun a c' => keeps_round P r c c' /\ Q a c') c) ->
  runs (withRound state r (atRound state p m)) (fun a router' => root_keeps router router' /\ pl_Round state <= r /\
    exists c', router' !! r = Some c' /\ Q a c') router.
Proof.
  intros Hw Hm. apply runs_round; [done|]. intros c Hc Ec. apply (runs_atRound P state p _ r); [done|].
  intros c0 Hc0 Hu Hk. rewrite Ec in Hu. eapply runs_mono; [by apply Hm|]. cbn beta. unfold keeps_round.
  rewrite Ec, (ud_freshest _ _ Hu). done.
Qed.

Lemma stagedValue_spec state r p router : root_wf router ->
  runs (stagedValue state r p) (fun a router' => root_keeps router router' /\ pl_Round state <= r /\
    sv_Proposal a = staged_in (roundOf router r) p /\
    forall pp, sv_Payload a = Some pp -> pp_value P pp = sv_Proposal a) router.
Proof.
  intros Hw. eapply runs_mono.
  { apply (runs_round_at state r p _ (fun a _ => sv_Proposal a = staged_in (roundOf router r) p /\
      forall pp, sv_Payload a = Some pp -> pp_value P pp = sv_Proposal a)); [done|]. intros c Hc Hu Hh.
    eapply runs_mono; [by apply (store_readStaging_wf P)|]. cbn beta. intros a c' (Hk & Hst & Hsv & Hpay & Hkp & Hp & Hs').
    split; [done|]. split; [rewrite Hsv; by apply (ud_staged _ _ Hu), Hh|].
    intros pp Hpp. rewrite Hpay in Hpp. exact (assembler_payload P _ _ _ (proj2 (rw_store _ _ _ Hc)) Hpp). }
  cbn beta. naive_solver.
Qed.

Lemma pinnedValue_spec state r router : root_wf router ->
  runs (pinnedValue state r) (fun _ router' => root_keeps router router') router.
Proof.
  intros Hw. eapply runs_mono; [apply (runs_round_at state r 0 _ (fun _ _ => True)); [done|]|naive_solver].
  intros c Hc Hu _. by run_step.
Qed.

Lemma nextStatus_spec state r p router : root_wf router ->
  runs (nextStatus state r p) (fun _ router' => root_keeps router router') router.
Proof.
  intros Hw. eapply runs_mono; [apply (runs_round state r _ (fun _ _ => True)); [done|]|naive_solver].
  intros c Hc _. eapply runs_mono; [apply (runs_inPeriod P state p 0 _ r (fun _ _ => True)); [done|]|].
  - intros c0 Hc0 _. by run_step.
  - cbn beta. intros a c' (Hc' & Ha & _). split; [split; [done|apply Ha]|done].
Qed.

Lemma dumpVotes_spec state r p s router : root_wf router ->
  runs (dumpVotes state r p s) (fun _ router' => root_keeps router router') router.
Proof.
  intros Hw. eapply runs_mono; [apply (runs_round state r _ (fun _ _ => True)); [done|]|naive_solver].
  intros c Hc _. eapply runs_mono; [apply (runs_inPeriod P state p s _ r (fun _ _ => True)); [done|]|].
  - intros c0 Hc0 _. eapply runs_mono; [apply (runs_inStep r p s _ (fun _ => True)); [done|]|naive_solver].
    intros c1 Hc1. by run_step.
  - cbn beta. intros a c' (Hc' & Ha & _). split; [split; [done|apply Ha]|done].
Qed.

Lemma proposalFrozen_spec state r p router : root_wf router ->
  runs (withRound state r (inPeriod state p 0 checked_proposalFrozen)) (fun _ router' => root_keeps router router') router.
Proof.
  intros Hw. eapply runs_mono; [apply (runs_round state r _ (fun _ _ => True)); [done|]|naive_solver].
  intros c Hc _. eapply runs_mono; [apply (runs_inPeriod P state p 0 _ r (fun _ _ => True)); [done|]|].
  - intros c0 Hc0 _. unfold runs, checked_proposalFrozen. destruct (ptc_Froze _); [done|]. cbn.
    destruct (negb (negb _ && _)); [|done]. split; [exact Hc0|done].
  - cbn beta. intros a c' (Hc' & Ha & _). split; [split; [done|apply Ha]|done].
Qed.

(** The freshest threshold, and what reading it leaves. *)
Lemma freshestBundle_spec state r router : root_wf router ->
  runs (freshestBundle state r) (fun t router' => root_keeps router router' /\ freshest_wf r t /\
    t = VoteTrackerRound (roundOf router r) /\
    forall p pv, kept state p -> certifiable (roundOf router r) p pv -> certifiable (roundOf router' r) p pv) router.
Proof.
  intros Hw. eapply runs_mono.
  { apply (runs_round state r _ (fun t c' => freshest_wf r t /\ t = VoteTrackerRound (roundOf router r) /\
      c' = round_update state 0 (roundOf router r))); [done|]. intros c Hc ->. unfold atRound, gets, runs.
    split; [|split_and!; [apply Hc|done|done]]. split; [by apply round_update_wf|done]. }
  cbn beta. intros t router' (Hk & _ & c' & Hc' & Ht & Et & ->). split_and!; [done|done|done|].
  intros p pv Hkp (Hnb & Hh & Hs & Hp). unfold roundOf at 1. rewrite Hc'. cbn [default].
  assert (has_period (round_update state 0 (roundOf router r)) p) as Hh' by (apply round_update_kept; auto).
  split_and!; [done|done| |exact Hp]. by rewrite (ud_staged _ _ (round_update_updated state 0 (roundOf router r))).
Qed.

(** ** The vote aggregator *)

(** A vote that may be delivered with a consensus version. *)
Definition vote_fit (protoV : string) (v : vote) : Prop :=
  0 <= rv_Round (v_R v) < MaxUint64 - 1 /\ 0 <= rv_Period (v_R v) < MaxUint64 - 1 /\ delivered v /\
  protoV = versionOf (rv_Round (v_R v)).

(** What verification promises of a message is known when it succeeded. *)
Definition when_verified (e : messageEvent) (Q : string -> Prop) : Prop :=
  me_Cancelled e = false -> me_Err e = None -> cvv_Err (me_Proto e) = None -> Q (cvv_Version (me_Proto e)).

Lemma filterVote_spec state fd rv router : root_wf router ->
  runs (filterVote state fd rv) (fun _ router' => root_wf router') router.
Proof.
  intros Hw. unfold filterVote. destruct (voteFresh fd rv) as [u| |]; [|by run_step..]. apply runs_bind.
  eapply runs_mono; [apply (runs_round state (rv_Round rv) _ (fun _ _ => True)); [done|]|].
  - intros c Hc _. eapply runs_mono; [apply (runs_inPeriod P state (rv_Period rv) (rv_Step rv) _ (rv_Round rv) (fun _ _ => True)); [done|]|].
    + intros c0 Hc0 _. eapply runs_mono; [apply (runs_inStep (rv_Round rv) (rv_Period rv) (rv_Step rv) _ (fun _ => True)); [done|]|naive_solver].
      intros c1 Hc1. by run_step.
    + cbn beta. intros a c' (Hc' & Ha & _). split; [split; [done|apply Ha]|done].
  - cbn beta. intros dup router' ([Hw' _] & _). by run_step.
Qed.

Lemma deliverVote_spec state v protoV router : root_wf router -> vote_fit protoV v ->
  runs (deliverVote state v protoV) (fun e router' => root_wf router' /\ event_wf (rv_Round (v_R v)) e /\
    pl_Round state <= rv_Round (v_R v)) router.
Proof.
  intros Hw (H1 & H2 & H3 & ->). unfold deliverVote. eapply runs_mono.
  { apply (runs_withRound P state (rv_Round (v_R v)) _ (fun e _ => event_wf (rv_Round (v_R v)) e)); [done|].
    apply (runs_atRound P state (rv_Period (v_R v)) _ (rv_Round (v_R v))); [by apply roundOf_wf|]. intros c0 Hc0 _ _.
    apply (vtr_voteAccepted_wf P state _ (rv_Period (v_R v)) (v_Step v)); [done|]. unfold vote_at. do 5 (split; [done|]). done. }
  cbn beta. naive_solver.
Qed.

(** What the aggregator reports is of the player's round. *)
Definition reports (state : player) (o : aggregatorResult) : Prop :=
  match o with aggThreshold e => isThreshold e = true /\ event_wf (pl_Round state) e | _ => True end.

Lemma agg_votePresent_spec state e uv router : root_wf router ->
  runs (agg_votePresent state e uv) (fun o router' => root_wf router' /\ reports state o) router.
Proof.
  intros Hw. unfold agg_votePresent. destruct (cvv_Err _); [by run_step|]. apply runs_bind.
  eapply runs_mono; [by apply filterVote_spec|]. intros [err|] router' Hw'; by run_step.
Qed.

Lemma agg_voteVerified_spec state e v router : root_wf router -> when_verified e (fun protoV => vote_fit protoV v) ->
  runs (agg_voteVerified state e v) (fun o router' => root_wf router' /\ reports state o) router.
Proof.
  intros Hw Hv. unfold agg_voteVerified. unfold when_verified in Hv.
  destruct (me_Cancelled e); [by run_step|]. case_bool_decide as Hp; [by run_step|]. apply eq_None_not_Some in Hp.
  destruct (me_Err e); [by run_step|]. specialize (Hv eq_refl eq_refl Hp). apply runs_bind. eapply runs_mono; [by apply filterVote_spec|].
  intros [err|] router1 Hw1; [by run_step|]. apply runs_bind. eapply runs_mono; [by apply deliverVote_spec|].
  cbn beta. intros tE router2 (Hw2 & He & Hr). destruct (isThreshold tE) eqn:Et; cbn [negb]; [|by run_step].
  destruct (Z.eqb_spec (te_Round tE) (pl_Round state)) as [Heq|]; [|destruct (_ =? _); by run_step].
  run_step. split; [done|]. split; [done|]. rewrite <- Heq. by rewrite (proj1 (He Et)).
Qed.

(** The votes of a bundle are of its round. *)
Definition bundle_fit (b : bundle) (protoV : string) : Prop :=
  Forall (vote_fit protoV) (bundleVotes b) /\ Forall (fun v => rv_Round (v_R v) = ub_Round (b_U b)) (bundleVotes b).

Lemma deliverVotes_spec state protoV votes o r router : root_wf router -> Forall (vote_fit protoV) votes ->
  Forall (fun v => rv_Round (v_R v) = r) votes ->
  (forall e, o = Some e -> isThreshold e = true /\ event_wf r e) ->
  runs (deliverVotes state protoV votes o) (fun o' router' => root_wf router' /\
    forall e, o' = Some e -> isThreshold e = true /\ event_wf r e) router.
Proof.
  revert o router. induction votes as [|v votes IH]; intros o router Hw Hsm Hr Ho; cbn [deliverVotes]; [by run_step|].
  apply Forall_cons in Hsm as [Hv Hsm], Hr as [Hvr Hr]. apply runs_bind. eapply runs_mono; [by apply deliverVote_spec|].
  cbn beta. intros e router' (Hw' & He & _). rewrite Hvr in He. apply IH; [done..|]. intros e'.
  destruct (isThreshold e) eqn:Et; [|apply Ho]. by intros [= <-].
Qed.

Lemma agg_bundleVerified_spec state e b router : root_wf router -> when_verified e (bundle_fit b) ->
  runs (agg_bundleVerified state e b) (fun o router' => root_wf router' /\ reports state o) router.
Proof.
  intros Hw Hb. unfold agg_bundleVerified. unfold when_verified in Hb.
  destruct (me_Cancelled e); [by run_step|]. case_bool_decide as Hp; [by run_step|]. apply eq_None_not_Some in Hp.
  destruct (me_Err e); [by run_step|]. destruct (Hb eq_refl eq_refl Hp) as [Hsm Hr]. destruct (bundleFresh _ _) as [u| |] eqn:Ef; [|by run_step..].
  assert (ub_Round (b_U b) = pl_Round state) as Hbr.
  { unfold bundleFresh in Ef. okinv Ef. cbn in Ho. apply negb_false_iff, Z.eqb_eq in Ho. done. }
  apply runs_bind. eapply runs_mono; [by apply (deliverVotes_spec state _ _ None (ub_Round (b_U b)))|].
  cbn beta. intros o router' (Hw' & Ho). run_step. split; [done|]. destruct o as [te|]; [|done]. cbn. rewrite <- Hbr. by apply Ho.
Qed.

(** ** The proposal manager *)

Lemma runs_round_keeps {A} state r p (m : M roundRouter A) router : root_wf router ->
  (forall c, round_wf r c -> runs m (fun _ c' => keeps_round P r c c') c) ->
  runs (withRound state r (atRound state p m)) (fun _ router' => root_keeps router router') router.
Proof.
  intros Hw Hm. eapply runs_mono; [apply (runs_round_at state r p m (fun _ _ => True)); [done|]|naive_solver].
  intros c Hc _ _. eapply runs_mono; [by apply Hm|naive_solver].
Qed.

Lemma root_keeps_refl router : root_wf router -> root_keeps router router.
Proof. intros. split; [done|apply no_fresher_refl]. Qed.

Lemma filterProposalVote_spec state rv router : root_wf router ->
  runs (filterProposalVote state rv) (fun _ router' => root_keeps router router') router.
Proof.
  intros Hw. unfold filterProposalVote. destruct (proposalFresh _ rv) as [u| |]; [|run_step; by apply root_keeps_refl|by run_step].
  apply runs_bind. eapply runs_mono; [apply (runs_round state (rv_Round rv) _ (fun _ _ => True)); [done|]|].
  - intros c Hc _. eapply runs_mono; [apply (runs_inPeriod P state (rv_Period rv) 0 _ (rv_Round rv) (fun _ _ => True)); [done|]|].
    + intros c0 Hc0 _. by run_step.
    + cbn beta. intros a c' (Hc' & Ha & _). split; [split; [done|apply Ha]|done].
  - cbn beta. intros saw router' (Hk & _). by run_step.
Qed.

Lemma mgr_voteVerified_spec state e v router : root_wf router ->
  runs (mgr_voteVerified C state e v) (fun _ router' => root_keeps router router') router.
Proof.
  intros Hw. unfold mgr_voteVerified. destruct (me_Cancelled e); [run_step; by apply root_keeps_refl|].
  destruct (me_Err e); [run_step; by apply root_keeps_refl|].
  destruct (proposalFresh _ _); [|run_step; by apply root_keeps_refl|by run_step].
  apply runs_round_keeps; [done|]. intros c Hc. by apply (store_voteVerified_wf P).
Qed.

Lemma mgr_payloadPresent_spec state up router : root_wf router ->
  runs (mgr_payloadPresent P state up) (fun _ router' => root_keeps router router') router.
Proof.
  intros Hw. unfold mgr_payloadPresent. destruct (_ =? _); apply runs_bind;
    (eapply runs_mono; [apply runs_round_keeps; [done|]|by intros; run_step]); intros c Hc;
    (eapply runs_mono; [by apply (store_payloadPresent_wf P)|naive_solver]).
Qed.

Lemma mgr_payloadVerified_spec state e pp router : root_wf router ->
  runs (mgr_payloadVerified P state e pp) (fun o router' => root_keeps router router' /\
    match o with
    | proposalCommittable ec =>
        ce_Proposal ec = pp_value P pp /\ certifiable (roundOf router' (pl_Round state)) (pl_Period state) (ce_Proposal ec)
    | _ => True
    end) router.
Proof.
  intros Hw. unfold mgr_payloadVerified.
  destruct (me_Cancelled e); [run_step; split; [by apply root_keeps_refl|done]|].
  destruct (me_Err e); [run_step; split; [by apply root_keeps_refl|done]|].
  eapply runs_mono.
  { apply (runs_round_at state _ (pl_Period state) _ (fun o c' =>
      match o with
      | proposalCommittable ec => ce_Proposal ec = pp_value P pp /\ certifiable c' (pl_Period state) (ce_Proposal ec)
      | _ => True
      end)); [done|]. intros c Hc _ _. eapply runs_mono; [by apply (store_payloadVerified_wf P)|]. cbn beta.
    intros o c' [Hk Ho]. split; [done|]. destruct o; try done. destruct Ho as [-> ?]. done. }
  cbn beta. intros o router' (Hk & _ & c' & Hc' & Ho). split; [done|]. destruct o; try done. unfold roundOf. by rewrite Hc'.
Qed.

Lemma mgr_newRound_spec state target router : root_wf router ->
  runs (mgr_newRound state target) (fun _ router' => root_keeps router router') router.
Proof. intros Hw. apply runs_round_keeps; [done|]. intros c Hc. by apply (store_newRound_wf P). Qed.

Lemma handleNewPeriod_spec state e router : root_wf router ->
  runs (handleNewPeriod state e) (fun _ router' => root_keeps router router') router.
Proof. intros Hw. apply runs_round_keeps; [done|]. intros c Hc. by apply (store_newPeriod_wf P). Qed.

(** A soft or cert threshold stages its value. *)
Definition stages (router : rootRouter) (e : thresholdEvent) (o : option thresholdResult) : Prop :=
  staged_in (roundOf router (te_Round e)) (te_Period e) = te_Proposal e /\
  forall ec, o = Some (stagedCommittable ec) ->
    ce_Proposal ec = te_Proposal e /\ certifiable (roundOf router (te_Round e)) (te_Period e) (te_Proposal e).

Lemma mgr_threshold_spec state e router : root_wf router ->
  runs (mgr_threshold state e) (fun o router' => root_keeps router router' /\ pl_Round state = te_Round e /\
    (te_T e <> nextThreshold -> stages router' e o) /\ (te_T e = nextThreshold -> o = None)) router.
Proof.
  intros Hw. unfold mgr_threshold. destruct (managerPre state e) eqn:Epre; cbn [negb]; [|by run_step].
  unfold managerPre in Epre. apply andb_prop in Epre as [[Hr%Z.eqb_eq _]%andb_prop _].
  assert (forall router1, root_keeps router router1 -> runs
    (o ← withRound state (te_Round e) (atRound state (te_Period e) (store_threshold state e)); mret (Some o))
    (fun o router' => root_keeps router router' /\ pl_Round state = te_Round e /\ stages router' e o) router1) as Hst.
  { intros router1 Hk1. apply runs_bind. eapply runs_mono.
    { apply (runs_round_at state (te_Round e) (te_Period e) _ (fun o c' => staged_in c' (te_Period e) = te_Proposal e /\
        forall ec, Some o = Some (stagedCommittable ec) ->
          ce_Proposal ec = te_Proposal e /\ certifiable c' (te_Period e) (te_Proposal e))); [apply Hk1|].
      intros c Hc _ _. eapply runs_mono; [by apply (store_threshold_wf P)|]. cbn beta. intros o c' (Hk & _ & Hs & Ho).
      split_and!; [done..|]. by intros ec [= ->]. }
    cbn beta. intros o router' (Hk & _ & c' & Hc' & Ho). run_step. split; [by eapply root_keeps_trans|]. split; [done|].
    unfold stages, roundOf. by rewrite Hc'. }
  assert (forall m : M rootRouter unit, runs m (fun _ router1 => root_keeps router router1) router ->
    runs (_ ← m; o ← withRound state (te_Round e) (atRound state (te_Period e) (store_threshold state e)); mret (Some o))
      (fun o router' => root_keeps router router' /\ pl_Round state = te_Round e /\ stages router' e o) router) as Hboth.
  { intros m Hm. apply runs_bind. eapply runs_mono; [exact Hm|]. intros u router1 Hk1. by apply Hst. }
  assert (runs (if pl_Period state <? te_Period e then handleNewPeriod state e else mret tt)
            (fun _ router1 => root_keeps router router1) router) as Hnp.
  { destruct (_ <? _); [by apply handleNewPeriod_spec|]. run_step. by apply root_keeps_refl. }
  destruct (te_T e) eqn:Et; [by run_step| | |].
  - eapply runs_mono; [by apply Hboth|]. cbn beta. naive_solver.
  - eapply runs_mono; [by apply Hboth|]. cbn beta. naive_solver.
  - apply runs_bind. eapply runs_mono; [by apply handleNewPeriod_spec|]. cbn beta. intros u router' Hk. by run_step.
Qed.

End facts.
