(* ===== verification/AgPlayerFacts.v ===== *)
(** The agreement player: its invariant, the order on its positions, and what
    it does on a threshold.

    The recursion of [enterRound] is bounded by the number of rounds that have a
    pipelined threshold. *)
From S2P Require Import Prelude Config Basics Transactions Bookkeeping AgVote AgTracker AgDelivery AgProposal AgRouter AgRouterFacts AgPlayer AgMachineFacts.
#[local] Open Scope string_scope.
#[local] Open Scope list_scope.
#[local] Open Scope Z_scope.

Section facts.
  Context {D : Deliveries} (C : VoteCrypto) (P : ProposalCrypto).
  Notation root_wf := (root_wf P).
  Notation round_wf := (round_wf P).
  Notation root_keeps := (root_keeps P).

(** ** The player *)

(** Messages whose votes, when they verified, may be delivered; a bundle's votes
    are of its round. *)
Fixpoint message_ok (e : messageEvent) : Prop :=
  match me_Input e with
  | voteVerified _ v => when_verified e (fun protoV => vote_fit protoV v)
  | bundleVerified _ b => when_verified e (bundle_fit b)
  | _ => True
  end /\
  match me_Tail e with Some tail => message_ok tail | None => True end.

Definition pending_ok (t : proposalTable) : Prop :=
  forall k e, tbl_Pending t !! k = Some (Some e) -> message_ok e.

(** The last step the player can reach: the range of a later one is empty. *)
Definition maxStep : step := next + 53.

Record player_wf (p : player) : Prop := {
  pw_Round : 0 <= pl_Round p < MaxUint64;
  pw_Period : 0 <= pl_Period p < MaxUint64;
  pw_Step : soft <= pl_Step p <= maxStep;
  pw_Napping : pl_Napping p = true -> next <= pl_Step p;
  pw_Pending : pending_ok (pl_Pending p) }.

Definition machine_wf (s : machine) : Prop := root_wf (mc_router s) /\ player_wf (mc_player s).

(** Only the machines below change. *)
Definition below (s s' : machine) : Prop := mc_player s' = mc_player s /\ root_keeps (mc_router s) (mc_router s').

Lemma below_refl s : machine_wf s -> below s s.
Proof. intros [Hw _]. split; [done|by apply root_keeps_refl]. Qed.
Lemma below_trans a b c : below a b -> below b c -> below a c.
Proof. intros [E1 H1] [E2 H2]. split; [congruence|by eapply root_keeps_trans]. Qed.
Lemma below_wf s s' : machine_wf s -> below s s' -> machine_wf s'.
Proof. intros [_ Hp] [E [Hw _]]. split; [done|by rewrite E]. Qed.

Lemma runs_dispatch {A} (f : player -> M rootRouter A) (Q : A -> rootRouter -> Prop) s :
  runs (f (mc_player s)) Q (mc_router s) ->
  runs (dispatch f) (fun a s' => mc_player s' = mc_player s /\ Q a (mc_router s')) s.
Proof. unfold runs, dispatch. by destruct (f (mc_player s) (mc_router s)) as [[]]. Qed.

Lemma runs_dispatchRoot {A} r (f : player -> M rootRouter A) (Q : A -> rootRouter -> Prop) s :
  runs (f (mc_player s)) Q (root_update (mc_player s) r (mc_router s)) ->
  runs (dispatchRoot r f) (fun a s' => mc_player s' = mc_player s /\ Q a (mc_router s')) s.
Proof. unfold runs, dispatchRoot. by destruct (f (mc_player s) _) as [[]]. Qed.

(** A query that leaves the player and the thresholds alone. *)
Lemma runs_query {A} (f : player -> M rootRouter A) (Q : A -> rootRouter -> Prop) s : machine_wf s ->
  runs (f (mc_player s)) (fun a router' => root_keeps (mc_router s) router' /\ Q a router') (mc_router s) ->
  runs (dispatch f) (fun a s' => below s s' /\ Q a (mc_router s')) s.
Proof.
  intros _ H. eapply runs_mono; [by apply runs_dispatch|]. cbn beta. unfold below. naive_solver.
Qed.

Lemma runs_queryRoot {A} r (f : player -> M rootRouter A) (Q : A -> rootRouter -> Prop) s : machine_wf s ->
  (forall router, root_keeps (mc_router s) router ->
     runs (f (mc_player s)) (fun a router' => root_keeps router router' /\ Q a router') router) ->
  runs (dispatchRoot r f) (fun a s' => below s s' /\ Q a (mc_router s')) s.
Proof.
  intros [Hw _] H. pose proof (root_keeps_update P (mc_player s) r _ Hw) as Hk.
  eapply runs_mono; [apply runs_dispatchRoot; by apply H|]. cbn beta. intros a s' (E & Hk' & HQ).
  split; [|done]. split; [done|by eapply root_keeps_trans].
Qed.

(** An action that neither votes nor commits. *)
Definition boring (a : action) : Prop :=
  match a with attest _ _ _ _ | ensureAction _ _ => False | _ => True end.

Lemma query_simple {A} (f : player -> M rootRouter A) s : machine_wf s ->
  runs (f (mc_player s)) (fun _ router' => root_keeps (mc_router s) router') (mc_router s) ->
  runs (dispatch f) (fun _ s' => below s s') s.
Proof.
  intros Hw H. eapply runs_mono; [apply (runs_query f (fun _ _ => True)); [done|]|naive_solver].
  eapply runs_mono; [exact H|naive_solver].
Qed.

Lemma relayStaged_spec r p s : machine_wf s ->
  runs (relayStaged r p) (fun acts s' => below s s' /\ Forall boring acts) s.
Proof.
  intros Hw. unfold relayStaged. apply runs_bind.
  eapply runs_mono; [apply query_simple; [done|eapply runs_mono; [apply stagedValue_spec, Hw|naive_solver]]|].
  cbn beta. intros a s1 H1. destruct (sv_Payload a); [run_step; split; [done|by repeat constructor]|].
  pose proof (below_wf s s1 Hw H1) as Hw1. apply runs_bind.
  eapply runs_mono; [apply query_simple; [done|apply pinnedValue_spec, Hw1]|].
  cbn beta. intros b s2 H2. run_step. split; [by eapply below_trans|]. destruct (sv_Payload b); by repeat constructor.
Qed.

Lemma partitionPolicy_spec s : machine_wf s ->
  runs partitionPolicy (fun acts s' => below s s' /\ Forall boring acts) s.
Proof.
  intros Hw. unfold partitionPolicy, pl. run_step. destruct (negb _); [run_step; split; [by apply below_refl|constructor]|].
  apply runs_bind. eapply runs_mono; [apply query_simple; [done|]|].
  { eapply runs_mono; [apply freshestBundle_spec, Hw|naive_solver]. }
  cbn beta. intros t s1 H1. pose proof (below_wf s s1 Hw H1) as Hw1. apply runs_bind.
  assert (forall r p, runs (relayStaged r p) (fun acts s' => below s s' /\ Forall boring acts) s1) as Hrel.
  { intros r p. eapply runs_mono; [by apply relayStaged_spec|]. cbn beta. intros acts s' [H Ha]. split; [by eapply below_trans|done]. }
  eapply (runs_mono _ (fun acts s' => below s s' /\ Forall boring acts)).
  - destruct (_ && _); [apply Hrel|]. destruct (_ =? _); [apply Hrel|]. run_step. split; [done|constructor].
  - cbn beta. intros acts s' [H Ha]. run_step. split; [done|]. apply Forall_app. split; [|done].
    destruct (vtr_Ok t); by repeat constructor.
Qed.

(** The position of the player, with the vote of a step after its nap. *)
Definition stage (p : player) : Z :=
  2 * pl_Step p + (if (next <=? pl_Step p) && negb (pl_Napping p) then 1 else 0).

Definition behind (p p' : player) : Prop :=
  pl_Round p < pl_Round p' \/ (pl_Round p = pl_Round p' /\
    (pl_Period p < pl_Period p' \/ (pl_Period p = pl_Period p' /\ stage p <= stage p'))).

Lemma behind_refl p : behind p p.
Proof. unfold behind. lia. Qed.
Lemma behind_trans a b c : behind a b -> behind b c -> behind a c.
Proof. unfold behind. lia. Qed.

(** A cert vote is for the value staged in the current period, whose payload is
    here; a commit has a certificate for its payload and leaves the round; other
    votes are those of fast recovery. *)
Definition proper (s : machine) (a : action) : Prop :=
  match a with
  | attest r p st pv =>
      late <= st \/
      (st = cert /\ r = pl_Round (mc_player s) /\ p = pl_Period (mc_player s) /\ certifiable (roundOf (mc_router s) r) p pv)
  | ensureAction pp b =>
      pp_value P pp = ub_Proposal b /\ ub_Step b = cert /\ ub_Round b < pl_Round (mc_player s) /\
      proven (ub_Round b) (ub_Period b) cert (ub_Proposal b) b
  | _ => True
  end.

Lemma boring_proper s acts : Forall boring acts -> Forall (proper s) acts.
Proof. intros H. eapply Forall_impl; [exact H|]. by intros []. Qed.

Definition good (s : machine) (acts : list action) (s' : machine) : Prop :=
  machine_wf s' /\ behind (mc_player s) (mc_player s') /\ Forall (proper s') acts.

Lemma good_below s s' acts : machine_wf s -> below s s' -> Forall boring acts -> good s acts s'.
Proof.
  intros Hw Hb Ha. split_and!; [by eapply below_wf| |by apply boring_proper]. rewrite (proj1 Hb). apply behind_refl.
Qed.

(** A result reached from a state where only the machines below had changed. *)
Lemma good_from s s1 acts s' : below s s1 -> good s1 acts s' -> good s acts s'.
Proof. intros [E _] (Hw & Hb & Ha). split_and!; [done|by rewrite <- E|done]. Qed.

Lemma threshold_cert e r : isThreshold e = true -> event_wf r e -> te_T e = certThreshold -> te_Step e = cert.
Proof.
  intros Ht He Hc. destruct (He Ht) as (_ & Hk & _). rewrite Hc in Hk. unfold thresholdKind in Hk.
  destruct (Z.eqb_spec (te_Step e) soft); [done|]. destruct (Z.eqb_spec (te_Step e) cert); [done|done].
Qed.

Lemma enterPeriod_spec e target s : machine_wf s -> isThreshold e = true ->
  pl_Period (mc_player s) < target < MaxUint64 -> (te_T e <> nextThreshold -> target = te_Period e) ->
  runs (enterPeriod e target) (fun acts s' => good s acts s' /\ pl_Round (mc_player s') = pl_Round (mc_player s) /\
    no_fresher (mc_router s) (mc_router s')) s.
Proof.
  intros Hw Hthr Htgt Hte. unfold enterPeriod. apply runs_bind. eapply runs_mono; [by apply partitionPolicy_spec|].
  cbn beta. intros acts0 s1 [H1 Ha0]. pose proof (below_wf s s1 Hw H1) as Hw1. unfold pl. run_step. cbn [id]. apply runs_bind.
  eapply runs_mono.
  { apply (runs_queryRoot _ (fun st => mgr_threshold st e) (fun o router' => pl_Round (mc_player s1) = te_Round e /\
      (te_T e <> nextThreshold -> stages router' e o) /\ (te_T e = nextThreshold -> o = None))); [done|].
    intros router Hk. apply mgr_threshold_spec, Hk. }
  cbn beta. intros o s2 (H2 & Hr & Hst & Hno). unfold setPlayer. run_step. run_step. cbn [mc_player mc_router id].
  pose proof (below_trans _ _ _ H1 H2) as H12. destruct (proj2 (below_wf _ _ Hw H12)) as [W1 W2 W3 W4 W5].
  set (s3 := mkMachine (toPeriod (te_Proto e) target (mc_player s2)) (mc_router s2)).
  assert (forall acts, Forall (proper s3) acts -> good s acts s3 /\ pl_Round (mc_player s3) = pl_Round (mc_player s) /\
            no_fresher (mc_router s) (mc_router s3)) as Hgood.
  { intros acts Ha. split_and!; [|cbn; by rewrite (proj1 H12)|apply H12]. split_and!; [| |done].
    - split; [apply H12|]. rewrite (proj1 H12) in W2. split; cbn [pl_Round pl_Period pl_Step pl_Napping mc_player s3 toPeriod set_field];
        [done|lia|done|done|done].
    - unfold behind. cbn. rewrite (proj1 H12). lia. }
  assert (Forall (proper s3) (acts0 ++ [rezeroAction (pl_Round (mc_player s3))])) as Ha.
  { apply Forall_app. split; [by apply boring_proper|by repeat constructor]. }
  destruct o as [[ep|ec]|].
  - run_step. apply Hgood. destruct (te_T e) eqn:Et; [done..|]. specialize (Hno eq_refl). done.
  - assert (te_T e <> nextThreshold) as Hn by (intros Hn; by specialize (Hno Hn)).
    destruct (proj2 (Hst Hn) ec eq_refl) as [Hec Hce]. unfold issueCertVote, pl. run_step. run_step. run_step. apply Hgood.
    apply Forall_app. split; [done|]. apply Forall_singleton. right. rewrite Hec. cbn. rewrite (Hte Hn).
    split_and!; [done..|]. rewrite (proj1 H2), Hr. done.
  - run_step. apply Hgood. destruct (te_T e); [done..|]. case_bool_decide; (apply Forall_app; split; [done|by repeat constructor]).
Qed.

(** ** Rounds with a pipelined threshold *)

Definition ok_rounds (router : rootRouter) (r : Round) : nat :=
  size (filter (fun kv : Round * roundRouter => r <= kv.1 /\ vtr_Ok (VoteTrackerRound kv.2) = true) router).

Lemma ok_rounds_no_fresher router router' r : no_fresher router router' -> (ok_rounds router' r <= ok_rounds router r)%nat.
Proof.
  intros Hn. unfold ok_rounds. rewrite <- !size_dom. apply subseteq_size. intros q.
  rewrite !elem_of_dom. intros [c' [Hc' [Hr Hok]]%map_lookup_filter_Some]. cbn in *.
  destruct (Hn q c' Hc' Hok) as (c & Hc & E). exists c. apply map_lookup_filter_Some. cbn. by rewrite E.
Qed.

Lemma ok_rounds_next router r : vtr_Ok (VoteTrackerRound (roundOf router r)) = true ->
  (ok_rounds router (r + 1) < ok_rounds router r)%nat.
Proof.
  intros Hok. unfold ok_rounds. rewrite <- !size_dom. apply subset_size. split.
  - intros q. rewrite !elem_of_dom. intros [c' [Hc' [Hr Hok']]%map_lookup_filter_Some]. cbn in *.
    exists c'. apply map_lookup_filter_Some. cbn. split; [done|]. split; [lia|done].
  - intros Hsub. specialize (Hsub r). rewrite !elem_of_dom in Hsub. destruct Hsub as [c' [_ [Hr _]]%map_lookup_filter_Some].
    + unfold roundOf in Hok. destruct (router !! r) as [c|] eqn:E; [|done]. exists c. apply map_lookup_filter_Some. cbn in *.
      split; [done|]. split; [lia|done].
    + cbn in Hr. lia.
Qed.

(** ** Thresholds *)

(** What the entry of the next round does from [s]. *)
Definition enters (s : machine) (enter : string -> Round -> M machine (list action)) : Prop :=
  forall s1 proto, below s s1 ->
    runs (enter proto (pl_Round (mc_player s) + 1)) (fun acts s' => good s1 acts s' /\
      pl_Round (mc_player s) < pl_Round (mc_player s')) s1.

Lemma wrap_succ x : 0 <= x < MaxUint64 -> wrap64 (x + 1) = x + 1.
Proof. intros H. apply wrap64_small. unfold is_u64, MaxUint64, two64 in *. lia. Qed.

Lemma good_nil s s' : machine_wf s -> below s s' -> good s [] s'.
Proof. intros. apply good_below; [done|done|constructor]. Qed.

(** The manager stages a soft or cert threshold. *)
Lemma stage_threshold r e s : machine_wf s -> te_T e <> nextThreshold ->
  runs (dispatchRoot r (fun st => mgr_threshold st e)) (fun o s' => below s s' /\ stages (mc_router s') e o) s.
Proof.
  intros Hw Ht. apply (runs_queryRoot r _ (fun o router' => stages router' e o)); [done|]. intros router Hk.
  eapply runs_mono; [apply mgr_threshold_spec, Hk|]. cbn beta. naive_solver.
Qed.

Section threshold.
  Context (enter : string -> Round -> M machine (list action)) (e : thresholdEvent) (s : machine).
  Context (Hw : machine_wf s) (Hthr : isThreshold e = true) (He : event_wf (pl_Round (mc_player s)) e).

Lemma handle_softThreshold : te_T e = softThreshold ->
  runs (handleThreshold_with enter e) (fun acts s' => good s acts s') s.
Proof.
  intros Et. destruct (He Hthr) as (Er & _ & _ & Hpb & _). destruct (proj2 Hw) as [W1 W2 W3 W4 W5].
  unfold handleThreshold_with, pl. run_step. cbn [id]. rewrite Et.
  destruct (Z.ltb_spec (te_Period e) (pl_Period (mc_player s))); [run_step; by apply good_nil, below_refl|].
  destruct (Z.ltb_spec (pl_Period (mc_player s)) (te_Period e)).
  { eapply runs_mono; [apply enterPeriod_spec; [done|done|lia|by intros]|]. cbn beta. naive_solver. }
  apply runs_bind. eapply runs_mono; [apply stage_threshold; [done|by rewrite Et]|].
  cbn beta. intros o s1 (H1 & Hst). destruct o as [[ep|ec]|]; [run_step; by apply good_nil| |run_step; by apply good_nil].
  destruct (_ <=? cert); [|run_step; by apply good_nil]. unfold issueCertVote, pl. run_step. run_step. run_step.
  destruct (proj2 Hst ec eq_refl) as [Hec Hce]. destruct (good_nil s s1 Hw H1) as (G1 & G2 & _).
  split_and!; [done|done|]. apply Forall_singleton. right. cbn [id]. rewrite Hec.
  split_and!; [done..|]. rewrite (proj1 H1), <- Er. replace (pl_Period (mc_player s)) with (te_Period e) by lia. done.
Qed.

Lemma handle_certThreshold : te_T e = certThreshold -> enters s enter ->
  runs (handleThreshold_with enter e) (fun acts s' => good s acts s') s.
Proof.
  intros Et Hen. pose proof (He Hthr) as (Er & Hkind & Hrb & Hpb & Hb1 & Hb2 & Hb3 & Hb4 & Hpr). destruct (proj2 Hw) as [W1 W2 W3 W4 W5].
  unfold handleThreshold_with, pl. run_step. cbn [id]. rewrite Et. apply runs_bind.
  eapply runs_mono; [apply stage_threshold; [done|by rewrite Et]|].
  cbn beta. intros o s1 (H1 & Hst). pose proof (below_wf s s1 Hw H1) as Hw1. apply runs_bind. eapply runs_mono.
  { apply (runs_query (fun st => stagedValue st (te_Round e) (te_Period e)) (fun a _ =>
      forall pp, sv_Payload a = Some pp -> pp_value P pp = te_Proposal e)); [done|].
    eapply runs_mono; [apply stagedValue_spec, Hw1|]. cbn beta. intros a router' (Hk & _ & Hsv & Hp).
    split; [done|]. rewrite <- (proj1 Hst). by rewrite <- Hsv. }
  cbn beta. intros a s2 (H2 & Hpay). pose proof (below_trans _ _ _ H1 H2) as H12. destruct (sv_Payload a) as [pp|].
  - apply runs_bind. rewrite wrap_succ by done. eapply runs_mono; [by apply Hen|]. cbn beta. intros acts s' [Hg Hlt]. run_step.
    apply (good_from s s2); [done|]. destruct Hg as (G1 & G2 & G3). split_and!; [done|done|]. constructor; [|done].
    assert (te_Step e = cert) as Hst' by by eapply threshold_cert.
    cbn. rewrite Hb4, Hb3, Hb2, Hb1, Er. split_and!; [by apply Hpay|done|done|]. by rewrite <- Hst'.
  - pose proof (below_wf s s2 Hw H12) as Hw2. apply runs_bind.
    eapply (runs_mono _ (fun acts s' => good s2 acts s')).
    + destruct (Z.ltb_spec (pl_Period (mc_player s)) (te_Period e)).
      * eapply runs_mono; [apply enterPeriod_spec; [done|done|rewrite (proj1 H12); lia|by intros]|]. cbn beta. naive_solver.
      * run_step. by apply good_nil, below_refl.
    + cbn beta. intros acts s' Hg. run_step. apply (good_from s s2); [done|]. destruct Hg as (G1 & G2 & G3).
      split_and!; [done|done|]. by constructor.
Qed.

Lemma handleThreshold_spec : enters s enter -> runs (handleThreshold_with enter e) (fun acts s' => good s acts s') s.
Proof.
  intros Hen. destruct (te_T e) eqn:Et; [|by apply handle_softThreshold|by apply handle_certThreshold|].
  - unfold isThreshold in Hthr. by rewrite Et in Hthr.
  - destruct (He Hthr) as (_ & _ & _ & Hpb & _). unfold handleThreshold_with, pl. run_step. cbn [id]. rewrite Et.
    destruct (Z.ltb_spec (te_Period e) (pl_Period (mc_player s))); [run_step; by apply good_nil, below_refl|].
    rewrite wrap_succ by lia. eapply runs_mono; [apply enterPeriod_spec; [done|done|lia|by rewrite Et]|]. cbn beta. naive_solver.
Qed.
End threshold.

Lemma enterRound_spec fuel proto target s : machine_wf s -> pl_Round (mc_player s) < target < MaxUint64 ->
  (ok_rounds (mc_router s) target < fuel)%nat ->
  runs (enterRound fuel proto target) (fun acts s' => good s acts s' /\ target <= pl_Round (mc_player s')) s.
Proof.
  revert proto target s. induction fuel as [|fuel IH]; intros proto target s Hw Htgt Hfuel; [lia|]. cbn [enterRound].
  destruct (proj2 Hw) as [W1 W2 W3 W4 W5]. apply runs_bind. eapply runs_mono.
  { apply (runs_queryRoot _ (fun st => mgr_newRound st target) (fun _ _ => True)); [done|].
    intros router Hk. eapply runs_mono; [apply mgr_newRound_spec, Hk|]. naive_solver. }
  cbn beta. intros ep s1 [H1 _]. unfold setPlayer. run_step. set (s2 := mkMachine _ (mc_router s1)).
  assert (machine_wf s2) as Hw2.
  { split; [apply H1|]. split; cbn; [lia|done|done|done|]. rewrite (proj1 H1). done. }
  assert (forall acts s', good s2 acts s' -> good s acts s' /\ target <= pl_Round (mc_player s')) as Hg2.
  { intros acts s' (G1 & G2 & G3). unfold good, behind in *. cbn in G2. split; [split_and!; [done| |done]|]; lia. }
  apply runs_bind. eapply runs_mono.
  { apply (runs_query (fun st => freshestBundle st (pl_Round st)) (fun t _ => freshest_wf target t /\
      t = VoteTrackerRound (roundOf (mc_router s1) target))); [done|].
    eapply runs_mono; [apply freshestBundle_spec, Hw2|]. cbn. naive_solver. }
  cbn beta. intros t s3 (H3 & Ht & Et). pose proof (below_wf _ _ Hw2 H3) as Hw3.
  assert (pl_Round (mc_player s3) = target) as Hr3 by by rewrite (proj1 H3).
  apply runs_bind. eapply (runs_mono _ (fun acts s' => good s3 acts s')).
  - destruct (vtr_Ok t) eqn:Eok; [|run_step; by apply good_nil, below_refl].
    pose proof (proj2 Ht Eok) as Hthr. pose proof (proj1 Ht Hthr) as (_ & _ & Hb & _).
    apply handleThreshold_spec; [done|done|by rewrite Hr3; apply Ht|]. intros s4 proto' H4. rewrite Hr3.
    eapply runs_mono; [apply IH|]; [by eapply below_wf|rewrite (proj1 H4), Hr3; lia| |].
    + pose proof (ok_rounds_next (mc_router s1) target ltac:(by rewrite <- Et)) as Hn.
      pose proof (ok_rounds_no_fresher _ _ (target + 1) (proj2 (proj2 H4))).
      pose proof (ok_rounds_no_fresher _ _ (target + 1) (proj2 (proj2 H3))).
      pose proof (ok_rounds_no_fresher _ _ target (proj2 (proj2 H1))). cbn in *. lia.
    + cbn beta. intros acts s' [Hg Hle]. split; [done|lia].
  - cbn beta. intros acts s' Hg. run_step. apply Hg2. apply (good_from s2 s3) in Hg as (G1 & G2 & G3); [|done].
    split_and!; [done|done|]. apply Forall_app. split; [|done]. constructor; [done|]. constructor; [done|].
    destruct ep; by repeat constructor.
Qed.

End facts.
