(* ===== verification/AgEventFacts.v ===== *)
(** The agreement player: one event of the service, a message, a timeout or an
    interruption, from the player through the machines below.  Every handler ends
    with enough fuel, and more fuel does not change its answer. *)
From S2P Require Import Prelude Config Basics Transactions Bookkeeping AgVote AgTracker AgDelivery AgProposal AgRouter AgRouterFacts AgPlayer AgMachineFacts AgPlayerFacts.
#[local] Open Scope string_scope.
#[local] Open Scope list_scope.
#[local] Open Scope Z_scope.

Section facts.
  Context {D : Deliveries} (C : VoteCrypto) (P : ProposalCrypto).
  Notation root_wf := (root_wf P).
  Notation round_wf := (round_wf P).
  Notation root_keeps := (root_keeps P).
  Notation machine_wf := (machine_wf P).
  Notation below := (below P).
  Notation good := (good P).
  Notation proper := (proper P).

(** ** Messages *)

(** With enough fuel. *)
Definition eventually {A} (m : nat -> M machine A) (Q : A -> machine -> Prop) (s : machine) : Prop :=
  exists N, forall fuel, (N <= fuel)%nat -> runs (m fuel) Q s.

Lemma eventually_now {A} (m : M machine A) Q s : runs m Q s -> eventually (fun _ => m) Q s.
Proof. intros H. by exists 0%nat. Qed.
Lemma eventually_bind {A B} (m : M machine A) (k : nat -> A -> M machine B) Q s :
  runs m (fun a s1 => eventually (fun fuel => k fuel a) Q s1) s -> eventually (fun fuel => m ≫= k fuel) Q s.
Proof.
  unfold runs at 1. intros H. destruct (m s) as [[a|e|] s1] eqn:E.
  - destruct H as [N HN]. exists N. intros fuel Hf. specialize (HN fuel Hf). unfold runs, mbind, M_bind in *. by rewrite E.
  - done.
  - exists 0%nat. intros fuel _. unfold runs, mbind, M_bind. by rewrite E.
Qed.
Lemma eventually_then {A B} (m : nat -> M machine A) (k : A -> M machine B) Q s :
  eventually m (fun a s1 => runs (k a) Q s1) s -> eventually (fun fuel => m fuel ≫= k) Q s.
Proof. intros [N HN]. exists N. intros fuel Hf. by apply runs_bind, HN. Qed.
Lemma eventually_mono {A} (m : nat -> M machine A) (Q Q' : A -> machine -> Prop) s :
  eventually m Q s -> (forall a s', Q a s' -> Q' a s') -> eventually m Q' s.
Proof. intros [N HN] H. exists N. intros fuel Hf. eapply runs_mono; [by apply HN|done]. Qed.

(** A result reached from where the player was the same. *)
Lemma good_same s s1 acts s' : mc_player s1 = mc_player s -> good s1 acts s' -> good s acts s'.
Proof. intros E (Hw & Hb & Ha). split_and!; [done|by rewrite <- E|done]. Qed.

Lemma good_cons s a acts s' : boring a -> good s acts s' -> good s (a :: acts) s'.
Proof. intros Ha (G1 & G2 & G3). split_and!; [done|done|]. constructor; [by destruct a|done]. Qed.

Lemma enterRound_eventually proto target s : machine_wf s -> pl_Round (mc_player s) < target < MaxUint64 ->
  eventually (fun fuel => enterRound fuel proto target) (fun acts s' => good s acts s' /\ target <= pl_Round (mc_player s')) s.
Proof.
  intros Hw Ht. exists (S (ok_rounds (mc_router s) target)). intros fuel Hf. apply enterRound_spec; [done|done|lia].
Qed.

Lemma handleThresholdEvent_spec e s : machine_wf s -> isThreshold e = true -> event_wf (pl_Round (mc_player s)) e ->
  eventually (fun fuel => handleThresholdEvent fuel e) (fun acts s' => good s acts s') s.
Proof.
  intros Hw Hthr He. exists (S (ok_rounds (mc_router s) (pl_Round (mc_player s) + 1))). intros fuel Hf.
  apply handleThreshold_spec; [done|done|done|]. intros s1 proto H1. pose proof (below_wf P s s1 Hw H1) as Hw1.
  destruct (He Hthr) as (Er & _ & Hb & _).
  eapply runs_mono; [apply enterRound_spec; [done|rewrite (proj1 H1); lia|]|].
  - pose proof (ok_rounds_no_fresher _ _ (pl_Round (mc_player s) + 1) (proj2 (proj2 H1))). lia.
  - cbn beta. intros acts s' [Hg Hle]. split; [done|lia].
Qed.

(** The aggregator changes the vote machines. *)
Lemma runs_aggregate (f : player -> M rootRouter aggregatorResult) s : machine_wf s ->
  (forall router, root_wf router -> runs (f (mc_player s)) (fun o router' => root_wf router' /\ reports (mc_player s) o) router) ->
  runs (dispatchRoot 0 f) (fun o s' => machine_wf s' /\ mc_player s' = mc_player s /\ reports (mc_player s) o) s.
Proof.
  intros [Hw Hp] Hf. eapply runs_mono; [apply runs_dispatchRoot, Hf; by apply root_update_wf|].
  cbn beta. intros o s' (E & Hw' & Ho). split_and!; [|done|done]. split; [done|by rewrite E].
Qed.

Lemma good_reply s s1 a : machine_wf s1 -> mc_player s1 = mc_player s -> boring a -> good s [a] s1.
Proof.
  intros Hw E Ha. apply (good_same s s1); [done|]. apply good_below; [done|by apply below_refl|by repeat constructor].
Qed.

Lemma handleVote_spec e s : machine_wf s -> message_ok e ->
  eventually (fun fuel => handleVote fuel e) (fun acts s' => good s acts s') s.
Proof.
  intros Hw Hm. unfold handleVote. destruct e as [[uv|uv v|up|up pp|ub|ub b] h err ti tl cn pr] eqn:Ee;
    cbn [me_Input me_MessageHandle]; try by apply eventually_now, runs_panic.
  - apply eventually_now, runs_bind. eapply runs_mono; [apply runs_aggregate; [done|]|].
    { intros router Hr. by apply agg_votePresent_spec. }
    cbn beta. intros o s1 (Hw1 & E1 & _). destruct o; run_step; by apply good_reply.
  - destruct Hm as [Hv _]. cbn [me_Input] in Hv. apply eventually_bind. eapply runs_mono; [apply runs_aggregate; [done|]|].
    { intros router Hr. by apply agg_voteVerified_spec. }
    cbn beta. intros o s1 (Hw1 & E1 & Ho). destruct o as [|er|er|te]; try (apply eventually_now; run_step; by apply good_reply).
    destruct Ho as [Hthr He]. rewrite <- E1 in He. apply eventually_then.
    eapply eventually_mono; [by apply handleThresholdEvent_spec|]. cbn beta. intros acts s' Hg. run_step.
    apply (good_same s s1); [done|]. by apply good_cons.
Qed.

Lemma handleBundle_spec e s : machine_wf s -> message_ok e ->
  eventually (fun fuel => handleBundle fuel e) (fun acts s' => good s acts s') s.
Proof.
  intros Hw Hm. unfold handleBundle. destruct e as [[uv|uv v|up|up pp|ub|ub b] h err ti tl cn pr] eqn:Ee;
    cbn [me_Input me_MessageHandle]; try by apply eventually_now, runs_panic.
  - apply eventually_now, runs_bind. eapply runs_mono; [apply runs_aggregate; [done|]|].
    { intros router Hr. unfold agg_bundlePresent. destruct (bundleFresh _ _); by run_step. }
    cbn beta. intros o s1 (Hw1 & E1 & _). destruct o; run_step; by apply good_reply.
  - destruct Hm as [Hv _]. cbn [me_Input] in Hv. apply eventually_bind. eapply runs_mono; [apply runs_aggregate; [done|]|].
    { intros router Hr. by apply agg_bundleVerified_spec. }
    cbn beta. intros o s1 (Hw1 & E1 & Ho).
    destruct o as [|er|er|te]; try (apply eventually_now; run_step; by apply good_reply).
    destruct Ho as [Hthr He]. rewrite <- E1 in He. apply eventually_then.
    eapply eventually_mono; [by apply handleThresholdEvent_spec|]. cbn beta. intros acts s' Hg. run_step.
    apply (good_same s s1); [done|]. by apply good_cons.
Qed.

(** A payload that the freshest threshold of the round certifies ends the round. *)
Lemma finishRound_spec e pp s : machine_wf s ->
  eventually (fun fuel => finishRound P fuel e pp) (fun o s' =>
    match o with
    | Some acts => good s acts s'
    | None => below s s' /\ forall pv,
        certifiable (roundOf (mc_router s) (pl_Round (mc_player s))) (pl_Period (mc_player s)) pv ->
        certifiable (roundOf (mc_router s') (pl_Round (mc_player s))) (pl_Period (mc_player s)) pv
    end) s.
Proof.
  intros Hw. destruct (proj2 Hw) as [W1 W2 W3 W4 W5]. unfold finishRound. apply eventually_bind. eapply runs_mono.
  { apply (runs_query P (fun st => freshestBundle st (pl_Round st)) (fun t router' =>
      freshest_wf (pl_Round (mc_player s)) t /\ forall pv,
        certifiable (roundOf (mc_router s) (pl_Round (mc_player s))) (pl_Period (mc_player s)) pv ->
        certifiable (roundOf router' (pl_Round (mc_player s))) (pl_Period (mc_player s)) pv)); [done|].
    eapply runs_mono; [apply freshestBundle_spec, Hw|]. cbn beta. intros t router' (Hk & Ht & _ & Hc). split_and!; [done..|].
    intros pv. apply Hc. left. rewrite wrap_succ by done. lia. }
  cbn beta. intros t s1 (H1 & Ht & Hc). pose proof (below_wf P s s1 Hw H1) as Hw1.
  destruct (vtr_Ok t && bool_decide (te_T (vtr_Freshest t) = certThreshold)) eqn:E1; cbn [andb]; [|apply eventually_now; by run_step].
  apply andb_prop in E1 as [Hok Hcert%bool_decide_eq_true]. case_bool_decide as Hpv; [|apply eventually_now; by run_step].
  pose proof (proj2 Ht Hok) as Hthr. destruct (proj1 Ht Hthr) as (Er & _ & Hb & _ & B1 & B2 & B3 & B4 & Hpr).
  rewrite B1, Er, wrap_succ by lia. apply eventually_then.
  eapply eventually_mono; [apply enterRound_eventually; [done|rewrite (proj1 H1); lia]|].
  cbn beta. intros acts s' [Hg Hle]. run_step. apply (good_from P s s1); [done|]. destruct Hg as (G1 & G2 & G3).
  split_and!; [done|done|]. constructor; [|done]. assert (te_Step (vtr_Freshest t) = cert) as Hst by by eapply threshold_cert; [|apply Ht|].
  cbn. rewrite B4, B3, B2, B1, Er. split_and!; [done|done|lia|]. by rewrite <- Hst.
Qed.

Lemma relayOwn_boring e up ef : Forall boring (relayOwn e up ef).
Proof. unfold relayOwn. destruct (me_MessageHandle e); by repeat constructor. Qed.

Lemma handlePipelined_boring e up p ep : Forall boring (handlePipelined e up p ep).
Proof.
  unfold handlePipelined. destruct (_ =? _); [by repeat constructor|]. constructor; [done|apply relayOwn_boring].
Qed.

Lemma good_app s acts0 acts s' : Forall boring acts0 -> good s acts s' -> good s (acts0 ++ acts) s'.
Proof.
  intros Ha (G1 & G2 & G3). split_and!; [done|done|]. apply Forall_app. split; [by apply boring_proper|done].
Qed.

Lemma handlePayload_spec e s : machine_wf s ->
  eventually (fun fuel => handlePayload P fuel e) (fun acts s' => good s acts s') s.
Proof.
  intros Hw. unfold handlePayload. apply eventually_bind. unfold pl. run_step. cbn [id].
  destruct (me_Input e) as [uv|uv v|up|up pp|ub|ub b]; try (apply eventually_now, runs_panic).
  - apply eventually_now, runs_bind. eapply runs_mono.
    { apply (runs_queryRoot P 0 (fun st => mgr_payloadPresent P st up) (fun _ _ => True)); [done|]. intros router Hk.
      eapply runs_mono; [apply mgr_payloadPresent_spec, Hk|naive_solver]. }
    cbn beta. intros ef s1 [H1 _]. run_step. apply good_below; [done|done|].
    destruct ef; try apply handlePipelined_boring; try apply relayOwn_boring; by repeat constructor.
  - apply eventually_bind. eapply runs_mono.
    { apply (runs_queryRoot P 0 (fun st => mgr_payloadVerified P st e pp) (fun ef router' => match ef with
        | proposalCommittable ec => certifiable (roundOf router' (pl_Round (mc_player s))) (pl_Period (mc_player s)) (ce_Proposal ec)
        | _ => True end)); [done|]. intros router Hk.
      eapply runs_mono; [apply mgr_payloadVerified_spec, Hk|]. cbn beta. intros o router' [Hk' Ho]. split; [done|].
      destruct o; naive_solver. }
    cbn beta. intros ef s1 [H1 Hef]. pose proof (below_wf P s s1 Hw H1) as Hw1.
    destruct ef as [er|er|ep|v' pv'|ec].
    1,2: apply eventually_now; run_step; apply good_below; [done|done|by repeat constructor].
    + apply eventually_now. run_step. apply good_below; [done|done|apply handlePipelined_boring].
    + apply eventually_then. eapply eventually_mono; [by apply finishRound_spec|]. cbn beta. intros o s2 Ho. run_step.
      apply (good_from P s s1); [done|]. destruct o as [acts|]; [apply good_app; [apply relayOwn_boring|done]|].
      apply good_below; [done|apply Ho|apply relayOwn_boring].
    + apply eventually_then. eapply eventually_mono; [by apply finishRound_spec|]. cbn beta. intros o s2 Ho.
      destruct o as [acts|]; [run_step; apply (good_from P s s1); [done|]; apply good_app; [apply relayOwn_boring|done]|].
      destruct Ho as [H2 Hc2]. pose proof (below_trans P _ _ _ H1 H2) as H12.
      destruct (_ <=? cert); [|run_step; apply good_below; [done|done|apply relayOwn_boring]].
      unfold issueCertVote, pl. run_step. run_step. run_step. apply good_app; [apply relayOwn_boring|].
      destruct (good_nil P s s2 Hw H12) as (G1 & G2 & _). split_and!; [done|done|]. apply Forall_singleton. right. cbn [id].
      split_and!; [done..|]. rewrite (proj1 H12). rewrite (proj1 H1) in Hc2. by apply Hc2.
Qed.

(** The messages still to handle: this one with its tails, and those that wait. *)
Fixpoint depth (e : messageEvent) : nat := S (match me_Tail e with Some tail => depth tail | None => 0 end).

Definition waiting (t : proposalTable) : nat :=
  map_fold (fun _ o n => (match o with Some e => depth e | None => 0 end + n)%nat) 0%nat (tbl_Pending t).

Lemma waiting_pop k t e t' : pop k t = (Some e, t') -> (depth e + waiting t' = waiting t)%nat.
Proof.
  unfold pop. intros [= H <-]. destruct (tbl_Pending t !! k) as [o|] eqn:E; cbn in H; [|done]. subst o.
  unfold waiting. cbn. by rewrite (map_fold_delete_L _ _ k (Some e) (tbl_Pending t)) by (lia || done).
Qed.

Lemma pop_ok k t : pending_ok t -> pending_ok (pop k t).2.
Proof. intros H k' e. cbn. rewrite lookup_delete_Some. intros [_ He]. by eapply H. Qed.

Lemma pop_elem k t e : pending_ok t -> (pop k t).1 = Some e -> message_ok e.
Proof. intros H. cbn. destruct (tbl_Pending t !! k) as [o|] eqn:E; cbn; [|done]. intros ->. by eapply H. Qed.

Lemma push_ok o t : pending_ok t -> (forall e, o = Some e -> message_ok e) -> pending_ok (push o t).2.
Proof.
  intros H Ho k e. cbn. rewrite lookup_insert_Some. intros [[_ E]|[_ He]]; [by apply Ho|by eapply H].
Qed.

Lemma message_tail e tail : message_ok e -> me_Tail e = Some tail -> message_ok tail /\ (depth tail < depth e)%nat.
Proof. destruct e as [i h err ti tl cn pr]. cbn. intros [_ H] ->. split; [done|lia]. Qed.

(** A change of the table of waiting messages. *)
Definition retabled (s s' : machine) (t : proposalTable) : Prop :=
  mc_router s' = mc_router s /\ mc_player s' = mc_player s <| pl_Pending := t |>.

Lemma retabled_wf s s' t : machine_wf s -> retabled s s' t -> pending_ok t -> machine_wf s'.
Proof. intros [Hw [W1 W2 W3 W4 W5]] [E1 E2] Ht. split; [by rewrite E1|]. rewrite E2. by split. Qed.

Lemma retabled_good s s1 t acts s' : retabled s s1 t -> good s1 acts s' -> good s acts s'.
Proof. intros [_ E] (G1 & G2 & G3). rewrite E in G2. split_and!; [done|exact G2|done]. Qed.

Section tails.
  Context (handleTail : nat -> messageEvent -> M machine (list action)) (n : nat).
  Context (Htail : forall tail s, machine_wf s -> message_ok tail -> (depth tail + waiting (pl_Pending (mc_player s)) < n)%nat ->
    eventually (fun fuel => handleTail fuel tail) (fun acts s' => good s acts s') s).

Lemma handleProposalVote_spec e s : machine_wf s -> message_ok e ->
  (depth e + waiting (pl_Pending (mc_player s)) <= n)%nat ->
  eventually (fun fuel => handleProposalVote C (handleTail fuel) e) (fun acts s' => good s acts s') s.
Proof.
  intros Hw Hm Hn. unfold handleProposalVote. destruct (me_Input e) as [uv|uv v|up|up pp|ub|ub b]; try (apply eventually_now, runs_panic).
  - apply eventually_bind. eapply runs_mono.
    { apply (runs_queryRoot P 0 (fun st => filterProposalVote st (uv_R uv)) (fun _ _ => True)); [done|]. intros router Hk.
      eapply runs_mono; [apply filterProposalVote_spec, Hk|naive_solver]. }
    cbn beta. intros [err|] s1 [H1 _]; pose proof (below_wf P s s1 Hw H1) as Hw1.
    + apply eventually_then. destruct (me_Tail e) as [tail|] eqn:Et.
      * destruct (message_tail e tail Hm Et) as [Ht Hd].
        eapply eventually_mono; [apply Htail; [done|done|rewrite (proj1 H1); lia]|]. cbn beta. intros acts s' Hg. run_step.
        apply (good_from P s s1); [done|]. by apply good_cons.
      * apply eventually_now. run_step. run_step. apply good_below; [done|done|by repeat constructor].
    + apply eventually_now. unfold pl, setPlayer. run_step. destruct (push _ _) as [seq table] eqn:Ep. run_step. run_step.
      set (s2 := mkMachine _ _). assert (retabled s1 s2 table) as H2 by done. apply (good_from P s s1); [done|].
      apply (retabled_good s1 s2 table); [done|]. apply good_reply; [|done|done]. apply (retabled_wf s1 s2 table); [done|done|]. replace table with (push (me_Tail e) (pl_Pending (mc_player s1))).2 by by rewrite Ep.
      apply push_ok; [apply Hw1|]. intros tail Et. by eapply message_tail.
  - apply eventually_bind. eapply runs_mono.
    { apply (runs_queryRoot P 0 (fun st => mgr_voteVerified C st e v) (fun _ _ => True)); [done|]. intros router Hk.
      eapply runs_mono; [apply mgr_voteVerified_spec, Hk|naive_solver]. }
    cbn beta. intros ef s1 [H1 _]. pose proof (below_wf P s s1 Hw H1) as Hw1. apply eventually_bind. unfold pl. run_step.
    destruct (pop _ _) as [o table] eqn:Ep. apply eventually_bind. unfold setPlayer. run_step. set (s2 := mkMachine _ _).
    assert (retabled s1 s2 table) as H2 by done. assert (machine_wf s2) as Hw2.
    { apply (retabled_wf s1 s2 table); [done|done|]. replace table with (pop (me_TaskIndex e) (pl_Pending (mc_player s1))).2 by by rewrite Ep.
      apply pop_ok, Hw1. }
    apply eventually_then. eapply (eventually_mono _ (fun acts s' => good s2 acts s')).
    + destruct o as [tail|]; [|apply eventually_now; run_step; by apply good_nil, below_refl]. apply Htail; [done| |].
      * apply (pop_elem (me_TaskIndex e) (pl_Pending (mc_player s1))); [apply Hw1|by rewrite Ep].
      * apply waiting_pop in Ep. rewrite (proj1 H1) in Ep. cbn. destruct e. cbn [depth] in Hn. lia.
    + cbn beta. intros acts s' Hg. run_step. apply (good_from P s s1); [done|]. apply (retabled_good s1 s2 table); [done|].
      apply good_cons; [|done]. destruct ef as [ep| |]; [destruct (pa_Payload ep)|..]; done.
Qed.
End tails.

Lemma eventually_shift {A} (m : nat -> M machine A) Q s : eventually m Q s -> eventually (fun fuel => m (S fuel)) Q s.
Proof. intros [N HN]. exists N. intros fuel Hf. apply HN. lia. Qed.
Lemma eventually_succ {A} (m : nat -> M machine A) Q s : eventually (fun fuel => m (S fuel)) Q s -> eventually m Q s.
Proof. intros [N HN]. exists (S N). intros [|fuel] Hf; [lia|]. apply HN. lia. Qed.

Lemma handleMessageEvent_spec e s : machine_wf s -> message_ok e ->
  eventually (fun fuel => handleMessageEvent C P fuel e) (fun acts s' => good s acts s') s.
Proof.
  remember (depth e + waiting (pl_Pending (mc_player s)))%nat as n eqn:En. revert e s En.
  induction (lt_wf n) as [n _ IH]. intros e s -> Hw Hm. apply eventually_succ. cbn [handleMessageEvent].
  assert (eventually (fun fuel => handleProposalVote C (handleMessageEvent C P fuel) e) (fun acts s' => good s acts s') s) as Hp.
  { eapply handleProposalVote_spec; [|done|done|done]. intros tail s' Hw' Hm' Hlt. by eapply IH. }
  assert (eventually (fun fuel => handleVote (S fuel) e) (fun acts s' => good s acts s') s) as Hv.
  { apply (eventually_shift (fun fuel => handleVote fuel e)). by apply handleVote_spec. }
  destruct (me_Input e) as [uv|uv v|up|up pp|ub|ub b].
  1,2: by destruct (_ =? _).
  1,2: apply (eventually_shift (fun fuel => handlePayload P fuel e)); by apply handlePayload_spec.
  1,2: apply (eventually_shift (fun fuel => handleBundle fuel e)); by apply handleBundle_spec.
Qed.

(** ** Timeouts *)

(** The steps whose votes are issued by a timeout. *)
Definition timed (st : step) : bool := (st =? soft) || ((next <=? st) && (st <? late)).

Definition timedVotes : list action -> list (Round * period * step) :=
  omap (fun a => match a with attest r p st _ => if timed st then Some (r, p, st) else None | _ => None end).

Lemma timedVotes_app a b : timedVotes (a ++ b) = timedVotes a ++ timedVotes b.
Proof. apply omap_app. Qed.

Lemma proper_timed s acts : Forall (proper s) acts -> timedVotes acts = [].
Proof.
  induction 1 as [|a acts Ha _ IH]; [done|]. cbn. destruct a; try done. rewrite IH.
  assert (timed s0 = false) as ->; [|done]. cbn in Ha. unfold timed, soft, cert, next, late in *. lia.
Qed.

(** At most one timed vote, of the player's round and period, for a step the
    position of the player passes. *)
Definition votesOnce (s : machine) (acts : list action) (s' : machine) : Prop :=
  timedVotes acts = [] \/
  exists st, timedVotes acts = [(pl_Round (mc_player s), pl_Period (mc_player s), st)] /\
    pl_Round (mc_player s') = pl_Round (mc_player s) /\ pl_Period (mc_player s') = pl_Period (mc_player s) /\
    stage (mc_player s) < 2 * st + 1 <= stage (mc_player s').

(** A proper action, or a timed vote. *)
Definition sound (s : machine) (a : action) : Prop :=
  match a with attest r p st _ => timed st = true \/ proper s a | _ => proper s a end.

Lemma proper_sound s acts : Forall (proper s) acts -> Forall (sound s) acts.
Proof. intros H. eapply Forall_impl; [exact H|]. intros []; cbn; auto. Qed.

Definition steps (s : machine) (acts : list action) (s' : machine) : Prop :=
  machine_wf s' /\ behind (mc_player s) (mc_player s') /\ Forall (sound s') acts /\ votesOnce s acts s'.

Lemma good_steps s acts s' : good s acts s' -> steps s acts s'.
Proof. intros (G1 & G2 & G3). split_and!; [done|done|by apply proper_sound|]. left. by eapply proper_timed. Qed.

(** A timeout moves the step, the nap and the deadlines only. *)
Definition timedOut (s s' : machine) : Prop :=
  root_wf (mc_router s') /\ player_wf (mc_player s') /\
  pl_Round (mc_player s') = pl_Round (mc_player s) /\ pl_Period (mc_player s') = pl_Period (mc_player s).

Lemma quiet_steps s acts s' : timedOut s s' -> stage (mc_player s) <= stage (mc_player s') -> Forall boring acts ->
  steps s acts s'.
Proof.
  intros (H1 & H2 & H3 & H4) Hst Ha. apply good_steps. split_and!; [by split| |by apply boring_proper].
  unfold behind. lia.
Qed.

Lemma vote_steps s acts st pv s' : timedOut s s' -> Forall boring acts -> timed st = true ->
  stage (mc_player s) < 2 * st + 1 <= stage (mc_player s') ->
  steps s (acts ++ [attest (pl_Round (mc_player s)) (pl_Period (mc_player s)) st pv]) s'.
Proof.
  intros (H1 & H2 & H3 & H4) Ha Ht Hst. split_and!; [by split|unfold behind; lia| |].
  - apply Forall_app. split; [by apply proper_sound, boring_proper|]. apply Forall_singleton. by left.
  - right. exists st. split_and!; [|done..|lia|lia]. rewrite timedVotes_app,
      (proper_timed s acts) by by apply boring_proper. cbn. by rewrite Ht.
Qed.

Lemma issueSoftVote_spec s : machine_wf s ->
  runs issueSoftVote (fun acts s' => root_wf (mc_router s') /\ mc_player s' = mc_player s <| pl_Deadline := deadlineTimeout |> /\
    (acts = [] \/ exists pv, acts = [attest (pl_Round (mc_player s)) (pl_Period (mc_player s)) soft pv])) s.
Proof.
  intros Hw. unfold issueSoftVote, pl, setPlayer. run_step. cbn [id]. apply runs_bind.
  eapply runs_mono; [apply query_simple; [done|apply proposalFrozen_spec, Hw]|]. cbn beta. intros frozen s1 H1.
  pose proof (below_wf P s s1 Hw H1) as Hw1. apply runs_bind.
  eapply runs_mono; [apply query_simple; [done|apply nextStatus_spec, Hw1]|]. cbn beta. intros status s2 H2.
  pose proof (below_trans P _ _ _ H1 H2) as H12. run_step. run_step. split_and!; [apply H12|cbn; by rewrite (proj1 H12)|].
  destruct (_ && _); [eauto|]. case_bool_decide; [eauto|]. destruct (_ <? _); [|eauto]. destruct (_ && _); eauto.
Qed.

Lemma issueNextVote_spec s : machine_wf s ->
  runs issueNextVote (fun acts s' => root_wf (mc_router s') /\
    mc_player s' = mc_player s <| pl_Napping := false |> <| pl_Deadline := (nextVoteRanges (pl_Step (mc_player s))).2 |> /\
    exists acts0 pv, Forall boring acts0 /\
      acts = acts0 ++ [attest (pl_Round (mc_player s)) (pl_Period (mc_player s)) (pl_Step (mc_player s)) pv]) s.
Proof.
  intros Hw. unfold issueNextVote. apply runs_bind. eapply runs_mono; [by apply partitionPolicy_spec|].
  cbn beta. intros acts0 s1 [H1 Ha]. pose proof (below_wf P s s1 Hw H1) as Hw1. unfold pl, setPlayer. run_step. cbn [id].
  apply runs_bind. eapply runs_mono; [apply query_simple; [done|eapply runs_mono; [apply stagedValue_spec, Hw1|naive_solver]]|].
  cbn beta. intros a s2 H2. pose proof (below_trans P _ _ _ H1 H2) as H12. pose proof (below_wf P s s2 Hw H12) as Hw2.
  apply runs_bind. eapply (runs_mono _ (fun _ s' => below s s')).
  - case_bool_decide; [by run_step|]. apply runs_bind.
    eapply runs_mono; [apply query_simple; [done|apply nextStatus_spec, Hw2]|]. cbn beta. intros st s3 H3. run_step.
    by eapply below_trans.
  - cbn beta. intros pv s3 H3. run_step. run_step. split_and!; [apply H3|cbn; by rewrite (proj1 H3)|].
    exists acts0, pv. split; [done|]. by rewrite (proj1 H1).
Qed.

Lemma issueFastVote_spec s : machine_wf s -> runs issueFastVote (fun acts s' => good s acts s') s.
Proof.
  intros Hw. unfold issueFastVote. apply runs_bind. eapply runs_mono; [by apply partitionPolicy_spec|].
  cbn beta. intros acts0 s1 [H1 Ha]. unfold pl. run_step. cbn [id].
  assert (forall r p st s2, below s s2 ->
    runs (dispatch (fun pl => dumpVotes pl (r pl) (p pl) st)) (fun _ s3 => below s s3) s2) as Hdump.
  { intros r p st s2 H2. eapply runs_mono; [apply query_simple; [by eapply below_wf|apply dumpVotes_spec, H2]|].
    cbn beta. intros _ s3 H3. by eapply below_trans. }
  apply runs_bind. eapply runs_mono; [by apply Hdump|]. cbn beta. intros elate s2 H2.
  apply runs_bind. eapply runs_mono; [by apply Hdump|]. cbn beta. intros eredo s3 H3.
  apply runs_bind. eapply runs_mono; [by apply Hdump|]. cbn beta. intros edown s4 H4. pose proof (below_wf P s s4 Hw H4) as Hw4.
  apply runs_bind. eapply runs_mono; [apply query_simple; [done|eapply runs_mono; [apply stagedValue_spec, Hw4|naive_solver]]|].
  cbn beta. intros a s5 H5. pose proof (below_trans P _ _ _ H4 H5) as H45. pose proof (below_wf P s s5 Hw H45) as Hw5.
  apply runs_bind. eapply (runs_mono _ (fun r s' => below s s' /\ late <= r.1)).
  - case_bool_decide; [by run_step|]. apply runs_bind.
    eapply runs_mono; [apply query_simple; [done|apply nextStatus_spec, Hw5]|]. cbn beta. intros st s6 H6. run_step.
    split; [by eapply below_trans|]. by destruct (negb _).
  - cbn beta. intros [st pv] s6 [H6 Hst]. run_step. destruct (good_nil P s s6 Hw H6) as (G1 & G2 & _). split_and!; [done|done|].
    apply Forall_app. split; [by apply boring_proper|]. constructor; [done|]. apply Forall_singleton. left.
    case_bool_decide; [done|exact Hst].
Qed.

(** The range of the step after the last one is empty on 64 bits. *)
Lemma nextVoteRanges_last : (wrap64 ((nextVoteRanges (maxStep + 1)).2 - (nextVoteRanges (maxStep + 1)).1) =? 0) = true.
Proof. by vm_compute. Qed.

Lemma randomDelta_runs {S} entropy range (Q : Z -> S -> Prop) s :
  (forall delta, (wrap64 range =? 0) = false -> Q delta s) -> runs (lift (randomDelta entropy range)) Q s.
Proof. unfold randomDelta, runs, lift. destruct (_ =? 0); auto. Qed.

Lemma handleTimeout_spec entropy s : machine_wf s -> runs (handleTimeout entropy) (fun acts s' => steps s acts s') s.
Proof.
  intros Hw. destruct (proj2 Hw) as [W1 W2 W3 W4 W5]. unfold handleTimeout, pl, setPlayer. run_step. cbn [id].
  destruct (Z.eqb_spec (pl_Step (mc_player s)) soft) as [Es|Ns].
  { apply runs_bind. eapply runs_mono; [by apply issueSoftVote_spec|]. cbn beta. intros acts s1 (Hr & Ep & Ha). run_step. run_step.
    set (s2 := mkMachine _ _). assert (pl_Napping (mc_player s) = false) as Hn.
    { destruct (pl_Napping _); [|done]. specialize (W4 eq_refl). rewrite Es in W4. by compute in W4. }
    assert (stage (mc_player s) = 2 /\ stage (mc_player s2) = 4) as [E1 E2]
      by (unfold stage, s2; cbn; rewrite Es; done).
    assert (timedOut s s2) as Ht.
    { split_and!; [done| |cbn; by rewrite Ep..]. cbn. rewrite Ep. split; cbn; [done..| |done]. by rewrite Hn. }
    destruct Ha as [->|[pv ->]]; [apply quiet_steps; [done|lia|done]|].
    apply (vote_steps s [] soft pv s2); [done|done|done|]. rewrite E1, E2. done. }
  assert (cert <= pl_Step (mc_player s)) as Hge by (unfold soft, cert, maxStep, next in *; lia).
  destruct (Z.eqb_spec (pl_Step (mc_player s)) cert) as [Ec|Nc].
  { run_step. set (s1 := mkMachine _ _). assert (machine_wf s1) as Hw1 by (split; [apply Hw|]; by split).
    eapply runs_mono; [by apply issueNextVote_spec|]. cbn beta. intros acts s2 (Hr & Ep & acts0 & pv & Ha & ->). cbn in Ep |- *.
    apply vote_steps; [|done|done|].
    - split_and!; [done|rewrite Ep; by split|by rewrite Ep..].
    - rewrite Ep. unfold stage. cbn. rewrite Ec. done. }
  assert (next <= pl_Step (mc_player s)) as Hnx by (unfold cert, next in *; lia).
  assert (timed (pl_Step (mc_player s)) = true) as Htm by (unfold timed, maxStep, soft, next, late in *; lia).
  destruct (pl_Napping (mc_player s)) eqn:En.
  { eapply runs_mono; [by apply issueNextVote_spec|]. cbn beta. intros acts s2 (Hr & Ep & acts0 & pv & Ha & ->).
    apply vote_steps; [|done|done|].
    - split_and!; [done|rewrite Ep; by split|by rewrite Ep..].
    - rewrite Ep. unfold stage. cbn. rewrite En, andb_false_r, andb_true_r.
      destruct (Z.leb_spec next (pl_Step (mc_player s))); lia. }
  rewrite wrap64_small by (unfold is_u64, two64, maxStep, soft, next in *; lia).
  destruct (nextVoteRanges (pl_Step (mc_player s) + 1)) as [lower upper] eqn:Er. apply runs_bind, randomDelta_runs. intros delta Hd.
  assert (pl_Step (mc_player s) <> maxStep) as Hne.
  { intros E. pose proof nextVoteRanges_last as Hl. rewrite <- E, Er in Hl. cbn in Hl. congruence. }
  run_step. run_step. apply quiet_steps; [|unfold stage; cbn; rewrite En, andb_false_r, andb_true_r|done].
  - split_and!; [apply Hw| |done..]. split; cbn; [done..|unfold soft in *; lia|lia|done].
  - destruct (Z.leb_spec next (pl_Step (mc_player s))); lia.
Qed.

Lemma handleFastTimeout_spec entropy proto s : machine_wf s ->
  runs (handleFastTimeout entropy proto) (fun acts s' => good s acts s') s.
Proof.
  intros Hw. unfold handleFastTimeout. case_bool_decide; [run_step; by apply good_nil, below_refl|].
  unfold pl, setPlayer. run_step. cbn [id]. destruct (_ =? 0); [by run_step|]. apply runs_bind, randomDelta_runs. intros delta _.
  assert (forall d, machine_wf (mkMachine (mc_player s <| pl_FastRecoveryDeadline := d |>) (mc_router s))) as Hw'.
  { intros d. destruct Hw as [Hr [W1 W2 W3 W4 W5]]. by split. }
  assert (forall d acts s', good (mkMachine (mc_player s <| pl_FastRecoveryDeadline := d |>) (mc_router s)) acts s' -> good s acts s') as Hg.
  { intros d acts s' (G1 & G2 & G3). by split_and!. }
  destruct (_ =? 0).
  - run_step. run_step. eapply Hg, good_nil; [apply Hw'|apply below_refl, Hw'].
  - run_step. eapply runs_mono; [apply issueFastVote_spec, Hw'|]. cbn beta. intros acts s'. apply Hg.
Qed.

(** The events of the service: messages with small votes, and interruptions by a
    later round. *)
Definition event_ok (s : machine) (e : externalEvent) : Prop :=
  match e with
  | messageInputEvent m => message_ok m
  | roundInterruptionEvent r _ => pl_Round (mc_player s) < r < MaxUint64
  | _ => True
  end.

Lemma handleEvent_spec e s : machine_wf s -> event_ok s e ->
  eventually (fun fuel => handle C P fuel e) (fun acts s' => steps s acts s') s.
Proof.
  intros Hw He. destruct e as [|m|entropy|entropy proto|r proto|r p st err]; cbn [handle].
  - apply eventually_now. run_step. by apply good_steps, good_nil, below_refl.
  - eapply eventually_mono; [by apply handleMessageEvent_spec|]. cbn beta. intros acts s'. apply good_steps.
  - apply eventually_now. by apply handleTimeout_spec.
  - apply eventually_now. eapply runs_mono; [by apply handleFastTimeout_spec|]. cbn beta. intros acts s'. apply good_steps.
  - eapply eventually_mono; [by apply enterRound_eventually|]. cbn beta. intros acts s' [Hg _]. by apply good_steps.
  - apply eventually_now. run_step. apply good_steps, good_reply; done.
Qed.

Lemma submitTop_spec e s : machine_wf s -> event_ok s e ->
  eventually (fun fuel => submitTop C P fuel e) (fun acts s' => steps s acts s') s.
Proof.
  intros [Hr Hp] He. destruct (handleEvent_spec e (s <| mc_router := root_update (mc_player s) 0 (mc_router s) |>)) as [N HN].
  - split; [by apply root_update_wf|done].
  - destruct e; done.
  - by exists N.
Qed.

(** ** More fuel *)

(** [m'] answers as [m] does, unless [m] ran out of fuel. *)
Definition extends {A} (m m' : M machine A) : Prop :=
  forall s, (exists e s', m s = (Err e, s')) \/ m' s = m s.

Lemma extends_refl {A} (m : M machine A) : extends m m.
Proof. by right. Qed.
Lemma extends_trans {A} (m1 m2 m3 : M machine A) : extends m1 m2 -> extends m2 m3 -> extends m1 m3.
Proof. intros H1 H2 s. destruct (H1 s) as [?|E1]; [by left|]. destruct (H2 s) as [?|E2]; rewrite ?E1 in *; auto. Qed.
Lemma extends_throw {A} e (m : M machine A) : extends (throw e) m.
Proof. intros s. left. by exists e, s. Qed.
Lemma extends_bind {A B} (m m' : M machine A) (k k' : A -> M machine B) :
  extends m m' -> (forall a, extends (k a) (k' a)) -> extends (m ≫= k) (m' ≫= k').
Proof.
  intros Hm Hk s. unfold mbind, M_bind. destruct (Hm s) as [(e & s' & E)|E]; rewrite E; [left; by eauto|].
  destruct (m s) as [[a|e|] s1]; [apply Hk|left; by eauto|by right].
Qed.
Create HintDb fuel.
#[local] Hint Resolve extends_refl extends_throw : fuel.

(** Decides the shape of a handler whose fuel is passed down. *)
Ltac more_fuel :=
  repeat match goal with
  | |- extends (mbind _ _) (mbind _ _) => apply extends_bind; [|intros]
  | |- extends (match ?x with _ => _ end) _ => destruct x
  end; auto with fuel.

Lemma handleThreshold_extends enter enter' e : (forall proto r, extends (enter proto r) (enter' proto r)) ->
  extends (handleThreshold_with enter e) (handleThreshold_with enter' e).
Proof. intros H. unfold handleThreshold_with. more_fuel. Qed.

Lemma enterRound_extends fuel proto r : extends (enterRound fuel proto r) (enterRound (S fuel) proto r).
Proof.
  revert proto r. induction fuel as [|fuel IH]; intros proto r; [apply extends_throw|]. 
  change (extends (enterRound (S fuel) proto r) (enterRound (S (S fuel)) proto r)).
  unfold enterRound at 1 2. fold enterRound. more_fuel. by apply handleThreshold_extends.
Qed.
#[local] Hint Resolve enterRound_extends handleThreshold_extends : fuel.

Lemma handlePayload_extends fuel e : extends (handlePayload P fuel e) (handlePayload P (S fuel) e).
Proof. unfold handlePayload, finishRound. more_fuel. Qed.
Lemma handleVote_extends fuel e : extends (handleVote fuel e) (handleVote (S fuel) e).
Proof. unfold handleVote, handleThresholdEvent. more_fuel. Qed.
Lemma handleBundle_extends fuel e : extends (handleBundle fuel e) (handleBundle (S fuel) e).
Proof. unfold handleBundle, handleThresholdEvent. more_fuel. Qed.
Lemma handleProposalVote_extends f f' e : (forall tail, extends (f tail) (f' tail)) ->
  extends (handleProposalVote C f e) (handleProposalVote C f' e).
Proof. intros H. unfold handleProposalVote. more_fuel. Qed.
#[local] Hint Resolve handlePayload_extends handleVote_extends handleBundle_extends handleProposalVote_extends : fuel.

Lemma handleMessageEvent_extends fuel e : extends (handleMessageEvent C P fuel e) (handleMessageEvent C P (S fuel) e).
Proof.
  revert e. induction fuel as [|fuel IH]; intros e; [apply extends_throw|]. cbn [handleMessageEvent]. more_fuel.
Qed.
#[local] Hint Resolve handleMessageEvent_extends : fuel.

Lemma submitTop_extends fuel fuel' e s : (fuel <= fuel')%nat ->
  (exists err s', submitTop C P fuel e s = (Err err, s')) \/ submitTop C P fuel' e s = submitTop C P fuel e s.
Proof.
  intros Hle. unfold submitTop. generalize (s <| mc_router := root_update (mc_player s) 0 (mc_router s) |>). revert s.
  intros _. change (extends (handle C P fuel e) (handle C P fuel' e)). induction Hle as [|fuel' _ IH]; [apply extends_refl|].
  eapply extends_trans; [exact IH|]. destruct e; cbn [handle]; auto with fuel.
Qed.

(** A run that returned is the run with enough fuel. *)
Lemma eventually_Ok fuel e s acts s' Q : eventually (fun fuel => submitTop C P fuel e) Q s ->
  submitTop C P fuel e s = (Ok acts, s') -> Q acts s'.
Proof.
  intros [N HN] E. destruct (submitTop_extends fuel (N + fuel) e s) as [(err & s1 & E1)|E1]; [lia|congruence|].
  eapply runs_Ok; [by apply (HN (N + fuel)%nat); lia|congruence].
Qed.

End facts.
