(* ===== verification/AgPlayerCorrect.v ===== *)
(** The agreement player is correct.

    [submitTop] is one event of the service; a [trace] is any number of them.
    The theorems are about every machine the player can reach: its position never
    goes back, it votes once in every soft and next step, its cert votes are for
    the staged value whose payload it holds, what it commits has a certificate
    that authenticates it and that other nodes agree with, and it always answers
    or panics. *)
From S2P Require Import Prelude Config Basics Transactions Bookkeeping AgVote AgTracker AgTrackerFacts AgSafety AgDelivery AgProposal AgRouter AgRouterFacts AgPlayer AgMachineFacts AgPlayerFacts AgEventFacts.
#[local] Open Scope string_scope.
#[local] Open Scope list_scope.
#[local] Open Scope Z_scope.

Section player.
  Context {D : Deliveries} (C : VoteCrypto) (P : ProposalCrypto).

(** One event, and any number of them. *)
Inductive submits (s : machine) (acts : list action) (s' : machine) : Prop :=
| submits_event fuel e : event_ok s e -> submitTop C P fuel e s = (Ok acts, s') -> submits s acts s'.

Inductive trace : machine -> list action -> machine -> Prop :=
| trace_start s : trace s [] s
| trace_event s acts s1 acts' s' : trace s acts s1 -> submits s1 acts' s' -> trace s (acts ++ acts') s'.

Lemma submits_steps s acts s' : machine_wf P s -> submits s acts s' -> steps P s acts s'.
Proof. intros Hw [fuel e He E]. eapply (eventually_Ok C P); [|exact E]. by apply submitTop_spec. Qed.

(** The run of [mainLoop] is a trace. *)
Inductive events_ok (fuel : nat) : machine -> list externalEvent -> Prop :=
| events_nil s : events_ok fuel s []
| events_cons s e es : event_ok s e -> events_ok fuel (submitTop C P fuel e s).2 es -> events_ok fuel s (e :: es).

Lemma mainLoop_trace fuel es s0 acts0 s out s' : trace s0 acts0 s -> events_ok fuel s es ->
  mainLoop C P fuel es s = (Ok out, s') -> trace s0 (acts0 ++ concat out) s'.
Proof.
  revert acts0 s out. induction es as [|e es IH]; intros acts0 s out Ht He.
  - intros [= <- <-]. cbn. by rewrite app_nil_r.
  - inversion He as [|s1 e1 es1 Hok Hrest]; subst. cbn [mainLoop]. unfold mbind, M_bind.
    destruct (submitTop C P fuel e s) as [[a|err|] s1] eqn:E1; [|done..].
    destruct (mainLoop C P fuel es s1) as [[out1|err|] s2] eqn:E2; [|done..]. intros [= <- <-]. cbn [concat].
    rewrite app_assoc. eapply IH; [|exact Hrest|exact E2]. by apply (trace_event s0 acts0 s a), (submits_event _ _ _ fuel e).
Qed.

Lemma trace_wf s acts s' : machine_wf P s -> trace s acts s' -> machine_wf P s'.
Proof. intros Hw Ht. induction Ht as [|s acts s1 acts' s' _ IH Hs]; [done|]. by apply (submits_steps s1 acts'); [apply IH|]. Qed.

Lemma startMachine_wf r v : 0 <= r < MaxUint64 -> machine_wf P (startMachine r v).
Proof.
  intros Hr. split; [intros q c Hc; destruct (lookup_empty_Some q c Hc)|]. split; cbn; [done..|].
  intros k e He. destruct (lookup_empty_Some k (Some e) He).
Qed.

(** Whatever events the service submits after a start, the
    machine keeps its invariant (among others the step stays within the range for
    which [nextVoteRanges] gives a nonempty range, and a nap is of a next step),
    and from any of its states on the position of the player, its round, period
    and step, never goes back. *)
Theorem player_progress nextRound version acts s acts' s' : 0 <= nextRound < MaxUint64 ->
  trace (startMachine nextRound version) acts s -> trace s acts' s' ->
  machine_wf P s' /\ behind (mc_player s) (mc_player s').
Proof.
  intros Hr Hs Ht. apply trace_wf in Hs; [|by apply startMachine_wf].
  induction Ht as [s|s acts1 s1 acts2 s' Ht IH Hsub]; [split; [done|apply behind_refl]|].
  destruct (IH Hs) as [Hw1 Hb1]. destruct (submits_steps s1 acts2 s' Hw1 Hsub) as (Hw & Hb & _).
  split; [done|by eapply behind_trans].
Qed.

(** The votes of a step come before a position of the player. *)
Definition passed (p : player) (k : Round * period * step) : Prop :=
  let '(r, per, st) := k in
  r < pl_Round p \/ (r = pl_Round p /\ (per < pl_Period p \/ (per = pl_Period p /\ 2 * st + 1 <= stage p))).

Lemma passed_behind p p' k : passed p k -> behind p p' -> passed p' k.
Proof. destruct k as [[r per] st]. unfold passed, behind. lia. Qed.

Lemma trace_passed s acts s' : machine_wf P s -> trace s acts s' ->
  machine_wf P s' /\ NoDup (timedVotes acts) /\ Forall (passed (mc_player s')) (timedVotes acts).
Proof.
  intros Hw Ht. induction Ht as [s|s acts s1 acts' s' Ht IH Hsub]; [split_and!; [done|constructor..]|].
  destruct (IH Hw) as (Hw1 & Hnd & Hp). destruct (submits_steps s1 acts' s' Hw1 Hsub) as (Hw' & Hb & _ & Hv).
  assert (Forall (passed (mc_player s')) (timedVotes acts)) as Hp'.
  { eapply Forall_impl; [exact Hp|]. intros k Hk. by eapply passed_behind. }
  rewrite timedVotes_app. destruct Hv as [->|(st & -> & Er & Ep & Hst)]; [by rewrite app_nil_r|].
  split; [done|]. split.
  - apply NoDup_app. split_and!; [done| |apply NoDup_singleton]. intros k Hk ->%list_elem_of_singleton.
    rewrite Forall_forall in Hp. specialize (Hp _ Hk). cbn in Hp. lia.
  - apply Forall_app. split; [done|]. apply Forall_singleton. cbn. lia.
Qed.

(** C17 (safety): however the service drives the player, the player never issues
    two votes for the same soft or next step of a period of a round. *)
Theorem votes_once nextRound version acts s : 0 <= nextRound < MaxUint64 ->
  trace (startMachine nextRound version) acts s -> NoDup (timedVotes acts).
Proof. intros Hr Ht. by apply (trace_passed (startMachine nextRound version) acts s), Ht; apply startMachine_wf. Qed.

(** C16 (safety): a cert vote is of the round and period in which its event leaves
    the player, for a value other than bottom that is staged there and whose
    payload the player holds. *)
Theorem cert_votes_staged nextRound version acts s acts' s' r p pv : 0 <= nextRound < MaxUint64 ->
  trace (startMachine nextRound version) acts s -> submits s acts' s' -> attest r p cert pv ∈ acts' ->
  r = pl_Round (mc_player s') /\ p = pl_Period (mc_player s') /\ pv <> bottom /\
  staged_in (roundOf (mc_router s') r) p = pv /\ holds_payload (roundOf (mc_router s') r) pv.
Proof.
  intros Hr Ht Hsub Ha. apply trace_wf in Ht; [|by apply startMachine_wf].
  destruct (submits_steps s acts' s' Ht Hsub) as (_ & _ & Hs & _). rewrite Forall_forall in Hs.
  destruct (Hs _ Ha) as [Hs'|[Hs'|(_ & E1 & E2 & H1 & _ & H3 & H4)]]; [done|done|]. by split_and!.
Qed.

(** C30 (termination): on every event the player ends: from some fuel on,
    [submitTop] gives one and the same answer, a list of actions or a panic and
    never the error of a recursion cut short. *)
Theorem submitTop_terminates e s : machine_wf P s -> event_ok s e ->
  exists N o s', (forall err, o <> Err err) /\ forall fuel, (N <= fuel)%nat -> submitTop C P fuel e s = (o, s').
Proof.
  intros Hw He. destruct (submitTop_spec C P e s Hw He) as [N HN].
  destruct (submitTop C P N e s) as [o s'] eqn:E. pose proof (HN N ltac:(done)) as H. unfold runs in H. rewrite E in H.
  exists N, o, s'. split; [by intros err ->|]. intros fuel Hf.
  destruct (submitTop_extends C P N fuel e s Hf) as [(err & s1 & E1)|E1]; [|congruence].
  rewrite E in E1. injection E1 as -> ->. done.
Qed.

(** ** Certificates of old periods *)

(** The router of a collected period is gone as soon as it is created, so what is
    dispatched to it dereferences nil. *)
Lemma inPeriod_collected {A} state p st (m : M periodRouter A) c : ~ kept state p -> (inPeriod state p st m c).1 = Panic.
Proof.
  intros Hk. unfold inPeriod. destruct (rr_Children (round_update state p c) !! p) eqn:E; [|done].
  destruct Hk. apply (round_update_inv state p p c). by rewrite E.
Qed.

Lemma deliverVote_collected state v protoV router : ~ kept state (rv_Period (v_R v)) ->
  (deliverVote state v protoV router).1 = Panic.
Proof.
  intros Hk. unfold deliverVote, withRound. destruct (root_update _ _ _ !! _) as [c|]; [|done].
  unfold atRound, vtr_voteAccepted, mbind, M_bind.
  pose proof (inPeriod_collected state (rv_Period (v_R v)) 0 (vtp_voteAccepted v protoV)
    (round_update state (rv_Period (v_R v)) c) Hk) as Hp.
  destruct (inPeriod _ _ _ _ _) as [o c']. cbn in Hp. by rewrite Hp.
Qed.

(** A vote that passes the freshness rules is of a period that is kept. *)
Lemma voteFresh_kept state rv : 0 <= pl_Period state < MaxUint64 -> voteFresh (freshness_of state) rv = Ok tt ->
  rv_Round rv = pl_Round state -> 0 <= rv_Period rv < MaxUint64 -> kept state (rv_Period rv).
Proof.
  intros Hp H Hr Hrv. unfold voteFresh in H. okinv H. cbn in H.
  destruct (Z.eqb_spec (wrap64 (pl_Round state + 1)) (rv_Round rv)) as [E|_].
  { okinv H. right. lia. }
  unfold kept. rewrite (wrap_succ (rv_Period rv)) by done. destruct (Z.eqb_spec (rv_Period rv) (wrap64 (pl_Period state - 1))) as [E|_].
  - destruct (Z.eqb_spec (pl_Period state) 0); [done|]. rewrite E, wrap64_small by (unfold is_u64, two64, MaxUint64 in *; lia). lia.
  - destruct (Z.eqb_spec (rv_Period rv) (pl_Period state)); [lia|].
    destruct (Z.eqb_spec (rv_Period rv) (wrap64 (pl_Period state + 1))) as [E|]; [|done]. rewrite E, wrap_succ by done. lia.
Qed.

(** C31 (error): the freshness rule for bundles lets every certificate of the
    player's round through, but the routers of the periods before the previous one
    are collected: a verified certificate of such a period (other than 0 and 1)
    makes the player panic. *)
Theorem stale_certificate_panics fuel s ub b v votes h taskIndex tail version : machine_wf P s ->
  ub_Step (b_U b) = cert -> ub_Round (b_U b) = pl_Round (mc_player s) -> bundleVotes b = v :: votes ->
  1 < rv_Period (v_R v) -> rv_Period (v_R v) + 1 < pl_Period (mc_player s) ->
  (submitTop C P (S fuel) (messageInputEvent (mkMessageEvent (bundleVerified ub b) h None taskIndex tail false
     (mkConsensusVersionView None version))) s).1 = Panic.
Proof.
  intros [_ [_ Hp _ _ _]] Hstep Hround Hvotes H1 H2. unfold submitTop. cbn [handle handleMessageEvent me_Input].
  unfold handleBundle. cbn [me_Input]. unfold mbind, M_bind, dispatchRoot. cbn [mc_player mc_router set_field].
  set (router := root_update _ 0 (root_update _ 0 _)). unfold agg_bundleVerified.
  cbn [me_Cancelled me_Proto cvv_Err me_Err]. rewrite bool_decide_eq_false_2 by by intros [].
  assert (bundleFresh (freshness_of (mc_player s)) (b_U b) = Ok tt) as ->.
  { unfold bundleFresh. cbn. by rewrite Hround, Z.eqb_refl, Hstep. }
  rewrite Hvotes. cbn [deliverVotes]. unfold mbind, M_bind.
  assert (~ kept (mc_player s) (rv_Period (v_R v))) as Hk.
  { unfold kept. rewrite wrap_succ by lia. lia. }
  pose proof (deliverVote_collected (mc_player s) v version router Hk) as Hd.
  cbn [cvv_Version]. destruct (deliverVote _ _ _ _) as [o router']. cbn in Hd. by rewrite Hd.
Qed.
End player.

(** ** What the player commits *)

Section commits.
  Context (C : VoteCrypto) (P : ProposalCrypto) (L : LedgerReader) (version : Round -> string).

(** The player is given votes that verified against the ledger. *)
Notation trace := (trace (D := verified C L version) C P).
Notation submits := (submits (D := verified C L version) C P).

Lemma committed_proven nextRound proto acts s acts' s' pp b : 0 <= nextRound < MaxUint64 ->
  trace (startMachine nextRound proto) acts s -> submits s acts' s' -> ensureAction pp b ∈ acts' ->
  pp_value P pp = ub_Proposal b /\ ub_Step b = cert /\ ub_Round b < pl_Round (mc_player s') /\
  proven (D := verified C L version) (ub_Round b) (ub_Period b) cert (ub_Proposal b) b.
Proof.
  intros Hr Ht Hsub Ha. apply trace_wf in Ht; [|by apply startMachine_wf].
  destruct (submits_steps C P s acts' s' Ht Hsub) as (_ & _ & Hs & _). rewrite Forall_forall in Hs. exact (Hs _ Ha).
Qed.

(** The ledger knows the consensus version of a round. *)
Definition version_known (r : Round) : Prop :=
  lr_ConsensusParams L (ParamsRound r) = Ok (ConsensusVersion_params (version r)).

(** C18 (safety): when the votes the player is given verified against a ledger, a
    payload it commits comes with a certificate for the value of that payload, of
    a round the player has left, which authenticates the block of the payload for
    every node that reads the same ledger. *)
Theorem ensure_certified nextRound proto acts s acts' s' pp b : 0 <= nextRound < MaxUint64 ->
  trace (startMachine nextRound proto) acts s -> submits s acts' s' -> ensureAction pp b ∈ acts' ->
  version_known (ub_Round b) ->
  ub_Proposal b = pp_value P pp /\ ub_Round b < pl_Round (mc_player s') /\
  (up_Round (pp_u pp) = ub_Round b -> Authenticate C (pc_Digest P) b (up_Block (pp_u pp)) L = Ok tt).
Proof.
  intros Hr Ht Hsub Ha HL. destruct (committed_proven _ _ _ _ _ _ _ _ Hr Ht Hsub Ha) as (Hv & Hst & Hlt & Hp).
  split_and!; [done|done|]. intros Hround. destruct (proven_verifies C L version _ _ _ _ Hp HL) as [vb Hvb].
  unfold Authenticate, claimsToAuthenticate. rewrite Hst, <- Hround, <- Hv, Hvb. unfold up_Round. by rewrite !Z.eqb_refl.
Qed.

(** C19 (safety): two nodes that commit in the same period of a round commit the
    same value, as long as the committee members that sign two values in the cert
    step weigh less than twice the threshold less the committee. *)
Theorem commits_agree members w r per
    start1 proto1 acts1 s1 acts1' s1' pp1 b1 start2 proto2 acts2 s2 acts2' s2' pp2 b2 :
  committee_ok members w -> ledger_committee C L r per cert members w -> version_known r ->
  (forall D, NoDup D -> (forall a, a ∈ D -> a ∈ members /\ double_voter C L r per cert a) ->
     sumZ w D < 2 * threshold cert (ConsensusVersion_params (version r)) - totalWeight members w) ->
  0 <= start1 < MaxUint64 -> trace (startMachine start1 proto1) acts1 s1 -> submits s1 acts1' s1' -> ensureAction pp1 b1 ∈ acts1' ->
  0 <= start2 < MaxUint64 -> trace (startMachine start2 proto2) acts2 s2 -> submits s2 acts2' s2' -> ensureAction pp2 b2 ∈ acts2' ->
  (ub_Round b1, ub_Period b1) = (r, per) -> (ub_Round b2, ub_Period b2) = (r, per) ->
  pp_value P pp1 = pp_value P pp2.
Proof.
  intros Hc HL HV Hfew Hr1 Ht1 Hs1 Ha1 Hr2 Ht2 Hs2 Ha2 [= R1 P1] [= R2 P2].
  destruct (committed_proven _ _ _ _ _ _ _ _ Hr1 Ht1 Hs1 Ha1) as (V1 & S1 & _ & Q1).
  destruct (committed_proven _ _ _ _ _ _ _ _ Hr2 Ht2 Hs2 Ha2) as (V2 & S2 & _ & Q2). rewrite R1 in Q1. rewrite R2 in Q2.
  destruct (proven_verifies C L version _ _ _ _ Q1 HV) as [vb1 B1]. destruct (proven_verifies C L version _ _ _ _ Q2 HV) as [vb2 B2].
  destruct (decide (pp_value P pp1 = pp_value P pp2)) as [|Hne]; [done|]. exfalso.
  destruct (proofs_conflict C L r per cert members w Hc (ConsensusVersion_params (version r)) b1 b2) as (D & Hnd & HD & Hw).
  - by eapply verified_proves.
  - by eapply verified_proves.
  - congruence.
  - specialize (Hfew D Hnd HD). lia.
Qed.
End commits.

(** ** A concrete run *)

(** Two committee members, each of which signs one value only. *)
Definition ex_signers : VoteCrypto :=
  mkVoteCrypto (fun _ _ rv sig _ => (sig =? 200 + rv_Sender rv) && bool_decide (rv_Proposal rv = ex_p)) (fun _ _ _ => (true, 0))
    (fun _ => 7) (fun _ _ => 7) (fun _ _ => 7) (fun _ _ _ _ => 1000).
Definition ex_duo : list Address := [1; 2].
Definition ex_duo_ledger : LedgerReader :=
  mkLedgerReader (fun _ => Ok 0)
    (fun _ a => if bool_decide (a ∈ ex_duo) then Ok (mkOnlineAccountData 1000000 1 1 1 0 0) else Err (Errorf "unknown"))
    (fun _ => Ok 2000000) (fun _ => Ok 0) (fun _ => Ok (ConsensusVersion_params "future")).
Definition ex_signed (a : Address) (st : step) : vote :=
  mkVote (mkRawVote a 10 0 st ex_p) (mkCredential 1000 7 true (mkHashableCredential 0 a 0) (100 + a)) (200 + a).

(** A proposal, its payload, and votes as verified messages of round 10. *)
Definition ex_player_crypto : ProposalCrypto :=
  mkProposalCrypto (fun _ => 11) (fun _ => 12) (fun a o => a + o) (fun s => s) (fun a h => a + h) (fun p => Some p)
    (fun key p seed => p =? key + seed) (fun key seed => Some (key + seed)).
Definition ex_block : Block :=
  mkBlock (mkBlockHeader 10 0 0 0 0 "novanet" 77 (mkRewardsState 1 2 0 0 0 500000)
             (mkUpgradeState "future" "" 0 0 0) emptyVote 0 ∅ []) [].
Definition ex_payload : proposal :=
  makeProposal ex_block 5 0 1.
Definition ex_cast (per : period) (st : step) : vote :=
  mkVote (mkRawVote 1 10 per st ex_p) (mkCredential 3000 7 true (mkHashableCredential 0 1 0) 101) 201.
Definition ex_message (i : messageInput) : externalEvent :=
  messageInputEvent (mkMessageEvent i (Some 1) None 1 None false (mkConsensusVersionView None "future")).
Definition ex_vote_message (v : vote) : externalEvent := ex_message (voteVerified (vote_u v) v).
Definition ex_verified (st : step) : externalEvent := ex_vote_message (ex_cast 0 st).
Definition ex_proposed : list externalEvent :=
  [ex_verified propose; ex_message (payloadVerified (pp_u ex_payload) ex_payload)].
(** The proposal of a committee member, and the first of two cert votes. *)
Definition ex_committed : list externalEvent :=
  [ex_vote_message (ex_signed 1 propose); ex_message (payloadVerified (pp_u ex_payload) ex_payload);
   ex_vote_message (ex_signed 1 cert)].
Definition ex_start : machine := startMachine 10 "future".

Definition ex_after (es : list externalEvent) : machine := (mainLoop ex_signers ex_player_crypto 10 es ex_start).2.
Definition ex_acts (es : list externalEvent) : list action :=
  match mainLoop ex_signers ex_player_crypto 10 es ex_start with (Ok out, _) => concat out | _ => [] end.
Definition ex_runs (es : list externalEvent) : bool := isOk (mainLoop ex_signers ex_player_crypto 10 es ex_start).1.

Definition ex_certs : list action -> list (Round * period * proposalValue) :=
  omap (fun a => match a with attest r p st pv => if st =? cert then Some (r, p, pv) else None | _ => None end).
Definition ex_commits : list action -> list (proposal * unauthenticatedBundle) :=
  omap (fun a => match a with ensureAction pp b => Some (pp, b) | _ => None end).

(** The answer to one more event. *)
Definition ex_next (es : list externalEvent) (e : externalEvent) : list action :=
  match submitTop ex_signers ex_player_crypto 10 e (ex_after es) with (Ok acts, _) => acts | _ => [] end.

Section examples.
  Context {D : Deliveries}.

(** Events that are fit for every machine. *)
Definition always_ok (e : externalEvent) : Prop := forall s, event_ok s e.

Lemma events_always es s : Forall always_ok es -> events_ok ex_signers ex_player_crypto 10 s es.
Proof. intros H. revert s. induction H as [|e es He _ IH]; intros s; constructor; [apply He|apply IH]. Qed.

Lemma ex_trace es : Forall always_ok es -> ex_runs es = true ->
  trace ex_signers ex_player_crypto ex_start (ex_acts es) (ex_after es).
Proof.
  intros He. unfold ex_runs, ex_acts, ex_after. destruct (mainLoop _ _ _ _ _) as [[out| |] s'] eqn:E; [|done..]. intros _.
  apply (mainLoop_trace ex_signers ex_player_crypto 10 es ex_start [] ex_start out s'); [constructor|by apply events_always|done].
Qed.

Lemma ex_submits es e a : always_ok e -> a ∈ ex_next es e ->
  submits ex_signers ex_player_crypto (ex_after es) (ex_next es e)
    (submitTop ex_signers ex_player_crypto 10 e (ex_after es)).2.
Proof.
  intros He. unfold ex_next. destruct (submitTop _ _ _ _ _) as [[acts| |] s'] eqn:E; [|by intros ?%not_elem_of_nil..]. intros _.
  by apply (submits_event _ _ _ _ _ 10 e).
Qed.

Lemma ex_message_ok v : vote_fit "future" v -> always_ok (ex_vote_message v).
Proof. intros Hv s. split; [by intros _ _ _|done]. Qed.

Lemma ex_payload_ok : always_ok (ex_message (payloadVerified (pp_u ex_payload) ex_payload)).
Proof. done. Qed.
End examples.

Lemma ex_round : 0 <= 10 < MaxUint64.
Proof. done. Qed.

(** Any votes. *)
Definition ex_any : Deliveries := {| delivered _ := True; versionOf _ := "future" |}.
#[local] Existing Instance ex_any.

Lemma ex_verified_ok st : always_ok (ex_verified st).
Proof. apply ex_message_ok. split; [done|]. split; [done|]. by split. Qed.

Lemma ex_proposed_ok : Forall always_ok ex_proposed.
Proof. constructor; [apply ex_verified_ok|]. by apply Forall_singleton. Qed.

Lemma cert_votes_staged_witness : exists acts s',
  submits ex_signers ex_player_crypto (ex_after ex_proposed) acts s' /\ attest 10 0 cert ex_p ∈ acts /\
  staged_in (roundOf (mc_router s') 10) 0 = ex_p /\ holds_payload (roundOf (mc_router s') 10) ex_p.
Proof.
  assert (ex_runs ex_proposed = true) as Hr by (vm_compute; reflexivity).
  assert (ex_certs (ex_next ex_proposed (ex_verified soft)) = [(10, 0, ex_p)]) as Ec by (vm_compute; reflexivity).
  assert (attest 10 0 cert ex_p ∈ ex_next ex_proposed (ex_verified soft)) as Hin.
  { assert ((10, 0, ex_p) ∈ ex_certs (ex_next ex_proposed (ex_verified soft))) as H by (rewrite Ec; constructor).
    apply list_elem_of_omap in H as (a & Ha & E). destruct a; try discriminate E.
    destruct (Z.eqb_spec s cert) as [->|]; [|discriminate E]. injection E as -> -> ->. exact Ha. }
  pose proof (ex_submits ex_proposed (ex_verified soft) _ (ex_verified_ok soft) Hin) as Hs.
  pose proof (ex_trace ex_proposed ex_proposed_ok Hr) as Ht.
  pose proof (cert_votes_staged ex_signers ex_player_crypto 10 "future" (ex_acts ex_proposed) (ex_after ex_proposed)
    (ex_next ex_proposed (ex_verified soft)) _ 10 0 ex_p ex_round Ht Hs Hin) as H.
  eexists _, _. split; [exact Hs|]. split; [exact Hin|]. split; apply H.
Defined.

(** ** Commits of the two members *)

Definition ex_versions (_ : Round) : string := "future".
Notation ex_checked := (verified ex_signers ex_duo_ledger ex_versions).

Lemma ex_signed_fit a st : a = 1 \/ a = 2 -> st = propose \/ st = cert -> a = 1 \/ st = cert ->
  vote_fit (D := ex_checked) "future" (ex_signed a st).
Proof.
  intros Ha Hst H. split; [done|]. split; [done|]. split; [|done]. split; [|done].
  destruct Ha as [->| ->], Hst as [->| ->]; try (vm_compute; reflexivity). by destruct H.
Qed.

Lemma ex_committed_ok : Forall (always_ok (D := ex_checked)) ex_committed.
Proof.
  constructor; [apply ex_message_ok, ex_signed_fit; auto|]. constructor; [apply ex_payload_ok|].
  apply Forall_singleton, ex_message_ok, ex_signed_fit; auto.
Qed.

(** The second cert vote commits the payload. *)
Definition ex_last : externalEvent := ex_vote_message (ex_signed 2 cert).

Lemma ex_last_ok : always_ok (D := ex_checked) ex_last.
Proof. apply ex_message_ok, ex_signed_fit; auto. Qed.

Lemma ex_commit : exists b, ensureAction ex_payload b ∈ ex_next ex_committed ex_last /\ ub_Round b = 10 /\ ub_Period b = 0.
Proof.
  assert (match ex_commits (ex_next ex_committed ex_last) with
          | [(pp, b)] => pp = ex_payload /\ ub_Round b = 10 /\ ub_Period b = 0
          | _ => False
          end) as H by (vm_compute; auto).
  destruct (ex_commits (ex_next ex_committed ex_last)) as [|[pp b] [|]] eqn:El; [destruct H| |destruct H].
  destruct H as (-> & Hr & Hp). exists b. split; [|split; [exact Hr|exact Hp]].
  assert ((ex_payload, b) ∈ ex_commits (ex_next ex_committed ex_last)) as Hin by (rewrite El; constructor).
  apply list_elem_of_omap in Hin as (a & Ha & E). destruct a; try discriminate E. injection E as -> ->. exact Ha.
Qed.

Lemma ex_committed_trace : trace (D := ex_checked) ex_signers ex_player_crypto ex_start (ex_acts ex_committed) (ex_after ex_committed).
Proof. apply ex_trace; [apply ex_committed_ok|]. vm_compute. reflexivity. Qed.

Lemma ensure_certified_witness : exists b, ensureAction ex_payload b ∈ ex_next ex_committed ex_last /\
  Authenticate ex_signers (pc_Digest ex_player_crypto) b ex_block ex_duo_ledger = Ok tt.
Proof.
  destruct ex_commit as (b & Hin & Hr & _). exists b. split; [exact Hin|].
  apply (ensure_certified ex_signers ex_player_crypto ex_duo_ledger ex_versions 10 "future" (ex_acts ex_committed)
    (ex_after ex_committed) _ _ ex_payload b ex_round ex_committed_trace
    (ex_submits ex_committed ex_last _ ex_last_ok Hin) Hin); [reflexivity|].
  rewrite Hr. reflexivity.
Defined.

Lemma ex_duo_committee : committee_ok ex_duo ex_w.
Proof. split; [repeat constructor; set_solver|done|done]. Qed.

Lemma ex_duo_ledger_committee : ledger_committee ex_signers ex_duo_ledger 10 0 cert ex_duo ex_w.
Proof.
  intros uv v H _ _ _. unfold vote_verify in H. okinv H. apply wrapErr_Ok in Ho, Ho6. subst v. unfold membership in Ho. okinv Ho.
  apply wrapErr_Ok in Ho8. cbn in Ho8. case_bool_decide; [|done]. split; [done|]. subst a.
  unfold Credential_Verify in Ho6. cbn in Ho6. okinv Ho6. injection Ho8 as <-. cbn in Ho6.
  destruct (a9 <? 1000000); [done|]. destruct (_ || _); [done|]. cbn in Ho6. by injection Ho6 as <-.
Qed.

Lemma ex_single_voters a : ~ double_voter ex_signers ex_duo_ledger 10 0 cert a.
Proof.
  assert (forall p, voted ex_signers ex_duo_ledger 10 0 cert a p -> p = ex_p) as H.
  { intros p (uv & v & Hv & Huv). unfold vote_verify in Hv. okinv Hv. cbn in Ho5.
    apply negb_false_iff, andb_prop in Ho5 as [_ Hp%bool_decide_eq_true]. by rewrite Huv in Hp. }
  intros (p & q & Hne & Hp & Hq). apply Hne. by rewrite (H p Hp), (H q Hq).
Qed.

Lemma commits_agree_witness : exists b, ensureAction ex_payload b ∈ ex_next ex_committed ex_last /\
  pp_value ex_player_crypto ex_payload = pp_value ex_player_crypto ex_payload.
Proof.
  destruct ex_commit as (b & Hin & Hr & Hp). exists b. split; [exact Hin|].
  pose proof (ex_submits ex_committed ex_last _ ex_last_ok Hin) as Hs.
  eapply (commits_agree ex_signers ex_player_crypto ex_duo_ledger ex_versions ex_duo ex_w 10 0
    10 "future" _ _ _ _ ex_payload b 10 "future" _ _ _ _ ex_payload b ex_duo_committee ex_duo_ledger_committee eq_refl);
    [|exact ex_round|exact ex_committed_trace|exact Hs|exact Hin|exact ex_round|exact ex_committed_trace|exact Hs|exact Hin
     |rewrite Hr, Hp; reflexivity..].
  intros D _ HD. destruct D as [|a D]; [vm_compute; reflexivity|].
  destruct (ex_single_voters a). apply HD. constructor.
Defined.

(** Four timeouts: the soft step without a proposal, the first next vote, a nap
    and the second next vote. *)
Definition ex_timeouts : list externalEvent := [timeoutEvent 5; timeoutEvent 5; timeoutEvent 5; timeoutEvent 5].

Lemma ex_timeouts_ok : Forall always_ok ex_timeouts.
Proof. by repeat constructor. Qed.

Lemma votes_once_witness : timedVotes (ex_acts ex_timeouts) = [(10, 0, 3); (10, 0, 4)] /\ NoDup (timedVotes (ex_acts ex_timeouts)).
Proof.
  assert (ex_runs ex_timeouts = true) as Hr by (vm_compute; reflexivity).
  split; [vm_compute; reflexivity|].
  exact (votes_once ex_signers ex_player_crypto 10 "future" (ex_acts ex_timeouts) (ex_after ex_timeouts) ex_round
           (ex_trace ex_timeouts ex_timeouts_ok Hr)).
Defined.

Lemma player_progress_witness : machine_wf ex_player_crypto (ex_after ex_timeouts) /\
  behind (mc_player ex_start) (mc_player (ex_after ex_timeouts)) /\ pl_Step (mc_player (ex_after ex_timeouts)) = 4.
Proof.
  assert (ex_runs ex_timeouts = true) as Hr by (vm_compute; reflexivity).
  destruct (player_progress ex_signers ex_player_crypto 10 "future" [] ex_start (ex_acts ex_timeouts) (ex_after ex_timeouts)
              ex_round (trace_start _ _ _) (ex_trace ex_timeouts ex_timeouts_ok Hr)) as [H1 H2].
  split; [exact H1|]. split; [exact H2|]. vm_compute. reflexivity.
Defined.

Lemma submitTop_terminates_witness : exists N o s', (forall err, o <> Err err) /\
  forall fuel, (N <= fuel)%nat -> submitTop ex_signers ex_player_crypto fuel (ex_verified propose) ex_start = (o, s').
Proof.
  apply (submitTop_terminates ex_signers ex_player_crypto (ex_verified propose) ex_start).
  - apply startMachine_wf, ex_round.
  - apply ex_verified_ok.
Defined.

(** A certificate of period 2 that reaches a player of period 4. *)
Definition ex_stale_bundle : bundle :=
  mkBundle (mkUnauthenticatedBundle 10 2 cert ex_p [authenticator_of (ex_cast 2 cert)] []) [ex_cast 2 cert] [].

Lemma stale_certificate_panics_witness :
  let s := mkMachine (mc_player ex_start <| pl_Period := 4 |>) ∅ in
  machine_wf ex_player_crypto s /\
  (submitTop ex_signers ex_player_crypto 1 (ex_message (bundleVerified (b_U ex_stale_bundle) ex_stale_bundle)) s).1 = Panic.
Proof.
  intros s. assert (machine_wf ex_player_crypto s) as Hw.
  { destruct (startMachine_wf ex_player_crypto 10 "future" ex_round) as [H1 H2]. destruct H2. split; [exact H1|by split]. }
  split; [exact Hw|]. apply (stale_certificate_panics ex_signers ex_player_crypto 0 s _ ex_stale_bundle (ex_cast 2 cert) []);
    [exact Hw|reflexivity..].
Defined.
