(* ===== verification/MerkleFacts.v ===== *)
(** Facts about [MerkleArray]: the index of a vector commitment is an involution, layers and
    trees have the shape the code expects, and what a prover asks of its tree is what a
    verifier needs to find the root. *)
From S2P Require Import Prelude Config Basics MerkleArray.
#[local] Open Scope string_scope.
#[local] Open Scope list_scope.
#[local] Open Scope Z_scope.

(** ** Reversed indexes *)

Lemma reverse_bits_0 n : reverse_bits n 0 = 0.
Proof. induction n; cbn [reverse_bits]; [done|]. by rewrite Z.mod_0_l, Z.div_0_l, IHn by lia. Qed.

Lemma half_range x n : 0 <= x < 2 ^ Z.of_nat (S n) -> 0 <= x / 2 < 2 ^ Z.of_nat n.
Proof.
  rewrite Nat2Z.inj_succ, Z.pow_succ_r by lia. intros H. split; [apply Z.div_pos; lia|]. apply Z.div_lt_upper_bound; lia.
Qed.

Lemma reverse_bits_range n x : 0 <= reverse_bits n x < 2 ^ Z.of_nat n.
Proof.
  revert x. induction n as [|n IH]; intros x; cbn [reverse_bits]; [done|]. specialize (IH (x / 2)).
  assert (0 <= x mod 2 < 2) by (apply Z.mod_pos_bound; lia). rewrite Nat2Z.inj_succ, Z.pow_succ_r by lia.
  assert (x mod 2 = 0 \/ x mod 2 = 1) as [-> | ->] by lia; lia.
Qed.

(** The bits from the other end. *)
Lemma reverse_bits_high n x : 0 <= x < 2 ^ Z.of_nat (S n) ->
  reverse_bits (S n) x = 2 * reverse_bits n (x mod 2 ^ Z.of_nat n) + x / 2 ^ Z.of_nat n.
Proof.
  revert x. induction n as [|n IH]; intros x Hx.
  - cbn in *. rewrite Z.div_1_r, Z.mod_small; lia.
  - rewrite (Z.div_mod x 2) at 1 by lia. set (b := x mod 2). set (y := x / 2).
    assert (0 <= b < 2) by (apply Z.mod_pos_bound; lia). pose proof (half_range _ _ Hx) as Hy. fold y in Hy.
    assert (x = 2 * y + b) as Ex by (apply Z.div_mod; lia). rewrite <- Ex.
    change (reverse_bits (S (S n)) x) with (b * 2 ^ Z.of_nat (S n) + reverse_bits (S n) y). rewrite (IH y Hy).
    cbn [reverse_bits]. rewrite !Nat2Z.inj_succ, !Z.pow_succ_r by lia. set (N := 2 ^ Z.of_nat n). assert (0 < N) by (apply Z.pow_pos_nonneg; lia).
    assert (x mod (2 * N) = 2 * (y mod N) + b) as ->.
    { symmetry. apply (Z.mod_unique_pos _ _ (y / N)); [pose proof (Z.mod_pos_bound y N ltac:(lia)); lia|]. pose proof (Z.div_mod y N ltac:(lia)). lia. }
    assert (x / (2 * N) = y / N) as -> by (rewrite <- Z.div_div by lia; done).
    replace (2 * (y mod N) + b) with (b + y mod N * 2) by lia. rewrite Z.mod_add, Z.div_add by lia.
    rewrite (Z.mod_small b 2), (Z.div_small b 2) by lia. rewrite Z.add_0_l. lia.
Qed.

Lemma reverse_bits_involutive n x : 0 <= x < 2 ^ Z.of_nat n -> reverse_bits n (reverse_bits n x) = x.
Proof.
  revert x. induction n as [|n IH]; intros x Hx; [cbn in *; lia|].
  rewrite reverse_bits_high by apply reverse_bits_range. cbn [reverse_bits].
  pose proof (reverse_bits_range n (x / 2)) as Hr. set (N := 2 ^ Z.of_nat n) in *.
  set (r := reverse_bits n (x / 2)) in *. rewrite (Z.add_comm (_ * N)), Z.mod_add, Z.div_add by lia.
  rewrite (Z.mod_small r N), (Z.div_small r N) by lia. subst r.
  rewrite IH by (by apply half_range). pose proof (Z.div_mod x 2 ltac:(lia)). lia.
Qed.

Lemma reverse_bits_prefix d n x : (d <= n)%nat -> 0 <= x < 2 ^ Z.of_nat d ->
  reverse_bits n x = reverse_bits d x * 2 ^ Z.of_nat (n - d).
Proof.
  revert n x. induction d as [|d IH]; intros n x Hd Hx.
  - cbn in Hx. replace x with 0 by lia. by rewrite !reverse_bits_0.
  - destruct n as [|n]; [lia|]. cbn [reverse_bits]. rewrite (IH n) by (lia || by apply half_range). cbn [Nat.sub].
    rewrite Z.mul_add_distr_r, <- Z.mul_assoc, <- Z.pow_add_r by lia. do 3 f_equal. lia.
Qed.

Lemma shl1_small d : (d < 64)%nat -> shl1 (Z.of_nat d) = 2 ^ Z.of_nat d.
Proof.
  intros Hd. unfold shl1. rewrite Z.shiftl_mul_pow2, Z.mul_1_l by lia. apply wrap64_small. split; [apply Z.pow_nonneg; lia|].
  change two64 with (2 ^ 64). apply Z.pow_lt_mono_r; lia.
Qed.

(** The index of a vector commitment, for depths below 64. *)
Lemma VectorCommitmentIndex_spec d x : (d < 64)%nat -> 0 <= x < 2 ^ Z.of_nat d ->
  merkleTreeToVectorCommitmentIndex x (Z.of_nat d) = Ok (reverse_bits d x).
Proof.
  intros Hd Hx. unfold merkleTreeToVectorCommitmentIndex. rewrite shl1_small by done. destruct (Z.leb_spec (2 ^ Z.of_nat d) x); [lia|].
  unfold Reverse64, wrap8. rewrite (reverse_bits_prefix d 64) by lia. rewrite Z.mod_small by lia.
  replace (64 - Z.of_nat d) with (Z.of_nat (64 - d)) by lia. rewrite Z.shiftr_div_pow2, Z.div_mul by (lia || apply Z.pow_nonzero; lia). done.
Qed.

(** ** Sibling positions *)

Lemma lxor1 p : 0 <= p -> Z.lxor p 1 = if p mod 2 =? 0 then p + 1 else p - 1.
Proof.
  intros Hp. pose proof (Z.div_mod p 2 ltac:(lia)) as Hdm. pose proof (Z.mod_pos_bound p 2 ltac:(lia)).
  set (q := p / 2) in *. assert (p mod 2 = 0 \/ p mod 2 = 1) as [E|E] by lia; rewrite E in *; cbn [Z.eqb]; rewrite Hdm at 1.
  - rewrite Z.add_0_r. change 1 with (2 ^ 0) at 1. apply Z.bits_inj'. intros i Hi. rewrite Z.lxor_spec. destruct (Z.eq_dec i 0) as [->|].
    + rewrite Z.testbit_even_0. rewrite Hdm, Z.add_0_r, Z.testbit_odd_0. done.
    + rewrite Z.pow2_bits_false, xorb_false_r by lia. rewrite Hdm, Z.add_0_r. replace i with (Z.succ (i - 1)) by lia.
      rewrite Z.testbit_even_succ, Z.testbit_odd_succ by lia. done.
  - apply Z.bits_inj'. intros i Hi. rewrite Z.lxor_spec. replace (p - 1) with (2 * q) by lia. destruct (Z.eq_dec i 0) as [->|].
    + by rewrite Z.testbit_odd_0, Z.testbit_even_0.
    + change 1 with (2 ^ 0) at 2. rewrite Z.pow2_bits_false, xorb_false_r by lia. replace i with (Z.succ (i - 1)) by lia.
      rewrite Z.testbit_even_succ, Z.testbit_odd_succ by lia. done.
Qed.

(** ** Nodes *)

Section trees.
  Context (sum : Z -> bytes -> bytes).

(** The parent of two nodes, when the left one fits into the buffer. *)
Definition node (h : Z) (l r : GenericDigest) : GenericDigest :=
  let n := Z.to_nat (2 * hash_Size h) in GenericHashObj sum h (mkHashable MerkleArrayNode (take n (l ++ r ++ zeros n))).

Lemma pair_buffer l r s : (length l <= Z.to_nat (2 * s))%nat ->
  pair_ToBeHashed l r s = Ok (mkHashable MerkleArrayNode (take (Z.to_nat (2 * s)) (l ++ r ++ zeros (Z.to_nat (2 * s))))).
Proof.
  intros Hl. set (n := Z.to_nat (2 * s)) in *. unfold pair_ToBeHashed. fold n.
  assert (copyAt (zeros n) 0 l = Ok (l ++ zeros (n - length l))) as ->.
  { unfold copyAt, zeros. rewrite length_replicate. destruct (Nat.ltb_spec n 0); [lia|].
    rewrite take_0, Nat.sub_0_r, (take_ge l), drop_replicate by done. done. }
  cbn [mbind outcome_bind]. unfold copyAt, zeros. rewrite length_app, length_replicate.
  replace (length l + (n - length l))%nat with n by lia. destruct (Nat.ltb_spec n (length l)); [lia|]. cbn [mbind outcome_bind]. do 2 f_equal.
  rewrite take_app_length, drop_app_ge by lia. rewrite drop_replicate, take_app, (take_ge l) by lia. f_equal.
  rewrite take_app, take_replicate. f_equal. f_equal. lia.
Qed.

Lemma hashPair_node h l r : (length l <= Z.to_nat (2 * hash_Size h))%nat -> hashPair sum h l r = Ok (node h l r).
Proof. intros Hl. unfold hashPair. by rewrite pair_buffer. Qed.

Lemma hash_Size_nonneg h : 0 <= hash_Size h.
Proof. unfold hash_Size, Sha512_256Size, SumhashDigestSize. repeat case_match; lia. Qed.

Section sized.
  (** The hash functions have the output sizes they declare. *)
  Context (Hsum : forall h m, 0 <= h < MaxHashType -> length (sum h m) = Z.to_nat (hash_Size h)).
  Context (h : Z) (Hh : 0 <= h < MaxHashType).

Notation digestSize := (Z.to_nat (hash_Size h)).

Lemma GenericHashObj_length obj : length (GenericHashObj sum h obj) = digestSize.
Proof. unfold GenericHashObj, hash_Sum. rewrite (proj2 (Z.ltb_lt _ _)) by lia. by apply Hsum. Qed.

(** Digests of a layer have the size of the hash. *)
Definition sized (l : Layer) : Prop := Forall (fun d => length d = digestSize) l.

(** A node of a layer, empty behind the end. *)
Definition lv (l : Layer) (p : Z) : GenericDigest := default [] (l !! Z.to_nat p).

Lemma lv_lookup (l : Layer) p d : l !! Z.to_nat p = Some d -> lv l p = d.
Proof. intros E. exact (f_equal (default []) E). Qed.
Lemma lv_size l p : sized l -> (length (lv l p) <= digestSize)%nat.
Proof.
  intros Hl. unfold lv. destruct (l !! Z.to_nat p) as [d|] eqn:E; cbn; [|lia]. by rewrite (Forall_lookup_1 _ _ _ _ Hl E).
Qed.
Lemma lv_fits l p : sized l -> (length (lv l p) <= Z.to_nat (2 * hash_Size h))%nat.
Proof. intros Hl%(fun H => lv_size l p H). pose proof (hash_Size_nonneg h). lia. Qed.

Lemma nextLayer_spec l : sized l -> exists l', nextLayer sum h l = Ok l' /\ sized l' /\ length l' = ((length l + 1) / 2)%nat /\
  forall i, 0 <= i < blen l' -> lv l' i = node h (lv l (2 * i)) (lv l (2 * i + 1)).
Proof.
  remember (length l) as n eqn:En. revert l En. induction (lt_wf n) as [n _ IH]. intros l En Hl. unfold blen.
  destruct l as [|x [|y l]]; cbn [nextLayer].
  - exists []. cbn in *. subst. split_and!; [done..|]. lia.
  - pose proof (proj1 (Forall_singleton _ _) Hl) as Hx. cbv beta in Hx. rewrite hashPair_node by (pose proof (hash_Size_nonneg h); lia). cbn. eexists. split; [done|].
    split; [apply Forall_singleton, GenericHashObj_length|]. subst n. split; [done|]. intros i Hi. cbn in Hi. by replace i with 0 by lia.
  - apply Forall_cons in Hl as [Hx Hl]. apply Forall_cons in Hl as [Hy Hl]. cbv beta in Hx, Hy.
    rewrite hashPair_node by (pose proof (hash_Size_nonneg h); lia). cbn [mbind outcome_bind]. cbn in En.
    destruct (IH (length l) ltac:(lia) l eq_refl Hl) as (l' & -> & Hs & Hlen & Hn). cbn [mbind outcome_bind]. eexists. split; [done|].
    split; [apply Forall_cons; split; [apply GenericHashObj_length|done]|]. split.
    + subst n. cbn [length]. rewrite Hlen. replace (S (S (length l)) + 1)%nat with (length l + 1 + 1 * 2)%nat by lia.
      rewrite Nat.div_add by lia. lia.
    + cbn [length]. intros i Hi. destruct (Z.eq_dec i 0) as [->|]; [done|]. unfold lv in *.
      replace (Z.to_nat i) with (S (Z.to_nat (i - 1))) by lia. replace (Z.to_nat (2 * i)) with (S (S (Z.to_nat (2 * (i - 1))))) by lia.
      replace (Z.to_nat (2 * i + 1)) with (S (S (Z.to_nat (2 * (i - 1) + 1)))) by lia. cbn. apply Hn. unfold blen. lia.
Qed.

(** A tree: every layer is the next one of the layer below, up to a layer of one node. *)
Fixpoint chain (levels : list Layer) : Prop :=
  match levels with
  | [] => False
  | top :: rest =>
      sized top /\
      match rest with
      | [] => length top = 1%nat
      | next :: _ => (1 < length top)%nat /\ nextLayer sum h top = Ok next /\ chain rest
      end
  end.

Lemma buildLayers_chain leaves : sized leaves -> leaves <> [] ->
  exists levels, buildLayers sum h leaves = Ok levels /\ chain levels /\ head levels = Some leaves.
Proof.
  intros Hs Hne. unfold buildLayers. destruct (Nat.eqb_spec (length leaves) 0) as [E|_]; [by apply nil_length_inv in E|].
  assert (exists fuel, fuel = length leaves /\ (length leaves <= fuel)%nat) as (fuel & Ef & Hf) by eauto. rewrite <- Ef. clear Ef.
  revert leaves Hs Hne Hf. induction fuel as [|fuel IH]; intros leaves Hs Hne Hf; [destruct leaves; cbn in *; [done|lia]|].
  cbn [buildLayers_loop]. destruct (Nat.leb_spec (length leaves) 1).
  - exists [leaves]. destruct leaves as [|x [|y l]]; cbn in *; [done| |lia]. done.
  - destruct (nextLayer_spec leaves Hs) as (next & En & Hsn & Hlen & _). rewrite En. cbn [mbind outcome_bind].
    assert ((length leaves + 1) / 2 < length leaves)%nat by (apply Nat.Div0.div_lt_upper_bound; lia).
    assert (1 <= (length leaves + 1) / 2)%nat by (apply Nat.div_le_lower_bound; lia).
    destruct (IH next Hsn) as (levels & -> & Hc & Hhd); [destruct next; cbn in *; lia || done|lia|].
    cbn [mbind outcome_bind]. exists (leaves :: levels). split_and!; [done| |done]. destruct levels as [|n' rest]; [done|]. cbn in Hhd.
    injection Hhd as ->. cbn [chain]. done.
Qed.

(** ** Provers and verifiers *)

(** A partial layer with the hashes of the tree. *)
Definition items (l : Layer) (ps : list Z) : partialLayer := map (fun p => mklayerItem p (lv l p)) ps.

(** The positions one level up. *)
Fixpoint halves (ps : list Z) : list Z :=
  match ps with
  | [] => []
  | p :: rest => p / 2 :: match rest with
                          | q :: rest' => if q =? Z.lxor p 1 then halves rest' else halves rest
                          | [] => []
                          end
  end.

Lemma parent l next p : sized l -> nextLayer sum h l = Ok next -> 0 <= p < blen l ->
  nextLayerHash sum h true p (lv l p) (lv l (Z.lxor p 1)) = Ok (lv next (p / 2)) /\ 0 <= p / 2 < blen next.
Proof.
  intros Hs Hn Hp. destruct (nextLayer_spec l Hs) as (next' & E & _ & Hlen & Hnode). rewrite Hn in E. injection E as <-.
  assert (blen next = (blen l + 1) / 2) as Hb by (unfold blen; rewrite Hlen, Nat2Z.inj_div; f_equal; lia).
  assert (0 <= p / 2 < blen next) as Hp2.
  { rewrite Hb. split; [apply Z.div_pos; lia|]. apply Z.lt_le_trans with (p / 2 + 1); [lia|].
    replace (p / 2 + 1) with ((p + 1 * 2) / 2) by (rewrite Z.div_add; lia). apply Z.div_le_mono; lia. }
  split; [|done]. rewrite Hnode by done. unfold nextLayerHash.
  assert (Z.land p 1 = p mod 2) as -> by (apply (Z.land_ones p 1); lia). rewrite lxor1 by lia.
  pose proof (Z.div_mod p 2 ltac:(lia)). pose proof (Z.mod_pos_bound p 2 ltac:(lia)).
  destruct (Z.eqb_spec (p mod 2) 0); rewrite hashPair_node by (by apply lv_fits); do 3 f_equal; lia.
Qed.

(** What is left of a partial layer once its first item has gone up. *)
Definition remaining {A} (pos : A -> Z) (p : Z) (rest : list A) : list A :=
  match rest with
  | q :: rest' => if pos q =? Z.lxor p 1 then rest' else rest
  | [] => []
  end.

Lemma halves_cons p rest : halves (p :: rest) = p / 2 :: halves (remaining id p rest).
Proof. destruct rest as [|q rest]; cbn; [done|]. by destruct (q =? _). Qed.
Lemma remaining_length {A} (pos : A -> Z) p rest : (length (remaining pos p rest) <= length rest)%nat.
Proof. destruct rest; cbn; [lia|]. case_match; cbn; lia. Qed.
Lemma remaining_incl {A} (pos : A -> Z) p rest x : x ∈ remaining pos p rest -> x ∈ rest.
Proof. destruct rest; cbn; [done|]. case_match; set_solver. Qed.
Lemma remaining_map {A} (f : A -> Z) p (l : list A) : map f (remaining f p l) = remaining id p (map f l).
Proof. destruct l; cbn; [done|]. by case_match. Qed.

(** Induction along the items of a layer. *)
Lemma halves_ind (P : list Z -> Prop) : P [] -> (forall p rest, P (remaining id p rest) -> P (p :: rest)) -> forall ps, P ps.
Proof.
  intros H0 Hc ps. remember (length ps) as n eqn:En. revert ps En. induction (lt_wf n) as [n _ IH]. intros [|p rest] ->; [done|].
  apply Hc. eapply IH; [|done]. pose proof (remaining_length id p rest). cbn. lia.
Qed.

Lemma halves_sorted ps : StronglySorted Z.lt ps -> Forall (Z.le 0) ps ->
  StronglySorted Z.lt (halves ps) /\ forall q, q ∈ halves ps -> exists p, p ∈ ps /\ q = p / 2.
Proof.
  induction ps as [|p rest IH] using halves_ind; intros Hs Hp; [split; [constructor|set_solver]|].
  apply StronglySorted_inv in Hs as [Hs Hlt]. apply Forall_cons in Hp as [Hp0 Hp].
  assert (StronglySorted Z.lt (remaining id p rest)) as Hsr.
  { destruct rest; cbn; [constructor|]. case_match; [|done]. by apply StronglySorted_inv in Hs as [? _]. }
  rewrite halves_cons. destruct IH as [IH1 IH2]; [done|apply Forall_forall; intros x Hx%remaining_incl; by eapply Forall_forall in Hp|].
  split.
  - constructor; [done|]. apply Forall_forall. intros q Hq. apply IH2 in Hq as (r & Hr & ->).
    enough (p / 2 + 1 <= r / 2) by lia. replace (p / 2 + 1) with ((p + 1 * 2) / 2) by (rewrite Z.div_add; lia).
    pose proof (lxor1 p Hp0) as Hx. pose proof (Z.div_mod p 2 ltac:(lia)) as Hdm. pose proof (Z.mod_pos_bound p 2 ltac:(lia)).
    pose proof (proj1 (Forall_forall _ _) Hlt r (remaining_incl _ _ _ _ Hr)) as Hpr. cbn in Hpr.
    destruct (Z.eqb_spec (p mod 2) 0) as [Ev|Ev].
    + apply Z.div_le_mono; [lia|]. assert (r <> p + 1); [|lia]. intros ->. destruct rest as [|q rest]; unfold remaining, id in Hr; [set_solver|].
      apply StronglySorted_inv in Hs as [_ Hq]. destruct (Z.eqb_spec q (Z.lxor p 1)) as [Eq|Eq]; rewrite Hx in Eq.
      * eapply Forall_forall in Hq; [|done]. cbn in Hq. lia.
      * apply elem_of_cons in Hr as [Hr|Hr]; [congruence|]. eapply Forall_forall in Hq; [|done]. apply Forall_cons in Hlt as [? _]. cbn in Hq. lia.
    + replace (p + 1 * 2) with (1 + (p / 2 + 1) * 2) by lia. rewrite Z.div_add by lia. change (1 / 2) with 0.
      apply Z.div_le_lower_bound; lia.
  - intros q Hq. apply elem_of_cons in Hq as [->|Hq]; [exists p; set_solver|]. apply IH2 in Hq as (r & Hr%remaining_incl & ->). exists r. set_solver.
Qed.

(** The two ways an item goes up. *)
Lemma up_paired k doHash item next rest s : li_pos next = Z.lxor (li_pos item) 1 ->
  up sum h k doHash (item :: next :: rest) s =
    (nextHash ← nextLayerHash sum h doHash (li_pos item) (li_hash item) (li_hash next);
     '(res, s) ← up sum h k doHash rest s; Ok (mklayerItem (li_pos item / 2) nextHash :: res, s)).
Proof. intros E. cbn [up]. by rewrite E, Z.eqb_refl. Qed.
Lemma up_alone k doHash item rest s : (forall next, head rest = Some next -> li_pos next <> Z.lxor (li_pos item) 1) ->
  up sum h k doHash (item :: rest) s =
    ('(siblingHash, s) ← siblings_get s k (Z.lxor (li_pos item) 1);
     nextHash ← nextLayerHash sum h doHash (li_pos item) (li_hash item) siblingHash;
     '(res, s) ← up sum h k doHash rest s; Ok (mklayerItem (li_pos item / 2) nextHash :: res, s)).
Proof. intros E. destruct rest as [|next rest]; [done|]. cbn [up]. by rewrite (proj2 (Z.eqb_neq _ _) (E next eq_refl)). Qed.

(** What a verifier has left after a level: every item of the next one took a hint or merged
    two items. *)
Lemma up_uses k doHash n : forall pl hints pl' s', length pl = n -> up sum h k doHash pl (mksiblings None hints) = Ok (pl', s') ->
  sib_tree s' = None /\ (length (sib_hints s') + 2 * length pl' = length hints + length pl)%nat /\ (pl <> [] -> pl' <> []).
Proof.
  induction (lt_wf n) as [n _ IH]. intros pl hints pl' s' En Hup. destruct pl as [|item rest]; [by injection Hup as <- <-|]. cbn [length] in En.
  assert ((exists next rest', rest = next :: rest' /\ li_pos next = Z.lxor (li_pos item) 1) \/ forall next, head rest = Some next -> li_pos next <> Z.lxor (li_pos item) 1) as [(next & rest' & -> & E)|E].
  { destruct rest as [|next rest']; [by right|]. destruct (Z.eq_dec (li_pos next) (Z.lxor (li_pos item) 1)); [left; eauto|right]. by intros ? [= <-]. }
  - rewrite up_paired in Hup by done. destruct (nextLayerHash _ _ _ _ _ _) as [nh|e|]; [|done|done]. cbn [mbind outcome_bind] in Hup.
    destruct (up _ _ _ _ _ _) as [[res s1]|e|] eqn:Er; [|done|done]. injection Hup as <- <-. cbn [length] in *.
    destruct (IH (length rest') ltac:(lia) rest' hints _ _ eq_refl Er) as (H1 & H2 & _). split_and!; [done|lia|done].
  - rewrite up_alone in Hup by done. destruct hints as [|d hints]; [done|]. cbn [siblings_get sib_tree sib_hints mbind outcome_bind] in Hup.
    destruct (nextLayerHash _ _ _ _ _ _) as [nh|e|]; [|done|done]. cbn [mbind outcome_bind] in Hup.
    destruct (up _ _ _ _ _ _) as [[res s1]|e|] eqn:Er; [|done|done]. injection Hup as <- <-.
    destruct (IH (length rest) ltac:(lia) rest hints _ _ eq_refl Er) as (H1 & H2 & _). cbn [length]. split_and!; [done|lia|done].
Qed.

(** Hints and items together are turns enough: more of them change nothing. *)
Lemma verifyPath_enough fuel : forall k pl hints extra, pl <> [] -> (length hints + length pl <= fuel)%nat ->
  verifyPath_loop sum h (fuel + extra) k pl (mksiblings None hints) = verifyPath_loop sum h fuel k pl (mksiblings None hints).
Proof.
  induction fuel as [|fuel IH]; intros k pl hints extra Hne Hf; [destruct pl; cbn in Hf; [done|lia]|]. cbn [Nat.add verifyPath_loop sib_hints].
  destruct ((0 <? blen hints) || (1 <? blen pl)) eqn:E; [|done]. destruct (up sum h k true pl (mksiblings None hints)) as [[pl' [t hs]]|e|] eqn:Eu; [|done|done].
  destruct (up_uses k true _ pl hints pl' _ eq_refl Eu) as (Ht & Hm & Hne'). cbn in Ht, Hm. subst t. cbn [mbind outcome_bind].
  apply IH; [by apply Hne'|]. destruct pl' as [|x pl']; [by destruct (Hne' Hne)|]. cbn [length] in *. lia.
Qed.

(** One level: the hints a prover collects let a verifier compute the nodes of the next level. *)
Lemma up_sim tree k l next ps : sized l -> nextLayer sum h l = Ok next -> tr_Levels tree !! k = Some l ->
  Forall (fun p => 0 <= p < blen l) ps -> forall pl hints, map li_pos pl = ps ->
  exists pl1 hs, up sum h k false pl (mksiblings (Some tree) hints) = Ok (pl1, mksiblings (Some tree) (hints ++ hs)) /\
    map li_pos pl1 = halves ps /\ (length hs + length ps = 2 * length (halves ps))%nat /\
    Forall (fun d => (length d <= digestSize)%nat) hs /\
    forall k' rest, up sum h k' true (items l ps) (mksiblings None (hs ++ rest)) = Ok (items next (halves ps), mksiblings None rest).
Proof.
  intros Hs Hn Hk. induction ps as [|p rest IH] using halves_ind; intros Hps pl hints Hpl.
  { apply map_eq_nil in Hpl as ->. exists [], []. by rewrite app_nil_r. }
  apply Forall_cons in Hps as [Hp Hps]. destruct pl as [|item pl]; [done|]. cbn in Hpl. injection Hpl as Ep El.
  specialize (IH ltac:(apply Forall_forall; intros x Hx%remaining_incl; by eapply Forall_forall in Hps)).
  destruct (parent l next p Hs Hn Hp) as [Hpar _]. rewrite halves_cons.
  assert ((exists q ps', rest = q :: ps' /\ q = Z.lxor p 1 /\ remaining id p rest = ps') \/
          ((forall q, head rest = Some q -> q <> Z.lxor p 1) /\ remaining id p rest = rest)) as [(q & ps' & -> & Eq & Er)|[Hne Er]].
  { destruct rest as [|q ps']; [by right|]. unfold remaining, id. destruct (Z.eqb_spec q (Z.lxor p 1)); [left; eauto|right].
    split; [|done]. intros ? [= <-]. done. }
  - rewrite Er in *. destruct pl as [|item' pl]; [done|]. cbn in El. injection El as Eq' El.
    destruct (IH pl hints El) as (pl1 & hs & Hup & Hpos & Hlen & Hsz & Hver). exists (mklayerItem (p / 2) [] :: pl1), hs. split_and!.
    + rewrite up_paired by congruence. cbn [nextLayerHash mbind outcome_bind]. by rewrite Hup, Ep.
    + cbn. by rewrite Hpos.
    + cbn [length]. lia.
    + done.
    + intros k' r. cbn [items map]. rewrite up_paired by done. cbn [li_pos li_hash]. rewrite Eq, Hpar. cbn [mbind outcome_bind].
      fold (items l ps'). by rewrite Hver.
  - rewrite Er in *. destruct (IH pl (hints ++ [lv l (Z.lxor p 1)]) El) as (pl1 & hs & Hup & Hpos & Hlen & Hsz & Hver).
    exists (mklayerItem (p / 2) [] :: pl1), (lv l (Z.lxor p 1) :: hs). split_and!.
    + rewrite up_alone; [|rewrite Ep; intros x Hx; apply Hne; rewrite <- El; destruct pl; [done|]; cbn in *; congruence].
      unfold siblings_get. cbn [sib_tree]. rewrite Hk. cbn [mbind outcome_bind nextLayerHash sib_hints]. rewrite Ep.
      match goal with |- mbind _ ?x = _ => replace x with (Ok (pl1, mksiblings (Some tree) ((hints ++ [lv l (Z.lxor p 1)]) ++ hs))) by (symmetry; exact Hup) end.
      cbn [mbind outcome_bind]. by rewrite <- app_assoc.
    + cbn. by rewrite Hpos.
    + cbn [length] in *. lia.
    + constructor; [by apply lv_size|done].
    + intros k' r. cbn [items map]. fold (items l rest).
      rewrite up_alone; [|cbn [li_pos]; intros x Hx; destruct rest; [done|]; cbn in Hx; injection Hx as <-; by apply Hne].
      cbn [siblings_get sib_tree sib_hints app mbind outcome_bind li_hash li_pos]. rewrite Hpar. cbn [mbind outcome_bind]. by rewrite Hver.
Qed.

(** ** From the leaves to the root *)

Lemma chain_inv lvl rest : chain (lvl :: rest) -> rest <> [] ->
  exists next rest', rest = next :: rest' /\ sized lvl /\ (1 < length lvl)%nat /\ nextLayer sum h lvl = Ok next /\ chain rest /\
    length next = ((length lvl + 1) / 2)%nat.
Proof.
  intros [Hs Hc] Hne. destruct rest as [|next rest']; [done|]. destruct Hc as (Hl & Hn & Hc). exists next, rest'. split_and!; try done.
  destruct (nextLayer_spec lvl Hs) as (n' & E & _ & Hlen & _). rewrite Hn in E. by injection E as <-.
Qed.

Lemma chain_root levels : chain levels -> exists r, last levels = Some [r].
Proof.
  induction levels as [|lvl rest IH]; [done|]. intros Hc. destruct rest as [|next rest].
  - destruct Hc as [_ Hl]. destruct lvl as [|r [|]]; [done| |done]. by exists r.
  - destruct (chain_inv lvl (next :: rest) Hc) as (n' & rest' & [= -> ->] & _ & _ & _ & Hc' & _); [done|].
    destruct (IH Hc') as [r Hr]. exists r. by rewrite last_cons, Hr.
Qed.

Lemma chain_root_size levels r : chain levels -> last levels = Some [r] -> length r = digestSize.
Proof.
  induction levels as [|lvl rest IH]; [done|]. intros Hc Hl. destruct rest as [|next rest].
  - destruct Hc as [Hs _]. injection Hl as ->. by apply Forall_cons in Hs as [? _].
  - destruct (chain_inv lvl (next :: rest) Hc) as (n' & rest' & [= <- <-] & _ & _ & _ & Hc' & _); [done|].
    destruct (chain_root _ Hc') as [r' Hr']. rewrite last_cons, Hr' in Hl. injection Hl as ->. by apply IH.
Qed.

(** The size of the bottom layer bounds the depth from both sides. *)
Lemma chain_depth lvl rest : chain (lvl :: rest) ->
  (length lvl <= 2 ^ length rest)%nat /\ (rest <> [] -> (2 ^ (length rest - 1) < length lvl)%nat).
Proof.
  revert lvl. induction rest as [|next rest IH]; intros lvl Hc; [destruct Hc as [_ ->]; cbn; split; [lia|done]|].
  destruct (chain_inv lvl (next :: rest) Hc) as (n' & rest' & [= -> ->] & _ & Hl & _ & Hc' & Hlen); [done|].
  destruct (IH _ Hc') as [IH1 IH2]. pose proof (Nat.div_mod_eq (length lvl + 1) 2) as Hdm.
  pose proof (Nat.mod_upper_bound (length lvl + 1) 2 ltac:(lia)). rewrite Hlen in *. set (q := ((length lvl + 1) / 2)%nat) in *.
  split; [cbn [length Nat.pow]; lia|]. intros _. cbn [length]. rewrite Nat.sub_succ, Nat.sub_0_r.
  destruct rest' as [|x rest']; [cbn; lia|]. cbn [length] in *. specialize (IH2 ltac:(done)). rewrite Nat.sub_succ, Nat.sub_0_r in IH2.
  cbn [Nat.pow]. lia.
Qed.

(** All the levels: what the prover collects leads the verifier to the root. *)
Lemma upLevels_sim tree r suffix : forall pre lvl ps pl hints, tr_Levels tree = pre ++ suffix -> chain suffix ->
  head suffix = Some lvl -> last suffix = Some [r] -> ps <> [] -> StronglySorted Z.lt ps -> Forall (fun p => 0 <= p < blen lvl) ps -> map li_pos pl = ps ->
  exists pl1 hs, upLevels sum h (length suffix - 1) (length pre) pl (mksiblings (Some tree) hints) = Ok (pl1, mksiblings (Some tree) (hints ++ hs)) /\
    map li_pos pl1 = [0] /\ Forall (fun d => (length d <= digestSize)%nat) hs /\ (length ps = 1%nat -> length hs = (length suffix - 1)%nat) /\
    forall fuel k, (length hs + length ps <= fuel)%nat -> verifyPath_loop sum h fuel k (items lvl ps) (mksiblings None hs) = Ok [mklayerItem 0 r].
Proof.
  induction suffix as [|l0 rest IH]; intros pre lvl ps pl hints Ht Hc Hhd Hr Hne Hss Hb Hpl; [done|]. cbn in Hhd. injection Hhd as ->.
  destruct rest as [|next rest].
  - injection Hr as ->. unfold blen in Hb. cbn in Hb. assert (ps = [0]) as ->.
    { destruct ps as [|p [|q ps]]; [done| |].
      - apply Forall_cons in Hb as [Hb _]. cbv beta in Hb. f_equal. lia.
      - apply StronglySorted_inv in Hss as [_ Hss]. apply Forall_cons in Hss as [Hpq _]. apply Forall_cons in Hb as [Hp Hb]. apply Forall_cons in Hb as [Hq _]. cbv beta in *. lia. }
    exists pl, []. rewrite app_nil_r. split_and!; [done|done|constructor|done|]. intros fuel k Hf. destruct fuel; [cbn in Hf; lia|]. done.
  - destruct (chain_inv lvl (next :: rest) Hc) as (n' & rest' & [= -> ->] & Hs & Hl & Hn & Hc' & Hlen); [done|].
    assert (tr_Levels tree !! length pre = Some lvl) as Hk by (rewrite Ht, lookup_app_r, Nat.sub_diag by lia; done).
    destruct (up_sim tree (length pre) lvl n' ps Hs Hn Hk Hb pl hints Hpl) as (pl1 & hs & Hup & Hpos & Hcount & Hsz & Hver).
    assert (Forall (Z.le 0) ps) as H0 by (eapply Forall_impl; [exact Hb|]; cbn; lia).
    destruct (halves_sorted ps Hss H0) as [Hss' Hhalf].
    assert (halves ps <> []) as Hne' by (destruct ps; [done|by rewrite halves_cons]).
    assert (Forall (fun p => 0 <= p < blen n') (halves ps)) as Hb'.
    { apply Forall_forall. intros q (p & Hp & ->)%Hhalf. eapply Forall_forall in Hb; [|done]. by apply (parent lvl n' p Hs Hn). }
    destruct (IH (pre ++ [lvl]) n' (halves ps) pl1 (hints ++ hs)) as (pl2 & hs2 & Hup2 & Hpos2 & Hsz2 & Hone2 & Hver2); try done.
    { by rewrite <- app_assoc. }
    exists pl2, (hs ++ hs2). split_and!; [|done|by apply Forall_app| |].
    + cbn [length]. rewrite Nat.sub_succ, Nat.sub_0_r. cbn [upLevels]. unfold validateProof. rewrite Hup. cbn [mbind outcome_bind].
      rewrite length_app in Hup2. cbn [length] in Hup2. rewrite Nat.add_1_r, Nat.sub_succ, Nat.sub_0_r in Hup2. rewrite Hup2. by rewrite app_assoc.
    + intros Hone. destruct ps as [|p [|]]; [done| |done]. cbn in Hcount. rewrite length_app, Hone2 by done. cbn [length]. lia.
    + intros fuel k Hf. rewrite length_app in Hf. assert (0 < length (halves ps))%nat by (destruct (halves ps); [done|cbn; lia]).
      destruct fuel as [|fuel]; [lia|]. cbn [verifyPath_loop sib_hints]. unfold blen. rewrite length_app. unfold items at 1. rewrite length_map.
      assert ((0 <? Z.of_nat (length hs + length hs2)) || (1 <? Z.of_nat (length ps)) = true) as ->.
      { apply orb_true_iff. rewrite !Z.ltb_lt. lia. }
      rewrite Hver. cbn [mbind outcome_bind]. apply Hver2. lia.
Qed.

(** ** The first partial layers *)

(** Sorted positions without duplicates, above [prev]. *)
Fixpoint distinct (prev : option Z) (idxs : list Z) : list Z :=
  match idxs with
  | [] => []
  | pos :: rest => if bool_decide (prev = Some pos) then distinct prev rest else pos :: distinct (Some pos) rest
  end.

Lemma distinct_spec idxs : forall prev, StronglySorted Z.le idxs -> (forall p x, prev = Some p -> x ∈ idxs -> p <= x) ->
  StronglySorted Z.lt (distinct prev idxs) /\ forall x, x ∈ distinct prev idxs <-> x ∈ idxs /\ prev <> Some x.
Proof.
  induction idxs as [|pos rest IH]; intros prev Hs Hp; [split; [constructor|set_solver]|].
  apply StronglySorted_inv in Hs as [Hs Hle]. rewrite Forall_forall in Hle. cbn [distinct]. case_bool_decide as E.
  - destruct (IH prev Hs) as [H1 H2]; [set_solver|]. split; [done|]. intros x. rewrite H2, elem_of_cons. subst. naive_solver.
  - destruct (IH (Some pos) Hs) as [H1 H2]; [intros p x [= <-] Hx; by apply Hle|]. split.
    + constructor; [done|]. apply Forall_forall. intros x [Hx Hn]%H2. specialize (Hle x Hx). assert (x <> pos) by congruence. lia.
    + intros x. rewrite !elem_of_cons, H2. split; [|destruct (decide (x = pos)); naive_solver].
      intros [->|[Hx Hn]]; [auto|]. split; [auto|]. intros ->. specialize (Hp x pos eq_refl ltac:(set_solver)). specialize (Hle x Hx).
      apply Hn. f_equal. lia.
Qed.

Lemma firstItems_distinct lvl idxs prev : Forall (fun p => 0 <= p < blen lvl) idxs ->
  firstItems (Some lvl) prev idxs = Ok (items lvl (distinct prev idxs)).
Proof.
  revert prev. induction idxs as [|pos rest IH]; intros prev Hb; [done|]. apply Forall_cons in Hb as [Hp Hb].
  cbn [firstItems distinct]. case_bool_decide; [by apply IH|]. cbn [mbind option_bind].
  destruct (lvl !! Z.to_nat pos) as [d|] eqn:E; [|apply lookup_ge_None in E; unfold blen in Hp; lia].
  rewrite IH by done. cbn [mbind outcome_bind items map]. by rewrite (lv_lookup lvl pos d E).
Qed.

#[local] Instance item_le_trans : Transitive item_le.
Proof. intros x y z. unfold item_le. lia. Qed.
#[local] Instance item_le_total : Total item_le.
Proof. intros x y. unfold item_le. lia. Qed.

Lemma increasing_NoDup ps : StronglySorted Z.lt ps -> NoDup ps.
Proof. induction 1 as [|p ps Hs IH Hlt]; constructor; [|done]. intros Hp. eapply Forall_forall in Hlt; [|done]. cbn in Hlt. lia. Qed.

Lemma items_elem lvl ps x : x ∈ items lvl ps <-> li_pos x ∈ ps /\ li_hash x = lv lvl (li_pos x).
Proof.
  unfold items. rewrite list_elem_of_fmap. split; [intros (p & -> & Hp); done|].
  destruct x as [p d]. cbn. intros [Hp ->]. eauto.
Qed.

Lemma items_sorted lvl ps : StronglySorted Z.lt ps -> StronglySorted item_le (items lvl ps).
Proof.
  induction 1 as [|p ps Hs IH Hlt]; cbn; constructor; [done|]. apply Forall_forall. intros x [Hx _]%items_elem.
  eapply Forall_forall in Hlt; [|done]. unfold item_le. cbn in *. lia.
Qed.

(** What the verifier starts from, when it is given leaves of the tree. *)
Lemma firstLayer_items lvl ps (m : gmap Z GenericDigest) : StronglySorted Z.lt ps ->
  (forall k d, m !! k = Some d <-> k ∈ ps /\ d = lv lvl k) -> buildFirstPartialLayer m = items lvl ps.
Proof.
  intros Hs Hm. unfold buildFirstPartialLayer.
  assert (forall x, x ∈ map (fun kv => mklayerItem kv.1 kv.2) (map_to_list m) <-> x ∈ items lvl ps) as Hel.
  { intros [p d]. rewrite items_elem, list_elem_of_fmap. cbn. split.
    - intros ([k d'] & [= -> ->] & Hk%elem_of_map_to_list). by apply Hm.
    - intros Hk%Hm. exists (p, d). split; [done|]. by apply elem_of_map_to_list. }
  apply (StronglySorted_unique_strong item_le).
  - intros x y Hx Hy H1 H2. rewrite (merge_sort_Permutation item_le), Hel in Hx. apply items_elem in Hx as [_ Hx]. apply items_elem in Hy as [_ Hy].
    unfold item_le in *. assert (li_pos x = li_pos y) by lia. destruct x, y. cbn in *. congruence.
  - apply StronglySorted_merge_sort; apply _.
  - by apply items_sorted.
  - rewrite (merge_sort_Permutation item_le). apply NoDup_Permutation; [| |done].
    + apply (NoDup_fmap_1 li_pos). rewrite <- list_fmap_compose. apply NoDup_fst_map_to_list.
    + apply (NoDup_fmap_1 li_pos). unfold items. rewrite <- list_fmap_compose, list_fmap_id. by apply increasing_NoDup.
Qed.

(** ** A proof for a set of leaves *)

Lemma createProof_verifies tree lvl r idxs : tr_Hash tree = h -> chain (tr_Levels tree) -> head (tr_Levels tree) = Some lvl ->
  last (tr_Levels tree) = Some [r] -> idxs <> [] -> Forall (fun p => 0 <= p < blen lvl) idxs ->
  exists path, createProof sum tree (merge_sort Z.le idxs) = Ok (mkProof path h (wrap8 (blen (tr_Levels tree) - 1))) /\
    (length idxs = 1%nat -> length path = (length (tr_Levels tree) - 1)%nat) /\
    forall depth (m : gmap Z GenericDigest), (forall k d, m !! k = Some d <-> k ∈ idxs /\ d = lv lvl k) ->
      verifyPath sum r (mkProof path h depth) (buildFirstPartialLayer m) = Ok tt.
Proof.
  intros Hth Hc Hhd Hr Hne Hb. unfold createProof. rewrite Hhd, Hth. set (srt := merge_sort Z.le idxs).
  assert (srt ≡ₚ idxs) as Hperm by apply merge_sort_Permutation. rewrite firstItems_distinct by (by rewrite Hperm).
  cbn [mbind outcome_bind]. destruct (distinct_spec srt None) as [Hss Hel]; [apply StronglySorted_merge_sort; [apply _|intros ??; lia]|done|].
  set (ps := distinct None srt) in *. assert (forall x, x ∈ ps <-> x ∈ idxs) as Hin by (intros x; rewrite Hel, Hperm; naive_solver).
  assert (ps <> []) as Hne'. { destruct idxs as [|x ?]; [done|]. intros E. assert (x ∈ ps) as H by (apply Hin; set_solver). rewrite E in H. set_solver. }
  destruct (upLevels_sim tree r (tr_Levels tree) [] lvl ps (items lvl ps) []) as (pl1 & hs & Hup & Hpos & _ & Hone & Hver); try done.
  { apply Forall_forall. intros x Hx%Hin. by eapply Forall_forall in Hb. }
  { unfold items. rewrite map_map. cbn. apply map_id. }
  cbn [length app] in Hup. rewrite Hup. cbn [mbind outcome_bind]. exists hs. split.
  - assert (blen pl1 = 1) as ->. { unfold blen. rewrite <- (length_map li_pos), Hpos. done. } done.
  - split; [|intros depth m Hm].
    { intros H1. apply Hone. destruct idxs as [|i [|]]; [done| |done]. unfold ps. apply Permutation_singleton_r in Hperm. by rewrite Hperm. }
    unfold verifyPath. cbn [pf_HashFactory pf_Path].
    rewrite (firstLayer_items lvl ps) by (done || intros; by rewrite Hin). rewrite Hver; [|unfold items; rewrite length_map; lia].
    cbn. by rewrite bool_decide_eq_true_2.
Qed.
End sized.
End trees.
