(* ===== verification/MerkleCorrect.v ===== *)
(** The Merkle trees of [src/crypto/merklearray] are correct: what a tree proves verifies
    against its root, and what else verifies. *)
From S2P Require Import Prelude Config Basics MerkleArray MerkleFacts.
#[local] Open Scope string_scope.
#[local] Open Scope list_scope.
#[local] Open Scope Z_scope.

Section correct.
  Context (sum : Z -> bytes -> bytes).
  Context (Hsum : forall h m, 0 <= h < MaxHashType -> length (sum h m) = Z.to_nat (hash_Size h)).
  Context (h : Z) (Hh : 0 <= h < MaxHashType).

Lemma buildLeaves_spec array (elem : Z -> Hashable) n : forall i, (forall k, i <= k < i + Z.of_nat n -> arr_Marshal array k = Ok (elem k)) ->
  exists leaves, buildLeaves sum h array n i = Ok leaves /\ length leaves = n /\ sized h leaves /\
    forall k, 0 <= k < Z.of_nat n -> lv leaves k = GenericHashObj sum h (elem (i + k)).
Proof.
  induction n as [|n IH]; intros i Hm; [exists []; split_and!; [done..|constructor|lia]|].
  cbn [buildLeaves]. rewrite Hm by lia. cbn [mbind outcome_bind]. destruct (IH (i + 1)) as (leaves & -> & Hl & Hs & Hlv); [intros; apply Hm; lia|].
  cbn [mbind outcome_bind]. eexists. split; [done|]. split; [cbn; lia|]. split; [constructor; [by apply GenericHashObj_length|done]|].
  intros k Hk. destruct (Z.eq_dec k 0) as [->|]; [by rewrite Z.add_0_r|].
  transitivity (lv leaves (k - 1)); [unfold lv; by replace (Z.to_nat k) with (S (Z.to_nat (k - 1))) by lia|].
  rewrite Hlv by lia. do 2 f_equal. lia.
Qed.

(** A tree over a layer of leaves. *)
Definition tree_over (tree : Tree) (lvl : Layer) (r : GenericDigest) : Prop :=
  tr_Hash tree = h /\ chain sum h (tr_Levels tree) /\ head (tr_Levels tree) = Some lvl /\ last (tr_Levels tree) = Some [r].

Lemma depth_small tree lvl r : tree_over tree lvl r -> blen lvl <= 2 ^ 63 ->
  exists d, (d < 64)%nat /\ length (tr_Levels tree) = S d /\ wrap8 (blen (tr_Levels tree) - 1) = Z.of_nat d /\ blen lvl <= 2 ^ Z.of_nat d /\
    (d <> 0%nat -> 2 ^ Z.of_nat (d - 1) < blen lvl).
Proof.
  intros (_ & Hc & Hhd & _) Hl. destruct (tr_Levels tree) as [|l rest] eqn:E; [done|]. cbn in Hhd. injection Hhd as ->.
  destruct (chain_depth sum Hsum h Hh lvl rest Hc) as [H1 H2]. exists (length rest). unfold blen in *. cbn [length].
  assert (rest <> [] -> 2 ^ Z.of_nat (length rest - 1) < Z.of_nat (length lvl)) as H2'.
  { intros Hne. specialize (H2 Hne). change 2 with (Z.of_nat 2). rewrite <- Nat2Z.inj_pow. lia. }
  assert (length rest < 64)%nat.
  { destruct rest as [|x rest']; [cbn; lia|]. specialize (H2' ltac:(done)). assert (Z.of_nat (length (x :: rest') - 1) < 63); [|lia].
    apply (Z.pow_lt_mono_r_iff 2); lia. }
  split_and!; [done|done| | |].
  - unfold wrap8. rewrite Z.mod_small; lia.
  - change 2 with (Z.of_nat 2). rewrite <- Nat2Z.inj_pow. lia.
  - intros Hd. apply H2'. by destruct rest.
Qed.

Lemma Root_over tree lvl r : tree_over tree lvl r -> Root tree = Ok r.
Proof.
  intros (_ & Hc & _ & Hl). unfold Root, topLayer. destruct (Z.eqb_spec (blen (tr_Levels tree)) 0) as [E|_].
  - unfold blen in E. destruct (tr_Levels tree); [done|cbn in E; lia].
  - by rewrite Hl.
Qed.

(** A proof for leaves of a tree verifies for elements that hash to them. *)
Lemma createProof_Verify tree lvl r idxs : tree_over tree lvl r -> blen lvl <= 2 ^ 63 -> idxs <> [] ->
  Forall (fun p => 0 <= p < blen lvl) idxs ->
  exists path, createProof sum tree (merge_sort Z.le idxs) = Ok (mkProof path h (wrap8 (blen (tr_Levels tree) - 1))) /\
    (length idxs = 1%nat -> length path = (length (tr_Levels tree) - 1)%nat) /\
    forall elems : gmap Z Hashable, (forall k d, GenericHashObj sum h <$> (elems !! k) = Some d <-> k ∈ idxs /\ d = lv lvl k) ->
      Verify sum r elems (Some (mkProof path h (wrap8 (blen (tr_Levels tree) - 1)))) = Ok tt.
Proof.
  intros Ht Hl Hne Hb. destruct (depth_small tree lvl r Ht Hl) as (d & Hd & _ & Ew & Hld & _). destruct Ht as (Hth & Hc & Hhd & Hlast).
  destruct (createProof_verifies sum Hsum h Hh tree lvl r idxs Hth Hc Hhd Hlast Hne Hb) as (path & Hcp & Hone & Hv).
  exists path. split; [done|]. split; [done|]. intros elems Hel. rewrite Ew. unfold Verify. cbn [pf_HashFactory pf_TreeDepth].
  destruct (Z.eqb_spec (Z.of_nat (size elems)) 0) as [E|_].
  { assert (size elems = 0%nat) as E' by lia. apply map_size_empty_inv in E'. subst elems. destruct idxs as [|x idxs]; [done|].
    assert (GenericHashObj sum h <$> (∅ : gmap Z Hashable) !! x = Some (lv lvl x)) as F by (apply Hel; split; [set_solver|done]).
    by rewrite lookup_empty in F. }
  unfold hashLeaves. rewrite shl1_small by done.
  assert (existsb (fun kv => 2 ^ Z.of_nat d <=? kv.1) (map_to_list elems) = false) as ->.
  { apply not_true_is_false. intros ([k e] & Hin%list_elem_of_In%elem_of_map_to_list & Hk%Z.leb_le)%existsb_exists.
    destruct (proj1 (Hel k (GenericHashObj sum h e))) as [Hk' _]; [by rewrite Hin|]. eapply Forall_forall in Hb; [|done]. cbn in *. lia. }
  cbn [failIf mbind outcome_bind]. apply Hv. intros k d'. rewrite lookup_fmap. apply Hel.
Qed.

(** Building succeeds when every element has a representation. *)
Lemma Build_over array (elem : Z -> Hashable) : 0 < arr_Length array ->
  (forall i, 0 <= i < arr_Length array -> arr_Marshal array i = Ok (elem i)) ->
  exists tree lvl r, Build sum array h = Ok tree /\ tree_over tree lvl r /\ tr_NumOfElements tree = arr_Length array /\
    tr_IsVectorCommitment tree = false /\ blen lvl = arr_Length array /\
    forall i, 0 <= i < arr_Length array -> lv lvl i = GenericHashObj sum h (elem i).
Proof.
  intros Hn Hm. unfold Build. destruct (buildLeaves_spec array elem (Z.to_nat (arr_Length array)) 0) as (lvl & -> & Hl & Hs & Hlv).
  { intros k Hk. apply Hm. lia. }
  cbn [mbind outcome_bind]. destruct (buildLayers_chain sum Hsum h Hh lvl Hs) as (levels & -> & Hc & Hhd); [intros ->; cbn in Hl; lia|].
  cbn [mbind outcome_bind]. destruct (chain_root sum Hsum h Hh levels Hc) as [r Hr]. exists (mkTree levels (arr_Length array) h false), lvl, r.
  split_and!; try done.
  - unfold blen. lia.
  - intros i Hi. rewrite Hlv by lia. done.
Qed.

(** The elements at some positions. *)
Definition elems_at (elem : Z -> Hashable) (idxs : list Z) : gmap Z Hashable := list_to_map (map (fun i => (i, elem i)) idxs).

Lemma elems_at_lookup elem idxs k e : elems_at elem idxs !! k = Some e <-> k ∈ idxs /\ e = elem k.
Proof.
  clear sum Hsum h Hh. unfold elems_at. induction idxs as [|i idxs IH]; cbn; [rewrite lookup_empty; set_solver|].
  destruct (decide (k = i)) as [->|Hne]; [rewrite lookup_insert_eq; set_solver|].
  rewrite lookup_insert_ne by congruence. rewrite IH. set_solver.
Qed.

Lemma in_range_existsb n idxs : (forall i, i ∈ idxs -> 0 <= i < n) -> existsb (fun i => n <=? i) idxs = false.
Proof.
  intros H. apply not_true_is_false. intros (i & Hi%list_elem_of_In & Hle%Z.leb_le)%existsb_exists. apply H in Hi. lia.
Qed.

Lemma prove_none tree root elem : exists proof, Prove sum tree [] = Ok proof /\ Verify sum root (elems_at elem []) (Some proof) = Ok tt.
Proof. exists (createEmptyProof tree). split; [done|]. unfold Verify, elems_at. cbn [map list_to_map foldr]. by rewrite map_size_empty. Qed.

(** ** Vector commitments *)

(** The element at a leaf of a vector commitment of depth [d]. *)
Definition vc_elem (elem : Z -> Hashable) (n : Z) (d : nat) (pos : Z) : Hashable :=
  let i := reverse_bits d pos in if i <? n then elem i else bottomElement.

Lemma Len64_bounds x : 0 < x -> 0 < Len64 x /\ 2 ^ (Len64 x - 1) <= x < 2 ^ Len64 x.
Proof.
  intros Hx. unfold Len64. destruct (Z.eqb_spec x 0); [lia|]. pose proof (Z.log2_nonneg x). pose proof (Z.log2_spec x Hx) as [H1 H2].
  rewrite Z.add_simpl_r. split; [lia|]. by rewrite <- Z.add_1_r in H2.
Qed.

Lemma vc_array_get array : 0 <= arr_Length array <= 2 ^ 63 ->
  exists d, (d < 64)%nat /\ arr_Length (vc_Array (generateVectorCommitmentArray array)) = 2 ^ Z.of_nat d /\ arr_Length array <= 2 ^ Z.of_nat d /\
    (d = 0%nat \/ 2 ^ Z.of_nat (d - 1) < arr_Length array) /\
    forall pos, 0 <= pos < 2 ^ Z.of_nat d ->
      arr_Marshal (vc_Array (generateVectorCommitmentArray array)) pos =
        if reverse_bits d pos <? arr_Length array then arr_Marshal array (reverse_bits d pos) else Ok bottomElement.
Proof.
  clear sum Hsum h Hh. intros Hn. unfold generateVectorCommitmentArray. set (n := arr_Length array) in *.
  assert (forall d p pos, (d < 64)%nat -> 0 <= pos < 2 ^ Z.of_nat d -> merkleTreeToVectorCommitmentIndex pos p = Ok (reverse_bits d pos) ->
    vc_Marshal (mkvectorCommitmentArray array p (2 ^ Z.of_nat d)) pos = if reverse_bits d pos <? n then arr_Marshal array (reverse_bits d pos) else Ok bottomElement) as Hget.
  { intros d p pos Hd Hpos Hi. unfold vc_Marshal. cbn [vc_pathLen vc_paddedLen vc_array]. rewrite Hi. cbn [mbind outcome_bind].
    pose proof (reverse_bits_range d pos). destruct (Z.leb_spec (2 ^ Z.of_nat d) (reverse_bits d pos)); [lia|]. done. }
  destruct (Z.eqb_spec n 0) as [E0|E0]; [|destruct (Z.eqb_spec n 1) as [E1|E1]]; cbn [orb].
  1,2: exists 0%nat; split_and!; [lia|done|cbn; lia|by left|]; intros pos Hpos; cbn in Hpos; replace pos with 0 by lia; apply (Hget 0%nat 1 0); [lia|cbn; lia|vm_compute; reflexivity].
  rewrite wrap64_small by word. destruct (Len64_bounds (n - 1)) as [Hp [Hlo Hhi]]; [lia|]. set (p := Len64 (n - 1)) in *.
  assert (p - 1 < 63) by (apply (Z.pow_lt_mono_r_iff 2); lia). unfold wrap8. rewrite Z.mod_small by lia.
  exists (Z.to_nat p). assert (p = Z.of_nat (Z.to_nat p)) as Ep by lia. rewrite Ep. set (d := Z.to_nat p) in *. rewrite Nat2Z.id.
  rewrite shl1_small by lia. cbn [vc_Array arr_Length vc_paddedLen]. split_and!; [lia|done|rewrite <- Ep; lia|right; replace (Z.of_nat (d - 1)) with (p - 1) by lia; lia|].
  intros pos Hpos. apply Hget; [lia|done|]. apply VectorCommitmentIndex_spec; [lia|done].
Qed.

Lemma vc_array_shape array elem : 0 <= arr_Length array <= 2 ^ 63 ->
  (forall i, 0 <= i < arr_Length array -> arr_Marshal array i = Ok (elem i)) ->
  exists d, (d < 64)%nat /\ arr_Length (vc_Array (generateVectorCommitmentArray array)) = 2 ^ Z.of_nat d /\ arr_Length array <= 2 ^ Z.of_nat d /\
    (d = 0%nat \/ 2 ^ Z.of_nat (d - 1) < arr_Length array) /\
    forall pos, 0 <= pos < 2 ^ Z.of_nat d ->
      arr_Marshal (vc_Array (generateVectorCommitmentArray array)) pos = Ok (vc_elem elem (arr_Length array) d pos).
Proof.
  clear sum Hsum h Hh. intros Hn Hm. destruct (vc_array_get array Hn) as (d & Hd & H1 & H2 & H3 & Hget). exists d. split_and!; try done.
  intros pos Hpos. rewrite Hget by done. unfold vc_elem. pose proof (reverse_bits_range d pos).
  destruct (Z.ltb_spec (reverse_bits d pos) (arr_Length array)); [apply Hm; lia|done].
Qed.

(** An element whose representation panics takes the building of the tree with it. *)
Lemma buildLeaves_panic array n : forall i, (forall k, i <= k < i + Z.of_nat n -> arr_Marshal array k = Panic \/ exists e, arr_Marshal array k = Ok e) ->
  (exists k, i <= k < i + Z.of_nat n /\ arr_Marshal array k = Panic) -> buildLeaves sum h array n i = Panic.
Proof.
  induction n as [|n IH]; intros i Hm (k & Hk & Hp); [lia|]. cbn [buildLeaves]. destruct (Hm i) as [-> | [e He]]; [lia|done|]. rewrite He. cbn [mbind outcome_bind].
  rewrite IH; [done|intros; apply Hm; lia|]. exists k. split; [|done]. destruct (Z.eq_dec k i) as [->|]; [congruence|lia].
Qed.
Lemma BuildVectorCommitmentTree_panic array : 0 <= arr_Length array <= 2 ^ 63 ->
  (forall k, 0 <= k < arr_Length array -> arr_Marshal array k = Panic \/ exists e, arr_Marshal array k = Ok e) ->
  (exists k, 0 <= k < arr_Length array /\ arr_Marshal array k = Panic) -> BuildVectorCommitmentTree sum array h = Panic.
Proof.
  intros Hn Hm (k & Hk & Hp). destruct (vc_array_get array Hn) as (d & Hd & H1 & H2 & _ & Hget). unfold BuildVectorCommitmentTree, Build.
  rewrite H1. rewrite buildLeaves_panic; [done| |].
  - intros p Hpr. rewrite Hget by lia. pose proof (reverse_bits_range d p). destruct (Z.ltb_spec (reverse_bits d p) (arr_Length array)); [apply Hm; lia|eauto].
  - exists (reverse_bits d k). pose proof (reverse_bits_range d k) as Hr. split; [lia|]. rewrite Hget, reverse_bits_involutive by lia.
    by rewrite (proj2 (Z.ltb_lt _ _)) by lia.
Qed.

Lemma convertLeavesIndexes_spec tree d idxs : (d < 64)%nat -> wrap8 (blen (tr_Levels tree) - 1) = Z.of_nat d ->
  Forall (fun i => 0 <= i < 2 ^ Z.of_nat d) idxs -> convertLeavesIndexes tree idxs = Ok (map (reverse_bits d) idxs).
Proof.
  intros Hd Hw. induction 1 as [|i idxs Hi Hb IH]; cbn [convertLeavesIndexes]; [done|].
  rewrite Hw, VectorCommitmentIndex_spec by done. cbn [mbind outcome_bind]. by rewrite IH.
Qed.

Lemma convertIndexes_spec (elems : gmap Z Hashable) d : (d < 64)%nat -> (forall k e, elems !! k = Some e -> 0 <= k < 2 ^ Z.of_nat d) ->
  exists m, convertIndexes elems (Z.of_nat d) = Ok m /\
    forall k e, m !! k = Some e <-> exists i, 0 <= i < 2 ^ Z.of_nat d /\ k = reverse_bits d i /\ elems !! i = Some e.
Proof.
  clear sum Hsum h Hh. intros Hd Hb. unfold convertIndexes.
  assert (forall l, NoDup l.*1 -> Forall (fun kv => 0 <= kv.1 < 2 ^ Z.of_nat d) l -> exists m, convertIndexes_loop (Z.of_nat d) l = Ok m /\
    forall k (e : Hashable), m !! k = Some e <-> exists i, 0 <= i < 2 ^ Z.of_nat d /\ k = reverse_bits d i /\ (i, e) ∈ l) as Hloop.
  { induction l as [|[i e] l IH]; intros Hnd Hl; cbn [convertIndexes_loop].
    - exists ∅. split; [done|]. intros. rewrite lookup_empty. set_solver.
    - apply Forall_cons in Hl as [Hi Hl]. cbn in Hnd, Hi. apply NoDup_cons in Hnd as [Hni Hnd]. destruct (IH Hnd Hl) as (m & Hm & Hlk).
      rewrite VectorCommitmentIndex_spec by done. cbn [mbind outcome_bind]. rewrite Hm. cbn [mbind outcome_bind]. eexists. split; [done|].
      intros k e'. destruct (decide (k = reverse_bits d i)) as [->|Hne].
      + rewrite lookup_insert_eq. split; [intros [= ->]; exists i; set_solver|]. intros (j & Hj & E & Hin). f_equal.
        apply (f_equal (reverse_bits d)) in E. rewrite !reverse_bits_involutive in E by done. subst j.
        apply elem_of_cons in Hin as [[= ->]|Hin]; [done|]. destruct Hni. apply list_elem_of_fmap. exists (i, e'). done.
      + rewrite lookup_insert_ne by congruence. rewrite Hlk. split; intros (j & Hj & -> & Hin); exists j; set_solver. }
  destruct (Hloop (map_to_list elems)) as (m & Hm & Hlk); [apply NoDup_fst_map_to_list| |].
  - apply Forall_forall. intros [k e] Hk%elem_of_map_to_list. by apply Hb in Hk.
  - exists m. split; [done|]. intros k e. rewrite Hlk. setoid_rewrite elem_of_map_to_list. done.
Qed.

(** ** What a tree proves, verifies *)

Lemma prove_verify_plain array elem : 0 <= arr_Length array <= 2 ^ 63 ->
  (forall i, 0 <= i < arr_Length array -> arr_Marshal array i = Ok (elem i)) ->
  exists tree root, Build sum array h = Ok tree /\ Root tree = Ok root /\
    forall idxs, (forall i, i ∈ idxs -> 0 <= i < arr_Length array) ->
      exists proof, Prove sum tree idxs = Ok proof /\ Verify sum root (elems_at elem idxs) (Some proof) = Ok tt.
Proof.
  intros Hn Hm. destruct (Z.eq_dec (arr_Length array) 0) as [E|Hpos].
  { exists (mkTree [] 0 h false), []. split; [unfold Build; by rewrite E|]. split; [done|]. intros [|i idxs] Hi; [|specialize (Hi i ltac:(set_solver)); lia].
    apply prove_none. }
  destruct (Build_over array elem) as (tree & lvl & r & Hb & Ht & Hnum & Hvc & Hlen & Hlv); [lia|done|]. exists tree, r.
  split; [done|]. split; [by eapply Root_over|]. intros idxs Hi. destruct (decide (idxs = [])) as [->|Hne]; [apply prove_none|].
  unfold Prove. destruct (Z.eqb_spec (blen idxs) 0) as [El|_]; [unfold blen in El; destruct idxs; [done|cbn in El; lia]|].
  rewrite Hnum, (proj2 (Z.eqb_neq _ _) Hpos), in_range_existsb, Hvc by done. cbn [failIf mbind outcome_bind].
  destruct (createProof_Verify tree lvl r idxs Ht) as (path & -> & _ & Hver); [lia|done|apply Forall_forall; rewrite Hlen; done|].
  eexists. split; [done|]. apply Hver. intros k d. rewrite fmap_Some. setoid_rewrite elems_at_lookup. split.
  - intros (e & [Hk ->] & ->). split; [done|]. symmetry. apply Hlv. by apply Hi.
  - intros [Hk ->]. exists (elem k). split; [done|]. apply Hlv. by apply Hi.
Qed.

Lemma prove_verify_vc array elem : 0 <= arr_Length array <= 2 ^ 63 ->
  (forall i, 0 <= i < arr_Length array -> arr_Marshal array i = Ok (elem i)) ->
  exists tree root, BuildVectorCommitmentTree sum array h = Ok tree /\ Root tree = Ok root /\
    exists d, (d < 64)%nat /\ arr_Length array <= 2 ^ Z.of_nat d /\ (d = 0%nat \/ 2 ^ Z.of_nat (d - 1) < arr_Length array) /\
    forall idxs, (forall i, i ∈ idxs -> 0 <= i < arr_Length array) ->
      exists proof, Prove sum tree idxs = Ok proof /\ (idxs <> [] -> pf_HashFactory proof = h /\ pf_TreeDepth proof = Z.of_nat d) /\
        (length idxs = 1%nat -> length (pf_Path proof) = d) /\
        VerifyVectorCommitment sum root (elems_at elem idxs) (Some proof) = Ok tt.
Proof.
  intros Hn Hm. destruct (vc_array_shape array elem Hn Hm) as (d & Hd & Hlen & Hnd & Hnd' & Hget). set (va := vc_Array (generateVectorCommitmentArray array)) in *.
  assert (0 < 2 ^ Z.of_nat d) by (apply Z.pow_pos_nonneg; lia).
  destruct (Build_over va (vc_elem elem (arr_Length array) d)) as (t & lvl & r & Hb & Ht & _ & _ & Hl & Hlv); [lia|rewrite Hlen; done|].
  unfold BuildVectorCommitmentTree. fold va. rewrite Hb. cbn [mbind outcome_bind].
  set (tree := mkTree (tr_Levels t) (arr_Length array) (tr_Hash t) true). exists tree, r. assert (tree_over tree lvl r) as Ht' by done.
  split; [done|]. split; [by eapply Root_over|]. exists d. split; [done|]. split; [done|]. split; [done|]. intros idxs Hi. destruct (decide (idxs = [])) as [->|Hne].
  { exists (createEmptyProof tree). split; [done|]. split; [done|]. split; [done|]. unfold VerifyVectorCommitment, convertIndexes, elems_at. cbn [map list_to_map foldr].
    rewrite map_to_list_empty. cbn [convertIndexes_loop mbind outcome_bind]. unfold Verify. by rewrite map_size_empty. }
  assert (2 ^ Z.of_nat d <= 2 ^ 63) as H63 by (apply Z.pow_le_mono_r; lia).
  destruct (depth_small tree lvl r Ht') as (d' & Hd' & Hlv' & Ew & Hle & Hgt); [lia|].
  assert (d' = d) as ->.
  { rewrite Hl, Hlen in *. apply Z.pow_le_mono_r_iff in Hle; [|lia..]. destruct d' as [|d']; [lia|]. specialize (Hgt ltac:(lia)).
    apply Z.pow_lt_mono_r_iff in Hgt; lia. }
  assert (Forall (fun i => 0 <= i < 2 ^ Z.of_nat d) idxs) as Hr by (apply Forall_forall; intros i Hin; specialize (Hi i Hin); lia).
  unfold Prove. destruct (Z.eqb_spec (blen idxs) 0) as [El|_]; [unfold blen in El; destruct idxs; [done|cbn in El; lia]|].
  cbn [tr_NumOfElements tr_IsVectorCommitment tree].
  assert (arr_Length array <> 0) as Hpos by (destruct idxs as [|i ?]; [done|specialize (Hi i ltac:(set_solver)); lia]).
  rewrite (proj2 (Z.eqb_neq _ _) Hpos), in_range_existsb by done. cbn [failIf mbind outcome_bind].
  rewrite (convertLeavesIndexes_spec tree d) by done. cbn [mbind outcome_bind].
  destruct (createProof_Verify tree lvl r (map (reverse_bits d) idxs) Ht') as (path & -> & Hone & Hver); [lia|by destruct idxs| |].
  { apply Forall_forall. intros p (i & -> & Hin)%list_elem_of_fmap. rewrite Hl, Hlen. apply reverse_bits_range. }
  eexists. split; [done|]. split; [done|]. split; [intros H1; cbn [pf_Path]; rewrite Hone, Hlv' by (by rewrite length_map); lia|].
  unfold VerifyVectorCommitment. cbn [pf_TreeDepth]. rewrite Ew.
  destruct (convertIndexes_spec (elems_at elem idxs) d Hd) as (m & -> & Hlk).
  { intros k e [Hk _]%elems_at_lookup. by eapply Forall_forall in Hr. }
  cbn [mbind outcome_bind]. rewrite <- Ew. apply Hver. intros k dg. rewrite fmap_Some. setoid_rewrite Hlk. setoid_rewrite elems_at_lookup.
  assert (forall i, i ∈ idxs -> lv lvl (reverse_bits d i) = GenericHashObj sum h (elem i)) as Hleaf.
  { intros i Hin. rewrite Hlv by (rewrite Hlen; apply reverse_bits_range). unfold vc_elem. eapply Forall_forall in Hr; [|done]. specialize (Hi i Hin).
    rewrite reverse_bits_involutive by done. by rewrite (proj2 (Z.ltb_lt _ _)) by lia. }
  rewrite list_elem_of_fmap. split.
  - intros (e & (i & Hir & -> & Hin & ->) & ->). split; [eauto|]. by rewrite Hleaf.
  - intros [(i & -> & Hin) ->]. exists (elem i). split; [|by rewrite Hleaf]. exists i. split; [by eapply Forall_forall in Hr|done].
Qed.

(** C24 (roundtrip): what a tree proves, verifies.  For every array with at most [2^63]
    elements, as a Merkle tree and as a vector commitment, building succeeds, and for every
    list of positions, in any order and with repetitions, [Prove] returns a proof with which
    verification accepts exactly those elements against the root. *)
Theorem prove_verify array elem : 0 <= arr_Length array <= 2 ^ 63 ->
  (forall i, 0 <= i < arr_Length array -> arr_Marshal array i = Ok (elem i)) ->
  (exists tree root, Build sum array h = Ok tree /\ Root tree = Ok root /\
     forall idxs, (forall i, i ∈ idxs -> 0 <= i < arr_Length array) ->
       exists proof, Prove sum tree idxs = Ok proof /\ Verify sum root (elems_at elem idxs) (Some proof) = Ok tt) /\
  (exists tree root, BuildVectorCommitmentTree sum array h = Ok tree /\ Root tree = Ok root /\
     forall idxs, (forall i, i ∈ idxs -> 0 <= i < arr_Length array) ->
       exists proof, Prove sum tree idxs = Ok proof /\ VerifyVectorCommitment sum root (elems_at elem idxs) (Some proof) = Ok tt).
Proof.
  intros Hn Hm. split; [by apply prove_verify_plain|]. destruct (prove_verify_vc array elem Hn Hm) as (tree & root & Hb & Hr & d & _ & _ & _ & Hp).
  exists tree, root. split; [done|]. split; [done|]. intros idxs Hi. destruct (Hp idxs Hi) as (proof & H1 & _ & _ & H2). eauto.
Qed.

Lemma verifyPath_step fuel k pl s : verifyPath_loop sum h (S fuel) k pl s =
  if (0 <? blen (sib_hints s)) || (1 <? blen pl) then '(pl, s) ← up sum h k true pl s; verifyPath_loop sum h fuel (S k) pl s else Ok pl.
Proof. done. Qed.

(** ** Hints that are too long *)

(** A left hint as long as both children hides the right one. *)
Lemma long_hint_hides l r x : length l = Z.to_nat (hash_Size h) -> length r = Z.to_nat (hash_Size h) ->
  hashPair sum h (l ++ r) x = hashPair sum h l r.
Proof.
  intros Hl Hr. pose proof (hash_Size_nonneg h). rewrite !hashPair_node by (rewrite ?length_app; lia). unfold node. do 3 f_equal.
  assert (forall z, take (Z.to_nat (2 * hash_Size h)) ((l ++ r) ++ z) = l ++ r) as Hcut by (intros z; apply take_app_length'; rewrite length_app; lia).
  by rewrite (app_assoc l r (zeros _)), !Hcut.
Qed.

Lemma forged_path array elem p e : 0 <= arr_Length array <= 2 ^ 63 ->
  (forall i, 0 <= i < arr_Length array -> arr_Marshal array i = Ok (elem i)) -> 0 <= p < arr_Length array -> p mod 2 = 1 ->
  exists tree root path, Build sum array h = Ok tree /\ Root tree = Ok root /\
    Forall (fun d => (length d <= Z.to_nat (2 * hash_Size h))%nat) path /\
    Verify sum root {[p := e]} (Some (mkProof path h (wrap8 (blen (tr_Levels tree) - 1)))) = Ok tt.
Proof.
  intros Hn Hm Hp Hodd. destruct (Build_over array elem) as (tree & lvl & r & Hb & Ht & _ & _ & Hlen & Hlv); [lia|done|].
  destruct (depth_small tree lvl r Ht) as (d & Hd & _ & Ew & Hld & _); [lia|]. pose proof Ht as (_ & Hc & Hhd & Hlast).
  destruct (tr_Levels tree) as [|l0 rest] eqn:El; [done|]. cbn in Hhd. injection Hhd as ->.
  destruct rest as [|next rest].
  { destruct Hc as [_ Hc]. unfold blen in Hlen. rewrite Hc in Hlen. assert (p = 0) by lia. subst p. discriminate Hodd. }
  destruct (chain_inv sum Hsum h Hh lvl (next :: rest) Hc) as (n' & r' & [= <- <-] & Hs & Hl & Hnx & Hc' & _); [done|].
  pose proof (Z.div_mod p 2 ltac:(lia)) as Hdm. assert (0 <= p < blen lvl) as Hpl by lia.
  destruct (parent sum Hsum h Hh lvl next p Hs Hnx Hpl) as [Hpar Hp2].
  destruct (upLevels_sim sum Hsum h Hh tree r (next :: rest) [lvl] next [p / 2] [mklayerItem (p / 2) []] []) as (pl & hs & _ & _ & Hsz & _ & Hver); try done.
  { constructor; [constructor|constructor]. }
  { by constructor. }
  exists tree, r, ((lv lvl (p - 1) ++ lv lvl p) :: hs). split; [done|]. split; [by eapply Root_over|].
  assert (forall i, 0 <= i < blen lvl -> length (lv lvl i) = Z.to_nat (hash_Size h)) as Hfull.
  { intros i Hi. rewrite Hlv by lia. by apply GenericHashObj_length. }
  split.
  { pose proof (hash_Size_nonneg h). constructor; [rewrite length_app, !Hfull; lia|]. eapply Forall_impl; [exact Hsz|]. cbn. lia. }
  rewrite El, Ew. unfold Verify. rewrite map_size_singleton. cbn [Z.eqb Z.of_nat pf_HashFactory pf_TreeDepth].
  unfold hashLeaves. rewrite map_to_list_singleton, shl1_small by done. cbn [existsb fst].
  rewrite (proj2 (Z.leb_gt (2 ^ Z.of_nat d) p)) by lia. cbn [orb failIf mbind outcome_bind].
  assert (buildFirstPartialLayer (GenericHashObj sum h <$> {[p := e]}) = [mklayerItem p (GenericHashObj sum h e)]) as ->.
  { unfold buildFirstPartialLayer. by rewrite map_fmap_singleton, map_to_list_singleton. }
  unfold verifyPath. cbn [pf_HashFactory pf_Path length Nat.add]. rewrite Nat.add_1_r, verifyPath_step. cbn [sib_hints].
  assert ((0 <? blen ((lv lvl (p - 1) ++ lv lvl p) :: hs)) = true) as -> by (apply Z.ltb_lt; unfold blen; cbn [length]; lia). cbn [orb].
  rewrite up_alone by done. cbn [siblings_get sib_tree sib_hints mbind outcome_bind li_pos li_hash].
  assert (nextLayerHash sum h true p (GenericHashObj sum h e) (lv lvl (p - 1) ++ lv lvl p) = Ok (lv next (p / 2))) as ->.
  { rewrite <- Hpar. unfold nextLayerHash. assert (Z.land p 1 = p mod 2) as -> by (apply (Z.land_ones p 1); lia).
    rewrite Hodd. cbn [Z.eqb]. rewrite lxor1, Hodd by lia. cbn [Z.eqb]. apply long_hint_hides; apply Hfull; lia. }
  cbn [mbind outcome_bind up]. change [mklayerItem (p / 2) (lv next (p / 2))] with (items next [p / 2]).
  rewrite (Hver (S (length hs)) 1%nat) by (cbn [length]; lia). cbn. by rewrite bool_decide_eq_true_2.
Qed.

(** ** Proofs of another depth *)

Lemma Verify_deeper root elems path d : (S d < 64)%nat ->
  Verify sum root elems (Some (mkProof path h (Z.of_nat d))) = Ok tt -> Verify sum root elems (Some (mkProof path h (Z.of_nat (S d)))) = Ok tt.
Proof.
  intros Hd. unfold Verify. cbn [pf_Path pf_HashFactory pf_TreeDepth]. destruct (Z.of_nat (size elems) =? 0); [done|].
  unfold hashLeaves. rewrite !shl1_small by lia. destruct (existsb _ (map_to_list elems)) eqn:E; [done|].
  assert (existsb (fun kv => 2 ^ Z.of_nat (S d) <=? kv.1) (map_to_list elems) = false) as ->; [|done].
  apply not_true_is_false. intros (kv & Hin & Hk%Z.leb_le)%existsb_exists. apply not_true_iff_false in E. apply E, existsb_exists.
  exists kv. split; [done|]. apply Z.leb_le. rewrite Nat2Z.inj_succ, Z.pow_succ_r in Hk by lia. assert (0 <= 2 ^ Z.of_nat d) by (apply Z.pow_nonneg; lia). lia.
Qed.

Lemma reverse_bits_deeper d i : 0 <= i -> reverse_bits (S d) (2 * i) = reverse_bits d i.
Proof. intros Hi. cbn [reverse_bits]. rewrite (Z.mul_comm 2 i), Z.mod_mul, Z.div_mul by lia. lia. Qed.

Lemma Verify_vc_deeper root i e path d : (S d < 64)%nat -> 0 <= i < 2 ^ Z.of_nat d ->
  VerifyVectorCommitment sum root {[i := e]} (Some (mkProof path h (Z.of_nat d))) = Ok tt ->
  VerifyVectorCommitment sum root {[2 * i := e]} (Some (mkProof path h (Z.of_nat (S d)))) = Ok tt.
Proof.
  intros Hd Hi Hv. unfold VerifyVectorCommitment in *. cbn [pf_TreeDepth] in *. unfold convertIndexes in *. rewrite map_to_list_singleton in *.
  cbn [convertIndexes_loop] in *. rewrite VectorCommitmentIndex_spec in Hv by lia.
  rewrite VectorCommitmentIndex_spec by (rewrite ?Nat2Z.inj_succ, ?Z.pow_succ_r; lia).
  cbn [mbind outcome_bind] in *. rewrite reverse_bits_deeper by lia. apply Verify_deeper; [lia|done].
Qed.

Lemma elems_at_singleton elem i : elems_at elem [i] = {[i := elem i]}.
Proof. done. Qed.

(** C38 (error): a vector commitment does not bind positions.  The verifier takes the depth
    of the tree from the proof and never compares it with the length of the path, so an
    honest proof of element [i] with the depth increased by one opens entry [2 * i] to
    element [i], although the same root opens it to element [2 * i] as well. *)
Theorem depth_opens_another_entry array elem i : arr_Length array <= 2 ^ 62 ->
  (forall k, 0 <= k < arr_Length array -> arr_Marshal array k = Ok (elem k)) -> 0 < i -> 2 * i < arr_Length array ->
  exists tree root, BuildVectorCommitmentTree sum array h = Ok tree /\ Root tree = Ok root /\
    (exists proof, Prove sum tree [2 * i] = Ok proof /\ VerifyVectorCommitment sum root {[2 * i := elem (2 * i)]} (Some proof) = Ok tt) /\
    (exists proof, Prove sum tree [i] = Ok proof /\
       VerifyVectorCommitment sum root {[2 * i := elem i]} (Some (mkProof (pf_Path proof) (pf_HashFactory proof) (pf_TreeDepth proof + 1))) = Ok tt).
Proof.
  intros Hn Hm Hi H2i. destruct (prove_verify_vc array elem ltac:(lia) Hm) as (tree & root & Hb & Hr & d & Hd & Hnd & Hnd' & Hp).
  assert (d <= 62)%nat as Hd62.
  { destruct Hnd' as [->|Hnd']; [lia|]. assert (Z.of_nat (d - 1) < 62) by (apply (Z.pow_lt_mono_r_iff 2); lia). lia. }
  exists tree, root. split; [done|]. split; [done|]. split.
  - destruct (Hp [2 * i]) as (proof & H1 & _ & _ & H2); [intros k ->%list_elem_of_singleton; lia|]. exists proof. done.
  - destruct (Hp [i]) as (proof & H1 & Hpf & _ & H2); [intros k ->%list_elem_of_singleton; lia|]. exists proof. split; [done|].
    destruct Hpf as [Hh' Ht]; [done|]. destruct proof as [path h' td]. cbn in Hh', Ht. subst h' td. cbn [pf_Path pf_HashFactory pf_TreeDepth].
    rewrite elems_at_singleton in H2. replace (Z.of_nat d + 1) with (Z.of_nat (S d)) by lia. apply Verify_vc_deeper; [lia|lia|done].
Qed.
End correct.

(** C39 (error): any element verifies at any odd position of a Merkle tree over
    [Sha512_256], the hash of the commitment to the transactions of a block.  Hints may be
    as long as the digests of [Sumhash], twice the digests of [Sha512_256]: a left hint of
    that length fills the buffer of the parent and the element itself is not hashed. *)
Theorem long_hint_forges sum array elem p e :
  (forall h m, 0 <= h < MaxHashType -> length (sum h m) = Z.to_nat (hash_Size h)) ->
  0 <= arr_Length array <= 2 ^ 63 ->
  (forall i, 0 <= i < arr_Length array -> arr_Marshal array i = Ok (elem i)) -> 0 <= p < arr_Length array -> p mod 2 = 1 ->
  exists tree root path, Build sum array Sha512_256 = Ok tree /\ Root tree = Ok root /\
    Forall (fun d => blen d <= MaxHashDigestSize) path /\
    Verify sum root {[p := e]} (Some (mkProof path Sha512_256 (wrap8 (blen (tr_Levels tree) - 1)))) = Ok tt.
Proof.
  intros Hsum Hn Hm Hp Hodd.
  destruct (forged_path sum Hsum Sha512_256 ltac:(done) array elem p e Hn Hm Hp Hodd) as (tree & root & path & Hb & Hr & Hsz & Hv).
  exists tree, root, path. split_and!; [done|done| |done]. eapply Forall_impl; [exact Hsz|]. intros d Hd. unfold blen. cbv beta in *.
  change (Z.to_nat (2 * hash_Size Sha512_256)) with 64%nat in Hd.
  change MaxHashDigestSize with 64. lia.
Qed.

(** ** A concrete hash and a concrete array *)

(** Digits of a checksum of a string, and padding. *)
Definition digitSum (h : Z) (m : bytes) : bytes :=
  let c := fold_left (fun a b => (a * 257 + b + 1) mod 16777213) m 7 in
  let n := Z.to_nat (hash_Size h) in take n (c mod 256 :: c / 256 mod 256 :: c / 65536 :: replicate n 9).
Lemma digitSum_size h m : length (digitSum h m) = Z.to_nat (hash_Size h).
Proof. unfold digitSum. rewrite length_take. cbn [length]. rewrite length_replicate. lia. Qed.

Definition letters (i : Z) : Hashable := mkHashable [84; 88] [97 + i].
Definition letterArray (n : Z) : Array :=
  mkArray n (fun i => if n <=? i then Err (Errorf "index is out of bound") else Ok (letters i)).
Lemma letterArray_Marshal n i : 0 <= i < n -> arr_Marshal (letterArray n) i = Ok (letters i).
Proof. intros Hi. cbn. by destruct (Z.leb_spec n i); [lia|]. Qed.

Lemma prove_verify_witness :
  exists tree root proof, Build digitSum (letterArray 5) Sumhash = Ok tree /\ Root tree = Ok root /\
    Prove digitSum tree [4; 1; 1] = Ok proof /\ Verify digitSum root (elems_at letters [4; 1; 1]) (Some proof) = Ok tt.
Proof.
  destruct (prove_verify digitSum (fun h m _ => digitSum_size h m) Sumhash ltac:(vm_compute; split; congruence) (letterArray 5) letters) as [(tree & root & Hb & Hr & Hp) _].
  - cbn. lia.
  - intros i Hi. by apply letterArray_Marshal.
  - destruct (Hp [4; 1; 1]) as (proof & H1 & H2); [|by exists tree, root, proof].
    intros i Hi. cbn. rewrite !elem_of_cons in Hi. destruct Hi as [->|[->|[->|Hi]]]; [lia..|]. by apply elem_of_nil in Hi.
Defined.

Lemma depth_opens_another_entry_witness :
  exists tree root proof, BuildVectorCommitmentTree digitSum (letterArray 4) Sumhash = Ok tree /\ Root tree = Ok root /\
    Prove digitSum tree [1] = Ok proof /\
    VerifyVectorCommitment digitSum root {[2 := letters 1]} (Some (mkProof (pf_Path proof) (pf_HashFactory proof) (pf_TreeDepth proof + 1))) = Ok tt.
Proof.
  destruct (depth_opens_another_entry digitSum (fun h m _ => digitSum_size h m) Sumhash ltac:(vm_compute; split; congruence) (letterArray 4) letters 1)
    as (tree & root & Hb & Hr & _ & proof & H1 & H2).
  - vm_compute. congruence.
  - intros i Hi. by apply letterArray_Marshal.
  - lia.
  - cbn. lia.
  - by exists tree, root, proof.
Defined.

Lemma long_hint_forges_witness :
  exists tree root path, Build digitSum (letterArray 3) Sha512_256 = Ok tree /\ Root tree = Ok root /\
    Verify digitSum root {[1 := letters 25]} (Some (mkProof path Sha512_256 (wrap8 (blen (tr_Levels tree) - 1)))) = Ok tt.
Proof.
  destruct (long_hint_forges digitSum (letterArray 3) letters 1 (letters 25)) as (tree & root & path & H1 & H2 & _ & H4).
  - intros h m _. apply digitSum_size.
  - cbn. lia.
  - intros i Hi. by apply letterArray_Marshal.
  - cbn. lia.
  - done.
  - by exists tree, root, path.
Defined.
