(* ===== verification/MerkleBinding.v ===== *)
(** What a commitment binds.  A verifier that accepts elements at positions of a vector
    commitment, with the depth of the tree and with hints that have the size of digests,
    accepts the elements the tree was built from, unless verification hashed a string that
    collides with a string hashed when the tree was built.  The strings are listed, since a
    hash with outputs of one size always has collisions somewhere. *)
From S2P Require Import Prelude Config Basics MerkleArray MerkleFacts MerkleCorrect.
#[local] Open Scope string_scope.
#[local] Open Scope list_scope.
#[local] Open Scope Z_scope.

(** The string hashed for a node. *)
Definition node_rep (h : Z) (l r : GenericDigest) : bytes :=
  let n := Z.to_nat (2 * hash_Size h) in HashRep (mkHashable MerkleArrayNode (take n (l ++ r ++ zeros n))).
Definition parent_rep (h pos : Z) (posHash siblingHash : GenericDigest) : bytes :=
  if Z.land pos 1 =? 0 then node_rep h posHash siblingHash else node_rep h siblingHash posHash.

(** The strings hashed when a verifier goes up a level. *)
Fixpoint up_inputs (h : Z) (pl : partialLayer) (hints : list GenericDigest) : list bytes :=
  match pl with
  | [] => []
  | item :: rest =>
      let hinted := match hints with
                    | sib :: hints' => parent_rep h (li_pos item) (li_hash item) sib :: up_inputs h rest hints'
                    | [] => []
                    end in
      match rest with
      | next :: rest' => if li_pos next =? Z.lxor (li_pos item) 1
                         then parent_rep h (li_pos item) (li_hash item) (li_hash next) :: up_inputs h rest' hints else hinted
      | [] => hinted
      end
  end.

(** A string that looks like a node. *)
Definition node_like (x : bytes) : Prop := exists buf, x = MerkleArrayNode ++ buf.

Section binding.
  Context (sum : Z -> bytes -> bytes).
  Context (Hsum : forall h m, 0 <= h < MaxHashType -> length (sum h m) = Z.to_nat (hash_Size h)).
  Context (h : Z) (Hh : 0 <= h < MaxHashType).
Notation digestSize := (Z.to_nat (hash_Size h)).
Notation hash := (hash_Sum sum h).

(** The strings hashed on the way to the root, and by the whole verification. *)
Fixpoint path_inputs (fuel k : nat) (pl : partialLayer) (hints : list GenericDigest) : list bytes :=
  match fuel with
  | O => []
  | S fuel' =>
      if (0 <? blen hints) || (1 <? blen pl) then
        up_inputs h pl hints ++
        match up sum h k true pl (mksiblings None hints) with
        | Ok (pl', s) => path_inputs fuel' (S k) pl' (sib_hints s)
        | _ => []
        end
      else []
  end.
Definition verify_inputs (elems : gmap Z Hashable) (proof : Proof_) : list bytes :=
  map (fun kv => HashRep kv.2) (map_to_list elems) ++
  let pl := buildFirstPartialLayer (GenericHashObj sum h <$> elems) in path_inputs (length (pf_Path proof) + length pl) 0 pl (pf_Path proof).

(** The strings hashed when a tree over [n] elements is built. *)
Definition tree_input (levels : list Layer) (elem : Z -> Hashable) (n : Z) (x : bytes) : Prop :=
  (exists i, 0 <= i < n /\ x = HashRep (elem i)) \/
  (exists m lvl p, levels !! m = Some lvl /\ (S m < length levels)%nat /\ 0 <= p /\ 2 * p < blen lvl /\
     x = node_rep h (lv lvl (2 * p)) (lv lvl (2 * p + 1))).

Lemma node_rep_like l r : node_like (node_rep h l r).
Proof. by eexists. Qed.
Lemma parent_rep_like pos l r : node_like (parent_rep h pos l r).
Proof. unfold parent_rep. case_match; apply node_rep_like. Qed.

(** The buffer of a node determines its children. *)
Lemma node_rep_inj l r l' r' : length l = digestSize -> length r = digestSize -> length l' = digestSize -> (length r' = digestSize \/ r' = []) ->
  node_rep h l r = node_rep h l' r' -> l = l' /\ r = if bool_decide (r' = []) then zeros digestSize else r'.
Proof.
  intros Hl Hr Hl' Hr' E. unfold node_rep, HashRep in E. cbn [hb_HashID hb_data] in E. apply app_inv_head in E.
  pose proof (hash_Size_nonneg h). assert (Z.to_nat (2 * hash_Size h) = digestSize + digestSize)%nat as En by lia. rewrite En in E.
  rewrite (app_assoc l r), (take_app_length' (l ++ r)) in E by (rewrite length_app; lia).
  rewrite take_app, (take_ge l') in E by lia. replace (digestSize + digestSize - length l')%nat with digestSize in E by lia.
  apply app_inj_1 in E as [-> E]; [|lia]. split; [done|]. rewrite E. case_bool_decide as Hc.
  - subst r'. cbn [app]. unfold zeros. rewrite take_replicate. f_equal. lia.
  - destruct Hr' as [Hr'|]; [|done]. by rewrite take_app_length'.
Qed.

Definition sized_items (pl : partialLayer) : Prop := forall it, it ∈ pl -> 0 <= li_pos it /\ length (li_hash it) = digestSize.

(** An item has a parent that was hashed from it and a digest. *)
Definition has_parent (inputs : list bytes) (pl' : partialLayer) (it : layerItem) : Prop :=
  exists sib, length sib = digestSize /\ parent_rep h (li_pos it) (li_hash it) sib ∈ inputs /\
    mklayerItem (li_pos it / 2) (hash (parent_rep h (li_pos it) (li_hash it) sib)) ∈ pl'.

Lemma nextLayerHash_rep pos l r : (length l <= 2 * digestSize)%nat -> (length r <= 2 * digestSize)%nat ->
  nextLayerHash sum h true pos l r = Ok (hash (parent_rep h pos l r)).
Proof.
  intros Hl Hr. pose proof (hash_Size_nonneg h). unfold nextLayerHash, parent_rep. by destruct (Z.land pos 1 =? 0); rewrite hashPair_node by lia.
Qed.

Lemma hash_length x : length (hash x) = digestSize.
Proof. apply (GenericHashObj_length sum Hsum h Hh (mkHashable [] x)). Qed.

Lemma parent_rep_sibling pos l r : 0 <= pos -> parent_rep h (Z.lxor pos 1) r l = parent_rep h pos l r.
Proof.
  intros Hp. unfold parent_rep. rewrite (lxor1 pos) by done.
  assert (forall x, Z.land x 1 = x mod 2) as E by (intros x; apply (Z.land_ones x 1); lia). rewrite !E.
  pose proof (Z.mod_pos_bound pos 2 ltac:(lia)). pose proof (Z.div_mod pos 2 ltac:(lia)) as Hdm. destruct (Z.eqb_spec (pos mod 2) 0) as [E0|E0].
  - replace (pos + 1) with (1 + pos / 2 * 2) by lia. by rewrite Z.mod_add by lia.
  - replace (pos - 1) with (0 + pos / 2 * 2) by lia. by rewrite Z.mod_add by lia.
Qed.
Lemma half_sibling pos : 0 <= pos -> Z.lxor pos 1 / 2 = pos / 2 /\ 0 <= Z.lxor pos 1.
Proof.
  intros Hp. rewrite lxor1 by done. pose proof (Z.mod_pos_bound pos 2 ltac:(lia)). pose proof (Z.div_mod pos 2 ltac:(lia)) as Hdm.
  destruct (Z.eqb_spec (pos mod 2) 0) as [E0|E0].
  - replace (pos + 1) with (1 + pos / 2 * 2) by lia. rewrite Z.div_add by lia. change (1 / 2) with 0. lia.
  - replace (pos - 1) with (0 + pos / 2 * 2) by lia. rewrite Z.div_add by lia. change (0 / 2) with 0. lia.
Qed.

(** One level up, seen from below and from above. *)
Lemma up_hashes pl : forall hints k pl' s, sized_items pl -> Forall (fun d => length d = digestSize) hints ->
  up sum h k true pl (mksiblings None hints) = Ok (pl', s) ->
  (exists rest, s = mksiblings None rest /\ Forall (fun d => length d = digestSize) rest) /\
  (pl <> [] -> pl' <> []) /\
  (forall it, it ∈ pl -> has_parent (up_inputs h pl hints) pl' it) /\
  (forall it, it ∈ pl' -> 0 <= li_pos it /\ exists y, y ∈ up_inputs h pl hints /\ node_like y /\ li_hash it = hash y).
Proof.
  remember (length pl) as n eqn:En. revert pl En. induction (lt_wf n) as [n _ IH]. intros pl En hints k pl' s Hpl Hhs Hup.
  destruct pl as [|item rest].
  { cbn in Hup. injection Hup as <- <-. split_and!; [eauto|done|set_solver..]. }
  destruct (Hpl item ltac:(set_solver)) as [Hpos Hlen].
  assert ((exists next rest', rest = next :: rest' /\ li_pos next = Z.lxor (li_pos item) 1) \/
          (forall next, head rest = Some next -> li_pos next <> Z.lxor (li_pos item) 1)) as [(next & rest' & -> & Enx)|Hno].
  { destruct rest as [|next rest']; [by right|]. destruct (Z.eq_dec (li_pos next) (Z.lxor (li_pos item) 1)); [left; eauto|right]. by intros ? [= <-]. }
  - rewrite up_paired in Hup by done. destruct (Hpl next ltac:(set_solver)) as [_ Hlen2]. rewrite nextLayerHash_rep in Hup by lia.
    cbn [mbind outcome_bind] in Hup. apply outcome_bind_Ok in Hup as ([res s'] & Ho & Hup). injection Hup as <- <-.
    destruct (IH (length rest')) with (pl := rest') (hints := hints) (k := k) (pl' := res) (s := s') as (H1 & _ & H3 & H4); try done.
    { cbn in En. lia. } { intros it Hit. apply Hpl. set_solver. }
    cbn [up_inputs]. rewrite Enx, Z.eqb_refl. set (y := parent_rep h (li_pos item) (li_hash item) (li_hash next)) in *.
    split; [done|]. split; [done|]. split.
    + intros it Hit. apply elem_of_cons in Hit as [->|Hit]; [exists (li_hash next); set_solver|]. apply elem_of_cons in Hit as [->|Hit].
      * exists (li_hash item). destruct (half_sibling (li_pos item) Hpos) as [Eh _]. rewrite Enx, parent_rep_sibling, Eh by done. set_solver.
      * destruct (H3 it Hit) as (sib & Hs1 & Hs2 & Hs3). exists sib. set_solver.
    + intros it Hit. apply elem_of_cons in Hit as [->|Hit].
      * split; [cbn; apply Z.div_pos; lia|]. exists y. split; [set_solver|]. split; [apply parent_rep_like|done].
      * destruct (H4 it Hit) as [Hp (y' & Hy1 & Hy2)]. split; [done|]. exists y'. set_solver.
  - rewrite up_alone in Hup by done. unfold siblings_get in Hup. cbn [sib_tree sib_hints] in Hup. destruct hints as [|sib hints]; [done|].
    apply Forall_cons in Hhs as [Hsib Hhs]. cbn [mbind outcome_bind] in Hup. rewrite nextLayerHash_rep in Hup by lia.
    cbn [mbind outcome_bind] in Hup. apply outcome_bind_Ok in Hup as ([res s'] & Ho & Hup). injection Hup as <- <-.
    destruct (IH (length rest)) with (pl := rest) (hints := hints) (k := k) (pl' := res) (s := s') as (H1 & _ & H3 & H4); try done.
    { cbn in En. lia. } { intros it Hit. apply Hpl. set_solver. }
    assert (up_inputs h (item :: rest) (sib :: hints) = parent_rep h (li_pos item) (li_hash item) sib :: up_inputs h rest hints) as ->.
    { destruct rest as [|next rest']; [done|]. cbn [up_inputs]. by rewrite (proj2 (Z.eqb_neq _ _) (Hno next eq_refl)). }
    set (y := parent_rep h (li_pos item) (li_hash item) sib) in *. split; [done|]. split; [done|]. split.
    + intros it Hit. apply elem_of_cons in Hit as [->|Hit]; [exists sib; set_solver|].
      destruct (H3 it Hit) as (sib' & Hs1 & Hs2 & Hs3). exists sib'. set_solver.
    + intros it Hit. apply elem_of_cons in Hit as [->|Hit].
      * split; [cbn; apply Z.div_pos; lia|]. exists y. split; [set_solver|]. split; [apply parent_rep_like|done].
      * destruct (H4 it Hit) as [Hp (y' & Hy1 & Hy2)]. split; [done|]. exists y'. set_solver.
Qed.

Lemma chain_lookup levels : chain sum h levels -> forall m lvl lvl', levels !! m = Some lvl -> levels !! S m = Some lvl' ->
  sized h lvl /\ nextLayer sum h lvl = Ok lvl'.
Proof.
  induction levels as [|l0 rest IH]; [done|]. intros Hc m lvl lvl' H1 H2. destruct rest as [|next rest]; [by destruct m|].
  destruct (chain_inv sum Hsum h Hh l0 (next :: rest) Hc) as (n' & r' & [= <- <-] & Hs & _ & Hn & Hc' & _); [done|].
  destruct m as [|m]; [by simplify_eq/=|]. by apply (IH Hc' m).
Qed.

Section tree.
  Context (tree : Tree) (leaves : Layer) (root : GenericDigest) (elem : Z -> Hashable) (n : Z).
  Context (Ht : tree_over sum h tree leaves root) (Hlen : blen leaves = n).
  Context (Hleaf : forall i, 0 <= i < n -> lv leaves i = GenericHashObj sum h (elem i)).
  (** The strings of the verification, and what is asked of them. *)
  Context (ys : list bytes).
  Context (Hinj : forall x y, tree_input (tr_Levels tree) elem n x -> y ∈ ys -> hash x = hash y -> x = y).
  Context (Hzero : forall y, y ∈ ys -> hash y <> zeros digestSize).
  Context (Helem : forall i, 0 <= i < n -> ~ node_like (HashRep (elem i))).

(** The items of a partial layer are the nodes of a level. *)
Definition at_level (m : nat) (pl : partialLayer) : Prop :=
  exists lvl, tr_Levels tree !! m = Some lvl /\ forall it, it ∈ pl -> li_pos it < blen lvl /\ li_hash it = lv lvl (li_pos it).

Definition hashed_items (pl : partialLayer) : Prop :=
  forall it, it ∈ pl -> 0 <= li_pos it /\ exists y, y ∈ ys /\ li_hash it = hash y.

Lemma hashed_sized pl : hashed_items pl -> sized_items pl.
Proof. intros H it Hit. destruct (H it Hit) as [Hp (y & _ & ->)]. split; [done|apply hash_length]. Qed.

(** A node of the tree above the leaves. *)
Lemma level_node m lvl p : tr_Levels tree !! S m = Some lvl -> 0 <= p < blen lvl ->
  exists lvl0, tr_Levels tree !! m = Some lvl0 /\ sized h lvl0 /\ 2 * p < blen lvl0 /\ lv lvl p = hash (node_rep h (lv lvl0 (2 * p)) (lv lvl0 (2 * p + 1))) /\
    tree_input (tr_Levels tree) elem n (node_rep h (lv lvl0 (2 * p)) (lv lvl0 (2 * p + 1))).
Proof.
  intros Hm Hp. destruct (tr_Levels tree !! m) as [lvl0|] eqn:E0; [|apply lookup_ge_None in E0; apply lookup_lt_Some in Hm; lia].
  destruct Ht as (_ & Hc & _). destruct (chain_lookup _ Hc m lvl0 lvl E0 Hm) as [Hs Hn].
  destruct (nextLayer_spec sum Hsum h Hh lvl0 Hs) as (l' & E & _ & Hl & Hnode). rewrite Hn in E. injection E as <-.
  assert (blen lvl = (blen lvl0 + 1) / 2) as Hb by (unfold blen; rewrite Hl, Nat2Z.inj_div; f_equal; lia).
  assert (2 * p < blen lvl0) as H2p.
  { rewrite Hb in Hp. pose proof (Z.div_mod (blen lvl0 + 1) 2 ltac:(lia)). pose proof (Z.mod_pos_bound (blen lvl0 + 1) 2 ltac:(lia)). lia. }
  exists lvl0. split_and!; [done|done|done|by apply Hnode|]. right. exists m, lvl0, p. split_and!; try done; [|lia].
  by apply lookup_lt_Some in Hm.
Qed.

(** From a level to the one below. *)
Lemma descend m pl pl' inputs : hashed_items pl -> (forall y, y ∈ inputs -> y ∈ ys) -> (forall it, it ∈ pl -> has_parent inputs pl' it) ->
  at_level (S m) pl' -> at_level m pl.
Proof.
  intros Hpl Hin Hpar (lvl' & Hl' & Hat). destruct (tr_Levels tree !! m) as [lvl|] eqn:E0; [|apply lookup_ge_None in E0; apply lookup_lt_Some in Hl'; lia].
  exists lvl. split; [done|]. intros it Hit. destruct (Hpl it Hit) as [Hp (y & Hy & Ehash)]. destruct (Hpar it Hit) as (sib & Hsib & Hrep & Hitem).
  destruct (Hat _ Hitem) as [Hlt Heq]. cbn [li_pos li_hash] in Hlt, Heq. set (q := li_pos it / 2) in *.
  assert (0 <= q) by (apply Z.div_pos; lia).
  destruct (level_node m lvl' q Hl') as (l0 & E & Hs & H2q & Hnode & Hti); [lia|]. rewrite E0 in E. injection E as <-.
  rewrite Hnode in Heq. apply eq_sym, Hinj in Heq; [|done|by apply Hin].
  assert (length (li_hash it) = digestSize) as Hith by (rewrite Ehash; apply hash_length).
  assert (forall i, 0 <= i < blen lvl -> length (lv lvl i) = digestSize) as Hfull.
  { intros i Hi. unfold lv. destruct (lvl !! Z.to_nat i) as [d|] eqn:Ed; [|apply lookup_ge_None in Ed; unfold blen in Hi; lia].
    by apply (Forall_lookup_1 _ _ _ _ Hs Ed). }
  assert (length (lv lvl (2 * q + 1)) = digestSize \/ lv lvl (2 * q + 1) = []) as Hr.
  { destruct (Z.lt_ge_cases (2 * q + 1) (blen lvl)); [left; apply Hfull; lia|right]. unfold lv.
    rewrite lookup_ge_None_2; [done|]. unfold blen in *. lia. }
  pose proof (Z.div_mod (li_pos it) 2 ltac:(lia)) as Hdm. fold q in Hdm. pose proof (Z.mod_pos_bound (li_pos it) 2 ltac:(lia)).
  unfold parent_rep in Heq. assert (Z.land (li_pos it) 1 = li_pos it mod 2) as El by (apply (Z.land_ones _ 1); lia). rewrite El in Heq.
  destruct (Z.eqb_spec (li_pos it mod 2) 0) as [Ev|Ev]; apply eq_sym, node_rep_inj in Heq as [E1 E2]; try done; try (apply Hfull; lia).
  - replace (li_pos it) with (2 * q) by lia. split; [lia|done].
  - replace (li_pos it) with (2 * q + 1) by lia. case_bool_decide as Hc; [by destruct (Hzero y Hy); rewrite <- Ehash|].
    split; [|done]. destruct (Z.lt_ge_cases (2 * q + 1) (blen lvl)); [done|]. destruct Hc. unfold lv. rewrite lookup_ge_None_2; [done|]. unfold blen in *. lia.
Qed.

Lemma root_at_level pl : blen pl <= 1 -> inspectRoot root pl = Ok tt -> at_level (length (tr_Levels tree) - 1) pl.
Proof.
  intros Hl Hr. destruct pl as [|it [|]]; [done| |unfold blen in Hl; cbn in Hl; lia]. cbn in Hr.
  destruct (Z.eqb_spec (li_pos it) 0) as [E0|]; [|done]. case_bool_decide as Eh; [|done]. destruct Ht as (_ & _ & _ & Hlast).
  exists [root]. split; [rewrite <- Hlast, last_lookup; f_equal; lia|]. intros x ->%list_elem_of_singleton. rewrite E0. split; [done|]. done.
Qed.

Lemma path_at_level fuel : forall k pl hints final, pl <> [] -> hashed_items pl -> Forall (fun d => length d = digestSize) hints ->
  (forall y, y ∈ path_inputs fuel k pl hints -> y ∈ ys) ->
  verifyPath_loop sum h fuel k pl (mksiblings None hints) = Ok final -> inspectRoot root final = Ok tt ->
  exists m, at_level m pl.
Proof.
  induction fuel as [|fuel IH]; intros k pl hints final Hne Hpl Hhs Hys Hrun Hroot;
    cbn [verifyPath_loop sib_hints path_inputs] in *; destruct ((0 <? blen hints) || (1 <? blen pl)) eqn:Hcond.
  1: done.
  1,3: injection Hrun as <-; apply orb_false_iff in Hcond as [_ Hl%Z.ltb_ge]; eexists; by apply root_at_level.
  apply outcome_bind_Ok in Hrun as ([pl' s] & Hup & Hrun).
  rewrite Hup in Hys. destruct (up_hashes pl hints k pl' s (hashed_sized _ Hpl) Hhs Hup) as ((rest & -> & Hrest) & Hne' & Hpar & Hnodes).
  cbn [sib_hints] in Hys. assert (hashed_items pl') as Hpl'.
  { intros it Hit. destruct (Hnodes it Hit) as [Hp (y & Hy & _ & Ey)]. split; [done|]. exists y. set_solver. }
  destruct (IH (S k) pl' rest final) as [m Hm]; [by apply Hne'|done|done|set_solver|done|done|].
  destruct m as [|m]; [|exists m; eapply descend; [done| |done|done]; set_solver].
  exfalso. destruct Hm as (lvl & Hlvl & Hat). destruct pl' as [|it pl']; [by apply Hne'|].
  destruct (Hat it ltac:(set_solver)) as [Hlt Heq]. destruct (Hnodes it ltac:(set_solver)) as [Hp (y & Hy & Hlike & Ey)].
  destruct Ht as (_ & _ & Hhd & _). rewrite <- head_lookup, Hhd in Hlvl. injection Hlvl as <-. rewrite Hlen in Hlt. rewrite Hleaf in Heq by lia.
  apply (Helem (li_pos it)); [lia|]. unfold GenericHashObj in Heq. rewrite Ey in Heq.
  rewrite (Hinj (HashRep (elem (li_pos it))) y); [done| |set_solver|done]. left. eauto.
Qed.

(** A verifier that accepts elements accepts those of the tree. *)
Lemma Verify_binds elems proof : pf_HashFactory proof = h -> Forall (fun d => length d = digestSize) (pf_Path proof) ->
  ys = verify_inputs elems proof -> (forall k e, elems !! k = Some e -> 0 <= k /\ ~ node_like (HashRep e)) ->
  Verify sum root elems (Some proof) = Ok tt ->
  forall k e, elems !! k = Some e -> 0 <= k < n /\ HashRep (elem k) = HashRep e.
Proof.
  intros Hph Hhs Eys Hel Hv k e Hk. unfold Verify in Hv.
  destruct (Z.eqb_spec (Z.of_nat (size elems)) 0) as [E|_].
  { assert (size elems = 0%nat) as E' by lia. apply map_size_empty_inv in E'. subst elems. by rewrite lookup_empty in Hk. }
  rewrite Hph in Hv. unfold hashLeaves in Hv. apply outcome_bind_Ok in Hv as (m & Hm & Hv). apply outcome_bind_Ok in Hm as (_ & _ & Hm). injection Hm as <-.
  unfold verifyPath in Hv. rewrite Hph in Hv. apply outcome_bind_Ok in Hv as (final & Hrun & Hroot).
  set (pl := buildFirstPartialLayer (GenericHashObj sum h <$> elems)) in *.
  assert (forall it, it ∈ pl <-> exists k e, it = mklayerItem k (hash (HashRep e)) /\ elems !! k = Some e) as Hpl.
  { intros it. unfold pl, buildFirstPartialLayer. rewrite (merge_sort_Permutation item_le), list_elem_of_fmap. split.
    - intros ([k' d] & -> & Hin%elem_of_map_to_list). rewrite lookup_fmap in Hin. apply fmap_Some in Hin as (e' & He' & ->). eauto.
    - intros (k' & e' & -> & He'). exists (k', GenericHashObj sum h e'). split; [done|]. apply elem_of_map_to_list. by rewrite lookup_fmap, He'. }
  assert (forall e', (exists k', elems !! k' = Some e') -> HashRep e' ∈ ys) as Hys1.
  { intros e' [k' He']. rewrite Eys. apply elem_of_app. left. apply list_elem_of_fmap. exists (k', e'). split; [done|]. by apply elem_of_map_to_list. }
  destruct (path_at_level (length (pf_Path proof) + length pl) 0 pl (pf_Path proof) final) as [m Hm]; try done.
  { intros Hnil. assert (mklayerItem k (hash (HashRep e)) ∈ pl) as Hin by (apply Hpl; eauto). rewrite Hnil in Hin. set_solver. }
  { intros it (k' & e' & -> & He')%Hpl. split; [by apply (Hel _ _ He')|]. exists (HashRep e'). split; [|done]. eauto. }
  { intros y Hy. rewrite Eys. apply elem_of_app. by right. }
  destruct Hm as (lvl & Hlvl & Hat). destruct (Hat (mklayerItem k (hash (HashRep e)))) as [Hlt Heq]; [apply Hpl; eauto|]. cbn [li_pos li_hash] in *.
  destruct (Hel k e Hk) as [Hk0 Hnl]. destruct m as [|m].
  - destruct Ht as (_ & _ & Hhd & _). rewrite <- head_lookup, Hhd in Hlvl. injection Hlvl as <-. rewrite Hlen in Hlt. split; [done|].
    rewrite Hleaf in Heq by lia. apply Hinj; [left; eauto|eauto|done].
  - exfalso. destruct (level_node m lvl k Hlvl) as (l0 & _ & _ & _ & Hnode & Hti); [lia|]. apply Hnl. rewrite Hnode in Heq.
    rewrite <- (Hinj _ (HashRep e) Hti); [apply node_rep_like|eauto|done].
Qed.
End tree.

(** ** Vector commitments *)

Definition vc_inputs (elems : gmap Z Hashable) (proof : Proof_) : list bytes :=
  match convertIndexes elems (pf_TreeDepth proof) with Ok m => verify_inputs m proof | _ => [] end.

(** The entry of a vector at a position of the padded array. *)
Definition vc_entry (elem : Z -> Hashable) (n k : Z) : Hashable := if k <? n then elem k else bottomElement.

Lemma convertIndexes_bound elems d m : (d < 64)%nat -> convertIndexes elems (Z.of_nat d) = Ok m ->
  forall k e, elems !! k = Some e -> k < 2 ^ Z.of_nat d.
Proof.
  intros Hd Hm k e Hk%elem_of_map_to_list. unfold convertIndexes in Hm. revert m Hm. induction (map_to_list elems) as [|[i e'] l IH]; [set_solver|].
  intros m Hm. cbn [convertIndexes_loop] in Hm. apply outcome_bind_Ok in Hm as (idx & Hi & Hm). apply outcome_bind_Ok in Hm as (m' & Hm' & _).
  apply elem_of_cons in Hk as [[= -> ->]|Hk]; [|by eapply IH]. unfold merkleTreeToVectorCommitmentIndex in Hi. rewrite shl1_small in Hi by done.
  destruct (Z.leb_spec (2 ^ Z.of_nat d) i); [done|]. done.
Qed.

Lemma vc_tree array elem tree root : 0 <= arr_Length array <= 2 ^ 63 ->
  (forall i, 0 <= i < arr_Length array -> arr_Marshal array i = Ok (elem i)) ->
  BuildVectorCommitmentTree sum array h = Ok tree -> Root tree = Ok root ->
  exists d leaves, (d < 64)%nat /\ wrap8 (blen (tr_Levels tree) - 1) = Z.of_nat d /\ tree_over sum h tree leaves root /\ blen leaves = 2 ^ Z.of_nat d /\
    forall i, 0 <= i < 2 ^ Z.of_nat d -> lv leaves i = GenericHashObj sum h (vc_elem elem (arr_Length array) d i).
Proof.
  intros Hn Hm Hb Hr. destruct (vc_array_shape array elem Hn Hm) as (d & Hd & Hlen & Hnd & Hnd' & Hget).
  set (va := vc_Array (generateVectorCommitmentArray array)) in *. assert (0 < 2 ^ Z.of_nat d) by (apply Z.pow_pos_nonneg; lia).
  destruct (Build_over sum Hsum h Hh va (vc_elem elem (arr_Length array) d)) as (t & lvl & r & Hbt & Ht & _ & _ & Hl & Hlv); [lia|rewrite Hlen; done|].
  unfold BuildVectorCommitmentTree in Hb. fold va in Hb. rewrite Hbt in Hb. cbn in Hb. injection Hb as <-.
  assert (tree_over sum h (mkTree (tr_Levels t) (arr_Length array) (tr_Hash t) true) lvl r) as Ht' by done.
  pose proof (Root_over sum h _ _ _ Ht') as Hr'. rewrite Hr in Hr'. injection Hr' as ->.
  assert (2 ^ Z.of_nat d <= 2 ^ 63) as H63 by (apply Z.pow_le_mono_r; lia).
  destruct (depth_small sum Hsum h Hh _ lvl r Ht') as (d' & Hd' & _ & Ew & Hle & Hgt); [lia|]. exists d, lvl. cbn [tr_Levels] in *.
  assert (d' = d) as ->.
  { rewrite Hl, Hlen in *. apply Z.pow_le_mono_r_iff in Hle; [|lia..]. destruct d' as [|d']; [lia|]. specialize (Hgt ltac:(lia)).
    apply Z.pow_lt_mono_r_iff in Hgt; lia. }
  split_and!; try done; [lia|]. intros i Hi. apply Hlv. lia.
Qed.

(** C23 (safety): a vector commitment binds positions.  If verification accepts elements with
    the depth of the tree and with hints of the size of digests, every element is the one
    the tree was built with at that position, the bottom element behind the end, as far as
    the hash distinguishes the strings it was given: no string hashed by the verification
    collides with one hashed when the tree was built, none of them hashes to zeros, and
    elements are not mistaken for nodes. *)
Theorem position_binding array elem tree root elems proof :
  0 <= arr_Length array <= 2 ^ 63 ->
  (forall i, 0 <= i < arr_Length array -> arr_Marshal array i = Ok (elem i) /\ ~ node_like (HashRep (elem i))) ->
  BuildVectorCommitmentTree sum array h = Ok tree -> Root tree = Ok root ->
  pf_HashFactory proof = h -> pf_TreeDepth proof = wrap8 (blen (tr_Levels tree) - 1) ->
  Forall (fun d => blen d = hash_Size h) (pf_Path proof) ->
  (forall k e, elems !! k = Some e -> 0 <= k /\ ~ node_like (HashRep e)) ->
  (forall x y, tree_input (tr_Levels tree) (vc_elem elem (arr_Length array) (Z.to_nat (pf_TreeDepth proof))) (2 ^ pf_TreeDepth proof) x ->
     y ∈ vc_inputs elems proof -> hash x = hash y -> x = y) ->
  (forall y, y ∈ vc_inputs elems proof -> hash y <> zeros digestSize) ->
  VerifyVectorCommitment sum root elems (Some proof) = Ok tt ->
  forall k e, elems !! k = Some e -> HashRep e = HashRep (vc_entry elem (arr_Length array) k).
Proof.
  intros Hn Hm Hb Hr Hph Htd Hhs Hel Hinj Hzero Hv k e Hk.
  destruct (vc_tree array elem tree root Hn ltac:(intros; by apply Hm) Hb Hr) as (d & leaves & Hd & Ew & Ht & Hlen & Hleaf).
  rewrite Ew in Htd. rewrite Htd, ?Nat2Z.id in *. unfold VerifyVectorCommitment in Hv. rewrite Htd in Hv.
  apply outcome_bind_Ok in Hv as (m & Hcv & Hv). pose proof (convertIndexes_bound elems d m Hd Hcv) as Hbound.
  destruct (convertIndexes_spec elems d Hd) as (m' & Hcv' & Hlk); [intros k' e' Hk'; split; [by apply (Hel _ _ Hk')|by eapply Hbound]|].
  rewrite Hcv in Hcv'. injection Hcv' as <-. unfold vc_inputs in Hinj, Hzero. rewrite Htd, Hcv in Hinj, Hzero.
  assert (0 <= k < 2 ^ Z.of_nat d) as Hkr by (split; [by apply (Hel _ _ Hk)|by eapply Hbound]).
  destruct (Verify_binds tree leaves root (vc_elem elem (arr_Length array) d) (2 ^ Z.of_nat d) Ht Hlen Hleaf (verify_inputs m proof) Hinj Hzero) with
    (elems := m) (proof := proof) (k := reverse_bits d k) (e := e) as [_ Heq]; try done.
  - intros i Hi. unfold vc_elem. pose proof (reverse_bits_range d i). destruct (Z.ltb_spec (reverse_bits d i) (arr_Length array)); [apply Hm; lia|].
    by intros [buf ?].
  - eapply Forall_impl; [exact Hhs|]. cbn. intros x Hx. unfold blen in Hx. lia.
  - intros k' e' (i & Hi & -> & Hi')%Hlk. split; [apply reverse_bits_range|]. by apply (Hel _ _ Hi').
  - apply Hlk. exists k. done.
  - rewrite <- Heq. unfold vc_elem, vc_entry. by rewrite reverse_bits_involutive.
Qed.
End binding.

(** A check that no string of one list collides with one of another. *)
Definition separated (sum : Z -> bytes -> bytes) (h : Z) (xs ys : list bytes) : bool :=
  forallb (fun x => forallb (fun y => negb (bool_decide (hash_Sum sum h x = hash_Sum sum h y)) || bool_decide (x = y)) ys) xs.
Lemma separated_spec sum h xs ys x y : separated sum h xs ys = true -> x ∈ xs -> y ∈ ys -> hash_Sum sum h x = hash_Sum sum h y -> x = y.
Proof.
  unfold separated. rewrite forallb_forall. intros H Hx%list_elem_of_In Hy%list_elem_of_In E. specialize (H x Hx).
  rewrite forallb_forall in H. specialize (H y Hy). rewrite bool_decide_eq_true_2 in H by done. by apply bool_decide_eq_true in H.
Qed.

(** A commitment to two letters, and the proof of entry 1. *)
Definition pair_tree : Tree := match BuildVectorCommitmentTree digitSum (letterArray 2) Sumhash with Ok t => t | _ => mkTree [] 0 0 true end.
Definition pair_root : GenericDigest := match Root pair_tree with Ok r => r | _ => [] end.
Definition pair_proof : Proof_ := match Prove digitSum pair_tree [1] with Ok p => p | _ => mkProof [] 0 0 end.
Definition pair_leaves : Layer := default [] (tr_Levels pair_tree !! 0%nat).
Definition pair_inputs : list bytes := [HashRep (letters 0); HashRep (letters 1); node_rep Sumhash (lv pair_leaves 0) (lv pair_leaves 1)].

Lemma pair_inputs_all x : tree_input Sumhash (tr_Levels pair_tree) (vc_elem letters 2 1) 2 x -> x ∈ pair_inputs.
Proof.
  intros [(i & Hi & ->)|(m & lvl & p & Hm & Hl & Hp0 & Hlen & ->)]; unfold pair_inputs.
  - assert (i = 0 \/ i = 1) as [-> | ->] by lia; [left|right; left].
  - assert (length (tr_Levels pair_tree) = 2%nat) as E1 by (vm_compute; reflexivity). rewrite E1 in Hl. assert (m = 0%nat) as -> by lia.
    assert (lvl = pair_leaves) as -> by (unfold pair_leaves; by rewrite Hm).
    assert (blen pair_leaves = 2) as E2 by (vm_compute; reflexivity). rewrite E2 in Hlen. assert (p = 0) as -> by lia. do 2 right. left.
Qed.

Lemma position_binding_witness : VerifyVectorCommitment digitSum pair_root {[1 := letters 1]} (Some pair_proof) = Ok tt /\
  HashRep (letters 1) = HashRep (vc_entry letters 2 1).
Proof.
  split; [vm_compute; reflexivity|].
  apply (position_binding digitSum (fun h m _ => digitSum_size h m) Sumhash ltac:(vm_compute; split; congruence) (letterArray 2) letters pair_tree pair_root
    {[1 := letters 1]} pair_proof).
  - vm_compute. split; congruence.
  - intros i Hi. split; [by apply letterArray_Marshal|by intros [buf ?]].
  - vm_compute. reflexivity.
  - vm_compute. reflexivity.
  - vm_compute. reflexivity.
  - vm_compute. reflexivity.
  - vm_compute. repeat constructor.
  - intros k e [<- <-]%lookup_singleton_Some. split; [lia|by intros [buf ?]].
  - assert (pf_TreeDepth pair_proof = 1) as -> by (vm_compute; reflexivity). intros x y Hx Hy.
    apply (separated_spec digitSum Sumhash pair_inputs (vc_inputs digitSum Sumhash {[1 := letters 1]} pair_proof)); [vm_compute; reflexivity| |done].
    by apply pair_inputs_all.
  - assert (forallb (fun y => negb (bool_decide (hash_Sum digitSum Sumhash y = zeros 64))) (vc_inputs digitSum Sumhash {[1 := letters 1]} pair_proof) = true) as Hz
      by (vm_compute; reflexivity).
    intros y Hy. rewrite forallb_forall in Hz. apply list_elem_of_In, Hz, negb_true_iff, bool_decide_eq_false in Hy. exact Hy.
  - vm_compute. reflexivity.
  - reflexivity.
Defined.
