(* ===== verification/MerkleWorkers.v ===== *)
(** [src/crypto/merklearray/worker.go], with [buildWorker] of [merkle.go] and [upWorker] of
    [layer.go]: goroutines that fill the leaves, or a layer, of a tree.

    A run is a sequence of steps of the caller and of the workers in any order.  The channel
    [starting] holds at most one token, the channel of errors at most one error; [nextidx]
    is changed atomically.  Both kinds of workers take batches of items, each batch one
    item larger than the last, where an item is [stride] positions: one leaf, or two nodes.
    [work] is what is done for the item at a position: its result is written to the output,
    or it is an error, or it panics. *)
From S2P Require Import Prelude Config Basics MerkleArray MerkleFacts MerkleCorrect.
#[local] Open Scope string_scope.
#[local] Open Scope list_scope.
#[local] Open Scope Z_scope.

Inductive worker : Type :=
| Starting
| Fetching (batchSize : Z)
| Working (off batchSize i : Z)
| Exited.

(** Where the caller is: at the head of its loop, in [nextWorker] with the token taken,
    waiting for the workers, or past them. *)
Inductive caller : Type := Launching | Checking | Waiting | Finished.

Record workerState : Type := mkworkerState {
  ws_caller : caller; ws_nextidx : Z; ws_nworkers : Z; ws_starting : bool;
  ws_workers : list worker; ws_out : list (option GenericDigest); ws_err : option error }.
#[export] Instance Eta_workerState : Eta workerState := fun s =>
  mkworkerState (ws_caller s) (ws_nextidx s) (ws_nworkers s) (ws_starting s) (ws_workers s) (ws_out s) (ws_err s).

Definition newWorkerState (numCPU items : Z) : workerState :=
  mkworkerState Launching 0 numCPU true [] (replicate (Z.to_nat items) None) None.

(** [nonBlockingSend]: an error that is there stays. *)
Definition nonBlockingSend (e : error) (err : option error) : option error := match err with Some _ => err | None => Some e end.

Section workers.
  Context (stride maxidx : Z) (work : Z -> outcome GenericDigest).

Inductive wstep : workerState -> workerState -> Prop :=
| step_all_launched s : ws_caller s = Launching -> ws_nworkers s <= 0 -> wstep s (s <| ws_caller := Waiting |>)
| step_take_token s : ws_caller s = Launching -> 0 < ws_nworkers s -> ws_starting s = true ->
    wstep s (s <| ws_caller := Checking |> <| ws_starting := false |>)
| step_nothing_left s : ws_caller s = Checking -> maxidx <= ws_nextidx s -> wstep s (s <| ws_caller := Waiting |>)
| step_launch s : ws_caller s = Checking -> ws_nextidx s < maxidx ->
    wstep s (s <| ws_caller := Launching |> <| ws_nworkers := ws_nworkers s - 1 |> <| ws_workers := ws_workers s ++ [Starting] |>)
| step_wait s : ws_caller s = Waiting -> Forall (eq Exited) (ws_workers s) -> wstep s (s <| ws_caller := Finished |>)
| step_started s k : ws_workers s !! k = Some Starting -> ws_starting s = false ->
    wstep s (s <| ws_starting := true |> <| ws_workers := <[k := Fetching stride]> (ws_workers s) |>)
| step_next s k b : ws_workers s !! k = Some (Fetching b) ->
    wstep s (s <| ws_nextidx := wrap64 (ws_nextidx s + b) |>
               <| ws_workers := <[k := if maxidx <=? ws_nextidx s then Exited else Working (ws_nextidx s) b (ws_nextidx s)]> (ws_workers s) |>)
| step_item s k off b i d : ws_workers s !! k = Some (Working off b i) -> i < off + b -> i < maxidx -> work i = Ok d ->
    wstep s (s <| ws_out := <[Z.to_nat (i / stride) := Some d]> (ws_out s) |> <| ws_workers := <[k := Working off b (i + stride)]> (ws_workers s) |>)
| step_error s k off b i e : ws_workers s !! k = Some (Working off b i) -> i < off + b -> i < maxidx -> work i = Err e ->
    wstep s (s <| ws_err := nonBlockingSend e (ws_err s) |> <| ws_workers := <[k := Exited]> (ws_workers s) |>)
| step_batch_done s k off b i : ws_workers s !! k = Some (Working off b i) -> off + b <= i \/ maxidx <= i ->
    wstep s (s <| ws_workers := <[k := Fetching (b + stride)]> (ws_workers s) |>).

(** A worker whose item panics takes the process with it. *)
Definition crashes (s : workerState) : Prop :=
  exists k off b i, ws_workers s !! k = Some (Working off b i) /\ i < off + b /\ i < maxidx /\ work i = Panic.

Inductive wsteps : nat -> workerState -> workerState -> Prop :=
| wsteps_refl s : wsteps 0 s s
| wsteps_step n s1 s2 s3 : wsteps n s1 s2 -> wstep s2 s3 -> wsteps (S n) s1 s3.

(** The number of items. *)
Definition items_of : Z := (maxidx + stride - 1) / stride.

Section run.
  Context (numCPU : Z) (Hcpu : 1 <= numCPU) (Hstride : 1 <= stride) (Hmax : 0 <= maxidx).
  Context (Hfits : maxidx + (maxidx + 2 * stride) * (numCPU + 1) < two64).
Notation B := (maxidx + 2 * stride).

(** ** The invariant *)

Definition worker_ok (nextidx : Z) (w : worker) : Prop :=
  match w with
  | Starting | Exited => True
  | Fetching b => (stride | b) /\ stride <= b /\ b <= nextidx + stride /\ b <= B
  | Working off b i => (stride | off) /\ (stride | b) /\ (stride | i) /\ 0 <= off <= i /\ off < maxidx /\ off + b <= nextidx /\ stride <= b <= off + stride
  end.

(** An item is not yet claimed, claimed by a worker, done, or lost to an error. *)
Definition accounted (s : workerState) (j : Z) : Prop :=
  ws_nextidx s <= j \/ (exists k off b i, ws_workers s !! k = Some (Working off b i) /\ i <= j < off + b) \/
  (exists d, work j = Ok d /\ ws_out s !! Z.to_nat (j / stride) = Some (Some d)) \/ ws_err s <> None.

Definition isStarting (w : worker) : Z := match w with Starting => 1 | _ => 0 end.
Definition isExited (w : worker) : Z := match w with Exited => 1 | _ => 0 end.
Notation starting_count l := (sumZ isStarting l).
Notation exited_count l := (sumZ isExited l).
Definition tokens (s : workerState) : Z := starting_count (ws_workers s) + if ws_starting s then 1 else 0.

Record winv (s : workerState) : Prop := {
  wi_next : 0 <= ws_nextidx s <= maxidx + B + B * exited_count (ws_workers s);
  wi_multiple : (stride | ws_nextidx s);
  wi_workers : Forall (worker_ok (ws_nextidx s)) (ws_workers s);
  wi_total : blen (ws_workers s) + ws_nworkers s = numCPU /\ 0 <= ws_nworkers s;
  wi_exit : Exited ∈ ws_workers s -> maxidx <= ws_nextidx s \/ ws_err s <> None;
  wi_accounted : forall j, 0 <= j < maxidx -> (stride | j) -> accounted s j;
  wi_err : forall e, ws_err s = Some e -> exists j, 0 <= j < maxidx /\ work j = Err e;
  wi_out : length (ws_out s) = Z.to_nat items_of;
  wi_token : match ws_caller s with Launching => tokens s = 1 | Checking => tokens s = 0 | _ => tokens s <= 1 end;
  wi_checking : ws_caller s = Checking -> 0 < ws_nworkers s;
  wi_waiting : ws_caller s = Waiting \/ ws_caller s = Finished -> ws_workers s <> [] \/ maxidx <= ws_nextidx s;
  wi_finished : ws_caller s = Finished -> Forall (eq Exited) (ws_workers s) }.

Lemma sumZ_insert {A} (g : A -> Z) (l : list A) k x y : l !! k = Some x -> sumZ g (<[k := y]> l) = sumZ g l - g x + g y.
Proof.
  intros Hk. rewrite <- (take_drop_middle l k x Hk) at 2. rewrite insert_take_drop by (by apply lookup_lt_Some in Hk). rewrite !sumZ_app. cbn. lia.
Qed.

Lemma counts_bounds l : 0 <= starting_count l /\ 0 <= exited_count l <= blen l.
Proof. unfold blen. induction l as [|w l IH]; cbn [sumZ length]; [lia|]. destruct w; cbn [isStarting isExited]; lia. Qed.

Lemma worker_ok_mono n n' w : n <= n' -> worker_ok n w -> worker_ok n' w.
Proof. destruct w; cbn; [done| | |done]; intros; intuition lia. Qed.

(** Replacing a worker, with the facts of the state around it. *)
Lemma replace_worker s k w w' n' : winv s -> ws_workers s !! k = Some w -> ws_nextidx s <= n' -> worker_ok n' w' ->
  Forall (worker_ok n') (<[k := w']> (ws_workers s)) /\ blen (<[k := w']> (ws_workers s)) = blen (ws_workers s).
Proof.
  intros Hinv Hk Hn Hw. split; [|unfold blen; by rewrite length_insert]. apply Forall_insert; [|done].
  eapply Forall_impl; [apply (wi_workers _ Hinv)|]. intros x. by apply worker_ok_mono.
Qed.

(** The workers an item is claimed by, after one of them changed. *)
Lemma accounted_replace s s' k w w' j : ws_workers s !! k = Some w -> ws_workers s' = <[k := w']> (ws_workers s) -> accounted s j ->
  (ws_nextidx s <= j -> accounted s' j) ->
  (forall d, work j = Ok d -> ws_out s !! Z.to_nat (j / stride) = Some (Some d) -> ws_out s' !! Z.to_nat (j / stride) = Some (Some d)) ->
  (ws_err s <> None -> ws_err s' <> None) ->
  (forall off b i, w = Working off b i -> i <= j < off + b -> accounted s' j) -> accounted s' j.
Proof.
  intros Hk Hw' Hacc Hnext Hout Herr Hw. destruct Hacc as [H|[(k' & off & b & i & Hk' & Hj)|[(d & H1 & H2)|H]]]; [auto| |right; right; left; eauto|unfold accounted; auto].
  destruct (decide (k' = k)) as [->|Hne].
  - rewrite Hk in Hk'. injection Hk' as ->. by eapply Hw.
  - right. left. exists k', off, b, i. rewrite Hw'. by rewrite list_lookup_insert_ne.
Qed.

Lemma start_winv : winv (newWorkerState numCPU items_of).
Proof.
  constructor; cbn; try done; try lia.
  - exists 0. lia.
  - unfold blen. cbn. lia.
  - intros H. by apply elem_of_nil in H.
  - intros j Hj _. left. cbn. lia.
  - by rewrite length_replicate.
  - by intros [|].
Qed.

Lemma caller_winv s c : winv s -> (match c with Launching => tokens s = 1 | Checking => tokens s = 0 | _ => tokens s <= 1 end) ->
  (c = Checking -> 0 < ws_nworkers s) -> (c = Waiting \/ c = Finished -> ws_workers s <> [] \/ maxidx <= ws_nextidx s) -> (c = Finished -> Forall (eq Exited) (ws_workers s)) ->
  winv (s <| ws_caller := c |>).
Proof. intros [] H1 H2 H3 H4. by constructor. Qed.

Lemma launch_winv s : winv s -> ws_caller s = Checking -> ws_nextidx s < maxidx -> 0 < ws_nworkers s ->
  winv (s <| ws_caller := Launching |> <| ws_nworkers := ws_nworkers s - 1 |> <| ws_workers := ws_workers s ++ [Starting] |>).
Proof.
  intros [H1 H2 H3 H4 H5 H6 H7 H8 H9 H12 H10 H11] Hc Hn Hw. rewrite Hc in H9. unfold tokens in *. constructor; cbn; unfold tokens; cbn.
  - rewrite sumZ_app. cbn. lia.
  - done.
  - apply Forall_app. split; [done|]. by constructor.
  - unfold blen in *. rewrite length_app. cbn. lia.
  - intros [Hx|Hx]%elem_of_app; [by apply H5|]. by apply list_elem_of_singleton in Hx.
  - intros j Hj Hd. destruct (H6 j Hj Hd) as [|[(k & off & b & i & Hk & Hr)|[|]]]; unfold accounted; cbn; [tauto| |tauto|tauto].
    right. left. exists k, off, b, i. split; [|done]. by apply lookup_app_l_Some.
  - done.
  - done.
  - rewrite sumZ_app. cbn. lia.
  - done.
  - by intros [|].
  - done.
Qed.

Lemma started_winv s k : winv s -> ws_workers s !! k = Some Starting -> ws_starting s = false ->
  winv (s <| ws_starting := true |> <| ws_workers := <[k := Fetching stride]> (ws_workers s) |>).
Proof.
  intros Hinv Hk Hst. pose proof (replace_worker s k Starting (Fetching stride) (ws_nextidx s) Hinv Hk ltac:(lia)) as Hrep.
  destruct Hinv as [H1 H2 H3 H4 H5 H6 H7 H8 H9 H12 H10 H11]. destruct Hrep as [Hr1 Hr2]; [cbn; split; [by exists 1; lia|lia]|].
  unfold tokens in *. rewrite Hst in H9. constructor; cbn; unfold tokens; cbn; try done.
  - rewrite (sumZ_insert _ _ _ _ _ Hk). cbn. lia.
  - lia.
  - intros (k' & Hk')%list_elem_of_lookup. destruct (decide (k' = k)) as [->|]; [rewrite list_lookup_insert_eq in Hk' by (by apply lookup_lt_Some in Hk); done|].
    rewrite list_lookup_insert_ne in Hk' by done. apply H5. by apply list_elem_of_lookup_2 in Hk'.
  - intros j Hj Hd. eapply (accounted_replace s _ k Starting (Fetching stride) j Hk); [reflexivity|by apply H6|by left|done|done|done].
  - rewrite (sumZ_insert _ _ _ _ _ Hk). cbn. destruct (ws_caller s); lia.
  - intros Hc. destruct (H10 Hc) as [Hne|]; [left|by right]. intros E. apply Hne. apply nil_length_inv. by rewrite <- (length_insert (ws_workers s) k (Fetching stride)), E.
  - intros Hc. exfalso. apply H11 in Hc. eapply Forall_lookup_1 in Hc; [|done]. done.
Qed.

(** A worker that is not starting is replaced by another that is not. *)
Lemma swap_winv s k w w' n' out' err' : winv s -> ws_workers s !! k = Some w -> isStarting w = 0 -> isStarting w' = 0 -> isExited w = 0 ->
  ws_nextidx s <= n' <= maxidx + B + B * (exited_count (ws_workers s) + isExited w') -> (stride | n') -> worker_ok n' w' ->
  (w' = Exited -> maxidx <= n' \/ err' <> None) -> (ws_err s <> None -> err' <> None) -> (forall e, err' = Some e -> exists j, 0 <= j < maxidx /\ work j = Err e) ->
  length out' = length (ws_out s) ->
  (forall j, 0 <= j < maxidx -> (stride | j) -> accounted (s <| ws_nextidx := n' |> <| ws_out := out' |> <| ws_err := err' |> <| ws_workers := <[k := w']> (ws_workers s) |>) j) ->
  winv (s <| ws_nextidx := n' |> <| ws_out := out' |> <| ws_err := err' |> <| ws_workers := <[k := w']> (ws_workers s) |>).
Proof.
  intros Hinv Hk Hs Hs' He Hn Hd Hw Hx Herr1 Herr2 Hout Hacc. pose proof (replace_worker s k w w' n' Hinv Hk ltac:(lia) Hw) as [Hr1 Hr2].
  destruct Hinv as [H1 H2 H3 H4 H5 H6 H7 H8 H9 H12 H10 H11]. unfold tokens in *. pose proof (lookup_lt_Some _ _ _ Hk) as Hlt.
  constructor; cbn; unfold tokens; cbn; try done.
  - rewrite (sumZ_insert _ _ _ _ _ Hk). rewrite He. lia.
  - lia.
  - intros (k' & Hk')%list_elem_of_lookup. destruct (decide (k' = k)) as [->|].
    + rewrite list_lookup_insert_eq in Hk' by done. injection Hk' as ->. by apply Hx.
    + rewrite list_lookup_insert_ne in Hk' by done. destruct H5 as [|]; [by apply list_elem_of_lookup_2 in Hk'|left; lia|right; auto].
  - lia.
  - rewrite (sumZ_insert _ _ _ _ _ Hk), Hs, Hs'. destruct (ws_caller s); lia.
  - intros Hc. destruct (H10 Hc) as [Hne|]; [left|right; lia]. intros E. apply Hne. apply nil_length_inv. by rewrite <- (length_insert (ws_workers s) k w'), E.
  - intros Hc. exfalso. apply H11 in Hc. eapply Forall_lookup_1 in Hc; [|done]. subst w. done.
Qed.

Lemma next_winv s k b : winv s -> ws_workers s !! k = Some (Fetching b) ->
  winv (s <| ws_nextidx := wrap64 (ws_nextidx s + b) |>
          <| ws_workers := <[k := if maxidx <=? ws_nextidx s then Exited else Working (ws_nextidx s) b (ws_nextidx s)]> (ws_workers s) |>).
Proof.
  intros Hinv Hk. pose proof (Forall_lookup_1 _ _ _ _ (wi_workers _ Hinv) Hk) as (Hdb & Hb1 & Hb2 & Hb3). pose proof (wi_next _ Hinv) as Hn.
  pose proof (wi_total _ Hinv) as [Ht Ht0]. pose proof (wi_multiple _ Hinv) as Hdn.
  pose proof (sumZ_insert isExited _ _ _ Exited Hk) as Hex. cbn in Hex. pose proof (proj2 (counts_bounds (<[k := Exited]> (ws_workers s)))) as Hcb.
  destruct (replace_worker s k _ Exited (ws_nextidx s) Hinv Hk) as [_ Hbl]; [lia|done|]. pose proof (proj2 (counts_bounds (ws_workers s))) as Hcb0.
  assert (B * exited_count (ws_workers s) <= B * (numCPU - 1)) by (apply Z.mul_le_mono_nonneg_l; lia).
  assert (0 <= B * exited_count (ws_workers s)) by (apply Z.mul_nonneg_nonneg; lia).
  rewrite wrap64_small by word. set (w' := if maxidx <=? ws_nextidx s then Exited else Working (ws_nextidx s) b (ws_nextidx s)).
  apply (swap_winv s k (Fetching b) w' (ws_nextidx s + b) (ws_out s) (ws_err s) Hinv Hk); try done; try (by destruct Hinv).
  - unfold w'. by destruct (maxidx <=? ws_nextidx s).
  - unfold w'. destruct (Z.leb_spec maxidx (ws_nextidx s)); cbn [isExited]; lia.
  - by apply Z.divide_add_r.
  - unfold w'. destruct (Z.leb_spec maxidx (ws_nextidx s)); cbn [worker_ok]; [done|]. split_and!; try done; lia.
  - unfold w'. destruct (Z.leb_spec maxidx (ws_nextidx s)); [|done]. intros _. left. lia.
  - intros j Hj Hd. eapply (accounted_replace s _ k (Fetching b) w' j Hk); [reflexivity|by apply (wi_accounted _ Hinv)| |done|done|done].
    intros Hnj. destruct (Z.lt_ge_cases j (ws_nextidx s + b)); [|by left]. right. left. exists k, (ws_nextidx s), b, (ws_nextidx s). cbn.
    rewrite list_lookup_insert_eq by (by apply lookup_lt_Some in Hk). split; [|lia]. unfold w'. by rewrite (proj2 (Z.leb_gt _ _)) by lia.
Qed.

Lemma divide_next i j : (stride | i) -> (stride | j) -> i < j -> i + stride <= j.
Proof. intros [a ->] [c ->] H. assert (a < c) by nia. nia. Qed.

Lemma item_winv s k off b i d : winv s -> ws_workers s !! k = Some (Working off b i) -> i < off + b -> i < maxidx -> work i = Ok d ->
  winv (s <| ws_out := <[Z.to_nat (i / stride) := Some d]> (ws_out s) |> <| ws_workers := <[k := Working off b (i + stride)]> (ws_workers s) |>).
Proof.
  intros Hinv Hk Hi Him Hd. pose proof (Forall_lookup_1 _ _ _ _ (wi_workers _ Hinv) Hk) as (Hdo & Hdb & Hdi & Hoi & Hom & Hob & Hb).
  apply (swap_winv s k (Working off b i) (Working off b (i + stride)) (ws_nextidx s) (<[Z.to_nat (i / stride) := Some d]> (ws_out s)) (ws_err s) Hinv Hk); try done; try (by destruct Hinv).
  - cbn [isExited]. pose proof (wi_next _ Hinv). lia.
  - cbn [worker_ok]. split_and!; try done; try lia. by apply Z.divide_add_r; [|apply Z.divide_refl].
  - exact (length_insert (ws_out s) _ _).
  - assert (Z.to_nat (i / stride) < length (ws_out s))%nat as Hlt.
    { rewrite (wi_out _ Hinv). unfold items_of. assert (i / stride < (maxidx + stride - 1) / stride); [|pose proof (Z.div_pos i stride); lia].
      destruct Hdi as [q ->]. rewrite Z.div_mul by lia. apply Z.lt_le_trans with (q + 1); [lia|]. apply Z.div_le_lower_bound; lia. }
    intros j Hj Hdj. eapply (accounted_replace s _ k (Working off b i) _ j Hk); [reflexivity|by apply (wi_accounted _ Hinv)|by left| |done|].
    + intros d' Hd' Ho. destruct (Z.eq_dec j i) as [->|Hne].
      * rewrite Hd in Hd'. injection Hd' as ->. exact (list_lookup_insert_eq (ws_out s) _ _ Hlt).
      * etrans; [apply (list_lookup_insert_ne (ws_out s))|done]. destruct Hdj as [qj ->], Hdi as [qi ->]. rewrite !Z.div_mul by lia. intros E.
        assert (0 <= qj /\ 0 <= qi) by nia. apply Hne. f_equal. lia.
    + intros off' b' i' [= <- <- <-] Hjr. destruct (Z.eq_dec j i) as [->|Hne].
      * right. right. left. exists d. split; [done|]. exact (list_lookup_insert_eq (ws_out s) _ _ Hlt).
      * right. left. exists k, off, b, (i + stride). cbn. rewrite list_lookup_insert_eq by (by apply lookup_lt_Some in Hk). split; [done|].
        pose proof (divide_next i j Hdi Hdj). lia.
Qed.

Lemma error_winv s k off b i e : winv s -> ws_workers s !! k = Some (Working off b i) -> i < maxidx -> work i = Err e ->
  winv (s <| ws_err := nonBlockingSend e (ws_err s) |> <| ws_workers := <[k := Exited]> (ws_workers s) |>).
Proof.
  intros Hinv Hk Him He. pose proof (Forall_lookup_1 _ _ _ _ (wi_workers _ Hinv) Hk) as (_ & _ & _ & Hoi & _).
  assert (nonBlockingSend e (ws_err s) <> None) as Hne by (unfold nonBlockingSend; by destruct (ws_err s)).
  apply (swap_winv s k (Working off b i) Exited (ws_nextidx s) (ws_out s) (nonBlockingSend e (ws_err s)) Hinv Hk); try done; try (by destruct Hinv).
  - cbn [isExited]. pose proof (wi_next _ Hinv). lia.
  - by right.
  - intros e' He'. unfold nonBlockingSend in He'. destruct (ws_err s) as [e0|] eqn:E.
    + apply (wi_err _ Hinv). congruence.
    + injection He' as <-. exists i. split; [lia|done].
  - intros j _ _. by right; right; right.
Qed.

Lemma batch_winv s k off b i : winv s -> ws_workers s !! k = Some (Working off b i) -> off + b <= i \/ maxidx <= i ->
  winv (s <| ws_workers := <[k := Fetching (b + stride)]> (ws_workers s) |>).
Proof.
  intros Hinv Hk Hdone. pose proof (Forall_lookup_1 _ _ _ _ (wi_workers _ Hinv) Hk) as (Hdo & Hdb & Hdi & Hoi & Hom & Hob & Hb).
  apply (swap_winv s k (Working off b i) (Fetching (b + stride)) (ws_nextidx s) (ws_out s) (ws_err s) Hinv Hk); try done; try (by destruct Hinv).
  - cbn [isExited]. pose proof (wi_next _ Hinv). lia.
  - cbn [worker_ok]. split_and!; try lia. by apply Z.divide_add_r; [|apply Z.divide_refl].
  - intros j Hj Hdj. eapply (accounted_replace s _ k (Working off b i) _ j Hk); [reflexivity|by apply (wi_accounted _ Hinv)|by left|done|done|].
    intros off' b' i' [= <- <- <-] Hjr. lia.
Qed.

Lemma wstep_winv s s' : winv s -> wstep s s' -> winv s'.
Proof.
  intros Hinv Hst. pose proof (wi_token _ Hinv) as Htok. pose proof (wi_total _ Hinv) as [Ht Ht0].
  pose proof (proj1 (counts_bounds (ws_workers s))) as Hsc. unfold tokens in Htok.
  destruct Hst as [s Hc Hn|s Hc Hn Htk|s Hc Hn|s Hc Hn|s Hc Hall|s k Hk Htk|s k b Hk|s k off b i d Hk Hi Him Hd|s k off b i e Hk Hi Him He|s k off b i Hk Hd].
  - apply caller_winv; try done; [unfold tokens; rewrite Hc in Htok; lia|]. intros _. left. intros E. rewrite E in Ht. unfold blen in Ht. cbn in Ht. lia.
  - rewrite Hc, Htk in Htok. assert (winv (s <| ws_starting := false |> <| ws_caller := Checking |>)) as H; [|exact H].
    destruct Hinv. constructor; cbn; try done. unfold tokens. cbn. lia. by intros [|].
  - apply caller_winv; try done; [unfold tokens; rewrite Hc in Htok; lia|]. auto.
  - apply launch_winv; try done. by apply (wi_checking _ Hinv).
  - apply caller_winv; try done; [unfold tokens; rewrite Hc in Htok; lia|]. intros _. apply (wi_waiting _ Hinv). auto.
  - by apply started_winv.
  - by apply next_winv.
  - by eapply item_winv.
  - by eapply error_winv.
  - by eapply batch_winv.
Qed.
Lemma wsteps_winv n s : wsteps n (newWorkerState numCPU items_of) s -> winv s.
Proof.
  remember (newWorkerState numCPU items_of) as s0 eqn:E. induction 1 as [|n s1 s2 s3 _ IH Hst]; subst; [apply start_winv|].
  eapply wstep_winv; [by apply IH|done].
Qed.

(** ** The work left: every step does some *)

Definition work_left (w : worker) : Z :=
  match w with Starting => 2 | Fetching _ => 1 | Working off b i => 2 + Z.max 0 (Z.min (off + b) maxidx - i) | Exited => 0 end.
Definition caller_left (c : caller) : Z := match c with Launching => 3 | Checking => 2 | Waiting => 1 | Finished => 0 end.
Definition left_to_do (s : workerState) : Z :=
  4 * ws_nworkers s + caller_left (ws_caller s) + sumZ work_left (ws_workers s) + 3 * Z.max 0 (maxidx - ws_nextidx s).

Lemma next_unwrapped s k b : winv s -> ws_workers s !! k = Some (Fetching b) -> wrap64 (ws_nextidx s + b) = ws_nextidx s + b /\ stride <= b.
Proof.
  intros Hinv Hk. pose proof (Forall_lookup_1 _ _ _ _ (wi_workers _ Hinv) Hk) as (Hdb & Hb1 & Hb2 & Hb3). pose proof (wi_next _ Hinv) as Hn.
  pose proof (wi_total _ Hinv) as [Ht Ht0]. pose proof (sumZ_insert isExited _ _ _ Exited Hk) as Hex. cbn in Hex.
  pose proof (proj2 (counts_bounds (<[k := Exited]> (ws_workers s)))) as Hcb. destruct (replace_worker s k _ Exited (ws_nextidx s) Hinv Hk) as [_ Hbl]; [lia|done|].
  assert (B * exited_count (ws_workers s) <= B * (numCPU - 1)) by (apply Z.mul_le_mono_nonneg_l; lia).
  split; [|done]. apply wrap64_small. word.
Qed.

Lemma wstep_less s s' : winv s -> wstep s s' -> left_to_do s' < left_to_do s.
Proof.
  intros Hinv Hst.
  destruct Hst as [s Hc Hn|s Hc Hn Htk|s Hc Hn|s Hc Hn|s Hc Hall|s k Hk Htk|s k b Hk|s k off b i d Hk Hi Him Hd|s k off b i e Hk Hi Him He|s k off b i Hk Hd];
    unfold left_to_do; cbn; rewrite ?Hc; cbn [caller_left];
    try (rewrite (sumZ_insert work_left _ _ _ _ Hk); cbn [work_left]); try lia.
  - rewrite sumZ_app. cbn. lia.
  - destruct (next_unwrapped s k b Hinv Hk) as [-> Hb]. destruct (Z.leb_spec maxidx (ws_nextidx s)); cbn [work_left]; lia.
Qed.

Lemma left_nonneg s : winv s -> 0 <= left_to_do s.
Proof.
  intros Hinv. assert (0 <= sumZ work_left (ws_workers s)).
  { induction (ws_workers s) as [|w l IH]; cbn; [lia|]. destruct w; cbn; lia. }
  pose proof (wi_total _ Hinv). unfold left_to_do. destruct (ws_caller s); cbn; lia.
Qed.

(** Every run ends: it has at most so many steps. *)
Lemma wsteps_bounded n s : wsteps n (newWorkerState numCPU items_of) s -> Z.of_nat n + left_to_do s <= 4 * numCPU + 3 + 3 * maxidx.
Proof.
  remember (newWorkerState numCPU items_of) as s0 eqn:E. induction 1 as [|n s1 s2 s3 Hs IH Hst]; subst; [unfold left_to_do; cbn; lia|].
  specialize (IH eq_refl). pose proof (wstep_less _ _ (wsteps_winv _ _ Hs) Hst). lia.
Qed.

Lemma starting_positive l k : l !! k = Some Starting -> 1 <= starting_count l.
Proof.
  intros Hk. rewrite <- (take_drop_middle l k _ Hk), sumZ_app. pose proof (proj1 (counts_bounds (take k l))).
  pose proof (proj1 (counts_bounds (drop (S k) l))). cbn. lia.
Qed.
Lemma starting_worker l : 1 <= starting_count l -> exists k, l !! k = Some Starting.
Proof.
  induction l as [|w l IH]; cbn; [lia|]. destruct w; cbn; try (intros H; destruct IH as [k Hk]; [lia|]; by exists (S k)). intros _. by exists O.
Qed.

Lemma worker_moves s k w : winv s -> ws_workers s !! k = Some w -> w <> Exited -> crashes s \/ exists s', wstep s s'.
Proof.
  intros Hinv Hk Hw. destruct w as [|b|off b i|]; [| | |done].
  - right. destruct (ws_starting s) eqn:Es; [|eexists; by eapply step_started]. exfalso. pose proof (wi_token _ Hinv) as Ht. unfold tokens in Ht. rewrite Es in Ht.
    pose proof (starting_positive _ _ Hk). destruct (ws_caller s); lia.
  - right. eexists. by eapply step_next.
  - destruct (Z.lt_ge_cases i (off + b)); [|right; eexists; eapply step_batch_done; [done|by left]].
    destruct (Z.lt_ge_cases i maxidx); [|right; eexists; eapply step_batch_done; [done|by right]]. destruct (work i) as [d|e|] eqn:Ew.
    + right. eexists. by eapply step_item.
    + right. eexists. by eapply step_error.
    + left. by exists k, off, b, i.
Qed.

(** No run is stuck before the caller is done, unless an item panics. *)
Lemma no_deadlock s : winv s -> ws_caller s <> Finished -> crashes s \/ exists s', wstep s s'.
Proof.
  intros Hinv Hc. pose proof (wi_token _ Hinv) as Ht. destruct (ws_caller s) eqn:Ec; [| | |done].
  - destruct (Z.le_gt_cases (ws_nworkers s) 0); [right; eexists; by apply step_all_launched|].
    destruct (ws_starting s) eqn:Es; [right; eexists; by apply step_take_token|]. unfold tokens in Ht. rewrite Es in Ht.
    destruct (starting_worker (ws_workers s)) as [k Hk]; [lia|]. right. eexists. by eapply step_started.
  - right. destruct (Z.le_gt_cases maxidx (ws_nextidx s)); eexists; [by apply step_nothing_left|by apply step_launch].
  - destruct (decide (Forall (fun w => isExited w = 1) (ws_workers s))) as [Hall|Hnot].
    + right. eexists. apply step_wait; [done|]. eapply Forall_impl; [exact Hall|]. by intros [].
    + apply not_Forall_Exists, Exists_exists in Hnot as (w & Hw & Hne); [|apply _]. apply list_elem_of_lookup in Hw as [k Hk].
      eapply worker_moves; [done..|]. intros ->. by apply Hne.
Qed.

Lemma items_lookup (j : nat) : (j < Z.to_nat items_of)%nat -> 0 <= Z.of_nat j * stride < maxidx.
Proof.
  intros Hj. unfold items_of in Hj. pose proof (Z.div_mod (maxidx + stride - 1) stride ltac:(lia)) as Hdm.
  pose proof (Z.mod_pos_bound (maxidx + stride - 1) stride ltac:(lia)). set (q := (maxidx + stride - 1) / stride) in *. nia.
Qed.

(** What the workers leave behind. *)
Lemma finished_output s : winv s -> ws_caller s = Finished -> ws_err s = None ->
  length (ws_out s) = Z.to_nat items_of /\
  forall j, (j < Z.to_nat items_of)%nat -> exists d, work (Z.of_nat j * stride) = Ok d /\ ws_out s !! j = Some (Some d).
Proof.
  intros Hinv Hc He. split; [by apply wi_out|]. intros j Hj. pose proof (items_lookup j Hj) as Hr. pose proof (wi_finished _ Hinv Hc) as Hall.
  destruct (wi_accounted _ Hinv (Z.of_nat j * stride) Hr) as [Hn|[(k & off & b & i & Hk & _)|[(d & Hd & Ho)|H]]]; [by exists (Z.of_nat j)| | | |done].
  - exfalso. assert (maxidx <= ws_nextidx s); [|lia]. destruct (wi_waiting _ Hinv) as [Hne|]; [by right| |done].
    destruct (wi_exit _ Hinv) as [|]; [|done|by rewrite He in *]. destruct (ws_workers s) as [|w l]; [done|]. apply Forall_cons in Hall as [<- _]. by left.
  - exfalso. by eapply Forall_lookup_1 in Hall; [|done].
  - exists d. split; [done|]. by rewrite Z.div_mul, Nat2Z.id in Ho by lia.
Qed.
End run.
End workers.

(** ** What the workers do for an item *)

Section items.
  Context (sum : Z -> bytes -> GenericDigest) (h : Z).

(** The body of the loop of [buildWorker]. *)
Definition buildWorker_item (array : Array) (i : Z) : outcome GenericDigest := m ← arr_Marshal array i; Ok (GenericHashObj sum h m).

(** The body of the loop of [upWorker]. *)
Definition upWorker_item (l : Layer) (i : Z) : outcome GenericDigest :=
  match l !! Z.to_nat i with
  | None => Panic
  | Some x => hashPair sum h x (if i + 1 <? blen l then default [] (l !! Z.to_nat (i + 1)) else [])
  end.

Lemma buildLeaves_items array n : forall i out, length out = n ->
  (forall j, (j < n)%nat -> exists d, buildWorker_item array (i + Z.of_nat j) = Ok d /\ out !! j = Some (Some d)) ->
  exists leaves, buildLeaves sum h array n i = Ok leaves /\ out = Some <$> leaves.
Proof.
  induction n as [|n IH]; intros i out Hl Hj; [exists []; split; [done|]; by apply nil_length_inv|].
  destruct out as [|o out]; [done|]. destruct (Hj O ltac:(lia)) as (d & Hd & [= ->]). rewrite Z.add_0_r in Hd. unfold buildWorker_item in Hd. cbn [buildLeaves].
  destruct (arr_Marshal array i) as [m|e|]; [|done|done]. injection Hd as <-. destruct (IH (i + 1) out) as (leaves & E & ->); [by injection Hl| |].
  - intros j Hjn. destruct (Hj (S j) ltac:(lia)) as (d & Hd & Ho). exists d. split; [|done]. rewrite <- Hd. f_equal. lia.
  - cbn. rewrite E. by eexists.
Qed.

Lemma buildLeaves_Ok array n : forall i leaves, buildLeaves sum h array n i = Ok leaves ->
  forall j, i <= j < i + Z.of_nat n -> exists m, arr_Marshal array j = Ok m.
Proof.
  induction n as [|n IH]; intros i leaves Hb j Hj; [lia|]. cbn [buildLeaves] in Hb. destruct (arr_Marshal array i) as [m|e|] eqn:Em; [|done|done]. cbn in Hb.
  destruct (buildLeaves sum h array n (i + 1)) as [leaves'|e|] eqn:E; [|done|done]. destruct (Z.eq_dec j i) as [->|]; [by eexists|]. apply (IH _ _ E). lia.
Qed.

(** The items of a layer are the hashes of the one above. *)
Lemma nextLayer_items l : forall out, length out = Z.to_nat (items_of 2 (blen l)) ->
  (forall j, (j < length out)%nat -> exists d, upWorker_item l (Z.of_nat j * 2) = Ok d /\ out !! j = Some (Some d)) ->
  exists next, nextLayer sum h l = Ok next /\ out = Some <$> next.
Proof.
  remember (length l) as n eqn:En. revert l En. induction (lt_wf n) as [n _ IH]. intros l En out Hl Hj. unfold blen, items_of in Hl. destruct l as [|x [|y l']].
  - exists []. split; [done|]. by apply nil_length_inv.
  - cbn in Hl. destruct out as [|o [|]]; [done| |done]. destruct (Hj O ltac:(cbn; lia)) as (d & Hd & [= ->]). change (hashPair sum h x [] = Ok d) in Hd. cbn [nextLayer]. rewrite Hd. by exists [d].
  - destruct out as [|o out]; [cbn [length] in Hl; pose proof (Z.div_le_lower_bound (Z.of_nat (S (S (length l'))) + 2 - 1) 2 1); lia|].
    destruct (Hj O ltac:(cbn; lia)) as (d & Hd & [= ->]). change (hashPair sum h x (if 1 <? blen (x :: y :: l') then y else []) = Ok d) in Hd.
    rewrite (proj2 (Z.ltb_lt _ _)) in Hd by (unfold blen; cbn; lia). cbn [nextLayer]. rewrite Hd. cbn [mbind outcome_bind]. destruct (IH (length l') ltac:(cbn in En; lia) l' eq_refl out) as (next & E & ->).
    + cbn [length] in Hl. unfold items_of, blen. replace (Z.of_nat (S (S (length l'))) + 2 - 1) with (Z.of_nat (length l') + 2 - 1 + 1 * 2) in Hl by lia.
      rewrite Z.div_add in Hl by lia. pose proof (Z.div_pos (Z.of_nat (length l') + 2 - 1) 2). lia.
    + intros j Hjn. destruct (Hj (S j) ltac:(cbn; lia)) as (d' & Hd' & Ho). exists d'. split; [|done]. rewrite <- Hd'. unfold upWorker_item, blen.
      replace (Z.to_nat (Z.of_nat (S j) * 2)) with (S (S (Z.to_nat (Z.of_nat j * 2)))) by lia.
      replace (Z.to_nat (Z.of_nat (S j) * 2 + 1)) with (S (S (Z.to_nat (Z.of_nat j * 2 + 1)))) by lia. cbn [lookup list_lookup length].
      destruct (l' !! Z.to_nat (Z.of_nat j * 2)); [|done]. f_equal. destruct (Z.ltb_spec (Z.of_nat j * 2 + 1) (Z.of_nat (length l'))), (Z.ltb_spec (Z.of_nat (S j) * 2 + 1) (Z.of_nat (S (S (length l'))))); done || lia.
    + rewrite E. by eexists.
Qed.
End items.

(** ** The theorem *)

(** What every run of [work] over the items of [maxidx] positions does. *)
Definition runs_end (stride maxidx numCPU : Z) (work : Z -> outcome GenericDigest) (result : outcome Layer) : Prop :=
  forall n s, wsteps stride maxidx work n (newWorkerState numCPU (items_of stride maxidx)) s ->
    Z.of_nat n <= 4 * numCPU + 3 + 3 * maxidx /\
    (ws_caller s <> Finished -> crashes maxidx work s \/ exists s', wstep stride maxidx work s s') /\
    (ws_caller s = Finished ->
       match ws_err s with
       | None => exists layer, result = Ok layer /\ ws_out s = Some <$> layer
       | Some e => exists i, 0 <= i < maxidx /\ work i = Err e
       end) /\
    (forall layer, result = Ok layer -> ~ crashes maxidx work s /\ ws_err s = None).

Lemma runs_end_of stride maxidx numCPU work result : 1 <= numCPU -> 1 <= stride -> 0 <= maxidx ->
  maxidx + (maxidx + 2 * stride) * (numCPU + 1) < two64 ->
  (forall out, length out = Z.to_nat (items_of stride maxidx) ->
     (forall j, (j < length out)%nat -> exists d, work (Z.of_nat j * stride) = Ok d /\ out !! j = Some (Some d)) ->
     exists layer, result = Ok layer /\ out = Some <$> layer) ->
  (forall layer i, result = Ok layer -> 0 <= i < maxidx -> (stride | i) -> exists d, work i = Ok d) ->
  (forall i e, work i = Err e -> 0 <= i < maxidx -> forall layer, result <> Ok layer) ->
  runs_end stride maxidx numCPU work result.
Proof.
  intros Hcpu Hstride Hmax Hfits Hout Hok Herr n s Hs.
  pose proof (wsteps_winv stride maxidx work numCPU Hcpu Hstride Hmax Hfits n s Hs) as Hinv.
  pose proof (wsteps_bounded stride maxidx work numCPU Hcpu Hstride Hmax Hfits n s Hs) as Hb.
  pose proof (left_nonneg stride maxidx work numCPU s Hinv) as Hl. split_and!.
  - lia.
  - by apply (no_deadlock stride maxidx work numCPU).
  - intros Hf. destruct (ws_err s) as [e|] eqn:Ee; [by apply (wi_err _ _ _ _ _ Hinv)|].
    destruct (finished_output stride maxidx work numCPU Hcpu Hstride Hmax Hfits s Hinv Hf Ee) as [Hlen Hall]. apply Hout; [done|]. by rewrite Hlen.
  - intros layer Hr. split.
    + intros (k & off & b & i & Hk & Hi & Him & Hp). pose proof (Forall_lookup_1 _ _ _ _ (wi_workers _ _ _ _ _ Hinv) Hk) as (_ & _ & Hd & Ho & _).
      destruct (Hok layer i Hr ltac:(lia) Hd) as [d Hd']. by rewrite Hp in Hd'.
    + destruct (ws_err s) as [e|] eqn:Ee; [|done]. destruct (wi_err _ _ _ _ _ Hinv e Ee) as (i & Hi & Hw). by destruct (Herr i e Hw Hi layer).
Qed.

Lemma hashPair_not_Err sum h x y e : hashPair sum h x y <> Err e.
Proof. unfold hashPair, pair_ToBeHashed, copyAt. repeat case_match; cbn; repeat case_match; done. Qed.

Lemma upWorker_item_Ok sum h l : forall next i, nextLayer sum h l = Ok next -> 0 <= i < blen l -> (2 | i) -> exists d, upWorker_item sum h l i = Ok d.
Proof.
  remember (length l) as n eqn:En. revert l En. induction (lt_wf n) as [n _ IH]. intros l En next i Hn Hi [q ->]. unfold blen in Hi.
  destruct l as [|x [|y l']]; [cbn in Hi; lia| |].
  - cbn [length] in Hi. assert (q = 0) as -> by lia. cbn [nextLayer] in Hn. change (upWorker_item sum h [x] (0 * 2)) with (hashPair sum h x []).
    destruct (hashPair sum h x []); [by eexists|done|done].
  - cbn [nextLayer] in Hn. destruct (hashPair sum h x y) as [p|e|] eqn:Ep; [|done|done]. cbn [mbind outcome_bind] in Hn.
    destruct (nextLayer sum h l') as [next'|e|] eqn:En'; [|done|done]. destruct (Z.eq_dec q 0) as [->|Hq].
    + exists p. rewrite <- Ep. unfold upWorker_item. rewrite (proj2 (Z.ltb_lt _ _)) by (unfold blen; cbn; lia). done.
    + destruct (IH (length l') ltac:(cbn in En; lia) l' eq_refl next' ((q - 1) * 2) En') as [d Hd]; [cbn [length] in Hi; unfold blen; lia|by exists (q - 1)|].
      exists d. rewrite <- Hd. unfold upWorker_item, blen. replace (Z.to_nat (q * 2)) with (S (S (Z.to_nat ((q - 1) * 2)))) by lia.
      replace (Z.to_nat (q * 2 + 1)) with (S (S (Z.to_nat ((q - 1) * 2 + 1)))) by lia. cbn [lookup list_lookup length].
      destruct (l' !! Z.to_nat ((q - 1) * 2)); [|done]. f_equal.
      destruct (Z.ltb_spec (q * 2 + 1) (Z.of_nat (S (S (length l'))))), (Z.ltb_spec ((q - 1) * 2 + 1) (Z.of_nat (length l'))); done || lia.
Qed.

(** C25 (refinement): whatever the order in which the goroutines of [Build] and of
    [buildNextLayer] take their steps, on any number of processors, every run ends: it has
    a bounded number of steps and is never stuck before the caller has waited for all
    workers.  If the sequential computation of the leaves, or of the layer above, succeeds,
    then no worker crashes or reports an error and the output is that computation's; and a
    run that ends without an error has every slot of its output filled, with that
    computation's result.  An error that is reported is one of marshalling an element. *)
Theorem workers_refine_layers (sum : Z -> bytes -> GenericDigest) (h numCPU : Z) (array : Array) (l : Layer) :
  1 <= numCPU -> 0 <= arr_Length array ->
  arr_Length array + (arr_Length array + 2) * (numCPU + 1) < two64 -> blen l + (blen l + 4) * (numCPU + 1) < two64 ->
  runs_end 1 (arr_Length array) numCPU (buildWorker_item sum h array) (buildLeaves sum h array (Z.to_nat (arr_Length array)) 0) /\
  runs_end 2 (blen l) numCPU (upWorker_item sum h l) (nextLayer sum h l).
Proof.
  intros Hcpu Hlen Hf1 Hf2. split; apply runs_end_of; try done; try lia.
  - assert (items_of 1 (arr_Length array) = arr_Length array) as -> by (unfold items_of; rewrite Z.div_1_r; lia).
    intros out Ho Hj. apply buildLeaves_items; [done|]. intros j Hjn. rewrite Z.add_0_l. destruct (Hj j ltac:(lia)) as (d & Hd & E).
    rewrite Z.mul_1_r in Hd. by exists d.
  - intros layer i Hb Hi _. destruct (buildLeaves_Ok sum h array _ _ _ Hb i ltac:(lia)) as [m Hm]. unfold buildWorker_item. rewrite Hm. by eexists.
  - intros i e He Hi layer Hb. destruct (buildLeaves_Ok sum h array _ _ _ Hb i ltac:(lia)) as [m Hm]. unfold buildWorker_item in He. by rewrite Hm in He.
  - unfold blen. lia.
  - intros out Ho Hj. by apply nextLayer_items.
  - intros layer i Hn Hi Hd. by eapply upWorker_item_Ok.
  - intros i e He. exfalso. unfold upWorker_item in He. destruct (l !! Z.to_nat i); [|done]. by apply hashPair_not_Err in He.
Qed.

(** A run on one processor over an array of one element. *)
Definition after_leaf : workerState :=
  mkworkerState Finished 3 0 true [Exited] [Some (GenericHashObj digitSum Sumhash (letters 0))] None.
Lemma wsteps_then stride maxidx work n s1 s2 s3 s3' : wstep stride maxidx work s2 s3 -> s3 = s3' -> wsteps stride maxidx work n s1 s2 -> wsteps stride maxidx work (S n) s1 s3'.
Proof. intros H <- Hs. by eapply wsteps_step. Qed.
Lemma one_leaf_run : wsteps 1 1 (buildWorker_item digitSum Sumhash (letterArray 1)) 9 (newWorkerState 1 (items_of 1 1)) after_leaf.
Proof.
  eapply wsteps_then; [apply (step_wait _ _ _ (after_leaf <| ws_caller := Waiting |>)); [done|by repeat constructor]|reflexivity|].
  eapply wsteps_then; [apply (step_next _ _ _ (after_leaf <| ws_caller := Waiting |> <| ws_nextidx := 1 |> <| ws_workers := [Fetching 2] |>) 0 2); done|reflexivity|].
  eapply wsteps_then; [apply (step_batch_done _ _ _ (after_leaf <| ws_caller := Waiting |> <| ws_nextidx := 1 |> <| ws_workers := [Working 0 1 1] |>) 0 0 1 1); [done|left; done]|reflexivity|].
  eapply wsteps_then; [apply (step_item _ _ _ (after_leaf <| ws_caller := Waiting |> <| ws_nextidx := 1 |> <| ws_workers := [Working 0 1 0] |> <| ws_out := [None] |>) 0 0 1 0); done|reflexivity|].
  eapply wsteps_then; [apply (step_all_launched _ _ _ (mkworkerState Launching 1 0 true [Working 0 1 0] [None] None)); done|reflexivity|].
  eapply wsteps_then; [apply (step_next _ _ _ (mkworkerState Launching 0 0 true [Fetching 1] [None] None) 0 1); done|reflexivity|].
  eapply wsteps_then; [apply (step_started _ _ _ (mkworkerState Launching 0 0 false [Starting] [None] None) 0); done|reflexivity|].
  eapply wsteps_then; [apply (step_launch _ _ _ (mkworkerState Checking 0 1 false [] [None] None)); done|reflexivity|].
  eapply wsteps_then; [apply (step_take_token _ _ _ (mkworkerState Launching 0 1 true [] [None] None)); done|reflexivity|].
  apply wsteps_refl.
Qed.

Lemma workers_refine_layers_witness :
  (exists leaves, buildLeaves digitSum Sumhash (letterArray 1) 1 0 = Ok leaves /\ ws_out after_leaf = Some <$> leaves) /\
  runs_end 2 3 4 (upWorker_item digitSum Sumhash [digitSum 1 [1]; digitSum 1 [2]; digitSum 1 [3]])
    (nextLayer digitSum Sumhash [digitSum 1 [1]; digitSum 1 [2]; digitSum 1 [3]]).
Proof.
  split.
  - destruct (workers_refine_layers digitSum Sumhash 1 (letterArray 1) []) as [H _]; [done|done|done|done|].
    destruct (H 9%nat after_leaf one_leaf_run) as (_ & _ & Hf & _). by apply Hf.
  - apply (workers_refine_layers digitSum Sumhash 4 (letterArray 1) [digitSum 1 [1]; digitSum 1 [2]; digitSum 1 [3]]); done.
Defined.
