(* ===== verification/MerkleSignatureCorrect.v ===== *)
(** The Merkle signature scheme of [src/crypto/merklesignature] is correct: secrets sign for
    exactly the rounds of their validity that are multiples of the interval, and what they
    sign verifies under their public key. *)
From S2P Require Import Prelude Config Basics MerkleArray MerkleFacts MerkleCorrect MerkleBinding MerkleSignature.
#[local] Open Scope string_scope.
#[local] Open Scope list_scope.
#[local] Open Scope Z_scope.

Section scheme.
  Context {F : Falcon} (sum : Z -> bytes -> bytes).
  Context (Hsum : forall h m, 0 <= h < MaxHashType -> length (sum h m) = Z.to_nat (hash_Size h)).

(** ** Keys *)

Lemma generateKeysForRange_app a b k : generateKeysForRange (a + b) k =
  (keys ← generateKeysForRange a k; rest ← generateKeysForRange b (k + Z.of_nat a); Ok (keys ++ rest)).
Proof.
  revert k. induction a as [|a IH]; intros k; cbn [generateKeysForRange Nat.add].
  - rewrite Z.add_0_r. cbn. by destruct (generateKeysForRange b k).
  - destruct (falcon_Generate k) as [key| |]; [|done..]. cbn [mbind outcome_bind]. rewrite IH. replace (k + Z.of_nat (S a)) with (k + 1 + Z.of_nat a) by lia.
    destruct (generateKeysForRange a (k + 1)) as [l| |]; [|done..]. cbn [mbind outcome_bind].
    by destruct (generateKeysForRange b (k + 1 + Z.of_nat a)).
Qed.

(** The ranges cover the array, each index once. *)
Lemma generateRanges_all fuel per n : 0 < per -> n + per < 2 ^ 63 -> forall i, 0 <= i <= n -> (Z.to_nat (n - i) <= fuel)%nat ->
  generateRanges (keyRanges fuel per n i) = generateKeysForRange (Z.to_nat (n - i)) i.
Proof.
  intros Hper Hn. induction fuel as [|fuel IH]; intros i Hi Hf; cbn [keyRanges].
  - by replace (Z.to_nat (n - i)) with 0%nat by lia.
  - destruct (Z.ltb_spec i n); [|by replace (Z.to_nat (n - i)) with 0%nat by lia]. cbn [generateRanges].
    rewrite (wrap64_small (i + per)) by word. set (e := if n <? wrap64 (i + per + per) then n else i + per).
    assert (i < e <= n) as He. { unfold e. rewrite wrap64_small by word. destruct (Z.ltb_spec n (i + per + per)); lia. }
    rewrite IH by lia. replace (Z.to_nat (n - i)) with (Z.to_nat (e - i) + Z.to_nat (n - e))%nat by lia.
    rewrite generateKeysForRange_app. by replace (i + Z.of_nat (Z.to_nat (e - i))) with e by lia.
Qed.

Lemma generateKeys_spec n : forall k, (forall i, k <= i < k + Z.of_nat n -> exists key, falcon_Generate i = Ok key) ->
  exists keys, generateKeysForRange n k = Ok keys /\ length keys = n /\
    forall i key, keys !! i = Some key -> falcon_Generate (k + Z.of_nat i) = Ok key.
Proof.
  induction n as [|n IH]; intros k Hg; cbn [generateKeysForRange]; [exists []; split_and!; [done..|set_solver]|].
  destruct (Hg k) as [key Hk]; [lia|]. rewrite Hk. cbn [mbind outcome_bind]. destruct (IH (k + 1)) as (keys & -> & Hl & Hkeys); [intros; apply Hg; lia|].
  cbn [mbind outcome_bind]. exists (key :: keys). split; [done|]. split; [cbn; lia|]. intros [|i] key' Hi.
  - injection Hi as <-. by rewrite Z.add_0_r.
  - rewrite <- (Hkeys i key' Hi). f_equal. lia.
Qed.

Lemma KeysBuilder_spec numCPU n : 0 < numCPU < 2 ^ 32 -> 0 <= n < 2 ^ 62 -> (forall i, 0 <= i < n -> exists key, falcon_Generate i = Ok key) ->
  exists keys, KeysBuilder numCPU n = Ok keys /\ blen keys = n /\ forall i key, keys !! i = Some key -> falcon_Generate (Z.of_nat i) = Ok key.
Proof.
  intros Hc Hn Hg. unfold KeysBuilder. set (per := calculateRanges numCPU n).
  assert (0 < per <= Z.max 1 n) as Hper.
  { unfold per, calculateRanges. rewrite wrap64_small by word. destruct (Z.ltb_spec (numCPU * 2) n); [|lia].
    split; [apply Z.div_str_pos; lia|]. transitivity n; [apply Z.div_le_upper_bound; nia|lia]. }
  rewrite generateRanges_all by lia. rewrite Z.sub_0_r. destruct (generateKeys_spec (Z.to_nat n) 0) as (keys & Hk & Hl & Hkeys).
  { intros i Hi. apply Hg. lia. }
  exists keys. split; [done|]. split; [unfold blen; lia|]. intros i key Hi. apply (Hkeys i key Hi).
Qed.

(** ** Rounds *)

Section rounds.
  Context (firstValid interval : Z) (Hf : 1 <= firstValid < 2 ^ 62) (Hi : 1 <= interval < 2 ^ 62).
Notation c := ((firstValid - 1) / interval).

Lemma roundOfFirstIndex_spec : roundOfFirstIndex firstValid interval = (c + 1) * interval /\ 0 <= c /\ (c + 1) * interval < firstValid + interval /\
  firstValid <= (c + 1) * interval.
Proof.
  pose proof (Z.div_mod (firstValid - 1) interval ltac:(lia)) as Hdm. pose proof (Z.mod_pos_bound (firstValid - 1) interval ltac:(lia)).
  assert (0 <= c) by (apply Z.div_pos; lia).
  assert ((c + 1) * interval = interval * c + interval) as E by lia. unfold roundOfFirstIndex.
  rewrite (wrap64_small (firstValid + interval)), (wrap64_small (_ - 1)) by word.
  replace (firstValid + interval - 1) with (firstValid - 1 + 1 * interval) by lia. rewrite Z.div_add by lia.
  rewrite wrap64_small by word. split_and!; lia.
Qed.

Lemma roundToIndex_spec q : c < q -> q * interval < two64 -> roundToIndex firstValid (q * interval) interval = q - c - 1.
Proof.
  intros Hq Hb. destruct roundOfFirstIndex_spec as (E & Hc & H1 & H2). unfold roundToIndex. rewrite E.
  replace (q * interval - (c + 1) * interval) with ((q - c - 1) * interval) by lia.
  assert (0 <= (q - c - 1) * interval) by (apply Z.mul_nonneg_nonneg; lia).
  rewrite wrap64_small by (split; [done|]; replace ((q - c - 1) * interval) with (q * interval - (c + 1) * interval) by lia; word).
  by rewrite Z.div_mul by lia.
Qed.

(** Rounds before the first one wrap around to indexes behind every key. *)
Lemma roundToIndex_early q : 0 <= q <= c -> 2 ^ 63 / interval <= roundToIndex firstValid (q * interval) interval.
Proof.
  intros Hq. destruct roundOfFirstIndex_spec as (E & Hc & H1 & H2). unfold roundToIndex. rewrite E. apply Z.div_le_mono; [lia|].
  assert (q * interval <= c * interval) by (apply Z.mul_le_mono_nonneg_r; lia). assert (0 <= q * interval) by (apply Z.mul_nonneg_nonneg; lia).
  rewrite wrap64_under by word. word.
Qed.

Lemma indexToRound_spec pos : 0 <= pos -> (c + 1 + pos) * interval < 2 ^ 63 -> indexToRound firstValid interval pos = (c + 1 + pos) * interval.
Proof.
  intros Hp Hb. destruct roundOfFirstIndex_spec as (E & Hc & H1 & H2). unfold indexToRound. rewrite E.
  assert (0 <= pos * interval) by (apply Z.mul_nonneg_nonneg; lia). assert ((c + 1 + pos) * interval = (c + 1) * interval + pos * interval) as E2 by lia.
  rewrite (wrap64_small (pos * interval)) by word. rewrite wrap64_small by word. lia.
Qed.
End rounds.

(** A path that is shorter than the depth panics. *)
Lemma pathBytes_short size path n : forall i, (i <= length path < i + n)%nat -> pathBytes size path n i = Panic.
Proof.
  induction n as [|n IH]; intros i Hl; cbn [pathBytes]; [lia|]. destruct (path !! i) as [x|] eqn:E; [|done].
  apply lookup_lt_Some in E. rewrite IH by lia. done.
Qed.

(** One that is not does not. *)
Lemma pathBytes_long size path n : forall i, (i + n <= length path)%nat -> exists x, pathBytes size path n i = Ok x.
Proof.
  induction n as [|n IH]; intros i Hl; cbn [pathBytes]; [by eexists|]. destruct (path !! i) as [x|] eqn:E; [|apply lookup_ge_None in E; lia].
  destruct (IH (S i)) as [y ->]; [lia|]. by eexists.
Qed.

(** ** Signing and verifying *)

Section honest.
  (** Keys can be generated, and what they sign verifies. *)
  Context (Hgen : forall i, 0 <= i -> exists key, falcon_Generate i = Ok key).
  Context (Hsign : forall i key data, falcon_Generate i = Ok key ->
    exists s, falcon_SignCompressed (fs_PrivateKey key) data = Ok s /\ falcon_Verify (fs_PublicKey key) data s = Ok tt).

Lemma keyArray_elements keys fv iv : exists elem, forall i key, 0 <= i < blen keys -> keys !! Z.to_nat i = Some key ->
  arr_Marshal (committablePublicKeyArray keys fv iv) i = Ok (elem i) /\ elem i = CommittablePublicKey_ToBeHashed (fs_PublicKey key) (indexToRound fv iv i).
Proof.
  exists (fun i => CommittablePublicKey_ToBeHashed (fs_PublicKey (default (mkFalconSigner [] []) (keys !! Z.to_nat i))) (indexToRound fv iv i)).
  intros i key Hi Hk. cbn. unfold keyArray_Marshal. by rewrite Hk.
Qed.

(** The secrets that are made. *)
Lemma New_spec numCPU firstValid lastValid interval : 0 < numCPU < 2 ^ 32 -> 0 <= firstValid <= lastValid -> lastValid < 2 ^ 62 -> 1 <= interval < 2 ^ 62 ->
  let f := Z.max 1 firstValid in let c := (f - 1) / interval in
  exists keys tree root, New sum numCPU firstValid lastValid interval = Ok (mkSecrets keys (mkSignerContext f interval tree)) /\
    blen keys = lastValid / interval - c /\ (forall i key, keys !! i = Some key -> falcon_Generate (Z.of_nat i) = Ok key) /\
    GetVerifier (mkSignerContext f interval tree) = Ok root /\
    forall i key, 0 <= i < blen keys -> keys !! Z.to_nat i = Some key -> exists path d, (d <= 62)%nat /\ length path = d /\ i < 2 ^ Z.of_nat d /\
      ProveSingleLeaf sum tree i = Ok (mkProof path Sumhash (Z.of_nat d)) /\
      VerifyVectorCommitment sum root {[i := CommittablePublicKey_ToBeHashed (fs_PublicKey key) (indexToRound f interval i)]} (Some (mkProof path Sumhash (Z.of_nat d))) = Ok tt.
Proof.
  intros Hcpu Hfl Hl Hi f c. unfold New. destruct (Z.ltb_spec lastValid firstValid); [lia|]. destruct (Z.eqb_spec interval 0); [lia|]. cbn [failIf mbind outcome_bind].
  assert ((if firstValid =? 0 then 1 else firstValid) = f) as -> by (unfold f; destruct (Z.eqb_spec firstValid 0); lia).
  rewrite (wrap64_small (f - 1)) by (unfold f; word). fold c.
  assert (c <= lastValid / interval) by (apply Z.div_le_mono; lia). assert (0 <= c) by (apply Z.div_pos; lia).
  assert (lastValid / interval <= lastValid) by (apply Z.div_le_upper_bound; nia).
  rewrite wrap64_small by word. destruct (KeysBuilder_spec numCPU (lastValid / interval - c)) as (keys & -> & Hlen & Hkeys); [done|lia|intros; apply Hgen; lia|].
  cbn [mbind outcome_bind]. destruct (keyArray_elements keys f interval) as [elem Helem]. set (arr := committablePublicKeyArray keys f interval) in *.
  assert (forall i, 0 <= i < arr_Length arr -> arr_Marshal arr i = Ok (elem i)) as Hm.
  { intros i Hir. cbn in Hir. destruct (keys !! Z.to_nat i) as [key|] eqn:Ek; [by apply (Helem i key)|]. apply lookup_ge_None in Ek. unfold blen in Hir. lia. }
  assert (0 <= arr_Length arr <= 2 ^ 63) as Hal by (cbn; lia).
  destruct (prove_verify_vc sum Hsum Sumhash ltac:(done) arr elem Hal Hm) as (tree & root & Hb & Hr & d & Hd & Hnd & Hnd' & Hp).
  destruct (vc_tree sum Hsum Sumhash ltac:(done) arr elem tree root Hal Hm Hb Hr) as (_ & lvs & _ & _ & (_ & Hc & _ & Hlast) & _).
  pose proof (chain_root_size sum Hsum Sumhash ltac:(done) _ _ Hc Hlast) as Hsz. change (Z.to_nat (hash_Size Sumhash)) with 64%nat in Hsz.
  unfold MerkleSignatureSchemeHashFunction. rewrite Hb. cbn [mbind outcome_bind]. exists keys, tree, root. split_and!; [done|done|done| |].
  - unfold GetVerifier. cbn [sc_Tree]. rewrite Hr. cbn [mbind outcome_bind]. by rewrite take_app_length'.
  - intros i key Hir Hk. destruct (Hp [i]) as (proof & Hpr & Hpf & Hone & Hv); [intros j ->%list_elem_of_singleton; done|].
    destruct Hpf as [E1 E2]; [done|]. specialize (Hone eq_refl). destruct proof as [path hf td]. cbn in E1, E2, Hone. subst hf td. exists path, d.
    cbn in Hnd, Hnd', Hal. assert (d <= 62)%nat.
    { destruct Hnd' as [->|Hnd']; [lia|]. assert (Z.of_nat (d - 1) < 62) by (apply (Z.pow_lt_mono_r_iff 2); lia). lia. }
    split_and!; [done|done|lia|done|]. rewrite elems_at_singleton in Hv. by destruct (Helem i key Hir Hk) as [_ <-].
Qed.

(** The key for a round. *)
Lemma GetKey_spec keys f interval tree lastValid round : 1 <= f < 2 ^ 62 -> 1 <= interval < 2 ^ 62 -> 0 <= lastValid < 2 ^ 62 -> is_u64 round ->
  blen keys = lastValid / interval - (f - 1) / interval ->
  GetKey (mkSecrets keys (mkSignerContext f interval tree)) round =
    Ok (if (f <=? round) && (round <=? lastValid) && (round mod interval =? 0)
        then keys !! Z.to_nat (round / interval - (f - 1) / interval - 1) else None).
Proof.
  intros Hf Hi Hl Hr Hlen. unfold GetKey. cbn [sec_SignerContext sc_Interval sc_FirstValid sec_ephemeralKeys].
  destruct (Z.eqb_spec interval 0); [lia|]. destruct (Z.eqb_spec (round mod interval) 0) as [Em|Em]; cbn [negb]; [|by rewrite orb_true_r, andb_false_r].
  rewrite orb_false_r, andb_true_r. pose proof (Z.div_mod round interval ltac:(lia)) as Hdm. assert (0 <= round / interval) by (apply Z.div_pos; word).
  generalize dependent (round / interval). intros q Hdm Hq0. set (c := (f - 1) / interval) in *.
  assert (round = q * interval) by lia. subst round. clear Hdm Em.
  destruct (roundOfFirstIndex_spec f interval Hf Hi) as (_ & Hc & Hc1 & Hc2). fold c in Hc, Hc1, Hc2.
  destruct (Z.lt_ge_cases c q) as [Hq|Hq].
  - rewrite (roundToIndex_spec f interval Hf Hi q) by (fold c; word). fold c.
    assert ((c + 1) * interval <= q * interval) by (apply Z.mul_le_mono_nonneg_r; lia).
    rewrite (proj2 (Z.leb_le f (q * interval))) by lia. cbn [andb]. rewrite Hlen.
    destruct (Z.leb_spec (q * interval) lastValid) as [Hle|Hgt].
    + apply Z.div_le_mono with (c := interval) in Hle; [|lia]. rewrite Z.div_mul in Hle by lia. by rewrite (proj2 (Z.leb_gt _ _)) by lia.
    + assert (lastValid / interval < q) by (apply Z.div_lt_upper_bound; lia). by rewrite (proj2 (Z.leb_le _ _)) by lia.
  - pose proof (roundToIndex_early f interval Hf Hi q ltac:(fold c; lia)) as He.
    assert (lastValid / interval <= 2 ^ 63 / interval) by (apply Z.div_le_mono; lia). rewrite (proj2 (Z.leb_le (blen keys) _)) by lia.
    assert (q * interval <= c * interval) by (apply Z.mul_le_mono_nonneg_r; lia).
    assert (c * interval < f) by (pose proof (Z.div_mod (f - 1) interval ltac:(lia)) as Hd; pose proof (Z.mod_pos_bound (f - 1) interval ltac:(lia)); fold c in Hd; lia).
    by rewrite (proj2 (Z.leb_gt _ _)) by lia.
Qed.

(** The signatures of a signer, with their parts; other rounds have no key. *)
Lemma honest_signature numCPU firstValid lastValid interval :
  0 < numCPU < 2 ^ 32 -> 0 <= firstValid <= lastValid -> lastValid < 2 ^ 62 -> 1 <= interval < 2 ^ 62 ->
  exists secrets v, New sum numCPU firstValid lastValid interval = Ok secrets /\ GetVerifier (sec_SignerContext secrets) = Ok v /\
    forall round msg, is_u64 round -> exists signer, GetSigner secrets round = Ok signer /\
      if (Z.max 1 firstValid <=? round) && (round <=? lastValid) && (round mod interval =? 0)
      then exists sk s idx path d pk, Signer_Sign sum signer msg = Ok (mkSignature s idx (mkProof path Sumhash (Z.of_nat d)) pk) /\
        falcon_SignCompressed sk (sum Sha512_256 (HashRep msg)) = Ok s /\ falcon_Verify pk (sum Sha512_256 (HashRep msg)) s = Ok tt /\
        (d <= 62)%nat /\ length path = d /\ 0 <= idx < 2 ^ Z.of_nat d /\
        VerifyVectorCommitment sum v {[idx := CommittablePublicKey_ToBeHashed pk round]} (Some (mkProof path Sumhash (Z.of_nat d))) = Ok tt
      else Signer_Sign sum signer msg = Err (Errorf "no stateproof key exists for this round").
Proof.
  intros Hcpu Hfl Hl Hi. destruct (New_spec numCPU firstValid lastValid interval Hcpu Hfl Hl Hi) as (keys & tree & root & Hnew & Hlen & Hkeys & Hv & Hp).
  set (f := Z.max 1 firstValid) in *. set (c := (f - 1) / interval) in *. eexists _, root. split; [exact Hnew|]. split; [done|].
  intros round msg Hr. unfold GetSigner. rewrite (GetKey_spec keys f interval tree lastValid round) by (unfold f; done || lia). cbn [mbind outcome_bind sec_SignerContext].
  eexists. split; [done|]. destruct ((f <=? round) && (round <=? lastValid) && (round mod interval =? 0)) eqn:Hcond; [|done].
  apply andb_true_iff in Hcond as [[H1%Z.leb_le H2%Z.leb_le]%andb_true_iff H3]. pose proof H3 as H3'. apply Z.eqb_eq in H3'. fold c.
  pose proof (Z.div_mod round interval ltac:(lia)) as Hdm. rewrite H3', Z.add_0_r in Hdm. set (q := round / interval) in *.
  assert (c < q <= lastValid / interval) as Hq.
  { split; [|apply Z.div_le_mono; lia]. destruct (Z.lt_ge_cases c q) as [|Hge]; [done|].
    pose proof (Z.div_mod (f - 1) interval ltac:(lia)) as Hd. pose proof (Z.mod_pos_bound (f - 1) interval ltac:(lia)). fold c in Hd.
    assert (interval * q <= interval * c) by (apply Z.mul_le_mono_nonneg_l; lia). lia. }
  assert (0 <= c) by (apply Z.div_pos; lia). set (idx := q - c - 1). destruct (keys !! Z.to_nat idx) as [key|] eqn:Ek.
  2: { apply lookup_ge_None in Ek. unfold blen in Hlen. lia. }
  assert (0 <= idx < blen keys) as Hidx by lia. destruct (Hp idx key Hidx Ek) as (path & d & Hd & Hpath & Hid & Hpr & Hver).
  destruct (Hsign (Z.of_nat (Z.to_nat idx)) key (sum Sha512_256 (HashRep msg)) (Hkeys _ _ Ek)) as (s & Hs & Hvs).
  exists (fs_PrivateKey key), s, idx, path, d, (fs_PublicKey key). unfold Signer_Sign. cbn [sg_SigningKey sg_SignerContext sc_FirstValid sc_Interval sg_Round sc_Tree].
  assert (1 <= f < 2 ^ 62) as Hf by (unfold f; lia).
  assert (roundToIndex f round interval = idx) as ->. { rewrite Hdm, Z.mul_comm. apply roundToIndex_spec; [done|done|fold c; lia|word]. }
  assert (checkMerkleSignatureSchemeParams f round interval = Ok tt) as ->.
  { unfold checkMerkleSignatureSchemeParams. rewrite (proj2 (Z.eqb_neq interval 0)), (proj2 (Z.eqb_neq round 0)), H3, (proj2 (Z.ltb_ge round f)) by lia. done. }
  cbn [mbind outcome_bind]. rewrite Hpr. cbn [mbind outcome_bind]. unfold FalconSigner_Sign. rewrite Hs. split; [done|]. split; [done|]. split; [done|].
  split; [done|]. split; [done|]. split; [lia|]. rewrite (indexToRound_spec f interval Hf Hi idx) in Hver by (fold c; lia). fold c in Hver.
  assert ((c + 1 + idx) * interval = round) as E by (rewrite Hdm; unfold idx; lia). by rewrite E in Hver.
Qed.

(** C26 (roundtrip): for every validity period and interval, the secrets that are made sign
    for exactly the rounds of the period that are multiples of the interval, round zero
    excepted, and every such signature verifies under the public key for that round; for
    every other round signing reports that there is no key. *)
Theorem sign_verifies numCPU firstValid lastValid interval :
  0 < numCPU < 2 ^ 32 -> 0 <= firstValid <= lastValid -> lastValid < 2 ^ 62 -> 1 <= interval < 2 ^ 62 ->
  exists secrets v, New sum numCPU firstValid lastValid interval = Ok secrets /\ GetVerifier (sec_SignerContext secrets) = Ok v /\
    forall round msg, is_u64 round -> exists signer, GetSigner secrets round = Ok signer /\
      if (Z.max 1 firstValid <=? round) && (round <=? lastValid) && (round mod interval =? 0)
      then exists sig, Signer_Sign sum signer msg = Ok sig /\ Verifier_Verify sum v round msg sig = Ok tt
      else Signer_Sign sum signer msg = Err (Errorf "no stateproof key exists for this round").
Proof.
  intros Hcpu Hfl Hl Hi. destruct (honest_signature numCPU firstValid lastValid interval Hcpu Hfl Hl Hi) as (secrets & v & H1 & H2 & H3).
  exists secrets, v. split; [done|]. split; [done|]. intros round msg Hr. destruct (H3 round msg Hr) as (signer & H4 & H5). exists signer. split; [done|].
  case_match; [|done]. destruct H5 as (sk & s & idx & path & d & pk & Hs & _ & Hv & _ & _ & _ & Hvc). eexists. split; [done|].
  unfold Verifier_Verify, FalconVerifier_Verify. cbn [sig_MerkleArrayIndex sig_VerifyingKey sig_Proof sig_Signature]. by rewrite Hvc, Hv.
Qed.

(** A signature that claims another depth: it verifies and has no representation. *)
Lemma altered_signature round msg v s idx path d pk : (d <= 62)%nat -> length path = d -> 0 <= idx < 2 ^ Z.of_nat d ->
  falcon_Verify pk (sum Sha512_256 (HashRep msg)) s = Ok tt -> (exists x, falcon_ConvertToCT s = Ok x) ->
  VerifyVectorCommitment sum v {[idx := CommittablePublicKey_ToBeHashed pk round]} (Some (mkProof path Sumhash (Z.of_nat d))) = Ok tt ->
  let sig := mkSignature s (2 * idx) (mkProof path Sumhash (Z.of_nat (S d))) pk in
  Verifier_Verify sum v round msg sig = Ok tt /\ Signature_GetFixedLengthHashableRepresentation sig = Panic.
Proof.
  intros Hd Hpath Hid Hv [x Hx] Hvc sig. split.
  - unfold Verifier_Verify, FalconVerifier_Verify. cbn [sig_MerkleArrayIndex sig_VerifyingKey sig_Proof sig_Signature sig].
    rewrite (Verify_vc_deeper sum Sumhash v idx _ path d) by (done || lia). cbn [mbind outcome_bind]. by rewrite Hv.
  - unfold Signature_GetFixedLengthHashableRepresentation. cbn [sig_Signature sig sig_Proof]. rewrite Hx. cbn [mbind outcome_bind].
    unfold Proof_GetFixedLengthHashableRepresentation. cbn [pf_HashFactory pf_TreeDepth pf_Path]. rewrite Nat2Z.id.
    rewrite pathBytes_short by (rewrite Hpath; lia). done.
Qed.
End honest.
End scheme.

(** A toy scheme in which a signature is the key with the data. *)
#[export] Instance toyFalcon : Falcon := {|
  falcon_Generate := fun i => Ok (mkFalconSigner [7; i] [7; i]);
  falcon_SignCompressed := fun sk data => Ok (186 :: sk ++ data);
  falcon_Verify := fun pk data sig => if bool_decide (sig = 186 :: pk ++ data) then Ok tt else Err (Errorf "falcon verify failed");
  falcon_ConvertToCT := fun sig => Ok sig |}.

Lemma sign_verifies_witness : exists secrets v signer sig, New digitSum 4 100 1000 256 = Ok secrets /\
  GetVerifier (sec_SignerContext secrets) = Ok v /\ GetSigner secrets 512 = Ok signer /\
  Signer_Sign digitSum signer (letters 3) = Ok sig /\ Verifier_Verify digitSum v 512 (letters 3) sig = Ok tt.
Proof.
  destruct (@sign_verifies toyFalcon digitSum (fun h m _ => digitSum_size h m)
    (fun i _ => ex_intro _ _ eq_refl)) with (numCPU := 4) (firstValid := 100) (lastValid := 1000) (interval := 256) as (secrets & v & H1 & H2 & H3).
  - intros i key data [= <-]. eexists. split; [done|]. cbn. by rewrite bool_decide_eq_true_2.
  - lia.
  - lia.
  - lia.
  - lia.
  - destruct (H3 512 (letters 3)) as (signer & H4 & sig & H5 & H6); [word|]. by exists secrets, v, signer, sig.
Defined.
