(* ===== verification/CertFacts.v ===== *)
(** Facts about [CertBuilder]: what a builder knows of its signatures, the binary search for
    a coin, and the choice of reveals. *)
From S2P Require Import Prelude Config Basics BigFloat MerkleArray MerkleFacts MerkleCorrect MerkleSignature CertBuilder.
#[local] Open Scope string_scope.
#[local] Open Scope list_scope.
#[local] Open Scope Z_scope.

(** The weight of the slots before a position. *)
Definition prefix (sigs : list sigslot) (i : Z) : Z := sumZ ss_Weight (take (Z.to_nat i) sigs).

Lemma prefix_step sigs i s : 0 <= i -> sigs !! Z.to_nat i = Some s -> prefix sigs (i + 1) = prefix sigs i + ss_Weight s.
Proof.
  intros Hi Hs. unfold prefix. replace (Z.to_nat (i + 1)) with (S (Z.to_nat i)) by lia.
  rewrite (take_S_r _ _ _ Hs), sumZ_app. cbn. lia.
Qed.
Lemma prefix_all sigs : prefix sigs (blen sigs) = sumZ ss_Weight sigs.
Proof. unfold prefix, blen. by rewrite Nat2Z.id, firstn_all. Qed.

(** Weights are natural and their sum is a word. *)
Definition weights_ok (sigs : list sigslot) : Prop := Forall (fun s => 0 <= ss_Weight s) sigs /\ sumZ ss_Weight sigs < two64.

Lemma weights_take sigs i : weights_ok sigs -> 0 <= sumZ ss_Weight (take i sigs) <= sumZ ss_Weight sigs.
Proof.
  intros [Hw _]. rewrite <- (take_drop i sigs) at 3. rewrite sumZ_app.
  assert (forall l, Forall (fun s => 0 <= ss_Weight s) l -> 0 <= sumZ ss_Weight l) as Hn.
  { intros l Hl. apply sumZ_nonneg. intros s Hs. by eapply Forall_forall in Hl. }
  pose proof (Hn _ (Forall_take _ i _ Hw)). pose proof (Hn _ (Forall_drop _ i _ Hw)). lia.
Qed.
Lemma prefix_range sigs i : weights_ok sigs -> 0 <= prefix sigs i <= sumZ ss_Weight sigs.
Proof. apply weights_take. Qed.

Lemma prefix_mono sigs i j : weights_ok sigs -> 0 <= i <= j -> prefix sigs i <= prefix sigs j.
Proof.
  intros Hw Hij. assert (weights_ok (take (Z.to_nat j) sigs)) as Hw'.
  { split; [by apply Forall_take, Hw|]. pose proof (weights_take sigs (Z.to_nat j) Hw). destruct Hw. lia. }
  pose proof (weights_take _ (Z.to_nat i) Hw') as H. rewrite take_take, Nat.min_l in H by lia. unfold prefix. lia.
Qed.

(** Slots with the sums of the weights before them. *)
Definition has_prefixes (sigs : list sigslot) : Prop := forall i s, 0 <= i -> sigs !! Z.to_nat i = Some s -> sc_L (ss_Commit s) = prefix sigs i.

Lemma setL_lookup sigs : forall l i s', setL l sigs !! i = Some s' -> exists s, sigs !! i = Some s /\ ss_Weight s' = ss_Weight s /\
  sc_Sig (ss_Commit s') = sc_Sig (ss_Commit s).
Proof.
  induction sigs as [|s sigs IH]; intros l [|i] s' Hi; cbn in Hi; [done..| |].
  - injection Hi as <-. by exists s.
  - apply IH in Hi as (s0 & ? & ? & ?). by exists s0.
Qed.
Lemma setL_weights l sigs : map ss_Weight (setL l sigs) = map ss_Weight sigs.
Proof. revert l. induction sigs as [|s sigs IH]; intros l; cbn; [done|]. by rewrite IH. Qed.

Lemma sum_weights (sigs : list sigslot) : sumZ ss_Weight sigs = sumZ id (map ss_Weight sigs).
Proof. induction sigs as [|s sigs IH]; cbn; [done|]. by rewrite IH. Qed.

Lemma setL_sums sigs : forall l i s', weights_ok sigs -> 0 <= l -> l + sumZ ss_Weight sigs < two64 -> setL l sigs !! i = Some s' ->
  sc_L (ss_Commit s') = l + sumZ ss_Weight (take i sigs).
Proof.
  induction sigs as [|s sigs IH]; intros l i s' Hw Hl Hb Hi; [done|]. destruct Hw as [Hw Hs]. apply Forall_cons in Hw as [Hs0 Hw]. cbn in Hs, Hb.
  assert (weights_ok sigs) as Hok by (split; [done|lia]). pose proof (weights_take sigs 0 Hok). cbn in H.
  assert (0 <= sumZ ss_Weight sigs) by lia. destruct i as [|i]; cbn in Hi.
  - injection Hi as <-. cbn. lia.
  - rewrite wrap64_small in Hi by word. cbn [take sumZ]. rewrite (IH (l + ss_Weight s) i s' Hok) by (done || lia). lia.
Qed.

Lemma setLs_lookup sigs i s' : setLs sigs !! i = Some s' ->
  exists s, sigs !! i = Some s /\ ss_Weight s' = ss_Weight s /\ sc_Sig (ss_Commit s') = sc_Sig (ss_Commit s).
Proof. destruct sigs as [|s sigs]; [done|]. destruct i as [|i]; cbn; intros Hi; [injection Hi as <-; by exists s|]. by apply setL_lookup in Hi. Qed.
Lemma setLs_length sigs : length (setLs sigs) = length sigs.
Proof. destruct sigs as [|s sigs]; [done|]. cbn. by rewrite <- (length_map ss_Weight), setL_weights, length_map. Qed.

Lemma setLs_spec sigs : weights_ok sigs -> (forall s, head sigs = Some s -> sc_L (ss_Commit s) = 0) ->
  let sigs' := setLs sigs in
  has_prefixes sigs' /\ map ss_Weight sigs' = map ss_Weight sigs /\ length sigs' = length sigs /\
  forall i s', sigs' !! i = Some s' -> exists s, sigs !! i = Some s /\ ss_Weight s' = ss_Weight s /\ sc_Sig (ss_Commit s') = sc_Sig (ss_Commit s).
Proof.
  intros Hw Hh sigs'. subst sigs'. destruct sigs as [|s sigs]; [split_and!; try done; by intros|]. cbn [setLs]. rewrite (Hh s eq_refl).
  destruct Hw as [Hw Hs]. apply Forall_cons in Hw as [Hs0 Hw]. cbn in Hs. assert (weights_ok sigs) as Hok.
  { split; [done|]. lia. }
  pose proof (weights_take sigs 0 Hok) as Hn. cbn in Hn. rewrite wrap64_small by word. set (rest := setL (0 + ss_Weight s) sigs).
  assert (map ss_Weight rest = map ss_Weight sigs) as Em by apply setL_weights.
  assert (length rest = length sigs) as El by (rewrite <- (length_map ss_Weight rest), Em; by rewrite length_map). split_and!.
  - intros i s' Hi Hs'. destruct (Z.to_nat i) as [|k] eqn:Ei; cbn in Hs'.
    + injection Hs' as <-. rewrite (Hh s eq_refl). unfold prefix. by rewrite Ei.
    + rewrite (setL_sums sigs (0 + ss_Weight s) k s') by (done || lia). unfold prefix. rewrite Ei. cbn [take sumZ].
      rewrite (sum_weights (take k rest)), (sum_weights (take k sigs)), <- !firstn_map, Em. cbn. lia.
  - cbn. by rewrite Em.
  - cbn. by rewrite El.
  - intros [|i] s' Hi; cbn in Hi; [injection Hi as <-; by exists s|]. apply setL_lookup in Hi. done.
Qed.

(** ** Finding a coin *)

Lemma coinIndex_loop_spec sigs coin : has_prefixes sigs -> weights_ok sigs -> blen sigs < 2 ^ 63 ->
  forall fuel lo hi, 0 <= lo -> 0 <= hi <= blen sigs -> hi - lo <= Z.of_nat fuel -> prefix sigs lo <= coin < prefix sigs hi ->
  exists pos s, coinIndex_loop fuel sigs coin lo hi = Ok pos /\ 0 <= pos < blen sigs /\ sigs !! Z.to_nat pos = Some s /\
    prefix sigs pos <= coin < prefix sigs pos + ss_Weight s.
Proof.
  intros Hp Hw Hlen. induction fuel as [|fuel IH]; intros lo hi Hlo Hhi Hf Hc.
  all: assert (lo < hi) as Hlt by (destruct (Z.lt_ge_cases lo hi) as [|Hge]; [done|]; exfalso;
    pose proof (prefix_mono sigs hi lo Hw); lia).
  - lia.
  - cbn [coinIndex_loop]. rewrite (proj2 (Z.leb_gt _ _)) by lia. rewrite (wrap64_small (lo + hi)) by word.
    assert (lo <= (lo + hi) / 2 < hi) as Hmid by (split; [apply Z.div_le_lower_bound; lia|apply Z.div_lt_upper_bound; lia]).
    set (mid := (lo + hi) / 2) in *. destruct (sigs !! Z.to_nat mid) as [s|] eqn:Es; [|apply lookup_ge_None in Es; unfold blen in *; lia].
    rewrite (Hp mid s) by (done || lia). pose proof (prefix_step sigs mid s ltac:(lia) Es) as Hst. pose proof (prefix_range sigs (mid + 1) Hw). destruct Hw as [Hw0 Hw1].
    pose proof (prefix_range sigs mid (conj Hw0 Hw1)). rewrite (wrap64_small (_ + _)) by word.
    destruct (Z.ltb_spec coin (prefix sigs mid)); [apply (IH lo mid); lia|].
    destruct (Z.ltb_spec coin (prefix sigs mid + ss_Weight s)); [exists mid, s; split_and!; done || lia|].
    rewrite wrap64_small by word. apply (IH (mid + 1) hi); lia.
Qed.

Lemma coinIndex_spec b coin : b_sigsHasValidL b = true -> has_prefixes (b_sigs b) -> weights_ok (b_sigs b) -> blen (b_sigs b) < 2 ^ 63 ->
  0 <= coin < sumZ ss_Weight (b_sigs b) ->
  exists pos s, coinIndex b coin = Ok pos /\ 0 <= pos < blen (b_sigs b) /\ b_sigs b !! Z.to_nat pos = Some s /\
    prefix (b_sigs b) pos <= coin < prefix (b_sigs b) pos + ss_Weight s.
Proof.
  intros Hv Hp Hw Hlen Hc. unfold coinIndex. rewrite Hv. cbn [negb]. apply coinIndex_loop_spec; try done; [unfold blen; lia..|].
  rewrite prefix_all. unfold prefix. change (Z.to_nat 0) with 0%nat. by rewrite take_0.
Qed.

(** ** The state of a builder *)

Lemma alter_at {A} (f : A -> A) i (l : list A) x : l !! i = Some x -> alter f i l = <[i := f x]> l.
Proof.
  intros Hx. apply list_eq. intros j. destruct (decide (j = i)) as [->|].
  - rewrite list_lookup_alter_eq, Hx, list_lookup_insert_eq; [done|]. by apply lookup_lt_Some in Hx.
  - by rewrite list_lookup_alter_ne, list_lookup_insert_ne by done.
Qed.

Section builder.
  Context {F : Falcon} (sum : Z -> bytes -> bytes) (encodeCoin : coinChoice -> bytes).
  Context (params : Params) (parts : list Participant) (parttree : Tree).

(** A slot is empty, or holds the weight of its participant and a signature that verifies. *)
Definition slot_ok (p : Participant) (s : sigslot) : Prop :=
  (ss_Weight s = 0 /\ sc_Sig (ss_Commit s) = zeroSignature) \/
  (ss_Weight s <> 0 /\ ss_Weight s = part_Weight p /\
   Verifier_Verify sum (part_PK p) (pa_SigRound params) (pa_Msg params) (sc_Sig (ss_Commit s)) = Ok tt).

Record builder_inv (b : Builder) : Prop := {
  bi_params : b_Params b = params;
  bi_parts : b_participants b = parts;
  bi_tree : b_parttree b = parttree;
  bi_slots : Forall2 slot_ok parts (b_sigs b);
  bi_first : forall s, head (b_sigs b) = Some s -> sc_L (ss_Commit s) = 0;
  bi_weight : b_signedWeight b = sumZ ss_Weight (b_sigs b);
  bi_cert : b_cert b = None }.

(** Runs of a builder: signatures are added, accepted or not, and certificates are built. *)
Inductive collects : Builder -> Prop :=
| collects_start : collects (MkBuilder params parts parttree)
| collects_add b pos sig r b' : collects b -> 0 <= pos -> Add sum pos sig true b = (r, b') -> collects b'
| collects_build b r b' : collects b -> Build_ sum encodeCoin b = (r, b') -> collects b'.

Context (Hweights : Forall (fun p => 0 <= part_Weight p) parts) (Htotal : sumZ part_Weight parts < two64).

Lemma slots_weights sigs : Forall2 slot_ok parts sigs -> weights_ok sigs /\ sumZ ss_Weight sigs <= sumZ part_Weight parts.
Proof.
  intros Hs. assert (Forall (fun s => 0 <= ss_Weight s) sigs /\ sumZ ss_Weight sigs <= sumZ part_Weight parts) as [H1 H2]; [|split; [split; [done|lia]|done]].
  clear Htotal. induction Hs as [|p s ps ss Hp Hs IH]; [split; [constructor|done]|]. apply Forall_cons in Hweights as [Hp0 Hps]. destruct (IH Hps) as [IH1 IH2].
  destruct Hp as [[E _]|(_ & E & _)]; split; try constructor; try done; cbn; lia.
Qed.

(** A signature that is accepted. *)
Lemma Add_accepts pos sig b s p : b_sigs b !! Z.to_nat pos = Some s -> ss_Weight s = 0 -> b_participants b !! Z.to_nat pos = Some p -> part_Weight p <> 0 ->
  Verifier_Verify sum (part_PK p) (pa_SigRound (b_Params b)) (pa_Msg (b_Params b)) sig = Ok tt ->
  Add sum pos sig true b =
    (Ok tt, b <| b_sigs := <[Z.to_nat pos := mksigslot (part_Weight p) (mksigslotCommit sig (sc_L (ss_Commit s)))]> (b_sigs b) |>
              <| b_signedWeight := wrap64 (b_signedWeight b + part_Weight p) |> <| b_cert := None |> <| b_sigsHasValidL := false |>).
Proof.
  intros Hs Hs0 Hp Hp0 Hv. unfold Add, Present. unfold mbind, M_bind, throwIf, lift, gets, modify. rewrite Hs, Hs0. cbn [Z.eqb negb failIf]. rewrite Hp.
  rewrite (proj2 (Z.eqb_neq _ _) Hp0). cbn [failIf]. rewrite Hv. by rewrite (alter_at _ _ _ _ Hs).
Qed.

Lemma MkBuilder_inv : builder_inv (MkBuilder params parts parttree).
Proof.
  constructor; cbn; try done.
  - clear. induction parts; cbn; constructor; [by left|done].
  - destruct parts; cbn; [done|]. by intros s [= <-].
  - clear. induction parts; cbn; [done|]. by rewrite <- IHl.
Qed.

Lemma Add_inv pos sig b r b' : 0 <= pos -> builder_inv b -> Add sum pos sig true b = (r, b') -> builder_inv b'.
Proof.
  intros Hpos [H1 H2 H3 H4 H5 H6 H7] Hadd. unfold Add, Present in Hadd. unfold mbind, M_bind, throwIf, lift, gets, modify, throw in Hadd.
  destruct (b_sigs b !! Z.to_nat pos) as [s|] eqn:Es; [|by injection Hadd as _ <-; constructor].
  destruct (Z.eqb_spec (ss_Weight s) 0) as [Ew|]; cbn -[Verifier_Verify] in Hadd; [|by injection Hadd as _ <-; constructor].
  destruct (b_participants b !! Z.to_nat pos) as [p|] eqn:Ep; [|by injection Hadd as _ <-; constructor].
  destruct (Z.eqb_spec (part_Weight p) 0); cbn -[Verifier_Verify] in Hadd; [by injection Hadd as _ <-; constructor|]. rewrite H1 in Hadd.
  destruct (Verifier_Verify sum (part_PK p) (pa_SigRound params) (pa_Msg params) sig) as [[]| |] eqn:Ev; [|cbn -[Verifier_Verify] in Hadd; by injection Hadd as _ <-; constructor..].
  injection Hadd as _ <-. rewrite H2 in Ep. set (new := mksigslot (part_Weight p) (mksigslotCommit sig (sc_L (ss_Commit s)))).
  pose proof (alter_at (fun s0 => mksigslot (part_Weight p) (mksigslotCommit sig (sc_L (ss_Commit s0)))) (Z.to_nat pos) (b_sigs b) s Es) as Ea.
  cbv beta in Ea. fold new in Ea.
  assert (Forall2 slot_ok parts (<[Z.to_nat pos := new]> (b_sigs b))) as Hf2.
  { rewrite <- (list_insert_id parts (Z.to_nat pos) p Ep). apply Forall2_insert; [done|]. right. done. }
  assert (sumZ ss_Weight (<[Z.to_nat pos := new]> (b_sigs b)) = sumZ ss_Weight (b_sigs b) + part_Weight p) as Hsum.
  { rewrite <- (take_drop_middle (b_sigs b) (Z.to_nat pos) s Es) at 2. rewrite insert_take_drop by (by apply lookup_lt_Some in Es).
    rewrite !sumZ_app. cbn. rewrite Ew. lia. }
  destruct (slots_weights _ Hf2) as [[_ Hlt] _]. pose proof (weights_take _ 0 (proj1 (slots_weights _ H4))) as H0. rewrite take_0 in H0. cbn in H0.
  eapply Forall_lookup_1 in Hweights as Hp0; [|done]. cbn in Hp0.
  constructor; cbn; try done.
  - by rewrite Ea.
  - rewrite Ea. intros s0 Hs0. destruct (b_sigs b) as [|s1 rest]; [done|]. destruct (Z.to_nat pos) as [|k] eqn:Ek; cbn in *; [|by apply H5].
    injection Es as ->. injection Hs0 as <-. cbn. by apply H5.
  - rewrite Ea, Hsum, H6. apply wrap64_small. rewrite Hsum in Hlt. split; lia.
Qed.

Lemma setLs_inv b : builder_inv b -> builder_inv (b <| b_sigs := setLs (b_sigs b) |> <| b_sigsHasValidL := true |>).
Proof.
  intros [H1 H2 H3 H4 H5 H6 H7]. destruct (slots_weights _ H4) as [Hw _]. destruct (setLs_spec (b_sigs b) Hw H5) as (Hp & Em & El & Hl).
  constructor; cbn; try done.
  - apply Forall2_same_length_lookup_2; [rewrite El; by apply Forall2_length in H4|]. intros i p s' Hpi Hsi. destruct (Hl i s' Hsi) as (s & Hs & E1 & E2).
    pose proof (Forall2_lookup_lr _ _ _ _ _ _ H4 Hpi Hs) as Hok. unfold slot_ok in *. by rewrite E1, E2.
  - intros s Hs. rewrite (Hp 0 s); [done|lia|]. by rewrite <- head_lookup.
  - rewrite H6, !sum_weights. by rewrite Em.
Qed.

Lemma collects_inv b : collects b -> builder_inv b.
Proof.
  induction 1 as [|b pos sig r b' _ IH Hp Ha|b r b' _ IH Hb]; [apply MkBuilder_inv|by eapply Add_inv|].
  unfold Build_ in Hb. rewrite (bi_cert _ IH) in Hb. destruct (_ <=? _); simplify_eq/=; [done|]. by apply setLs_inv.
Qed.
End builder.
