(* ===== verification/CertCorrect.v ===== *)
(** Compact certificates are correct: a certificate that a builder makes of the signatures
    it collected verifies.  And a verifier can be made to panic. *)
From S2P Require Import Prelude Config Basics BigFloat MerkleArray MerkleFacts MerkleCorrect MerkleSignature MerkleSignatureCorrect.
From S2P Require Import CertBuilder CertFacts.
#[local] Open Scope string_scope.
#[local] Open Scope list_scope.
#[local] Open Scope Z_scope.

Section certs.
  Context {F : Falcon} (sum : Z -> bytes -> bytes) (encodeCoin : coinChoice -> bytes).
  Context (Hsum : forall h m, 0 <= h < MaxHashType -> length (sum h m) = Z.to_nat (hash_Size h)).

(** ** Choosing reveals *)

Lemma hashCoin_range choice : 0 < cc_SignedWeight choice < two64 ->
  exists coin, hashCoin sum encodeCoin choice = Ok coin /\ 0 <= coin < cc_SignedWeight choice.
Proof.
  intros Hw. unfold hashCoin. destruct (Z.eqb_spec (cc_SignedWeight choice) 0); [lia|]. eexists. split; [done|].
  match goal with |- context [?x mod cc_SignedWeight choice] => pose proof (Z.mod_pos_bound x (cc_SignedWeight choice) ltac:(lia)) end.
  rewrite wrap64_small by word. done.
Qed.

Section choosing.
  Context (params : Params) (parts : list Participant) (parttree : Tree) (b : Builder).
  Context (Hslots : Forall2 (slot_ok sum params) parts (b_sigs b)) (Hparts : b_participants b = parts).
  Context (Hw : weights_ok (b_sigs b)) (Hp : has_prefixes (b_sigs b)) (HL : b_sigsHasValidL b = true) (Hlen : blen (b_sigs b) < 2 ^ 63).
  Context (choice : Z -> coinChoice) (Hchoice : forall j, cc_SignedWeight (choice j) = sumZ ss_Weight (b_sigs b)) (Hpos : 0 < sumZ ss_Weight (b_sigs b)).

(** A reveal of a slot that has a signature. *)
Definition reveal_of (pos : Z) (r : Reveal) : Prop :=
  exists s p, 0 <= pos /\ b_sigs b !! Z.to_nat pos = Some s /\ parts !! Z.to_nat pos = Some p /\ r = mkReveal (ss_Commit s) p /\
    ss_Weight s <> 0 /\ ss_Weight s = part_Weight p /\
    Verifier_Verify sum (part_PK p) (pa_SigRound params) (pa_Msg params) (sc_Sig (ss_Commit s)) = Ok tt.

Definition reveals_ok (reveals : gmap Z Reveal) (positions : list Z) : Prop :=
  (forall pos, pos ∈ positions <-> is_Some (reveals !! pos)) /\ forall pos r, reveals !! pos = Some r -> reveal_of pos r.

Lemma chooseReveals_spec n : forall j reveals positions, reveals_ok reveals positions ->
  exists reveals' positions', chooseReveals sum encodeCoin b choice n j reveals positions = Ok (reveals', positions') /\
    reveals_ok reveals' positions' /\ (forall pos r, reveals !! pos = Some r -> reveals' !! pos = Some r) /\
    forall i, j <= i < j + Z.of_nat n -> exists coin pos r, hashCoin sum encodeCoin (choice i) = Ok coin /\ reveals' !! pos = Some r /\ matchesCoin coin r = true.
Proof.
  pose proof (proj2 Hw) as Hw64.
  induction n as [|n IH]; intros j reveals positions Hok; cbn [chooseReveals]; [exists reveals, positions; split_and!; [done..|lia]|].
  destruct (hashCoin_range (choice j)) as (coin & Hcoin & Hrange); [rewrite Hchoice; lia|]. rewrite Hcoin. cbn [mbind outcome_bind]. rewrite Hchoice in Hrange.
  destruct (coinIndex_spec b coin HL Hp Hw Hlen Hrange) as (pos & s & -> & Hpr & Hs & Hin). cbn [mbind outcome_bind]. rewrite Hparts.
  destruct (parts !! Z.to_nat pos) as [p|] eqn:Epart.
  2: { apply lookup_ge_None in Epart. apply lookup_lt_Some in Hs. apply Forall2_length in Hslots. lia. }
  pose proof (Forall2_lookup_lr _ _ _ _ _ _ Hslots Epart Hs) as [[E0 _]|(Hne & Ew & Hv)]; [lia|].
  assert (reveal_of pos (mkReveal (ss_Commit s) p)) as Hrev by (exists s, p; split_and!; done || lia).
  assert (forall m : gmap Z Reveal, m !! pos = Some (mkReveal (ss_Commit s) p) -> exists r, m !! pos = Some r /\ matchesCoin coin r = true) as Hmatch.
  { intros m Hm. eexists. split; [done|]. unfold matchesCoin. cbn [rv_SigSlot rv_Part]. rewrite (Hp pos s) by (done || lia).
    pose proof (prefix_step _ pos s ltac:(lia) Hs). pose proof (prefix_range (b_sigs b) (pos + 1) Hw). pose proof (prefix_range (b_sigs b) pos Hw).
    rewrite <- Ew, wrap64_small by word. apply andb_true_iff. rewrite Z.leb_le, Z.ltb_lt. lia. }
  destruct (reveals !! pos) as [r|] eqn:Erev.
  - destruct (IH (j + 1) reveals positions Hok) as (reveals' & positions' & Hrun & Hok' & Hkeep & Hcoins).
    exists reveals', positions'. split_and!; [done..|]. intros i Hi. destruct (Z.eq_dec i j) as [->|]; [|apply Hcoins; lia].
    destruct Hok as [_ Hok]. destruct (Hok pos r Erev) as (s' & p' & _ & Hs' & Hp' & -> & _). assert (s' = s) as -> by congruence. assert (p' = p) as -> by congruence.
    apply Hkeep in Erev. destruct (Hmatch _ Erev) as (r' & Hr' & Hm). exists coin, pos, r'. done.
  - rewrite Hs. destruct (IH (j + 1) (<[pos := mkReveal (ss_Commit s) p]> reveals) (positions ++ [pos])) as (reveals' & positions' & Hrun & Hok' & Hkeep & Hcoins).
    { destruct Hok as [Ho1 Ho2]. split.
      - intros q. rewrite elem_of_app, list_elem_of_singleton, Ho1. destruct (decide (q = pos)) as [->|].
        + rewrite lookup_insert_eq. naive_solver.
        + rewrite lookup_insert_ne by done. naive_solver.
      - intros q r Hq. destruct (decide (q = pos)) as [->|]; [rewrite lookup_insert_eq in Hq; by injection Hq as <-|].
        rewrite lookup_insert_ne in Hq by done. by apply Ho2. }
    exists reveals', positions'. split_and!; [done|done| |].
    + intros q r Hq. apply Hkeep. rewrite lookup_insert_ne; [done|]. intros ->. congruence.
    + intros i Hi. destruct (Z.eq_dec i j) as [->|]; [|apply Hcoins; lia].
      destruct (Hmatch reveals') as (r' & Hr' & Hm); [apply Hkeep; by rewrite lookup_insert_eq|]. exists coin, pos, r'. done.
Qed.
End choosing.

(** ** Checking reveals *)

Lemma checkReveals_spec params (reveals : gmap Z Reveal) (slot : Reveal -> Hashable) :
  (forall pos r, reveals !! pos = Some r -> buildCommittableSignature (rv_SigSlot r) = Ok (slot r) /\
     Verifier_Verify sum (part_PK (rv_Part r)) (pa_SigRound params) (pa_Msg params) (sc_Sig (rv_SigSlot r)) = Ok tt) ->
  checkReveals sum params (map_to_list reveals) = Ok (slot <$> reveals, (fun r => Participant_ToBeHashed (rv_Part r)) <$> reveals).
Proof.
  intros Hr. assert (forall A (f : Reveal -> A), list_to_map (map (fun kv => (kv.1, f kv.2)) (map_to_list reveals)) = f <$> reveals) as Hmap.
  { intros A f. rewrite <- (list_to_map_to_list (f <$> reveals)), map_to_list_fmap. done. }
  rewrite <- !Hmap. assert (forall kv, kv ∈ map_to_list reveals -> buildCommittableSignature (rv_SigSlot kv.2) = Ok (slot kv.2) /\
     Verifier_Verify sum (part_PK (rv_Part kv.2)) (pa_SigRound params) (pa_Msg params) (sc_Sig (rv_SigSlot kv.2)) = Ok tt) as Hl.
  { intros [k r] Hk%elem_of_map_to_list. by apply (Hr k). }
  clear Hr Hmap. induction (map_to_list reveals) as [|[k r] l IH]; [done|]. cbn [checkReveals].
  destruct (Hl (k, r) ltac:(set_solver)) as [H1 H2]. cbn [snd] in H1, H2. rewrite H1. cbn [mbind outcome_bind]. rewrite H2. cbn [mbind outcome_bind].
  rewrite IH by set_solver. done.
Qed.

Lemma checkCoins_spec reveals choice n : forall j,
  (forall i, j <= i < j + Z.of_nat n -> exists coin pos r, hashCoin sum encodeCoin (choice i) = Ok coin /\ reveals !! pos = Some r /\ matchesCoin coin r = true) ->
  checkCoins sum encodeCoin reveals choice n j = Ok tt.
Proof.
  induction n as [|n IH]; intros j Hc; cbn [checkCoins]; [done|]. destruct (Hc j) as (coin & pos & r & -> & Hr & Hm); [lia|]. cbn [mbind outcome_bind].
  assert (existsb (fun kv => matchesCoin coin kv.2) (map_to_list reveals) = true) as ->.
  { apply existsb_exists. exists (pos, r). split; [|done]. apply list_elem_of_In. by apply elem_of_map_to_list. }
  cbn. apply IH. intros i Hi. apply Hc. lia.
Qed.

(** ** Building and verifying *)

Section roundtrip.
  Context (params : Params) (parts : list Participant) (parttree : Tree) (partcom : GenericDigest).
  Context (Hweights : Forall (fun p => 0 <= part_Weight p) parts) (Htotal : sumZ part_Weight parts < two64) (Hlen : blen parts < 2 ^ 63).
  Context (Htree : BuildVectorCommitmentTree sum (ParticipantsArray parts) HashType = Ok parttree) (Hroot : Root parttree = Ok partcom).

(** The elements of the two commitments. *)
Definition slot_hash (c : sigslotCommit) : Hashable := match buildCommittableSignature c with Ok x => x | _ => bottomElement end.
Definition slot_elem (sigs : list sigslot) (i : Z) : Hashable :=
  match sigs !! Z.to_nat i with Some s => slot_hash (ss_Commit s) | None => bottomElement end.
Definition part_elem (i : Z) : Hashable :=
  match parts !! Z.to_nat i with Some p => Participant_ToBeHashed p | None => bottomElement end.

(** A signature whose path has the digests its depth claims, and whose bytes convert to a
    Falcon signature of fixed length; such a signature has a representation. *)
Definition wholePath (sig : Signature) : Prop :=
  isOk (falcon_ConvertToCT (sig_Signature sig)) = true /\ pf_TreeDepth (sig_Proof sig) <= blen (pf_Path (sig_Proof sig)).

Lemma wholePath_represented sig : wholePath sig -> exists x, Signature_GetFixedLengthHashableRepresentation sig = Ok x.
Proof.
  intros [Hct Hd]. unfold Signature_GetFixedLengthHashableRepresentation, Proof_GetFixedLengthHashableRepresentation.
  destruct (falcon_ConvertToCT _) as [x| |]; [|done..]. cbn [mbind outcome_bind].
  destruct (pathBytes_long (Z.to_nat (hash_Size (pf_HashFactory (sig_Proof sig)))) (pf_Path (sig_Proof sig)) (Z.to_nat (pf_TreeDepth (sig_Proof sig))) 0) as [y ->];
    [unfold blen in Hd; lia|]. by eexists.
Qed.

(** Every signature that was collected is one. *)
Definition representable (sigs : list sigslot) : Prop :=
  forall s, s ∈ sigs -> sig_Signature (sc_Sig (ss_Commit s)) <> [] -> wholePath (sc_Sig (ss_Commit s)).

Lemma slot_hash_ok sigs s : representable sigs -> s ∈ sigs -> buildCommittableSignature (ss_Commit s) = Ok (slot_hash (ss_Commit s)).
Proof.
  intros Hr Hs. unfold slot_hash, buildCommittableSignature. case_bool_decide as E; [done|]. destruct (wholePath_represented _ (Hr s Hs E)) as [x ->]. done.
Qed.

(** A check that is enough. *)
Lemma representable_check sigs :
  forallb (fun s => isOk (falcon_ConvertToCT (sig_Signature (sc_Sig (ss_Commit s)))) &&
                    (pf_TreeDepth (sig_Proof (sc_Sig (ss_Commit s))) <=? blen (pf_Path (sig_Proof (sc_Sig (ss_Commit s)))))) sigs = true ->
  representable sigs.
Proof.
  rewrite forallb_forall. intros Hall s Hs _. apply list_elem_of_In, Hall in Hs. by apply andb_true_iff in Hs as [H1 H2%Z.leb_le].
Qed.

Lemma representable_setLs sigs : weights_ok sigs -> (forall s, head sigs = Some s -> sc_L (ss_Commit s) = 0) -> representable sigs -> representable (setLs sigs).
Proof.
  intros Hw Hh Hr s' Hs' Hne. apply list_elem_of_lookup in Hs' as [i Hi]. destruct (setLs_spec sigs Hw Hh) as (_ & _ & _ & Hl).
  destruct (Hl i s' Hi) as (s & Hs & _ & E). rewrite E in *. apply (Hr s); [|done]. by apply list_elem_of_lookup_2 in Hs.
Qed.

Lemma Build_cert_verifies b nr : builder_inv sum params parts parttree b -> has_prefixes (b_sigs b) -> b_sigsHasValidL b = true ->
  representable (b_sigs b) -> 0 <= pa_ProvenWeight params < b_signedWeight b -> Params_numReveals params (b_signedWeight b) = Ok nr ->
  exists cert, Build_cert sum encodeCoin b = Ok cert /\ Verify_cert sum encodeCoin (MkVerifier params partcom) cert = Ok tt /\
    ct_SignedWeight cert = b_signedWeight b.
Proof.
  intros [H1 H2 H3 H4 H5 H6 H7] Hp HL Hrep Hpw Hnr. destruct (slots_weights sum params parts Hweights Htotal _ H4) as [Hw _].
  pose proof (Forall2_length _ _ _ H4) as Hl. assert (blen (b_sigs b) = blen parts) as Hbl by (unfold blen; lia).
  set (sarr := committableSignatureSlotArray (b_sigs b)). set (parr := ParticipantsArray parts) in *.
  assert (forall i, 0 <= i < arr_Length sarr -> arr_Marshal sarr i = Ok (slot_elem (b_sigs b) i)) as Hsm.
  { intros i Hi. cbn in Hi |- *. unfold slot_elem. destruct (b_sigs b !! Z.to_nat i) as [s|] eqn:Es; [|apply lookup_ge_None in Es; unfold blen in Hi; lia].
    apply (slot_hash_ok (b_sigs b)); [done|]. by apply list_elem_of_lookup_2 in Es. }
  assert (forall i, 0 <= i < arr_Length parr -> arr_Marshal parr i = Ok (part_elem i)) as Hpm.
  { intros i Hi. cbn in Hi |- *. unfold part_elem. destruct (parts !! Z.to_nat i) as [p|] eqn:Es; [done|apply lookup_ge_None in Es; unfold blen in Hi; lia]. }
  assert (0 <= arr_Length sarr <= 2 ^ 63) as Hsl by (cbn; unfold blen in *; lia). assert (0 <= arr_Length parr <= 2 ^ 63) as Hpl by (cbn; unfold blen in *; lia).
  destruct (prove_verify_vc sum Hsum Sumhash ltac:(done) sarr (slot_elem (b_sigs b)) Hsl Hsm) as (st & sr & Hsb & Hsr & sd & _ & _ & _ & Hsp).
  destruct (prove_verify_vc sum Hsum Sumhash ltac:(done) parr part_elem Hpl Hpm) as (pt & pr & Hpb & Hpr & pd & _ & _ & _ & Hpp).
  change HashType with Sumhash in Htree. rewrite Htree in Hpb. injection Hpb as <-. rewrite Hroot in Hpr. injection Hpr as <-.
  unfold Build_cert. fold sarr. change HashType with Sumhash. rewrite Hsb. cbn [mbind outcome_bind]. rewrite Hsr. cbn [mbind outcome_bind].
  rewrite H1, Hnr. cbn [mbind outcome_bind]. rewrite H3, Hroot.
  assert (exists pc, (if nr =? 0 then Ok [] else Ok partcom) = Ok pc /\ (nr <> 0 -> pc = partcom)) as (pc & -> & Hpc) by (destruct (Z.eqb_spec nr 0); eauto; by eexists).
  cbn [mbind outcome_bind]. set (choice := fun j => mkcoinChoice j (b_signedWeight b) (pa_ProvenWeight params) sr pc (GenericHashObj sum Sumhash (pa_Msg params))).
  destruct (chooseReveals_spec params parts b H4 H2 Hw Hp HL ltac:(lia) choice) with (n := Z.to_nat nr) (j := 0) (reveals := (∅ : gmap Z Reveal)) (positions := @nil Z)
    as (reveals & positions & Hch & [Hdom Hrev] & _ & Hcoins).
  { intros j. cbn. done. } { lia. }
  { split; [|intros pos r; by rewrite lookup_empty]. intros pos. rewrite lookup_empty, elem_of_nil. split; [done|]. by intros [? ?]. }
  rewrite Hch. cbn [mbind outcome_bind].
  assert (forall i, i ∈ positions -> 0 <= i < blen parts) as Hin.
  { intros i [r Hr]%Hdom. destruct (Hrev i r Hr) as (s & p & Hi & _ & Hpi & _). apply lookup_lt_Some in Hpi. unfold blen. lia. }
  destruct (Hsp positions) as (sproof & Hs1 & _ & _ & Hs2); [intros i Hi; cbn; rewrite Hbl; by apply Hin|].
  destruct (Hpp positions) as (pproof & Hp1 & Hpf & _ & Hp2); [intros i Hi; cbn; by apply Hin|].
  rewrite Hs1. cbn [mbind outcome_bind]. rewrite Hp1. cbn [mbind outcome_bind]. eexists. split; [done|]. split; [|done].
  unfold Verify_cert. cbn [MkVerifier v_Params v_partcom ct_SignedWeight ct_Reveals ct_SigCommit ct_SigProofs ct_PartProofs].
  rewrite (proj2 (Z.leb_gt _ _)) by lia. cbn [failIf mbind outcome_bind].
  rewrite (checkReveals_spec params reveals (fun r => slot_hash (rv_SigSlot r))).
  2: { intros pos r Hr. destruct (Hrev pos r Hr) as (s & p & _ & Hs & _ & -> & _ & _ & Hv). split; [|done]. cbn.
       apply (slot_hash_ok (b_sigs b)); [done|]. by apply list_elem_of_lookup_2 in Hs. }
  cbn [mbind outcome_bind].
  assert ((fun r => slot_hash (rv_SigSlot r)) <$> reveals = elems_at (slot_elem (b_sigs b)) positions) as ->.
  { apply map_eq. intros k. apply option_eq. intros v. rewrite elems_at_lookup, lookup_fmap, fmap_Some, Hdom. unfold slot_elem. split.
    - intros (r & Hr & ->). split; [by eexists|]. destruct (Hrev k r Hr) as (s & p & _ & Hs & _ & -> & _). by rewrite Hs.
    - intros [[r Hr] ->]. exists r. split; [done|]. destruct (Hrev k r Hr) as (s & p & _ & Hs & _ & -> & _). by rewrite Hs. }
  rewrite Hs2. cbn [mbind outcome_bind].
  assert ((fun r => Participant_ToBeHashed (rv_Part r)) <$> reveals = elems_at part_elem positions) as ->.
  { apply map_eq. intros k. apply option_eq. intros v. rewrite elems_at_lookup, lookup_fmap, fmap_Some, Hdom. unfold part_elem. split.
    - intros (r & Hr & ->). split; [by eexists|]. destruct (Hrev k r Hr) as (s & p & _ & _ & Hq & -> & _). by rewrite Hq.
    - intros [[r Hr] ->]. exists r. split; [done|]. destruct (Hrev k r Hr) as (s & p & _ & _ & Hq & -> & _). by rewrite Hq. }
  rewrite Hp2. cbn [mbind outcome_bind]. rewrite Hnr. cbn [mbind outcome_bind]. destruct (Z.to_nat nr) as [|n] eqn:En; [done|]. assert (pc = partcom) as -> by (apply Hpc; lia).
  assert (positions <> []) as Hne.
  { destruct (Hcoins 0) as (c & pos & r & _ & Hr & _); [lia|]. intros ->. assert (pos ∈ @nil Z) as Hx by (apply Hdom; by eexists). by apply elem_of_nil in Hx. }
  destruct (Hpf Hne) as [-> _]. apply checkCoins_spec. exact Hcoins.
Qed.

(** A compact certificate that is built verifies.  Whatever signatures were
    offered to the builder, in whatever order, and whatever was built before: once the
    weight of the accepted ones exceeds the proven weight and the number of reveals is
    within its bound, [Build] returns a certificate, and the verifier that knows the
    commitment to the participants accepts it, if every accepted signature has the path its
    depth claims and converts to fixed length. *)
Theorem build_verifies b nr : collects sum encodeCoin params parts parttree b -> representable (b_sigs b) ->
  0 <= pa_ProvenWeight params < b_signedWeight b -> Params_numReveals params (b_signedWeight b) = Ok nr ->
  exists cert b', Build_ sum encodeCoin b = (Ok cert, b') /\ Verify_cert sum encodeCoin (MkVerifier params partcom) cert = Ok tt /\
    ct_SignedWeight cert = sumZ ss_Weight (b_sigs b).
Proof.
  intros Hc Hrep Hpw Hnr. pose proof (collects_inv sum encodeCoin params parts parttree Hweights Htotal b Hc) as Hinv. unfold Build_. rewrite (bi_cert _ _ _ _ _ Hinv), (bi_params _ _ _ _ _ Hinv).
  rewrite (proj2 (Z.leb_gt _ _)) by lia. pose proof (setLs_inv sum params parts parttree Hweights Htotal b Hinv) as Hinv'.
  destruct (slots_weights sum params parts Hweights Htotal _ (bi_slots _ _ _ _ _ Hinv)) as [Hw _].
  destruct (setLs_spec (b_sigs b) Hw (bi_first _ _ _ _ _ Hinv)) as (Hp & _).
  destruct (Build_cert_verifies (b <| b_sigs := setLs (b_sigs b) |> <| b_sigsHasValidL := true |>) nr) as (cert & Hb & Hv & Hsw); try done.
  { cbn. apply representable_setLs; [done|apply Hinv|done]. }
  rewrite Hb. exists cert. eexists. split; [done|]. split; [done|]. rewrite Hsw. cbn. apply Hinv.
Qed.
End roundtrip.

(** ** Paths that are shorter than their depth *)

(** A certificate makes its verifier panic.  The representation of a reveal is
    computed before anything of it is checked, and a path with fewer digests than the depth
    it claims is indexed behind its end.  No key and no signature is needed: any bytes that
    convert to a Falcon signature of fixed length will do. *)
Theorem short_path_crashes_verifier v c pos r : pa_ProvenWeight (v_Params v) < ct_SignedWeight c -> ct_Reveals c = {[pos := r]} ->
  sig_Signature (sc_Sig (rv_SigSlot r)) <> [] -> isOk (falcon_ConvertToCT (sig_Signature (sc_Sig (rv_SigSlot r)))) = true ->
  blen (pf_Path (sig_Proof (sc_Sig (rv_SigSlot r)))) < pf_TreeDepth (sig_Proof (sc_Sig (rv_SigSlot r))) ->
  Verify_cert sum encodeCoin v c = Panic.
Proof.
  intros Hw Hr Hne Hct Hp. unfold Verify_cert. rewrite (proj2 (Z.leb_gt _ _)) by lia. cbn [failIf mbind outcome_bind]. rewrite Hr, map_to_list_singleton.
  cbn [checkReveals]. unfold buildCommittableSignature. rewrite bool_decide_eq_false_2 by done. unfold Signature_GetFixedLengthHashableRepresentation.
  destruct (falcon_ConvertToCT _) as [x| |]; [|done..]. cbn [mbind outcome_bind]. unfold Proof_GetFixedLengthHashableRepresentation, blen in *.
  rewrite pathBytes_short by lia. done.
Qed.

Section honest.
  Context (Hgen : forall i, 0 <= i -> exists key, falcon_Generate i = Ok key).
  Context (Hsign : forall i key data, falcon_Generate i = Ok key ->
    exists s, falcon_SignCompressed (fs_PrivateKey key) data = Ok s /\ falcon_Verify (fs_PublicKey key) data s = Ok tt).
  (** Signatures have bytes, and convert to their fixed length. *)
  Context (Hct : forall sk data s, falcon_SignCompressed sk data = Ok s -> s <> [] /\ exists x, falcon_ConvertToCT s = Ok x).

(** The signatures a signer makes have the path their depth claims. *)
Lemma signed_wholePath numCPU firstValid lastValid interval :
  0 < numCPU < 2 ^ 32 -> 0 <= firstValid <= lastValid -> lastValid < 2 ^ 62 -> 1 <= interval < 2 ^ 62 ->
  exists secrets, New sum numCPU firstValid lastValid interval = Ok secrets /\
    forall round msg signer sig, is_u64 round -> GetSigner secrets round = Ok signer -> Signer_Sign sum signer msg = Ok sig -> wholePath sig.
Proof.
  intros Hcpu Hfl Hl Hi. destruct (honest_signature sum Hsum Hgen Hsign numCPU firstValid lastValid interval Hcpu Hfl Hl Hi) as (secrets & v & H1 & H2 & H3).
  exists secrets. split; [done|]. intros round msg signer sig Hr Hg Hs. destruct (H3 round msg Hr) as (signer' & Hg' & H4).
  rewrite Hg in Hg'. injection Hg' as <-. case_match; [|congruence].
  destruct H4 as (sk & s & idx & path & d & pk & Hs' & Hsk & _ & _ & Hpath & _). rewrite Hs in Hs'. injection Hs' as ->.
  destruct (Hct _ _ _ Hsk) as [_ [x Hx]]. split; cbn; [by rewrite Hx|unfold blen; lia].
Qed.

(** A participant makes every node that builds a certificate panic.  From each
    signature it can make, it gets one for the same round and message that claims another
    position and a depth one larger.  The builder verifies and accepts it; building the
    certificate then indexes its path behind the end. *)
Theorem altered_signature_crashes_builder numCPU firstValid lastValid interval :
  0 < numCPU < 2 ^ 32 -> 0 <= firstValid <= lastValid -> lastValid < 2 ^ 62 -> 1 <= interval < 2 ^ 62 ->
  exists secrets v, New sum numCPU firstValid lastValid interval = Ok secrets /\ GetVerifier (sec_SignerContext secrets) = Ok v /\
    forall params, is_u64 (pa_SigRound params) -> Z.max 1 firstValid <= pa_SigRound params <= lastValid -> pa_SigRound params mod interval = 0 ->
      exists sig, forall parts parttree pos w, 0 <= pos -> blen parts <= 2 ^ 63 -> parts !! Z.to_nat pos = Some (mkParticipant v w) ->
        0 <= pa_ProvenWeight params < w -> w < two64 ->
        exists b, Add sum pos sig true (MkBuilder params parts parttree) = (Ok tt, b) /\ (Build_ sum encodeCoin b).1 = Panic.
Proof.
  intros Hcpu Hfl Hl Hi. destruct (honest_signature sum Hsum Hgen Hsign numCPU firstValid lastValid interval Hcpu Hfl Hl Hi) as (secrets & v & H1 & H2 & H3).
  exists secrets, v. split; [done|]. split; [done|]. intros params Hr Hrange Hmod. destruct (H3 _ (pa_Msg params) Hr) as (signer & _ & H4).
  rewrite (proj2 (Z.leb_le (Z.max 1 firstValid) _)), (proj2 (Z.leb_le (pa_SigRound params) _)), (proj2 (Z.eqb_eq _ _) Hmod) in H4 by lia.
  destruct H4 as (sk & s & idx & path & d & pk & _ & Hs & Hv & Hd & Hpath & Hid & Hvc). destruct (Hct _ _ _ Hs) as [Hne Hx].
  destruct (altered_signature sum (pa_SigRound params) (pa_Msg params) v s idx path d pk Hd Hpath Hid Hv Hx Hvc) as [Hver Hpan].
  set (sig := mkSignature s (2 * idx) (mkProof path Sumhash (Z.of_nat (S d))) pk) in *. exists sig.
  intros parts parttree pos w Hpos Hlen Hpart Hw Hw64. pose proof (lookup_lt_Some _ _ _ Hpart) as Hlt.
  eexists. split.
  { apply (Add_accepts sum pos sig (MkBuilder params parts parttree) zeroSlot (mkParticipant v w)); [by apply lookup_replicate_2|done|done|cbn; lia|done]. }
  set (b := MkBuilder params parts parttree <| b_sigs := _ |> <| b_signedWeight := _ |> <| b_cert := _ |> <| b_sigsHasValidL := _ |>).
  unfold Build_. change (b_cert b) with (@None Cert). change (b_signedWeight b) with (wrap64 (0 + w)). change (b_Params b) with params.
  rewrite wrap64_small, (proj2 (Z.leb_gt _ _)) by word. cbn [fst]. unfold Build_cert. change (b_sigs (b <| b_sigs := setLs (b_sigs b) |> <| b_sigsHasValidL := true |>)) with (setLs (b_sigs b)).
  set (sigs := b_sigs b). assert (sigs = <[Z.to_nat pos := mksigslot w (mksigslotCommit sig 0)]> (replicate (length parts) zeroSlot)) as Esigs by done.
  assert (forall k s', setLs sigs !! k = Some s' -> (k = Z.to_nat pos /\ sc_Sig (ss_Commit s') = sig) \/ (k <> Z.to_nat pos /\ sc_Sig (ss_Commit s') = zeroSignature)) as Hget.
  { intros k s' (s0 & Hs0 & _ & E)%setLs_lookup. rewrite E. rewrite Esigs in Hs0. destruct (decide (k = Z.to_nat pos)) as [->|Hk].
    - left. rewrite list_lookup_insert_eq in Hs0 by (by rewrite length_replicate). by injection Hs0 as <-.
    - right. rewrite list_lookup_insert_ne in Hs0 by done. apply lookup_replicate in Hs0 as [-> _]. done. }
  assert (length (setLs sigs) = length parts) as Hsl by (rewrite setLs_length, Esigs, length_insert, length_replicate; done).
  rewrite BuildVectorCommitmentTree_panic; [done|unfold committableSignatureSlotArray; cbn [arr_Length]; unfold blen in *; rewrite Hsl; lia| |].
  - unfold committableSignatureSlotArray. cbn [arr_Length arr_Marshal]. unfold blen. intros k Hk. destruct (setLs sigs !! Z.to_nat k) as [s'|] eqn:Es; [|apply lookup_ge_None in Es; lia].
    unfold buildCommittableSignature. destruct (Hget _ _ Es) as [[_ ->]|[_ ->]]; [|right; by eexists].
    left. rewrite bool_decide_eq_false_2 by done. by rewrite Hpan.
  - exists pos. unfold committableSignatureSlotArray. cbn [arr_Length arr_Marshal]. unfold blen. rewrite Hsl. split; [lia|]. destruct (setLs sigs !! Z.to_nat pos) as [s'|] eqn:Es; [|apply lookup_ge_None in Es; lia].
    unfold buildCommittableSignature. destruct (Hget _ _ Es) as [[_ ->]|[? _]]; [|done]. rewrite bool_decide_eq_false_2 by done. by rewrite Hpan.
Qed.
End honest.
End certs.

(** ** A concrete certificate *)

Definition demoCoin (c : coinChoice) : bytes := le_bytes 8 (cc_J c) ++ cc_Sigcom c.
Definition demo_params : Params := mkParams (letters 0) 1 2 5 false.

(** A key for the rounds 1 to 4, and its signature for round 2. *)
Definition demo_signed : outcome (bytes * Signature) :=
  s ← New digitSum 2 1 4 1; v ← GetVerifier (sec_SignerContext s); sg ← GetSigner s 2; sig ← Signer_Sign digitSum sg (letters 0); Ok (v, sig).
Definition demo_parts : list Participant := match demo_signed with Ok (v, _) => [mkParticipant v 100; mkParticipant [] 7] | _ => [] end.
Definition demo_tree : outcome Tree := BuildVectorCommitmentTree digitSum (ParticipantsArray demo_parts) HashType.
Definition demo_builder (parttree : Tree) : outcome unit * Builder :=
  match demo_signed with
  | Ok (_, sig) => Add digitSum 0 sig true (MkBuilder demo_params demo_parts parttree)
  | _ => (Panic, MkBuilder demo_params demo_parts parttree)
  end.

Definition demo_parttree : Tree := match demo_tree with Ok t => t | _ => mkTree [] 0 0 false end.
Definition demo_partcom : GenericDigest := match Root demo_parttree with Ok r => r | _ => [] end.
Definition demo_b : Builder := (demo_builder demo_parttree).2.

Lemma build_verifies_witness : exists cert b', Build_ digitSum demoCoin demo_b = (Ok cert, b') /\
  Verify_cert digitSum demoCoin (MkVerifier demo_params demo_partcom) cert = Ok tt /\ ct_SignedWeight cert = sumZ ss_Weight (b_sigs demo_b).
Proof.
  apply (build_verifies digitSum demoCoin (fun h m _ => digitSum_size h m) demo_params demo_parts demo_parttree demo_partcom) with (nr := 1).
  - vm_compute. repeat constructor; congruence.
  - vm_compute. reflexivity.
  - vm_compute. reflexivity.
  - vm_compute. reflexivity.
  - vm_compute. reflexivity.
  - unfold demo_b, demo_builder. assert (isOk demo_signed = true) as Hok by (vm_compute; reflexivity).
    destruct demo_signed as [[v sig]| |]; [|discriminate Hok..]. eapply collects_add; [apply collects_start| |apply surjective_pairing]. lia.
  - apply representable_check. vm_compute. reflexivity.
  - vm_compute. split; congruence.
  - vm_compute. reflexivity.
Defined.

(** A reveal that claims depth 3 with an empty path. *)
Lemma short_path_crashes_verifier_witness :
  Verify_cert digitSum demoCoin (MkVerifier demo_params [])
    (mkCert [] 100 (mkProof [] 1 0) (mkProof [] 1 0)
       {[0 := mkReveal (mksigslotCommit (mkSignature [1] 0 (mkProof [] 1 3) []) 0) (mkParticipant [] 100)]}) = Panic.
Proof.
  apply (short_path_crashes_verifier digitSum demoCoin _ _ 0
    (mkReveal (mksigslotCommit (mkSignature [1] 0 (mkProof [] 1 3) []) 0) (mkParticipant [] 100))); [cbn; lia|reflexivity|done|reflexivity|vm_compute; reflexivity].
Defined.

Lemma altered_signature_crashes_builder_witness : exists secrets v sig b,
  New digitSum 2 1 4 1 = Ok secrets /\ GetVerifier (sec_SignerContext secrets) = Ok v /\
  Add digitSum 0 sig true (MkBuilder demo_params [mkParticipant v 100] (mkTree [] 0 1 true)) = (Ok tt, b) /\ (Build_ digitSum demoCoin b).1 = Panic.
Proof.
  destruct (@altered_signature_crashes_builder toyFalcon digitSum demoCoin (fun h m _ => digitSum_size h m) (fun i _ => ex_intro _ _ eq_refl))
    with (numCPU := 2) (firstValid := 1) (lastValid := 4) (interval := 1) as (secrets & v & H1 & H2 & H3).
  - intros i key data [= <-]. eexists. split; [done|]. cbn. by rewrite bool_decide_eq_true_2.
  - intros sk data s Hs. cbn in Hs. injection Hs as <-. split; [done|by eexists].
  - lia.
  - lia.
  - lia.
  - lia.
  - destruct (H3 demo_params) as [sig H4]; [vm_compute; split; congruence|cbn; lia|done|].
    destruct (H4 [mkParticipant v 100] (mkTree [] 0 1 true) 0 100) as (b & H5 & H6); [lia|vm_compute; congruence|done|cbn; lia|word|].
    by exists secrets, v, sig, b.
Defined.
