(* ===== verification/CertLedger.v ===== *)
(** Compact certificates in the ledger: [compactCert] of [src/ledger/internal/cow.go], with
    the rule of [compactcert.go], on the verifier of [src/crypto/compactcert].  The
    certificates that builders make for the headers of a ledger are recorded by it; a
    certificate with a path that is too short crashes it.

    The msgpack encodings of headers and coins are parameters. *)
From S2P Require Import Prelude Config Basics Bookkeeping StateDelta CompactCert Cow CowFacts.
From S2P Require Import BigFloat MerkleArray MerkleFacts MerkleCorrect MerkleSignature MerkleSignatureCorrect CertBuilder CertFacts CertCorrect.
#[local] Open Scope string_scope.
#[local] Open Scope list_scope.
#[local] Open Scope Z_scope.

(** [protocol.BlockHeader], "BH". *)
Definition BlockHeaderID : bytes := [66; 72].

Section ledger.
  Context {F : Falcon} (sum : Z -> bytes -> bytes) (encodeCoin : coinChoice -> bytes) (encodeHeader : BlockHeader -> bytes).

Definition BlockHeader_ToBeHashed (hdr : BlockHeader) : Hashable := mkHashable BlockHeaderID (encodeHeader hdr).

(** The parameters as [compactcert] has them: the message is the header to be hashed. *)
Definition verifierParams (p : CompactCertVerifierParams) : Params :=
  mkParams (BlockHeader_ToBeHashed (ccp_Msg p)) (ccp_ProvenWeight p) (ccp_SigRound p) (ccp_SecKQ p) (ccp_EnableBatchVerification p).

(** The end of [validateCompactCert]: make the verifier, and run it. *)
Definition verifyCert (p : CompactCertVerifierParams) (voters : GenericDigest) (cert : Cert) : outcome unit :=
  Verify_cert sum encodeCoin (MkVerifier (verifierParams p) voters) cert.

Section expected.
  Context (B : roundCowParent) (s : cowStack) (certRnd atRound : Round) (certHdr votersHdr : BlockHeader).
Notation rounds := (proto_CompactCertRounds (ConsensusOf (bh_CurrentProtocol certHdr))).

(** The ledger is at a point where it expects a certificate for [certHdr] from the voters
    of [votersHdr]: the parameters, and the weight it accepts. *)
Definition expects (ccParams : CompactCertVerifierParams) (weight : Z) : Prop :=
  par_compactCertNext (cs_view B s) = certRnd /\ certRnd <> 0 /\ rounds <> 0 /\ certRnd mod rounds = 0 /\
  par_blockHdr (cs_view B s) certRnd = Ok certHdr /\ bh_Round certHdr = certRnd /\
  par_blockHdr (cs_view B s) (Round_SubSaturate certRnd rounds) = Ok votersHdr /\ bh_Round votersHdr = Round_SubSaturate certRnd rounds /\
  AcceptableCompactCertWeight votersHdr atRound = Ok weight /\ CompactCertParams votersHdr certHdr = Ok ccParams.

(** Then what is left is the verification. *)
Lemma expects_verifies ccParams weight cert : expects ccParams weight -> weight <= ct_SignedWeight cert ->
  cow_compactCert B verifyCert certRnd CompactCertBasic cert atRound true s =
    match verifyCert ccParams (ccs_CompactCertVoters (CompactCertOf votersHdr)) cert with
    | Ok _ => (Ok tt, s <| cs_cur := setCompactCertNext (wrap64 (certRnd + rounds)) (cs_cur s) |>)
    | Err e => (Err e, s)
    | Panic => (Panic, s)
    end.
Proof.
  intros (H1 & H2 & H3 & H4 & H5 & H6 & H7 & H8 & H9 & H10) Hw. unfold cow_compactCert, asks, gets, throwIf, lift, mbind, M_bind. cbn [negb Z.eqb].
  rewrite H1, H5, H7. unfold validateCompactCert. rewrite H6, H8, H4. rewrite !Z.eqb_refl, (proj2 (Z.eqb_neq _ 0) H3), (proj2 (Z.eqb_neq _ 0) H2).
  cbn [negb failIf mbind outcome_bind orb Z.eqb]. rewrite H9. cbn [mbind outcome_bind]. rewrite (proj2 (Z.ltb_ge _ _) Hw). cbn [failIf mbind outcome_bind]. rewrite H10.
  cbn [mbind outcome_bind]. by destruct (verifyCert _ _ _).
Qed.
End expected.

(** C22 (roundtrip): the compact certificates that are built are recorded.  When the ledger
    expects a certificate for a header, and a builder for that header has collected
    signatures of the voters, whatever was offered to it in whatever order and whatever was
    built before, such that every signature it accepted has the digests its depth claims
    and converts to a Falcon signature of fixed length ([representable]; the signatures
    that [Sign] makes do, an accepted one with an altered depth does not and makes [Build]
    panic, see [CertCorrect.signed_wholePath] and
    [CertCorrect.altered_signature_crashes_builder]): once the weight of the accepted signatures exceeds the proven weight and
    reaches the weight the ledger accepts at that round, and the number of reveals is within
    its bound, [Build] returns a certificate, the transaction with it is applied, and the
    ledger then expects the next one. *)
Theorem built_certificate_recorded B s certRnd atRound certHdr votersHdr ccParams weight parts parttree b nr :
  (forall h m, 0 <= h < MaxHashType -> length (sum h m) = Z.to_nat (hash_Size h)) ->
  expects B s certRnd atRound certHdr votersHdr ccParams weight ->
  Forall (fun p => 0 <= part_Weight p) parts -> sumZ part_Weight parts < two64 -> blen parts < 2 ^ 63 ->
  BuildVectorCommitmentTree sum (ParticipantsArray parts) HashType = Ok parttree ->
  Root parttree = Ok (ccs_CompactCertVoters (CompactCertOf votersHdr)) ->
  collects sum encodeCoin (verifierParams ccParams) parts parttree b -> representable (b_sigs b) ->
  0 <= ccp_ProvenWeight ccParams < b_signedWeight b -> weight <= b_signedWeight b ->
  Params_numReveals (verifierParams ccParams) (b_signedWeight b) = Ok nr ->
  exists cert b', Build_ sum encodeCoin b = (Ok cert, b') /\ ct_SignedWeight cert = sumZ ss_Weight (b_sigs b) /\
    cow_compactCert B verifyCert certRnd CompactCertBasic cert atRound true s =
      (Ok tt, s <| cs_cur := setCompactCertNext (wrap64 (certRnd + proto_CompactCertRounds (ConsensusOf (bh_CurrentProtocol certHdr)))) (cs_cur s) |>).
Proof.
  intros Hsum Hexp Hw Ht Hl Htree Hroot Hc Hrep Hpw Hacc Hnr.
  destruct (build_verifies sum encodeCoin Hsum (verifierParams ccParams) parts parttree _ Hw Ht Hl Htree Hroot b nr Hc Hrep Hpw Hnr) as (cert & b' & Hb & Hv & Hsw).
  exists cert, b'. split; [done|]. split; [done|]. pose proof (collects_inv sum encodeCoin _ parts parttree Hw Ht b Hc) as Hinv.
  rewrite (expects_verifies B s certRnd atRound certHdr votersHdr ccParams weight) by (rewrite ?Hsw, <- ?(bi_weight _ _ _ _ _ Hinv); done).
  unfold verifyCert. by rewrite Hv.
Qed.

(** C40 (error): a transaction with a compact certificate makes every node that applies it
    panic, when the ledger expects a certificate.  The representation of a reveal is computed
    before anything of it is checked, and a path with fewer digests than the depth it claims
    is indexed behind its end.  No key and no signature is needed: any bytes that convert to
    a Falcon signature of fixed length will do, and the weight is what it claims. *)
Theorem short_path_crashes_ledger B s certRnd atRound certHdr votersHdr ccParams weight cert pos r :
  expects B s certRnd atRound certHdr votersHdr ccParams weight ->
  weight <= ct_SignedWeight cert -> ccp_ProvenWeight ccParams < ct_SignedWeight cert -> ct_Reveals cert = {[pos := r]} ->
  sig_Signature (sc_Sig (rv_SigSlot r)) <> [] -> isOk (falcon_ConvertToCT (sig_Signature (sc_Sig (rv_SigSlot r)))) = true ->
  blen (pf_Path (sig_Proof (sc_Sig (rv_SigSlot r)))) < pf_TreeDepth (sig_Proof (sc_Sig (rv_SigSlot r))) ->
  (cow_compactCert B verifyCert certRnd CompactCertBasic cert atRound true s).1 = Panic.
Proof.
  intros Hexp Hw Hpw Hr Hne Hct Hp. rewrite (expects_verifies B s certRnd atRound certHdr votersHdr ccParams weight) by done.
  unfold verifyCert. by rewrite (short_path_crashes_verifier sum encodeCoin _ _ pos r).
Qed.
End ledger.

(** ** A ledger that expects a certificate for block 768 *)

Definition demoHeader (hdr : BlockHeader) : bytes := le_bytes 8 (bh_Round hdr).
Definition certified_header : BlockHeader := sample_header <| bh_Round := 768 |> <| bh_UpgradeState := idle ConsensusFuture |>.
Definition header_hash : Hashable := BlockHeader_ToBeHashed demoHeader certified_header.

(** A voter with a key for the multiples of 256, its signature, and the commitment. *)
Definition voter_signed : outcome (bytes * Signature) :=
  s ← New digitSum 2 1 1000 256; v ← GetVerifier (sec_SignerContext s); sg ← GetSigner s 768; sig ← Signer_Sign digitSum sg header_hash; Ok (v, sig).
Definition voters_list : list Participant := match voter_signed with Ok (v, _) => [mkParticipant v 900; mkParticipant [] 100] | _ => [] end.
Definition voters_tree : Tree := match BuildVectorCommitmentTree digitSum (ParticipantsArray voters_list) HashType with Ok t => t | _ => mkTree [] 0 0 false end.
Definition voters_root : GenericDigest := match Root voters_tree with Ok r => r | _ => [] end.

Definition voters_header : BlockHeader :=
  certified_header <| bh_Round := 512 |> <| bh_CompactCert := {[ CompactCertBasic := mkCompactCertState voters_root 1000 768 ]} |>.
Definition certs_ledger : LedgerForCowBase :=
  mkLedgerForCowBase (fun r => Ok (if r =? 512 then voters_header else certified_header)) (fun _ _ _ _ _ _ => Ok tt)
    (fun r _ => Ok (AccountData_zero, r)) (fun _ _ _ => Ok (0, false)).
Definition certs_base : roundCowParent := base_parent (makeRoundCowBase certs_ledger 1100 10 768 (ConsensusOf ConsensusFuture)).
Definition certs_stack : cowStack := mkCowStack (makeRoundCowState certified_header (ConsensusOf ConsensusFuture) 0 AccountTotals_zero 0) [].
Definition certs_params : CompactCertVerifierParams :=
  mkCompactCertVerifierParams certified_header 299 768 128 (proto_EnableBatchVerification (ConsensusOf ConsensusFuture)).
Definition certs_builder : Builder :=
  match voter_signed with
  | Ok (_, sig) => (Add digitSum 0 sig true (MkBuilder (verifierParams demoHeader certs_params) voters_list voters_tree)).2
  | _ => MkBuilder (verifierParams demoHeader certs_params) voters_list voters_tree
  end.

Lemma certs_expected : expects certs_base certs_stack 768 1100 certified_header voters_header certs_params 299.
Proof. unfold expects. split_and!; vm_compute; congruence. Qed.

Lemma built_certificate_recorded_witness : exists cert b', Build_ digitSum demoCoin certs_builder = (Ok cert, b') /\
  cow_compactCert certs_base (verifyCert digitSum demoCoin demoHeader) 768 CompactCertBasic cert 1100 true certs_stack =
    (Ok tt, certs_stack <| cs_cur := setCompactCertNext 1024 (cs_cur certs_stack) |>).
Proof.
  destruct (built_certificate_recorded digitSum demoCoin demoHeader certs_base certs_stack 768 1100 certified_header voters_header certs_params 299
              voters_list voters_tree certs_builder 81) as (cert & b' & H1 & _ & H2).
  - intros h m _. apply digitSum_size.
  - exact certs_expected.
  - vm_compute. repeat constructor; congruence.
  - vm_compute. reflexivity.
  - vm_compute. reflexivity.
  - vm_compute. reflexivity.
  - vm_compute. reflexivity.
  - unfold certs_builder. assert (isOk voter_signed = true) as Hok by (vm_compute; reflexivity).
    destruct voter_signed as [[v sig]| |]; [|discriminate Hok..]. eapply collects_add; [apply collects_start| |apply surjective_pairing]. lia.
  - apply representable_check. vm_compute. reflexivity.
  - vm_compute. split; congruence.
  - vm_compute. congruence.
  - vm_compute. reflexivity.
  - exists cert, b'. split; [exact H1|exact H2].
Defined.

(** A reveal that claims depth 3 with an empty path, and all the weight. *)
Definition short_reveal : Reveal := mkReveal (mksigslotCommit (mkSignature [1] 0 (mkProof [] 1 3) []) 0) (mkParticipant [] 1000).
Lemma short_path_crashes_ledger_witness :
  (cow_compactCert certs_base (verifyCert digitSum demoCoin demoHeader) 768 CompactCertBasic
     (mkCert [] 1000 (mkProof [] 1 0) (mkProof [] 1 0) {[0 := short_reveal]}) 1100 true certs_stack).1 = Panic.
Proof.
  apply (short_path_crashes_ledger digitSum demoCoin demoHeader certs_base certs_stack 768 1100 certified_header voters_header certs_params 299 _ 0 short_reveal).
  - exact certs_expected.
  - cbn. lia.
  - vm_compute. reflexivity.
  - reflexivity.
  - discriminate.
  - reflexivity.
  - vm_compute. reflexivity.
Defined.
