(* ===== verification/TxTail.v ===== *)
(** [src/ledger/txtail.go]: the tracker that remembers the transactions and leases of recent
    blocks, which is what the ledger answers [CheckDup] with.

    The ledger it is loaded from is an argument, and so is the function that gives the ID
    of a transaction.  The hooks of the tracker that do nothing are left out. *)
From S2P Require Import Prelude Config Basics Transactions Bookkeeping StateDelta CompactCert.
#[local] Open Scope string_scope.
#[local] Open Scope list_scope.
#[local] Open Scope Z_scope.

Record roundTxMembers : Type := mkroundTxMembers { rtm_txleases : gmap Txlease Round; rtm_proto : ConsensusParams }.

Record txTail : Type := mktxTail {
  tt_recent : gmap Round roundTxMembers; tt_lastValid : gmap Round (gset Txid); tt_lowWaterMark : Round }.
#[export] Instance Eta_txTail : Eta txTail := fun t => mktxTail (tt_recent t) (tt_lastValid t) (tt_lowWaterMark t).

(** What the tracker reads of the ledger. *)
Record ledgerForTracker : Type := mkledgerForTracker {
  lt_Latest : Round; lt_BlockHdr : Round -> outcome BlockHeader; lt_Block : Round -> outcome Block }.

Definition putLV (lastValid : Round) (id : Txid) (t : txTail) : txTail :=
  t <| tt_lastValid := <[lastValid := {[id]} ∪ default ∅ (tt_lastValid t !! lastValid)]> (tt_lastValid t) |>.

Definition newBlock (blk : Block) (delta : LedgerStateDelta) (t : txTail) : txTail :=
  let rnd := bh_Round (blk_Header blk) in
  match tt_recent t !! rnd with
  | Some _ => t
  | None =>
      let t := t <| tt_recent := <[rnd := mkroundTxMembers (sd_Txleases delta) (ConsensusOf (bh_CurrentProtocol (blk_Header blk)))]> (tt_recent t) |> in
      fold_left (fun t '(txid, lv) => putLV lv txid t) (map_to_list (sd_Txids delta)) t
  end.

(** Forget the transactions that were valid up to the rounds [low .. low + n - 1]. *)
Fixpoint deleteRounds (n : nat) (low : Round) (m : gmap Round (gset Txid)) : gmap Round (gset Txid) :=
  match n with O => m | S n' => deleteRounds n' (low + 1) (delete low m) end.

(** A round that is not there has the zero parameters. *)
Definition committedUpTo (rnd : Round) (t : txTail) : Round * Round * txTail :=
  let maxlife := match tt_recent t !! rnd with Some m => proto_MaxTxnLife (rtm_proto m) | None => 0 end in
  let recent := filter (fun '(r, _) => ~ wrap64 (r + maxlife) < rnd) (tt_recent t) in
  let lastValid := deleteRounds (Z.to_nat (rnd - tt_lowWaterMark t)) (tt_lowWaterMark t) (tt_lastValid t) in
  (Round_SubSaturate (wrap64 (rnd + 1)) maxlife, 0, mktxTail recent lastValid (Z.max (tt_lowWaterMark t) rnd)).

(** The loop over the rounds a lease is looked up in.  It is given a turn for every
    round, which is all it takes unless [lastChecked] is the largest round: then the loop of
    the source does not end. *)
Fixpoint checkLeases (fuel : nat) (t : txTail) (txl : Txlease) (current rnd lastChecked : Round) : outcome unit :=
  if rnd <=? lastChecked then
    match fuel with
    | O => Err (Errorf "out of fuel")
    | S fuel' =>
        match tt_recent t !! rnd ≫= (fun m => rtm_txleases m !! txl) with
        | Some expires => if current <=? expires then Err LeaseInLedgerError else checkLeases fuel' t txl current (wrap64 (rnd + 1)) lastChecked
        | None => checkLeases fuel' t txl current (wrap64 (rnd + 1)) lastChecked
        end
    end
  else Ok tt.

Definition tail_checkDup (t : txTail) (proto : ConsensusParams) (current firstValid lastValid : Round) (txid : Txid) (txl : Txlease) : outcome unit :=
  _ ← failIf (lastValid <? tt_lowWaterMark t) (Errorf "txTail: tried to check for dup in missing round");
  _ ← (if proto_SupportTransactionLeases proto && negb (txl.2 =? 0) then
         let '(firstChecked, lastChecked) :=
           if proto_FixTransactionLeases proto then (Round_SubSaturate current (proto_MaxTxnLife proto), current) else (firstValid, lastValid) in
         checkLeases (Z.to_nat (lastChecked - firstChecked + 1)) t txl current firstChecked lastChecked
       else Ok tt);
  failIf (bool_decide (txid ∈ default ∅ (tt_lastValid t !! lastValid))) TransactionInLedgerError.

Section loading.
  Context (txID : Transaction -> Txid).

(** The transactions of one block: its leases, and the IDs by their last valid round. *)
Fixpoint loadTxns (consensusParams : ConsensusParams) (lowWaterMark : Round) (payset : list SignedTxnWithAD)
    (txleases : gmap Txlease Round) (lists : gmap Round (list Txid)) : gmap Txlease Round * gmap Round (list Txid) :=
  match payset with
  | [] => (txleases, lists)
  | txad :: rest =>
      let tx := stx_Txn (stad_SignedTxn txad) in
      let h := tx_Header tx in
      let txleases := if proto_SupportTransactionLeases consensusParams && negb (hdr_Lease h =? 0)
                      then <[(hdr_Sender h, hdr_Lease h) := hdr_LastValid h]> txleases else txleases in
      let lists := if lowWaterMark <? hdr_LastValid h
                   then <[hdr_LastValid h := default [] (lists !! hdr_LastValid h) ++ [txID tx]]> lists else lists in
      loadTxns consensusParams lowWaterMark rest txleases lists
  end.

Fixpoint loadBlocks (l : ledgerForTracker) (latest : Round) (n : nat) (old : Round) (recent : gmap Round roundTxMembers)
    (lists : gmap Round (list Txid)) : outcome (gmap Round roundTxMembers * gmap Round (list Txid)) :=
  match n with
  | O => Ok (recent, lists)
  | S n' =>
      blk ← lt_Block l old;
      payset ← DecodePaysetFlat blk;
      let consensusParams := ConsensusOf (bh_CurrentProtocol (blk_Header blk)) in
      let '(txleases, lists) := loadTxns consensusParams latest payset ∅ lists in
      loadBlocks l latest n' (old + 1) (<[old := mkroundTxMembers txleases consensusParams]> recent) lists
  end.

Definition loadFromDisk (l : ledgerForTracker) : outcome txTail :=
  let latest := lt_Latest l in
  hdr ← lt_BlockHdr l latest;
  let proto := ConsensusOf (bh_CurrentProtocol hdr) in
  let old := Round_SubSaturate (wrap64 (latest + 1)) (proto_MaxTxnLife proto) in
  '(recent, lists) ← loadBlocks l latest (Z.to_nat (latest - old + 1)) old ∅ ∅;
  Ok (mktxTail recent (list_to_set <$> lists) latest).
End loading.
