(* ===== verification/TxTailCorrect.v ===== *)
(** The tail of transactions answers for the whole chain: although it forgets old blocks and
    is loaded from a few of them after a restart, it rejects exactly the transactions that
    some block of the chain recorded, and the leases that are still held. *)
From S2P Require Import Prelude Config Basics Transactions Bookkeeping StateDelta CompactCert TxTail.
#[local] Open Scope string_scope.
#[local] Open Scope list_scope.
#[local] Open Scope Z_scope.

(** ** The chain *)

(** What a block records: its transactions, with the last round each is valid in, and the
    leases they took, with the round each expires in. *)
Record entry : Type := mkentry { en_round : Round; en_proto : ConsensusParams; en_txids : gmap Txid Round; en_leases : gmap Txlease Round }.

(** The blocks of a chain, the latest one first. *)
Definition latest (h : list entry) : Round := match h with e :: _ => en_round e | [] => -1 end.
Fixpoint chain (h : list entry) : Prop := match h with [] => True | e :: h' => en_round e = latest h' + 1 /\ chain h' end.

Definition entry_ok (L : Z) (e : entry) : Prop :=
  proto_MaxTxnLife (en_proto e) = L /\ proto_SupportTransactionLeases (en_proto e) = true /\
  (forall id lastValid, en_txids e !! id = Some lastValid -> lastValid <= en_round e + L) /\
  forall txl expires, en_leases e !! txl = Some expires -> expires <= en_round e + L.

Section chains.
  Context (txID : Transaction -> Txid).

Definition recordTxid (m : gmap Txid Round) (txad : SignedTxnWithAD) : gmap Txid Round :=
  let tx := stx_Txn (stad_SignedTxn txad) in <[txID tx := hdr_LastValid (tx_Header tx)]> m.
Definition recordLease (m : gmap Txlease Round) (txad : SignedTxnWithAD) : gmap Txlease Round :=
  let h := tx_Header (stx_Txn (stad_SignedTxn txad)) in
  if negb (hdr_Lease h =? 0) then <[(hdr_Sender h, hdr_Lease h) := hdr_LastValid h]> m else m.

(** A block of a ledger, as an entry of the chain: its transactions have different IDs. *)
Definition stored (l : ledgerForTracker) (e : entry) : Prop :=
  exists blk payset, lt_Block l (en_round e) = Ok blk /\ DecodePaysetFlat blk = Ok payset /\
    en_proto e = ConsensusOf (bh_CurrentProtocol (blk_Header blk)) /\
    NoDup (map (fun txad => txID (stx_Txn (stad_SignedTxn txad))) payset) /\
    en_txids e = fold_left recordTxid payset ∅ /\ en_leases e = fold_left recordLease payset ∅.

Definition entry_of (blk : Block) (delta : LedgerStateDelta) : entry :=
  mkentry (bh_Round (blk_Header blk)) (ConsensusOf (bh_CurrentProtocol (blk_Header blk))) (sd_Txids delta) (sd_Txleases delta).

(** Runs of the tracker: it is loaded from a ledger that holds the chain, follows new
    blocks, and is told of the rounds that were written to disk. *)
Inductive tails : list entry -> txTail -> Prop :=
| tail_loaded l h t hdr : h <> [] -> lt_Latest l = latest h -> Forall (stored l) h ->
    lt_BlockHdr l (latest h) = Ok hdr -> head h ≫= (fun e => Some (en_proto e)) = Some (ConsensusOf (bh_CurrentProtocol hdr)) ->
    loadFromDisk txID l = Ok t -> tails h t
| tail_block h t blk delta : tails h t -> bh_Round (blk_Header blk) = latest h + 1 -> tails (entry_of blk delta :: h) (newBlock blk delta t)
| tail_committed h t rnd : tails h t -> 0 <= rnd <= latest h -> tails h (committedUpTo rnd t).2.

(** ** Facts of chains *)

Lemma chain_rounds h : chain h -> forall e, e ∈ h -> 0 <= en_round e <= latest h.
Proof.
  induction h as [|e0 h IH]; intros Hc e He; [by apply elem_of_nil in He|]. destruct Hc as [Hr Hc].
  assert (-1 <= latest h) by (destruct h as [|e1 h]; cbn; [lia|]; specialize (IH Hc e1 ltac:(set_solver)); cbn in IH; lia).
  apply elem_of_cons in He as [->|He]; cbn; [lia|]. specialize (IH Hc e He). lia.
Qed.

Lemma chain_at h r : chain h -> 0 <= r <= latest h -> exists e, e ∈ h /\ en_round e = r.
Proof.
  induction h as [|e h IH]; cbn; intros Hc Hr; [lia|]. destruct Hc as [He Hc]. destruct (Z.eq_dec r (en_round e)) as [->|Hne]; [exists e; set_solver|].
  destruct IH as (e' & H1 & H2); [done|lia|]. exists e'. set_solver.
Qed.

Lemma chain_unique h e e' : chain h -> e ∈ h -> e' ∈ h -> en_round e = en_round e' -> e = e'.
Proof.
  induction h as [|e0 h IH]; intros Hc He He' Er; [by apply elem_of_nil in He|]. destruct Hc as [Hr Hc]. pose proof (chain_rounds h Hc) as Hb.
  apply elem_of_cons in He as [He|He]; apply elem_of_cons in He' as [He'|He']; subst; [done| | |by apply IH].
  - specialize (Hb e' He'). lia.
  - specialize (Hb e He). lia.
Qed.

(** ** What the tail knows *)

Section invariant.
  Context (L : Z) (HL : 1 <= L).

Record tail_inv (h : list entry) (t : txTail) : Prop := {
  ti_chain : chain h;
  ti_nonempty : h <> [];
  ti_entries : Forall (entry_ok L) h;
  ti_recent : forall e, e ∈ h -> latest h + 1 <= en_round e + L -> tt_recent t !! en_round e = Some (mkroundTxMembers (en_leases e) (en_proto e));
  ti_sound : forall r m, tt_recent t !! r = Some m -> exists e, e ∈ h /\ en_round e = r /\ m = mkroundTxMembers (en_leases e) (en_proto e);
  ti_txids : forall k id, latest h < k -> id ∈ default ∅ (tt_lastValid t !! k) <-> exists e, e ∈ h /\ en_txids e !! id = Some k;
  ti_low : tt_lowWaterMark t <= latest h }.

Lemma putLVs l : forall t k id, id ∈ default ∅ (tt_lastValid (fold_left (fun t '(txid, lv) => putLV lv txid t) l t) !! k) <->
  id ∈ default ∅ (tt_lastValid t !! k) \/ (id, k) ∈ l.
Proof.
  induction l as [|[id0 lv] l IH]; intros t k id; cbn [fold_left]; [set_solver|]. rewrite IH. cbn. destruct (Z.eq_dec k lv) as [->|Hne].
  - rewrite lookup_insert_eq. cbn. rewrite elem_of_union, elem_of_singleton, elem_of_cons. naive_solver.
  - rewrite lookup_insert_ne by done. rewrite elem_of_cons. naive_solver.
Qed.
Lemma putLVs_rest l : forall t, tt_recent (fold_left (fun t '(txid, lv) => putLV lv txid t) l t) = tt_recent t /\
  tt_lowWaterMark (fold_left (fun t '(txid, lv) => putLV lv txid t) l t) = tt_lowWaterMark t.
Proof. induction l as [|[id lv] l IH]; intros t; [done|]. cbn [fold_left]. by destruct (IH (putLV lv id t)) as [-> ->]. Qed.

Lemma newBlock_inv h t blk delta : tail_inv h t -> bh_Round (blk_Header blk) = latest h + 1 -> entry_ok L (entry_of blk delta) ->
  tail_inv (entry_of blk delta :: h) (newBlock blk delta t).
Proof.
  intros [H1 H2 H3 H4 H5 H6 H7] Hr He. unfold newBlock. destruct (tt_recent t !! bh_Round (blk_Header blk)) as [m|] eqn:Em.
  { exfalso. apply H5 in Em as (e & Hin & Er & _). apply (chain_rounds h H1) in Hin. lia. }
  set (t1 := t <| tt_recent := _ |>). destruct (putLVs_rest (map_to_list (sd_Txids delta)) t1) as [Er El].
  constructor; cbn [latest entry_of en_round].
  - by split.
  - done.
  - by constructor.
  - intros e [->|Hin]%elem_of_cons Hl; rewrite Er; cbn; [by rewrite lookup_insert_eq|].
    rewrite lookup_insert_ne; [apply H4; [done|lia]|]. apply (chain_rounds h H1) in Hin. lia.
  - intros r m. rewrite Er. cbn. destruct (Z.eq_dec r (bh_Round (blk_Header blk))) as [->|Hne].
    + rewrite lookup_insert_eq. intros [= <-]. exists (entry_of blk delta). set_solver.
    + rewrite lookup_insert_ne by done. intros (e & Hin & Hrest)%H5. exists e. set_solver.
  - intros k id Hk. rewrite putLVs. cbn. rewrite H6 by lia. rewrite elem_of_map_to_list. setoid_rewrite elem_of_cons. naive_solver.
  - rewrite El. cbn. lia.
Qed.

Lemma deleteRounds_above n : forall low m k, low + Z.of_nat n <= k -> deleteRounds n low m !! k = m !! k.
Proof. induction n as [|n IH]; intros low m k Hk; [done|]. cbn [deleteRounds]. rewrite IH by lia. by rewrite lookup_delete_ne by lia. Qed.

Lemma committedUpTo_inv h t rnd : latest h + L < two64 -> tail_inv h t -> 0 <= rnd <= latest h -> tail_inv h (committedUpTo rnd t).2.
Proof.
  intros Hfit [H1 H2 H3 H4 H5 H6 H7] Hr. unfold committedUpTo. set (maxlife := match tt_recent t !! rnd with Some m => _ | None => _ end).
  assert (maxlife = L \/ maxlife = 0 /\ rnd + L < latest h + 1) as Hml.
  { destruct (chain_at h rnd H1 Hr) as (e & Hin & Er). destruct (Z.le_gt_cases (latest h + 1) (rnd + L)) as [Hle|Hgt].
    - left. unfold maxlife. rewrite <- Er, (H4 e Hin) by lia. cbn. apply (proj1 (Forall_forall _ _) H3 e Hin).
    - unfold maxlife. destruct (tt_recent t !! rnd) as [m|] eqn:Em; [left|by right]. apply H5 in Em as (e' & Hin' & _ & ->). cbn.
      apply (proj1 (Forall_forall _ _) H3 e' Hin'). }
  cbn [snd]. constructor; cbn [tt_recent tt_lastValid tt_lowWaterMark]; try done.
  - intros e Hin Hl. rewrite map_lookup_filter_Some. split; [by apply H4|]. pose proof (chain_rounds h H1 e Hin). clearbody maxlife.
    rewrite wrap64_small by word. lia.
  - intros r m [Hm _]%map_lookup_filter_Some. by apply H5.
  - intros k id Hk. rewrite deleteRounds_above by lia. by apply H6.
  - lia.
Qed.

(** ** Loading *)

Notation id_of txad := (txID (stx_Txn (stad_SignedTxn txad))).
Notation last_valid txad := (hdr_LastValid (tx_Header (stx_Txn (stad_SignedTxn txad)))).

Lemma loadTxns_spec cp low payset : proto_SupportTransactionLeases cp = true -> forall ls lists,
  (loadTxns txID cp low payset ls lists).1 = fold_left recordLease payset ls /\
  forall k id, id ∈ default [] ((loadTxns txID cp low payset ls lists).2 !! k) <->
    id ∈ default [] (lists !! k) \/ low < k /\ exists txad, txad ∈ payset /\ id_of txad = id /\ last_valid txad = k.
Proof.
  intros Hs. induction payset as [|txad payset IH]; intros ls lists; cbn [loadTxns fold_left]; [split; [done|]; set_solver|].
  rewrite Hs. cbn [andb]. edestruct IH as [IH1 IH2]. split; [exact IH1|]. intros k id. rewrite IH2. clear IH IH1 IH2.
  assert (id ∈ default [] ((if low <? last_valid txad then <[last_valid txad := default [] (lists !! last_valid txad) ++ [id_of txad]]> lists else lists) !! k) <->
          id ∈ default [] (lists !! k) \/ low < k /\ id_of txad = id /\ last_valid txad = k) as ->.
  { destruct (Z.ltb_spec low (last_valid txad)); [|split; [by left|intros [|]; [done|lia]]]. destruct (Z.eq_dec k (last_valid txad)) as [->|Hne].
    - rewrite lookup_insert_eq. cbn. rewrite elem_of_app, list_elem_of_singleton. naive_solver.
    - rewrite lookup_insert_ne by done. naive_solver. }
  setoid_rewrite elem_of_cons. naive_solver.
Qed.

Lemma recordTxid_spec payset : NoDup (map (fun txad => id_of txad) payset) -> forall m, (forall txad, txad ∈ payset -> m !! id_of txad = None) ->
  forall k id, fold_left (recordTxid) payset m !! id = Some k <-> m !! id = Some k \/ exists txad, txad ∈ payset /\ id_of txad = id /\ last_valid txad = k.
Proof.
  induction payset as [|txad payset IH]; intros Hnd m Hm k id; cbn [fold_left]; [set_solver|]. cbn [map] in Hnd. apply NoDup_cons in Hnd as [Hni Hnd].
  rewrite IH; [|done|].
  - unfold recordTxid. setoid_rewrite elem_of_cons. destruct (Z.eq_dec id (id_of txad)) as [->|Hne].
    + rewrite lookup_insert_eq, (Hm txad) by set_solver. naive_solver.
    + rewrite lookup_insert_ne by done. naive_solver.
  - intros txad' Hin. unfold recordTxid. rewrite lookup_insert_ne; [apply Hm; set_solver|]. intros E. apply Hni. rewrite E. apply list_elem_of_fmap. by exists txad'.
Qed.

Lemma loadBlocks_spec l h lo n : chain h -> Forall (stored l) h -> Forall (entry_ok L) h -> forall old recent lists res,
  0 <= old -> old + Z.of_nat n <= latest h + 1 -> loadBlocks txID l lo n old recent lists = Ok res ->
  (forall r, old <= r < old + Z.of_nat n -> exists e, e ∈ h /\ en_round e = r /\ res.1 !! r = Some (mkroundTxMembers (en_leases e) (en_proto e))) /\
  (forall r, ~ old <= r < old + Z.of_nat n -> res.1 !! r = recent !! r) /\
  forall k id, id ∈ default [] (res.2 !! k) <->
    id ∈ default [] (lists !! k) \/ lo < k /\ exists e, e ∈ h /\ old <= en_round e < old + Z.of_nat n /\ en_txids e !! id = Some k.
Proof.
  intros Hc Hst Hok. induction n as [|n IH]; intros old recent lists res H0 Hn Hl; cbn [loadBlocks] in Hl.
  { injection Hl as <-. cbn [fst snd]. split_and!; [intros r Hr; lia|done|]. intros k id. split; [by left|]. intros [|(_ & e & _ & Hr & _)]; [done|lia]. }
  destruct (chain_at h old Hc ltac:(lia)) as (e & Hin & Er). destruct (proj1 (Forall_forall _ _) Hst e Hin) as (blk & payset & Hb & Hp & Hpr & Hnd & Hids & Hls).
  destruct (proj1 (Forall_forall _ _) Hok e Hin) as (_ & Hsup & _). rewrite Er in Hb. rewrite Hb in Hl. cbn [mbind outcome_bind] in Hl. rewrite Hp in Hl. cbn [mbind outcome_bind] in Hl.
  rewrite <- Hpr in Hl. destruct (loadTxns_spec (en_proto e) lo payset Hsup ∅ lists) as [Ht1 Ht2]. rewrite <- Hls in Ht1.
  destruct (loadTxns txID (en_proto e) lo payset ∅ lists) as [ls1 lists1]. cbn [fst snd] in Ht1, Ht2. subst ls1.
  destruct (IH (old + 1) _ _ res ltac:(lia) ltac:(lia) Hl) as (IH1 & IH2 & IH3). split_and!.
  - intros r Hr. destruct (Z.eq_dec r old) as [->|Hne]; [|apply IH1; lia]. exists e. split_and!; [done|done|]. rewrite IH2 by lia. by rewrite lookup_insert_eq.
  - intros r Hr. rewrite IH2 by lia. rewrite lookup_insert_ne by lia. done.
  - intros k id. rewrite IH3, Ht2. pose proof (recordTxid_spec payset Hnd ∅ ltac:(set_solver) k id) as Hrec. rewrite <- Hids, lookup_empty in Hrec.
    assert (forall e', e' ∈ h -> old <= en_round e' < old + Z.of_nat (S n) -> en_round e' <> old -> old + 1 <= en_round e' < old + 1 + Z.of_nat n) by lia.
    split.
    + intros [[|(Hk & Hx)]|(Hk & e' & Hin' & Hr & He')]; [by left| |].
      * right. split; [done|]. exists e. split_and!; [done|lia|lia|]. apply Hrec. by right.
      * right. split; [done|]. exists e'. split_and!; [done|lia|lia|done].
    + intros [|(Hk & e' & Hin' & Hr & He')]; [by left; left|]. destruct (Z.eq_dec (en_round e') old) as [Eo|Hne].
      * assert (e' = e) as -> by (apply (chain_unique h); [done..|lia]). left. right. split; [done|]. apply Hrec in He' as [|]; [done|done].
      * right. split; [done|]. exists e'. split_and!; [done|lia|lia|done].
Qed.

Lemma loadFromDisk_inv l h t hdr : h <> [] -> lt_Latest l = latest h -> Forall (stored l) h -> lt_BlockHdr l (latest h) = Ok hdr ->
  head h ≫= (fun e => Some (en_proto e)) = Some (ConsensusOf (bh_CurrentProtocol hdr)) -> chain h -> Forall (entry_ok L) h -> latest h + L < two64 ->
  loadFromDisk txID l = Ok t -> tail_inv h t.
Proof.
  intros Hne Hl Hst Hhdr Hpr Hc Hok Hfit Hload. unfold loadFromDisk in Hload. rewrite Hl, Hhdr in Hload. cbn [mbind outcome_bind] in Hload.
  assert (0 <= latest h) as H0 by (destruct h as [|e h']; [done|]; apply (chain_rounds _ Hc e); set_solver).
  assert (proto_MaxTxnLife (ConsensusOf (bh_CurrentProtocol hdr)) = L) as HML.
  { destruct h as [|e h']; [done|]. injection Hpr as <-. by apply Forall_cons in Hok as [[? _] _]. }
  rewrite HML in Hload. set (old := Round_SubSaturate (wrap64 (latest h + 1)) L) in Hload.
  assert (old = Z.max 0 (latest h + 1 - L)) as Eold.
  { unfold old, Round_SubSaturate. rewrite (wrap64_small (latest h + 1)) by word. destruct (Z.ltb_spec (latest h + 1) L); [lia|]. rewrite wrap64_small by word. lia. }
  destruct (loadBlocks txID l (latest h) (Z.to_nat (latest h - old + 1)) old ∅ ∅) as [[recent lists]| |] eqn:Eb; [|done|done]. injection Hload as <-.
  destruct (loadBlocks_spec l h (latest h) (Z.to_nat (latest h - old + 1)) Hc Hst Hok old ∅ ∅ _ ltac:(lia) ltac:(lia) Eb) as (H1 & H2 & H3). cbn [fst snd] in H1, H2, H3.
  constructor; cbn [tt_recent tt_lastValid tt_lowWaterMark]; try done.
  - intros e Hin Hr. pose proof (chain_rounds h Hc e Hin). destruct (H1 (en_round e)) as (e' & Hin' & Er & ->); [lia|].
    by rewrite (chain_unique h e' e Hc Hin' Hin Er).
  - intros r m Hm. destruct (decide (old <= r < old + Z.of_nat (Z.to_nat (latest h - old + 1)))) as [Hr|Hr].
    + destruct (H1 r Hr) as (e & Hin & Er & E). rewrite Hm in E. injection E as ->. eauto.
    + rewrite (H2 r Hr) in Hm. by rewrite lookup_empty in Hm.
  - intros k id Hk. rewrite lookup_fmap. specialize (H3 k id). rewrite lookup_empty in H3. cbn [default from_option] in H3.
    transitivity (id ∈ default [] (lists !! k)); [destruct (lists !! k); cbn; set_solver|]. rewrite H3. split.
    + intros [Hx|(_ & e & Hin & _ & He)]; [by apply elem_of_nil in Hx|eauto].
    + intros (e & Hin & He). right. split; [done|]. exists e. pose proof (chain_rounds h Hc e Hin). split_and!; [done| |lia|done].
      destruct (proj1 (Forall_forall _ _) Hok e Hin) as (_ & _ & Hlv & _). specialize (Hlv _ _ He). lia.
Qed.

Lemma tails_inv h t : tails h t -> chain h -> Forall (entry_ok L) h -> latest h + L < two64 -> tail_inv h t.
Proof.
  induction 1 as [l h t hdr H1 H2 H3 H4 H5 H6|h t blk delta Ht IH Hr|h t rnd Ht IH Hr]; intros Hc Hok Hfit.
  - by eapply loadFromDisk_inv.
  - destruct Hc as [Hl Hc]. apply Forall_cons in Hok as [He Hok]. apply newBlock_inv; [|done|done]. apply IH; [done|done|]. cbn in Hfit, Hl. lia.
  - apply committedUpTo_inv; [done| |done]. by apply IH.
Qed.

(** ** Answers *)

(** A block that holds the lease at [current], and one that recorded the transaction. *)
Definition holds_lease (current : Round) (txl : Txlease) (e : entry) : bool :=
  match en_leases e !! txl with Some expires => current <=? expires | None => false end.
Definition has_txid (txid : Txid) (lastValid : Round) (e : entry) : bool := bool_decide (en_txids e !! txid = Some lastValid).

(** The lease is held by a round the tail remembers. *)
Definition held (t : txTail) (txl : Txlease) (current r : Round) : Prop :=
  exists m expires, tt_recent t !! r = Some m /\ rtm_txleases m !! txl = Some expires /\ current <= expires.

Lemma checkLeases_spec t txl current last : last + 1 < two64 -> forall fuel rnd, 0 <= rnd -> last - rnd + 1 <= Z.of_nat fuel ->
  (checkLeases fuel t txl current rnd last = Err LeaseInLedgerError /\ exists r, rnd <= r <= last /\ held t txl current r) \/
  (checkLeases fuel t txl current rnd last = Ok tt /\ forall r, rnd <= r <= last -> ~ held t txl current r).
Proof.
  intros Hlast. induction fuel as [|fuel IH]; intros rnd H0 Hf; cbn [checkLeases]; (destruct (Z.leb_spec rnd last); [|right; split; [done|]; intros; lia]); [lia|].
  rewrite wrap64_small by word. destruct (IH (rnd + 1) ltac:(lia) ltac:(lia)) as [[E (r & Hr & Hh)]|[E Hn]]; rewrite E.
  - left. split; [|exists r; split; [lia|done]]. by destruct (_ ≫= _) as [x|]; [destruct (current <=? x)|].
  - destruct (tt_recent t !! rnd ≫= (fun m => rtm_txleases m !! txl)) as [x|] eqn:Ex; [destruct (Z.leb_spec current x)|].
    + left. split; [done|]. exists rnd. split; [lia|]. apply bind_Some in Ex as (m & Hm & Hx). by exists m, x.
    + right. split; [done|]. intros r Hr. destruct (Z.eq_dec r rnd) as [->|]; [|apply Hn; lia]. intros (m & x' & Hm & Hx & Hc). rewrite Hm in Ex. cbn in Ex. rewrite Hx in Ex. injection Ex as ->. lia.
    + right. split; [done|]. intros r Hr. destruct (Z.eq_dec r rnd) as [->|]; [|apply Hn; lia]. intros (m & x' & Hm & Hx & Hc). rewrite Hm in Ex. cbn in Ex. by rewrite Hx in Ex.
Qed.

(** A lease is held by a remembered round exactly when some block of the chain holds it. *)
Lemma held_chain h t txl : tail_inv h t ->
  (exists r, Z.max 0 (latest h + 1 - L) <= r <= latest h + 1 /\ held t txl (latest h + 1) r) <-> existsb (holds_lease (latest h + 1) txl) h = true.
Proof.
  intros [H1 H2 H3 H4 H5 H6 H7]. rewrite existsb_exists. unfold holds_lease, held. split.
  - intros (r & Hr & m & x & Hm & Hx & Hle). apply H5 in Hm as (e & Hin & Er & ->). exists e. split; [by apply list_elem_of_In|]. cbn in Hx. rewrite Hx. by apply Z.leb_le.
  - intros (e & Hin%list_elem_of_In & He). destruct (en_leases e !! txl) as [x|] eqn:Ex; [|done]. apply Z.leb_le in He. pose proof (chain_rounds h H1 e Hin).
    destruct (proj1 (Forall_forall _ _) H3 e Hin) as (_ & _ & _ & Hx). specialize (Hx _ _ Ex). exists (en_round e). split; [lia|].
    exists (mkroundTxMembers (en_leases e) (en_proto e)), x. split_and!; [apply H4; [done|lia]|done|done].
Qed.
End invariant.

End chains.

(** ** A chain of two blocks *)

Definition tail_header (r : Round) : BlockHeader := sample_header <| bh_Round := r |>.
Definition genesis_ledger : ledgerForTracker := mkledgerForTracker 0 (fun r => Ok (tail_header r)) (fun r => Ok (mkBlock (tail_header r) [])).
Definition genesis_entry : entry := mkentry 0 (ConsensusOf (bh_CurrentProtocol (tail_header 0))) ∅ ∅.
Definition first_block : Block := mkBlock (tail_header 1) [].
Definition first_delta : LedgerStateDelta := MakeStateDelta (tail_header 1) 0 0 0 <| sd_Txids := {[5 := 900]} |> <| sd_Txleases := {[(7, 9) := 900]} |>.
Definition loaded_tail : txTail := match loadFromDisk (fun _ => 0) genesis_ledger with Ok t => t | _ => mktxTail ∅ ∅ 0 end.
Definition two_blocks : list entry := [entry_of first_block first_delta; genesis_entry].
Definition later_tail : txTail := (committedUpTo 1 (newBlock first_block first_delta loaded_tail)).2.

Lemma later_tails : tails (fun _ => 0) two_blocks later_tail.
Proof.
  apply tail_committed; [|split; [done|vm_compute; congruence]]. apply tail_block; [|reflexivity].
  eapply (tail_loaded _ genesis_ledger _ _ (tail_header 0)); [done|reflexivity| |reflexivity|reflexivity|reflexivity].
  constructor; [|constructor]. exists (mkBlock (tail_header 0) []), []. split_and!; [reflexivity..|constructor|reflexivity|reflexivity].
Qed.

